(* ===== verification/_CoqProject ===== *)
-Q . S2P
Prelude.v
ListH.v
Pmm.v
SkewHeap.v
Sched.v
SchedProofs.v
Timers.v
CString.v
Printf.v
PrintfProofs.v
Bitmap.v
Vmm.v
VmmProofs.v
Pgtable.v
PgtableProofs.v
Addr.v
AddrProofs.v
Swap.v
SwapProofs.v
Kmalloc.v
KmallocProofs.v
Sync.v
SyncProofs.v
Philosophers.v
PhilMonitor.v
Proc.v
HashList.v
ProcProofs.v
Vfs.v
File.v
FileProofs.v
Kernel.v
KernelProofs.v
Sysfile.v
Pipe.v
Console.v
Disk.v
DiskProofs.v
Sfs.v
SfsProofs.v
SfsTrunc.v
SfsDir.v
SfsNode.v
SfsNodeProofs.v
SfsLookup.v
SfsMount.v
SfsMountProofs.v
Mksfs.v
FileData.v
Exec.v
Syscall.v
Trap.v
UserImage.v
SfsData.v
ExecProofs.v
TrapProofs.v
CheckSync.v
