(* ===== verification/Prelude.v ===== *)
(** * A verification of the ucore-on-RISC-V kernel

    ucore is a small teaching kernel for RISC-V 64: physical and virtual memory,
    processes and a stride scheduler, semaphores and monitors, a virtual file
    system with a simple file system, devices and pipes.  This library models the
    kernel's own C code as executable functions and proves what makes each part
    correct.  Where the code does not do what it means to, the theorem says what
    it does instead.

    ** The program and the files of the library

    Files come in pairs where a component is large: [X] holds the definitions,
    [XProofs] the invariants, lemmas and theorems.

    - [Prelude]: machine integers, the rounding macros of libs/defs.h, error codes
      of libs/error.h, the bit operations of libs/atomic.h, the state monad with
      panics and fuel, its tactics [msteps] and [keeps_auto], shared lemmas.
    - [ListH]: libs/list.h, intrusive circular lists at pointer level.  [dll h l e]
      says that the pointers [h] form the list [e] behind the head [l]; one lemma
      per list operation.  All components below keep their lists this way.
    - [Pmm]: kern/mm/default_pmm.c, the first-fit allocator of physical pages.
    - [SkewHeap]: libs/skew_heap.h with parent pointers.
    - [Sched], [SchedProofs], [Timers]: kern/schedule/sched.c and
      default_sched_stride.c, the run queue, [schedule], [wakeup_proc], timers.
    - [CString]: libs/string.c, hash.c, rand.c over a byte memory.
    - [Printf], [PrintfProofs]: libs/printfmt.c.
    - [Bitmap]: kern/fs/sfs/bitmap.c.
    - [Vmm], [VmmProofs]: kern/mm/vmm.c, areas of an address space, user memory
      checks and copies.
    - [Pgtable], [PgtableProofs]: kern/mm/pmm.c and mmu.h, Sv39 page tables over the
      page allocator.
    - [Addr], [AddrProofs]: the functions of vmm.c and proc.c that use areas and page
      tables together: [dup_mmap], [exit_mmap], [do_pgfault], [setup_pgdir].
    - [Swap], [SwapProofs]: kern/mm/swap.c, swap_clock.c, swap_fifo.c.
    - [Kmalloc], [KmallocProofs]: kern/mm/kmalloc.c over the page allocator.
    - [Sync], [SyncProofs]: kern/sync/wait.c, sem.c, monitor.c over the scheduler.
    - [Philosophers], [PhilMonitor], [CheckSync]: kern/sync/check_sync.c, the dining
      philosophers with semaphores and with a monitor, and their threads.
    - [Proc], [ProcProofs]: kern/process/proc.c, the process list, the pid hash, the
      pid allocator and the family links.
    - [Vfs]: kern/fs/iobuf.c and kern/fs/vfs/*.c, inodes, devices, path lookup.
    - [File], [FileProofs]: kern/fs/file.c and fs.c, open file tables.
    - [Kernel], [KernelProofs]: proc.c again, the life of a process with all its
      resources: [do_fork], [do_exit], [do_wait], the threads idle and init.
    - [Sysfile]: kern/fs/sysfile.c.
    - [HashList]: the hash lists of proc.c and sfs_inode.c, lists keyed by a hash.
    - [Pipe]: kern/fs/pipe/pipe.c and devs/dev_stdin.c.
    - [Console]: kern/driver/console.c, kern/libs/stdio.c and readline.c over the
      console of the firmware.
    - [Disk], [DiskProofs]: kern/fs/devs/*.c, kern/driver/ide.c and ramdisk.c,
      kern/fs/swap/swapfs.c, and kern/fs/sfs/sfs_io.c.
    - [Sfs], [SfsProofs], [SfsTrunc], [SfsDir]: the files of kern/fs/sfs/sfs_inode.c as
      byte sequences on a disk: free map, block map, [sfs_io_nolock], truncation,
      directory entries.
    - [SfsNode], [SfsNodeProofs], [SfsLookup]: the inode operations of sfs_inode.c
      with the inode cache, and path lookup through it.
    - [SfsMount], [SfsMountProofs]: kern/fs/sfs/sfs_fs.c and sfs.c, mounting, unmounting
      and synchronising the file system.
    - [Mksfs]: tools/mksfs.c, the program on the host that makes the disk image.
    - [FileData], [SfsData]: an interface between open files and the file systems below
      them, that reading delivers the bytes of the file, with the system call on top
      and the files of the simple file system as an instance.
    - [Exec], [UserImage], [ExecProofs]: the loader of proc.c ([load_icode],
      [do_execve]) with libs/elf.h, and the memory image it builds.
    - [Syscall]: kern/syscall/syscall.c, the table of system calls.
    - [Trap], [TrapProofs]: kern/trap/trap.c and [kernel_execve].

    ** How C is represented

    An object (a page, an area, a process, an inode) is an integer; a field is a
    function from objects to values, so that pointers may alias as in C and a
    store is [upd].  Integers are [Z], wrapped with [u8] ... [s64] where the code
    stores them in a narrower type.  A C function is a computation
    [M S A := S -> res (A * S)]: it returns, or it panics (a failed [assert], a call
    of [panic], a wild access), or the fuel of a loop runs out.  Results of
    [kmalloc] are arguments ([option]) in the components above the heap, so that
    every failure is covered.  Code that runs with interrupts off, or between two
    calls of [schedule], is atomic: the kernel is not preempted.  A function that
    sleeps returns the point where it goes on, and interleavings are sequences of
    such steps.

    ** What the theorems show

    - Memory.  Every run of page allocations and frees keeps the free list sorted,
      disjoint and complete and never hands out a page twice, as long as no block
      is freed above all free ones; that case corrupts the list, and an example
      ([double_allocation]) gets one page twice.  The heap on top of it hands out
      disjoint blocks over every run.  [page_insert] updates the abstract map of
      an address space at one address and nowhere else, and returns a page that
      lost its last reference; the page fault handler maps a page that was free, with
      the permissions the code derives from the area (an area without [VM_WRITE] gets
      no [PTE_R] and cannot be read: [readonly_area_unreadable]).  The clock takes
      the page second chance asks for, within two rounds; swapping a page out and in
      restores its contents if the slot of its address lies in the swap area, and
      panics otherwise.
    - Areas.  Insertion keeps areas sorted and disjoint; [user_mem_check] accepts
      exactly the ranges that the areas permit; [copy_string] writes no more than the buffer.
    - Processes.  [get_pid] returns a pid that no process has; the table, the hash
      and the family tree stay consistent through fork, exit and wait, and a
      reaped process is gone from all of them; [do_fork] of a thread sets up all
      components together.  The scheduler picks a process of minimal stride while
      the strides are within half the range of the counter (outside it a new process
      can be passed over: [new_process_starves]); its skew heap loses exactly the removed
      entry.  Children of a process that exits are handed to init.  Timers fire at
      their deadlines.
    - Synchronisation.  No more processes than the initial value are inside a
      semaphore over any interleaving; [up] hands over to the longest waiter.  Neighbours
      among the dining philosophers never eat together, and a hungry philosopher between
      two that do not eat is not left waiting, over any interleaving, in both versions.
    - Files.  Any sequence of file operations keeps the reference and open counts
      equal to what the tables hold, and trips an assertion only where the inode has no
      such operation (reading a directory); pipes are queues while nobody waits
      ([quiet_pipe]), and a reader of an empty pipe sleeps until it is woken.
    - The simple file system.  A file is a byte sequence: writing splices it, reading
      returns its slice, in transfers of at most 4096 bytes, which is what sysfile.c
      asks for; truncation cuts or extends it, up to the 1036 blocks of a block map; and
      neither touches another file or the free map beyond the blocks it takes and
      gives back.  Beyond these bounds the code overwrites other files or panics
      ([whole_blocks_overrun], [full_file_write_panics]).  A directory
      search agrees with a search of the list of names.  Lookup of a path returns an
      inode of the cache with the contents of the disk and never a second one for
      the same block.  What [sfs_fsync] and [sfs_sync] write is what a later load or
      mount reads.  Every image that [mksfs] makes is mounted by the kernel.  The result
      [-E_NO_MEM] is possible only where a call of [kmalloc] in this very run
      failed: the same run with [must kmalloc], which panics then, panics.
    - Programs.  Loading a segment puts the bytes of the file at its addresses and
      zeros behind them, with the pages of the segment newly allocated, and changes
      no other byte of the address space.  The heap takes pages from the same free
      list meanwhile, and swapping may be on.
    - Traps.  A program goes on after a trap only if it has not been killed and need
      not be rescheduled; a fault outside its areas stops the kernel.
    - The console.  [readline] returns what a line editor on lists returns, and echoes
      what it echoes.
    - Library.  The formatter prints the text of its format, [snprintf] stays in
      its buffer, printing and reading a number is the identity.

    ** Fuel and bounds

    Loops over a list take as fuel a bound on its length that the invariant
    provides ([list_fuel], the number of pages, processes or areas), loops over
    numbers the number of rounds.  Theorems that a function returns state the fuel
    and prove it enough; where a loop may not end (the clock on an empty list) that
    is a theorem as well.  [user_mem_check] may visit [2^32] areas: its fuel is the
    number of areas of the address space.

    [do_wait], [trap] and the other calls that may sleep return a thread; a theorem
    that they return speaks of all states in which the thread is resumed.

    ** Not modelled

    Start-up and hardware (init.c, entry.S, trapentry.S, switch.S, sbi.h, clock and
    interrupt controller, the memory map in [page_init]): assembly, firmware calls
    and register accesses; of riscv.h only the constants the handlers use.  The self
    tests (the check_ functions), which only assert what the theorems state.
    Debugging and logging (kdebug.c, kmonitor.c, the log macros): output only.
    sfs_lock.c: its semaphores order operations that are atomic here.  Of the host tools
    sign.c and vector.c, which pad and print files, and the command line of mksfs.c; the
    user programs, which do not run in the kernel.

    Where a component uses the heap only for buffers and objects ([Exec], [SfsNode]),
    [kmalloc] and [kfree] are a parameter with named laws, for the sizes the component asks
    for: [AllocLaws] for the file system, with a bump allocator as instance, and
    [HeapLaws] for the loader, where the heap lies on the page allocator, with a heap of
    whole pages as instance.  ([Kmalloc] itself keeps its blocks in a memory of its own,
    cell by cell.)  User memory in [Exec] is the view of
    the physical frames through the page table that [user_byte] gives. *)

From Stdlib Require Export ZArith Lia.
From stdpp Require Export base tactics numbers gmap strings option list.

#[export] Set Default Goal Selector "!".
#[global] Open Scope Z_scope.


(** ** Machine integers

    C integers are [Z]; a value stored in a field of width [w] is wrapped
    explicitly with the functions below. *)

Definition u8 (z : Z) : Z := z mod 2 ^ 8.
Definition u16 (z : Z) : Z := z mod 2 ^ 16.
Definition u32 (z : Z) : Z := z mod 2 ^ 32.
Definition u64 (z : Z) : Z := z mod 2 ^ 64.

(** Two's complement reinterpretation of a wrapped value. *)
Definition s32 (z : Z) : Z := (z + 2 ^ 31) mod 2 ^ 32 - 2 ^ 31.
Definition s64 (z : Z) : Z := (z + 2 ^ 63) mod 2 ^ 64 - 2 ^ 63.

(** A C condition: every non-zero integer is true. *)
Definition truth (z : Z) : bool := negb (z =? 0).

(** ** libs/defs.h: the rounding macros, at [size_t] width *)

Definition ROUNDDOWN (a n : Z) : Z := let a' := u64 a in u64 (a' - a' mod n).

Definition ROUNDUP (a n : Z) : Z := let n' := u64 n in ROUNDDOWN (u64 (u64 a + n' - 1)) n'.

Definition ROUNDUP_DIV (a n : Z) : Z := let n' := u64 n in u64 (a + n' - 1) / n'.

(** ** libs/error.h *)

Definition E_BAD_PROC : Z := 2.
Definition E_INVAL : Z := 3.
Definition E_NO_MEM : Z := 4.
Definition E_NO_FREE_PROC : Z := 5.
Definition E_INVAL_ELF : Z := 8.
Definition E_KILLED : Z := 9.
Definition E_TOO_BIG : Z := 12.
Definition E_NO_DEV : Z := 13.
Definition E_NA_DEV : Z := 14.
Definition E_BUSY : Z := 15.
Definition E_NOENT : Z := 16.
Definition E_ISDIR : Z := 17.
Definition E_NOTDIR : Z := 18.
Definition E_UNIMP : Z := 20.
Definition E_MAX_OPEN : Z := 22.
Definition E_EXISTS : Z := 23.

(** ** libs/atomic.h: bit operations on one machine word *)

Definition BIT_MASK (nr : Z) : Z := Z.shiftl 1 (nr mod 64).

Definition set_bit (nr word : Z) : Z := Z.lor word (BIT_MASK nr).

Definition clear_bit (nr word : Z) : Z := Z.land word (u64 (Z.lnot (BIT_MASK nr))).

Definition change_bit (nr word : Z) : Z := Z.lxor word (BIT_MASK nr).

Definition test_bit (nr word : Z) : bool := truth (Z.land (Z.shiftr word nr) 1).

(** ** Results and the state monad

    A kernel function returns, panics (a failed [assert] or a call of
    [panic]) or, for the bounded translation of a C loop, runs out of fuel. *)

Inductive res (A : Type) : Type :=
| Ok (a : A)
| Panic
| Fuel.
Arguments Ok {A} a.
Arguments Panic {A}.
Arguments Fuel {A}.

Definition M (S A : Type) : Type := S → res (A * S).

#[global] Instance M_ret {S} : MRet (M S) := λ A a s, Ok (a, s).

#[global] Instance M_bind {S} : MBind (M S) := λ A B k m s,
  match m s with
  | Ok (a, s') => k a s'
  | Panic => Panic
  | Fuel => Fuel
  end.

Definition gets {S A} (f : S → A) : M S A := λ s, Ok (f s, s).
Definition modify {S} (f : S → S) : M S unit := λ s, Ok (tt, f s).
Definition panic {S A} : M S A := λ _, Panic.
Definition out_of_fuel {S A} : M S A := λ _, Fuel.
Definition assert {S} (b : bool) : M S unit := λ s, if b then Ok (tt, s) else Panic.
Definition when {S} (b : bool) (m : M S unit) : M S unit := if b then m else mret tt.

(** An [assert] whose condition reads the state. *)
Definition asserts {S} (f : S → bool) : M S unit := λ s, if f s then Ok (tt, s) else Panic.

(** [for (i = from; i != from + n; i ++) body] *)
Fixpoint for_range {S} (from : Z) (n : nat) (body : Z → M S unit) : M S unit :=
  match n with
  | O => mret tt
  | S n' => body from;; for_range (from + 1) n' body
  end.

(** A computation on a part of the state. *)
Definition zoom {S T A} (get : S → T) (put : T → S → S) (m : M T A) : M S A := λ s,
  match m (get s) with
  | Ok (a, t) => Ok (a, put t s)
  | Panic => Panic
  | Fuel => Fuel
  end.

(** A store to one cell of a field that all objects of a type have: fields are
    functions from objects to values. *)
Definition upd {K V} `{!EqDecision K} (k : K) (v : V) (f : K → V) : K → V :=
  λ x, if decide (k = x) then v else f x.

(** ** Lemmas and tactics *)

Lemma upd_eq {K V} `{!EqDecision K} (k : K) (v : V) f : upd k v f k = v.
Proof. unfold upd. by case_decide. Qed.

Lemma upd_ne {K V} `{!EqDecision K} (k x : K) (v : V) f : k ≠ x → upd k v f x = f x.
Proof. unfold upd. by case_decide. Qed.

Create HintDb ucore.
Create Rewrite HintDb ucore.

Lemma bind_ok {S A B} (m : M S A) (k : A → M S B) s a s' :
  m s = Ok (a, s') → (m ≫= k) s = k a s'.
Proof. intros H. unfold mbind, M_bind. by rewrite H. Qed.

Lemma bind_panic {S A B} (m : M S A) (k : A → M S B) s : m s = Panic → (m ≫= k) s = Panic.
Proof. intros H. unfold mbind, M_bind. by rewrite H. Qed.

Lemma bind_ok_inv {S A B} (m : M S A) (k : A → M S B) s r :
  (m ≫= k) s = Ok r → ∃ a s', m s = Ok (a, s') ∧ k a s' = Ok r.
Proof.
  unfold mbind, M_bind. destruct (m s) as [[a s']| |] eqn:E; [|done|done].
  intros H. eauto.
Qed.

Lemma bind_modify {S B} (f : S → S) (k : unit → M S B) s :
  (modify f ≫= k) s = k tt (f s).
Proof. done. Qed.

Lemma bind_gets {S A B} (f : S → A) (k : A → M S B) s :
  (gets f ≫= k) s = k (f s) s.
Proof. done. Qed.

Lemma bind_ret {S A B} (a : A) (k : A → M S B) s :
  ((mret a : M S A) ≫= k) s = k a s.
Proof. done. Qed.

Lemma bind_assert {S B} (b : bool) (k : unit → M S B) s :
  b = true → (assert b ≫= k) s = k tt s.
Proof. by intros ->. Qed.

Lemma bind_asserts {S B} (f : S → bool) (k : unit → M S B) s :
  f s = true → (asserts f ≫= k) s = k tt s.
Proof. intros H. unfold mbind, M_bind, asserts. by rewrite H. Qed.

Lemma zoom_ok {S T A} (get : S → T) put (m : M T A) s a t :
  m (get s) = Ok (a, t) → zoom get put m s = Ok (a, put t s).
Proof. intros H. unfold zoom. by rewrite H. Qed.

Lemma bind_assoc {S A B C} (m : M S A) (k : A → M S B) (k' : B → M S C) s :
  ((m ≫= k) ≫= k') s = (m ≫= λ a, k a ≫= k') s.
Proof. unfold mbind, M_bind. by destruct (m s) as [[]| |]. Qed.

Lemma bind_when_modify {S B} (b : bool) (f : S → S) (k : unit → M S B) s :
  (when b (modify f) ≫= k) s = k tt (if b then f s else s).
Proof. by destruct b. Qed.

Lemma bind_zoom_modify {S T B} (get : S → T) put (f : T → T) (k : unit → M S B) s :
  (zoom get put (modify f) ≫= k) s = k tt (put (f (get s)) s).
Proof. done. Qed.

(** Runs the head of a monadic computation applied to a state. *)
Ltac mstep :=
  first
    [ rewrite bind_assoc | rewrite bind_modify | rewrite bind_gets | rewrite bind_ret
    | rewrite bind_when_modify | rewrite bind_zoom_modify
    | rewrite bind_assert by (eauto with ucore)
    | rewrite bind_asserts by (eauto with ucore) ];
  cbn beta.

Ltac msteps := repeat mstep.

(** *** What a computation keeps

    [keeps R m]: every run of [m] that returns relates its two states by [R]. *)

Definition keeps {S A} (R : S → S → Prop) (m : M S A) : Prop :=
  ∀ s a s', m s = Ok (a, s') → R s s'.

Section keeps.
Context {S : Type} (R : S → S → Prop) `{!PreOrder R}.

Lemma keeps_ret {A} (a : A) : keeps R (mret a).
Proof. intros s a' s' [= _ <-]. reflexivity. Qed.

Lemma keeps_gets {A} (f : S → A) : keeps R (gets f).
Proof. intros s a' s' [= _ <-]. reflexivity. Qed.

Lemma keeps_modify (f : S → S) : (∀ s, R s (f s)) → keeps R (modify f).
Proof. intros H s a' s' [= _ <-]. apply H. Qed.

Lemma keeps_panic {A} : keeps R (panic : M S A).
Proof. by intros s a s'. Qed.

Lemma keeps_out_of_fuel {A} : keeps R (out_of_fuel : M S A).
Proof. by intros s a s'. Qed.

Lemma keeps_assert b : keeps R (assert b).
Proof. intros s a s'. unfold assert. destruct b; [|done]. intros [= _ <-]. reflexivity. Qed.

Lemma keeps_asserts f : keeps R (asserts f).
Proof. intros s a s'. unfold asserts. destruct (f s); [|done]. intros [= _ <-]. reflexivity. Qed.

Lemma keeps_when b (m : M S unit) : keeps R m → keeps R (when b m).
Proof. intros H. destruct b; [done|apply keeps_ret]. Qed.

Lemma keeps_if {A} (b : bool) (m1 m2 : M S A) : keeps R m1 → keeps R m2 → keeps R (if b then m1 else m2).
Proof. by destruct b. Qed.

Lemma keeps_bind {A B} (m : M S A) (k : A → M S B) :
  keeps R m → (∀ a, keeps R (k a)) → keeps R (m ≫= k).
Proof.
  intros Hm Hk s b s' (a & s1 & E1 & E2)%bind_ok_inv. etrans; [by eapply Hm|by eapply Hk].
Qed.

Lemma keeps_zoom {T A} (get : S → T) put (m : M T A) :
  (∀ s t, R s (put t s)) → keeps R (zoom get put m).
Proof. intros H s a s'. unfold zoom. destruct (m (get s)) as [[]| |]; [|done|done]. intros [= _ <-]. apply H. Qed.
End keeps.

#[export] Hint Resolve keeps_ret keeps_gets keeps_panic keeps_out_of_fuel keeps_assert keeps_asserts : ucore.

(** Splits a computation along the monad; what remains are the stores. *)
Ltac keeps_step :=
  first
    [ progress intros
    | apply keeps_bind; [exact _|..]
    | apply keeps_when; [exact _|..]
    | apply keeps_if
    | apply keeps_ret; exact _ | apply keeps_gets; exact _ | apply keeps_panic
    | apply keeps_out_of_fuel | apply keeps_assert; exact _ | apply keeps_asserts; exact _
    | apply keeps_zoom; intros
    | apply keeps_modify; intros
    | match goal with |- keeps _ (match ?x with _ => _ end) => destruct x end ].

Ltac keeps_auto := repeat keeps_step.

(** Turns boolean tests on integers into propositions. *)
Ltac b2p :=
  repeat match goal with
  | H : (_ && _)%bool = true |- _ => apply andb_prop in H as [? ?]
  | H : (_ || _)%bool = false |- _ => apply orb_false_elim in H as [? ?]
  | H : (_ <? _) = true |- _ => apply Z.ltb_lt in H
  | H : (_ <? _) = false |- _ => apply Z.ltb_ge in H
  | H : (_ <=? _) = true |- _ => apply Z.leb_le in H
  | H : (_ <=? _) = false |- _ => apply Z.leb_gt in H
  | H : (_ =? _) = true |- _ => apply Z.eqb_eq in H
  | H : (_ =? _) = false |- _ => apply Z.eqb_neq in H
  | H : negb _ = true |- _ => apply negb_true_iff in H
  | H : negb _ = false |- _ => apply negb_false_iff in H
  end.

Lemma filter_none {A} (P : A → Prop) `{!∀ x, Decision (P x)} (l : list A) :
  (∀ x, x ∈ l → ¬ P x) → filter P l = [].
Proof.
  induction l as [|x l IH]; intros Hall; [done|]. rewrite filter_cons_False by (apply Hall; set_solver).
  apply IH. set_solver.
Qed.

Lemma last_fmap_snoc {A B} (f : A → B) (l : list A) x : last (f <$> l ++ [x]) = Some (f x).
Proof. rewrite fmap_app. simpl. apply last_snoc. Qed.

Lemma head_fmap {A B} (f : A → B) (l : list A) : head (f <$> l) = f <$> head l.
Proof. by destruct l. Qed.

(** *** Wrapping of values in range is the identity *)

Lemma u32_small z : 0 ≤ z < 2 ^ 32 → u32 z = z.
Proof. intros. by apply Z.mod_small. Qed.

Lemma u64_small z : 0 ≤ z < 2 ^ 64 → u64 z = z.
Proof. intros. by apply Z.mod_small. Qed.

Lemma u32_range z : 0 ≤ u32 z < 2 ^ 32.
Proof. unfold u32. apply Z.mod_pos_bound. lia. Qed.

Lemma u64_range z : 0 ≤ u64 z < 2 ^ 64.
Proof. unfold u64. apply Z.mod_pos_bound. lia. Qed.

Lemma s64_add_l a b : s64 (a + b) = s64 (s64 a + b).
Proof.
  unfold s64. f_equal. replace ((a + 2 ^ 63) mod 2 ^ 64 - 2 ^ 63 + b + 2 ^ 63) with ((a + 2 ^ 63) mod 2 ^ 64 + b) by lia.
  rewrite Zplus_mod_idemp_l. f_equal. lia.
Qed.

Lemma s64_idem z : s64 (s64 z) = s64 z.
Proof. transitivity (s64 (s64 z + 0)); [by rewrite Z.add_0_r|]. by rewrite <-s64_add_l, Z.add_0_r. Qed.

Lemma s64_small z : - 2 ^ 63 ≤ z < 2 ^ 63 → s64 z = z.
Proof. intros. unfold s64. rewrite Z.mod_small; lia. Qed.

Lemma s32_small z : - 2 ^ 31 ≤ z < 2 ^ 31 → s32 z = z.
Proof. intros. unfold s32. rewrite Z.mod_small; lia. Qed.

#[export] Hint Rewrite u32_small u64_small s32_small using lia : ucore.
#[export] Hint Resolve u32_range u64_range : ucore.

(** *** Rounding *)

Lemma ROUNDDOWN_spec a n :
  0 ≤ a < 2 ^ 64 → 0 < n →
  ROUNDDOWN a n = a - a mod n.
Proof.
  intros Ha Hn. unfold ROUNDDOWN.
  pose proof (Z.mod_pos_bound a n Hn). pose proof (Z.mod_le a n ltac:(lia) Hn).
  rewrite (u64_small a) by lia. apply u64_small. lia.
Qed.

Lemma ROUNDUP_spec a n :
  0 ≤ a → 0 < n < 2 ^ 64 → a + n - 1 < 2 ^ 64 →
  ROUNDUP a n = (a + n - 1) / n * n.
Proof.
  intros Ha Hn Hb. unfold ROUNDUP.
  rewrite (u64_small n), (u64_small a), (u64_small (a + n - 1)), ROUNDDOWN_spec by lia.
  pose proof (Z.div_mod (a + n - 1) n ltac:(lia)) as E.
  rewrite (Z.mul_comm _ n). lia.
Qed.

(** *** Bits of a word *)

Lemma test_bit_testbit nr w : 0 ≤ nr → test_bit nr w = Z.testbit w nr.
Proof.
  intros Hnr. unfold test_bit, truth.
  replace 1 with (Z.ones 1) by done. rewrite Z.land_ones by lia.
  rewrite Z.shiftr_div_pow2 by done.
  rewrite (Z.testbit_eqb w nr) by done. change (2 ^ 1) with 2.
  pose proof (Z.mod_pos_bound (w / 2 ^ nr) 2 ltac:(lia)).
  assert ((w / 2 ^ nr) mod 2 = 0 ∨ (w / 2 ^ nr) mod 2 = 1) as [-> | ->] by lia; done.
Qed.

Lemma BIT_MASK_testbit nr i : 0 ≤ nr < 64 → Z.testbit (BIT_MASK nr) i = bool_decide (i = nr).
Proof.
  intros. unfold BIT_MASK. rewrite Z.mod_small by lia.
  rewrite Z.shiftl_1_l, Z.pow2_bits_eqb by lia.
  case_bool_decide; subst; [apply Z.eqb_refl | apply Z.eqb_neq; lia].
Qed.

Lemma test_set_bit i nr w :
  0 ≤ i → 0 ≤ nr < 64 → test_bit i (set_bit nr w) = (bool_decide (i = nr) || test_bit i w)%bool.
Proof.
  intros. rewrite !test_bit_testbit by lia. unfold set_bit.
  rewrite Z.lor_spec, BIT_MASK_testbit by lia. apply orb_comm.
Qed.

Lemma test_clear_bit i nr w :
  0 ≤ i < 64 → 0 ≤ nr < 64 →
  test_bit i (clear_bit nr w) = (negb (bool_decide (i = nr)) && test_bit i w)%bool.
Proof.
  intros. rewrite !test_bit_testbit by lia. unfold clear_bit, u64.
  rewrite Z.land_spec, Z.mod_pow2_bits_low by lia.
  rewrite Z.lnot_spec, BIT_MASK_testbit by lia. apply andb_comm.
Qed.

Lemma test_bit_0 i : test_bit i 0 = false.
Proof. unfold test_bit. by rewrite Z.shiftr_0_l. Qed.
