(* ===== verification/ListH.v ===== *)
(** * libs/list.h: intrusive circular doubly linked lists

    The two pointer fields of a [list_entry_t] are a function from entries to
    their contents, one cell per entry; a store is an update of that function.
    [dll h hd l] says that the entries [l], in this order, hang on the list
    head [hd]; every operation of list.h is proved to implement its effect on
    [l], which is what the clients of the header rely on. *)

From S2P Require Import Prelude.

Section list_h.
Context {K : Type} `{!EqDecision K}.

(** [struct list_entry] *)
Record list_entry := ListEntry { le_prev : K; le_next : K }.

(** The contents of every entry. *)
Definition lheap := K → list_entry.

(** [e->prev = v] and [e->next = v] *)
Definition set_prev (e v : K) (h : lheap) : lheap := upd e (ListEntry v (le_next (h e))) h.
Definition set_next (e v : K) (h : lheap) : lheap := upd e (ListEntry (le_prev (h e)) v) h.

Definition list_init (elm : K) (h : lheap) : lheap := set_prev elm elm (set_next elm elm h).

Definition __list_add (elm prev next : K) (h : lheap) : lheap :=
  let h := set_prev next elm h in
  let h := set_next prev elm h in
  let h := set_next elm next h in
  set_prev elm prev h.

Definition __list_del (prev next : K) (h : lheap) : lheap :=
  let h := set_next prev next h in
  set_prev next prev h.

Definition list_next (h : lheap) (listelm : K) : K := le_next (h listelm).

Definition list_prev (h : lheap) (listelm : K) : K := le_prev (h listelm).

Definition list_add_before (listelm elm : K) (h : lheap) : lheap :=
  __list_add elm (le_prev (h listelm)) listelm h.

Definition list_add_after (listelm elm : K) (h : lheap) : lheap :=
  __list_add elm listelm (le_next (h listelm)) h.

Definition list_add (listelm elm : K) (h : lheap) : lheap := list_add_after listelm elm h.

Definition list_del (listelm : K) (h : lheap) : lheap :=
  __list_del (le_prev (h listelm)) (le_next (h listelm)) h.

Definition list_del_init (listelm : K) (h : lheap) : lheap := list_init listelm (list_del listelm h).

Definition list_empty (h : lheap) (list : K) : bool := bool_decide (le_next (h list) = list).

(** ** Paths of linked entries *)

(** Consecutive entries of a path point at each other. *)
Fixpoint linked (h : lheap) (path : list K) : Prop :=
  match path with
  | x :: ((y :: _) as r) => le_next (h x) = y ∧ le_prev (h y) = x ∧ linked h r
  | _ => True
  end.

(** [l] is the content of the circular list with head [hd]. *)
Definition dll (h : lheap) (hd : K) (l : list K) : Prop :=
  NoDup (hd :: l) ∧ linked h (hd :: l ++ [hd]).

Implicit Types (h : lheap) (l path : list K).

(** *** The primitive stores *)

Lemma set_next_next e v h x : le_next (set_next e v h x) = if decide (e = x) then v else le_next (h x).
Proof. unfold set_next, upd. by repeat case_decide; subst. Qed.

Lemma set_next_prev e v h x : le_prev (set_next e v h x) = le_prev (h x).
Proof. unfold set_next, upd. by repeat case_decide; subst. Qed.

Lemma set_prev_prev e v h x : le_prev (set_prev e v h x) = if decide (e = x) then v else le_prev (h x).
Proof. unfold set_prev, upd. by repeat case_decide; subst. Qed.

Lemma set_prev_next e v h x : le_next (set_prev e v h x) = le_next (h x).
Proof. unfold set_prev, upd. by repeat case_decide; subst. Qed.

(** Reads through the primitive stores. *)
Ltac lh := rewrite ?set_next_next, ?set_next_prev, ?set_prev_prev, ?set_prev_next.
Ltac lhs := repeat (progress (lh; repeat case_decide; simplify_eq)); try done.

Lemma linked_cons h x y r :
  linked h (x :: y :: r) ↔ le_next (h x) = y ∧ le_prev (h y) = x ∧ linked h (y :: r).
Proof. done. Qed.

Lemma linked_app h p x q :
  linked h (p ++ x :: q) ↔ linked h (p ++ [x]) ∧ linked h (x :: q).
Proof.
  induction p as [|a p IH]; [simpl; naive_solver|].
  destruct p as [|b p]; simpl in *; [tauto|]. rewrite IH. tauto.
Qed.

(** A path only depends on the [next] of all but its last entry and on the
    [prev] of all but its first. *)
Lemma linked_frame h h' path :
  (∀ x, x ∈ removelast path → le_next (h' x) = le_next (h x)) →
  (∀ x, x ∈ tail path → le_prev (h' x) = le_prev (h x)) →
  linked h path → linked h' path.
Proof.
  induction path as [|a path IH]; [done|]. destruct path as [|b path]; [done|].
  intros Hn Hp (H1 & H2 & H3). split_and!.
  - rewrite Hn; [done|]. simpl. set_solver.
  - rewrite Hp; [done|]. simpl. set_solver.
  - apply IH; [| |done].
    + intros x Hx. apply Hn. simpl in *. set_solver.
    + intros x Hx. apply Hp. simpl in *. set_solver.
Qed.

(** No entry of a path is the source of two links in the same direction. *)
Definition simple_path (path : list K) : Prop :=
  NoDup (removelast path) ∧ NoDup (tail path).

Lemma removelast_mid (p q : list K) x y :
  removelast (p ++ x :: y :: q) = p ++ x :: removelast (y :: q).
Proof. by rewrite removelast_app. Qed.

Lemma simple_mid p x y q :
  simple_path (p ++ x :: y :: q) →
  (x ∉ p) ∧ (x ∉ removelast (y :: q)) ∧ (y ∉ tail (p ++ [x])) ∧ (y ∉ q).
Proof.
  intros [H1 H2]. rewrite removelast_mid in H1.
  apply NoDup_app in H1 as (_ & Hp & H1). apply NoDup_cons in H1 as [Hx _].
  replace (p ++ x :: y :: q) with ((p ++ [x]) ++ y :: q) in H2 by by rewrite <-app_assoc.
  destruct p as [|a p]; simpl in H2 |- *.
  - apply NoDup_cons in H2 as [? _]. set_solver.
  - apply NoDup_app in H2 as (_ & Ht & H2). apply NoDup_cons in H2 as [? _]. set_solver.
Qed.

Lemma removelast_sub (p : list K) x : x ∈ removelast p → x ∈ p.
Proof.
  induction p as [|a [|b p] IH]; [set_solver|set_solver|].
  change (removelast (a :: b :: p)) with (a :: removelast (b :: p)). set_solver.
Qed.

Lemma tail_sub (p : list K) x : x ∈ tail p → x ∈ p.
Proof. destruct p; simpl; set_solver. Qed.

(** Inserting between two neighbours. *)
Lemma linked_list_add h p x y q e :
  simple_path (p ++ x :: y :: q) → e ∉ p ++ x :: y :: q →
  linked h (p ++ x :: y :: q) →
  linked (__list_add e x y h) (p ++ x :: e :: y :: q).
Proof.
  intros Hs He Hl. apply simple_mid in Hs as (H1 & H2 & H3 & H4).
  apply linked_app in Hl as [Hl1 Hl2]. apply linked_app. split.
  - eapply linked_frame; [| |exact Hl1]; intros z Hz; unfold __list_add.
    + rewrite removelast_last in Hz. lhs; set_solver.
    + pose proof (tail_sub _ _ Hz). lhs; set_solver.
  - destruct Hl2 as (Hxy & Hyx & Hl2). unfold __list_add.
    rewrite !linked_cons. split_and!; [lhs; set_solver..|].
    eapply linked_frame; [| |exact Hl2]; intros z Hz.
    + pose proof (removelast_sub _ _ Hz). lhs; set_solver.
    + simpl in Hz. lhs; set_solver.
Qed.

(** Deleting between two neighbours. *)
Lemma linked_list_del h p x e y q :
  simple_path (p ++ x :: e :: y :: q) →
  linked h (p ++ x :: e :: y :: q) →
  linked (__list_del x y h) (p ++ x :: y :: q).
Proof.
  intros Hs Hl.
  pose proof Hs as (H1 & H2 & _ & _)%simple_mid.
  replace (p ++ x :: e :: y :: q) with ((p ++ [x]) ++ e :: y :: q) in Hs, Hl
    by by rewrite <-app_assoc.
  apply simple_mid in Hs as (H3 & H4 & H5 & H6).
  apply linked_app in Hl as [Hl1 (Hey & Hye & Hl2)].
  rewrite <-app_assoc in Hl1. apply linked_app in Hl1 as [Hl1 _].
  apply linked_app. unfold __list_del. split.
  - eapply linked_frame; [| |exact Hl1]; intros z Hz.
    + rewrite removelast_last in Hz. lhs; set_solver.
    + lhs. destruct H5. destruct p; simpl in *; [set_solver|].
      apply elem_of_app. by left.
  - rewrite linked_cons. split_and!; [lhs; set_solver..|].
    eapply linked_frame; [| |exact Hl2]; intros z Hz; [|simpl in Hz]; lhs; try set_solver.
Qed.

Lemma dll_simple hd l : NoDup (hd :: l) → simple_path (hd :: l ++ [hd]).
Proof.
  intros Hd. split.
  - change (hd :: l ++ [hd]) with ((hd :: l) ++ [hd]). by rewrite removelast_last.
  - simpl. apply NoDup_cons in Hd as [? ?]. apply NoDup_app. split_and!; [done| |].
    + set_solver.
    + apply NoDup_singleton.
Qed.

(** The neighbour after position [l1] of a circular list. *)
Lemma cycle_next (l2 : list K) hd : ∃ y q, l2 ++ [hd] = y :: q ∧ (y = hd ∧ l2 = [] ∨ ∃ l2', l2 = y :: l2').
Proof. destruct l2 as [|y l2]; simpl; eauto 10. Qed.

Lemma cycle_prev (l1 : list K) hd : ∃ p x, hd :: l1 = p ++ [x].
Proof.
  induction l1 as [|y l1 _] using rev_ind; [by exists [], hd|].
  exists (hd :: l1), y. done.
Qed.

(** ** The operations on lists *)

Lemma list_init_dll hd h : dll (list_init hd h) hd [].
Proof.
  split; [apply NoDup_singleton|]. simpl. unfold list_init. split_and!; lhs.
Qed.

Lemma list_empty_dll h hd l : dll h hd l → list_empty h hd = bool_decide (l = []).
Proof.
  intros [Hd Hl]. unfold list_empty. destruct l as [|x l]; simpl in Hl.
  - destruct Hl as [-> _]. by rewrite !bool_decide_eq_true_2.
  - destruct Hl as [-> _]. rewrite !bool_decide_eq_false_2; [done|done|].
    apply NoDup_cons in Hd as [? _]. set_solver.
Qed.

(** [list_next] walks the list from left to right and back to the head. *)
Lemma list_next_dll h hd l1 x l2 :
  dll h hd (l1 ++ x :: l2) → list_next h x = default hd (head l2).
Proof.
  intros [_ Hl]. rewrite <-app_assoc, app_comm_cons in Hl.
  apply linked_app in Hl as [_ Hl]. destruct l2; simpl in Hl; unfold list_next; naive_solver.
Qed.

Lemma list_next_head h hd l : dll h hd l → list_next h hd = default hd (head l).
Proof. intros [_ Hl]. destruct l; simpl in Hl; unfold list_next; naive_solver. Qed.

Lemma list_prev_dll h hd l1 x l2 :
  dll h hd (l1 ++ x :: l2) → list_prev h x = default hd (last l1).
Proof.
  intros [_ Hl]. rewrite <-app_assoc in Hl.
  destruct l1 as [|y l1 _] using rev_ind; [simpl in Hl; unfold list_prev; naive_solver|].
  rewrite last_snoc. rewrite <-app_assoc, app_comm_cons in Hl.
  apply linked_app in Hl as [_ Hl]. simpl in Hl. unfold list_prev. naive_solver.
Qed.

Lemma list_prev_head h hd l : dll h hd l → list_prev h hd = default hd (last l).
Proof.
  intros [_ Hl]. destruct l as [|y l _] using rev_ind; [simpl in Hl; unfold list_prev; naive_solver|].
  rewrite last_snoc. rewrite <-app_assoc, app_comm_cons in Hl.
  apply linked_app in Hl as [_ Hl]. simpl in Hl. unfold list_prev. naive_solver.
Qed.

(** The general insertion: [e] goes between the neighbours at a cut of the cycle. *)
Lemma list_add_cut h hd l1 l2 p x y q e :
  dll h hd (l1 ++ l2) → e ∉ hd :: l1 ++ l2 →
  hd :: l1 = p ++ [x] → l2 ++ [hd] = y :: q →
  dll (__list_add e x y h) hd (l1 ++ e :: l2).
Proof.
  intros [Hd Hl] He Hp Hq. split.
  - replace (hd :: l1 ++ e :: l2) with ((hd :: l1) ++ e :: l2) by done.
    rewrite <-Permutation_middle. apply NoDup_cons. split; done.
  - assert (∀ r, hd :: (l1 ++ r) ++ [hd] = p ++ x :: r ++ [hd]) as Hr.
    { intros r. rewrite <-app_assoc. change (hd :: l1 ++ r ++ [hd]) with ((hd :: l1) ++ r ++ [hd]).
      by rewrite Hp, <-app_assoc. }
    apply dll_simple in Hd. rewrite Hr in *. simpl. rewrite Hq in *.
    apply linked_list_add; [done| |done].
    rewrite <-Hq, <-(Hr l2). set_solver.
Qed.

Lemma list_add_head h hd l e :
  dll h hd l → e ∉ hd :: l → dll (list_add hd e h) hd (e :: l).
Proof.
  intros Hd He. destruct (cycle_next l hd) as (y & q & Hq & Hy).
  unfold list_add, list_add_after.
  replace (le_next (h hd)) with y.
  - by apply (list_add_cut h hd [] l [] hd y q e).
  - change (le_next (h hd)) with (list_next h hd).
    rewrite (list_next_head h hd l) by done. destruct Hy as [[-> ->]|[l' ->]]; done.
Qed.

Lemma list_add_after_dll h hd l1 x l2 e :
  dll h hd (l1 ++ x :: l2) → e ∉ hd :: l1 ++ x :: l2 →
  dll (list_add_after x e h) hd (l1 ++ x :: e :: l2).
Proof.
  intros Hd He. destruct (cycle_next l2 hd) as (y & q & Hq & Hy).
  unfold list_add_after. replace (le_next (h x)) with y.
  - replace (l1 ++ x :: e :: l2) with ((l1 ++ [x]) ++ e :: l2) by by rewrite <-app_assoc.
    apply (list_add_cut h hd (l1 ++ [x]) l2 (hd :: l1) x y q e); [..|done];
      by rewrite <-?app_assoc.
  - change (le_next (h x)) with (list_next h x).
    rewrite (list_next_dll h hd l1 x l2) by done. destruct Hy as [[-> ->]|[l' ->]]; done.
Qed.

Lemma list_add_before_dll h hd l1 x l2 e :
  dll h hd (l1 ++ x :: l2) → e ∉ hd :: l1 ++ x :: l2 →
  dll (list_add_before x e h) hd (l1 ++ e :: x :: l2).
Proof.
  intros Hd He. destruct (cycle_prev l1 hd) as (p & z & Hp).
  unfold list_add_before. replace (le_prev (h x)) with z.
  - by apply (list_add_cut h hd l1 (x :: l2) p z x (l2 ++ [hd]) e).
  - change (le_prev (h x)) with (list_prev h x).
    rewrite (list_prev_dll h hd l1 x l2) by done.
    destruct l1 as [|w l1 _] using rev_ind; [by destruct p as [|? []]; simplify_eq/=|].
    rewrite last_snoc, app_comm_cons in *. by apply app_inj_tail in Hp as [_ ->].
Qed.

(** The entry in front of a cut of the list, the head when the cut is at the
    beginning; [list_next] of it is the first entry behind the cut. *)
Lemma list_next_cut h hd l1 l2 :
  dll h hd (l1 ++ l2) → list_next h (default hd (last l1)) = default hd (head l2).
Proof.
  destruct l1 as [|x l1 _] using rev_ind; intros Hd; [by apply list_next_head|].
  rewrite last_snoc. rewrite <-app_assoc in Hd. by eapply list_next_dll.
Qed.

Lemma list_add_at_cut h hd l1 l2 e :
  dll h hd (l1 ++ l2) → e ∉ hd :: l1 ++ l2 →
  dll (list_add (default hd (last l1)) e h) hd (l1 ++ e :: l2).
Proof.
  destruct l1 as [|x l1 _] using rev_ind; intros Hd He; [by apply list_add_head|].
  rewrite last_snoc. rewrite <-!app_assoc in *. by apply list_add_after_dll.
Qed.

(** Adding before the head appends at the end of the list. *)
Lemma list_add_before_head h hd l e :
  dll h hd l → e ∉ hd :: l → dll (list_add_before hd e h) hd (l ++ [e]).
Proof.
  intros Hd He. destruct (cycle_prev l hd) as (p & z & Hp).
  unfold list_add_before. replace (le_prev (h hd)) with z.
  - apply (list_add_cut h hd l [] p z hd [] e); by rewrite ?app_nil_r.
  - change (le_prev (h hd)) with (list_prev h hd). rewrite (list_prev_head h hd l) by done.
    destruct l as [|w l _] using rev_ind; [by destruct p as [|? []]; simplify_eq/=|].
    rewrite last_snoc, app_comm_cons in *. by apply app_inj_tail in Hp as [_ ->].
Qed.

Lemma list_del_dll h hd l1 x l2 :
  dll h hd (l1 ++ x :: l2) → dll (list_del x h) hd (l1 ++ l2).
Proof.
  intros Hd.
  destruct (cycle_prev l1 hd) as (p & z & Hp), (cycle_next l2 hd) as (y & q & Hq & Hy).
  unfold list_del. replace (le_prev (h x)) with z; [replace (le_next (h x)) with y|].
  - destruct Hd as [Hnd Hl]. split.
    + rewrite !app_comm_cons in *. rewrite <-Permutation_middle in Hnd. by apply NoDup_cons in Hnd as [_ ?].
    + assert (∀ r, hd :: (l1 ++ r) ++ [hd] = p ++ z :: r ++ [hd]) as Hr.
      { intros r. rewrite <-app_assoc. change (hd :: l1 ++ r ++ [hd]) with ((hd :: l1) ++ r ++ [hd]).
        by rewrite Hp, <-app_assoc. }
      apply dll_simple in Hnd. rewrite Hr in *. simpl in *. rewrite Hq in *.
      by eapply linked_list_del.
  - change (le_next (h x)) with (list_next h x).
    rewrite (list_next_dll h hd l1 x l2) by done. destruct Hy as [[-> ->]|[l' ->]]; done.
  - change (le_prev (h x)) with (list_prev h x).
    rewrite (list_prev_dll h hd l1 x l2) by done.
    destruct l1 as [|w l1 _] using rev_ind; [by destruct p as [|? []]; simplify_eq/=|].
    rewrite last_snoc, app_comm_cons in *. by apply app_inj_tail in Hp as [_ ->].
Qed.

(** A list does not notice stores to entries that are not on it. *)
Lemma dll_frame h h' hd l :
  (∀ x, x ∈ hd :: l → h' x = h x) → dll h hd l → dll h' hd l.
Proof.
  intros Hf [Hd Hl]. split; [done|]. eapply linked_frame; [| |exact Hl].
  - intros x Hx%removelast_sub. rewrite Hf; set_solver.
  - intros x Hx%tail_sub. rewrite Hf; set_solver.
Qed.

Lemma list_init_other e x h : x ≠ e → list_init e h x = h x.
Proof.
  intros. unfold list_init, set_prev, set_next, upd.
  by repeat case_decide.
Qed.

Lemma list_init_empty e h : list_empty (list_init e h) e = true.
Proof. apply bool_decide_eq_true_2. unfold list_init. lhs. Qed.

(** A member of a list is not an empty list itself. *)
Lemma list_empty_member h hd x l :
  dll h hd l → x ∈ l → list_empty h x = false.
Proof.
  intros Hd (l1 & l2 & ->)%list_elem_of_split. apply bool_decide_eq_false_2. fold (list_next h x).
  erewrite list_next_dll by done. destruct Hd as [Hnd _].
  rewrite app_comm_cons, NoDup_app in Hnd. destruct Hnd as (_ & Hd & Hnd). apply NoDup_cons in Hnd as [Hx _].
  destruct l2 as [|y l2]; simpl; [|set_solver]. intros ->. apply (Hd x); set_solver.
Qed.

(** Deleting and adding an entry only stores to the entries of the list. *)
Lemma list_del_other h hd l1 x l2 z :
  dll h hd (l1 ++ x :: l2) → z ∉ hd :: l1 ++ x :: l2 → list_del x h z = h z.
Proof.
  intros Hd Hz. unfold list_del, __list_del.
  fold (list_prev h x) (list_next h x). rewrite (list_prev_dll h hd l1 x l2), (list_next_dll h hd l1 x l2) by done.
  unfold set_prev, set_next, upd. repeat case_decide; subst; try done; exfalso; apply Hz.
  - destruct l2; simpl in *; set_solver.
  - destruct l2; simpl in *; set_solver.
  - destruct (last l1) eqn:E; simpl; [apply last_Some_elem_of in E|]; set_solver.
Qed.

Lemma list_del_init_other h hd l1 x l2 z :
  dll h hd (l1 ++ x :: l2) → z ∉ hd :: l1 ++ x :: l2 → list_del_init x h z = h z.
Proof.
  intros Hd Hz. unfold list_del_init. rewrite list_init_other by set_solver. by eapply list_del_other.
Qed.

Lemma list_add_head_other h hd l e z :
  dll h hd l → z ∉ hd :: e :: l → list_add hd e h z = h z.
Proof.
  intros Hd Hz. unfold list_add, list_add_after, __list_add. fold (list_next h hd). rewrite (list_next_head h hd l) by done.
  unfold set_prev, set_next, upd. repeat case_decide; subst; try done; exfalso; apply Hz; try set_solver.
  all: destruct l; simpl; set_solver.
Qed.

Lemma list_add_before_head_other h hd l e z :
  dll h hd l → z ∉ hd :: e :: l → list_add_before hd e h z = h z.
Proof.
  intros Hd Hz. unfold list_add_before, __list_add. fold (list_prev h hd). rewrite (list_prev_head h hd l) by done.
  unfold set_prev, set_next, upd. repeat case_decide; subst; try done; exfalso; apply Hz; try set_solver.
  all: destruct (last l) eqn:E; simpl; [apply last_Some_elem_of in E|]; set_solver.
Qed.

(** [list_del_init]: the entry leaves its list and is an empty list itself. *)
Lemma list_del_init_dll h hd l1 x l2 :
  dll h hd (l1 ++ x :: l2) →
  dll (list_del_init x h) hd (l1 ++ l2) ∧ list_empty (list_del_init x h) x = true.
Proof.
  intros Hd. split; [|apply list_init_empty].
  pose proof Hd as [Hnd _]. rewrite app_comm_cons, <-Permutation_middle in Hnd.
  apply NoDup_cons in Hnd as [Hx _].
  eapply dll_frame; [|by apply list_del_dll in Hd].
  intros z Hz. apply list_init_other. set_solver.
Qed.

(** Adding an entry behind itself leaves its successor but makes it its own
    predecessor. *)
Lemma list_add_self e h :
  le_next (h e) ≠ e →
  list_next (list_add e e h) e = le_next (h e) ∧ list_prev (list_add e e h) e = e.
Proof. intros. unfold list_add, list_add_after, __list_add, list_next, list_prev. split; lhs. Qed.

End list_h.

(** The entries of a list whose members embed a [list_entry_t]: the head of the
    list and the link field of each member.  [to_struct] of a link is the member
    it is embedded in. *)
Inductive entry (A : Type) : Type :=
| Head
| Elem (a : A).
Arguments Head {A}.
Arguments Elem {A} a.

#[global] Instance entry_eq_dec {A} `{!EqDecision A} : EqDecision (entry A).
Proof. solve_decision. Defined.

#[global] Instance Elem_inj {A} : Inj (=) (=) (@Elem A).
Proof. by intros ?? [= ->]. Qed.

Lemma elem_of_elems {A} (x : A) (l : list A) : Elem x ∈ Elem <$> l ↔ x ∈ l.
Proof. rewrite list_elem_of_fmap. naive_solver. Qed.

Lemma head_not_elem {A} (l : list A) : Head ∉ Elem <$> l.
Proof. rewrite list_elem_of_fmap. naive_solver. Qed.

#[export] Hint Resolve head_not_elem : ucore.

Arguments list_entry : clear implicits.
Arguments lheap : clear implicits.
