(* ===== verification/Pmm.v ===== *)
(** * kern/mm/default_pmm.c: the first-fit physical page allocator

    The page descriptors of the array [pages] are named by their index; each
    field of [struct Page] the allocator uses is a function of the index, and
    the [page_link] fields with the list head [free_list] form one heap of
    list.h entries.  The invariant [free_inv] relates a state to the abstract
    free list, a sorted list of disjoint blocks [(base, size)]. *)

From S2P Require Import Prelude ListH.

(** ** The data of kern/mm/memlayout.h and the state of the allocator *)

Record pmm := Pmm {
  pg_ref : Z → Z;
  pg_flags : Z → Z;
  pg_property : Z → Z;
  page_link : lheap (entry Z);
  nr_free : Z;
}.

Definition set_page_ref (p v : Z) (s : pmm) : pmm :=
  Pmm (upd p v (pg_ref s)) (pg_flags s) (pg_property s) (page_link s) (nr_free s).
Definition set_flags (p v : Z) (s : pmm) : pmm :=
  Pmm (pg_ref s) (upd p v (pg_flags s)) (pg_property s) (page_link s) (nr_free s).
Definition set_property (p v : Z) (s : pmm) : pmm :=
  Pmm (pg_ref s) (pg_flags s) (upd p v (pg_property s)) (page_link s) (nr_free s).
Definition set_links (f : lheap (entry Z) → lheap (entry Z)) (s : pmm) : pmm :=
  Pmm (pg_ref s) (pg_flags s) (pg_property s) (f (page_link s)) (nr_free s).
Definition set_nr_free (v : Z) (s : pmm) : pmm :=
  Pmm (pg_ref s) (pg_flags s) (pg_property s) (page_link s) v.

Definition PG_reserved : Z := 0.
Definition PG_property : Z := 1.

Definition PageReserved (s : pmm) (p : Z) : bool := test_bit PG_reserved (pg_flags s p).
Definition PageProperty (s : pmm) (p : Z) : bool := test_bit PG_property (pg_flags s p).
Definition SetPageReserved (p : Z) (s : pmm) : pmm := set_flags p (set_bit PG_reserved (pg_flags s p)) s.
Definition SetPageProperty (p : Z) (s : pmm) : pmm := set_flags p (set_bit PG_property (pg_flags s p)) s.
Definition ClearPageProperty (p : Z) (s : pmm) : pmm := set_flags p (clear_bit PG_property (pg_flags s p)) s.

(** ** The operations

    A traversal of the free list takes [nr_free + 1] steps at most, because
    every block on it has at least one page; this is the fuel of the loops. *)

Definition list_fuel (s : pmm) : nat := S (Z.to_nat (nr_free s)).

Definition default_init : M pmm unit :=
  modify (set_links (list_init Head));;
  modify (set_nr_free 0).

(** The [while] loop that links [base] in front of the first block behind it. *)
Fixpoint insert_walk (fuel : nat) (base : Z) (le : entry Z) : M pmm unit :=
  match fuel with
  | O => out_of_fuel
  | S fuel' =>
    h ← gets page_link;
    let le := list_next h le in
    match le with
    | Head => mret tt
    | Elem page =>
      if base <? page then modify (set_links (list_add_before le (Elem base)))
      else
        when (bool_decide (list_next h le = Head)) (modify (set_links (list_add le (Elem base))));;
        insert_walk fuel' base le
    end
  end.

Definition insert_free_block (base : Z) : M pmm unit :=
  h ← gets page_link;
  if list_empty h Head then modify (set_links (list_add Head (Elem base)))
  else fuel ← gets list_fuel; insert_walk fuel base Head.

Definition default_init_memmap (base n : Z) : M pmm unit :=
  assert (0 <? n);;
  for_range base (Z.to_nat n) (λ p,
    asserts (λ s, PageReserved s p);;
    modify (set_property p 0);;
    modify (set_flags p 0);;
    modify (set_page_ref p 0));;
  modify (set_property base (u32 n));;
  modify (SetPageProperty base);;
  modify (λ s, set_nr_free (u32 (nr_free s + n)) s);;
  insert_free_block base.

(** The [while] loop that looks for a block of [n] pages. *)
Fixpoint alloc_walk (fuel : nat) (n : Z) (le : entry Z) : M pmm (option Z) :=
  match fuel with
  | O => out_of_fuel
  | S fuel' =>
    h ← gets page_link;
    let le := list_next h le in
    match le with
    | Head => mret None
    | Elem p =>
      property ← gets (λ s, pg_property s p);
      if n <=? property then mret (Some p) else alloc_walk fuel' n le
    end
  end.

(** The branch [page != NULL] of [default_alloc_pages]: take [n] pages off the block. *)
Definition carve (n page : Z) : M pmm (option Z) :=
  prev ← gets (λ s, list_prev (page_link s) (Elem page));
  modify (set_links (list_del (Elem page)));;
  property ← gets (λ s, pg_property s page);
  when (n <? property)
    (let p := page + n in
     modify (set_property p (u32 (property - n)));;
     modify (SetPageProperty p);;
     modify (set_links (list_add prev (Elem p))));;
  modify (λ s, set_nr_free (u32 (nr_free s - n)) s);;
  modify (ClearPageProperty page);;
  mret (Some page).

Definition default_alloc_pages (n : Z) : M pmm (option Z) :=
  assert (0 <? n);;
  nfree ← gets nr_free;
  if nfree <? n then mret None
  else
    fuel ← gets list_fuel;
    page ← alloc_walk fuel n Head;
    match page with
    | None => mret None
    | Some page => carve n page
    end.

(** [q] is absorbed by the block in front of it. *)
Definition absorb (p q : Z) : M pmm unit :=
  modify (λ s, set_property p (u32 (pg_property s p + pg_property s q)) s);;
  modify (ClearPageProperty q);;
  modify (set_links (list_del (Elem q))).

Definition merge_prev (base : Z) : M pmm Z :=
  le ← gets (λ s, list_prev (page_link s) (Elem base));
  match le with
  | Head => mret base
  | Elem p =>
    property ← gets (λ s, pg_property s p);
    if p + property =? base then absorb p base;; mret p else mret base
  end.

Definition merge_next (base : Z) : M pmm unit :=
  le ← gets (λ s, list_next (page_link s) (Elem base));
  match le with
  | Head => mret tt
  | Elem p =>
    property ← gets (λ s, pg_property s base);
    when (base + property =? p) (absorb base p)
  end.

Definition default_free_pages (base n : Z) : M pmm unit :=
  assert (0 <? n);;
  for_range base (Z.to_nat n) (λ p,
    asserts (λ s, (negb (PageReserved s p) && negb (PageProperty s p))%bool);;
    modify (set_flags p 0);;
    modify (set_page_ref p 0));;
  modify (set_property base (u32 n));;
  modify (SetPageProperty base);;
  modify (λ s, set_nr_free (u32 (nr_free s + n)) s);;
  insert_free_block base;;
  base ← merge_prev base;
  merge_next base.

Definition default_nr_free_pages : M pmm Z := gets nr_free.

(** ** The abstract allocator *)

Notation blocks := (list (Z * Z)).

(** Sorted by address, disjoint, not empty, from [lo] on. *)
Fixpoint wf_blocks (lo : Z) (bs : blocks) : Prop :=
  match bs with
  | [] => True
  | (b, n) :: r => lo ≤ b ∧ 0 < n ∧ wf_blocks (b + n) r
  end.

(** No two blocks touch: nothing is left to merge. *)
Fixpoint separated (bs : blocks) : Prop :=
  match bs with
  | (b, n) :: (((b', _) :: _) as r) => b + n < b' ∧ separated r
  | _ => True
  end.

Fixpoint total (bs : blocks) : Z :=
  match bs with [] => 0 | (_, n) :: r => n + total r end.

(** First fit: the first block of at least [n] pages loses its first [n]. *)
Fixpoint first_fit (n : Z) (bs : blocks) : option (Z * blocks) :=
  match bs with
  | [] => None
  | (b, m) :: r =>
    if n <=? m then Some (b, if n <? m then (b + n, m - n) :: r else r)
    else match first_fit n r with Some (b', r') => Some (b', (b, m) :: r') | None => None end
  end.

(** A block in front of [bs], merged with the first block of [bs] if they touch. *)
Definition glue (b n : Z) (bs : blocks) : blocks :=
  match bs with
  | (b', n') :: r => if b + n =? b' then (b, n + n') :: r else (b, n) :: bs
  | [] => [(b, n)]
  end.

(** Freeing with coalescing. *)
Fixpoint give_back (b n : Z) (bs : blocks) : blocks :=
  match bs with
  | [] => [(b, n)]
  | (b', n') :: r =>
    if b <? b' then glue b n bs
    else if b' + n' =? b then glue b' (n' + n) r
    else (b', n') :: give_back b n r
  end.

(** Page [p] belongs to a block. *)
Definition in_block (p : Z) (bl : Z * Z) : Prop := bl.1 ≤ p < bl.1 + bl.2.

(** The state [s] represents the free list [bs]. *)
Record free_inv (s : pmm) (bs : blocks) : Prop := FreeInv {
  inv_links : dll (page_link s) Head (Elem <$> bs.*1);
  inv_wf : wf_blocks 0 bs;
  inv_property : ∀ b n, (b, n) ∈ bs → pg_property s b = n;
  inv_flags : ∀ b n p, (b, n) ∈ bs → b ≤ p < b + n →
    PageReserved s p = false ∧ PageProperty s p = bool_decide (p = b);
  inv_count : nr_free s = total bs;
  inv_total : total bs < 2 ^ 32;
}.

(** Pages the caller may free: neither reserved nor head of a free block. *)
Definition allocated (s : pmm) (b n : Z) : Prop :=
  ∀ p, b ≤ p < b + n → PageReserved s p = false ∧ PageProperty s p = false.

(** ** Blocks *)

Fixpoint end_of (lo : Z) (bs : blocks) : Z :=
  match bs with [] => lo | (b, n) :: r => end_of (b + n) r end.

Lemma wf_app lo l1 l2 : wf_blocks lo (l1 ++ l2) ↔ wf_blocks lo l1 ∧ wf_blocks (end_of lo l1) l2.
Proof. revert lo. induction l1 as [|[b n] l1 IH]; intros lo; simpl; [|rewrite IH]; tauto. Qed.

Lemma wf_mono lo lo' bs : lo' ≤ lo → wf_blocks lo bs → wf_blocks lo' bs.
Proof. destruct bs as [|[b n] bs]; simpl; [done|]. intros ? (? & ? & ?). split_and!; [lia|done..]. Qed.

Lemma wf_end lo bs : wf_blocks lo bs → lo ≤ end_of lo bs.
Proof.
  revert lo. induction bs as [|[b n] bs IH]; intros lo; simpl; [lia|].
  intros (? & ? & ?%IH). lia.
Qed.

Lemma wf_elem lo bs b n : wf_blocks lo bs → (b, n) ∈ bs → lo ≤ b ∧ 0 < n ∧ b + n ≤ end_of lo bs.
Proof.
  revert lo. induction bs as [|[b' n'] bs IH]; intros lo; simpl; [set_solver|].
  intros (? & ? & Hwf) [[= -> ->]|Hin]%elem_of_cons.
  - pose proof (wf_end _ _ Hwf). lia.
  - destruct (IH _ Hwf Hin) as (? & ? & ?). lia.
Qed.

Lemma wf_mid lo l1 b n l2 :
  wf_blocks lo (l1 ++ (b, n) :: l2) →
  (∀ b' n', (b', n') ∈ l1 → 0 < n' ∧ b' + n' ≤ b) ∧ 0 < n ∧ lo ≤ b ∧
  (∀ b' n', (b', n') ∈ l2 → 0 < n' ∧ b + n ≤ b').
Proof.
  rewrite wf_app. intros [H1 (H2 & H3 & H4)]. pose proof (wf_end _ _ H1). split_and!; [|lia|lia|].
  - intros b' n' Hin. destruct (wf_elem _ _ _ _ H1 Hin) as (? & ? & ?). lia.
  - intros b' n' Hin. destruct (wf_elem _ _ _ _ H4 Hin) as (? & ? & ?). lia.
Qed.

Lemma total_app l1 l2 : total (l1 ++ l2) = total l1 + total l2.
Proof. induction l1 as [|[b n] l1 IH]; simpl; lia. Qed.

Lemma total_nonneg lo bs : wf_blocks lo bs → 0 ≤ total bs.
Proof.
  revert lo. induction bs as [|[b n] bs IH]; intros lo; simpl; [lia|]. intros (? & ? & ?%IH). lia.
Qed.

Lemma length_le_total lo bs : wf_blocks lo bs → Z.of_nat (length bs) ≤ total bs.
Proof.
  revert lo. induction bs as [|[b n] bs IH]; intros lo; simpl; [lia|]. intros (? & ? & ?%IH). lia.
Qed.

Lemma elem_le_total lo bs b n : wf_blocks lo bs → (b, n) ∈ bs → n ≤ total bs.
Proof.
  intros Hwf (l1 & l2 & ->)%list_elem_of_split. rewrite total_app. simpl.
  rewrite wf_app in Hwf. destruct Hwf as [?%total_nonneg (? & ? & ?%total_nonneg)]. lia.
Qed.

(** [first_fit] takes the first block that is large enough. *)
Lemma first_fit_split n bs :
  match first_fit n bs with
  | Some (b, bs') => ∃ l1 m l2, bs = l1 ++ (b, m) :: l2 ∧ n ≤ m ∧
      Forall (λ bl, bl.2 < n) l1 ∧
      bs' = l1 ++ (if n <? m then [(b + n, m - n)] else []) ++ l2
  | None => Forall (λ bl, bl.2 < n) bs
  end.
Proof.
  induction bs as [|[b m] bs IH]; simpl; [done|].
  destruct (Z.leb_spec n m).
  - exists [], m, bs. split_and!; [done|done|done|]. by destruct (n <? m).
  - destruct (first_fit n bs) as [[b' bs']|]; [|by constructor].
    destruct IH as (l1 & m' & l2 & -> & ? & ? & ->).
    exists ((b, m) :: l1), m', l2. split_and!; [done|done| |done]. by constructor.
Qed.

(** ** Reading the fields after an update *)

Lemma PageProperty_set p q s : PageProperty (SetPageProperty p s) q = (bool_decide (q = p) || PageProperty s q)%bool.
Proof.
  unfold PageProperty, SetPageProperty, set_flags, upd, PG_property; simpl.
  case_decide as E; [subst q|].
  - by rewrite test_set_bit, !bool_decide_eq_true_2 by lia.
  - rewrite bool_decide_eq_false_2; [done|congruence].
Qed.

Lemma PageProperty_clear p q s :
  PageProperty (ClearPageProperty p s) q = (negb (bool_decide (q = p)) && PageProperty s q)%bool.
Proof.
  unfold PageProperty, ClearPageProperty, set_flags, upd, PG_property; simpl.
  case_decide as E; [subst q|].
  - by rewrite test_clear_bit, !bool_decide_eq_true_2 by lia.
  - rewrite (bool_decide_eq_false_2 (q = p)); [done|congruence].
Qed.

Lemma PageReserved_set p q s : PageReserved (SetPageProperty p s) q = PageReserved s q.
Proof.
  unfold PageReserved, SetPageProperty, set_flags, upd, PG_property, PG_reserved; simpl.
  case_decide as E; [subst q|done]. by rewrite test_set_bit, bool_decide_eq_false_2 by lia.
Qed.

Lemma PageReserved_clear p q s : PageReserved (ClearPageProperty p s) q = PageReserved s q.
Proof.
  unfold PageReserved, ClearPageProperty, set_flags, upd, PG_property, PG_reserved; simpl.
  case_decide as E; [subst q|done]. by rewrite test_clear_bit, bool_decide_eq_false_2 by lia.
Qed.

(** Flags do not depend on the other fields. *)
Lemma PageProperty_other s (f : lheap (entry Z) → lheap (entry Z)) p v q :
  PageProperty (set_links f s) q = PageProperty s q ∧
  PageProperty (set_nr_free v s) q = PageProperty s q ∧
  PageProperty (set_property p v s) q = PageProperty s q ∧
  PageProperty (set_page_ref p v s) q = PageProperty s q.
Proof. done. Qed.

Lemma PageReserved_other s (f : lheap (entry Z) → lheap (entry Z)) p v q :
  PageReserved (set_links f s) q = PageReserved s q ∧
  PageReserved (set_nr_free v s) q = PageReserved s q ∧
  PageReserved (set_property p v s) q = PageReserved s q ∧
  PageReserved (set_page_ref p v s) q = PageReserved s q.
Proof. done. Qed.

(** Evaluates the flags of a page in a state built by updates. *)
Ltac flags :=
  repeat first
    [ rewrite PageProperty_clear | rewrite PageProperty_set
    | rewrite PageReserved_clear | rewrite PageReserved_set
    | rewrite (proj1 (PageProperty_other _ _ 0 0 _))
    | rewrite (proj1 (proj2 (PageProperty_other _ id 0 _ _)))
    | rewrite (proj1 (proj2 (proj2 (PageProperty_other _ id _ _ _))))
    | rewrite (proj2 (proj2 (proj2 (PageProperty_other _ id _ _ _))))
    | rewrite (proj1 (PageReserved_other _ _ 0 0 _))
    | rewrite (proj1 (proj2 (PageReserved_other _ id 0 _ _)))
    | rewrite (proj1 (proj2 (proj2 (PageReserved_other _ id _ _ _))))
    | rewrite (proj2 (proj2 (proj2 (PageReserved_other _ id _ _ _)))) ].

(** Decides the page comparisons left by [flags]. *)
Ltac pages :=
  repeat match goal with
  | |- context [bool_decide ?P] =>
      first [ rewrite (bool_decide_eq_true_2 P) by lia
            | rewrite (bool_decide_eq_false_2 P) by lia ]
  end.

(** ** Consequences of the invariant *)

Lemma fresh_entry (bs : blocks) (p : Z) :
  (∀ b n, (b, n) ∈ bs → p ≠ b) → Elem p ∉ Head :: (Elem <$> bs.*1).
Proof.
  intros H. rewrite not_elem_of_cons. split; [done|]. rewrite elem_of_elems.
  intros ([b n] & -> & Hin)%list_elem_of_fmap. by eapply H.
Qed.

Lemma inv_fuel s bs : free_inv s bs → (length bs < list_fuel s)%nat.
Proof.
  intros Hi. unfold list_fuel. rewrite (inv_count _ _ Hi).
  pose proof (length_le_total _ _ (inv_wf _ _ Hi)). lia.
Qed.

Lemma alloc_walk_spec s n bs1 bs2 fuel :
  free_inv s (bs1 ++ bs2) → (length bs2 < fuel)%nat →
  alloc_walk fuel n (default Head (last (Elem <$> bs1.*1))) s = Ok (fst <$> first_fit n bs2, s).
Proof.
  revert bs1 fuel. induction bs2 as [|[b m] bs2 IH]; intros bs1 fuel Hi Hf;
    (destruct fuel as [|fuel]; simpl in Hf; [lia|]).
  all: pose proof (inv_links _ _ Hi) as Hd; rewrite !fmap_app in Hd; simpl; msteps.
  all: rewrite (list_next_cut _ _ _ _ Hd); simpl.
  { done. }
  rewrite bind_gets, (inv_property _ _ Hi b m) by set_solver. cbn beta.
  destruct (n <=? m); [done|].
  specialize (IH (bs1 ++ [(b, m)]) fuel). rewrite <-app_assoc in IH.
  rewrite !fmap_app in IH. simpl in IH. rewrite last_snoc in IH. simpl in IH.
  rewrite IH by (done || lia). by destruct (first_fit n bs2) as [[]|].
Qed.

(** ** Allocation *)

(** Descriptors of pages outside the free list do not change. *)
Definition frame (bs : blocks) (s s' : pmm) : Prop :=
  ∀ p, Forall (λ bl, ¬ in_block p bl) bs →
    pg_flags s' p = pg_flags s p ∧ pg_ref s' p = pg_ref s p ∧ pg_property s' p = pg_property s p.

(** Replacing consecutive blocks of the free list: only the new blocks have to
    be looked at when the descriptors of the others do not change. *)
Lemma free_inv_replace s s' l1 mid mid' l2 :
  free_inv s (l1 ++ mid ++ l2) →
  dll (page_link s') Head (Elem <$> (l1 ++ mid' ++ l2).*1) →
  wf_blocks 0 (l1 ++ mid' ++ l2) →
  (∀ b n p, (b, n) ∈ l1 ++ l2 → b ≤ p < b + n →
    pg_property s' p = pg_property s p ∧ PageReserved s' p = PageReserved s p ∧
    PageProperty s' p = PageProperty s p) →
  (∀ b n, (b, n) ∈ mid' → pg_property s' b = n ∧
    ∀ p, b ≤ p < b + n → PageReserved s' p = false ∧ PageProperty s' p = bool_decide (p = b)) →
  nr_free s' = total (l1 ++ mid' ++ l2) → total (l1 ++ mid' ++ l2) < 2 ^ 32 →
  free_inv s' (l1 ++ mid' ++ l2).
Proof.
  intros Hi Hd Hwf Hold Hnew Hc Ht.
  assert (∀ b n, (b, n) ∈ l1 ++ mid' ++ l2 → (b, n) ∈ mid' ∨
    (b, n) ∈ l1 ++ l2 ∧ (b, n) ∈ l1 ++ mid ++ l2 ∧ 0 < n) as Hcase.
  { intros b n Hin. destruct (wf_elem _ _ _ _ Hwf Hin) as (_ & ? & _). set_solver. }
  split; [done|done| | |done|done].
  - intros b n [Hin|(Hin & Hin' & ?)]%Hcase; [by apply Hnew|].
    destruct (Hold b n b Hin) as [-> _]; [lia|]. by apply (inv_property _ _ Hi).
  - intros b n p [Hin|(Hin & Hin' & ?)]%Hcase Hp; [by eapply Hnew|].
    destruct (Hold b n p Hin Hp) as (_ & -> & ->). by eapply (inv_flags _ _ Hi).
Qed.

Lemma carve_spec s n l1 b m l2 :
  free_inv s (l1 ++ (b, m) :: l2) → 0 < n ≤ m →
  ∃ s', carve n b s = Ok (Some b, s') ∧
    free_inv s' (l1 ++ (if n <? m then [(b + n, m - n)] else []) ++ l2) ∧
    allocated s' b n ∧ frame (l1 ++ (b, m) :: l2) s s'.
Proof.
  intros Hi Hn. pose proof (wf_mid _ _ _ _ _ (inv_wf _ _ Hi)) as (Hlt & Hm & H0 & Hgt).
  pose proof (inv_links _ _ Hi) as Hd. rewrite !fmap_app in Hd. simpl in Hd.
  assert (Hbm : (b, m) ∈ l1 ++ (b, m) :: l2) by set_solver.
  pose proof (elem_le_total _ _ _ _ (inv_wf _ _ Hi) Hbm) as Hle.
  pose proof (inv_wf _ _ Hi) as Hwf. pose proof (inv_total _ _ Hi) as Ht.
  pose proof (inv_count _ _ Hi) as Hc. rewrite total_app in Hc, Ht, Hle. simpl in Hc, Ht, Hle.
  pose proof (inv_flags _ _ Hi b m) as Hfl.
  unfold carve. msteps. rewrite (list_prev_dll _ _ _ _ _ Hd).
  simpl pg_property. rewrite (inv_property _ _ Hi b m) by done.
  assert (∀ p, in_block p (b, m) → Forall (λ bl, ¬ in_block p bl) (l1 ++ (b, m) :: l2) → False) as Hout.
  { intros p Hp Hf. rewrite Forall_forall in Hf. by eapply Hf. }
  destruct (Z.ltb_spec n m); unfold when; simpl app; msteps; simpl nr_free;
    rewrite Hc; eexists; (split; [reflexivity|]); (split; [|split]).
  - apply (free_inv_replace s _ l1 [(b, m)] [(b + n, m - n)] l2); [done|..].
    + rewrite !fmap_app. apply list_add_at_cut; [by eapply list_del_dll|].
      assert (Elem (b + n) ∉ Head :: (Elem <$> (l1 ++ l2).*1)) as Hf.
      { apply fresh_entry. intros b' n' [?%Hlt|?%Hgt]%elem_of_app; lia. }
      by rewrite !fmap_app in Hf.
    + rewrite wf_app in *. simpl in *.
      replace (b + n + (m - n)) with (b + m) by lia. intuition lia.
    + intros b' n' p Hin Hp. simpl. flags.
      assert (p ≠ b ∧ p ≠ b + n) as [??]
        by (apply elem_of_app in Hin as [?%Hlt|?%Hgt]; split; lia).
      rewrite upd_ne by lia. by pages.
    + intros b' n' [= -> ->]%list_elem_of_singleton. simpl. rewrite upd_eq, u32_small by lia.
      split; [done|]. intros p Hp. flags. destruct (Hfl p) as [-> ->]; [done|lia|].
      pages. rewrite orb_false_r. done.
    + simpl. rewrite total_app. simpl. rewrite u32_small; lia.
    + rewrite total_app. simpl. lia.
  - intros p Hp. flags. destruct (Hfl p) as [-> ->]; [done|lia|]. pages.
    by destruct (bool_decide (p = b)).
  - intros p Hp. simpl. unfold upd. repeat case_decide; subst; try done;
      exfalso; (eapply Hout; [|done]); unfold in_block; simpl; lia.
  - apply (free_inv_replace s _ l1 [(b, m)] [] l2); [done|..].
    + rewrite !fmap_app. by eapply list_del_dll.
    + rewrite wf_app in *. simpl in *. split; [tauto|]. eapply wf_mono; [|apply Hwf]. lia.
    + intros b' n' p Hin Hp. simpl. flags.
      assert (p ≠ b) by (apply elem_of_app in Hin as [?%Hlt|?%Hgt]; lia). by pages.
    + set_solver.
    + simpl. rewrite total_app. simpl. rewrite u32_small; lia.
    + rewrite total_app. simpl. lia.
  - intros p Hp. flags. destruct (Hfl p) as [-> ->]; [done|lia|]. by destruct (bool_decide (p = b)).
  - intros p Hp. simpl. unfold upd. repeat case_decide; subst; try done;
      exfalso; (eapply Hout; [|done]); unfold in_block; simpl; lia.
Qed.

(** [default_alloc_pages] implements the first-fit policy of the abstract
    allocator. *)
Lemma default_alloc_pages_first_fit s bs n :
  free_inv s bs → 0 < n →
  match first_fit n bs with
  | Some (b, bs') => ∃ s', default_alloc_pages n s = Ok (Some b, s') ∧ free_inv s' bs' ∧
      allocated s' b n ∧ frame bs s s'
  | None => default_alloc_pages n s = Ok (None, s)
  end.
Proof.
  intros Hi Hn. pose proof (first_fit_split n bs) as Hff.
  unfold default_alloc_pages. rewrite bind_assert, bind_gets by lia.
  pose proof (alloc_walk_spec s n [] bs (list_fuel s) Hi (inv_fuel _ _ Hi)) as Hw. simpl in Hw.
  destruct (first_fit n bs) as [[b bs']|].
  - destruct Hff as (l1 & m & l2 & -> & Hnm & _ & ->).
    pose proof (elem_le_total _ _ b m (inv_wf _ _ Hi) ltac:(set_solver)).
    rewrite (inv_count _ _ Hi). destruct (Z.ltb_spec (total (l1 ++ (b, m) :: l2)) n); [lia|].
    rewrite bind_gets, (bind_ok _ _ _ _ _ Hw). by apply carve_spec.
  - destruct (nr_free s <? n); [done|]. by rewrite bind_gets, (bind_ok _ _ _ _ _ Hw).
Qed.

(** ** Insertion into the free list *)

(** The loop finds the first block behind [base] and links [base] in front of
    it; the free list [addrs] are the addresses of the blocks. *)
Lemma insert_walk_spec s base (a0 a1 a2 : list Z) (c : Z) fuel :
  dll (page_link s) Head (Elem <$> a0 ++ a1 ++ c :: a2) →
  Forall (λ a, a ≤ base) a1 → base < c → (length a1 < fuel)%nat →
  insert_walk fuel base (default Head (last (Elem <$> a0))) s =
    Ok (tt, set_links (list_add_before (Elem c) (Elem base)) s).
Proof.
  revert a0 fuel. induction a1 as [|a a1 IH]; intros a0 fuel Hd Ha Hc Hf;
    (destruct fuel as [|fuel]; simpl in Hf; [lia|]); simpl; msteps; rewrite fmap_app in Hd;
    rewrite (list_next_cut _ _ _ _ Hd); simpl.
  - destruct (Z.ltb_spec base c); [done|lia].
  - apply Forall_cons in Ha as [Ha Ha1]. destruct (Z.ltb_spec base a); [lia|].
    pose proof Hd as Hd'. rewrite <-app_comm_cons, fmap_cons in Hd'. rewrite (list_next_dll _ _ _ _ _ Hd').
    rewrite bool_decide_eq_false_2 by (destruct a1; done). unfold when. rewrite bind_ret.
    specialize (IH (a0 ++ [a]) fuel). rewrite <-app_assoc in IH.
    rewrite last_fmap_snoc in IH.
    rewrite <-fmap_app in Hd. apply IH; [done|done|done|lia].
Qed.

(** [base] belongs between [l1] and [l2], and the list is not extended at its end. *)
Definition not_last (l1 l2 : blocks) : Prop := l2 = [] → l1 = [].

Lemma insert_free_block_spec s base n l1 l2 :
  dll (page_link s) Head (Elem <$> (l1 ++ l2).*1) →
  wf_blocks 0 (l1 ++ (base, n) :: l2) → not_last l1 l2 →
  (length (l1 ++ l2) < list_fuel s)%nat →
  ∃ h, insert_free_block base s = Ok (tt, set_links (λ _, h) s) ∧
    dll h Head (Elem <$> (l1 ++ (base, n) :: l2).*1).
Proof.
  intros Hd Hwf Hnl Hf. pose proof (wf_mid _ _ _ _ _ Hwf) as (Hlt & Hn & H0 & Hgt).
  assert (Elem base ∉ Head :: (Elem <$> (l1 ++ l2).*1)) as Hfr.
  { apply fresh_entry. intros b' n' [?%Hlt|?%Hgt]%elem_of_app; lia. }
  unfold insert_free_block. msteps. rewrite (list_empty_dll _ _ _ Hd).
  destruct l2 as [|[c k] l2].
  - rewrite Hnl in * by done. simpl. eexists. split; [reflexivity|]. by apply list_add_head.
  - assert (0 < k ∧ base + n ≤ c) as [Hk Hc] by (apply Hgt; set_solver).
    rewrite bool_decide_eq_false_2 by (destruct l1; done). msteps.
    rewrite fmap_app in Hd, Hfr |- *. simpl fmap in Hd, Hfr |- *.
    pose proof (insert_walk_spec s base [] l1.*1 l2.*1 c (list_fuel s)) as Hw.
    change (default Head (last (Elem <$> []))) with (@Head Z) in Hw. rewrite Hw; [..|lia|].
    + eexists. split; [reflexivity|]. simpl.
      rewrite fmap_app in *. simpl in *. by apply list_add_before_dll.
    + done.
    + apply Forall_fmap, Forall_forall. intros [b' n'] Hin. simpl.
      destruct (Hlt _ _ Hin). lia.
    + rewrite length_fmap. rewrite length_app in Hf. simpl in Hf. lia.
Qed.

(** *** The loops over the descriptors of a block *)

(** The pages of the block [(b, n)] got clean descriptors, the others and the
    free list did not change. *)
Record cleared (b n : Z) (s s' : pmm) : Prop := Cleared {
  cl_links : page_link s' = page_link s;
  cl_count : nr_free s' = nr_free s;
  cl_in : ∀ p, b ≤ p < b + n → pg_flags s' p = 0 ∧ pg_ref s' p = 0;
  cl_out : ∀ p, ¬ (b ≤ p < b + n) →
    pg_flags s' p = pg_flags s p ∧ pg_ref s' p = pg_ref s p ∧ pg_property s' p = pg_property s p;
}.

Lemma for_range_cleared body (ok : pmm → Z → bool) b n s :
  (∀ p s, ok s p = true →
    ∃ s1, body p s = Ok (tt, s1) ∧ cleared p 1 s s1 ∧ ∀ q, q ≠ p → ok s1 q = ok s q) →
  (∀ p, b ≤ p < b + Z.of_nat n → ok s p = true) →
  ∃ s', for_range b n body s = Ok (tt, s') ∧ cleared b (Z.of_nat n) s s'.
Proof.
  intros Hb. revert b s. induction n as [|n IH]; intros b s Hok.
  - exists s. split; [done|]. split; [done|done|lia|done].
  - destruct (Hb b s) as (s1 & Hs1 & [H1 H2 H3 H4] & Hq); [apply Hok; lia|].
    destruct (IH (b + 1) s1) as (s' & Hs' & [H1' H2' H3' H4']).
    { intros p Hp. rewrite Hq by lia. apply Hok. lia. }
    exists s'. simpl. rewrite (bind_ok _ _ _ _ _ Hs1). split; [done|].
    split; [congruence|congruence| |].
    + intros p Hp. destruct (decide (p = b)) as [->|]; [|apply H3'; lia].
      destruct (H4' b) as (-> & -> & _); [lia|]. apply H3. lia.
    + intros p Hp. destruct (H4' p) as (-> & -> & ->); [lia|]. apply H4. lia.
Qed.

(** ** Coalescing *)

Lemma absorb_spec s l1 p m q k l2 :
  free_inv s (l1 ++ (p, m) :: (q, k) :: l2) → p + m = q →
  ∃ s', absorb p q s = Ok (tt, s') ∧ free_inv s' (l1 ++ (p, m + k) :: l2) ∧
    frame (l1 ++ (p, m) :: (q, k) :: l2) s s'.
Proof.
  intros Hi Hpq. pose proof (inv_wf _ _ Hi) as Hwf. pose proof (inv_links _ _ Hi) as Hd.
  pose proof (wf_mid _ _ _ _ _ Hwf) as (Hlt & Hm & H0 & Hgt).
  assert (0 < k ∧ q = p + m ∧ wf_blocks (q + k) l2) as (Hk & -> & Hwf2).
  { rewrite wf_app in Hwf. simpl in Hwf. split_and!; [tauto|lia|tauto]. }
  assert (∀ b n, (b, n) ∈ l2 → p + m + k ≤ b) as Hgt2.
  { intros b n Hin. by destruct (wf_elem _ _ _ _ Hwf2 Hin). }
  pose proof (inv_total _ _ Hi) as Ht. pose proof (inv_count _ _ Hi) as Hc.
  pose proof (elem_le_total _ _ p m Hwf ltac:(set_solver)) as Hle.
  rewrite total_app in Ht, Hc, Hle. simpl in Ht, Hc, Hle.
  assert (0 ≤ total l1 ∧ 0 ≤ total l2) as [Ht1 Ht2].
  { rewrite wf_app in Hwf. split; [|by eapply total_nonneg]. by eapply total_nonneg, Hwf. }
  unfold absorb. msteps. rewrite (inv_property _ _ Hi p m), (inv_property _ _ Hi (p + m) k) by set_solver.
  rewrite u32_small by lia. eexists. split; [reflexivity|]. split.
  - apply (free_inv_replace s _ l1 [(p, m); (p + m, k)] [(p, m + k)] l2); [done|..].
    + rewrite !fmap_app in *. simpl in *.
      rewrite (cons_middle (Elem p)), app_assoc in Hd.
      apply list_del_dll in Hd. by rewrite <-app_assoc in Hd.
    + rewrite wf_app in *. simpl in *. rewrite Z.add_assoc. intuition lia.
    + intros b n x Hin Hx. simpl. flags.
      assert (x ≠ p ∧ x ≠ p + m) as [??]
        by (apply elem_of_app in Hin as [?%Hlt|?%Hgt2]; lia).
      rewrite upd_ne by lia. by pages.
    + intros b n [= -> ->]%list_elem_of_singleton. simpl. rewrite upd_eq. split; [done|].
      intros x Hx. flags. destruct (Z.lt_ge_cases x (p + m)).
      * destruct (inv_flags _ _ Hi p m x) as [-> ->]; [set_solver|lia|]. by pages.
      * destruct (inv_flags _ _ Hi (p + m) k x) as [-> ->]; [set_solver|lia|]. pages.
        by destruct (bool_decide (x = p + m)).
    + simpl. rewrite total_app. simpl. lia.
    + rewrite total_app. simpl. lia.
  - intros x Hx. rewrite Forall_forall in Hx.
    pose proof (Hx (p, m) ltac:(set_solver)) as X1. pose proof (Hx (p + m, k) ltac:(set_solver)) as X2.
    unfold in_block in *. simpl in *. by rewrite !upd_ne by lia.
Qed.

(** The block in front of [b] takes over [(b, n)] when they touch. *)
Definition glue_prev (l1 : blocks) (b n : Z) : blocks * (Z * Z) :=
  match last l1 with
  | Some (p, m) => if p + m =? b then (removelast l1, (p, m + n)) else (l1, (b, n))
  | None => (l1, (b, n))
  end.

Lemma frame_refl bs s : frame bs s s.
Proof. done. Qed.

Lemma merge_prev_spec s l1 b n l2 :
  free_inv s (l1 ++ (b, n) :: l2) →
  let '(l1', (b', n')) := glue_prev l1 b n in
  ∃ s', merge_prev b s = Ok (b', s') ∧ free_inv s' (l1' ++ (b', n') :: l2) ∧
    frame (l1 ++ (b, n) :: l2) s s'.
Proof.
  intros Hi. pose proof (inv_links _ _ Hi) as Hd. rewrite !fmap_app in Hd. simpl in Hd.
  unfold merge_prev, glue_prev. rewrite bind_gets. rewrite (list_prev_dll _ _ _ _ _ Hd).
  destruct l1 as [|[p m] l1 _] using rev_ind; [exists s; by eauto using frame_refl|].
  rewrite !fmap_app. simpl. rewrite !last_snoc, removelast_last. simpl.
  rewrite bind_gets. rewrite (inv_property _ _ Hi p m) by set_solver.
  destruct (Z.eqb_spec (p + m) b) as [E|E]; [|exists s; by eauto using frame_refl].
  rewrite <-app_assoc in Hi |- *. simpl in Hi |- *.
  destruct (absorb_spec _ _ _ _ _ _ _ Hi E) as (s' & Hs' & ? & ?).
  exists s'. by rewrite (bind_ok _ _ _ _ _ Hs').
Qed.

Lemma merge_next_spec s l1 b n l2 :
  free_inv s (l1 ++ (b, n) :: l2) →
  ∃ s', merge_next b s = Ok (tt, s') ∧ free_inv s' (l1 ++ glue b n l2) ∧
    frame (l1 ++ (b, n) :: l2) s s'.
Proof.
  intros Hi. pose proof (inv_links _ _ Hi) as Hd. rewrite !fmap_app in Hd. simpl in Hd.
  unfold merge_next, glue. rewrite bind_gets. rewrite (list_next_dll _ _ _ _ _ Hd).
  destruct l2 as [|[q k] l2]; simpl; [exists s; by eauto using frame_refl|].
  rewrite bind_gets. rewrite (inv_property _ _ Hi b n) by set_solver. unfold when.
  destruct (Z.eqb_spec (b + n) q) as [E|E]; [|exists s; by eauto using frame_refl].
  by apply absorb_spec.
Qed.

(** [give_back] is the insertion at the right place and the two merges. *)
Lemma give_back_split lo l1 b n l2 :
  wf_blocks lo (l1 ++ (b, n) :: l2) →
  give_back b n (l1 ++ l2) =
    let '(l1', (b', n')) := glue_prev l1 b n in l1' ++ glue b' n' l2.
Proof.
  revert lo. induction l1 as [|[p m] l1 IH]; intros lo Hwf.
  - unfold glue_prev. simpl in *. destruct l2 as [|[q k] l2]; [done|]. simpl in *.
    destruct (Z.ltb_spec b q); [done|]. lia.
  - simpl in Hwf. destruct Hwf as (_ & ? & Hwf). simpl.
    pose proof (wf_mid _ _ _ _ _ Hwf) as (_ & ? & ? & _).
    destruct (Z.ltb_spec b p); [lia|].
    specialize (IH _ Hwf). unfold glue_prev in *. destruct l1 as [|c l1].
    + simpl in *. rewrite IH. by destruct (Z.eqb_spec (p + m) b).
    + rewrite IH. destruct (Z.eqb_spec (p + m) b).
      { destruct c, Hwf as (?&?&Hwf). apply wf_mid in Hwf. lia. }
      rewrite last_cons_cons. destruct (last (c :: l1)) as [[p' m']|]; [|done].
      by destruct (p' + m' =? b).
Qed.

(** ** Linking a block of cleared pages *)

(** The common part of [default_init_memmap] and [default_free_pages]. *)
Definition link_block (base n : Z) : M pmm unit :=
  modify (set_property base (u32 n));;
  modify (SetPageProperty base);;
  modify (λ s, set_nr_free (u32 (nr_free s + n)) s);;
  insert_free_block base.

Lemma link_block_spec s0 s base n l1 l2 :
  free_inv s0 (l1 ++ l2) → cleared base n s0 s →
  wf_blocks 0 (l1 ++ (base, n) :: l2) → not_last l1 l2 → total (l1 ++ l2) + n < 2 ^ 32 →
  ∃ s', link_block base n s = Ok (tt, s') ∧ free_inv s' (l1 ++ (base, n) :: l2) ∧
    ∀ p, p ≠ base → pg_flags s' p = pg_flags s p ∧ pg_ref s' p = pg_ref s p ∧
      pg_property s' p = pg_property s p.
Proof.
  intros Hi [Hlk Hcn Hin Hout] Hwf Hnl Hb.
  pose proof (wf_mid _ _ _ _ _ Hwf) as (Hlt & Hn & H0 & Hgt).
  pose proof (total_nonneg _ _ (inv_wf _ _ Hi)).
  pose proof (length_le_total _ _ (inv_wf _ _ Hi)).
  unfold link_block. msteps. simpl nr_free. rewrite Hcn, (inv_count _ _ Hi), !u32_small by lia.
  set (s1 := set_nr_free _ _).
  destruct (insert_free_block_spec s1 base n l1 l2) as (h & -> & Hh); [..|done|done| |].
  { unfold s1. simpl. rewrite Hlk. apply (inv_links _ _ Hi). }
  { unfold list_fuel, s1. simpl. lia. }
  eexists. split; [reflexivity|]. split.
  - apply (free_inv_replace s0 _ l1 [] [(base, n)] l2); [done|done|done|..].
    + intros b' n' p Hp Hp'. unfold s1. simpl. flags.
      assert (¬ (base ≤ p < base + n)) as Ho by (apply elem_of_app in Hp as [?%Hlt|?%Hgt]; lia).
      destruct (Hout p Ho) as (Hfp & _ & Hpp). pages. rewrite upd_ne by lia.
      unfold PageReserved, PageProperty. by rewrite Hfp, Hpp.
    + intros b' n' [= -> ->]%list_elem_of_singleton. unfold s1. simpl. rewrite upd_eq.
      split; [done|]. intros p Hp. flags. unfold PageReserved, PageProperty.
      destruct (Hin p Hp) as [-> _]. rewrite !test_bit_0, orb_false_r. done.
    + unfold s1. simpl. rewrite !total_app. simpl. lia.
    + rewrite total_app in *. simpl. lia.
  - intros p Hp. unfold s1. simpl. rewrite !upd_ne by congruence. done.
Qed.

Lemma free_loop_spec s base n :
  0 < n → allocated s base n →
  ∃ s', for_range base (Z.to_nat n) (λ p,
    asserts (λ s, (negb (PageReserved s p) && negb (PageProperty s p))%bool);;
    modify (set_flags p 0);;
    modify (set_page_ref p 0)) s = Ok (tt, s') ∧ cleared base n s s'.
Proof.
  intros Hn Ha. destruct (for_range_cleared (λ p,
    asserts (λ s, (negb (PageReserved s p) && negb (PageProperty s p))%bool);;
    modify (set_flags p 0);;
    modify (set_page_ref p 0)) (λ s p, (negb (PageReserved s p) && negb (PageProperty s p))%bool)
    base (Z.to_nat n) s) as (s' & ? & Hc).
  - intros p s1 Hok. rewrite bind_asserts by done. eexists. split; [reflexivity|]. split; [split|].
    + done.
    + done.
    + intros q Hq. assert (q = p) as -> by lia. simpl. by rewrite !upd_eq.
    + intros q Hq. simpl. by rewrite !upd_ne by lia.
    + intros q Hq. unfold PageReserved, PageProperty. simpl. by rewrite !upd_ne by congruence.
  - intros p Hp. destruct (Ha p) as [-> ->]; [lia|done].
  - exists s'. rewrite Z2Nat.id in Hc by lia. done.
Qed.

Lemma init_loop_spec s base n :
  0 < n → (∀ p, base ≤ p < base + n → PageReserved s p = true) →
  ∃ s', for_range base (Z.to_nat n) (λ p,
    asserts (λ s, PageReserved s p);;
    modify (set_property p 0);;
    modify (set_flags p 0);;
    modify (set_page_ref p 0)) s = Ok (tt, s') ∧ cleared base n s s'.
Proof.
  intros Hn Ha. destruct (for_range_cleared (λ p,
    asserts (λ s, PageReserved s p);;
    modify (set_property p 0);;
    modify (set_flags p 0);;
    modify (set_page_ref p 0)) PageReserved base (Z.to_nat n) s) as (s' & ? & Hc).
  - intros p s1 Hok. rewrite bind_asserts by done. eexists. split; [reflexivity|]. split; [split|].
    + done.
    + done.
    + intros q Hq. assert (q = p) as -> by lia. simpl. by rewrite !upd_eq.
    + intros q Hq. simpl. by rewrite !upd_ne by lia.
    + intros q Hq. unfold PageReserved. simpl. by rewrite !upd_ne by congruence.
  - intros p Hp. apply Ha. lia.
  - exists s'. rewrite Z2Nat.id in Hc by lia. done.
Qed.

(** ** Freeing *)

(** Coalescing does not change the set of free pages. *)
Lemma glue_prev_pages l1 b n l2 p :
  Forall (λ bl, ¬ in_block p bl) (l1 ++ (b, n) :: l2) →
  let '(l1', (b', n')) := glue_prev l1 b n in
  Forall (λ bl, ¬ in_block p bl) (l1' ++ (b', n') :: l2).
Proof.
  unfold glue_prev. destruct l1 as [|[q m] l1 _] using rev_ind; [done|].
  rewrite last_snoc, removelast_last. destruct (Z.eqb_spec (q + m) b) as [<-|]; [|done].
  rewrite !Forall_app, !Forall_cons. unfold in_block. simpl. intros [[? [? _]] [? ?]].
  split_and!; [done|lia|done].
Qed.

Lemma frame_mid l1 b n l2 p :
  Forall (λ bl, ¬ in_block p bl) (l1 ++ (b, n) :: l2) → ¬ (b ≤ p < b + n).
Proof. rewrite Forall_app, Forall_cons. intros (_ & H & _). done. Qed.

Lemma default_free_pages_give_back s base n l1 l2 :
  free_inv s (l1 ++ l2) → allocated s base n → wf_blocks 0 (l1 ++ (base, n) :: l2) →
  not_last l1 l2 → total (l1 ++ l2) + n < 2 ^ 32 →
  ∃ s', default_free_pages base n s = Ok (tt, s') ∧
    free_inv s' (give_back base n (l1 ++ l2)) ∧ frame (l1 ++ (base, n) :: l2) s s'.
Proof.
  intros Hi Ha Hwf Hnl Hb. pose proof (wf_mid _ _ _ _ _ Hwf) as (_ & Hn & _ & _).
  unfold default_free_pages. rewrite bind_assert by lia.
  destruct (free_loop_spec s base n Hn Ha) as (s1 & E1 & Hc1).
  rewrite (bind_ok _ _ _ _ _ E1).
  destruct (link_block_spec s s1 base n l1 l2) as (s2 & E2 & Hi2 & Hf2); [done..|].
  rewrite (give_back_split _ _ _ _ _ Hwf).
  pose proof (merge_prev_spec _ _ _ _ _ Hi2) as Hp.
  destruct (glue_prev l1 base n) as [l1' [b' n']] eqn:Hg.
  destruct Hp as (s3 & E3 & Hi3 & Hf3).
  destruct (merge_next_spec _ _ _ _ _ Hi3) as (s4 & E4 & Hi4 & Hf4).
  exists s4. split_and!; [|done|].
  - transitivity ((link_block base n;; base ← merge_prev base; merge_next base) s1).
    { unfold link_block. by rewrite !bind_assoc. }
    by rewrite (bind_ok _ _ _ _ _ E2), (bind_ok _ _ _ _ _ E3).
  - assert (frame (l1 ++ (base, n) :: l2) s s2) as Hf12.
    { intros p Hp%frame_mid. destruct (cl_out _ _ _ _ Hc1 p Hp) as (<- & <- & <-). apply Hf2. lia. }
    intros p Hp. destruct (Hf12 p Hp) as (<- & <- & <-). destruct (Hf3 p Hp) as (<- & <- & <-).
    apply Hf4. pose proof (glue_prev_pages _ _ _ _ _ Hp) as Hp'. by rewrite Hg in Hp'.
Qed.

(** ** Bringing up memory *)

Lemma default_init_spec s : ∃ s', default_init s = Ok (tt, s') ∧ free_inv s' [] ∧
  pg_flags s' = pg_flags s ∧ pg_property s' = pg_property s.
Proof.
  eexists. split; [reflexivity|]. split; [|done]. split; simpl.
  - apply list_init_dll.
  - done.
  - set_solver.
  - set_solver.
  - done.
  - lia.
Qed.

Lemma default_init_memmap_spec s base n l1 l2 :
  free_inv s (l1 ++ l2) → (∀ p, base ≤ p < base + n → PageReserved s p = true) →
  wf_blocks 0 (l1 ++ (base, n) :: l2) → not_last l1 l2 → total (l1 ++ l2) + n < 2 ^ 32 →
  ∃ s', default_init_memmap base n s = Ok (tt, s') ∧ free_inv s' (l1 ++ (base, n) :: l2) ∧
    frame (l1 ++ (base, n) :: l2) s s'.
Proof.
  intros Hi Hr Hwf Hnl Hb. pose proof (wf_mid _ _ _ _ _ Hwf) as (_ & Hn & _ & _).
  unfold default_init_memmap. rewrite bind_assert by lia.
  destruct (init_loop_spec s base n Hn Hr) as (s1 & E1 & Hc1).
  rewrite (bind_ok _ _ _ _ _ E1).
  destruct (link_block_spec s s1 base n l1 l2) as (s2 & E2 & Hi2 & Hf2); [done..|].
  exists s2. split_and!; [done|done|].
  intros p Hp%frame_mid. destruct (cl_out _ _ _ _ Hc1 p Hp) as (<- & <- & <-). apply Hf2. lia.
Qed.

(** ** The abstract allocator keeps its free list coalesced *)

Lemma separated_app l1 c l2 : separated (l1 ++ c :: l2) ↔ separated (l1 ++ [c]) ∧ separated (c :: l2).
Proof.
  induction l1 as [|[b n] l1 IH]; [simpl; by destruct c; tauto|].
  destruct l1 as [|[b' n'] l1]; destruct c as [b'' n'']; simpl in *; tauto.
Qed.

Lemma separated_tail c l : separated (c :: l) → separated l.
Proof. destruct c, l as [|[]]; simpl; tauto. Qed.

(** A block may be replaced by another one that starts no earlier and ends no later. *)
Lemma separated_shrink l1 b n b' n' l2 :
  b ≤ b' → b' + n' ≤ b + n → separated (l1 ++ (b, n) :: l2) → separated (l1 ++ (b', n') :: l2).
Proof.
  intros Hb Hn. rewrite (separated_app l1 (b, n)), (separated_app l1 (b', n')).
  intros [H1 H2]. split.
  - destruct l1 as [|[c k] l1 _] using rev_ind; [done|].
    rewrite <-app_assoc in *. simpl in *. rewrite separated_app in H1 |- *. simpl in *. intuition lia.
  - destruct l2 as [|[]]; simpl in *; [done|]. intuition lia.
Qed.

Lemma separated_remove lo l1 c l2 :
  wf_blocks lo (l1 ++ c :: l2) → separated (l1 ++ c :: l2) → separated (l1 ++ l2).
Proof.
  destruct c as [b n]. intros Hwf. rewrite (separated_app l1). intros [H1 H2].
  destruct l2 as [|[q k] l2].
  { rewrite app_nil_r. destruct l1 as [|d l1 _] using rev_ind; [done|].
    rewrite <-app_assoc in H1. simpl in H1. by apply separated_app in H1 as [? _]. }
  simpl in H2. destruct H2 as [Hq H2].
  destruct l1 as [|[p m] l1 _] using rev_ind; [done|]. rewrite <-app_assoc in *. simpl in *.
  rewrite separated_app in H1. rewrite (separated_app l1). destruct H1 as [H1 [H3 _]].
  pose proof (wf_mid _ _ _ _ _ Hwf) as (_ & _ & _ & Hgt).
  assert (0 < n) by (eapply (Hgt b); set_solver).
  split; [done|]. simpl. split; [lia|done].
Qed.

Lemma first_fit_separated n bs b bs' :
  0 < n → wf_blocks 0 bs → separated bs → first_fit n bs = Some (b, bs') → separated bs'.
Proof.
  intros Hn Hwf Hs Hff. pose proof (first_fit_split n bs) as H. rewrite Hff in H.
  destruct H as (l1 & m & l2 & -> & Hm & _ & ->). destruct (n <? m); simpl.
  - eapply separated_shrink; [..|done]; lia.
  - by eapply separated_remove.
Qed.

Lemma glue_separated l1 b n l2 :
  separated (l1 ++ [(b, n)]) → separated l2 → wf_blocks (b + n) l2 → separated (l1 ++ glue b n l2).
Proof.
  intros H1 H2 Hwf. unfold glue. destruct l2 as [|[q k] l2]; [done|]. simpl in Hwf.
  destruct (Z.eqb_spec (b + n) q) as [<-|]; rewrite separated_app.
  - split.
    + destruct l1 as [|[p m] l1 _] using rev_ind; [done|].
      rewrite <-app_assoc in *. simpl in *. rewrite separated_app in H1 |- *. done.
    + destruct l2 as [|[]]; [done|]. simpl in H2 |- *. intuition lia.
  - split; [done|]. simpl. simpl in H2. split; [lia|done].
Qed.

Lemma give_back_separated l1 b n l2 :
  wf_blocks 0 (l1 ++ (b, n) :: l2) → separated (l1 ++ l2) → separated (give_back b n (l1 ++ l2)).
Proof.
  intros Hwf Hs. rewrite (give_back_split _ _ _ _ _ Hwf).
  assert (separated l1 ∧ separated l2 ∧ wf_blocks (b + n) l2) as (H1 & H2 & Hw2).
  { rewrite wf_app in Hwf. simpl in Hwf. split_and!; [| |tauto].
    - destruct l2 as [|c l2]; [by rewrite app_nil_r in Hs|].
      destruct l1 as [|d l1 _] using rev_ind; [done|].
      rewrite separated_app, <-app_assoc in Hs. simpl in Hs. destruct Hs as [Hs _].
      by apply separated_app in Hs as [? _].
    - clear Hwf. induction l1 as [|d l1 IH]; [done|]. simpl in Hs. by apply separated_tail, IH in Hs. }
  unfold glue_prev. destruct l1 as [|[p m] l1 _] using rev_ind.
  { simpl. by apply (glue_separated []). }
  rewrite last_snoc, removelast_last. rewrite <-app_assoc in Hwf. simpl in Hwf.
  destruct (Z.eqb_spec (p + m) b) as [<-|Hne].
  - apply glue_separated; [|done|by rewrite Z.add_assoc].
    destruct l1 as [|d l1 _] using rev_ind; [done|].
    rewrite <-app_assoc in *. simpl in *. rewrite separated_app in H1 |- *. simpl in *. by destruct d.
  - apply glue_separated; [|done|done]. rewrite <-app_assoc. simpl. rewrite separated_app.
    split; [done|]. simpl. split; [|done]. apply wf_mid in Hwf as (_ & _ & _ & Hwf).
    destruct (Hwf b n); [set_solver|]. lia.
Qed.

(** Freeing what was just allocated restores the free list. *)
Lemma give_back_first_fit n bs b bs' :
  0 < n → wf_blocks 0 bs → separated bs → first_fit n bs = Some (b, bs') → give_back b n bs' = bs.
Proof.
  intros Hn Hwf Hs Hff. pose proof (first_fit_split n bs) as H. rewrite Hff in H.
  destruct H as (l1 & m & l2 & -> & Hm & _ & ->).
  assert (give_back b n (l1 ++ (if n <? m then [(b + n, m - n)] else []) ++ l2) =
    let '(l1', (b', n')) := glue_prev l1 b n in
    l1' ++ glue b' n' ((if n <? m then [(b + n, m - n)] else []) ++ l2)) as ->.
  { apply (give_back_split 0). rewrite wf_app in *. simpl in *.
    destruct (Z.ltb_spec n m); simpl; [replace (b + n + (m - n)) with (b + m) by lia; intuition lia|].
    replace n with m by lia. intuition lia. }
  assert (glue_prev l1 b n = (l1, (b, n))) as ->.
  { unfold glue_prev. destruct l1 as [|[p k] l1 _] using rev_ind; [done|].
    rewrite last_snoc. rewrite <-app_assoc in Hs. simpl in Hs. rewrite separated_app in Hs.
    simpl in Hs. destruct (Z.eqb_spec (p + k) b); [lia|done]. }
  f_equal. destruct (Z.ltb_spec n m); simpl.
  - rewrite Z.eqb_refl. do 2 f_equal. lia.
  - replace m with n by lia. unfold glue. destruct l2 as [|[q k] l2]; [done|].
    rewrite separated_app in Hs. simpl in Hs. destruct (Z.eqb_spec (b + n) q); [lia|done].
Qed.

(** ** Traces of the allocator

    The clients of the page allocator hold blocks.  A step is one call of
    [default_alloc_pages] or of [default_free_pages] on a block that is held.
    The list head's [prev] is the last free block; freeing above it is the one
    case the insertion loop gets wrong (see [free_above_last_corrupts]), so the
    step asks for a free block above the freed one or for an empty free list. *)

Definition below_last (s : pmm) (b : Z) : bool :=
  match list_prev (page_link s) Head with
  | Head => true
  | Elem p => b <? p
  end.

Inductive astep : pmm * blocks → pmm * blocks → Prop :=
| astep_alloc s s' held n b : 0 < n →
    default_alloc_pages n s = Ok (Some b, s') → astep (s, held) (s', (b, n) :: held)
| astep_fail s s' held n : 0 < n →
    default_alloc_pages n s = Ok (None, s') → astep (s, held) (s', held)
| astep_free s s' h1 b n h2 : below_last s b = true →
    default_free_pages b n s = Ok (tt, s') → astep (s, h1 ++ (b, n) :: h2) (s', h1 ++ h2).

(** Two blocks share no page. *)
Definition apart (x y : Z * Z) : Prop := x.1 + x.2 ≤ y.1 ∨ y.1 + y.2 ≤ x.1.

Fixpoint pairwise_apart (l : blocks) : Prop :=
  match l with [] => True | x :: r => Forall (apart x) r ∧ pairwise_apart r end.

(** The invariant of a run over [N] pages. *)
Record trace_inv (N : Z) (s : pmm) (free held : blocks) : Prop := TraceInv {
  ti_inv : free_inv s free;
  ti_sep : separated free;
  ti_held : Forall (λ x, 0 ≤ x.1 ∧ 0 < x.2 ∧ allocated s x.1 x.2 ∧ Forall (apart x) free) held;
  ti_apart : pairwise_apart held;
  ti_total : total free + total held = N;
}.

Lemma insertion_point lo b n bs :
  wf_blocks lo bs → lo ≤ b → 0 < n → Forall (apart (b, n)) bs →
  ∃ l1 l2, bs = l1 ++ l2 ∧ wf_blocks lo (l1 ++ (b, n) :: l2).
Proof.
  revert lo. induction bs as [|[c k] bs IH]; intros lo Hwf Hb Hn Ha.
  - exists [], []. simpl. done.
  - apply Forall_cons in Ha as [Hck Ha]. unfold apart in Hck. simpl in *.
    destruct Hwf as (? & ? & Hwf). destruct Hck as [Hck|Hck].
    + exists [], ((c, k) :: bs). simpl. split_and!; [done|lia..|done].
    + destruct (IH _ Hwf ltac:(lia) Hn Ha) as (l1 & l2 & -> & ?).
      exists ((c, k) :: l1), l2. simpl. done.
Qed.

Lemma below_last_not_last s b n l1 l2 :
  dll (page_link s) Head (Elem <$> (l1 ++ l2).*1) → wf_blocks 0 (l1 ++ (b, n) :: l2) →
  below_last s b = true → not_last l1 l2.
Proof.
  intros Hd Hwf Hb ->. unfold below_last in Hb. rewrite (list_prev_head _ _ _ Hd), app_nil_r in Hb.
  destruct l1 as [|[p m] l1 _] using rev_ind; [done|]. exfalso.
  rewrite !fmap_app in Hb. simpl in Hb. rewrite last_snoc in Hb. simpl in Hb. apply Z.ltb_lt in Hb.
  apply wf_mid in Hwf as (Hlt & _ & _ & _). destruct (Hlt p m); [set_solver|]. lia.
Qed.

Lemma apart_pages x bs p :
  in_block p x → Forall (apart x) bs → Forall (λ bl, ¬ in_block p bl) bs.
Proof. intros Hp Ha. eapply Forall_impl; [done|]. intros y. unfold apart, in_block in *. lia. Qed.

(** A held block survives a call that only touches other blocks. *)
Lemma allocated_frame bs s s' x :
  frame bs s s' → Forall (apart x) bs → allocated s x.1 x.2 → allocated s' x.1 x.2.
Proof.
  intros Hf Ha Hs p Hp. destruct (Hf p) as (H & _ & _).
  { by eapply apart_pages. }
  unfold PageReserved, PageProperty. rewrite H. by apply Hs.
Qed.

(** The pages of [first_fit]'s result and remainder come from the free list. *)
Lemma first_fit_apart n bs b bs' x :
  0 < n → first_fit n bs = Some (b, bs') → Forall (apart x) bs →
  apart x (b, n) ∧ Forall (apart x) bs'.
Proof.
  intros Hn Hff Hx. pose proof (first_fit_split n bs) as H. rewrite Hff in H.
  destruct H as (l1 & m & l2 & -> & Hm & _ & ->).
  rewrite !Forall_app, Forall_cons in *. destruct Hx as (H1 & H2 & H3). unfold apart in H2. simpl in H2.
  split; [unfold apart; simpl; lia|]. split_and!; [done| |done].
  destruct (Z.ltb_spec n m); [|done]. apply Forall_singleton. unfold apart. simpl. lia.
Qed.

Lemma first_fit_total n bs b bs' : first_fit n bs = Some (b, bs') → total bs' = total bs - n.
Proof.
  intros Hff. pose proof (first_fit_split n bs) as H. rewrite Hff in H.
  destruct H as (l1 & m & l2 & -> & Hm & _ & ->). rewrite !total_app.
  destruct (Z.ltb_spec n m); simpl; lia.
Qed.

Lemma first_fit_self_apart n bs b bs' :
  0 < n → wf_blocks 0 bs → first_fit n bs = Some (b, bs') → 0 ≤ b ∧ Forall (apart (b, n)) bs'.
Proof.
  intros Hn Hwf Hff. pose proof (first_fit_split n bs) as H. rewrite Hff in H.
  destruct H as (l1 & m & l2 & -> & Hm & _ & ->). apply wf_mid in Hwf as (Hlt & ? & ? & Hgt).
  split; [lia|]. rewrite !Forall_app. split_and!.
  - apply Forall_forall. intros [c k] Hin. destruct (Hlt _ _ Hin). unfold apart. simpl. lia.
  - destruct (Z.ltb_spec n m); [|done]. apply Forall_singleton. unfold apart. simpl. lia.
  - apply Forall_forall. intros [c k] Hin. destruct (Hgt _ _ Hin). unfold apart. simpl. lia.
Qed.

Lemma glue_apart x b n bs :
  0 < x.2 → apart x (b, n) → Forall (apart x) bs → Forall (apart x) (glue b n bs).
Proof.
  intros Hx Hb Hbs. unfold glue. destruct bs as [|[c k] bs]; [by constructor|].
  destruct (Z.eqb_spec (b + n) c) as [<-|]; [|by constructor].
  apply Forall_cons in Hbs as [Hc Hbs]. constructor; [|done]. unfold apart in *. simpl in *. lia.
Qed.

Lemma give_back_apart x b n bs :
  0 < x.2 → apart x (b, n) → Forall (apart x) bs → Forall (apart x) (give_back b n bs).
Proof.
  intros Hx Hb. induction bs as [|[c k] bs IH]; intros Hbs; simpl; [by constructor|].
  apply Forall_cons in Hbs as [Hc Hbs].
  destruct (b <? c); [by apply (glue_apart x b n ((c, k) :: bs)); [..|constructor]|].
  destruct (Z.eqb_spec (c + k) b) as [<-|]; [|constructor; by auto].
  apply glue_apart; [done| |done]. unfold apart in *. simpl in *. lia.
Qed.

Lemma glue_total b n bs : total (glue b n bs) = n + total bs.
Proof. unfold glue. destruct bs as [|[c k] bs]; simpl; [lia|]. destruct (b + n =? c); simpl; lia. Qed.

Lemma give_back_total b n bs : total (give_back b n bs) = n + total bs.
Proof.
  induction bs as [|[c k] bs IH]; simpl; [lia|].
  destruct (b <? c); [destruct (b + n =? c); simpl; lia|].
  destruct (c + k =? b); [rewrite glue_total; lia|]. simpl. lia.
Qed.

Lemma apart_sym x y : apart x y → apart y x.
Proof. unfold apart. lia. Qed.

Lemma pairwise_apart_mid h1 x h2 :
  pairwise_apart (h1 ++ x :: h2) → Forall (apart x) (h1 ++ h2) ∧ pairwise_apart (h1 ++ h2).
Proof.
  induction h1 as [|y h1 IH]; simpl; [done|].
  rewrite Forall_app, Forall_cons. intros ((H1 & H2 & H3) & Hp). destruct (IH Hp) as [Hx ?].
  split; [constructor; [by apply apart_sym|done]|]. split; [|done]. by apply Forall_app.
Qed.

(** What one call does to a run: it returns, and the invariant holds again. *)
Lemma trace_alloc N s free held n :
  N < 2 ^ 32 → trace_inv N s free held → 0 < n →
  ∃ r s' free' held', default_alloc_pages n s = Ok (r, s') ∧ trace_inv N s' free' held' ∧
    held' = match r with Some b => (b, n) :: held | None => held end ∧
    (r, free') = match first_fit n free with Some (b, f) => (Some b, f) | None => (None, free) end.
Proof.
  intros HN [Hi Hs Hh Ha Ht] Hn. pose proof (default_alloc_pages_first_fit s free n Hi Hn) as H.
  destruct (first_fit n free) as [[b free']|] eqn:E.
  - destruct H as (s' & Hs' & Hi' & Hal & Hf).
    exists (Some b), s', free', ((b, n) :: held). split; [done|]. split; [|done].
    destruct (first_fit_self_apart n free b free' Hn (inv_wf _ _ Hi) E).
    split; [done|by eapply first_fit_separated, E; [..|apply (inv_wf _ _ Hi)|]| | |].
    + constructor; [done|]. eapply Forall_impl; [apply Hh|].
      intros x (? & ? & ? & Hx). destruct (first_fit_apart _ _ _ _ _ Hn E Hx).
      split_and!; [done..| |done]. by eapply allocated_frame.
    + simpl. split; [|done]. apply Forall_forall. intros x Hin. rewrite Forall_forall in Hh.
      destruct (Hh x Hin) as (_ & _ & _ & Hx). apply apart_sym.
      by destruct (first_fit_apart _ _ _ _ _ Hn E Hx).
    + simpl. rewrite (first_fit_total _ _ _ _ E). lia.
  - by exists None, s, free, held.
Qed.

Lemma total_held_nonneg s free held :
  Forall (λ x, 0 ≤ x.1 ∧ 0 < x.2 ∧ allocated s x.1 x.2 ∧ Forall (apart x) free) held → 0 ≤ total held.
Proof. induction 1 as [|[b n] l (_ & ? & _) _ IH]; simpl in *; lia. Qed.

Lemma trace_free N s free h1 b n h2 :
  N < 2 ^ 32 → trace_inv N s free (h1 ++ (b, n) :: h2) → below_last s b = true →
  ∃ s', default_free_pages b n s = Ok (tt, s') ∧ trace_inv N s' (give_back b n free) (h1 ++ h2).
Proof.
  intros HN [Hi Hs Hh Ha Ht] Hb.
  rewrite Forall_app, Forall_cons in Hh. destruct Hh as (Hh1 & (H0 & Hn & Hal & Hbf) & Hh2).
  simpl in H0, Hn, Hal. pose proof (total_held_nonneg _ _ _ Hh1). pose proof (total_held_nonneg _ _ _ Hh2).
  rewrite total_app in Ht. simpl in Ht.
  destruct (insertion_point 0 b n free (inv_wf _ _ Hi) H0 Hn Hbf) as (l1 & l2 & -> & Hwf).
  destruct (default_free_pages_give_back s b n l1 l2) as (s' & Hs' & Hi' & Hf); [done..| | |].
  { eapply below_last_not_last; [apply (inv_links _ _ Hi)|done|done]. }
  { lia. }
  exists s'. split; [done|]. apply pairwise_apart_mid in Ha as [Hx Ha].
  split; [done|by apply give_back_separated| |done|].
  - apply Forall_forall. intros x Hin. rewrite Forall_forall in Hx.
    assert (0 ≤ x.1 ∧ 0 < x.2 ∧ allocated s x.1 x.2 ∧ Forall (apart x) (l1 ++ l2)) as (? & ? & ? & Hxf).
    { rewrite Forall_forall in Hh1, Hh2. apply elem_of_app in Hin as [?|?]; eauto. }
    split_and!; [done..| |].
    + eapply allocated_frame; [done| |done]. rewrite Forall_app, Forall_cons in *.
      split_and!; [apply Hxf|by apply apart_sym, Hx|apply Hxf].
    + apply give_back_apart; [done|by apply apart_sym, Hx|done].
  - rewrite give_back_total, !total_app in *. lia.
Qed.

Lemma trace_step N s held free s' held' :
  N < 2 ^ 32 → trace_inv N s free held → astep (s, held) (s', held') →
  ∃ free', trace_inv N s' free' held'.
Proof.
  intros HN Hi. inversion 1 as [? ? ? n b Hn E|? ? ? n Hn E|? ? h1 b n h2 Hb E]; subst.
  - destruct (trace_alloc N s free held n HN Hi Hn) as (r & ? & free' & ? & E' & Hi' & -> & _).
    rewrite E in E'. simplify_eq. eauto.
  - destruct (trace_alloc N s free held' n HN Hi Hn) as (r & ? & free' & ? & E' & Hi' & -> & _).
    rewrite E in E'. simplify_eq. eauto.
  - destruct (trace_free N s free h1 b n h2 HN Hi Hb) as (? & E' & ?). rewrite E in E'. simplify_eq. eauto.
Qed.

Lemma trace_reachable N s held free s' held' :
  N < 2 ^ 32 → trace_inv N s free held → rtc astep (s, held) (s', held') →
  ∃ free', trace_inv N s' free' held'.
Proof.
  intros HN Hi Hr. remember (s, held) as x eqn:Ex. remember (s', held') as y eqn:Ey.
  revert s held free Ex Hi. induction Hr as [|? [s1 held1] ? Hst Hr IH]; intros s held free -> Hi.
  - simplify_eq. eauto.
  - destruct (trace_step N _ _ _ _ _ HN Hi Hst) as [free1 Hi1]. by eapply IH.
Qed.

(** ** The end of the free list

    The branch of the insertion loop that appends [base] has no [break]: the
    loop goes on with [base] itself, whose successor is the list head, and
    calls [list_add(&base->page_link, &base->page_link)]. *)

Lemma insert_walk_last s base (a0 a1 : list Z) (a : Z) fuel :
  dll (page_link s) Head (Elem <$> a0 ++ a1 ++ [a]) →
  Forall (λ x, x < base) (a0 ++ a1 ++ [a]) → (length a1 + 2 < fuel)%nat →
  insert_walk fuel base (default Head (last (Elem <$> a0))) s =
    Ok (tt, set_links (λ h, list_add (Elem base) (Elem base) (list_add (Elem a) (Elem base) h)) s).
Proof.
  revert a0 fuel. induction a1 as [|c a1 IH]; intros a0 fuel Hd Ha Hf;
    (destruct fuel as [|fuel]; simpl in Hf; [lia|]); simpl; msteps; rewrite fmap_app in Hd;
    rewrite (list_next_cut _ _ _ _ Hd); simpl;
    pose proof Ha as (Ha0 & [Ha1 Ha2]%Forall_cons)%Forall_app.
  - destruct (Z.ltb_spec base a); [lia|].
    pose proof Hd as Hd'. rewrite app_nil_l, fmap_cons in Hd'. rewrite (list_next_dll _ _ _ _ _ Hd').
    rewrite bool_decide_eq_true_2 by done. unfold when. msteps.
    assert (dll (list_add (Elem a) (Elem base) (page_link s)) Head
      ((Elem <$> a0) ++ Elem a :: [Elem base])) as Hd1.
    { apply list_add_after_dll; [done|]. rewrite not_elem_of_cons. split; [done|].
      change [Elem a] with (Elem <$> [a]). rewrite <-fmap_app, elem_of_elems.
      intros Hin. rewrite Forall_forall in Ha. specialize (Ha _ Hin). simpl in Ha. lia. }
    destruct fuel as [|fuel]; [lia|]. simpl. msteps. cbn [page_link set_links].
        rewrite (list_next_dll _ _ _ _ _ Hd1). simpl. rewrite Z.ltb_irrefl.
    rewrite (cons_middle (Elem a)), app_assoc in Hd1.
    pose proof (list_next_dll _ _ _ _ _ Hd1) as Hb. simpl in Hb. rewrite Hb.
    rewrite bool_decide_eq_true_2 by done. unfold when. msteps.
    destruct fuel as [|fuel]; [lia|]. simpl. msteps. cbn [page_link set_links].
    destruct (list_add_self (Elem base) (list_add (Elem a) (Elem base) (page_link s))) as [-> _].
    { unfold list_next in Hb. by rewrite Hb. }
    unfold list_next in Hb. by rewrite Hb.
  - destruct (Z.ltb_spec base c); [lia|].
    pose proof Hd as Hd'. rewrite <-app_comm_cons, fmap_cons in Hd'. rewrite (list_next_dll _ _ _ _ _ Hd').
    rewrite bool_decide_eq_false_2 by (destruct a1; done). unfold when. rewrite bind_ret.
    specialize (IH (a0 ++ [c]) fuel). rewrite <-app_assoc in IH.
    rewrite last_fmap_snoc in IH.
    rewrite <-fmap_app in Hd. apply IH; [done|done|lia].
Qed.

Lemma insert_free_block_last s (bs : blocks) base :
  dll (page_link s) Head (Elem <$> bs.*1) → bs ≠ [] → Forall (λ bl, bl.1 < base) bs →
  (length bs + 1 < list_fuel s)%nat →
  ∃ s', insert_free_block base s = Ok (tt, s') ∧
    list_prev (page_link s') (Elem base) = Elem base ∧
    list_next (page_link s') (Elem base) = Head.
Proof.
  intros Hd Hne Hlt Hf. unfold insert_free_block. msteps. rewrite (list_empty_dll _ _ _ Hd).
  destruct bs as [|[a n] bs _] using rev_ind; [done|].
  rewrite bool_decide_eq_false_2 by (destruct bs; done). msteps.
  rewrite fmap_app in Hd. pose proof (insert_walk_last s base [] bs.*1 a (list_fuel s)) as Hw.
  change (default Head (last (Elem <$> []))) with (@Head Z) in Hw. rewrite Hw.
  - eexists. split; [reflexivity|]. simpl.
    rewrite fmap_app in Hd. apply list_add_after_dll with (e := Elem base) in Hd; simpl.
    + rewrite (cons_middle (Elem a)), app_assoc in Hd. apply list_next_dll in Hd. simpl in Hd.
      unfold list_next in Hd. fold (list_add (Elem a) (Elem base) (page_link s)) in Hd.
      destruct (list_add_self (Elem base) (list_add (Elem a) (Elem base) (page_link s))) as [-> ->];
        by rewrite Hd.
    + apply not_elem_of_cons. split; [done|]. rewrite <-(fmap_app Elem bs.*1 [a]), elem_of_elems.
      change [a] with ([(a, n)].*1). rewrite <-(fmap_app fst bs [(a, n)]). intros ([c k] & -> & Hin)%list_elem_of_fmap.
      rewrite Forall_forall in Hlt. specialize (Hlt _ Hin). simpl in Hlt. lia.
  - done.
  - change [a] with ([(a, n)].*1). rewrite app_nil_l, <-fmap_app. by apply Forall_fmap.
  - rewrite length_app in Hf. simpl in Hf. rewrite length_fmap. lia.
Qed.

(** ** The properties of the allocator *)

(** All pages reserved, as [page_init] leaves them. *)
Definition boot : pmm := Pmm (λ _, 0) (λ _, 1) (λ _, 0) (λ _, ListEntry Head Head) 0.

Definition bring_up (base N : Z) : M pmm unit := default_init;; default_init_memmap base N.

Lemma bring_up_inv s0 base N :
  0 ≤ base → 0 < N < 2 ^ 32 → (∀ p, base ≤ p < base + N → PageReserved s0 p = true) →
  ∃ s1, bring_up base N s0 = Ok (tt, s1) ∧ trace_inv N s1 [(base, N)] [].
Proof.
  intros Hb HN Hr. destruct (default_init_spec s0) as (s & E & Hi & Hfl & _).
  destruct (default_init_memmap_spec s base N [] []) as (s1 & E1 & Hi1 & _); simpl; try done; try lia.
  { intros p Hp. unfold PageReserved. rewrite Hfl. by apply Hr. }
  exists s1. unfold bring_up. rewrite (bind_ok _ _ _ _ _ E). split; [done|].
  split; simpl; [done..|lia].
Qed.

(** Concrete states for the examples: 20 pages brought up, and the same with the
    first three pages allocated. *)
Definition result {S A} (r : res (A * S)) (d : S) : S := match r with Ok (_, s) => s | _ => d end.

Definition up20 : pmm := result (bring_up 0 20 boot) boot.
Definition up20_held3 : pmm := result (default_alloc_pages 3 up20) boot.

Lemma up20_inv : free_inv up20 [(0, 20)].
Proof.
  destruct (bring_up_inv boot 0 20) as (s1 & E & Hi); [lia..|done|].
  unfold up20. rewrite E. apply (ti_inv _ _ _ _ Hi).
Qed.

Lemma up20_held3_inv : free_inv up20_held3 [(3, 17)] ∧ allocated up20_held3 0 3.
Proof.
  destruct (default_alloc_pages_first_fit up20 _ 3 up20_inv ltac:(lia)) as (s' & E & ? & ? & _).
  unfold up20_held3. rewrite E. done.
Qed.

(** C1. Safety of the page allocator over every run.  From memory brought up by
    [default_init] and [default_init_memmap], after any sequence of calls of
    [default_alloc_pages] and of [default_free_pages] on held blocks (that do not
    lie above the last free block), the blocks held by the clients are pairwise
    disjoint, no page is lost ([nr_free] plus the held pages is all of memory),
    the next allocation returns (no panic, no endless loop) and hands out only
    pages nobody holds, and freeing a held block returns. *)
Theorem pmm_runs_are_safe base N s0 s1 s2 held :
  0 ≤ base → 0 < N < 2 ^ 32 → (∀ p, base ≤ p < base + N → PageReserved s0 p = true) →
  bring_up base N s0 = Ok (tt, s1) → rtc astep (s1, []) (s2, held) →
  pairwise_apart held ∧ nr_free s2 + total held = N ∧
  (∀ n, 0 < n → ∃ r s3, default_alloc_pages n s2 = Ok (r, s3) ∧
    ∀ b, r = Some b → Forall (apart (b, n)) held) ∧
  (∀ h1 b n h2, held = h1 ++ (b, n) :: h2 → below_last s2 b = true →
    ∃ s3, default_free_pages b n s2 = Ok (tt, s3)).
Proof.
  intros Hb HN Hr E Hrun. destruct (bring_up_inv s0 base N Hb HN Hr) as (s1' & E' & Hi).
  rewrite E in E'. simplify_eq.
  destruct (trace_reachable N _ _ _ _ _ ltac:(lia) Hi Hrun) as [free Hi2].
  split_and!.
  - apply (ti_apart _ _ _ _ Hi2).
  - rewrite (inv_count _ _ (ti_inv _ _ _ _ Hi2)). apply (ti_total _ _ _ _ Hi2).
  - intros n Hn.
    destruct (trace_alloc N _ _ _ n ltac:(lia) Hi2 Hn) as (r & s3 & ? & ? & E3 & Hi3 & -> & _).
    exists r, s3. split; [done|]. intros b ->. apply (ti_apart _ _ _ _ Hi3).
  - intros h1 b n h2 -> Hl.
    destruct (trace_free N _ _ _ _ _ _ ltac:(lia) Hi2 Hl) as (s3 & ? & _). eauto.
Qed.

Lemma pmm_runs_are_safe_witness : ∃ s1 s2,
  bring_up 0 20 boot = Ok (tt, s1) ∧ rtc astep (s1, []) (s2, [(3, 2); (0, 3)]) ∧
  nr_free s2 + 5 = 20.
Proof.
  eexists _, _. split_and!; [vm_compute; reflexivity|..].
  - eapply rtc_l; [eapply (astep_alloc _ _ _ 3); [lia|vm_compute; reflexivity]|].
    eapply rtc_once, (astep_alloc _ _ _ 2); [lia|vm_compute; reflexivity].
  - eapply (pmm_runs_are_safe 0 20 boot _ _ [(3, 2); (0, 3)]).
    + lia.
    + lia.
    + intros. reflexivity.
    + vm_compute. reflexivity.
    + eapply rtc_l; [eapply (astep_alloc _ _ _ 3); [lia|vm_compute; reflexivity]|].
      eapply rtc_once, (astep_alloc _ _ _ 2); [lia|vm_compute; reflexivity].
Defined.

(** C24. [default_alloc_pages] refines the first-fit policy on the abstract free
    list: it returns the first block that is large enough and leaves the rest of
    it at its place, the result's pages are allocated, other descriptors do not
    change, the list stays coalesced, and [NULL] means that no block fits. *)
Theorem default_alloc_pages_refines s bs n :
  free_inv s bs → separated bs → 0 < n →
  match first_fit n bs with
  | Some (b, bs') => ∃ s', default_alloc_pages n s = Ok (Some b, s') ∧ free_inv s' bs' ∧
      separated bs' ∧ total bs' = total bs - n ∧ allocated s' b n ∧ frame bs s s'
  | None => default_alloc_pages n s = Ok (None, s) ∧ Forall (λ bl, bl.2 < n) bs
  end.
Proof.
  intros Hi Hs Hn. pose proof (default_alloc_pages_first_fit s bs n Hi Hn) as H.
  pose proof (first_fit_split n bs) as Hsp.
  destruct (first_fit n bs) as [[b bs']|] eqn:E; [|done].
  destruct H as (s' & ? & ? & ? & ?). exists s'. split_and!; [done..| | |done|done].
  - eapply first_fit_separated; [|apply (inv_wf _ _ Hi)|..]; done.
  - by eapply first_fit_total.
Qed.

Lemma default_alloc_pages_refines_witness : ∃ s',
  default_alloc_pages 3 up20 = Ok (Some 0, s') ∧ free_inv s' [(3, 17)].
Proof.
  destruct (default_alloc_pages_refines up20 [(0, 20)] 3 up20_inv I ltac:(lia)) as (s' & ? & ? & _).
  eauto.
Defined.

(** C25. [default_free_pages] refines the abstract [give_back]: unless the block
    lies above the last free block, it returns, the free list is the old one with
    the block coalesced with both its neighbours, it stays sorted and
    coalesced, and no page is lost. *)
Theorem default_free_pages_refines s bs b n :
  free_inv s bs → separated bs → 0 ≤ b → 0 < n → allocated s b n → Forall (apart (b, n)) bs →
  below_last s b = true → total bs + n < 2 ^ 32 →
  ∃ s', default_free_pages b n s = Ok (tt, s') ∧ free_inv s' (give_back b n bs) ∧
    separated (give_back b n bs) ∧ nr_free s' = nr_free s + n ∧ frame ((b, n) :: bs) s s'.
Proof.
  intros Hi Hs H0 Hn Ha Hap Hl Ht.
  destruct (insertion_point 0 b n bs (inv_wf _ _ Hi) H0 Hn Hap) as (l1 & l2 & -> & Hwf).
  destruct (default_free_pages_give_back s b n l1 l2) as (s' & ? & Hi' & Hf); [done..| |done|].
  { eapply below_last_not_last; [apply (inv_links _ _ Hi)|done..]. }
  exists s'. split_and!; [done..| | |].
  - by apply give_back_separated.
  - rewrite (inv_count _ _ Hi'), give_back_total, (inv_count _ _ Hi). lia.
  - intros p Hp. apply Hf. by rewrite <-Permutation_middle.
Qed.

Lemma default_free_pages_refines_witness : ∃ s',
  default_free_pages 0 3 up20_held3 = Ok (tt, s') ∧ free_inv s' [(0, 20)].
Proof.
  destruct (default_free_pages_refines up20_held3 [(3, 17)] 0 3) as (s' & E & Hi & _).
  - apply up20_held3_inv.
  - exact I.
  - lia.
  - lia.
  - apply up20_held3_inv.
  - apply Forall_singleton. unfold apart. simpl. lia.
  - vm_compute. reflexivity.
  - simpl. lia.
  - exists s'. split; [exact E|exact Hi].
Defined.

(** Round trip: freeing the block that was just allocated gives back the
    free list of before, when a free block is left above it. *)
Theorem alloc_free_roundtrip s bs n b s1 :
  free_inv s bs → separated bs → 0 < n → default_alloc_pages n s = Ok (Some b, s1) →
  below_last s1 b = true →
  ∃ s2, default_free_pages b n s1 = Ok (tt, s2) ∧ free_inv s2 bs.
Proof.
  intros Hi Hs Hn E Hl. pose proof (default_alloc_pages_first_fit s bs n Hi Hn) as H.
  destruct (first_fit n bs) as [[b' bs']|] eqn:Eff; [|congruence].
  destruct H as (s1' & E' & Hi1 & Hal & _). rewrite E in E'. simplify_eq.
  destruct (first_fit_self_apart n bs b' bs' Hn (inv_wf _ _ Hi) Eff) as [H0 Hap].
  destruct (insertion_point 0 b' n bs' (inv_wf _ _ Hi1) H0 Hn Hap) as (l1 & l2 & -> & Hwf).
  pose proof (first_fit_total _ _ _ _ Eff). pose proof (inv_total _ _ Hi).
  destruct (default_free_pages_give_back s1' b' n l1 l2) as (s2 & E2 & Hi2 & _); [done..| |lia|].
  { eapply below_last_not_last; [apply (inv_links _ _ Hi1)|done..]. }
  exists s2. split; [done|].
  by rewrite (give_back_first_fit n bs b' (l1 ++ l2) Hn (inv_wf _ _ Hi) Hs Eff) in Hi2.
Qed.

Lemma alloc_free_roundtrip_witness : ∃ s1 s2,
  default_alloc_pages 3 up20 = Ok (Some 0, s1) ∧ default_free_pages 0 3 s1 = Ok (tt, s2) ∧
  free_inv s2 [(0, 20)].
Proof.
  destruct (alloc_free_roundtrip up20 [(0, 20)] 3 0 up20_held3) as (s2 & ? & ?).
  - apply up20_inv.
  - exact I.
  - lia.
  - vm_compute. reflexivity.
  - vm_compute. reflexivity.
  - exists up20_held3, s2. split_and!; [vm_compute; reflexivity|assumption..].
Defined.

(** The defect at the end of the list: inserting a block above every block
    of a non-empty free list makes the block its own predecessor, so the
    neighbour below it is not found for coalescing. *)
Theorem free_above_last_corrupts s bs base :
  free_inv s bs → bs ≠ [] → Forall (λ bl, bl.1 < base) bs → (length bs < Z.to_nat (nr_free s))%nat →
  ∃ s', insert_free_block base s = Ok (tt, s') ∧
    list_prev (page_link s') (Elem base) = Elem base ∧ list_next (page_link s') (Elem base) = Head.
Proof.
  intros Hi Hne Hlt Hf. apply (insert_free_block_last s bs base); [apply (inv_links _ _ Hi)|done|done|].
  unfold list_fuel. lia.
Qed.

Lemma free_above_last_corrupts_witness : ∃ s',
  insert_free_block 25 up20 = Ok (tt, s') ∧ list_prev (page_link s') (Elem 25) = Elem 25.
Proof.
  destruct (free_above_last_corrupts up20 [(0, 20)] 25) as (s' & ? & ? & _).
  - apply up20_inv.
  - done.
  - apply Forall_singleton. simpl. lia.
  - vm_compute. lia.
  - eauto.
Defined.

(** A client that only frees what it holds. *)
Definition double_alloc_run : M pmm (list (option Z)) :=
  bring_up 0 20;;
  a ← default_alloc_pages 1; b ← default_alloc_pages 1;
  c ← default_alloc_pages 1; d ← default_alloc_pages 1;
  e ← default_alloc_pages 16;
  default_free_pages 0 1;; default_free_pages 2 1;; default_free_pages 4 16;;
  f ← default_alloc_pages 16;
  default_free_pages 3 1;;
  g ← default_alloc_pages 2;
  mret [a; b; c; d; e; f; g].

(** The defect breaks safety: the allocator hands out page 4 while the
    block of 16 pages at 4 is still held by its client. *)
Theorem double_allocation : ∃ s',
  double_alloc_run boot = Ok ([Some 0; Some 1; Some 2; Some 3; Some 4; Some 4; Some 4], s').
Proof. eexists. vm_compute. reflexivity. Qed.
