(* ===== verification/SkewHeap.v ===== *)
(** * libs/skew_heap.h: intrusive skew heaps

    The three pointers of a [skew_heap_entry_t] are a function from entries to
    their contents.  [tree_at h par t] says that the entries of the functional
    tree [t] are linked in [h] and that the root's parent is [par]; the pointer
    operations are proved to work on such trees. *)

From S2P Require Import Prelude.

Section skew_heap.
Context {K : Type} `{!EqDecision K}.

(** [struct skew_heap_entry] *)
Record skew_heap_entry := SkewHeapEntry {
  sh_parent : option K;
  sh_left : option K;
  sh_right : option K;
}.

Definition sheap := K → skew_heap_entry.

Definition set_parent (a : K) (v : option K) (h : sheap) : sheap :=
  upd a (SkewHeapEntry v (sh_left (h a)) (sh_right (h a))) h.
Definition set_left (a : K) (v : option K) (h : sheap) : sheap :=
  upd a (SkewHeapEntry (sh_parent (h a)) v (sh_right (h a))) h.
Definition set_right (a : K) (v : option K) (h : sheap) : sheap :=
  upd a (SkewHeapEntry (sh_parent (h a)) (sh_left (h a)) v) h.

Definition skew_heap_init (a : K) : M sheap unit :=
  modify (set_parent a None);; modify (set_right a None);; modify (set_left a None).

(** [if (p) p->parent = v] *)
Definition adopt (p : option K) (v : option K) : M sheap unit :=
  match p with Some p => modify (set_parent p v) | None => mret tt end.

(** The recursion descends in one of the two heaps at every call: the number
    of their entries is enough fuel. *)
Fixpoint skew_heap_merge (comp : K → K → Z) (fuel : nat) (a b : option K) : M sheap (option K) :=
  match a, b with
  | None, _ => mret b
  | _, None => mret a
  | Some x, Some y =>
    match fuel with
    | O => out_of_fuel
    | S fuel' =>
      if comp x y =? -1 then
        r ← gets (λ h, sh_left (h x));
        xr ← gets (λ h, sh_right (h x));
        l ← skew_heap_merge comp fuel' xr b;
        modify (set_left x l);;
        modify (set_right x r);;
        adopt l (Some x);;
        mret (Some x)
      else
        r ← gets (λ h, sh_left (h y));
        yr ← gets (λ h, sh_right (h y));
        l ← skew_heap_merge comp fuel' a yr;
        modify (set_left y l);;
        modify (set_right y r);;
        adopt l (Some y);;
        mret (Some y)
    end
  end.

Definition skew_heap_insert (comp : K → K → Z) (fuel : nat) (a : option K) (b : K) : M sheap (option K) :=
  skew_heap_init b;;
  skew_heap_merge comp fuel a (Some b).

Definition skew_heap_remove (comp : K → K → Z) (fuel : nat) (a : option K) (b : K) : M sheap (option K) :=
  p ← gets (λ h, sh_parent (h b));
  bl ← gets (λ h, sh_left (h b));
  br ← gets (λ h, sh_right (h b));
  rep ← skew_heap_merge comp fuel bl br;
  adopt rep p;;
  match p with
  | Some p =>
    pl ← gets (λ h, sh_left (h p));
    (if decide (pl = Some b) then modify (set_left p rep) else modify (set_right p rep));;
    mret a
  | None => mret rep
  end.

(** ** Functional trees *)

Inductive tree : Type :=
| Leaf
| Node (l : tree) (k : K) (r : tree).

Definition root (t : tree) : option K :=
  match t with Leaf => None | Node _ k _ => Some k end.

Fixpoint elems (t : tree) : list K :=
  match t with Leaf => [] | Node l k r => k :: elems l ++ elems r end.

Fixpoint tree_at (h : sheap) (par : option K) (t : tree) : Prop :=
  match t with
  | Leaf => True
  | Node l k r => h k = SkewHeapEntry par (root l) (root r) ∧
      tree_at h (Some k) l ∧ tree_at h (Some k) r
  end.

(** Heap order: no entry ranks below its parent. *)
Fixpoint heap_ordered (rank : K → Z) (t : tree) : Prop :=
  match t with
  | Leaf => True
  | Node l k r => Forall (λ x, rank k ≤ rank x) (elems l ++ elems r) ∧
      heap_ordered rank l ∧ heap_ordered rank r
  end.

(** [comp] compares the entries [D] as [rank] does. *)
Definition comp_by (rank : K → Z) (comp : K → K → Z) (D : list K) : Prop :=
  ∀ x y, x ∈ D → y ∈ D → (comp x y = -1 → rank x ≤ rank y) ∧ (comp x y ≠ -1 → rank y ≤ rank x).

Implicit Types (h : sheap) (t : tree).

Lemma tree_at_frame h h' par t :
  (∀ x, x ∈ elems t → h' x = h x) → tree_at h par t → tree_at h' par t.
Proof.
  revert par. induction t as [|l IHl k r IHr]; intros par; simpl; [done|].
  intros Hf (Hk & Hl & Hr). split_and!.
  - rewrite Hf; [done|set_solver].
  - apply IHl; [|done]. set_solver.
  - apply IHr; [|done]. set_solver.
Qed.

Lemma tree_at_adopt h par par' t :
  NoDup (elems t) → tree_at h par t →
  ∃ h', adopt (root t) par' h = Ok (tt, h') ∧ tree_at h' par' t ∧
    ∀ x, root t ≠ Some x → h' x = h x.
Proof.
  destruct t as [|l k r]; simpl; intros Hnd Ht; [eauto|].
  destruct Ht as (Hk & Hl & Hr). apply NoDup_cons in Hnd as [Hni _]. eexists. split; [reflexivity|].
  assert (∀ x, x ≠ k → set_parent k par' h x = h x) as Hf.
  { intros x Hx. unfold set_parent. by rewrite upd_ne. }
  split; [|intros x Hx; apply Hf; congruence]. split_and!.
  - unfold set_parent. rewrite upd_eq. by rewrite Hk.
  - eapply tree_at_frame; [|done]. intros x Hx. apply Hf. set_solver.
  - eapply tree_at_frame; [|done]. intros x Hx. apply Hf. set_solver.
Qed.

(** One unfolding of the merge: [k] with left subtree [lt] becomes the root, the
    merged rest [mt] its new left child. *)
Lemma relink h k p lt mt pl :
  NoDup (k :: elems mt ++ elems lt) →
  sh_parent (h k) = p → tree_at h (Some k) lt → tree_at h pl mt →
  ∃ h', (modify (set_left k (root mt));; modify (set_right k (root lt));;
         adopt (root mt) (Some k);; mret (Some k)) h = Ok (Some k, h') ∧
    tree_at h' p (Node mt k lt) ∧ ∀ x, x ∉ k :: elems mt → h' x = h x.
Proof.
  intros Hnd Hp Hlt Hmt. apply NoDup_cons in Hnd as [Hk Hnd].
  apply NoDup_app in Hnd as (Hndm & Hdis & _). msteps.
  set (h1 := set_right k (root lt) (set_left k (root mt) h)).
  assert (∀ x, x ≠ k → h1 x = h x) as Hf1.
  { intros x Hx. unfold h1, set_right, set_left. by rewrite !upd_ne by done. }
  destruct (tree_at_adopt h1 pl (Some k) mt Hndm) as (h2 & E2 & Hm2 & Hf2).
  { eapply tree_at_frame; [|done]. intros x Hx. apply Hf1. set_solver. }
  assert (∀ x, root mt = Some x → x ∈ elems mt) as Hroot.
  { destruct mt; simpl; [done|]. intros x [= ->]. set_solver. }
  exists h2. rewrite (bind_ok _ _ _ _ _ E2). split; [done|]. split.
  - simpl. split_and!; [|done|].
    + rewrite Hf2 by (intros ?%Hroot; set_solver). unfold h1, set_right, set_left.
      rewrite !upd_eq. simpl. by rewrite Hp.
    + eapply tree_at_frame; [|exact Hlt]. intros x Hx. rewrite Hf2.
      * apply Hf1. set_solver.
      * intros ?%Hroot. set_solver.
  - intros x Hx. rewrite Hf2; [apply Hf1; set_solver|]. intros ?%Hroot. set_solver.
Qed.

(** The entry [k] becomes the root over its old left subtree and the merge of
    the [rest]. *)
Lemma merge_root h h1 k p lt kr mt pm (rest : list K) :
  h k = SkewHeapEntry p (root lt) kr → tree_at h (Some k) lt → NoDup (k :: elems lt ++ rest) →
  elems mt ≡ₚ rest → tree_at h1 pm mt → (∀ x, x ∉ rest → h1 x = h x) →
  ∃ h2, (modify (set_left k (root mt));; modify (set_right k (root lt));;
         adopt (root mt) (Some k);; mret (Some k)) h1 = Ok (Some k, h2) ∧
    tree_at h2 p (Node mt k lt) ∧ elems (Node mt k lt) ≡ₚ k :: elems lt ++ rest ∧
    ∀ x, x ∉ k :: elems lt ++ rest → h2 x = h x.
Proof.
  intros Hk Hlt Hnd Hperm Hmt Hf. pose proof Hnd as [Hnk Hnd']%NoDup_cons.
  pose proof Hnd' as (_ & Hdis & _)%NoDup_app.
  destruct (relink h1 k p lt mt pm) as (h2 & E2 & Ht2 & Hf2); [..|done|].
  - by rewrite Hperm, (Permutation_app_comm rest).
  - rewrite Hf by set_solver. by rewrite Hk.
  - eapply tree_at_frame; [|done]. intros x Hx. apply Hf. by apply Hdis.
  - exists h2. split_and!; [done|done| |].
    + simpl. by rewrite Hperm, (Permutation_app_comm rest).
    + intros x Hx. rewrite Hf2, Hf; [done|set_solver|]. rewrite Hperm. set_solver.
Qed.

Lemma skew_heap_merge_spec rank comp fuel h pa pb t1 t2 :
  tree_at h pa t1 → tree_at h pb t2 → NoDup (elems t1 ++ elems t2) →
  (length (elems t1 ++ elems t2) ≤ fuel)%nat →
  ∃ t p h', skew_heap_merge comp fuel (root t1) (root t2) h = Ok (root t, h') ∧
    tree_at h' p t ∧ (p = pa ∨ p = pb) ∧ elems t ≡ₚ elems t1 ++ elems t2 ∧
    (∀ x, x ∉ elems t1 ++ elems t2 → h' x = h x) ∧
    (comp_by rank comp (elems t1 ++ elems t2) →
     heap_ordered rank t1 → heap_ordered rank t2 → heap_ordered rank t).
Proof.
  revert h pa pb t1 t2. induction fuel as [|fuel IH]; intros h pa pb t1 t2 H1 H2 Hnd Hf.
  { destruct t1, t2; simpl in Hf; try lia. exists Leaf, pa, h. simpl.
    split_and!; [done|done|by left|done|done|done]. }
  destruct t1 as [|l1 x r1].
  { exists t2, pb, h. simpl. split_and!; [done|done|by right|done|done|done]. }
  destruct t2 as [|l2 y r2].
  { exists (Node l1 x r1), pa, h. cbn [elems]. rewrite app_nil_r.
    split_and!; [done|done|by left|done|done|done]. }
  pose proof H1 as (Hx & Hl1 & Hr1). pose proof H2 as (Hy & Hl2 & Hr2).
  cbn [skew_heap_merge root]. destruct (Z.eqb_spec (comp x y) (-1)) as [Ec|Ec].
  - msteps. rewrite Hx. cbn [sh_left sh_right].
    assert (elems (Node l1 x r1) ++ elems (Node l2 y r2) =
      x :: elems l1 ++ (elems r1 ++ elems (Node l2 y r2))) as Heq.
    { cbn [elems]. by rewrite <-app_comm_cons, <-app_assoc. }
    rewrite Heq in *. pose proof Hnd as [_ (_ & _ & Hnd')%NoDup_app]%NoDup_cons.
    destruct (IH h (Some x) pb r1 (Node l2 y r2)) as (mt & p & h1 & E1 & Hmt & _ & Hp1 & Hf1 & Ho1);
      [done|done|done|cbn [length] in Hf; rewrite length_app in Hf; lia|].
    rewrite (bind_ok _ _ _ _ _ E1).
    destruct (merge_root h h1 x pa l1 (root r1) mt p _ Hx Hl1 Hnd Hp1 Hmt Hf1) as (h2 & E2 & Ht2 & Hp2 & Hf2).
    exists (Node mt x l1), pa, h2. split_and!; [done|done|by left|done|done|].
    intros Hc (Hox & Hol & Hor) Ho2.
    destruct (Hc x y) as [Hxy _]; [cbn [elems]; set_solver..|]. specialize (Hxy Ec).
    rewrite Forall_app in Hox. destruct Hox. split_and!; [|apply Ho1; try done|done].
    + rewrite Hp1, !Forall_app. cbn [elems]. rewrite Forall_cons. destruct Ho2 as [Ho2 _].
      split_and!; [done|done| |done]. eapply Forall_impl; [exact Ho2|]. simpl. lia.
    + intros u v Hu Hv. apply Hc; set_solver.
  - msteps. rewrite Hy. cbn [sh_left sh_right].
    assert (elems (Node l1 x r1) ++ elems (Node l2 y r2) ≡ₚ
      y :: elems l2 ++ (elems (Node l1 x r1) ++ elems r2)) as Heq.
    { change (elems (Node l2 y r2)) with (y :: elems l2 ++ elems r2).
      rewrite <-Permutation_middle. f_equiv. apply Permutation_app_swap_app. }
    rewrite Heq in Hnd, Hf. pose proof Hnd as [_ (_ & _ & Hnd')%NoDup_app]%NoDup_cons.
    destruct (IH h pa (Some y) (Node l1 x r1) r2) as (mt & p & h1 & E1 & Hmt & _ & Hp1 & Hf1 & Ho1);
      [done|done|done|cbn [length] in Hf; rewrite length_app in Hf; lia|].
    rewrite (bind_ok _ _ _ _ _ E1).
    destruct (merge_root h h1 y pb l2 (root r2) mt p _ Hy Hl2 Hnd Hp1 Hmt Hf1) as (h2 & E2 & Ht2 & Hp2 & Hf2).
    exists (Node mt y l2), pb, h2. split_and!; [done|done|by right|by rewrite Heq|by setoid_rewrite Heq|].
    intros Hc Ho2 (Hox & Hol & Hor).
    destruct (Hc x y) as [_ Hxy]; [cbn [elems]; set_solver..|]. specialize (Hxy Ec).
    rewrite Forall_app in Hox. destruct Hox. split_and!; [|apply Ho1; try done|done].
    + rewrite Hp1, !Forall_app. cbn [elems]. rewrite Forall_cons. destruct Ho2 as [Ho2 _].
      split_and!; [done| |done|done]. eapply Forall_impl; [exact Ho2|]. simpl. lia.
    + intros u v Hu Hv. apply Hc; rewrite Heq; set_solver.
Qed.

Lemma root_elem t x : root t = Some x → x ∈ elems t.
Proof. destruct t; simpl; [done|]. intros [= ->]. set_solver. Qed.

(** Insertion of a new entry. *)
Lemma skew_heap_insert_spec rank comp fuel h t b :
  tree_at h None t → NoDup (elems t) → b ∉ elems t → (length (elems t) < fuel)%nat →
  ∃ t' h', skew_heap_insert comp fuel (root t) b h = Ok (root t', h') ∧
    tree_at h' None t' ∧ elems t' ≡ₚ b :: elems t ∧
    (∀ x, x ∉ b :: elems t → h' x = h x) ∧
    (comp_by rank comp (b :: elems t) → heap_ordered rank t → heap_ordered rank t').
Proof.
  intros Ht Hnd Hb Hf. unfold skew_heap_insert, skew_heap_init. msteps.
  set (h1 := set_left b None _).
  assert (∀ x, x ≠ b → h1 x = h x) as Hf1.
  { intros x Hx. unfold h1, set_left, set_right, set_parent. by rewrite !upd_ne by done. }
  assert (elems t ++ elems (Node Leaf b Leaf) ≡ₚ b :: elems t) as Hp.
  { simpl. by rewrite <-Permutation_cons_append. }
  destruct (skew_heap_merge_spec rank comp fuel h1 None None t (Node Leaf b Leaf))
    as (t' & p & h' & E & Ht' & Hpp & Hperm & Hfr & Ho).
  - eapply tree_at_frame; [|done]. intros x Hx. apply Hf1. set_solver.
  - simpl. split; [|done]. unfold h1, set_left, set_right, set_parent. by rewrite !upd_eq.
  - rewrite Hp. by constructor.
  - rewrite Hp. simpl. lia.
  - exists t', h'. replace p with (@None K) in Ht' by (by destruct Hpp). rewrite Hp in Hperm.
    split_and!; [done|done|done| |].
    + intros x Hx. rewrite Hfr by by rewrite Hp. apply Hf1. set_solver.
    + intros Hc Hot. apply Ho; [|done|done]. intros u v. rewrite Hp. apply Hc.
Qed.

(** Removal of the root. *)
Lemma skew_heap_remove_root rank comp fuel h l b r a :
  tree_at h None (Node l b r) → NoDup (elems (Node l b r)) →
  (length (elems l ++ elems r) ≤ fuel)%nat →
  ∃ t' h', skew_heap_remove comp fuel a b h = Ok (root t', h') ∧
    tree_at h' None t' ∧ elems t' ≡ₚ elems l ++ elems r ∧
    (∀ x, x ∉ elems l ++ elems r → h' x = h x) ∧
    (comp_by rank comp (elems l ++ elems r) → heap_ordered rank (Node l b r) → heap_ordered rank t').
Proof.
  intros (Hb & Hl & Hr) Hnd Hf. apply NoDup_cons in Hnd as [Hni Hnd].
  unfold skew_heap_remove. msteps. rewrite Hb. cbn [sh_parent sh_left sh_right].
  destruct (skew_heap_merge_spec rank comp fuel h _ _ l r Hl Hr Hnd Hf)
    as (t' & p & h1 & E & Ht' & _ & Hperm & Hfr & Ho).
  rewrite (bind_ok _ _ _ _ _ E).
  destruct (tree_at_adopt h1 p None t') as (h2 & E2 & Ht2 & Hf2); [by rewrite Hperm|done|].
  rewrite (bind_ok _ _ _ _ _ E2). exists t', h2. split_and!; [done|done|done| |].
  - intros x Hx. rewrite Hf2, Hfr; [done|done|]. intros Hr'%root_elem. by rewrite Hperm in Hr'.
  - intros Hc (_ & ? & ?). by apply Ho.
Qed.

(** Removal below the root: the child [b] of [k] is replaced by the merge of
    its subtrees. *)
Lemma remove_child rank comp fuel h k l b r :
  tree_at h (Some k) (Node l b r) → NoDup (k :: elems (Node l b r)) →
  (length (elems l ++ elems r) ≤ fuel)%nat →
  ∃ t h1, tree_at h1 (Some k) t ∧ elems t ≡ₚ elems l ++ elems r ∧
    (∀ x, x ∉ elems l ++ elems r → h1 x = h x) ∧
    (comp_by rank comp (elems l ++ elems r) → heap_ordered rank (Node l b r) → heap_ordered rank t) ∧
    ∀ a, skew_heap_remove comp fuel a b h =
      ((if decide (sh_left (h k) = Some b) then modify (set_left k (root t))
        else modify (set_right k (root t)));; mret a) h1.
Proof.
  intros (Hb & Hl & Hr) Hnd Hf. apply NoDup_cons in Hnd as [Hnk Hnd]. apply NoDup_cons in Hnd as [Hnb Hnd].
  unfold skew_heap_remove.
  destruct (skew_heap_merge_spec rank comp fuel h _ _ l r Hl Hr Hnd Hf)
    as (t & p & h1 & E & Ht & _ & Hperm & Hfr & Ho).
  destruct (tree_at_adopt h1 p (Some k) t) as (h2 & E2 & Ht2 & Hf2); [by rewrite Hperm|done|].
  assert (∀ x, x ∉ elems l ++ elems r → h2 x = h x) as Hf12.
  { intros x Hx. rewrite Hf2, Hfr; [done|done|]. intros Hr'%root_elem. by rewrite Hperm in Hr'. }
  exists t, h2. split_and!; [done|done|done| |].
  - intros Hc (_ & ? & ?). by apply Ho.
  - intros a. msteps. rewrite Hb. cbn [sh_parent sh_left sh_right].
    rewrite (bind_ok _ _ _ _ _ E), (bind_ok _ _ _ _ _ E2). msteps.
    rewrite Hf12; [done|]. cbn [elems] in Hnk. set_solver.
Qed.

(** The child on one side of an entry. *)
Definition child (left : bool) (e : skew_heap_entry) : option K :=
  if left then sh_left e else sh_right e.
Definition with_child (left : bool) (v : option K) (e : skew_heap_entry) : skew_heap_entry :=
  if left then SkewHeapEntry (sh_parent e) v (sh_right e) else SkewHeapEntry (sh_parent e) (sh_left e) v.

(** [t'] is the tree [t] without [b], in the heap after the removal. *)
Definition removed (rank : K → Z) (comp : K → K → Z) (b : K) (par : option K) (t t' : tree) (h' : sheap) : Prop :=
  tree_at h' par t' ∧ b :: elems t' ≡ₚ elems t ∧
  (comp_by rank comp (elems t) → heap_ordered rank t → heap_ordered rank t').

Lemma comp_by_incl rank comp (D D' : list K) : (∀ x, x ∈ D' → x ∈ D) → comp_by rank comp D → comp_by rank comp D'.
Proof. intros Hs Hc x y Hx Hy. apply Hc; by apply Hs. Qed.

(** Removal in the subtree [c] on one side of [k], given removal below its root. *)
Lemma remove_in_child rank comp fuel h k left c b a :
  child left (h k) = root c → (left = false → sh_left (h k) ≠ Some b) →
  tree_at h (Some k) c → NoDup (k :: elems c) → b ∈ elems c → (length (elems c) ≤ fuel)%nat →
  (root c ≠ Some b → ∃ c' h', skew_heap_remove comp fuel a b h = Ok (a, h') ∧ root c' = root c ∧
    removed rank comp b (Some k) c c' h' ∧ ∀ x, x ∉ elems c → h' x = h x) →
  ∃ c' h', skew_heap_remove comp fuel a b h = Ok (a, h') ∧ h' k = with_child left (root c') (h k) ∧
    removed rank comp b (Some k) c c' h' ∧ ∀ x, x ∉ k :: elems c → h' x = h x.
Proof.
  intros Hc Hside Ht Hnd Hb Hf Hbelow. destruct (decide (root c = Some b)) as [Hr|Hr].
  - destruct c as [|l b' r]; [done|]. injection Hr as ->. pose proof Hnd as [Hnk _]%NoDup_cons.
    destruct (remove_child rank comp fuel h k l b r Ht Hnd) as (c' & h1 & Ht' & Hp & Hf1 & Ho & E).
    { cbn [elems length] in Hf. lia. }
    set (h2 := upd k (with_child left (root c') (h1 k)) h1).
    assert (∀ x, x ≠ k → h2 x = h1 x) as Hf2 by (intros; unfold h2; by rewrite upd_ne).
    assert (k ∉ elems l ++ elems r) as Hkc by (cbn [elems] in Hnk; set_solver).
    exists c', h2. split_and!.
    + rewrite E. destruct left; simpl in Hc.
      * rewrite decide_True by done. done.
      * rewrite decide_False by by apply Hside. done.
    + unfold h2. by rewrite upd_eq, Hf1.
    + split_and!.
      * eapply tree_at_frame; [|exact Ht']. intros x Hx. apply Hf2. rewrite Hp in Hx. congruence.
      * cbn [elems]. by rewrite Hp.
      * intros Hcb Hot. apply Ho; [|done]. eapply comp_by_incl; [|done]. cbn [elems]. set_solver.
    + intros x Hx. cbn [elems] in Hx. rewrite Hf2, Hf1; [done|set_solver..].
  - destruct (Hbelow Hr) as (c' & h' & E & Hrt & Hrm & Hfr). exists c', h'. split_and!; [done| |done|].
    + rewrite Hfr by by apply NoDup_cons in Hnd as [? _]. rewrite Hrt, <-Hc. by destruct left, (h k).
    + intros x Hx. apply Hfr. set_solver.
Qed.

(** The entry is anywhere in the heap. *)
Lemma skew_heap_remove_below rank comp fuel h par t b a :
  tree_at h par t → NoDup (elems t) → b ∈ elems t → root t ≠ Some b →
  (length (elems t) ≤ fuel)%nat →
  ∃ t' h', skew_heap_remove comp fuel a b h = Ok (a, h') ∧ root t' = root t ∧
    removed rank comp b par t t' h' ∧ ∀ x, x ∉ elems t → h' x = h x.
Proof.
  revert par. induction t as [|l IHl k r IHr]; intros par Ht Hnd Hb Hroot Hf; [set_solver|].
  destruct Ht as (Hk & Hl & Hr). apply NoDup_cons in Hnd as [Hnk Hnd].
  pose proof Hnd as (Hndl & Hdis & Hndr)%NoDup_app. cbn [elems length] in Hf, Hb. rewrite length_app in Hf.
  apply elem_of_cons in Hb as [->|[Hb|Hb]%elem_of_app]; [done|..].
  - destruct (remove_in_child rank comp fuel h k true l b a) as (l' & h' & E & Hk' & (Ht' & Hp & Ho) & Hfr);
      [by rewrite Hk|done|done|constructor; [set_solver|done]|done|lia|intros; by apply IHl; [..|lia]|].
    exists (Node l' k r), h'. split_and!; [done|done| |intros x Hx; apply Hfr; set_solver].
    unfold removed. cbn [tree_at]. rewrite Hk', Hk. split_and!; [done|done| | |].
    + eapply tree_at_frame; [|exact Hr]. intros x Hx. apply Hfr. set_solver.
    + cbn [elems]. rewrite Permutation_swap. f_equiv. by rewrite app_comm_cons, Hp.
    + intros Hc (Hok & Hol & Hor). split_and!; [|apply Ho; [|done]|done].
      * rewrite <-Hp in Hok. simpl in Hok. by apply Forall_cons in Hok as [_ ?].
      * eapply comp_by_incl; [|done]. cbn [elems]. set_solver.
  - destruct (remove_in_child rank comp fuel h k false r b a) as (r' & h' & E & Hk' & (Ht' & Hp & Ho) & Hfr);
      [by rewrite Hk| |done|constructor; [set_solver|done]|done|lia|intros; by apply IHr; [..|lia]|].
    { intros _. rewrite Hk. simpl. intros ?%root_elem. set_solver. }
    exists (Node l k r'), h'. split_and!; [done|done| |intros x Hx; apply Hfr; set_solver].
    unfold removed. cbn [tree_at]. rewrite Hk', Hk. split_and!; [done| |done| |].
    + eapply tree_at_frame; [|exact Hl]. intros x Hx. apply Hfr. set_solver.
    + cbn [elems]. rewrite Permutation_swap. f_equiv. by rewrite Permutation_middle, Hp.
    + intros Hc (Hok & Hol & Hor). split_and!; [|done|apply Ho; [|done]].
      * rewrite <-Hp, <-Permutation_middle in Hok. by apply Forall_cons in Hok as [_ ?].
      * eapply comp_by_incl; [|done]. cbn [elems]. set_solver.
Qed.

(** [t] is a well-formed heap with root pointer [a]. *)
Record is_heap (rank : K → Z) (h : sheap) (a : option K) (t : tree) : Prop := IsHeap {
  heap_root : a = root t;
  heap_tree : tree_at h None t;
  heap_nodup : NoDup (elems t);
  heap_order : heap_ordered rank t;
}.

(** The root of a heap is a minimum. *)
Lemma heap_min rank h a t x :
  is_heap rank h (Some a) t → x ∈ elems t → rank a ≤ rank x.
Proof.
  intros [Hr _ _ Ho] Hx. destruct t as [|l k r]; [done|]. injection Hr as ->.
  destruct Ho as [Ho _]. apply elem_of_cons in Hx as [->|Hx]; [lia|].
  rewrite Forall_forall in Ho. by apply Ho.
Qed.

Lemma is_heap_insert rank comp fuel h a t b :
  is_heap rank h a t → b ∉ elems t → comp_by rank comp (b :: elems t) → (length (elems t) < fuel)%nat →
  ∃ a' t' h', skew_heap_insert comp fuel a b h = Ok (a', h') ∧ is_heap rank h' a' t' ∧
    elems t' ≡ₚ b :: elems t ∧ ∀ x, x ∉ b :: elems t → h' x = h x.
Proof.
  intros [-> Ht Hnd Ho] Hb Hc Hf.
  destruct (skew_heap_insert_spec rank comp fuel h t b) as (t' & h' & E & Ht' & Hp & Hfr & Ho'); [done..|].
  exists (root t'), t', h'. split_and!; [done| |done|done].
  split; [done|done| |by apply Ho']. rewrite Hp. by constructor.
Qed.

Lemma is_heap_remove rank comp fuel h a t b :
  is_heap rank h a t → b ∈ elems t → comp_by rank comp (elems t) → (length (elems t) ≤ fuel)%nat →
  ∃ a' t' h', skew_heap_remove comp fuel a b h = Ok (a', h') ∧ is_heap rank h' a' t' ∧
    b :: elems t' ≡ₚ elems t ∧ ∀ x, x ∉ elems t → h' x = h x.
Proof.
  intros [-> Ht Hnd Ho] Hb Hc Hf. destruct (decide (root t = Some b)) as [Hr|Hr].
  - destruct t as [|l b' r]; [done|]. injection Hr as ->. cbn [elems length] in Hf.
    destruct (skew_heap_remove_root rank comp fuel h l b r (Some b)) as (t' & h' & E & Ht' & Hp & Hfr & Ho');
      [done|done|lia|].
    exists (root t'), t', h'. split_and!; [done| | |].
    + split; [done|done| |].
      * rewrite Hp. by apply NoDup_cons in Hnd as [_ ?].
      * apply Ho'; [|done]. eapply comp_by_incl; [|done]. cbn [elems]. set_solver.
    + cbn [elems]. by rewrite Hp.
    + intros x Hx. apply Hfr. cbn [elems] in Hx. set_solver.
  - destruct (skew_heap_remove_below rank comp fuel h None t b (root t))
      as (t' & h' & E & Hrt & (Ht' & Hp & Ho') & Hfr); [done..|].
    exists (root t), t', h'. split_and!; [done| |done|done].
    split; [done|done| |by apply Ho']. rewrite <-Hp in Hnd. by apply NoDup_cons in Hnd as [_ ?].
Qed.
End skew_heap.

Arguments skew_heap_entry : clear implicits.
Arguments sheap : clear implicits.
Arguments tree : clear implicits.

(** ** The properties of the heap *)

(** [skew_heap_insert]: the pointer heap gains exactly the new entry, keeps
    its structure (parent links included), its order and everything outside it,
    with as much fuel as there are entries. *)
Theorem skew_heap_insert_correct (rank : Z → Z) comp h a t b :
  is_heap rank h a t → b ∉ elems t → comp_by rank comp (b :: elems t) →
  ∃ a' t' h', skew_heap_insert comp (S (length (elems t))) a b h = Ok (a', h') ∧ is_heap rank h' a' t' ∧
    elems t' ≡ₚ b :: elems t ∧ (∀ x, x ∉ b :: elems t → h' x = h x) ∧
    ∃ m, a' = Some m ∧ Forall (λ x, rank m ≤ rank x) (elems t').
Proof.
  intros Hh Hb Hc. destruct (is_heap_insert rank comp (S (length (elems t))) h a t b)
    as (a' & t' & h' & E & Hh' & Hp & Hf); [done|done|done|lia|].
  exists a', t', h'. split_and!; [done..|]. destruct a' as [m|].
  - exists m. split; [done|]. apply Forall_forall. intros x. by apply (heap_min rank h').
  - pose proof (heap_root _ _ _ _ Hh') as Hr. destruct t'; [|done].
    apply Permutation_length in Hp. done.
Qed.

Lemma skew_heap_insert_correct_witness :
  ∃ a' t' h', skew_heap_insert (λ x y, if x <? y then -1 else 1) 1 None 7 (λ _, SkewHeapEntry None None None)
    = Ok (a', h') ∧ is_heap id h' a' t' ∧ elems t' ≡ₚ [7].
Proof.
  destruct (skew_heap_insert_correct id (λ x y, if x <? y then -1 else 1)
    (λ _, SkewHeapEntry None None None) None Leaf 7) as (a' & t' & h' & E & H & Hp & _).
  - split; try done. constructor.
  - simpl. set_solver.
  - intros x y _ _. simpl. destruct (Z.ltb_spec x y); split; lia.
  - exists a', t', h'. split_and!; [exact E|exact H|exact Hp].
Defined.

(** C40. [skew_heap_remove] takes any entry out of a heap of linked entries, the root or one
    below it: exactly the other entries remain, with the structure of a heap (parent links
    included) and its order, and no entry outside the heap is stored to.  The comparison
    function orders the entries of the heap by some rank. *)
Theorem skew_heap_remove_correct (rank : Z → Z) comp h a t b :
  is_heap rank h a t → b ∈ elems t → comp_by rank comp (elems t) →
  ∃ a' t' h', skew_heap_remove comp (length (elems t)) a b h = Ok (a', h') ∧ is_heap rank h' a' t' ∧
    b :: elems t' ≡ₚ elems t ∧ ∀ x, x ∉ elems t → h' x = h x.
Proof. intros Hh Hb Hc. by apply is_heap_remove. Qed.

(** A heap of two entries: 1 above 2. *)
Definition heap12 : sheap Z := λ k,
  if k =? 1 then SkewHeapEntry None (Some 2) None
  else if k =? 2 then SkewHeapEntry (Some 1) None None else SkewHeapEntry None None None.

Lemma skew_heap_remove_correct_witness :
  ∃ a' t' h', skew_heap_remove (λ x y, if x <? y then -1 else 1) 2 (Some 1) 2 heap12 = Ok (a', h') ∧
    is_heap id h' a' t' ∧ 2 :: elems t' ≡ₚ [1; 2].
Proof.
  destruct (skew_heap_remove_correct id (λ x y, if x <? y then -1 else 1)
    heap12 (Some 1) (Node (Node Leaf 2 Leaf) 1 Leaf) 2) as (a' & t' & h' & E & H & Hp & _).
  - split; [done|done| |].
    + simpl. apply NoDup_ListNoDup. repeat constructor; set_solver.
    + simpl. split; [|done]. apply Forall_singleton. unfold id. lia.
  - simpl. set_solver.
  - intros x y _ _. simpl. unfold id. destruct (Z.ltb_spec x y); split; lia.
  - exists a', t', h'. split_and!; [exact E|exact H|exact Hp].
Defined.
