(* ===== verification/Sched.v ===== *)
(** * Processes and the scheduler

    kern/process/proc.h (the process descriptor), kern/schedule/sched.c and
    kern/schedule/default_sched_stride.c.  Processes and timers are named by
    integers; the scheduler's state holds all descriptors, the intrusive skew
    heap of the run pool and the timer list.  Interrupts are disabled inside
    these functions ([local_intr_save]), so each is one atomic step. *)

From S2P Require Import Prelude ListH SkewHeap.

(** ** kern/process/proc.h *)

Inductive proc_state := PROC_UNINIT | PROC_SLEEPING | PROC_RUNNABLE | PROC_ZOMBIE.

#[global] Instance proc_state_eq_dec : EqDecision proc_state.
Proof. solve_decision. Defined.

(** [struct proc_struct]; the link fields are entries of the list heaps and the
    run pool entry of the skew heap below, [on_rq] tells whether [rq] points at
    the run queue, and the saved registers are not represented. *)
Record proc_struct := ProcStruct {
  p_state : proc_state;
  p_pid : Z;
  p_runs : Z;
  p_kstack : Z;
  p_need_resched : Z;
  p_parent : option Z;
  p_mm : option Z;
  p_cr3 : Z;
  p_flags : Z;
  p_name : list Z;
  p_exit_code : Z;
  p_wait_state : Z;
  p_cptr : option Z;
  p_yptr : option Z;
  p_optr : option Z;
  p_on_rq : bool;
  p_time_slice : Z;
  p_stride : Z;
  p_priority : Z;
  p_filesp : option Z;
}.

Definition set_state (v : proc_state) (p : proc_struct) : proc_struct :=
  ProcStruct v (p_pid p) (p_runs p) (p_kstack p) (p_need_resched p) (p_parent p) (p_mm p)
    (p_cr3 p) (p_flags p) (p_name p) (p_exit_code p) (p_wait_state p) (p_cptr p)
    (p_yptr p) (p_optr p) (p_on_rq p) (p_time_slice p) (p_stride p) (p_priority p)
    (p_filesp p).
Definition set_pid (v : Z) (p : proc_struct) : proc_struct :=
  ProcStruct (p_state p) v (p_runs p) (p_kstack p) (p_need_resched p) (p_parent p) (p_mm p)
    (p_cr3 p) (p_flags p) (p_name p) (p_exit_code p) (p_wait_state p) (p_cptr p)
    (p_yptr p) (p_optr p) (p_on_rq p) (p_time_slice p) (p_stride p) (p_priority p)
    (p_filesp p).
Definition set_runs (v : Z) (p : proc_struct) : proc_struct :=
  ProcStruct (p_state p) (p_pid p) v (p_kstack p) (p_need_resched p) (p_parent p) (p_mm p)
    (p_cr3 p) (p_flags p) (p_name p) (p_exit_code p) (p_wait_state p) (p_cptr p)
    (p_yptr p) (p_optr p) (p_on_rq p) (p_time_slice p) (p_stride p) (p_priority p)
    (p_filesp p).
Definition set_kstack (v : Z) (p : proc_struct) : proc_struct :=
  ProcStruct (p_state p) (p_pid p) (p_runs p) v (p_need_resched p) (p_parent p) (p_mm p) (p_cr3 p)
    (p_flags p) (p_name p) (p_exit_code p) (p_wait_state p) (p_cptr p) (p_yptr p)
    (p_optr p) (p_on_rq p) (p_time_slice p) (p_stride p) (p_priority p) (p_filesp p).
Definition set_need_resched (v : Z) (p : proc_struct) : proc_struct :=
  ProcStruct (p_state p) (p_pid p) (p_runs p) (p_kstack p) v (p_parent p) (p_mm p) (p_cr3 p)
    (p_flags p) (p_name p) (p_exit_code p) (p_wait_state p) (p_cptr p) (p_yptr p)
    (p_optr p) (p_on_rq p) (p_time_slice p) (p_stride p) (p_priority p) (p_filesp p).
Definition set_parent (v : option Z) (p : proc_struct) : proc_struct :=
  ProcStruct (p_state p) (p_pid p) (p_runs p) (p_kstack p) (p_need_resched p) v (p_mm p) (p_cr3 p)
    (p_flags p) (p_name p) (p_exit_code p) (p_wait_state p) (p_cptr p) (p_yptr p)
    (p_optr p) (p_on_rq p) (p_time_slice p) (p_stride p) (p_priority p) (p_filesp p).
Definition set_mm (v : option Z) (p : proc_struct) : proc_struct :=
  ProcStruct (p_state p) (p_pid p) (p_runs p) (p_kstack p) (p_need_resched p) (p_parent p) v
    (p_cr3 p) (p_flags p) (p_name p) (p_exit_code p) (p_wait_state p) (p_cptr p)
    (p_yptr p) (p_optr p) (p_on_rq p) (p_time_slice p) (p_stride p) (p_priority p)
    (p_filesp p).
Definition set_cr3 (v : Z) (p : proc_struct) : proc_struct :=
  ProcStruct (p_state p) (p_pid p) (p_runs p) (p_kstack p) (p_need_resched p) (p_parent p)
    (p_mm p) v (p_flags p) (p_name p) (p_exit_code p) (p_wait_state p) (p_cptr p)
    (p_yptr p) (p_optr p) (p_on_rq p) (p_time_slice p) (p_stride p) (p_priority p)
    (p_filesp p).
Definition set_flags (v : Z) (p : proc_struct) : proc_struct :=
  ProcStruct (p_state p) (p_pid p) (p_runs p) (p_kstack p) (p_need_resched p) (p_parent p)
    (p_mm p) (p_cr3 p) v (p_name p) (p_exit_code p) (p_wait_state p) (p_cptr p)
    (p_yptr p) (p_optr p) (p_on_rq p) (p_time_slice p) (p_stride p) (p_priority p)
    (p_filesp p).
Definition set_name (v : list Z) (p : proc_struct) : proc_struct :=
  ProcStruct (p_state p) (p_pid p) (p_runs p) (p_kstack p) (p_need_resched p) (p_parent p)
    (p_mm p) (p_cr3 p) (p_flags p) v (p_exit_code p) (p_wait_state p) (p_cptr p)
    (p_yptr p) (p_optr p) (p_on_rq p) (p_time_slice p) (p_stride p) (p_priority p)
    (p_filesp p).
Definition set_exit_code (v : Z) (p : proc_struct) : proc_struct :=
  ProcStruct (p_state p) (p_pid p) (p_runs p) (p_kstack p) (p_need_resched p) (p_parent p)
    (p_mm p) (p_cr3 p) (p_flags p) (p_name p) v (p_wait_state p) (p_cptr p) (p_yptr p)
    (p_optr p) (p_on_rq p) (p_time_slice p) (p_stride p) (p_priority p) (p_filesp p).
Definition set_wait_state (v : Z) (p : proc_struct) : proc_struct :=
  ProcStruct (p_state p) (p_pid p) (p_runs p) (p_kstack p) (p_need_resched p) (p_parent p)
    (p_mm p) (p_cr3 p) (p_flags p) (p_name p) (p_exit_code p) v (p_cptr p) (p_yptr p)
    (p_optr p) (p_on_rq p) (p_time_slice p) (p_stride p) (p_priority p) (p_filesp p).
Definition set_cptr (v : option Z) (p : proc_struct) : proc_struct :=
  ProcStruct (p_state p) (p_pid p) (p_runs p) (p_kstack p) (p_need_resched p) (p_parent p)
    (p_mm p) (p_cr3 p) (p_flags p) (p_name p) (p_exit_code p) (p_wait_state p) v
    (p_yptr p) (p_optr p) (p_on_rq p) (p_time_slice p) (p_stride p) (p_priority p)
    (p_filesp p).
Definition set_yptr (v : option Z) (p : proc_struct) : proc_struct :=
  ProcStruct (p_state p) (p_pid p) (p_runs p) (p_kstack p) (p_need_resched p) (p_parent p)
    (p_mm p) (p_cr3 p) (p_flags p) (p_name p) (p_exit_code p) (p_wait_state p) (p_cptr p)
    v (p_optr p) (p_on_rq p) (p_time_slice p) (p_stride p) (p_priority p) (p_filesp p).
Definition set_optr (v : option Z) (p : proc_struct) : proc_struct :=
  ProcStruct (p_state p) (p_pid p) (p_runs p) (p_kstack p) (p_need_resched p) (p_parent p)
    (p_mm p) (p_cr3 p) (p_flags p) (p_name p) (p_exit_code p) (p_wait_state p) (p_cptr p)
    (p_yptr p) v (p_on_rq p) (p_time_slice p) (p_stride p) (p_priority p) (p_filesp p).
Definition set_on_rq (v : bool) (p : proc_struct) : proc_struct :=
  ProcStruct (p_state p) (p_pid p) (p_runs p) (p_kstack p) (p_need_resched p) (p_parent p)
    (p_mm p) (p_cr3 p) (p_flags p) (p_name p) (p_exit_code p) (p_wait_state p) (p_cptr p)
    (p_yptr p) (p_optr p) v (p_time_slice p) (p_stride p) (p_priority p) (p_filesp p).
Definition set_time_slice (v : Z) (p : proc_struct) : proc_struct :=
  ProcStruct (p_state p) (p_pid p) (p_runs p) (p_kstack p) (p_need_resched p) (p_parent p)
    (p_mm p) (p_cr3 p) (p_flags p) (p_name p) (p_exit_code p) (p_wait_state p) (p_cptr p)
    (p_yptr p) (p_optr p) (p_on_rq p) v (p_stride p) (p_priority p) (p_filesp p).
Definition set_stride (v : Z) (p : proc_struct) : proc_struct :=
  ProcStruct (p_state p) (p_pid p) (p_runs p) (p_kstack p) (p_need_resched p) (p_parent p)
    (p_mm p) (p_cr3 p) (p_flags p) (p_name p) (p_exit_code p) (p_wait_state p) (p_cptr p)
    (p_yptr p) (p_optr p) (p_on_rq p) (p_time_slice p) v (p_priority p) (p_filesp p).
Definition set_priority (v : Z) (p : proc_struct) : proc_struct :=
  ProcStruct (p_state p) (p_pid p) (p_runs p) (p_kstack p) (p_need_resched p) (p_parent p)
    (p_mm p) (p_cr3 p) (p_flags p) (p_name p) (p_exit_code p) (p_wait_state p) (p_cptr p)
    (p_yptr p) (p_optr p) (p_on_rq p) (p_time_slice p) (p_stride p) v (p_filesp p).
Definition set_filesp (v : option Z) (p : proc_struct) : proc_struct :=
  ProcStruct (p_state p) (p_pid p) (p_runs p) (p_kstack p) (p_need_resched p) (p_parent p)
    (p_mm p) (p_cr3 p) (p_flags p) (p_name p) (p_exit_code p) (p_wait_state p) (p_cptr p)
    (p_yptr p) (p_optr p) (p_on_rq p) (p_time_slice p) (p_stride p) (p_priority p) v.

Definition WT_INTERRUPTED : Z := 0x80000000.
Definition WT_CHILD : Z := Z.lor 0x00000001 WT_INTERRUPTED.
Definition WT_KSEM : Z := 0x00000100.
Definition WT_TIMER : Z := Z.lor 0x00000002 WT_INTERRUPTED.
Definition WT_KBD : Z := Z.lor 0x00000004 WT_INTERRUPTED.
Definition PF_EXITING : Z := 0x00000001.

(** ** The state of the scheduler *)

(** [struct run_queue] and the globals of sched.c; a timer is its [expires],
    its [proc] and its entry in the list heap. *)
Record sched := Sched {
  procs : Z → proc_struct;
  run_list : lheap (entry Z);
  proc_num : Z;
  max_time_slice : Z;
  run_pool : option Z;
  run_heap : sheap Z;
  current : Z;
  idleproc : Z;
  t_expires : Z → Z;
  t_proc : Z → Z;
  timer_link : lheap (entry Z);
}.

Definition upd_proc (p : Z) (f : proc_struct → proc_struct) (s : sched) : sched :=
  Sched (upd p (f (procs s p)) (procs s)) (run_list s) (proc_num s) (max_time_slice s) (run_pool s)
    (run_heap s) (current s) (idleproc s) (t_expires s) (t_proc s) (timer_link s).
Definition set_run_list (f : lheap (entry Z) → lheap (entry Z)) (s : sched) : sched :=
  Sched (procs s) (f (run_list s)) (proc_num s) (max_time_slice s) (run_pool s)
    (run_heap s) (current s) (idleproc s) (t_expires s) (t_proc s) (timer_link s).
Definition set_proc_num (v : Z) (s : sched) : sched :=
  Sched (procs s) (run_list s) v (max_time_slice s) (run_pool s)
    (run_heap s) (current s) (idleproc s) (t_expires s) (t_proc s) (timer_link s).
Definition set_max_time_slice (v : Z) (s : sched) : sched :=
  Sched (procs s) (run_list s) (proc_num s) v (run_pool s)
    (run_heap s) (current s) (idleproc s) (t_expires s) (t_proc s) (timer_link s).
Definition set_run_pool (v : option Z) (s : sched) : sched :=
  Sched (procs s) (run_list s) (proc_num s) (max_time_slice s) v
    (run_heap s) (current s) (idleproc s) (t_expires s) (t_proc s) (timer_link s).
Definition set_run_heap (v : sheap Z) (s : sched) : sched :=
  Sched (procs s) (run_list s) (proc_num s) (max_time_slice s) (run_pool s)
    v (current s) (idleproc s) (t_expires s) (t_proc s) (timer_link s).
Definition set_current (v : Z) (s : sched) : sched :=
  Sched (procs s) (run_list s) (proc_num s) (max_time_slice s) (run_pool s)
    (run_heap s) v (idleproc s) (t_expires s) (t_proc s) (timer_link s).
Definition set_t_expires (t v : Z) (s : sched) : sched :=
  Sched (procs s) (run_list s) (proc_num s) (max_time_slice s) (run_pool s)
    (run_heap s) (current s) (idleproc s) (upd t v (t_expires s)) (t_proc s) (timer_link s).
Definition set_t_proc (t v : Z) (s : sched) : sched :=
  Sched (procs s) (run_list s) (proc_num s) (max_time_slice s) (run_pool s)
    (run_heap s) (current s) (idleproc s) (t_expires s) (upd t v (t_proc s)) (timer_link s).
Definition set_timer_link (f : lheap (entry Z) → lheap (entry Z)) (s : sched) : sched :=
  Sched (procs s) (run_list s) (proc_num s) (max_time_slice s) (run_pool s)
    (run_heap s) (current s) (idleproc s) (t_expires s) (t_proc s) (f (timer_link s)).

(** [proc->field] *)
Definition field {A} (f : proc_struct → A) (p : Z) : M sched A := gets (λ s, f (procs s p)).
(** [proc->field = v] *)
Definition store (p : Z) (f : proc_struct → proc_struct) : M sched unit := modify (upd_proc p f).

(** ** default_sched_stride.c *)

Definition BIG_STRIDE : Z := Z.shiftl 1 30.

Definition stride_cmp (a b : Z) : Z :=
  let c := s32 (u32 (a - b)) in
  if 0 <? c then 1 else if c =? 0 then 0 else -1.

Definition proc_stride_comp_f (s : sched) (p q : Z) : Z :=
  stride_cmp (p_stride (procs s p)) (p_stride (procs s q)).

Definition stride_init : M sched unit :=
  modify (set_run_list (list_init Head));;
  modify (set_run_pool None);;
  modify (set_proc_num 0).

(** The run pool has at most [proc_num] entries, one more during an insertion. *)
Definition pool_fuel (s : sched) : nat := S (Z.to_nat (proc_num s)).

Definition stride_enqueue (proc : Z) : M sched unit :=
  comp ← gets proc_stride_comp_f; fuel ← gets pool_fuel; pool ← gets run_pool;
  pool' ← zoom run_heap set_run_heap (skew_heap_insert comp fuel pool proc);
  modify (set_run_pool pool');;
  time_slice ← field p_time_slice proc;
  max ← gets max_time_slice;
  when ((time_slice =? 0) || (max <? time_slice))%bool (store proc (set_time_slice max));;
  store proc (set_on_rq true);;
  modify (λ s, set_proc_num (u32 (proc_num s + 1)) s).

Definition stride_dequeue (proc : Z) : M sched unit :=
  asserts (λ s, (p_on_rq (procs s proc) && (0 <? proc_num s))%bool);;
  comp ← gets proc_stride_comp_f; fuel ← gets pool_fuel; pool ← gets run_pool;
  pool' ← zoom run_heap set_run_heap (skew_heap_remove comp fuel pool proc);
  modify (set_run_pool pool');;
  modify (λ s, set_proc_num (u32 (proc_num s - 1)) s).

Definition stride_pick_next : M sched (option Z) :=
  pool ← gets run_pool;
  match pool with
  | None => mret None
  | Some proc =>
    priority ← field p_priority proc;
    (if negb (priority =? 0)
     then store proc (λ p, set_stride (u32 (p_stride p + BIG_STRIDE / priority)) p)
     else store proc (λ p, set_stride (u32 (p_stride p + BIG_STRIDE)) p));;
    mret (Some proc)
  end.

Definition stride_proc_tick (proc : Z) : M sched unit :=
  time_slice ← field p_time_slice proc;
  when (0 <? time_slice) (store proc (λ p, set_time_slice (p_time_slice p - 1) p));;
  time_slice ← field p_time_slice proc;
  when (time_slice =? 0) (store proc (set_need_resched 1)).

(** ** sched.c *)

Definition MAX_TIME_SLICE : Z := 5.

(** [struct sched_class]: the operations a scheduling policy provides. *)
Record sched_class := SchedClass {
  sc_init : M sched unit;
  sc_enqueue : Z → M sched unit;
  sc_dequeue : Z → M sched unit;
  sc_pick_next : M sched (option Z);
  sc_proc_tick : Z → M sched unit;
}.

Definition default_sched_stride : sched_class :=
  SchedClass stride_init stride_enqueue stride_dequeue stride_pick_next stride_proc_tick.

(** [sched_init] installs this class; it never changes. *)
Notation the_class := default_sched_stride.

Definition sched_class_enqueue (proc : Z) : M sched unit :=
  idle ← gets idleproc;
  when (negb (proc =? idle)) (sc_enqueue the_class proc).

Definition sched_class_dequeue (proc : Z) : M sched unit := sc_dequeue the_class proc.

Definition sched_class_pick_next : M sched (option Z) := sc_pick_next the_class.

Definition sched_class_proc_tick (proc : Z) : M sched unit :=
  idle ← gets idleproc;
  if negb (proc =? idle) then sc_proc_tick the_class proc
  else store proc (set_need_resched 1).

Definition sched_init : M sched unit :=
  modify (set_timer_link (list_init Head));;
  modify (set_max_time_slice MAX_TIME_SLICE);;
  sc_init the_class.

(** Waking a process that is runnable only prints a warning. *)
Definition wakeup_proc (proc : Z) : M sched unit :=
  asserts (λ s, negb (bool_decide (p_state (procs s proc) = PROC_ZOMBIE)));;
  state ← field p_state proc;
  when (negb (bool_decide (state = PROC_RUNNABLE)))
    (store proc (set_state PROC_RUNNABLE);;
     store proc (set_wait_state 0);;
     cur ← gets current;
     when (negb (proc =? cur)) (sched_class_enqueue proc)).

(** kern/process/proc.c: [proc_run] makes [proc] the current process; the
    switch of the page table and of the registers has no counterpart here. *)
Definition proc_run (proc : Z) : M sched unit :=
  cur ← gets current;
  when (negb (proc =? cur)) (modify (set_current proc)).

Definition schedule : M sched unit :=
  cur ← gets current;
  store cur (set_need_resched 0);;
  state ← field p_state cur;
  when (bool_decide (state = PROC_RUNNABLE)) (sched_class_enqueue cur);;
  next ← sched_class_pick_next;
  (match next with Some p => sched_class_dequeue p | None => mret tt end);;
  idle ← gets idleproc;
  let next := default idle next in
  store next (λ p, set_runs (s32 (p_runs p + 1)) p);;
  cur ← gets current;
  when (negb (next =? cur)) (proc_run next).

(** *** Timers *)

Definition timer_init (timer proc expires : Z) : M sched unit :=
  modify (set_t_expires timer (u32 expires));;
  modify (set_t_proc timer proc);;
  modify (set_timer_link (list_init (Elem timer))).

(** The [while] loop of [add_timer]: the entry in front of which the timer goes. *)
Fixpoint timer_walk (fuel : nat) (timer : Z) (le : entry Z) : M sched (entry Z) :=
  match fuel with
  | O => out_of_fuel
  | S fuel' =>
    match le with
    | Head => mret Head
    | Elem next =>
      te ← gets (λ s, t_expires s timer);
      ne ← gets (λ s, t_expires s next);
      if te <? ne then modify (set_t_expires next (u32 (ne - te)));; mret le
      else
        modify (set_t_expires timer (u32 (te - ne)));;
        h ← gets timer_link;
        timer_walk fuel' timer (list_next h le)
    end
  end.

(** [timer->proc != NULL] holds by construction: [t_proc] is a process. *)
Definition add_timer (fuel : nat) (timer : Z) : M sched unit :=
  asserts (λ s, 0 <? t_expires s timer);;
  asserts (λ s, list_empty (timer_link s) (Elem timer));;
  h ← gets timer_link;
  le ← timer_walk fuel timer (list_next h Head);
  modify (set_timer_link (list_add_before le (Elem timer))).

Definition del_timer (timer : Z) : M sched unit :=
  h ← gets timer_link;
  when (negb (list_empty h (Elem timer)))
    (te ← gets (λ s, t_expires s timer);
     when (negb (te =? 0))
       (match list_next h (Elem timer) with
        | Head => mret tt
        | Elem next => modify (λ s, set_t_expires next (u32 (t_expires s next + te)) s)
        end);;
     modify (set_timer_link (list_del_init (Elem timer)))).

(** The [while] loop of [run_timer_list] at a timer. *)
Fixpoint expire_walk (fuel : nat) (timer : Z) : M sched unit :=
  match fuel with
  | O => out_of_fuel
  | S fuel' =>
    te ← gets (λ s, t_expires s timer);
    when (te =? 0)
      (h ← gets timer_link;
       let le := list_next h (Elem timer) in
       proc ← gets (λ s, t_proc s timer);
       wait_state ← field p_wait_state proc;
       when (negb (wait_state =? 0)) (assert (truth (Z.land wait_state WT_INTERRUPTED)));;
       wakeup_proc proc;;
       del_timer timer;;
       match le with
       | Head => mret tt
       | Elem timer' => expire_walk fuel' timer'
       end)
  end.

(** [current] is never [NULL] once the timer interrupt is on. *)
Definition run_timer_list (fuel : nat) : M sched unit :=
  h ← gets timer_link;
  (match list_next h Head with
   | Head => mret tt
   | Elem timer =>
     asserts (λ s, negb (t_expires s timer =? 0));;
     modify (λ s, set_t_expires timer (u32 (t_expires s timer - 1)) s);;
     expire_walk fuel timer
   end);;
  cur ← gets current;
  sched_class_proc_tick cur.
