(* ===== verification/SchedProofs.v ===== *)
(** * The scheduler: proofs

    The stride comparison is correct while all strides lie in a window of half
    the 32-bit range; [schedule] keeps them in a window of [BIG_STRIDE] and
    picks the smallest. *)

From S2P Require Import Prelude ListH SkewHeap Sched.

(** The distance of a stride from [base], at 32 bits. *)
Definition stride_rank (base stride : Z) : Z := u32 (stride - base).

Definition srank (s : sched) (base p : Z) : Z := stride_rank base (p_stride (procs s p)).

(** ** Arithmetic of strides *)

Lemma s32_u32 z : s32 (u32 z) = s32 z.
Proof. unfold s32, u32. by rewrite Zplus_mod_idemp_l. Qed.

Lemma u32_diff a b base : u32 (a - b) = u32 (stride_rank base a - stride_rank base b).
Proof.
  unfold stride_rank, u32. rewrite <-Zminus_mod. f_equal. lia.
Qed.

(** Within half the range the comparison is the comparison of the ranks. *)
Lemma stride_cmp_rank base a b :
  stride_rank base a < 2 ^ 31 → stride_rank base b < 2 ^ 31 →
  stride_cmp a b = if stride_rank base b <? stride_rank base a then 1
    else if stride_rank base a =? stride_rank base b then 0 else -1.
Proof.
  intros Ha Hb. unfold stride_cmp. rewrite (u32_diff a b base), s32_u32.
  pose proof (u32_range (a - base)). pose proof (u32_range (b - base)).
  unfold stride_rank in *. rewrite s32_small by lia.
  repeat case_match; b2p; lia.
Qed.

Lemma stride_comp_by s base (D : list Z) :
  (∀ p, p ∈ D → srank s base p < 2 ^ 31) → comp_by (srank s base) (proc_stride_comp_f s) D.
Proof.
  intros HD x y Hx%HD Hy%HD. unfold proc_stride_comp_f, srank in *.
  rewrite (stride_cmp_rank base) by done. split; repeat case_match; b2p; lia.
Qed.

Lemma BIG_STRIDE_val : BIG_STRIDE = 2 ^ 30.
Proof. done. Qed.

(** The pass of a process. *)
Definition pass (priority : Z) : Z := if priority =? 0 then BIG_STRIDE else BIG_STRIDE / priority.

Lemma pass_range priority : 0 ≤ priority → 0 ≤ pass priority ≤ BIG_STRIDE.
Proof.
  intros Hp. unfold pass. rewrite BIG_STRIDE_val. destruct (Z.eqb_spec priority 0); [lia|].
  split; [apply Z.div_pos; lia|]. apply Z.div_le_upper_bound; [lia|]. nia.
Qed.

(** ** The run queue *)

(** The processes [elems t] wait in the run pool of [s]; their strides lie in a
    window of [BIG_STRIDE] from [base] on. *)
Record rq_inv (s : sched) (base : Z) (t : tree Z) : Prop := RqInv {
  rq_heap : is_heap (srank s base) (run_heap s) (run_pool s) t;
  rq_num : proc_num s = Z.of_nat (length (elems t));
  rq_max : 0 < max_time_slice s;
  rq_procs : ∀ p, p ∈ elems t → p_on_rq (procs s p) = true ∧ p_state (procs s p) = PROC_RUNNABLE ∧
    0 < p_time_slice (procs s p) ≤ max_time_slice s;
  rq_window : ∀ p, p ∈ elems t → srank s base p ≤ BIG_STRIDE;
  rq_idle : idleproc s ∉ elems t;
}.

Lemma heap_ordered_ext {K} `{!EqDecision K} (rank rank' : K → Z) (t : tree K) :
  (∀ x y, x ∈ elems t → y ∈ elems t → rank x ≤ rank y → rank' x ≤ rank' y) →
  heap_ordered rank t → heap_ordered rank' t.
Proof.
  induction t as [|l IHl k r IHr]; simpl; [done|]. intros He (Hk & Hl & Hr). split_and!.
  - rewrite Forall_forall in *. intros x Hx. apply He; [set_solver..|by apply Hk].
  - apply IHl; [|done]. intros. apply He; set_solver.
  - apply IHr; [|done]. intros. apply He; set_solver.
Qed.

(** What [stride_enqueue] and [stride_dequeue] leave alone. *)
Definition same_elsewhere (D : list Z) (s s' : sched) : Prop :=
  (∀ p, p ∉ D → procs s' p = procs s p) ∧
  max_time_slice s' = max_time_slice s ∧ current s' = current s ∧ idleproc s' = idleproc s ∧
  t_expires s' = t_expires s ∧ t_proc s' = t_proc s ∧ timer_link s' = timer_link s ∧ run_list s' = run_list s.

Lemma stride_enqueue_spec s base t proc :
  rq_inv s base t → proc ∉ elems t → proc ≠ idleproc s → srank s base proc ≤ BIG_STRIDE →
  p_state (procs s proc) = PROC_RUNNABLE → 0 ≤ p_time_slice (procs s proc) →
  Z.of_nat (length (elems t)) + 1 < 2 ^ 32 →
  ∃ t' s', stride_enqueue proc s = Ok (tt, s') ∧ rq_inv s' base t' ∧
    elems t' ≡ₚ proc :: elems t ∧ same_elsewhere [proc] s s' ∧
    p_stride (procs s' proc) = p_stride (procs s proc) ∧
    p_priority (procs s' proc) = p_priority (procs s proc) ∧
    p_wait_state (procs s' proc) = p_wait_state (procs s proc).
Proof.
  intros [Hh Hn Hmx Hp Hw Hi] Hni Hid Hr Hst Hts Hlen.
  destruct (is_heap_insert (srank s base) (proc_stride_comp_f s) (pool_fuel s) (run_heap s)
    (run_pool s) t proc) as (a' & t' & h' & E & Hh' & Hperm & Hfr); [done|done| | |].
  { apply stride_comp_by. rewrite BIG_STRIDE_val in *.
    intros p [->|?%Hw]%elem_of_cons; [lia|]. lia. }
  { unfold pool_fuel. lia. }
  unfold stride_enqueue, field, store. msteps.
  rewrite (bind_ok _ _ _ _ _ (zoom_ok run_heap set_run_heap _ s a' h' E)). msteps.
  cbn [procs max_time_slice set_run_pool set_run_heap].
  set (full := ((_ =? 0) || _)%bool).
  assert (full = false → 0 < p_time_slice (procs s proc) ≤ max_time_slice s) as Hfull.
  { unfold full. intros. b2p. lia. }
  set (s1 := if full then _ else _).
  assert (procs s1 proc = (if full then set_time_slice (max_time_slice s) (procs s proc) else procs s proc)
    ∧ same_elsewhere [proc] s s1 ∧ run_heap s1 = h' ∧ run_pool s1 = a' ∧ proc_num s1 = proc_num s)
    as (Hs1 & (Hs1p & Hs1m & Hs1r) & Hs1h & Hs1pool & Hs1n).
  { unfold s1, same_elsewhere. destruct full; simpl; [rewrite upd_eq|]; split_and!; try done.
    intros p Hx. by rewrite upd_ne by set_solver. }
  eexists t', _. split; [reflexivity|].
  assert (∀ p, srank (set_proc_num (u32 (proc_num (upd_proc proc (set_on_rq true) s1) + 1))
    (upd_proc proc (set_on_rq true) s1)) base p = srank s base p) as Hrank.
  { intros p. unfold srank. simpl. destruct (decide (proc = p)) as [<-|].
    - rewrite upd_eq, Hs1. by destruct full.
    - by rewrite upd_ne, Hs1p by set_solver. }
  split_and!; [|done| | | |]; simpl; rewrite ?upd_eq, ?Hs1; try by destruct full.
  - split; simpl.
    + rewrite Hs1h, Hs1pool. destruct Hh' as [? ? ? ?]. split; [done..|].
      eapply heap_ordered_ext; [|done]. intros x y _ _. by rewrite !Hrank.
    + rewrite Hs1n, Hn, Hperm. simpl. rewrite u32_small; lia.
    + by rewrite Hs1m.
    + intros p. rewrite Hperm, Hs1m. intros [->|Hin]%elem_of_cons.
      * rewrite upd_eq, Hs1. destruct full; simpl; split_and!; try done; try lia; apply Hfull; done.
      * rewrite upd_ne, Hs1p by set_solver. by apply Hp.
    + intros p. rewrite Hrank, Hperm. intros [->|Hin]%elem_of_cons; [done|by apply Hw].
    + destruct Hs1r as (_ & -> & _). rewrite Hperm. set_solver.
  - unfold same_elsewhere. simpl. split_and!; try done; try apply Hs1r.
    intros p Hx. rewrite upd_ne by set_solver. by apply Hs1p.
Qed.

(** Moving the window up to a stride inside it. *)
Lemma stride_rank_rebase base base' a :
  stride_rank base base' ≤ stride_rank base a →
  stride_rank base' a = stride_rank base a - stride_rank base base'.
Proof.
  intros H. unfold stride_rank at 1. rewrite (u32_diff a base' base).
  pose proof (u32_range (a - base)). pose proof (u32_range (base' - base)).
  unfold stride_rank in *. apply u32_small. lia.
Qed.

Lemma stride_rank_self base : stride_rank base base = 0.
Proof. unfold stride_rank. by rewrite Z.sub_diag. Qed.

Lemma stride_rank_pass base k : 0 ≤ k < 2 ^ 32 → stride_rank base (u32 (base + k)) = k.
Proof.
  intros Hk. unfold stride_rank, u32. rewrite Zminus_mod_idemp_l. replace (base + k - base) with k by lia.
  by apply Z.mod_small.
Qed.

(** [stride_pick_next] charges the root of the pool with its pass. *)
Lemma stride_pick_next_spec s base l p r :
  rq_inv s base (Node l p r) →
  stride_pick_next s = Ok (Some p,
    upd_proc p (λ q, set_stride (u32 (p_stride q + pass (p_priority q))) q) s).
Proof.
  intros [[Hr _ _ _] _ _ _ _ _]. unfold stride_pick_next, field, store. msteps.
  simpl in Hr. rewrite Hr. msteps. unfold pass, upd_proc.
  by destruct (p_priority (procs s p) =? 0) eqn:E; simpl; msteps.
Qed.

(** The process that was picked leaves the pool; the others keep their order. *)
Lemma stride_dequeue_root s base l p r v :
  rq_inv s base (Node l p r) → Z.of_nat (length (elems (Node l p r))) < 2 ^ 32 →
  ∃ t' s', stride_dequeue p (upd_proc p (set_stride v) s) = Ok (tt, s') ∧
    elems t' ≡ₚ elems l ++ elems r ∧ tree_at (run_heap s') None t' ∧ run_pool s' = root t' ∧
    heap_ordered (srank s base) t' ∧ proc_num s' = Z.of_nat (length (elems t')) ∧
    procs s' = upd p (set_stride v (procs s p)) (procs s) ∧ same_elsewhere [p] s s'.
Proof.
  intros [[Hr Ht Hnd Ho] Hn _ Hp Hw _] Hlen.
  destruct (skew_heap_remove_root (srank s base) (proc_stride_comp_f (upd_proc p (set_stride v) s))
    (pool_fuel s) (run_heap s) l p r (run_pool s)) as (t' & h' & E & Ht' & Hperm & Hfr & Ho'); [done|done| |].
  { unfold pool_fuel. cbn [elems length] in Hn. lia. }
  unfold stride_dequeue, field, store. rewrite bind_asserts.
  2: { simpl. rewrite upd_eq. simpl. destruct (Hp p) as [-> _]; [cbn [elems]; set_solver|].
       cbn [elems length] in Hn. lia. }
  set (s1 := upd_proc p (set_stride v) s) in *. msteps.
  pose proof (zoom_ok run_heap set_run_heap (skew_heap_remove (proc_stride_comp_f s1) (pool_fuel s1)
    (run_pool s1) p) s1 _ h' E) as Ez.
  rewrite (bind_ok _ _ _ _ _ Ez). msteps.
  eexists t', _. split; [reflexivity|]. simpl. split_and!; [done..| | |done|].
  - apply Ho'; [|done]. assert (∀ x, x ∈ elems l ++ elems r →
      srank s1 base x = srank s base x) as Hrk.
    { intros x Hx. unfold srank. simpl. rewrite upd_ne; [done|].
      intros <-. by apply NoDup_cons in Hnd as [? _]. }
    intros x y Hx Hy. rewrite <-(Hrk x Hx), <-(Hrk y Hy).
    eapply (stride_comp_by _ _ (elems l ++ elems r)); [|done|done].
    intros z Hz. rewrite Hrk by done. specialize (Hw z). rewrite BIG_STRIDE_val in Hw.
    cbn [elems] in Hw. assert (srank s base z ≤ 2 ^ 30) by (apply Hw; set_solver). lia.
  - rewrite Hn, Hperm. cbn [elems length]. cbn [elems length] in Hlen. rewrite u32_small; lia.
  - unfold same_elsewhere. simpl. split_and!; try done.
    intros x Hx. rewrite upd_ne; [done|set_solver].
Qed.

(** Charging the minimum moves the window up to its old stride. *)
Lemma window_step s base l p r (k : Z) :
  rq_inv s base (Node l p r) → 0 ≤ k ≤ BIG_STRIDE →
  let base' := p_stride (procs s p) in
  (∀ x, x ∈ elems l ++ elems r →
    stride_rank base' (p_stride (procs s x)) = srank s base x - srank s base p ∧
    srank s base x - srank s base p ≤ BIG_STRIDE) ∧
  stride_rank base' (u32 (base' + k)) ≤ BIG_STRIDE.
Proof.
  intros Hi Hk base'. split.
  - intros x Hx. pose proof (rq_window _ _ _ Hi x ltac:(cbn [elems]; set_solver)).
    assert (srank s base p ≤ srank s base x) as Hle.
    { pose proof (heap_order _ _ _ _ (rq_heap _ _ _ Hi)) as [Ho _].
      rewrite Forall_forall in Ho. by apply Ho. }
    pose proof (u32_range (p_stride (procs s p) - base)).
    split; [by apply stride_rank_rebase|]. unfold srank, stride_rank in *. lia.
  - rewrite stride_rank_pass; [lia|]. rewrite BIG_STRIDE_val in *. lia.
Qed.

(** The run queue only depends on these fields of the processes in it. *)
Definition same_sched_fields (p q : proc_struct) : Prop :=
  p_on_rq p = p_on_rq q ∧ p_state p = p_state q ∧ p_time_slice p = p_time_slice q ∧
  p_stride p = p_stride q ∧ p_priority p = p_priority q.

Lemma rq_inv_frame s s' base t :
  run_heap s' = run_heap s → run_pool s' = run_pool s → proc_num s' = proc_num s →
  max_time_slice s' = max_time_slice s → idleproc s' = idleproc s →
  (∀ p, p ∈ elems t → same_sched_fields (procs s' p) (procs s p)) →
  rq_inv s base t → rq_inv s' base t.
Proof.
  intros Hh Hpool Hn Hm Hi Hp [[Hr Ht Hnd Ho] Hnum Hmx Hpr Hw Hid].
  assert (∀ p, p ∈ elems t → srank s' base p = srank s base p) as Hrk.
  { intros p Hin. unfold srank. by destruct (Hp p Hin) as (_ & _ & _ & -> & _). }
  split; [split| | | | |]; rewrite ?Hh, ?Hpool, ?Hn, ?Hm, ?Hi; try done.
  - eapply heap_ordered_ext; [|done]. intros x y Hx Hy. by rewrite !Hrk.
  - intros p Hin. destruct (Hp p Hin) as (-> & -> & -> & _). by apply Hpr.
  - intros p Hin. rewrite Hrk by done. by apply Hw.
Qed.

Lemma upd_proc_same p f s q :
  (∀ x, same_sched_fields (f x) x) → same_sched_fields (procs (upd_proc p f s) q) (procs s q).
Proof.
  intros Hf. simpl. destruct (decide (p = q)) as [<-|]; [rewrite upd_eq; apply Hf|].
  rewrite upd_ne by done. done.
Qed.

Lemma rq_inv_upd_proc s base t p f :
  (∀ x, same_sched_fields (f x) x) → rq_inv s base t → rq_inv (upd_proc p f s) base t.
Proof. intros Hf. apply rq_inv_frame; try done. intros q _. by apply upd_proc_same. Qed.

(** The processes [schedule] chooses from. *)
Definition candidates (s : sched) (t : tree Z) : list Z :=
  if (bool_decide (p_state (procs s (current s)) = PROC_RUNNABLE) && negb (current s =? idleproc s))%bool
  then current s :: elems t else elems t.

(** The running process is outside the pool and fit to be put back. *)
Record running_ok (s : sched) (base : Z) (t : tree Z) : Prop := RunningOk {
  run_out : current s ∉ elems t;
  run_window : current s ≠ idleproc s → p_state (procs s (current s)) = PROC_RUNNABLE →
    srank s base (current s) ≤ BIG_STRIDE;
  run_slice : 0 ≤ p_time_slice (procs s (current s));
  run_room : Z.of_nat (length (elems t)) + 1 < 2 ^ 32;
}.

Lemma enqueue_current_spec s base t :
  rq_inv s base t → running_ok s base t →
  ∃ t1 s1, (store (current s) (set_need_resched 0);;
    state ← field p_state (current s);
    when (bool_decide (state = PROC_RUNNABLE)) (sched_class_enqueue (current s))) s = Ok (tt, s1) ∧
    rq_inv s1 base t1 ∧ elems t1 ≡ₚ candidates s t ∧
    current s1 = current s ∧ idleproc s1 = idleproc s ∧
    (∀ p, p_stride (procs s1 p) = p_stride (procs s p) ∧ p_priority (procs s1 p) = p_priority (procs s p)).
Proof.
  intros Hi [Hout Hwin Hsl Hroom]. unfold store, field, candidates, sched_class_enqueue. msteps.
  set (cur := current s) in *. set (s0 := upd_proc cur (set_need_resched 0) s).
  assert (rq_inv s0 base t) as Hi0 by by apply rq_inv_upd_proc.
  assert (∀ q, same_sched_fields (procs s0 q) (procs s q)) as Hsame by (intros; by apply upd_proc_same).
  destruct (Hsame cur) as (_ & Hst & Hts & Hsd & Hpr). rewrite Hst.
  assert (∃ t1 s1, (mret () : M sched unit) s0 = Ok ((), s1) ∧ rq_inv s1 base t1 ∧ elems t1 ≡ₚ elems t ∧
    current s1 = cur ∧ idleproc s1 = idleproc s ∧ (∀ p, p_stride (procs s1 p) = p_stride (procs s p) ∧
    p_priority (procs s1 p) = p_priority (procs s p))) as Hskip.
  { exists t, s0. split_and!; try done. intros q. by destruct (Hsame q) as (_ & _ & _ & ? & ?). }
  case_bool_decide as Hrun; simpl; [|exact Hskip]. rewrite bind_gets. simpl.
  destruct (Z.eqb_spec cur (idleproc s)) as [Heq|Hne]; simpl; [exact Hskip|].
  destruct (stride_enqueue_spec s0 base t cur) as (t1 & s1 & E & Hi1 & Hperm & Hels & Hs1 & Hp1 & _);
    [done|done|done| |congruence|lia|done|].
  { unfold srank. rewrite Hsd. by apply Hwin. }
  exists t1, s1. split_and!; [done|done|done|by apply Hels|by apply Hels|].
  intros q. destruct (decide (q = cur)) as [->|Hq]; [split; congruence|].
  destruct Hels as [-> _]; [|set_solver]. by destruct (Hsame q) as (_ & _ & _ & ? & ?).
Qed.

(** The rest of [schedule]: choose, charge, dequeue, switch. *)
Lemma choose_next_spec s base t :
  rq_inv s base t → Z.of_nat (length (elems t)) < 2 ^ 32 →
  (∀ p, p ∈ elems t → 0 ≤ p_priority (procs s p)) →
  ∃ next t' s' base', (next ← sched_class_pick_next;
    (match next with Some p => sched_class_dequeue p | None => mret tt end);; mret next) s
      = Ok (next, s') ∧
    next = run_pool s ∧ rq_inv s' base' t' ∧ elems t ≡ₚ option_list next ++ elems t' ∧
    current s' = current s ∧ idleproc s' = idleproc s ∧
    ∀ p, next = Some p → p ∈ elems t ∧ (∀ q, q ∈ elems t → srank s base p ≤ srank s base q) ∧
      srank s' base' p ≤ BIG_STRIDE ∧
      p_stride (procs s' p) = u32 (p_stride (procs s p) + pass (p_priority (procs s p))).
Proof.
  intros Hi Hlen Hprio. unfold sched_class_pick_next, sched_class_dequeue. simpl sc_pick_next. simpl sc_dequeue.
  pose proof (rq_heap _ _ _ Hi) as [Hr Htr Hnd Ho]. destruct t as [|l p r].
  { simpl in Hr. exists None, Leaf, s, base. unfold stride_pick_next. msteps. rewrite !Hr. by split_and!. }
  set (k := pass (p_priority (procs s p))).
  assert (0 ≤ k ≤ BIG_STRIDE) as Hk by (apply pass_range, Hprio; cbn [elems]; set_solver).
  destruct (window_step s base l p r k Hi Hk) as [Hwin Hself].
  destruct (stride_dequeue_root s base l p r (u32 (p_stride (procs s p) + k)) Hi Hlen)
    as (t' & s' & E & Hperm & Ht' & Hroot & Ho' & Hnum & Hprocs & (_ & Hm & Hcur & Hid & _)).
  rewrite (bind_ok _ _ _ _ _ (stride_pick_next_spec s base l p r Hi)).
  change (upd_proc p _ s) with (upd_proc p (set_stride (u32 (p_stride (procs s p) + k))) s).
  rewrite (bind_ok _ _ _ _ _ E).
  apply NoDup_cons in Hnd as [Hnp Hnd].
  assert (∀ x, x ∈ elems t' → x ∈ elems l ++ elems r ∧ procs s' x = procs s x) as Hsub.
  { intros x. rewrite Hperm. intros Hx. split; [done|]. rewrite Hprocs, upd_ne; [done|by intros <-]. }
  exists (Some p), t', s', (p_stride (procs s p)). split_and!; [done|by rewrite Hr| | |done|done|].
  - split; [split| | | | |]; try done.
    + rewrite Hperm. done.
    + eapply heap_ordered_ext; [|done]. intros x y [Hx Ex]%Hsub [Hy Ey]%Hsub. unfold srank at 3 4.
      rewrite Ex, Ey. destruct (Hwin x Hx) as [-> _], (Hwin y Hy) as [-> _]. lia.
    + rewrite Hm. apply (rq_max _ _ _ Hi).
    + intros x [Hx Ex]%Hsub. rewrite Ex, Hm. apply (rq_procs _ _ _ Hi). cbn [elems]. set_solver.
    + intros x [Hx Ex]%Hsub. unfold srank. rewrite Ex. by destruct (Hwin x Hx) as [-> ?].
    + rewrite Hid. pose proof (rq_idle _ _ _ Hi) as Hni. cbn [elems] in Hni. rewrite Hperm. set_solver.
  - simpl. by rewrite Hperm.
  - intros ? [= <-]. unfold srank at 3. rewrite Hprocs, upd_eq. split_and!; [cbn [elems]; set_solver| |done|done].
    intros q [->|Hq]%elem_of_cons; [lia|]. destruct Ho as [Ho _]. rewrite Forall_forall in Ho. by apply Ho.
Qed.

(** ** Scheduling *)

(** The switch at the end of [schedule]. *)
Lemma switch_spec s next :
  ∃ s', when (negb (next =? current s)) (proc_run next) s = Ok (tt, s') ∧ current s' = next ∧
    procs s' = procs s ∧ idleproc s' = idleproc s ∧ run_heap s' = run_heap s ∧ run_pool s' = run_pool s ∧
    proc_num s' = proc_num s ∧ max_time_slice s' = max_time_slice s.
Proof.
  unfold when, proc_run. destruct (Z.eqb_spec next (current s)) as [->|Hne]; simpl; [by exists s|].
  rewrite bind_gets. destruct (Z.eqb_spec next (current s)) as [|_]; [done|]. simpl.
  eexists. split; [reflexivity|]. done.
Qed.

(** [schedule] returns; the new current process is a candidate of minimal
    stride (or the idle process when there is none), it has been charged with
    its pass, the other candidates are the new run pool, and the window
    invariant holds again. *)
Lemma schedule_spec s base t :
  rq_inv s base t → running_ok s base t →
  (∀ p, p ∈ candidates s t → 0 ≤ p_priority (procs s p)) →
  ∃ s' t' base', schedule s = Ok (tt, s') ∧ rq_inv s' base' t' ∧ idleproc s' = idleproc s ∧
    match candidates s t with
    | [] => current s' = idleproc s ∧ elems t' = []
    | cs => current s' :: elems t' ≡ₚ cs ∧
        (∀ q, q ∈ cs → srank s base (current s') ≤ srank s base q) ∧
        p_stride (procs s' (current s')) =
          u32 (p_stride (procs s (current s')) + pass (p_priority (procs s (current s')))) ∧
        srank s' base' (current s') ≤ BIG_STRIDE
    end.
Proof.
  intros Hi Hrun Hprio.
  destruct (enqueue_current_spec s base t Hi Hrun) as (t1 & s1 & E1 & Hi1 & Hp1 & Hc1 & Hid1 & Hsp).
  destruct (choose_next_spec s1 base t1) as (next & t' & s2 & base' & E2 & Hn & Hi2 & Hp2 & Hc2 & Hid2 & Hmin); [done|..].
  { rewrite Hp1. destruct Hrun as [_ _ _ ?]. unfold candidates. case_match; simpl; lia. }
  { intros p. rewrite Hp1. intros Hp. destruct (Hsp p) as [_ ->]. by apply Hprio. }
  unfold store, field in E1. rewrite bind_modify, bind_gets in E1.
  apply bind_ok_inv in E2 as (next' & s1' & E2 & E3). apply bind_ok_inv in E3 as ([] & s2' & E3 & [= -> ->]).
  unfold schedule, store, field. msteps. rewrite (bind_ok _ _ _ _ _ E1), (bind_ok _ _ _ _ _ E2), (bind_ok _ _ _ _ _ E3).
  msteps. set (n := default (idleproc s2) next). set (s3 := upd_proc n _ s2).
  destruct (switch_spec s3 n) as (s4 & E4 & Hcur & Hpr & Hid4 & ? & ? & ? & ?).
  assert (∀ p, same_sched_fields (procs s4 p) (procs s2 p)) as Hsame.
  { intros p. rewrite Hpr. by apply upd_proc_same. }
  exists s4, t', base'. split_and!; [exact E4| |by rewrite Hid4, <-Hid1, <-Hid2|].
  { apply (rq_inv_frame s2); by auto. }
  rewrite Hp2 in Hp1. destruct next as [p|]; simpl in Hp1.
  - destruct (Hmin p eq_refl) as (_ & Hle & Hwin & Hsd). rewrite Hcur. unfold n. simpl.
    destruct (Hsame p) as (_ & _ & _ & Hst & _). destruct (Hsp p) as [Hs1 Hs2].
    destruct (candidates s t) as [|c cs] eqn:Ec; [by apply Permutation_nil_r in Hp1|].
    split_and!; [done| | |].
    + intros q Hq. unfold srank in *. destruct (Hsp q) as [<- _]. rewrite <-Hs1. apply Hle.
      rewrite Hp2. by rewrite Hp1.
    + by rewrite Hst, Hsd, Hs1, Hs2.
    + unfold srank in *. by rewrite Hst.
  - assert (elems t' = []) as Ht'.
    { pose proof (rq_heap _ _ _ Hi1) as [Hrt _ _ _]. rewrite <-Hn in Hrt.
      destruct t1 as [|l p r]; [|done]. simpl in Hp2. by apply Permutation_nil_l in Hp2. }
    rewrite Ht' in Hp1. apply Permutation_nil_l in Hp1. rewrite <-Hp1. split; [|done].
    rewrite Hcur. unfold n. simpl. congruence.
Qed.

(** After [sched_init] the run queue is empty. *)
Lemma sched_init_spec s : ∃ s', sched_init s = Ok (tt, s') ∧ rq_inv s' 0 Leaf ∧ procs s' = procs s ∧
  current s' = current s ∧ idleproc s' = idleproc s ∧ dll (timer_link s') Head [].
Proof.
  eexists. split; [reflexivity|]. split_and!; [|done|done|done|apply list_init_dll].
  split; simpl; try set_solver; try done. split; try done. constructor.
Qed.

(** ** The properties of the scheduler *)

(** C17. The stride scheduler.  When all candidates' strides lie in a window of
    [BIG_STRIDE], [schedule] returns and makes a candidate of minimal stride
    current (the idle process when there is none); that process is charged with
    its pass, all others wait in the run pool, and all strides lie in a window of
    [BIG_STRIDE] again, so 32-bit wrap-around never confuses the comparison. *)
Theorem schedule_picks_minimum s base t :
  rq_inv s base t → running_ok s base t →
  (∀ p, p ∈ candidates s t → 0 ≤ p_priority (procs s p)) →
  ∃ s' t' base', schedule s = Ok (tt, s') ∧ rq_inv s' base' t' ∧ idleproc s' = idleproc s ∧
    match candidates s t with
    | [] => current s' = idleproc s ∧ elems t' = []
    | cs => current s' :: elems t' ≡ₚ cs ∧
        (∀ q, q ∈ cs → srank s base (current s') ≤ srank s base q) ∧
        p_stride (procs s' (current s')) =
          u32 (p_stride (procs s (current s')) + pass (p_priority (procs s (current s')))) ∧
        srank s' base' (current s') ≤ BIG_STRIDE
    end.
Proof. apply schedule_spec. Qed.

(** An example system: process 0 idles, the others are runnable with priority 1
    and the given strides, process 1 runs. *)
Definition example_proc (stride : Z) : proc_struct :=
  ProcStruct PROC_RUNNABLE 1 0 0 0 None None 0 0 [] 0 0 None None None false 5 stride 1 None.
Definition example_sched (stride : Z → Z) : sched :=
  Sched (λ p, example_proc (stride p)) (λ _, ListEntry Head Head) 0 5 None
    (λ _, SkewHeapEntry None None None) 1 0 (λ _, 0) (λ _, 0) (λ _, ListEntry Head Head).

Lemma example_sched_inv stride base : rq_inv (example_sched stride) base Leaf.
Proof.
  split; simpl; try set_solver; try done. split; try done. constructor.
Qed.

Lemma schedule_picks_minimum_witness :
  let s := example_sched (λ p, if p =? 1 then 7 else 3) in
  ∃ s1 s2 t, stride_enqueue 2 s = Ok (tt, s1) ∧ elems t ≡ₚ [2] ∧ schedule s1 = Ok (tt, s2) ∧
    (∀ q, q ∈ candidates s1 t → srank s1 0 (current s2) ≤ srank s1 0 q).
Proof.
  intros s.
  destruct (stride_enqueue_spec s 0 Leaf 2) as (t & s1 & E & Hi & Hp & (Hpr & Hm & Hc & Hid & _) & Hst & Hprio & _).
  - apply example_sched_inv.
  - simpl. set_solver.
  - done.
  - vm_compute. discriminate.
  - done.
  - simpl. lia.
  - simpl. lia.
  - assert (candidates s1 t = 1 :: elems t) as Hcand.
    { unfold candidates. rewrite Hc, Hid, (Hpr (current s)) by set_solver. done. }
    destruct (schedule_picks_minimum s1 0 t) as (s2 & t2 & base2 & E2 & _ & _ & Hmin).
    + exact Hi.
    + split; rewrite ?Hc, ?Hid, ?Hp; try rewrite (Hpr (current s)) by set_solver.
      * simpl. set_solver.
      * intros _ _. unfold srank. rewrite (Hpr (current s)) by set_solver. vm_compute. discriminate.
      * simpl. lia.
      * simpl. lia.
    + intros p. rewrite Hcand, Hp. intros [->|[->|[]%elem_of_nil]%elem_of_cons]%elem_of_cons.
      * rewrite (Hpr 1) by set_solver. simpl. lia.
      * rewrite Hprio. simpl. lia.
    + exists s1, s2, t. split_and!; [exact E|exact Hp|exact E2|]. rewrite Hcand in Hmin |- *. apply Hmin.
Defined.

(** Outside such a window the comparison is wrong: with the pool at stride
    [2^31 + 1], a new process, whose stride [alloc_proc] sets to 0, loses
    against the running one although it is behind, so the running one is chosen
    again. *)
Theorem new_process_starves :
  let s := example_sched (λ p, if p =? 1 then 2 ^ 31 + 1 else 0) in
  ∃ s1 s2, stride_enqueue 2 s = Ok (tt, s1) ∧ schedule s1 = Ok (tt, s2) ∧
    current s2 = 1 ∧ p_stride (procs s1 2) < p_stride (procs s1 1).
Proof. intros s. eexists _, _. split_and!; [vm_compute; reflexivity..|]. vm_compute. reflexivity. Qed.
