(* ===== verification/Timers.v ===== *)
(** * The timer list of kern/schedule/sched.c: proofs

    The list stores, for every timer, the ticks it expires after its
    predecessor.  [deadlines] are the absolute times; each operation is proved
    to have its effect on them. *)

From S2P Require Import Prelude ListH SkewHeap Sched SchedProofs.

(** The absolute deadlines of the timers [ts], [acc] ticks from now on. *)
Fixpoint deadlines (ex : Z → Z) (acc : Z) (ts : list Z) : list (Z * Z) :=
  match ts with
  | [] => []
  | t :: r => (t, acc + ex t) :: deadlines ex (acc + ex t) r
  end.

(** A timer goes in front of the first one with a later deadline. *)
Fixpoint insert_deadline (x : Z * Z) (l : list (Z * Z)) : list (Z * Z) :=
  match l with
  | [] => [x]
  | y :: r => if x.2 <? y.2 then x :: l else y :: insert_deadline x r
  end.

(** The timer list of [s] holds the timers [ts]. *)
Record timers_inv (s : sched) (ts : list Z) : Prop := TimersInv {
  tm_links : dll (timer_link s) Head (Elem <$> ts);
  tm_range : ∀ t, t ∈ ts → 0 ≤ t_expires s t < 2 ^ 32;
}.

Lemma deadlines_ext ex ex' acc ts :
  (∀ t, t ∈ ts → ex' t = ex t) → deadlines ex' acc ts = deadlines ex acc ts.
Proof.
  revert acc. induction ts as [|t ts IH]; intros acc H; simpl; [done|].
  rewrite (H t) by set_solver. rewrite IH; [done|]. set_solver.
Qed.

Definition sum_ex (ex : Z → Z) (ts : list Z) : Z := foldr (λ t a, ex t + a) 0 ts.

Lemma deadlines_app ex acc l1 l2 :
  deadlines ex acc (l1 ++ l2) = deadlines ex acc l1 ++ deadlines ex (acc + sum_ex ex l1) l2.
Proof.
  revert acc. induction l1 as [|t l1 IH]; intros acc; simpl; [by rewrite Z.add_0_r|].
  rewrite IH. do 3 f_equal. lia.
Qed.

Lemma sum_ex_ext ex ex' ts : (∀ t, t ∈ ts → ex' t = ex t) → sum_ex ex' ts = sum_ex ex ts.
Proof.
  unfold sum_ex. induction ts as [|t ts IH]; intros H; simpl; [done|].
  rewrite (H t) by set_solver. rewrite IH; [done|]. set_solver.
Qed.

(** ** Adding a timer *)

(** What the timer operations leave alone. *)
Definition only_expires (s s' : sched) : Prop :=
  procs s' = procs s ∧ timer_link s' = timer_link s ∧ t_proc s' = t_proc s ∧ current s' = current s ∧
  idleproc s' = idleproc s ∧ run_pool s' = run_pool s ∧ run_heap s' = run_heap s ∧
  proc_num s' = proc_num s ∧ max_time_slice s' = max_time_slice s.

Lemma timer_walk_spec s l1 l2 timer acc e fuel :
  dll (timer_link s) Head (Elem <$> l1 ++ l2) → (timer ∉ l1 ++ l2) → NoDup l2 →
  t_expires s timer = e - acc → 0 ≤ e - acc < 2 ^ 32 →
  (∀ t, t ∈ l2 → 0 ≤ t_expires s t < 2 ^ 32) → (length l2 < fuel)%nat →
  ∃ a b s', l2 = a ++ b ∧
    timer_walk fuel timer (default Head (Elem <$> head l2)) s = Ok (default Head (Elem <$> head b), s') ∧
    only_expires s s' ∧
    deadlines (t_expires s') acc (a ++ timer :: b) =
      insert_deadline (timer, e) (deadlines (t_expires s) acc l2) ∧
    (∀ t, t ∉ timer :: l2 → t_expires s' t = t_expires s t) ∧
    (∀ t, t ∈ timer :: l2 → 0 ≤ t_expires s' t < 2 ^ 32).
Proof.
  revert s l1 acc fuel. induction l2 as [|n l2 IH]; intros s l1 acc fuel Hd Hni Hnd He Hr Hx Hf;
    (destruct fuel as [|fuel]; simpl in Hf; [lia|]).
  { exists [], [], s. simpl. rewrite He. split_and!; try done.
    - do 3 f_equal. lia.
    - intros t ->%list_elem_of_singleton. lia. }
  apply NoDup_cons in Hnd as [Hnn Hnd].
  assert (0 ≤ t_expires s n < 2 ^ 32) as Hn by (apply Hx; set_solver).
  assert (timer ≠ n) as Htn by set_solver.
  simpl. msteps. rewrite He. destruct (Z.ltb_spec (e - acc) (t_expires s n)) as [Hlt|Hge].
  - exists [], (n :: l2), (set_t_expires n (u32 (t_expires s n - (e - acc))) s).
    rewrite u32_small by lia. split_and!; try done; simpl.
    + rewrite upd_ne, He, upd_eq by done. replace (acc + (e - acc)) with e by lia.
      destruct (Z.ltb_spec e (acc + t_expires s n)); [|lia].
      replace (e + (t_expires s n - (e - acc))) with (acc + t_expires s n) by lia.
      do 2 f_equal. apply deadlines_ext. intros t Ht. by rewrite upd_ne by set_solver.
    + intros t Ht. by rewrite upd_ne by set_solver.
    + intros t [->|[->|Ht]%elem_of_cons]%elem_of_cons.
      * rewrite upd_ne by done. lia.
      * rewrite upd_eq. lia.
      * rewrite upd_ne by set_solver. apply Hx. set_solver.
  - msteps. rewrite u32_small by lia. simpl. rewrite fmap_app in Hd.
    pose proof Hd as Hd'. rewrite fmap_cons in Hd'. rewrite (list_next_dll _ _ _ _ _ Hd').
    destruct (IH (set_t_expires timer (e - acc - t_expires s n) s) (l1 ++ [n]) (acc + t_expires s n) fuel)
      as (a & b & s' & -> & E & Hoe & Hdl & Hout & Hin); simpl.
    + rewrite <-app_assoc, fmap_app. done.
    + rewrite <-app_assoc. done.
    + done.
    + rewrite upd_eq. lia.
    + lia.
    + intros t Ht. rewrite upd_ne by set_solver. apply Hx. set_solver.
    + lia.
    + exists (n :: a), b, s'. split_and!; try done.
      * rewrite <-E. by destruct (a ++ b).
      * simpl. rewrite (Hout n) by set_solver. simpl. rewrite upd_ne by done.
        rewrite Hdl. destruct (Z.ltb_spec e (acc + t_expires s n)); [lia|]. do 2 f_equal.
        apply deadlines_ext. intros t Ht. simpl. by rewrite upd_ne by set_solver.
      * intros t Ht. rewrite Hout by set_solver. simpl. by rewrite upd_ne by set_solver.
      * intros t Ht. destruct (decide (t = n)) as [->|]; [|apply Hin; set_solver].
        rewrite Hout by set_solver. simpl. by rewrite upd_ne by done.
Qed.

Lemma on_list_not_empty {A} `{!EqDecision A} (h : lheap (entry A)) (l1 l2 : list (entry A)) x :
  dll h Head (l1 ++ x :: l2) → list_empty h x = false.
Proof. intros Hd. eapply list_empty_member; [done|set_solver]. Qed.

(** [add_timer] gives the timer its deadline and changes no other deadline. *)
Lemma add_timer_spec s ts timer fuel :
  timers_inv s ts → (timer ∉ ts) → list_empty (timer_link s) (Elem timer) = true →
  0 < t_expires s timer < 2 ^ 32 → (length ts < fuel)%nat →
  ∃ ts' s', add_timer fuel timer s = Ok (tt, s') ∧ timers_inv s' ts' ∧ ts' ≡ₚ timer :: ts ∧
    deadlines (t_expires s') 0 ts' =
      insert_deadline (timer, t_expires s timer) (deadlines (t_expires s) 0 ts).
Proof.
  intros [Hd Hr] Hni He Hx Hf. unfold add_timer. rewrite bind_asserts by lia. rewrite bind_asserts by done.
  msteps. rewrite (list_next_head _ _ _ Hd).
  pose proof Hd as [Hnd _]. apply NoDup_cons in Hnd as [_ Hnd]. apply NoDup_fmap_1 in Hnd.
  destruct (timer_walk_spec s [] ts timer 0 (t_expires s timer) fuel)
    as (a & b & s' & -> & E & (_ & Hlk & _) & Hdl & Hout & Hin); [done|done|done|lia|lia|done|done|].
  replace (head (Elem <$> a ++ b)) with (Elem <$> head (a ++ b)) by by destruct (a ++ b).
  rewrite (bind_ok _ _ _ _ _ E).
  exists (a ++ timer :: b). eexists. split; [reflexivity|]. split_and!; [|by rewrite Permutation_middle|done].
  split; simpl.
  - rewrite Hlk, fmap_app. simpl. rewrite fmap_app in Hd.
    assert (Elem timer ∉ Head :: (Elem <$> a ++ b)) as Hfr.
    { rewrite not_elem_of_cons, elem_of_elems. done. }
    rewrite fmap_app in Hfr. destruct b as [|c b]; simpl in *.
    + rewrite app_nil_r in *. by apply list_add_before_head.
    + by apply list_add_before_dll.
  - intros t Ht. apply Hin. by rewrite Permutation_middle.
Qed.

(** ** Deleting a timer *)

Lemma del_timer_spec s l1 timer l2 :
  timers_inv s (l1 ++ timer :: l2) →
  (∀ n, head l2 = Some n → t_expires s n + t_expires s timer < 2 ^ 32) →
  ∃ s', del_timer timer s = Ok (tt, s') ∧ timers_inv s' (l1 ++ l2) ∧
    deadlines (t_expires s') 0 (l1 ++ l2) =
      deadlines (t_expires s) 0 l1 ++ tail (deadlines (t_expires s) (sum_ex (t_expires s) l1) (timer :: l2)) ∧
    list_empty (timer_link s') (Elem timer) = true ∧
    procs s' = procs s ∧ t_proc s' = t_proc s ∧ current s' = current s ∧
    idleproc s' = idleproc s ∧ run_pool s' = run_pool s ∧ run_heap s' = run_heap s ∧
    proc_num s' = proc_num s ∧ max_time_slice s' = max_time_slice s ∧
    (t_expires s timer = 0 → t_expires s' = t_expires s).
Proof.
  intros [Hd Hr] Hb. rewrite fmap_app in Hd. simpl in Hd.
  unfold del_timer. msteps. rewrite (on_list_not_empty _ _ _ _ Hd). simpl. rewrite bind_gets.
  destruct (list_del_init_dll _ _ _ _ _ Hd) as [Hd' He]. rewrite <-fmap_app in Hd'.
  pose proof Hd as [Hnd _]. rewrite app_comm_cons, <-Permutation_middle in Hnd.
  rewrite (list_next_dll _ _ _ _ _ Hd).
  assert (NoDup (timer :: l1 ++ l2)) as Hnd'.
  { apply (NoDup_fmap_1 Elem). rewrite fmap_cons, fmap_app.
    apply NoDup_cons in Hnd as [Hx Hnd]. simpl in Hnd. apply NoDup_cons in Hnd as [_ Hnd].
    constructor; [|done]. intros Hin. apply Hx. simpl. by right. }
  apply NoDup_cons in Hnd' as [Hni Hnd'].
  assert (∀ t, t ∈ l1 ++ l2 → 0 ≤ t_expires s t < 2 ^ 32) as Hr' by (intros; apply Hr; set_solver).
  destruct l2 as [|n l2]; simpl.
  { eexists. split.
    { by destruct (t_expires s timer =? 0); simpl; msteps. }
    simpl. rewrite !app_nil_r. rewrite app_nil_r in *. split_and!; try done. }
  destruct (Z.eqb_spec (t_expires s timer) 0) as [E0|E0]; simpl; msteps.
  - eexists. split; [reflexivity|]. simpl. split_and!; try done. rewrite deadlines_app. simpl.
    by rewrite E0, !Z.add_0_r.
  - assert (0 ≤ t_expires s timer < 2 ^ 32) by (apply Hr; set_solver).
    assert (0 ≤ t_expires s n < 2 ^ 32) by (apply Hr; set_solver).
    specialize (Hb n eq_refl). eexists. split; [reflexivity|]. simpl. split_and!; try done.
    + split; [done|]. intros t Ht. simpl. rewrite u32_small by lia.
      destruct (decide (n = t)) as [<-|]; [rewrite upd_eq; lia|]. rewrite upd_ne by done. by apply Hr'.
    + rewrite u32_small by lia. rewrite deadlines_app. simpl. rewrite upd_eq.
      apply NoDup_app in Hnd' as (_ & Hdis & [Hnl _]%NoDup_cons).
      rewrite (sum_ex_ext (t_expires s)), (deadlines_ext (t_expires s)); cycle 1.
      { intros t Ht. rewrite upd_ne; [done|]. intros <-. by eapply Hdis; [done|left]. }
      { intros t Ht. rewrite upd_ne; [done|]. intros <-. by eapply Hdis; [done|left]. }
      replace (0 + sum_ex (t_expires s) l1 + (t_expires s n + t_expires s timer))
        with (sum_ex (t_expires s) l1 + t_expires s timer + t_expires s n) by lia.
      do 2 f_equal. apply deadlines_ext. intros t Ht. rewrite upd_ne; [done|]. by intros <-.
Qed.

(** ** Waking a process *)

(** [p] sleeps interruptibly and may enter the run pool. *)
Record wakeable (s : sched) (base : Z) (t : tree Z) (p : Z) : Prop := Wakeable {
  wk_state : p_state (procs s p) = PROC_SLEEPING;
  wk_wait : truth (Z.land (p_wait_state (procs s p)) WT_INTERRUPTED) = true;
  wk_out : p ∉ elems t;
  wk_idle : p ≠ idleproc s;
  wk_current : p ≠ current s;
  wk_window : srank s base p ≤ BIG_STRIDE;
  wk_slice : 0 ≤ p_time_slice (procs s p);
}.

(** [p] sleeps and may enter the run pool. *)
Record sleeper (s : sched) (base : Z) (t : tree Z) (p : Z) : Prop := Sleeper {
  sl_state : p_state (procs s p) = PROC_SLEEPING;
  sl_out : p ∉ elems t;
  sl_idle : p ≠ idleproc s;
  sl_current : p ≠ current s;
  sl_window : srank s base p ≤ BIG_STRIDE;
  sl_slice : 0 ≤ p_time_slice (procs s p);
}.

(** Waking a process that is neither runnable nor a zombie. *)
Lemma wakeup_idle_spec s base t p :
  rq_inv s base t → p_state (procs s p) ≠ PROC_ZOMBIE → p_state (procs s p) ≠ PROC_RUNNABLE →
  p ∉ elems t → p ≠ idleproc s → p ≠ current s → srank s base p ≤ BIG_STRIDE → 0 ≤ p_time_slice (procs s p) →
  Z.of_nat (length (elems t)) + 1 < 2 ^ 32 →
  ∃ t' s', wakeup_proc p s = Ok (tt, s') ∧ rq_inv s' base t' ∧ elems t' ≡ₚ p :: elems t ∧
    same_elsewhere [p] s s' ∧ p_wait_state (procs s' p) = 0.
Proof.
  intros Hi Hnz Hnr Hout Hid Hcur Hwin Hsl Hroom. unfold wakeup_proc, field, store.
  rewrite bind_asserts by by rewrite bool_decide_eq_false_2. msteps. rewrite bool_decide_eq_false_2 by done.
  simpl. msteps. simpl.
  destruct (Z.eqb_spec p (current s)) as [|_]; [done|]. simpl. unfold sched_class_enqueue. msteps. simpl.
  destruct (Z.eqb_spec p (idleproc s)) as [|_]; [done|]. simpl.
  set (s1 := upd_proc p (set_wait_state 0) (upd_proc p (set_state PROC_RUNNABLE) s)).
  assert (∀ q, q ≠ p → procs s1 q = procs s q) as Hq.
  { intros q Hq. unfold s1. simpl. by rewrite !upd_ne. }
  assert (procs s1 p = set_wait_state 0 (set_state PROC_RUNNABLE (procs s p))) as Hp.
  { unfold s1. simpl. by rewrite !upd_eq. }
  destruct (stride_enqueue_spec s1 base t p) as (t' & s' & E & Hi' & Hperm & Hels & _ & _ & Hw);
    [|done|done| |by rewrite Hp|by rewrite Hp|done|].
  - apply (rq_inv_frame s); [done..| |done]. intros q Hin. rewrite Hq; [done|]. by intros ->.
  - unfold srank. by rewrite Hp.
  - exists t', s'. split_and!; [done|done|done| |by rewrite Hw, Hp].
    destruct Hels as [Hels Hrest]. split; [|done]. intros q Hn. rewrite Hels by done. apply Hq. set_solver.
Qed.

Lemma wakeup_sleeper_spec s base t p :
  rq_inv s base t → sleeper s base t p → Z.of_nat (length (elems t)) + 1 < 2 ^ 32 →
  ∃ t' s', wakeup_proc p s = Ok (tt, s') ∧ rq_inv s' base t' ∧ elems t' ≡ₚ p :: elems t ∧
    same_elsewhere [p] s s' ∧ p_wait_state (procs s' p) = 0.
Proof. intros Hi [Hst ? ? ? ? ?]. apply wakeup_idle_spec; try done; by rewrite Hst. Qed.

Lemma wakeup_proc_spec s base t p :
  rq_inv s base t → wakeable s base t p → Z.of_nat (length (elems t)) + 1 < 2 ^ 32 →
  ∃ t' s', wakeup_proc p s = Ok (tt, s') ∧ rq_inv s' base t' ∧ elems t' ≡ₚ p :: elems t ∧
    same_elsewhere [p] s s' ∧ p_wait_state (procs s' p) = 0.
Proof. intros Hi [? ? ? ? ? ? ?]. by apply wakeup_sleeper_spec. Qed.

(** ** The tick *)

Lemma wakeable_other s s' base t t' p q :
  wakeable s base t q → same_elsewhere [p] s s' → elems t' ≡ₚ p :: elems t → q ≠ p →
  wakeable s' base t' q.
Proof.
  intros [Hst Hwt Hout Hid Hcur Hwin Hsl] (Hp & _ & Hc & Hi & _) Hperm Hne.
  assert (procs s' q = procs s q) as E by (apply Hp; set_solver).
  split; unfold srank in *; rewrite ?E, ?Hc, ?Hi; try done. rewrite Hperm. set_solver.
Qed.

(** One round of the loop: the process of the timer is woken, the timer leaves
    the list, and the loop goes on with the next timer, if any. *)
Lemma expire_one s base t x l :
  rq_inv s base t → timers_inv s (x :: l) → t_expires s x = 0 → wakeable s base t (t_proc s x) →
  Z.of_nat (length (elems t)) + 1 < 2 ^ 32 →
  ∃ t' s', (∀ fuel, expire_walk (S fuel) x s =
      match head l with None => Ok (tt, s') | Some y => expire_walk fuel y s' end) ∧
    rq_inv s' base t' ∧ elems t' ≡ₚ t_proc s x :: elems t ∧ timers_inv s' l ∧
    (∀ p, p ≠ t_proc s x → procs s' p = procs s p) ∧ t_expires s' = t_expires s ∧
    t_proc s' = t_proc s ∧ current s' = current s ∧ idleproc s' = idleproc s.
Proof.
  intros Hi Ht Hx Hwk Hroom.
  destruct (wakeup_proc_spec s base t (t_proc s x)) as (t1 & s1 & E1 & Hi1 & Hp1 & Hels1 & _); [done..|].
  pose proof Hels1 as (Hpr1 & _ & Hc1 & Hid1 & Hte1 & Htp1 & Htl1 & _).
  assert (timers_inv s1 ([] ++ x :: l)) as Ht1 by (destruct Ht; split; rewrite ?Htl1, ?Hte1; done).
  destruct (del_timer_spec s1 [] x l Ht1) as
    (s2 & E2 & Ht2 & _ & _ & Hpr2 & Htp2 & Hc2 & Hid2 & Hrp2 & Hrh2 & Hpn2 & Hmx2 & Hte2).
  { intros z Hz. rewrite Hte1, Hx, Z.add_0_r. apply (tm_range _ _ Ht).
    destruct l; simpl in *; simplify_eq. set_solver. }
  exists t1, s2. split_and!; [|by apply (rq_inv_frame s1); [..|intros; rewrite Hpr2|]|done|done| |..]; try congruence.
  - intros fuel. cbn [expire_walk]. rewrite bind_gets, Hx. simpl. unfold field. msteps.
    rewrite (wk_wait _ _ _ _ Hwk). pose proof (tm_links _ _ Ht) as Hd.
    rewrite (list_next_dll _ _ [] _ _ Hd).
    assert (when (negb (p_wait_state (procs s (t_proc s x)) =? 0)) (assert true) s = Ok (tt, s)) as Ew
      by by destruct (negb _).
    rewrite (bind_ok _ _ _ _ _ Ew), (bind_ok _ _ _ _ _ E1), (bind_ok _ _ _ _ _ E2). by destruct l.
  - intros p Hp. rewrite Hpr2. apply Hpr1. set_solver.
  - rewrite Hte2; [done|congruence].
Qed.

(** The timers in front of the list with no ticks left are taken off it, one
    after the other, and their processes are woken. *)
Lemma expire_walk_spec s base t x ex rest fuel :
  rq_inv s base t → timers_inv s (x :: ex ++ rest) →
  t_expires s x = 0 → (∀ y, y ∈ ex → t_expires s y = 0) →
  (∀ y, head rest = Some y → t_expires s y ≠ 0) →
  (∀ y, y ∈ x :: ex → wakeable s base t (t_proc s y)) → NoDup (t_proc s <$> x :: ex) →
  Z.of_nat (length (elems t) + length (x :: ex)) < 2 ^ 32 → (length ex + 1 < fuel)%nat →
  ∃ t' s', expire_walk fuel x s = Ok (tt, s') ∧ rq_inv s' base t' ∧
    elems t' ≡ₚ (t_proc s <$> x :: ex) ++ elems t ∧ timers_inv s' rest ∧
    t_expires s' = t_expires s ∧ current s' = current s ∧
    idleproc s' = idleproc s ∧ t_proc s' = t_proc s ∧
    (∀ p, p ∉ t_proc s <$> x :: ex → procs s' p = procs s p).
Proof.
  revert s t x fuel. induction ex as [|y ex IH]; intros s t x fuel Hi Ht Hx Hex Hrest Hwk Hnd Hlen Hf;
    (destruct fuel as [|fuel]; simpl in Hf; [lia|]); cbn [length] in Hlen.
  - destruct (expire_one s base t x rest) as (t1 & s1 & E1 & Hi1 & Hp1 & Ht1 & Hpr1 & Hte1 & Htp1 & Hc1 & Hid1);
      [done|done|done|apply Hwk; set_solver|lia|].
    exists t1, s1. rewrite E1. split_and!; try done; [|set_solver].
    destruct (head rest) as [y|] eqn:Ey; [|done]. destruct fuel as [|fuel]; [lia|].
    cbn [expire_walk]. rewrite bind_gets, Hte1. specialize (Hrest y eq_refl).
    destruct (Z.eqb_spec (t_expires s y) 0); [done|]. done.
  - destruct (expire_one s base t x (y :: ex ++ rest)) as
      (t1 & s1 & E1 & Hi1 & Hp1 & Ht1 & Hpr1 & Hte1 & Htp1 & Hc1 & Hid1);
      [done|done|done|apply Hwk; set_solver|lia|].
    rewrite fmap_cons in Hnd. apply NoDup_cons in Hnd as [Hnx Hnd].
    destruct (IH s1 t1 y fuel) as (t' & s' & E & Hi' & Hp' & Ht' & Hte' & Hc' & Hid' & Htp' & Hpr');
      rewrite ?Htp1, ?Hte1; try done.
    + apply Hex. set_solver.
    + intros z Hz. apply Hex. set_solver.
    + intros z Hz.
      assert (t_proc s z ≠ t_proc s x) as Hzx.
      { intros Heq. apply Hnx. rewrite <-Heq. by apply (list_elem_of_fmap_2 (t_proc s)). }
      destruct (Hwk z ltac:(set_solver)) as [? ? ? ? ? ? ?].
      split; unfold srank in *; rewrite ?Hpr1, ?Hid1, ?Hc1; try done. rewrite Hp1. set_solver.
    + rewrite Hp1. cbn [length]. lia.
    + lia.
    + exists t', s'. rewrite E1. cbn [head].
      split_and!; [done|done| |done|congruence|congruence|congruence|congruence|].
      * rewrite Hp', Htp1, Hp1. rewrite (fmap_cons _ x). by rewrite <-Permutation_middle.
      * intros p Hp. rewrite fmap_cons in Hp. apply not_elem_of_cons in Hp as [? ?].
        rewrite Hpr'; [by apply Hpr1|]. by rewrite Htp1.
Qed.

(** ** The properties of the timer list *)

Lemma timers_nodup s ts : timers_inv s ts → NoDup ts.
Proof.
  intros [[Hnd _] _]. apply NoDup_cons in Hnd as [_ Hnd]. by apply NoDup_fmap_1 in Hnd.
Qed.

Lemma rq_inv_upd_out s base t p f : (p ∉ elems t) → rq_inv s base t → rq_inv (upd_proc p f s) base t.
Proof.
  intros Hp Hi. apply (rq_inv_frame s); [done..| |done]. intros q Hq. simpl.
  rewrite upd_ne; [done|by intros ->].
Qed.

Lemma proc_tick_spec s base t p :
  rq_inv s base t → (p ∉ elems t) →
  ∃ s', sched_class_proc_tick p s = Ok (tt, s') ∧ rq_inv s' base t ∧ t_expires s' = t_expires s ∧
    timer_link s' = timer_link s ∧ t_proc s' = t_proc s ∧ current s' = current s.
Proof.
  intros Hi Hp. unfold sched_class_proc_tick, field, store. msteps. destruct (p =? idleproc s); simpl.
  - eexists. split; [reflexivity|]. split_and!; [by apply rq_inv_upd_out|done..].
  - unfold stride_proc_tick, field, store, when. msteps.
    destruct (0 <? p_time_slice (procs s p)); msteps;
      match goal with |- context [if ?c then _ else _] => destruct c end;
      (eexists; split; [reflexivity|]); (split_and!; [|done..]);
      repeat (apply rq_inv_upd_out; [done|]); done.
Qed.

(** One tick later. *)
Definition tick (x : Z * Z) : Z * Z := (x.1, x.2 - 1).

Lemma deadlines_tick ex acc ts : deadlines ex (acc - 1) ts = tick <$> deadlines ex acc ts.
Proof.
  revert acc. induction ts as [|t ts IH]; intros acc; simpl; [done|]. unfold tick at 1. simpl.
  rewrite <-IH. f_equal; [f_equal|f_equal]; lia.
Qed.

Lemma deadlines_ge ex acc ts x :
  (∀ t, t ∈ ts → 0 ≤ ex t) → x ∈ deadlines ex acc ts → acc ≤ x.2.
Proof.
  revert acc. induction ts as [|t ts IH]; intros acc Hx; simpl; [set_solver|].
  assert (0 ≤ ex t) by (apply Hx; set_solver).
  intros [->|Hin]%elem_of_cons; simpl; [lia|]. apply IH in Hin; [lia|]. set_solver.
Qed.

Lemma filter_all {A} (P : A → Prop) `{!∀ x, Decision (P x)} (l : list A) :
  (∀ x, x ∈ l → P x) → filter P l = l.
Proof.
  induction l as [|x l IH]; intros Hall; [done|]. rewrite filter_cons_True by (apply Hall; set_solver).
  rewrite IH; [done|]. set_solver.
Qed.

(** The timers that are due at [acc] are in front. *)
Lemma deadlines_due ex acc ts :
  (∀ t, t ∈ ts → 0 ≤ ex t) → ∃ due rest, ts = due ++ rest ∧ (∀ t, t ∈ due → ex t = 0) ∧
    (∀ t, head rest = Some t → ex t ≠ 0) ∧
    (filter (λ x, x.2 = acc) (deadlines ex acc ts)).*1 = due ∧
    filter (λ x, x.2 ≠ acc) (deadlines ex acc ts) = deadlines ex acc rest.
Proof.
  revert acc. induction ts as [|t ts IH]; intros acc Hx;
    [exists [], []; split_and!; done || set_solver|].
  assert (0 ≤ ex t) by (apply Hx; set_solver). destruct (decide (ex t = 0)) as [E|E].
  - destruct (IH acc) as (a & b & -> & Ha & Hb & Hf & Hg); [set_solver|].
    exists (t :: a), b. split_and!; [done|set_solver|done|..]; simpl; rewrite E, Z.add_0_r.
    + rewrite filter_cons_True by done. by rewrite fmap_cons, Hf.
    + rewrite filter_cons_False by (simpl; lia). done.
  - exists [], (t :: ts). split_and!; [done|set_solver|naive_solver|..].
    + rewrite filter_none; [done|]. intros x Hin. simpl in Hin.
      apply elem_of_cons in Hin as [->|Hin]; simpl; [lia|].
      apply deadlines_ge in Hin; [lia|]. set_solver.
    + apply filter_all. intros x Hin. simpl in Hin. apply elem_of_cons in Hin as [->|Hin]; simpl; [lia|].
      apply deadlines_ge in Hin; [lia|]. set_solver.
Qed.

(** [run_timer_list] is one tick: every deadline comes one tick closer, and
    exactly the timers that are due leave the list and wake their processes. *)
Lemma run_timer_list_spec s base t ts fuel :
  let ds := deadlines (t_expires s) 0 ts in
  let due := (filter (λ x, x.2 = 1) ds).*1 in
  rq_inv s base t → timers_inv s ts → (∀ x, x ∈ ds → 1 ≤ x.2) →
  (∀ y, y ∈ due → wakeable s base t (t_proc s y)) → NoDup (t_proc s <$> due) →
  (current s ∉ elems t) → Z.of_nat (length (elems t) + length due) < 2 ^ 32 →
  (length ts < fuel)%nat →
  ∃ t' s' ts', run_timer_list fuel s = Ok (tt, s') ∧ rq_inv s' base t' ∧ timers_inv s' ts' ∧
    elems t' ≡ₚ (t_proc s <$> due) ++ elems t ∧
    deadlines (t_expires s') 0 ts' = tick <$> filter (λ x, x.2 ≠ 1) ds.
Proof.
  intros ds due Hi Ht Hds Hwk Hnd Hcur Hlen Hf. unfold run_timer_list. msteps.
  rewrite (list_next_head _ _ _ (tm_links _ _ Ht)). destruct ts as [|x l]; simpl default.
  { destruct (proc_tick_spec s base t (current s) Hi Hcur) as (s' & E & Hi' & Hte & Htl & _).
    rewrite bind_ret, bind_gets. exists t, s', []. split_and!; [done|done| |done|done].
    destruct Ht. split; [by rewrite Htl|set_solver]. }
  assert (∀ y, y ∈ x :: l → 0 ≤ t_expires s y) as Hnn by (intros y Hy; apply (tm_range _ _ Ht) in Hy; lia).
  assert (1 ≤ t_expires s x) as Hx1 by (apply (Hds (x, 0 + t_expires s x)); left).
  pose proof (tm_range _ _ Ht x ltac:(set_solver)).
  pose proof (timers_nodup _ _ Ht) as [Hxl Hndl]%NoDup_cons.
  rewrite bind_assoc, bind_asserts by lia. msteps. rewrite u32_small by lia.
  set (s1 := set_t_expires x (t_expires s x - 1) s).
  assert (∀ y, y ∈ l → t_expires s1 y = t_expires s y) as Hl1.
  { intros y Hy. unfold s1. simpl. rewrite upd_ne; [done|]. by intros ->. }
  assert (timers_inv s1 (x :: l)) as Ht1.
  { destruct Ht. split; [done|]. unfold s1. simpl. intros y Hy.
    destruct (decide (x = y)) as [<-|]; [rewrite upd_eq; lia|]. rewrite upd_ne by done. auto. }
  assert (t_expires s1 x = t_expires s x - 1) as Hx1' by (unfold s1; simpl; by rewrite upd_eq).
  assert (rq_inv s1 base t) as Hi1 by by apply (rq_inv_frame s).
  assert (∀ s2 t2 ts2, expire_walk fuel x s1 = Ok (tt, s2) → rq_inv s2 base t2 → timers_inv s2 ts2 →
    (current s2 ∉ elems t2) → elems t2 ≡ₚ (t_proc s <$> due) ++ elems t →
    deadlines (t_expires s2) 0 ts2 = tick <$> filter (λ x, x.2 ≠ 1) ds →
    ∃ t' s' ts', (expire_walk fuel x;; cur ← gets current; sched_class_proc_tick cur) s1 = Ok (tt, s') ∧
      rq_inv s' base t' ∧ timers_inv s' ts' ∧ elems t' ≡ₚ (t_proc s <$> due) ++ elems t ∧
      deadlines (t_expires s') 0 ts' = tick <$> filter (λ x, x.2 ≠ 1) ds) as Hfin.
  { intros s2 t2 ts2 E2 Hi2 Ht2 Hc2 Hp2 Hd2. rewrite (bind_ok _ _ _ _ _ E2), bind_gets.
    destruct (proc_tick_spec s2 base t2 (current s2) Hi2 Hc2) as (s' & E & Hi' & Hte & Htl & _).
    exists t2, s', ts2. split_and!; [done|done| |done|by rewrite Hte].
    destruct Ht2. split; [by rewrite Htl|by rewrite Hte]. }
  assert (ds = (x, t_expires s x) :: deadlines (t_expires s) (t_expires s x) l) as Eds by done.
  unfold due in *. rewrite Eds in *. clear ds Eds due. destruct (decide (t_expires s x = 1)) as [E1|E1].
  - rewrite E1 in *. rewrite filter_cons_True, fmap_cons in Hwk, Hnd, Hlen, Hfin |- * by done.
    rewrite filter_cons_False in Hfin |- * by (simpl; lia).
    destruct (deadlines_due (t_expires s) 1 l) as (dl & rest & -> & Hdl & Hrest & Hf1 & Hf2); [set_solver|].
    rewrite Hf1 in *. rewrite Hf2 in *.
    destruct (expire_walk_spec s1 base t x dl rest fuel) as (t' & s' & E & Hi' & Hp' & Ht' & Hte' & Hc' & _); try done.
    + intros y Hy. rewrite Hl1 by set_solver. by apply Hdl.
    + intros y Hy. rewrite Hl1; [by apply Hrest|]. destruct rest; simpl in Hy; simplify_eq. set_solver.
    + intros y Hy. by destruct (Hwk y Hy).
    + simpl in Hf. rewrite length_app in Hf. lia.
    + apply (Hfin s' t' rest); try done.
      * rewrite Hc', Hp'. apply not_elem_of_app. split; [|done].
        intros (y & Hy & Hin)%list_elem_of_fmap. by destruct (Hwk y Hin).
      * rewrite Hte', <-deadlines_tick. apply deadlines_ext. intros y Hy. apply Hl1. set_solver.
  - assert (∀ z, z ∈ (x, t_expires s x) :: deadlines (t_expires s) (t_expires s x) l → z.2 ≠ 1) as Hne.
    { intros z [->|Hz]%elem_of_cons; [done|]. apply deadlines_ge in Hz; [lia|]. set_solver. }
    rewrite filter_none in Hwk, Hnd, Hlen, Hfin |- * by (intros z Hz ?; by eapply Hne).
    rewrite filter_all in Hfin |- * by done.
    apply (Hfin s1 t (x :: l)); try done.
    + destruct fuel; [simpl in Hf; lia|]. cbn [expire_walk]. rewrite bind_gets, Hx1'.
      destruct (Z.eqb_spec (t_expires s x - 1) 0); [lia|done].
    + cbn [deadlines]. rewrite Hx1', fmap_cons, Z.add_0_l. f_equal.
      rewrite <-deadlines_tick. by apply deadlines_ext.
Qed.

(** [add_timer] returns and inserts the timer behind all timers that are due
    no later; it gets the deadline it asked for and no other deadline changes,
    although the list only stores differences. *)
Theorem add_timer_keeps_deadlines s ts timer fuel :
  timers_inv s ts → (timer ∉ ts) → list_empty (timer_link s) (Elem timer) = true →
  0 < t_expires s timer < 2 ^ 32 → (length ts < fuel)%nat →
  ∃ ts' s', add_timer fuel timer s = Ok (tt, s') ∧ timers_inv s' ts' ∧ ts' ≡ₚ timer :: ts ∧
    deadlines (t_expires s') 0 ts' =
      insert_deadline (timer, t_expires s timer) (deadlines (t_expires s) 0 ts).
Proof. apply add_timer_spec. Qed.

(** A system with two timers: 10 expires after 4 ticks, 11 one tick later. *)
Definition example_timers : sched :=
  let s := example_sched (λ _, 0) in
  Sched (procs s) (run_list s) (proc_num s) (max_time_slice s) (run_pool s) (run_heap s) (current s) (idleproc s)
    (λ t, if t =? 10 then 4 else if t =? 11 then 1 else 3) (λ t, t)
    (λ e, match e with
          | Head => ListEntry (Elem 11) (Elem 10)
          | Elem t => if t =? 10 then ListEntry Head (Elem 11)
              else if t =? 11 then ListEntry (Elem 10) Head else ListEntry (Elem t) (Elem t)
          end).

Lemma example_timers_inv : timers_inv example_timers [10; 11].
Proof.
  split.
  - split; [|simpl; tauto]. apply NoDup_ListNoDup. repeat constructor; set_solver.
  - intros t [->|[->|[]%elem_of_nil]%elem_of_cons]%elem_of_cons; simpl; lia.
Qed.

Lemma add_timer_keeps_deadlines_witness :
  ∃ ts' s', add_timer 3 12 example_timers = Ok (tt, s') ∧ timers_inv s' ts' ∧
    deadlines (t_expires s') 0 ts' = [(12, 3); (10, 4); (11, 5)].
Proof.
  destruct (add_timer_keeps_deadlines example_timers [10; 11] 12 3) as (ts' & s' & E & Hi & _ & Hd).
  - apply example_timers_inv.
  - set_solver.
  - reflexivity.
  - simpl. lia.
  - simpl. lia.
  - exists ts', s'. split_and!; [exact E|exact Hi|exact Hd].
Defined.

(** [del_timer] takes a timer off the list and hands its ticks to its
    successor: every other deadline stays what it was. *)
Theorem del_timer_keeps_deadlines s l1 timer l2 :
  timers_inv s (l1 ++ timer :: l2) →
  (∀ n, head l2 = Some n → t_expires s n + t_expires s timer < 2 ^ 32) →
  ∃ s', del_timer timer s = Ok (tt, s') ∧ timers_inv s' (l1 ++ l2) ∧
    deadlines (t_expires s') 0 (l1 ++ l2) =
      filter (λ x, x.1 ≠ timer) (deadlines (t_expires s) 0 (l1 ++ timer :: l2)) ∧
    list_empty (timer_link s') (Elem timer) = true.
Proof.
  intros Ht Hb. destruct (del_timer_spec s l1 timer l2 Ht Hb) as (s' & E & Ht' & Hd & He & _).
  exists s'. split_and!; [done|done| |done]. rewrite Hd, deadlines_app, filter_app. simpl tail.
  pose proof (timers_nodup _ _ Ht) as Hnd. rewrite <-Permutation_middle in Hnd.
  apply NoDup_cons in Hnd as [Hni _].
  assert (∀ ex acc (l : list Z), (timer ∉ l) →
    filter (λ x : Z * Z, x.1 ≠ timer) (deadlines ex acc l) = deadlines ex acc l) as Hk.
  { intros ex acc l. revert acc. induction l as [|y l IH]; intros acc Hl; simpl; [done|].
    rewrite filter_cons_True by (simpl; set_solver). rewrite IH; [done|set_solver]. }
  rewrite Hk by set_solver. f_equal. simpl deadlines. rewrite filter_cons_False by (simpl; naive_solver).
  rewrite Hk by set_solver. done.
Qed.

Lemma del_timer_keeps_deadlines_witness :
  ∃ s', del_timer 10 example_timers = Ok (tt, s') ∧ deadlines (t_expires s') 0 [11] = [(11, 5)].
Proof.
  destruct (del_timer_keeps_deadlines example_timers [] 10 [11]) as (s' & E & _ & Hd & _).
  - apply example_timers_inv.
  - intros n [= <-]. simpl. lia.
  - exists s'. split; [exact E|exact Hd].
Defined.

(** C27. [run_timer_list] is one tick of all timers: every deadline comes one tick
    closer, and exactly the timers whose deadline it is leave the list and have
    their processes woken and put into the run pool.  The processes of the timers
    that are due are different ones, each in an interruptible sleep (as [do_sleep]
    leaves it), and their strides are in the window of the run pool. *)
Theorem run_timer_list_ticks s base t ts fuel :
  let ds := deadlines (t_expires s) 0 ts in
  let due := (filter (λ x, x.2 = 1) ds).*1 in
  rq_inv s base t → timers_inv s ts → (∀ x, x ∈ ds → 1 ≤ x.2) →
  (∀ y, y ∈ due → wakeable s base t (t_proc s y)) → NoDup (t_proc s <$> due) →
  (current s ∉ elems t) → Z.of_nat (length (elems t) + length due) < 2 ^ 32 →
  (length ts < fuel)%nat →
  ∃ t' s' ts', run_timer_list fuel s = Ok (tt, s') ∧ rq_inv s' base t' ∧ timers_inv s' ts' ∧
    elems t' ≡ₚ (t_proc s <$> due) ++ elems t ∧
    deadlines (t_expires s') 0 ts' = tick <$> filter (λ x, x.2 ≠ 1) ds.
Proof. apply run_timer_list_spec. Qed.

(** The same list one tick before timer 10 is due; process 10 sleeps until then. *)
Definition due_timers : sched :=
  let s := example_timers in
  Sched (upd 10 (set_wait_state WT_TIMER (set_state PROC_SLEEPING (example_proc 0))) (procs s)) (run_list s) (proc_num s)
    (max_time_slice s) (run_pool s) (run_heap s) (current s) (idleproc s) (λ _, 1) (t_proc s) (timer_link s).

Lemma run_timer_list_ticks_witness :
  ∃ t' s' ts', run_timer_list 3 due_timers = Ok (tt, s') ∧ rq_inv s' 0 t' ∧ elems t' ≡ₚ [10] ∧
    deadlines (t_expires s') 0 ts' = [(11, 1)].
Proof.
  destruct (run_timer_list_ticks due_timers 0 Leaf [10; 11] 3) as (t' & s' & ts' & E & Hi & _ & Hp & Hd).
  - apply (rq_inv_frame (example_sched (λ _, 0))); try reflexivity; [|apply example_sched_inv]. simpl. set_solver.
  - split; [apply example_timers_inv|]. simpl. lia.
  - simpl. intros x [->|[->|[]%elem_of_nil]%elem_of_cons]%elem_of_cons; simpl; lia.
  - simpl. intros y [->|[]%elem_of_nil]%elem_of_cons. split; try by vm_compute. simpl. set_solver.
  - vm_compute. apply NoDup_singleton.
  - vm_compute. set_solver.
  - vm_compute. reflexivity.
  - simpl. lia.
  - exists t', s', ts'. split_and!; [exact E|exact Hi|exact Hp|exact Hd].
Defined.
