(* ===== verification/CString.v ===== *)
(** * libs/string.c, libs/hash.c and libs/rand.c

    Memory is a function from addresses to bytes; a [char] is a byte (it is
    unsigned on RISC-V).  Loops take the fuel of their callers; the theorems
    give the fuel that is enough. *)

From S2P Require Import Prelude.

Definition mem : Type := Z → Z.

(** [*p] and [*p = v] *)
Definition load (p : Z) : M mem Z := gets (λ m, m p).
Definition put (p v : Z) : M mem unit := modify (upd p v).

Fixpoint strlen_loop (fuel : nat) (s cnt : Z) : M mem Z :=
  match fuel with
  | O => out_of_fuel
  | S fuel' =>
    c ← load s;
    if negb (c =? 0) then strlen_loop fuel' (s + 1) (u64 (cnt + 1)) else mret cnt
  end.

Definition strlen (fuel : nat) (s : Z) : M mem Z := strlen_loop fuel s 0.

(** At most [len] rounds: [n] is [len - cnt]. *)
Fixpoint strnlen_loop (n : nat) (s cnt : Z) : M mem Z :=
  match n with
  | O => mret cnt
  | S n' =>
    c ← load s;
    if negb (c =? 0) then strnlen_loop n' (s + 1) (u64 (cnt + 1)) else mret cnt
  end.

Definition strnlen (s len : Z) : M mem Z := strnlen_loop (Z.to_nat len) s 0.

Fixpoint strcpy_loop (fuel : nat) (p src : Z) : M mem unit :=
  match fuel with
  | O => out_of_fuel
  | S fuel' =>
    c ← load src;
    put p c;;
    if negb (c =? 0) then strcpy_loop fuel' (p + 1) (src + 1) else mret tt
  end.

Definition strcpy (fuel : nat) (dst src : Z) : M mem Z := strcpy_loop fuel dst src;; mret dst.

Fixpoint strncpy_loop (n : nat) (p src : Z) : M mem unit :=
  match n with
  | O => mret tt
  | S n' =>
    c ← load src;
    put p c;;
    strncpy_loop n' (p + 1) (if negb (c =? 0) then src + 1 else src)
  end.

Definition strncpy (dst src len : Z) : M mem Z := strncpy_loop (Z.to_nat len) dst src;; mret dst.

Definition strcat (fuel : nat) (dst src : Z) : M mem Z :=
  n ← strlen fuel dst;
  strcpy fuel (dst + n) src.

Fixpoint strcmp (fuel : nat) (s1 s2 : Z) : M mem Z :=
  match fuel with
  | O => out_of_fuel
  | S fuel' =>
    c1 ← load s1;
    c2 ← load s2;
    if (negb (c1 =? 0) && (c1 =? c2))%bool then strcmp fuel' (s1 + 1) (s2 + 1)
    else mret (u8 c1 - u8 c2)
  end.

Fixpoint strncmp_loop (n : nat) (s1 s2 : Z) : M mem Z :=
  match n with
  | O => mret 0
  | S n' =>
    c1 ← load s1;
    c2 ← load s2;
    if (negb (c1 =? 0) && (c1 =? c2))%bool then strncmp_loop n' (s1 + 1) (s2 + 1)
    else mret (u8 c1 - u8 c2)
  end.

Definition strncmp (s1 s2 n : Z) : M mem Z := strncmp_loop (Z.to_nat n) s1 s2.

Fixpoint strchr (fuel : nat) (s c : Z) : M mem (option Z) :=
  match fuel with
  | O => out_of_fuel
  | S fuel' =>
    b ← load s;
    if negb (b =? 0) then (if b =? c then mret (Some s) else strchr fuel' (s + 1) c)
    else mret None
  end.

Fixpoint strfind (fuel : nat) (s c : Z) : M mem Z :=
  match fuel with
  | O => out_of_fuel
  | S fuel' =>
    b ← load s;
    if negb (b =? 0) then (if b =? c then mret s else strfind fuel' (s + 1) c)
    else mret s
  end.

(** *** strtol *)

(** [while ( *s == ' ' || *s == '\t') s ++] *)
Fixpoint skip_space (fuel : nat) (s : Z) : M mem Z :=
  match fuel with
  | O => out_of_fuel
  | S fuel' =>
    c ← load s;
    if ((c =? 32) || (c =? 9))%bool then skip_space fuel' (s + 1) else mret s
  end.

(** The value of a digit: ['0'..'9'], ['a'..'z'], ['A'..'Z']. *)
Definition digit (c : Z) : option Z :=
  if ((48 <=? c) && (c <=? 57))%bool then Some (c - 48)
  else if ((97 <=? c) && (c <=? 122))%bool then Some (c - 97 + 10)
  else if ((65 <=? c) && (c <=? 90))%bool then Some (c - 65 + 10)
  else None.

Fixpoint strtol_digits (fuel : nat) (base s val : Z) : M mem (Z * Z) :=
  match fuel with
  | O => out_of_fuel
  | S fuel' =>
    c ← load s;
    match digit c with
    | None => mret (val, s)
    | Some dig =>
      if base <=? dig then mret (val, s)
      else strtol_digits fuel' base (s + 1) (s64 (val * base + dig))
    end
  end.

(** The result is the value and [endptr]. *)
Definition strtol (fuel : nat) (s base : Z) : M mem (Z * Z) :=
  s ← skip_space fuel s;
  c ← load s;
  let '(neg, s) := (if c =? 43 then (false, s + 1) else if c =? 45 then (true, s + 1) else (false, s)) : bool * Z in
  c0 ← load s;
  c1 ← load (s + 1);
  let '(s, base) :=
    (if (((base =? 0) || (base =? 16)) && ((c0 =? 48) && (c1 =? 120)))%bool then (s + 2, 16)
     else if ((base =? 0) && (c0 =? 48))%bool then (s + 1, 8)
     else if base =? 0 then (s, 10) else (s, base)) : Z * Z in
  '(val, s) ← strtol_digits fuel base s 0;
  mret (if neg then s64 (- val) else val, s).

(** *** Blocks of memory *)

Fixpoint memset_loop (n : nat) (p c : Z) : M mem unit :=
  match n with
  | O => mret tt
  | S n' => put p c;; memset_loop n' (p + 1) c
  end.

Definition memset (s c n : Z) : M mem Z := memset_loop (Z.to_nat n) s (u8 c);; mret s.

(** [while (n -- > 0) *d ++ = *s ++] *)
Fixpoint copy_up (n : nat) (d s : Z) : M mem unit :=
  match n with
  | O => mret tt
  | S n' => c ← load s; put d c;; copy_up n' (d + 1) (s + 1)
  end.

(** [while (n -- > 0) *-- d = *-- s] *)
Fixpoint copy_down (n : nat) (d s : Z) : M mem unit :=
  match n with
  | O => mret tt
  | S n' => c ← load (s - 1); put (d - 1) c;; copy_down n' (d - 1) (s - 1)
  end.

Definition memmove (dst src n : Z) : M mem Z :=
  (if ((src <? dst) && (dst <? src + n))%bool then copy_down (Z.to_nat n) (dst + n) (src + n)
   else copy_up (Z.to_nat n) dst src);;
  mret dst.

Definition memcpy (dst src n : Z) : M mem Z := copy_up (Z.to_nat n) dst src;; mret dst.

Fixpoint memcmp_loop (n : nat) (s1 s2 : Z) : M mem Z :=
  match n with
  | O => mret 0
  | S n' =>
    c1 ← load s1;
    c2 ← load s2;
    if negb (c1 =? c2) then mret (u8 c1 - u8 c2) else memcmp_loop n' (s1 + 1) (s2 + 1)
  end.

Definition memcmp (v1 v2 n : Z) : M mem Z := memcmp_loop (Z.to_nat n) v1 v2.

(** *** hash.c *)

Definition GOLDEN_RATIO_PRIME_32 : Z := 0x9e370001.

Definition hash32 (val bits : Z) : Z := Z.shiftr (u32 (val * GOLDEN_RATIO_PRIME_32)) (32 - bits).

(** *** rand.c: the state is [next] *)

Definition RAND_MAX : Z := 2147483647.

Definition rand : M Z Z :=
  modify (λ next, Z.land (u64 (next * 0x5DEECE66D + 0xB)) (Z.shiftl 1 48 - 1));;
  next ← gets id;
  mret (Z.shiftr next 12 mod (RAND_MAX + 1)).

Definition srand (seed : Z) : M Z unit := modify (λ _, u32 seed).

(** ** Strings in memory *)

(** The bytes [l] are at [a]. *)
Fixpoint bytes_at (m : mem) (a : Z) (l : list Z) : Prop :=
  match l with
  | [] => True
  | c :: r => m a = c ∧ bytes_at m (a + 1) r
  end.

(** A C string: non-zero bytes and a terminating zero. *)
Definition cstr (m : mem) (a : Z) (l : list Z) : Prop :=
  bytes_at m a (l ++ [0]) ∧ Forall (λ c, 0 < c < 256) l.

Lemma bytes_at_app m a l1 l2 :
  bytes_at m a (l1 ++ l2) ↔ bytes_at m a l1 ∧ bytes_at m (a + Z.of_nat (length l1)) l2.
Proof.
  revert a. induction l1 as [|c l1 IH]; intros a; simpl; [rewrite Z.add_0_r; tauto|].
  rewrite IH. replace (a + 1 + Z.of_nat (length l1)) with (a + Z.of_nat (S (length l1))) by lia. tauto.
Qed.

Lemma bytes_at_frame m m' a l :
  (∀ p, a ≤ p < a + Z.of_nat (length l) → m' p = m p) → bytes_at m a l → bytes_at m' a l.
Proof.
  revert a. induction l as [|c l IH]; intros a Hf; simpl in *; [done|].
  intros [H1 H2]. split; [rewrite Hf; [done|lia]|]. apply IH; [|done]. intros p Hp. apply Hf. lia.
Qed.

Lemma strlen_loop_spec m a l fuel cnt :
  cstr m a l → (length l < fuel)%nat → 0 ≤ cnt → cnt + Z.of_nat (length l) < 2 ^ 64 →
  strlen_loop fuel a cnt m = Ok (cnt + Z.of_nat (length l), m).
Proof.
  revert a fuel cnt. induction l as [|c l IH]; intros a fuel cnt [Hb Hl] Hf Hc Hx;
    (destruct fuel as [|fuel]; simpl in Hf; [lia|]); simpl in Hb; destruct Hb as [Ha Hb];
    cbn [strlen_loop]; unfold load; rewrite bind_gets, Ha.
  - simpl. by rewrite Z.add_0_r.
  - apply Forall_cons in Hl as [Hc0 Hl]. destruct (Z.eqb_spec c 0); [lia|]. cbn [negb]. simpl in Hx.
    rewrite u64_small by lia. rewrite IH; [do 2 f_equal; simpl; lia|done|lia..].
Qed.

Lemma strcmp_spec m a b la lb fuel :
  cstr m a la → cstr m b lb → (length la < fuel)%nat →
  ∃ r, strcmp fuel a b m = Ok (r, m) ∧ (r = 0 ↔ la = lb).
Proof.
  revert a b lb fuel. induction la as [|c la IH]; intros a b lb fuel [Ha Hla] [Hb Hlb] Hf;
    (destruct fuel as [|fuel]; simpl in Hf; [lia|]); simpl in Ha; destruct Ha as [Ha Ha'];
    cbn [strcmp]; unfold load; rewrite !bind_gets, Ha.
  - simpl. exists (0 - u8 (m b)). split; [done|]. destruct lb as [|d lb]; simpl in Hb; destruct Hb as [-> _]; [done|].
    apply Forall_cons in Hlb as [Hd _]. unfold u8. rewrite Z.mod_small by lia. split; [lia|done].
  - apply Forall_cons in Hla as [Hc Hla]. destruct (Z.eqb_spec c 0); [lia|]. simpl.
    destruct lb as [|d lb]; simpl in Hb; destruct Hb as [-> Hb].
    + destruct (Z.eqb_spec c 0); [lia|]. eexists. split; [reflexivity|].
      unfold u8. rewrite !Z.mod_small by lia. split; [lia|done].
    + apply Forall_cons in Hlb as [Hd Hlb]. destruct (Z.eqb_spec c d) as [->|Hne].
      * destruct (IH (a + 1) (b + 1) lb fuel) as (r & E & Hr); [done|done|lia|].
        exists r. split; [done|]. rewrite Hr. naive_solver.
      * eexists. split; [reflexivity|]. unfold u8. rewrite !Z.mod_small by lia.
        split; [lia|]. intros [= -> _]. done.
Qed.

(** ** Copying *)

Lemma copy_up_spec m d s n :
  d ≤ s ∨ s + Z.of_nat n ≤ d →
  ∃ m', copy_up n d s m = Ok (tt, m') ∧
    ∀ p, m' p = if decide (d ≤ p < d + Z.of_nat n) then m (s + (p - d)) else m p.
Proof.
  revert m d s. induction n as [|n IH]; intros m d s Hov.
  - exists m. split; [done|]. intros p. rewrite decide_False by lia. done.
  - cbn [copy_up]. unfold load, put. msteps.
    destruct (IH (upd d (m s) m) (d + 1) (s + 1)) as (m' & E & Hm); [lia|].
    exists m'. split; [done|]. intros p. rewrite Hm. destruct (decide (d + 1 ≤ p < d + 1 + Z.of_nat n)).
    + rewrite decide_True by lia. rewrite upd_ne by lia. f_equal. lia.
    + destruct (decide (p = d)) as [->|].
      * rewrite upd_eq, decide_True by lia. f_equal. lia.
      * rewrite upd_ne by congruence. rewrite decide_False by lia. done.
Qed.

Lemma copy_down_spec m d s n :
  s ≤ d →
  ∃ m', copy_down n d s m = Ok (tt, m') ∧
    ∀ p, m' p = if decide (d - Z.of_nat n ≤ p < d) then m (s + (p - d)) else m p.
Proof.
  revert m d s. induction n as [|n IH]; intros m d s Hov.
  - exists m. split; [done|]. intros p. rewrite decide_False by lia. done.
  - cbn [copy_down]. unfold load, put. msteps.
    destruct (IH (upd (d - 1) (m (s - 1)) m) (d - 1) (s - 1)) as (m' & E & Hm); [lia|].
    exists m'. split; [done|]. intros p. rewrite Hm. destruct (decide (d - 1 - Z.of_nat n ≤ p < d - 1)).
    + rewrite decide_True by lia. rewrite upd_ne by lia. f_equal. lia.
    + destruct (decide (p = d - 1)) as [->|].
      * rewrite upd_eq, decide_True by lia. f_equal. lia.
      * rewrite upd_ne by congruence. rewrite decide_False by lia. done.
Qed.

Lemma memmove_spec m dst src n :
  0 ≤ n →
  ∃ m', memmove dst src n m = Ok (dst, m') ∧
    ∀ p, m' p = if decide (dst ≤ p < dst + n) then m (src + (p - dst)) else m p.
Proof.
  intros Hn. unfold memmove.
  destruct ((src <? dst) && (dst <? src + n))%bool eqn:E.
  - b2p. destruct (copy_down_spec m (dst + n) (src + n) (Z.to_nat n)) as (m' & Em & Hm); [lia|].
    exists m'. rewrite (bind_ok _ _ _ _ _ Em). split; [done|]. intros p. rewrite Hm, Z2Nat.id by done.
    replace (dst + n - n) with dst by lia. case_decide; [f_equal; lia|done].
  - destruct (copy_up_spec m dst src (Z.to_nat n)) as (m' & Em & Hm).
    { apply andb_false_iff in E as [E|E]; b2p; lia. }
    exists m'. rewrite (bind_ok _ _ _ _ _ Em). split; [done|]. intros p. rewrite Hm, Z2Nat.id by done. done.
Qed.

Lemma memcpy_spec m dst src n :
  0 ≤ n → dst ≤ src ∨ src + n ≤ dst →
  ∃ m', memcpy dst src n m = Ok (dst, m') ∧
    ∀ p, m' p = if decide (dst ≤ p < dst + n) then m (src + (p - dst)) else m p.
Proof.
  intros Hn Hov. destruct (copy_up_spec m dst src (Z.to_nat n)) as (m' & Em & Hm); [lia|].
  exists m'. unfold memcpy. rewrite (bind_ok _ _ _ _ _ Em). split; [done|]. intros p. rewrite Hm, Z2Nat.id by done. done.
Qed.

Lemma memset_spec m a c n :
  0 ≤ n → ∃ m', memset a c n m = Ok (a, m') ∧ ∀ p, m' p = if decide (a ≤ p < a + n) then u8 c else m p.
Proof.
  intros Hn. unfold memset.
  assert (∀ k b m, ∃ m', memset_loop k b (u8 c) m = Ok (tt, m') ∧
    ∀ p, m' p = if decide (b ≤ p < b + Z.of_nat k) then u8 c else m p) as Hl.
  { clear. induction k as [|k IH]; intros b m.
    - exists m. split; [done|]. intros p. rewrite decide_False by lia. done.
    - cbn [memset_loop]. unfold put. msteps. destruct (IH (b + 1) (upd b (u8 c) m)) as (m' & E & Hm).
      exists m'. split; [done|]. intros p. rewrite Hm. destruct (decide (p = b)) as [->|Hne].
      + rewrite decide_False, upd_eq, decide_True by lia. done.
      + rewrite upd_ne by congruence. repeat case_decide; lia || done. }
  destruct (Hl (Z.to_nat n) a m) as (m' & E & Hm). exists m'. rewrite (bind_ok _ _ _ _ _ E). split; [done|].
  intros p. rewrite Hm, Z2Nat.id by done. done.
Qed.

(** ** The properties *)

(** [memmove] copies [n] bytes correctly for every overlap of source and
    destination: the destination holds what the source held before, and no other
    byte changes. *)
Theorem memmove_correct m dst src n :
  0 ≤ n →
  ∃ m', memmove dst src n m = Ok (dst, m') ∧
    ∀ p, m' p = if decide (dst ≤ p < dst + n) then m (src + (p - dst)) else m p.
Proof. apply memmove_spec. Qed.

Lemma memmove_correct_witness : ∃ m',
  memmove 2 0 4 (λ p, p + 10) = Ok (2, m') ∧ (m' 2 = 10 ∧ m' 5 = 13 ∧ m' 6 = 16).
Proof.
  destruct (memmove_correct (λ p, p + 10) 2 0 4) as (m' & E & H); [lia|].
  exists m'. split; [exact E|]. rewrite !H. split_and!; reflexivity.
Defined.

(** [strcmp] decides equality of strings and [strlen] computes the length,
    with as much fuel as the string is long. *)
Theorem strcmp_strlen_correct m a b la lb :
  cstr m a la → cstr m b lb → Z.of_nat (length la) < 2 ^ 64 →
  strlen (S (length la)) a m = Ok (Z.of_nat (length la), m) ∧
  ∃ r, strcmp (S (length la)) a b m = Ok (r, m) ∧ (r = 0 ↔ la = lb).
Proof.
  intros Ha Hb Hl. split; [|by apply strcmp_spec; [..|lia]].
  unfold strlen. rewrite (strlen_loop_spec m a la) by (done || lia). done.
Qed.

(** "ab" at 100 and "ac" at 200. *)
Definition example_mem : mem := λ p,
  if p =? 100 then 97 else if p =? 101 then 98 else if p =? 200 then 97 else if p =? 201 then 99 else 0.

Lemma strcmp_strlen_correct_witness :
  strlen 3 100 example_mem = Ok (2, example_mem) ∧ ∃ r, strcmp 3 100 200 example_mem = Ok (r, example_mem) ∧ r ≠ 0.
Proof.
  destruct (strcmp_strlen_correct example_mem 100 200 [97; 98] [97; 99]) as [H1 (r & H2 & H3)].
  - split; [simpl; tauto|repeat constructor; lia].
  - split; [simpl; tauto|repeat constructor; lia].
  - simpl. lia.
  - split; [exact H1|]. exists r. split; [exact H2|]. intros E. apply H3 in E. discriminate E.
Defined.

(** [hash32] stays in its range: a bucket index of [bits] bits. *)
Lemma hash32_range val bits : 0 ≤ bits ≤ 32 → 0 ≤ hash32 val bits < 2 ^ bits.
Proof.
  intros Hb. unfold hash32. pose proof (u32_range (val * GOLDEN_RATIO_PRIME_32)) as Hr.
  rewrite Z.shiftr_div_pow2 by lia. split; [apply Z.div_pos; lia|].
  apply Z.div_lt_upper_bound; [lia|]. rewrite <-Z.pow_add_r by lia. replace (32 - bits + bits) with 32 by lia. apply Hr.
Qed.
