(* ===== verification/Printf.v ===== *)
(** * Formatted output

    libs/printfmt.c: [printnum], [vprintfmt] and [vsnprintf], and the console
    clients of kern/libs/stdio.c.  The formatter is written once over a state with
    two operations: reading a byte of memory and [putch].  A pointer to
    characters is an address or a position in a literal of the program.  The
    variable arguments are the sequence of 8-byte slots that [va_arg] walks. *)

From Stdlib Require Import Ascii String.
From S2P Require Import Prelude CString.

(** ** Pointers to characters *)

Inductive cptr :=
| At (a : Z)
| Lit (l : list Z) (i : Z).

Definition lit (s : string) : cptr := Lit ((λ c, Z.of_N (N_of_ascii c)) <$> list_ascii_of_string s) 0.

Definition padd (p : cptr) (k : Z) : cptr :=
  match p with At a => At (a + k) | Lit l i => Lit l (i + k) end.

(** ** libs/error.h and [error_string] *)

Definition E_UNSPECIFIED : Z := 1.
Definition E_FAULT : Z := 6.
Definition E_PANIC : Z := 10.
Definition E_XDEV : Z := 19.
Definition E_SEEK : Z := 21.
Definition E_NOTEMPTY : Z := 24.
Definition MAXERROR : Z := 24.

Definition error_table : list (Z * string) :=
  [(E_UNSPECIFIED, "unspecified error"); (E_BAD_PROC, "bad process"); (E_INVAL, "invalid parameter");
   (E_NO_MEM, "out of memory"); (E_NO_FREE_PROC, "out of processes"); (E_FAULT, "segmentation fault");
   (E_INVAL_ELF, "invalid elf file"); (E_KILLED, "process is killed"); (E_PANIC, "panic failure");
   (E_NO_DEV, "no such device"); (E_NA_DEV, "device not available"); (E_BUSY, "device/file is busy");
   (E_NOENT, "no such file or directory"); (E_ISDIR, "is a directory"); (E_NOTDIR, "not a directory");
   (E_XDEV, "cross device link"); (E_UNIMP, "unimplemented feature"); (E_SEEK, "illegal seek");
   (E_MAX_OPEN, "too many files are open"); (E_EXISTS, "file or directory already exists");
   (E_NOTEMPTY, "directory is not empty")]%string.

(** [None] is [NULL]. *)
Definition error_string (err : Z) : option cptr :=
  match list_find (λ e, e.1 = err) error_table with
  | Some (_, e) => Some (lit e.2)
  | None => None
  end.

(** ** The formatter *)

Section printfmt.
Context {T : Type} (ld : Z → M T Z) (putch : Z → M T unit).

Definition ldc (p : cptr) : M T Z :=
  match p with
  | At a => ld a
  | Lit l i => mret (nth (Z.to_nat i) l 0)
  end.

(** [while (-- width > 0) putch(padc)], and the like: [putch(c)] [n] times. *)
Fixpoint putchs (n : nat) (c : Z) : M T unit :=
  match n with
  | O => mret tt
  | S n' => putch c;; putchs n' c
  end.

(** The characters of ["0123456789abcdef"]. *)
Definition hexdigit (d : Z) : Z := if d <? 10 then 48 + d else 87 + d.

(** 64 rounds are enough for [unsigned long long] in every base. *)
Fixpoint printnum (fuel : nat) (num base width padc : Z) : M T unit :=
  match fuel with
  | O => out_of_fuel
  | S fuel' =>
    let mod_ := num mod base in
    let result := num / base in
    (if base <=? num then printnum fuel' result base (width - 1) padc
     else putchs (Z.to_nat (width - 1)) padc);;
    putch (hexdigit mod_)
  end.

(** [va_arg]: the slot, narrowed to the type, and the next position. *)
Definition getuint (slot lflag : Z) : Z :=
  if 2 <=? lflag then u64 slot else if truth lflag then u64 slot else u32 slot.

Definition getint (slot lflag : Z) : Z :=
  if 2 <=? lflag then s64 slot else if truth lflag then s64 slot else s32 slot.

(** [for (precision = 0; ; ++ fmt)]: [ch] is the current digit, [fmt] points behind
    it; the results are [precision] and [fmt]. *)
Fixpoint width_loop (fuel : nat) (precision ch : Z) (fmt : cptr) : M T (Z * cptr) :=
  match fuel with
  | O => out_of_fuel
  | S fuel' =>
    let precision := s32 (precision * 10 + ch - 48) in
    ch ← ldc fmt;
    if ((ch <? 48) || (57 <? ch))%bool then mret (precision, fmt)
    else width_loop fuel' precision ch (padd fmt 1)
  end.

(** [strnlen] of libs/string.c on a pointer to characters. *)
Fixpoint strnlen_c (fuel : nat) (p : cptr) (cnt len : Z) : M T Z :=
  match fuel with
  | O => out_of_fuel
  | S fuel' =>
    if cnt <? len then
      c ← ldc p;
      if negb (c =? 0) then strnlen_c fuel' (padd p 1) (cnt + 1) len else mret cnt
    else mret cnt
  end.

(** The characters of a string; the result is [width]. *)
Fixpoint string_loop (fuel : nat) (p : cptr) (precision width : Z) (altflag : bool) : M T Z :=
  match fuel with
  | O => out_of_fuel
  | S fuel' =>
    ch ← ldc p;
    if (negb (ch =? 0) && ((precision <? 0) || (0 <=? precision - 1)))%bool then
      putch (if (altflag && ((ch <? 32) || (126 <? ch)))%bool then 63 else ch);;
      string_loop fuel' (padd p 1) (if precision <? 0 then precision else precision - 1) (width - 1) altflag
    else mret width
  end.

Definition print_string (fuel : nat) (p : cptr) (padc width precision : Z) (altflag : bool) : M T unit :=
  width ← (if ((0 <? width) && negb (padc =? 45))%bool then
             n ← strnlen_c fuel p 0 (u64 precision);
             let width := s32 (width - n) in
             putchs (Z.to_nat width) padc;;
             mret (Z.min width 0)
           else mret width);
  width ← string_loop fuel p precision width altflag;
  putchs (Z.to_nat width) 32.

(** [for (fmt --; fmt[-1] != '%'; fmt --)] *)
Fixpoint rewind (fuel : nat) (fmt : cptr) : M T cptr :=
  match fuel with
  | O => out_of_fuel
  | S fuel' =>
    c ← ldc (padd fmt (-1));
    if negb (c =? 37) then rewind fuel' (padd fmt (-1)) else mret fmt
  end.

Record flags := Flags { padc : Z; width : Z; precision : Z; lflag : Z; altflag : bool }.

Definition set_padc (c : Z) (f : flags) : flags := Flags c (width f) (precision f) (lflag f) (altflag f).
Definition inc_lflag (f : flags) : flags := Flags (padc f) (width f) (precision f) (lflag f + 1) (altflag f).
Definition set_altflag (f : flags) : flags := Flags (padc f) (width f) (precision f) (lflag f) true.
Definition dot_width (f : flags) : flags :=
  Flags (padc f) (if width f <? 0 then 0 else width f) (precision f) (lflag f) (altflag f).

(** [process_precision] *)
Definition process_precision (v : Z) (f : flags) : flags :=
  if width f <? 0 then Flags (padc f) v (-1) (lflag f) (altflag f)
  else Flags (padc f) (width f) v (lflag f) (altflag f).

(** The escape sequences, from [reswitch] to the [break]; the results are [fmt]
    and the position in the arguments.  [vp] is the recursive call; the format
    ["%s"] of the error messages prints its string with the default flags. *)
Fixpoint reswitch (vp : cptr → (Z → Z) → M T unit) (fuel : nat) (f : flags) (fmt : cptr) (va : Z → Z) (ap : Z)
    : M T (cptr * Z) :=
  match fuel with
  | O => out_of_fuel
  | S fuel' =>
    let again f := reswitch vp fuel' f in
    let number num base fmt ap := printnum 64 num base (width f) (padc f);; mret (fmt, ap) in
    ch ← ldc fmt;
    let fmt := padd fmt 1 in
    if ch =? 45 then again (set_padc 45 f) fmt va ap
    else if ch =? 48 then again (set_padc 48 f) fmt va ap
    else if ((49 <=? ch) && (ch <=? 57))%bool then
      '(precision, fmt) ← width_loop fuel' 0 ch fmt;
      again (process_precision precision f) fmt va ap
    else if ch =? 42 then again (process_precision (s32 (va ap)) f) fmt va (ap + 1)
    else if ch =? 46 then again (dot_width f) fmt va ap
    else if ch =? 35 then again (set_altflag f) fmt va ap
    else if ch =? 108 then again (inc_lflag f) fmt va ap
    else if ch =? 99 then putch (s32 (va ap));; mret (fmt, ap + 1)
    else if ch =? 101 then
      let err := s32 (va ap) in
      let err := if err <? 0 then s32 (- err) else err in
      assert (0 <=? err);;
      match (if MAXERROR <? err then None else error_string err) with
      | None => vp (lit "error %d") (λ _, err)
      | Some p => print_string fuel' p 32 (-1) (-1) false
      end;;
      mret (fmt, ap + 1)
    else if ch =? 115 then
      let p := if u64 (va ap) =? 0 then lit "(null)" else At (u64 (va ap)) in
      print_string fuel' p (padc f) (width f) (precision f) (altflag f);;
      mret (fmt, ap + 1)
    else if ch =? 100 then
      let num := getint (va ap) (lflag f) in
      when (num <? 0) (putch 45);;
      number (if num <? 0 then u64 (- num) else num) 10 fmt (ap + 1)
    else if ch =? 117 then number (getuint (va ap) (lflag f)) 10 fmt (ap + 1)
    else if ch =? 111 then number (getuint (va ap) (lflag f)) 8 fmt (ap + 1)
    else if ch =? 112 then
      putch 48;;
      putch 120;;
      number (u64 (va ap)) 16 fmt (ap + 1)
    else if ch =? 120 then number (getuint (va ap) (lflag f)) 16 fmt (ap + 1)
    else if ch =? 37 then putch ch;; mret (fmt, ap)
    else
      putch 37;;
      fmt ← rewind fuel' (padd fmt (-1));
      mret (fmt, ap)
  end.

(** The two nested loops are one: a round prints a character or an escape. *)
Fixpoint vprintfmt_at (fuel : nat) (fmt : cptr) (va : Z → Z) (ap : Z) : M T unit :=
  match fuel with
  | O => out_of_fuel
  | S fuel' =>
    ch ← ldc fmt;
    let fmt := padd fmt 1 in
    if negb (ch =? 37) then
      if ch =? 0 then mret tt
      else putch ch;; vprintfmt_at fuel' fmt va ap
    else
      '(fmt, ap) ← reswitch (λ fmt va, vprintfmt_at fuel' fmt va 0) fuel' (Flags 32 (-1) (-1) 0 false) fmt va ap;
      vprintfmt_at fuel' fmt va ap
  end.

Definition vprintfmt (fuel : nat) (fmt : cptr) (va : Z → Z) : M T unit := vprintfmt_at fuel fmt va 0.

End printfmt.

(** ** Printing to a buffer *)

(** [struct sprintbuf] and the memory its pointers point to. *)
Record sprintbuf := SprintBuf {
  sp_mem : mem;
  sp_buf : Z;
  sp_ebuf : Z;
  sp_cnt : Z;
}.

Definition sprintputch (ch : Z) : M sprintbuf unit := λ b,
  let cnt := s32 (sp_cnt b + 1) in
  if sp_buf b <? sp_ebuf b
  then Ok (tt, SprintBuf (upd (sp_buf b) (u8 ch) (sp_mem b)) (sp_buf b + 1) (sp_ebuf b) cnt)
  else Ok (tt, SprintBuf (sp_mem b) (sp_buf b) (sp_ebuf b) cnt).

Definition sp_load (p : Z) : M sprintbuf Z := gets (λ b, sp_mem b p).

Definition vsnprintf (fuel : nat) (str size : Z) (fmt : cptr) (va : Z → Z) : M mem Z := λ m,
  let b := SprintBuf m str (u64 (str + size - 1)) 0 in
  if ((str =? 0) || (sp_ebuf b <? sp_buf b))%bool then Ok (- E_INVAL, m)
  else
    match vprintfmt sp_load sprintputch fuel fmt va b with
    | Ok (_, b) => Ok (sp_cnt b, upd (sp_buf b) 0 (sp_mem b))
    | Panic => Panic
    | Fuel => Fuel
    end.

Definition snprintf (fuel : nat) (str size : Z) (fmt : cptr) (va : Z → Z) : M mem Z := vsnprintf fuel str size fmt va.
