(* ===== verification/PrintfProofs.v ===== *)
(** * Formatted output: proofs *)

From Stdlib Require Import Ascii String.
From S2P Require Import Prelude CString Printf.

(** ** The reference *)

(** The digits of a number, the most significant first. *)
Fixpoint digits (n : nat) (base num : Z) : list Z :=
  match n with
  | O => []
  | S n' => (if base <=? num then digits n' base (num / base) else []) ++ [num mod base]
  end.

(** The value of a list of digits. *)
Definition of_digits (base : Z) (l : list Z) : Z := foldl (λ v d, v * base + d) 0 l.

(** What [printnum] is to print. *)
Definition number_text (num base width padc : Z) : list Z :=
  let ds := digits 64 base num in
  replicate (Z.to_nat (width - Z.of_nat (length ds))) padc ++ (hexdigit <$> ds).

Section printnum.
Context {T : Type} (putch : Z → M T unit) (put1 : Z → T → T).
Hypothesis Hput : ∀ c s, putch c s = Ok (tt, put1 c s).

Definition put_all (l : list Z) (s : T) : T := foldl (λ s c, put1 c s) s l.

Lemma put_all_app l1 l2 s : put_all (l1 ++ l2) s = put_all l2 (put_all l1 s).
Proof. apply foldl_app. Qed.

Lemma putchs_spec n c s : putchs putch n c s = Ok (tt, put_all (replicate n c) s).
Proof. revert s. induction n as [|n IH]; intros s; [done|]. cbn [putchs]. rewrite (bind_ok _ _ _ _ _ (Hput c s)). apply IH. Qed.

Lemma digits_fuel n m base num :
  2 ≤ base → 0 ≤ num < base ^ Z.of_nat n → num < base ^ Z.of_nat m → (0 < n)%nat → (0 < m)%nat →
  digits n base num = digits m base num.
Proof.
  intros Hb. revert m num. induction n as [|n IH]; intros m num Hn Hm Hn0 Hm0; [lia|].
  destruct m as [|m]; [lia|]. cbn [digits]. f_equal. destruct (Z.leb_spec base num) as [Hle|]; [|done].
  assert (∀ k : nat, num < base ^ Z.of_nat (S k) → num / base < base ^ Z.of_nat k ∧ (0 < k)%nat) as Hk.
  { intros k Hk. rewrite Nat2Z.inj_succ, Z.pow_succ_r in Hk by lia. split; [by apply Z.div_lt_upper_bound; lia|].
    destruct k; [simpl in Hk; lia|lia]. }
  destruct (Hk n) as [? ?]; [lia|]. destruct (Hk m) as [? ?]; [lia|].
  apply IH; [split; [apply Z.div_pos; lia|lia]|lia..].
Qed.

Lemma printnum_spec n s num base width padc :
  2 ≤ base → 0 ≤ num < base ^ Z.of_nat n → (0 < n)%nat →
  printnum putch n num base width padc s =
    Ok (tt, put_all (replicate (Z.to_nat (width - Z.of_nat (length (digits n base num)))) padc
                     ++ (hexdigit <$> digits n base num)) s).
Proof.
  intros Hb. revert num width. induction n as [|n IH]; intros num width Hn Hn0; [lia|]. cbn [printnum digits].
  destruct (Z.leb_spec base num) as [Hle|Hlt].
  - rewrite (bind_ok _ _ _ _ _ (IH (num / base) (width - 1) ltac:(split; [apply Z.div_pos; lia|
      apply Z.div_lt_upper_bound; [lia|]; rewrite Nat2Z.inj_succ, Z.pow_succ_r in Hn by lia; lia])
      ltac:(destruct n; [simpl in Hn; lia|lia]))).
    rewrite Hput. do 2 f_equal. rewrite length_app, fmap_app, app_assoc, put_all_app. cbn [length].
    replace (width - 1 - Z.of_nat (length (digits n base (num / base))))
      with (width - Z.of_nat (length (digits n base (num / base)) + 1)) by lia.
    by rewrite !put_all_app.
  - rewrite (bind_ok _ _ _ _ _ (putchs_spec _ _ s)), Hput. do 2 f_equal. cbn [app length fmap list_fmap].
    by rewrite put_all_app.
Qed.
End printnum.

(** *** Digits *)

Lemma of_digits_snoc base l d : of_digits base (l ++ [d]) = of_digits base l * base + d.
Proof. unfold of_digits. by rewrite foldl_app. Qed.

Lemma digits_spec n base num :
  2 ≤ base → 0 ≤ num < base ^ Z.of_nat n → (0 < n)%nat →
  of_digits base (digits n base num) = num ∧ Forall (λ d, 0 ≤ d < base) (digits n base num) ∧
  digits n base num ≠ [] ∧ (num ≠ 0 → head (digits n base num) ≠ Some 0).
Proof.
  intros Hb. revert num. induction n as [|n IH]; intros num Hn Hn0; [lia|]. cbn [digits].
  pose proof (Z.mod_pos_bound num base ltac:(lia)) as Hm. pose proof (Z.div_mod num base ltac:(lia)) as Hdm.
  rewrite of_digits_snoc, Forall_app, Forall_singleton. destruct (Z.leb_spec base num) as [Hle|Hlt].
  - destruct (IH (num / base)) as (Hv & Hf & Hne & Hh).
    + split; [apply Z.div_pos; lia|]. apply Z.div_lt_upper_bound; [lia|].
      rewrite Nat2Z.inj_succ, Z.pow_succ_r in Hn by lia. lia.
    + destruct n; [simpl in Hn; lia|lia].
    + rewrite Hv. split_and!; [lia|done|lia..|by intros [? ?]%app_eq_nil|]. intros _.
      destruct (digits n base (num / base)) as [|d l]; [done|]. apply Hh.
      intros E0. pose proof (Z.div_str_pos num base). lia.
  - rewrite Z.mod_small by lia. split_and!; [done|done|lia..|done|]. simpl. congruence.
Qed.

(** ** Reading a format *)

Section format.
Context {T : Type} (ld : Z → M T Z) (putch : Z → M T unit) (put1 : Z → T → T).
Hypothesis Hput : ∀ c s, putch c s = Ok (tt, put1 c s).

(** The characters [l] can be read from [p] on. *)
Fixpoint reads (p : cptr) (l : list Z) : Prop :=
  match l with
  | [] => True
  | c :: r => (∀ s, ldc ld p s = Ok (c, s)) ∧ reads (padd p 1) r
  end.

Lemma padd_padd p i j : padd (padd p i) j = padd p (i + j).
Proof. destruct p; simpl; f_equal; lia. Qed.

Lemma reads_app p l1 l2 : reads p (l1 ++ l2) ↔ reads p l1 ∧ reads (padd p (Z.of_nat (length l1))) l2.
Proof.
  revert p. induction l1 as [|c l1 IH]; intros p; simpl.
  - destruct p; simpl; rewrite Z.add_0_r; tauto.
  - rewrite IH, padd_padd. replace (1 + Z.of_nat (length l1)) with (Z.of_nat (S (length l1))) by lia. tauto.
Qed.

Lemma width_loop_spec n p w c l d s :
  0 ≤ w → 0 ≤ c < 10 → Forall (λ c, 0 ≤ c < 10) l → (d < 48 ∨ 57 < d) →
  reads p ((hexdigit <$> l) ++ [d]) → foldl (λ v c, v * 10 + c) (w * 10 + c) l < 2 ^ 31 → (length l < n)%nat →
  width_loop ld n w (48 + c) p s = Ok ((foldl (λ v c, v * 10 + c) (w * 10 + c) l, padd p (Z.of_nat (length l))), s).
Proof.
  revert p w c l. induction n as [|n IH]; intros p w c l Hw Hc Hl Hd Hr Hlt Hn; [lia|]. cbn [width_loop].
  replace (w * 10 + (48 + c) - 48) with (w * 10 + c) by lia.
  assert (∀ l v, 0 ≤ v → Forall (λ c, 0 ≤ c < 10) l → v ≤ foldl (λ v c, v * 10 + c) v l) as Hmono.
  { clear. induction l as [|x l IH]; intros v Hv Hl; simpl; [lia|]. apply Forall_cons in Hl as [? Hl].
    pose proof (IH (v * 10 + x) ltac:(lia) Hl). lia. }
  pose proof (Hmono l (w * 10 + c) ltac:(lia) Hl). rewrite s32_small by lia.
  destruct l as [|c' l]; cbn [fmap list_fmap app reads] in Hr; destruct Hr as [Hr1 Hr2].
  - rewrite (bind_ok _ _ _ _ _ (Hr1 s)). assert (((d <? 48) || (57 <? d))%bool = true) as ->.
    { apply orb_true_iff. rewrite !Z.ltb_lt. lia. }
    simpl. destruct p; simpl; by rewrite Z.add_0_r.
  - apply Forall_cons in Hl as [Hc' Hl]. unfold hexdigit in Hr1 at 1. destruct (Z.ltb_spec c' 10); [|lia].
    rewrite (bind_ok _ _ _ _ _ (Hr1 s)). assert (((48 + c' <? 48) || (57 <? 48 + c'))%bool = false) as ->.
    { apply orb_false_iff. rewrite !Z.ltb_ge. lia. }
    simpl in Hn. rewrite (IH _ _ _ l); [|lia|done|done|done|done|done|lia].
    rewrite padd_padd. cbn [foldl length]. do 4 f_equal. lia.
Qed.

Lemma string_loop_spec n p l width s :
  reads p (l ++ [0]) → Forall (λ c, 0 < c) l → (length l < n)%nat →
  string_loop ld putch n p (-1) width false s = Ok (width - Z.of_nat (length l), put_all put1 l s).
Proof.
  revert n p width s. induction l as [|c l IH]; intros n p width s [Hr1 Hr2] Hl Hn; (destruct n as [|n]; [simpl in Hn; lia|]);
    cbn [string_loop]; rewrite (bind_ok _ _ _ _ _ (Hr1 s)).
  - simpl. by rewrite Z.sub_0_r.
  - apply Forall_cons in Hl as [Hc Hl]. destruct (Z.eqb_spec c 0); [lia|]. cbn [negb andb orb Z.ltb Z.compare].
    rewrite (bind_ok _ _ _ _ _ (Hput c s)). simpl in Hn. rewrite IH by (done || lia). simpl. do 2 f_equal. lia.
Qed.

(** *** Escape sequences *)

Lemma getuint_range v l : 0 ≤ getuint v l < 2 ^ 64.
Proof.
  unfold getuint. pose proof (u64_range v). pose proof (u32_range v).
  repeat match goal with |- context [if ?b then _ else _] => destruct b end; lia.
Qed.

Lemma getint_range v l : - 2 ^ 63 ≤ getint v l < 2 ^ 63.
Proof.
  unfold getint, s64, s32. pose proof (Z.mod_pos_bound (v + 2 ^ 63) (2 ^ 64) ltac:(lia)).
  pose proof (Z.mod_pos_bound (v + 2 ^ 31) (2 ^ 32) ltac:(lia)).
  repeat match goal with |- context [if ?b then _ else _] => destruct b end; lia.
Qed.

Lemma printnum_text num base width padc s :
  2 ≤ base → 0 ≤ num < 2 ^ 64 →
  printnum putch 64 num base width padc s = Ok (tt, put_all put1 (number_text num base width padc) s).
Proof.
  intros Hb Hn. apply (printnum_spec putch put1 Hput); [done| |lia]. split; [lia|].
  eapply Z.lt_le_trans; [apply Hn|]. change (Z.of_nat 64) with 64. apply Z.pow_le_mono_l. lia.
Qed.
End format.

Inductive conv := Dec | Uns | Oct | Hex.

Definition conv_char (cv : conv) : Z := match cv with Dec => 100 | Uns => 117 | Oct => 111 | Hex => 120 end.

(** What a numeric escape prints for an argument. *)
Definition conv_text (cv : conv) (lflag width padc v : Z) : list Z :=
  match cv with
  | Dec => let num := getint v lflag in
      (if num <? 0 then [45] else []) ++ number_text (Z.abs num) 10 width padc
  | Uns => number_text (getuint v lflag) 10 width padc
  | Oct => number_text (getuint v lflag) 8 width padc
  | Hex => number_text (getuint v lflag) 16 width padc
  end.

(** A piece of a format: a plain character, an escape without arguments or with
    one, or a number with an optional zero flag, a width (0 for none) and [l]s. *)
Inductive directive :=
| Plain (c : Z)
| Percent
| Char
| Str
| Pointer
| Num (zero : bool) (w : Z) (l : nat) (cv : conv).

Definition render_dir (d : directive) : list Z :=
  match d with
  | Plain c => [c]
  | Percent => [37; 37]
  | Char => [37; 99]
  | Str => [37; 115]
  | Pointer => [37; 112]
  | Num zero w l cv =>
    37 :: (if zero then [48] else []) ++ (if w =? 0 then [] else hexdigit <$> digits 64 10 w) ++ replicate l 108 ++ [conv_char cv]
  end.

Definition dir_ok (d : directive) : Prop :=
  match d with
  | Plain c => 0 < c ∧ c ≠ 37
  | Num _ w _ _ => 0 ≤ w < 2 ^ 31
  | _ => True
  end.

Definition dir_args (d : directive) : Z := match d with Plain _ | Percent => 0 | _ => 1 end.

(** The text of a string argument; [str] gives the strings in memory. *)
Definition str_text (str : Z → list Z) (v : Z) : list Z :=
  if u64 v =? 0 then [40; 110; 117; 108; 108; 41] else str (u64 v).

Definition dir_text (str : Z → list Z) (d : directive) (v : Z) : list Z :=
  match d with
  | Plain c => [c]
  | Percent => [37]
  | Char => [s32 v]
  | Str => str_text str v
  | Pointer => [48; 120] ++ number_text (u64 v) 16 (-1) 32
  | Num zero w l cv => conv_text cv (Z.of_nat l) (if w =? 0 then -1 else w) (if zero then 48 else 32) v
  end.

Fixpoint format_text (str : Z → list Z) (ds : list directive) (va : Z → Z) (ap : Z) : list Z :=
  match ds with
  | [] => []
  | d :: r => dir_text str d (va ap) ++ format_text str r va (ap + dir_args d)
  end.

Definition render (ds : list directive) : list Z := concat (render_dir <$> ds).

Section directives.
Context {T : Type} (ld : Z → M T Z) (putch : Z → M T unit) (put1 : Z → T → T).
Hypothesis Hput : ∀ c s, putch c s = Ok (tt, put1 c s).
Context (vp : cptr → (Z → Z) → M T unit).

Notation reads := (reads ld).
Notation put_all := (put_all put1).
Notation reswitch := (reswitch ld putch vp).

Lemma reswitch_l k n f p r va ap s :
  reads p (replicate k 108 ++ r) →
  reswitch (k + n) f p va ap s =
    reswitch n (Flags (padc f) (width f) (precision f) (lflag f + Z.of_nat k) (altflag f)) (padd p (Z.of_nat k)) va ap s.
Proof.
  revert f p. induction k as [|k IH]; intros f p Hr.
  - destruct f, p; simpl; by rewrite !Z.add_0_r.
  - destruct Hr as [Hr1 Hr2]. change (S k + n)%nat with (S (k + n)). cbn [reswitch].
    rewrite (bind_ok _ _ _ _ _ (Hr1 s)). cbn [Z.eqb Z.leb Z.compare Pos.eqb Pos.compare Pos.compare_cont andb].
    rewrite (IH _ _ Hr2), padd_padd. cbn [inc_lflag padc width precision lflag altflag]. 
    replace (lflag f + 1 + Z.of_nat k) with (lflag f + Z.of_nat (S k)) by lia.
    by replace (1 + Z.of_nat k) with (Z.of_nat (S k)) by lia.
Qed.

Lemma reswitch_conv n f p cv va ap s :
  (∀ s, ldc ld p s = Ok (conv_char cv, s)) →
  reswitch (S n) f p va ap s =
    Ok ((padd p 1, ap + 1), put_all (conv_text cv (lflag f) (width f) (padc f) (va ap)) s).
Proof.
  intros Hp. cbn [reswitch]. rewrite (bind_ok _ _ _ _ _ (Hp s)).
  pose proof (getuint_range (va ap) (lflag f)) as Hu. pose proof (getint_range (va ap) (lflag f)) as Hi.
  destruct cv; cbn [conv_char Z.eqb Z.leb Z.compare Pos.eqb Pos.compare Pos.compare_cont andb conv_text].
  2-4: by erewrite bind_ok by (apply (printnum_text putch put1 Hput); [lia|exact Hu]).
  set (num := getint _ _) in *. destruct (Z.ltb_spec num 0).
  - unfold when. rewrite (bind_ok _ _ _ _ _ (Hput 45 s)).
    rewrite u64_small by lia. replace (Z.abs num) with (- num) by lia.
    by erewrite bind_ok by (apply (printnum_text putch put1 Hput); lia).
  - unfold when. rewrite bind_ret. replace (Z.abs num) with num by lia.
    by erewrite bind_ok by (apply (printnum_text putch put1 Hput); lia).
Qed.

Lemma reswitch_zero n f p va ap s :
  (∀ s, ldc ld p s = Ok (48, s)) → reswitch (S n) f p va ap s = reswitch n (set_padc 48 f) (padd p 1) va ap s.
Proof. intros Hp. cbn [reswitch]. by rewrite (bind_ok _ _ _ _ _ (Hp s)). Qed.

Lemma reswitch_width n f p w x r va ap s :
  0 < w < 2 ^ 31 → width f < 0 → reads p ((hexdigit <$> digits 64 10 w) ++ x :: r) → (x < 48 ∨ 57 < x) →
  (length (digits 64 10 w) ≤ n)%nat →
  reswitch (S n) f p va ap s =
    reswitch n (Flags (padc f) w (-1) (lflag f) (altflag f)) (padd p (Z.of_nat (length (digits 64 10 w)))) va ap s.
Proof.
  intros Hw Hf Hr Hx Hn. destruct (digits_spec 64 10 w) as (Hv & Hall & Hne & Hh); [lia|change (Z.of_nat 64) with 64; lia|lia|].
  destruct (digits 64 10 w) as [|d l] eqn:Ed; [done|]. apply Forall_cons in Hall as [Hd Hl].
  specialize (Hh ltac:(lia)). assert (d ≠ 0) by (intros ->; done).
  destruct Hr as [Hr1 Hr2]. assert (hexdigit d = 48 + d) as Hhd by (unfold hexdigit; destruct (Z.ltb_spec d 10); lia).
  cbn [reswitch]. rewrite (bind_ok _ _ _ _ _ (Hr1 s)), Hhd.
  destruct (Z.eqb_spec (48 + d) 45); [lia|]. destruct (Z.eqb_spec (48 + d) 48); [lia|].
  destruct (Z.leb_spec 49 (48 + d)); [|lia]. destruct (Z.leb_spec (48 + d) 57); [|lia]. cbn [andb].
  assert (foldl (λ v c, v * 10 + c) (0 * 10 + d) l = w) as Hw' by (rewrite <-Hv; done).
  assert (reads (padd p 1) ((hexdigit <$> l) ++ [x])) as Hr3.
  { change (x :: r) with ([x] ++ r) in Hr2. rewrite app_assoc in Hr2. by apply reads_app in Hr2 as [? _]. }
  rewrite (bind_ok _ _ _ _ _ (width_loop_spec ld n (padd p 1) 0 d l x s ltac:(lia) ltac:(lia) Hl Hx Hr3
    ltac:(rewrite Hw'; lia) ltac:(simpl in Hn; lia))).
  rewrite Hw', padd_padd. unfold process_precision. destruct (Z.ltb_spec (width f) 0); [|lia].
  cbn [length]. by replace (1 + Z.of_nat (length l)) with (Z.of_nat (S (length l))) by lia.
Qed.

Definition width_chars (w : Z) : list Z := if w =? 0 then [] else hexdigit <$> digits 64 10 w.

Lemma reswitch_long n f p l cv r va ap s :
  reads p (replicate l 108 ++ conv_char cv :: r) → (l < n)%nat →
  reswitch n f p va ap s =
    Ok ((padd p (Z.of_nat (S l)), ap + 1), put_all (conv_text cv (lflag f + Z.of_nat l) (width f) (padc f) (va ap)) s).
Proof.
  intros Hr Hn. replace n with (l + S (n - l - 1))%nat by lia. rewrite (reswitch_l l _ _ _ _ _ _ _ Hr).
  apply reads_app in Hr as [_ Hr]. rewrite length_replicate in Hr. destruct Hr as [Hr _].
  rewrite (reswitch_conv _ _ _ cv) by done. rewrite padd_padd.
  by replace (Z.of_nat l + 1) with (Z.of_nat (S l)) by lia.
Qed.

Lemma reswitch_wide n f p w l cv r va ap s :
  0 ≤ w < 2 ^ 31 → width f < 0 → reads p (width_chars w ++ replicate l 108 ++ conv_char cv :: r) →
  (length (width_chars w) + S l < n)%nat →
  reswitch n f p va ap s =
    Ok ((padd p (Z.of_nat (length (width_chars w) + S l)), ap + 1),
        put_all (conv_text cv (lflag f + Z.of_nat l) (if w =? 0 then width f else w) (padc f) (va ap)) s).
Proof.
  unfold width_chars. intros Hw Hf Hr Hn. destruct (Z.eqb_spec w 0); [by apply (reswitch_long _ _ _ _ _ r); [|simpl in Hn; lia]|].
  rewrite length_fmap in *. destruct n as [|n]; [lia|].
  assert (∃ x r', replicate l 108 ++ conv_char cv :: r = x :: r' ∧ (x < 48 ∨ 57 < x)) as (x & r' & Ex & Hx).
  { destruct l; [exists (conv_char cv), r; split; [done|]; destruct cv; simpl; lia|eexists _, _; split; [reflexivity|lia]]. }
  assert (reads p ((hexdigit <$> digits 64 10 w) ++ x :: r')) as Hr1 by by rewrite <-Ex.
  rewrite (reswitch_width n f p w x r' va ap s) by (done || lia).
  apply reads_app in Hr as [_ Hr]. rewrite length_fmap in Hr.
  rewrite (reswitch_long n _ _ l cv r) by (done || lia). rewrite padd_padd.
  by rewrite <-Nat2Z.inj_add.
Qed.

(** The whole numeric escape, after the percent sign. *)
Lemma reswitch_num n zero w l cv p r va ap s :
  0 ≤ w < 2 ^ 31 → reads p (tail (render_dir (Num zero w l cv)) ++ r) →
  (length (render_dir (Num zero w l cv)) < n)%nat →
  reswitch n (Flags 32 (-1) (-1) 0 false) p va ap s =
    Ok ((padd p (Z.of_nat (length (tail (render_dir (Num zero w l cv))))), ap + 1),
        put_all (conv_text cv (Z.of_nat l) (if w =? 0 then -1 else w) (if zero then 48 else 32) (va ap)) s).
Proof.
  cbn [render_dir tail length]. fold (width_chars w). intros Hw Hr Hn.
  rewrite <-!app_assoc in Hr. cbn [app] in Hr. rewrite !length_app, length_replicate in *. cbn [length] in *.
  destruct zero; cbn [app length] in *.
  - destruct Hr as [Hr1 Hr2]. destruct n as [|n]; [lia|]. rewrite reswitch_zero by done.
    rewrite (reswitch_wide n _ _ w l cv r) by (done || lia). rewrite padd_padd.
    replace (1 + Z.of_nat (length (width_chars w) + S l)) with (Z.of_nat (1 + (length (width_chars w) + (l + 1)))) by lia.
    done.
  - rewrite (reswitch_wide n _ _ w l cv r) by (done || lia).
    replace (length (width_chars w) + S l)%nat with (0 + (length (width_chars w) + (l + 1)))%nat by lia. done.
Qed.
End directives.

Section vprintfmt.
Context {T : Type} (ld : Z → M T Z) (putch : Z → M T unit) (put1 : Z → T → T).
Hypothesis Hput : ∀ c s, putch c s = Ok (tt, put1 c s).
Context (str : Z → list Z) (K : nat) (va : Z → Z).

(** The string arguments of a format can be read and are shorter than [K]. *)
Fixpoint strings_ok (ds : list directive) (ap : Z) : Prop :=
  match ds with
  | [] => True
  | d :: r =>
    (d = Str → u64 (va ap) ≠ 0 → reads ld (At (u64 (va ap))) (str (u64 (va ap)) ++ [0]) ∧
      Forall (λ c, 0 < c) (str (u64 (va ap))) ∧ (length (str (u64 (va ap))) < K)%nat) ∧
    strings_ok r (ap + dir_args d)
  end.

Lemma reads_lit l : reads ld (Lit l 0) (l ++ [0]).
Proof.
  assert (∀ l1 l2, reads ld (Lit (l1 ++ l2) (Z.of_nat (length l1))) (l2 ++ [0])) as H.
  { intros l1 l2. revert l1. induction l2 as [|c l2 IH]; intros l1; cbn [app reads ldc].
    - split; [|done]. intros s. rewrite app_nil_r, Nat2Z.id, nth_overflow by lia. done.
    - split.
      + intros s. by rewrite Nat2Z.id, app_nth2, Nat.sub_diag by lia.
      + specialize (IH (l1 ++ [c])). rewrite <-app_assoc, length_app in IH. cbn [app length] in IH.
        cbn [padd]. by replace (Z.of_nat (length l1) + 1) with (Z.of_nat (length l1 + 1)) by lia. }
  apply (H []).
Qed.

Lemma print_escape fuel p ap s p' ap' s' :
  (∀ s, ldc ld p s = Ok (37, s)) →
  reswitch ld putch (λ fmt va, vprintfmt_at ld putch fuel fmt va 0) fuel (Flags 32 (-1) (-1) 0 false) (padd p 1) va ap s =
    Ok ((p', ap'), s') →
  vprintfmt_at ld putch (S fuel) p va ap s = vprintfmt_at ld putch fuel p' va ap' s'.
Proof. intros Hp E. cbn [vprintfmt_at]. rewrite (bind_ok _ _ _ _ _ (Hp s)). cbn [Z.eqb Pos.eqb negb]. by rewrite (bind_ok _ _ _ _ _ E). Qed.

(** The escapes of one character: [reswitch] on [c] with the default flags. *)
Lemma print_escape1 fuel c p r ap k out s :
  reads ld p (37 :: c :: r) →
  (∀ n, (∀ s, ldc ld (padd p 1) s = Ok (c, s)) → (K + 7 < n)%nat →
    reswitch ld putch (λ fmt va, vprintfmt_at ld putch n fmt va 0) n (Flags 32 (-1) (-1) 0 false) (padd p 1) va ap s =
      Ok ((padd (padd p 1) 1, ap + k), put_all put1 out s)) →
  (K + 10 < fuel)%nat →
  vprintfmt_at ld putch (S fuel) p va ap s = vprintfmt_at ld putch fuel (padd p 2) va (ap + k) (put_all put1 out s).
Proof.
  intros (H1 & H2 & _) He Hf. change 2 with (1 + 1) at 1. rewrite <-(padd_padd p 1 1). apply print_escape; [done|]. apply He; [done|lia].
Qed.

Lemma reswitch_string n vp p ap s :
  strings_ok [Str] ap → (∀ s, ldc ld p s = Ok (115, s)) → (K + 7 < n)%nat →
  reswitch ld putch vp n (Flags 32 (-1) (-1) 0 false) p va ap s =
    Ok ((padd p 1, ap + 1), put_all put1 (str_text str (va ap)) s).
Proof.
  intros [Hs _] Hp Hn. destruct n as [|n]; [lia|]. cbn [reswitch]. rewrite (bind_ok _ _ _ _ _ (Hp s)).
  cbn [Z.eqb Z.leb Z.compare Pos.eqb Pos.compare Pos.compare_cont andb width padc precision altflag].
  unfold str_text. set (v := u64 (va ap)) in *.
  assert (∃ q l, (if v =? 0 then lit "(null)" else At v) = q ∧
    (if v =? 0 then [40; 110; 117; 108; 108; 41] else str v) = l ∧
    reads ld q (l ++ [0]) ∧ Forall (λ c, 0 < c) l ∧ (length l < n)%nat) as (q & l & -> & -> & Hr & Hl & Hlen).
  { destruct (Z.eqb_spec v 0) as [Hv|Hv]; eexists _, _; (split; [reflexivity|]); (split; [reflexivity|]).
    - split; [apply reads_lit|]. split; [repeat constructor; lia|simpl; lia].
    - destruct (Hs eq_refl Hv) as (? & ? & ?). split_and!; [done|done|lia]. }
  unfold print_string. cbn [Z.ltb Z.compare andb]. rewrite bind_assoc, bind_ret.
  rewrite bind_assoc, (bind_ok _ _ _ _ _ (string_loop_spec ld putch put1 Hput n q l (-1) s Hr Hl Hlen)).
  replace (Z.to_nat (-1 - Z.of_nat (length l))) with 0%nat by lia. done.
Qed.

(** One escape or one character. *)
Lemma print_dir fuel d p r ap s :
  dir_ok d → strings_ok [d] ap → reads ld p (render_dir d ++ r) → (length (render_dir d) + K + 8 < fuel)%nat →
  vprintfmt_at ld putch (S fuel) p va ap s =
    vprintfmt_at ld putch fuel (padd p (Z.of_nat (length (render_dir d)))) va (ap + dir_args d)
      (put_all put1 (dir_text str d (va ap)) s).
Proof.
  intros Hd Hs Hr Hf. destruct d as [c| | | | |zero w l cv].
  - destruct Hr as [Hr _]. cbn [vprintfmt_at]. rewrite (bind_ok _ _ _ _ _ (Hr s)). destruct Hd as [Hc H37].
    destruct (Z.eqb_spec c 37); [done|]. destruct (Z.eqb_spec c 0); [lia|]. cbn [negb].
    rewrite (bind_ok _ _ _ _ _ (Hput c s)). cbn. by rewrite Z.add_0_r.
  - apply (print_escape1 _ _ _ _ _ _ _ _ Hr); [|simpl in Hf; lia]. intros [|n] H Hn; [lia|].
    cbn [reswitch]. rewrite (bind_ok _ _ _ _ _ (H s)). cbn [Z.eqb Z.leb Z.compare Pos.eqb Pos.compare Pos.compare_cont andb].
    rewrite (bind_ok _ _ _ _ _ (Hput 37 s)). by rewrite Z.add_0_r.
  - apply (print_escape1 _ _ _ _ _ _ _ _ Hr); [|simpl in Hf; lia]. intros [|n] H Hn; [lia|].
    cbn [reswitch]. rewrite (bind_ok _ _ _ _ _ (H s)). cbn [Z.eqb Z.leb Z.compare Pos.eqb Pos.compare Pos.compare_cont andb].
    by rewrite (bind_ok _ _ _ _ _ (Hput _ s)).
  - apply (print_escape1 _ _ _ _ _ _ _ _ Hr); [|simpl in Hf; lia]. intros n H Hn. by apply reswitch_string.
  - apply (print_escape1 _ _ _ _ _ _ _ _ Hr); [|simpl in Hf; lia]. intros [|n] H Hn; [lia|].
    cbn [reswitch]. rewrite (bind_ok _ _ _ _ _ (H s)). cbn [Z.eqb Z.leb Z.compare Pos.eqb Pos.compare Pos.compare_cont andb].
    rewrite (bind_ok _ _ _ _ _ (Hput 48 s)), (bind_ok _ _ _ _ _ (Hput 120 _)).
    by erewrite bind_ok by (apply (printnum_text putch put1 Hput); [lia|apply u64_range]).
  - assert (reads ld (padd p 1) (tail (render_dir (Num zero w l cv)) ++ r)) as Hr2 by (destruct Hr as [_ Hr]; exact Hr).
    destruct Hr as [Hr1 _].
    erewrite print_escape; [|done|apply (reswitch_num ld putch put1 Hput _ _ zero w l cv _ r); [done|done|lia]].
    rewrite padd_padd. cbn [dir_args dir_text].
    change (length (render_dir (Num zero w l cv))) with (S (length (tail (render_dir (Num zero w l cv))))).
    by rewrite Nat2Z.inj_succ, <-Z.add_1_l.
Qed.

Lemma vprintfmt_text ds p ap s fuel :
  Forall dir_ok ds → strings_ok ds ap → reads ld p (render ds ++ [0]) → (length (render ds) + K + 10 < fuel)%nat →
  vprintfmt_at ld putch fuel p va ap s = Ok (tt, put_all put1 (format_text str ds va ap) s).
Proof.
  revert p ap s fuel. induction ds as [|d ds IH]; intros p ap s fuel Hd Hs Hr Hf; (destruct fuel as [|fuel]; [lia|]).
  - destruct Hr as [Hr _]. cbn [vprintfmt_at]. by rewrite (bind_ok _ _ _ _ _ (Hr s)).
  - apply Forall_cons in Hd as [Hd Hds]. destruct Hs as [Hs Hss].
    unfold render in Hr, Hf. cbn [fmap list_fmap concat] in Hr, Hf. fold (render ds) in Hr, Hf.
    rewrite <-app_assoc in Hr. rewrite length_app in Hf. rewrite (print_dir fuel d p (render ds ++ [0])); [|done|by split|done|].
    2: { lia. }
    assert (1 ≤ length (render_dir d))%nat by (destruct d; cbn [render_dir length]; lia).
    apply reads_app in Hr as [_ Hr]. cbn [format_text]. rewrite put_all_app. apply IH; [done..|lia].
Qed.
End vprintfmt.

(** ** Two machines

    A formatter that returns over one state and output returns over any other that
    simulates it. *)

Definition msim {T U A} (R : T → U → Prop) (m1 : M T A) (m2 : M U A) : Prop :=
  ∀ s1 s2 a s1', R s1 s2 → m1 s1 = Ok (a, s1') → ∃ s2', m2 s2 = Ok (a, s2') ∧ R s1' s2'.

Section msim.
Context {T U : Type} (R : T → U → Prop).

Lemma msim_ret {A} (a : A) : msim R (mret a) (mret a).
Proof. intros s1 s2 a' s1' HR [= <- <-]. by exists s2. Qed.

Lemma msim_bind {A B} (m1 : M T A) m2 (k1 : A → M T B) k2 :
  msim R m1 m2 → (∀ a, msim R (k1 a) (k2 a)) → msim R (m1 ≫= k1) (m2 ≫= k2).
Proof.
  intros Hm Hk s1 s2 b s1' HR (a & t1 & E1 & E)%bind_ok_inv. destruct (Hm s1 s2 a t1 HR E1) as (t2 & E2 & HR2).
  rewrite (bind_ok _ _ _ _ _ E2). by apply (Hk a t1).
Qed.

Lemma msim_fuel {A} (m : M U A) : msim R out_of_fuel m.
Proof. by intros s1 s2 a s1' HR. Qed.

Lemma msim_assert b : msim R (assert b) (assert b).
Proof. intros s1 s2 a s1' HR. unfold assert. destruct b; [|done]. intros [= <- <-]. by exists s2. Qed.

Context (ld1 : Z → M T Z) (ld2 : Z → M U Z) (put1 : Z → M T unit) (put2 : Z → M U unit).
Hypothesis Hld : ∀ a, msim R (ld1 a) (ld2 a).
Hypothesis Hput : ∀ c, msim R (put1 c) (put2 c).

Ltac msim_step :=
  first
    [ apply msim_bind; [|intros] | apply msim_ret | apply msim_fuel | apply msim_assert | apply Hput | solve [eauto]
    | match goal with |- msim _ (if ?b then _ else _) _ => destruct b end
    | match goal with |- msim _ (match ?b with _ => _ end) _ => destruct b end ].

Lemma msim_ldc p : msim R (ldc ld1 p) (ldc ld2 p).
Proof. destruct p; [apply Hld|apply msim_ret]. Qed.
Hint Resolve msim_ldc : core.

Lemma msim_putchs n c : msim R (putchs put1 n c) (putchs put2 n c).
Proof. induction n as [|n IH]; cbn [putchs]; repeat msim_step. Qed.
Hint Resolve msim_putchs : core.

Lemma msim_printnum n num base width padc : msim R (printnum put1 n num base width padc) (printnum put2 n num base width padc).
Proof. revert num width. induction n as [|n IH]; intros num width; cbn [printnum]; repeat msim_step. Qed.
Hint Resolve msim_printnum : core.

Lemma msim_width_loop n w ch p : msim R (width_loop ld1 n w ch p) (width_loop ld2 n w ch p).
Proof. revert w ch p. induction n as [|n IH]; intros w ch p; cbn [width_loop]; repeat msim_step. Qed.
Hint Resolve msim_width_loop : core.

Lemma msim_strnlen_c n p cnt len : msim R (strnlen_c ld1 n p cnt len) (strnlen_c ld2 n p cnt len).
Proof. revert p cnt. induction n as [|n IH]; intros p cnt; cbn [strnlen_c]; repeat msim_step. Qed.
Hint Resolve msim_strnlen_c : core.

Lemma msim_string_loop n p pr w alt : msim R (string_loop ld1 put1 n p pr w alt) (string_loop ld2 put2 n p pr w alt).
Proof. revert p pr w. induction n as [|n IH]; intros p pr w; cbn [string_loop]; repeat msim_step. Qed.
Hint Resolve msim_string_loop : core.

Lemma msim_print_string n p padc w pr alt :
  msim R (print_string ld1 put1 n p padc w pr alt) (print_string ld2 put2 n p padc w pr alt).
Proof. unfold print_string. repeat msim_step. Qed.
Hint Resolve msim_print_string : core.

Lemma msim_rewind n p : msim R (rewind ld1 n p) (rewind ld2 n p).
Proof. revert p. induction n as [|n IH]; intros p; cbn [rewind]; repeat msim_step. Qed.
Hint Resolve msim_rewind : core.

Lemma msim_reswitch vp1 vp2 n f p va ap :
  (∀ p va, msim R (vp1 p va) (vp2 p va)) →
  msim R (reswitch ld1 put1 vp1 n f p va ap) (reswitch ld2 put2 vp2 n f p va ap).
Proof.
  intros Hvp. revert f p ap. induction n as [|n IH]; intros f p ap; cbn [reswitch]; [apply msim_fuel|].
  apply msim_bind; [apply msim_ldc|]. intros ch. unfold when. repeat msim_step.
Qed.

Lemma msim_vprintfmt n p va ap : msim R (vprintfmt_at ld1 put1 n p va ap) (vprintfmt_at ld2 put2 n p va ap).
Proof.
  revert p va ap. induction n as [|n IH]; intros p va ap; cbn [vprintfmt_at]; [apply msim_fuel|].
  repeat first [apply msim_reswitch; intros | msim_step].
Qed.
End msim.

(** *** The text of a format

    The formatter over the memory [m] that only collects what it prints; reading
    the bytes from [lo] to [hi] is not allowed. *)

Definition collect_ld (m : mem) (lo hi : Z) (a : Z) : M (list Z) Z :=
  if ((lo <=? a) && (a <? hi))%bool then panic else mret (m a).
Definition collect_put (c : Z) : M (list Z) unit := modify (λ out, out ++ [c]).

Definition collect (m : mem) (lo hi : Z) (fuel : nat) (fmt : cptr) (va : Z → Z) : res (list Z) :=
  match vprintfmt (collect_ld m lo hi) collect_put fuel fmt va [] with
  | Ok (_, out) => Ok out
  | Panic => Panic
  | Fuel => Fuel
  end.

(** The buffer after the characters [out] have been printed. *)
Record buffered (m : mem) (str size : Z) (out : list Z) (b : sprintbuf) : Prop := Buffered {
  bf_ebuf : sp_ebuf b = str + size - 1;
  bf_buf : sp_buf b = str + Z.min (Z.of_nat (length out)) (size - 1);
  bf_cnt : sp_cnt b = s32 (Z.of_nat (length out));
  bf_text : bytes_at (sp_mem b) str (take (Z.to_nat (size - 1)) (u8 <$> out));
  bf_other : ∀ p, p < str ∨ str + size ≤ p → sp_mem b p = m p;
}.

Lemma s32_succ z : s32 (s32 z + 1) = s32 (z + 1).
Proof.
  unfold s32. f_equal. replace ((z + 2 ^ 31) mod 2 ^ 32 - 2 ^ 31 + 1 + 2 ^ 31) with ((z + 2 ^ 31) mod 2 ^ 32 + 1) by lia.
  rewrite Zplus_mod_idemp_l. f_equal. lia.
Qed.

Lemma buffered_put m str size out c :
  ∀ b, buffered m str size out b → 0 < size → ∃ b', sprintputch c b = Ok (tt, b') ∧ buffered m str size (out ++ [c]) b'.
Proof.
  intros b [He Hb Hc Ht Ho] Hs. unfold sprintputch. rewrite Hb, He, Hc, s32_succ.
  pose proof (length_fmap u8 out) as Hlen.
  destruct (Z.ltb_spec (str + Z.min (Z.of_nat (length out)) (size - 1)) (str + size - 1)) as [Hlt|Hge].
  - eexists. split; [reflexivity|]. rewrite Z.min_l in * by lia. split; cbn [sp_mem sp_buf sp_ebuf sp_cnt].
    + done.
    + rewrite length_app. cbn [length]. lia.
    + rewrite length_app. f_equal. simpl. lia.
    + rewrite fmap_app. rewrite take_ge in Ht by lia. rewrite take_ge by (rewrite length_app; simpl; lia).
      apply bytes_at_app. rewrite Hlen. split.
      * eapply bytes_at_frame; [|exact Ht]. intros p Hp. rewrite upd_ne by lia. done.
      * split; [by rewrite upd_eq|done].
    + intros p Hp. rewrite upd_ne by lia. by apply Ho.
  - eexists. split; [reflexivity|]. split; cbn [sp_mem sp_buf sp_ebuf sp_cnt].
    + done.
    + rewrite length_app. cbn [length]. lia.
    + rewrite length_app. f_equal. simpl. lia.
    + rewrite fmap_app, take_app_le by (rewrite Hlen; lia). done.
    + done.
Qed.

Lemma vsnprintf_spec fuel str size fmt va m out :
  0 < str → 0 < size → str + size ≤ 2 ^ 64 → collect m str (str + size) fuel fmt va = Ok out →
  ∃ m', vsnprintf fuel str size fmt va m = Ok (s32 (Z.of_nat (length out)), m') ∧
    bytes_at m' str (take (Z.to_nat (size - 1)) (u8 <$> out) ++ [0]) ∧
    (∀ p, p < str ∨ str + size ≤ p → m' p = m p).
Proof.
  intros Hstr Hsize Hend. unfold collect.
  destruct (vprintfmt _ _ fuel fmt va []) as [[[] out']| |] eqn:E; [|done|done]. intros [= ->].
  unfold vsnprintf. rewrite u64_small by lia. cbn [sp_ebuf sp_buf].
  destruct (Z.eqb_spec str 0); [lia|]. destruct (Z.ltb_spec (str + size - 1) str); [lia|]. cbn [orb].
  destruct (msim_vprintfmt (buffered m str size) (collect_ld m str (str + size)) sp_load collect_put sprintputch)
    with (n := fuel) (p := fmt) (va := va) (ap := 0) (s1 := @nil Z) (s2 := SprintBuf m str (str + size - 1) 0) (a := tt) (s1' := out)
    as (b & E2 & [He Hb Hc Ht Ho]).
  - intros a s1 s2 v s1' HR. unfold collect_ld. destruct ((str <=? a) && (a <? str + size))%bool eqn:Ea; [done|].
    intros [= <- <-]. exists s2. split; [|done]. unfold sp_load, gets. rewrite (bf_other _ _ _ _ _ HR); [done|].
    apply andb_false_iff in Ea as [Ea|Ea]; b2p; lia.
  - intros c s1 s2 a s1' HR [= <- <-]. by apply buffered_put.
  - split; [done|simpl; lia|done|simpl; by rewrite take_nil|done].
  - exact E.
  - unfold vprintfmt. rewrite E2. eexists. split; [by rewrite Hc|]. split.
    + apply bytes_at_app. rewrite length_take, length_fmap. split.
      * eapply bytes_at_frame; [|exact Ht]. rewrite length_take, length_fmap. intros p Hp. rewrite upd_ne by lia. done.
      * split; [|done]. rewrite Hb.
        replace (str + Z.of_nat (Z.to_nat (size - 1) `min` length out)) with (str + Z.min (Z.of_nat (length out)) (size - 1)) by lia.
        by rewrite upd_eq.
    + intros p Hp. rewrite upd_ne by lia. by apply Ho.
Qed.

(** [collect] on a format of directives that avoids the buffer. *)
Lemma put_all_collect l out : put_all (λ c out, out ++ [c]) l out = out ++ l.
Proof. revert out. induction l as [|c l IH]; intros out; simpl; [by rewrite app_nil_r|]. rewrite IH. by rewrite <-app_assoc. Qed.

Lemma reads_collect m lo hi a l :
  bytes_at m a l → (a + Z.of_nat (length l) ≤ lo ∨ hi ≤ a) → reads (collect_ld m lo hi) (At a) l.
Proof.
  revert a. induction l as [|c l IH]; intros a Hb Hd; [done|]. destruct Hb as [Ha Hb]. simpl in Hd. split.
  - intros s. cbn [ldc]. unfold collect_ld. destruct ((lo <=? a) && (a <? hi))%bool eqn:E; [b2p; lia|]. by rewrite Ha.
  - apply IH; [done|lia].
Qed.

Lemma collect_text m lo hi fuel p ds str K va :
  Forall dir_ok ds → strings_ok (collect_ld m lo hi) str K va ds 0 → reads (collect_ld m lo hi) p (render ds ++ [0]) →
  (length (render ds) + K + 10 < fuel)%nat → collect m lo hi fuel p va = Ok (format_text str ds va 0).
Proof.
  intros Hd Hs Hr Hf. unfold collect, vprintfmt.
  rewrite (vprintfmt_text (collect_ld m lo hi) collect_put (λ c out, out ++ [c]) ltac:(done) str K va ds p 0 [] fuel) by done.
  by rewrite put_all_collect.
Qed.

(** *** Reading numbers back *)

Lemma s64_mul_add a b c : s64 (s64 a * b + c) = s64 (a * b + c).
Proof.
  unfold s64. f_equal.
  pose proof (Z.div_mod (a + 2 ^ 63) (2 ^ 64) ltac:(lia)) as H. set (q := (a + 2 ^ 63) / 2 ^ 64) in *.
  replace ((a + 2 ^ 63) mod 2 ^ 64 - 2 ^ 63) with (a - 2 ^ 64 * q) by lia.
  replace ((a - 2 ^ 64 * q) * b + c + 2 ^ 63) with (a * b + c + 2 ^ 63 + (- q * b) * 2 ^ 64) by ring.
  apply Z_mod_plus_full.
Qed.

Lemma digit_hexdigit d : 0 ≤ d < 16 → digit (hexdigit d) = Some d.
Proof.
  intros Hd. unfold hexdigit, digit. destruct (Z.ltb_spec d 10).
  - destruct (Z.leb_spec 48 (48 + d)), (Z.leb_spec (48 + d) 57); try lia. simpl. f_equal. lia.
  - destruct (Z.leb_spec 48 (87 + d)), (Z.leb_spec (87 + d) 57); try lia. simpl.
    destruct (Z.leb_spec 97 (87 + d)), (Z.leb_spec (87 + d) 122); try lia. simpl. f_equal. lia.
Qed.

Lemma strtol_digits_spec m base l a x v fuel :
  2 ≤ base ≤ 16 → Forall (λ d, 0 ≤ d < base) l → digit x = None →
  bytes_at m a ((hexdigit <$> l) ++ [x]) → (length l < fuel)%nat →
  strtol_digits fuel base a (s64 v) m = Ok ((s64 (foldl (λ v d, v * base + d) v l), a + Z.of_nat (length l)), m).
Proof.
  intros Hb. revert a v fuel. induction l as [|d l IH]; intros a v fuel Hl Hx Hm Hf; (destruct fuel as [|fuel]; [simpl in Hf; lia|]);
    cbn [fmap list_fmap app bytes_at] in Hm; destruct Hm as [Ha Hm]; cbn [strtol_digits]; unfold load; rewrite bind_gets, Ha.
  - rewrite Hx. simpl. by rewrite Z.add_0_r.
  - apply Forall_cons in Hl as [Hd Hl]. rewrite digit_hexdigit by lia. destruct (Z.leb_spec base d); [lia|].
    simpl in Hf. rewrite s64_mul_add, IH by (done || lia). cbn [foldl length].
    by replace (a + 1 + Z.of_nat (length l)) with (a + Z.of_nat (S (length l))) by lia.
Qed.

(** [strtol] in base 10 of a number as [%ld] prints it. *)
Lemma strtol_decimal m a neg l fuel :
  Forall (λ d, 0 ≤ d < 10) l → l ≠ [] → bytes_at m a ((if neg : bool then [45] else []) ++ (hexdigit <$> l) ++ [0]) →
  (length l < fuel)%nat →
  strtol fuel a 10 m =
    Ok ((s64 (if neg then - of_digits 10 l else of_digits 10 l), a + Z.of_nat (length l) + (if neg then 1 else 0)), m).
Proof.
  intros Hl Hne Hm Hf. destruct l as [|d l]; [done|]. destruct fuel as [|fuel]; [simpl in Hf; lia|].
  assert (0 ≤ d < 10) as Hd by by inversion Hl.
  assert (hexdigit d = 48 + d) as Hh by (unfold hexdigit; destruct (Z.ltb_spec d 10); lia).
  unfold strtol. cbn [skip_space]. unfold load.
  destruct neg; cbn [app fmap list_fmap] in Hm; destruct Hm as [Ha Hm].
  - rewrite !bind_assoc, !bind_gets, Ha. cbn [Z.eqb Pos.eqb orb]. rewrite bind_ret, bind_gets, Ha. cbn [Z.eqb Pos.eqb].
    rewrite !bind_gets. cbn [Z.eqb Pos.eqb orb andb].
    pose proof (strtol_digits_spec m 10 (d :: l) (a + 1) 0 0 (S fuel) ltac:(lia) Hl ltac:(done) Hm Hf) as E.
    change (s64 0) with 0 in E. rewrite (bind_ok _ _ _ _ _ E). unfold of_digits.
    set (v := foldl _ 0 (d :: l)).
    replace (- s64 v) with (s64 v * -1 + 0) by lia. rewrite s64_mul_add.
    replace (v * -1 + 0) with (- v) by lia.
    by replace (a + 1 + Z.of_nat (length (d :: l))) with (a + Z.of_nat (length (d :: l)) + 1) by lia.
  - rewrite !bind_assoc, !bind_gets, Ha, Hh.
    destruct (Z.eqb_spec (48 + d) 32); [lia|]. destruct (Z.eqb_spec (48 + d) 9); [lia|]. cbn [orb].
    rewrite bind_ret, bind_gets, Ha, Hh. destruct (Z.eqb_spec (48 + d) 43); [lia|]. destruct (Z.eqb_spec (48 + d) 45); [lia|].
    rewrite !bind_gets. cbn [Z.eqb Pos.eqb orb andb].
    pose proof (strtol_digits_spec m 10 (d :: l) a 0 0 (S fuel) ltac:(lia) Hl ltac:(done) ltac:(by split) Hf) as E.
    change (s64 0) with 0 in E. rewrite (bind_ok _ _ _ _ _ E). by rewrite Z.add_0_r.
Qed.

(** ** Theorems *)

(** C28. [vprintfmt] prints what its format says.  For every format made of plain
    characters and the escapes [%%], [%c], [%s], [%p] and [%d], [%u], [%o], [%x]
    with an optional zero flag, width and [l]s, whatever the way characters are
    put out, it returns and has printed exactly the text of the reference
    [format_text]: numbers in their shortest representation ([of_digits] of
    [digits] is the number), padded on the left to the width.  The fuel is linear
    in the length of the format and of the longest string. *)
Theorem vprintfmt_equivalent {T} (ld : Z → M T Z) putch put1 str K va ds p fuel s :
  (∀ c s, putch c s = Ok (tt, put1 c s)) →
  Forall dir_ok ds → strings_ok ld str K va ds 0 → reads ld p (render ds ++ [0]) →
  (length (render ds) + K + 10 < fuel)%nat →
  vprintfmt ld putch fuel p va s = Ok (tt, put_all put1 (format_text str ds va 0) s) ∧
  ∀ base num, 2 ≤ base → 0 ≤ num < 2 ^ 64 →
    of_digits base (digits 64 base num) = num ∧ (num ≠ 0 → head (digits 64 base num) ≠ Some 0).
Proof.
  intros Hput Hd Hs Hr Hf. split; [by apply (vprintfmt_text ld putch put1 Hput str K)|].
  intros base num Hb Hn. destruct (digits_spec 64 base num Hb) as (? & _ & _ & ?); [|lia|done].
  split; [lia|]. eapply Z.lt_le_trans; [apply Hn|]. change (Z.of_nat 64) with 64. apply Z.pow_le_mono_l. lia.
Qed.

(** ["%05d-%s"] *)
Definition example_format : list directive := [Num true 5 0 Dec; Plain 45; Str].

Lemma vprintfmt_equivalent_witness :
  vprintfmt (collect_ld (λ a, if a =? 300 then 111 else if a =? 301 then 107 else 0) 0 0) collect_put 30
    (Lit (render example_format) 0) (λ i, if i =? 0 then 42 else 300) [] = Ok (tt, [48; 48; 48; 52; 50; 45; 111; 107]).
Proof.
  destruct (vprintfmt_equivalent (collect_ld (λ a, if a =? 300 then 111 else if a =? 301 then 107 else 0) 0 0) collect_put
    (λ c out, out ++ [c]) (λ _, [111; 107]) 3 (λ i, if i =? 0 then 42 else 300) example_format (Lit (render example_format) 0) 30 [])
    as [E _].
  - reflexivity.
  - repeat constructor; simpl; lia.
  - split; [discriminate|]. split; [discriminate|]. split; [|exact I]. intros _ _. split; [|split; [repeat constructor; lia|simpl; lia]].
    repeat split; reflexivity.
  - apply reads_lit.
  - vm_compute. lia.
  - rewrite E. vm_compute. reflexivity.
Defined.

(** C29. [snprintf] stays within its buffer.  Whatever the format, its flags and its
    arguments, if formatting returns the text [out] without reading the buffer it
    writes to, then [vsnprintf] stores the first [size - 1] characters of [out] and
    a terminating zero, writes no byte outside the [size] bytes of the buffer and
    returns the length of the whole text; a buffer of size 0 or at address 0 is
    refused. *)
Theorem vsnprintf_bounds fuel str size fmt va m :
  0 ≤ str → 0 ≤ size → str + size ≤ 2 ^ 64 →
  (str = 0 ∨ size = 0 → vsnprintf fuel str size fmt va m = Ok (- E_INVAL, m)) ∧
  (0 < str → 0 < size → ∀ out, collect m str (str + size) fuel fmt va = Ok out →
    ∃ m', vsnprintf fuel str size fmt va m = Ok (s32 (Z.of_nat (length out)), m') ∧
      bytes_at m' str (take (Z.to_nat (size - 1)) (u8 <$> out) ++ [0]) ∧
      (∀ p, p < str ∨ str + size ≤ p → m' p = m p)).
Proof.
  intros Hs Hz Hend. split; [|intros; by apply vsnprintf_spec].
  intros H. unfold vsnprintf. cbn [sp_ebuf sp_buf]. destruct (Z.eqb_spec str 0); [done|]. destruct H as [?|Hs0]; [done|]. subst size.
  rewrite u64_small by lia. destruct (Z.ltb_spec (str + 0 - 1) str); [done|lia].
Qed.

Lemma vsnprintf_bounds_witness :
  ∃ m', vsnprintf 30 100 4 (lit "n=%d") (λ _, 123) (λ _, 7) = Ok (5, m') ∧ bytes_at m' 100 [110; 61; 49; 0] ∧ m' 104 = 7.
Proof.
  destruct (vsnprintf_bounds 30 100 4 (lit "n=%d") (λ _, 123) (λ _, 7)) as [_ H]; [lia..|].
  destruct (H ltac:(lia) ltac:(lia) [110; 61; 49; 50; 51] ltac:(vm_compute; reflexivity)) as (m' & E & Hb & Ho).
  exists m'. split; [exact E|]. split; [exact Hb|]. rewrite Ho by lia. reflexivity.
Defined.

Lemma digits_length n base num : (length (digits n base num) ≤ n)%nat.
Proof.
  revert num. induction n as [|n IH]; intros num; cbn [digits]; [done|]. rewrite length_app. cbn [length].
  specialize (IH (num / base)). destruct (base <=? num); cbn [length]; lia.
Qed.

(** The text of ["%ld"]: a sign and at most 20 digits. *)
Lemma decimal_text v :
  - 2 ^ 63 ≤ v < 2 ^ 63 →
  ∃ l, format_text (λ _, []) [Num false 0 1 Dec] (λ _, v) 0 = (if v <? 0 then [45] else []) ++ (hexdigit <$> l) ∧
    of_digits 10 l = Z.abs v ∧ Forall (λ d, 0 ≤ d < 10) l ∧ l ≠ [] ∧ (length l ≤ 20)%nat.
Proof.
  intros Hv. exists (digits 64 10 (Z.abs v)). cbn [format_text dir_text conv_text]. rewrite app_nil_r.
  assert (getint v (Z.of_nat 1) = v) as ->.
  { change (getint v (Z.of_nat 1)) with (s64 v). unfold s64.
    rewrite Z.mod_small by lia. lia. }
  destruct (digits_spec 64 10 (Z.abs v)) as (? & ? & ? & _); [lia|change (Z.of_nat 64) with 64; lia|lia|].
  split_and!; [|done..|].
  - cbn [Z.eqb]. unfold number_text. by replace (Z.to_nat (-1 - _)) with 0%nat by lia.
  - rewrite (digits_fuel 64 20); [apply digits_length|lia|change (Z.of_nat 64) with 64; lia|change (Z.of_nat 20) with 20; lia|lia|lia].
Qed.

Definition print_long (str size v : Z) : M mem Z := snprintf 30 str size (lit "%ld") (λ _, v).

(** C30. Printing a number and reading it back gives the number: [strtol] in base 10
    of what [snprintf] with ["%ld"] wrote returns the argument and the end of the
    text, for every 64-bit value and every buffer of at least 22 bytes. *)
Theorem snprintf_strtol_roundtrip str size v m :
  0 < str → 22 ≤ size → str + size ≤ 2 ^ 64 → - 2 ^ 63 ≤ v < 2 ^ 63 →
  ∃ n m', print_long str size v m = Ok (n, m') ∧ 0 < n < size ∧
    strtol 30 str 10 m' = Ok ((v, str + n), m').
Proof.
  intros Hstr Hsize Hend Hv. destruct (decimal_text v Hv) as (l & Et & Hval & Hl & Hne & Hlen).
  assert (0 < length l)%nat as Hpos by (destruct l; [done|simpl; lia]).
  assert (collect m str (str + size) 30 (lit "%ld") (λ _, v) = Ok ((if v <? 0 then [45] else []) ++ (hexdigit <$> l))) as Ec.
  { rewrite <-Et. apply (collect_text m str (str + size) 30 (lit "%ld") [Num false 0 1 Dec] (λ _, []) 0).
    - repeat constructor; simpl; lia.
    - by split.
    - apply reads_lit.
    - vm_compute. lia. }
  destruct (vsnprintf_spec 30 str size (lit "%ld") (λ _, v) m _ Hstr ltac:(lia) Hend Ec) as (m' & E & Hb & _).
  eexists _, m'. split; [exact E|]. rewrite length_app, length_fmap.
  assert (∀ c, 0 ≤ c < 256 → u8 c = c) as Hu8 by (intros; by apply Z.mod_small).
  assert (u8 <$> (if v <? 0 then [45] else []) ++ (hexdigit <$> l) = (if v <? 0 then [45] else []) ++ (hexdigit <$> l)) as Eu.
  { rewrite fmap_app, <-list_fmap_compose. f_equal; [by destruct (v <? 0)|]. apply list_fmap_ext. intros i d Hi.
    rewrite Forall_lookup in Hl. specialize (Hl i d Hi). apply Hu8. unfold hexdigit. destruct (Z.ltb_spec d 10); lia. }
  assert (Z.of_nat (length (if v <? 0 then [45] else [])) = if v <? 0 then 1 else 0) as Hsg by by destruct (v <? 0).
  rewrite Eu, take_ge in Hb by (rewrite length_app, length_fmap; destruct (v <? 0); simpl; lia).
  rewrite s32_small by (destruct (v <? 0); simpl; lia). split; [destruct (v <? 0); simpl; lia|].
  rewrite <-app_assoc in Hb. rewrite (strtol_decimal m' str (v <? 0) l 30) by (done || lia). rewrite Hval.
  rewrite Nat2Z.inj_add, Hsg. unfold s64.
  destruct (Z.ltb_spec v 0); rewrite Z.mod_small by lia; do 3 f_equal; lia.
Qed.

Lemma snprintf_strtol_roundtrip_witness :
  ∃ n m', print_long 100 32 (-907) (λ _, 7) = Ok (n, m') ∧ strtol 30 100 10 m' = Ok ((-907, 100 + n), m').
Proof.
  destruct (snprintf_strtol_roundtrip 100 32 (-907) (λ _, 7)) as (n & m' & E & _ & H); [lia..|].
  exists n, m'. split; [exact E|exact H].
Defined.
