(* ===== verification/Bitmap.v ===== *)
(** * kern/fs/sfs/bitmap.c: the block bitmap

    A set bit is a free block.  The abstract view of a bitmap is the set of its
    free indices; allocation takes the smallest one. *)

From S2P Require Import Prelude.

(** [struct bitmap]; the words are a function of their index. *)
Record bitmap := Bitmap {
  nbits : Z;
  nwords : Z;
  map : Z → Z;
}.

Definition WORD_BITS : Z := 32.

Definition set_word (ix v : Z) (b : bitmap) : bitmap := Bitmap (nbits b) (nwords b) (upd ix v (map b)).

(** [1 << offset] at [WORD_TYPE] *)
Definition mask (offset : Z) : Z := u32 (Z.shiftl 1 offset).

(** [for (; overbits < WORD_BITS; overbits ++) map[ix] ^= (1 << overbits)] *)
Fixpoint mark_leftover (n : nat) (overbits w : Z) : Z :=
  match n with
  | O => w
  | S n' => mark_leftover n' (overbits + 1) (Z.lxor w (mask overbits))
  end.

(** [kmalloc] is called for the object and for the words; [got1] and [got2] tell
    whether it returned memory. *)
Definition bitmap_create (got1 got2 : bool) (nbits : Z) : res (option bitmap) :=
  if (negb (nbits =? 0) && (nbits <? u64 (nbits + WORD_BITS)))%bool then
    if negb got1 then Ok None
    else
      let nwords := u32 (ROUNDUP_DIV nbits WORD_BITS) in
      if negb got2 then Ok None
      else
        let words := λ _ : Z, 0xFFFFFFFF in
        if negb (nbits =? nwords * WORD_BITS) then
          let ix := u32 (nwords - 1) in
          let overbits := u32 (nbits - ix * WORD_BITS) in
          if ((nbits / WORD_BITS =? ix) && ((0 <? overbits) && (overbits <? WORD_BITS)))%bool then
            Ok (Some (Bitmap nbits nwords
              (upd ix (mark_leftover (Z.to_nat (WORD_BITS - overbits)) overbits (words ix)) words)))
          else Panic
        else Ok (Some (Bitmap nbits nwords words))
  else Panic.

(** The inner loop of [bitmap_alloc]: the first set bit of a word. *)
Fixpoint find_bit (n : nat) (offset w : Z) : option Z :=
  match n with
  | O => None
  | S n' => if truth (Z.land w (mask offset)) then Some offset else find_bit n' (offset + 1) w
  end.

(** The outer loop, from word [ix] on. *)
Fixpoint alloc_from (n : nat) (ix : Z) : M bitmap (option Z) :=
  match n with
  | O => mret None
  | S n' =>
    w ← gets (λ b, map b ix);
    if negb (w =? 0) then
      match find_bit 32 0 w with
      | Some offset =>
        modify (set_word ix (Z.lxor w (mask offset)));;
        mret (Some (u32 (ix * WORD_BITS + offset)))
      | None => panic
      end
    else alloc_from n' (ix + 1)
  end.

(** [None] is [-E_NO_MEM]. *)
Definition bitmap_alloc : M bitmap (option Z) :=
  n ← gets nwords;
  alloc_from (Z.to_nat n) 0.

(** The word and the mask of an index. *)
Definition bitmap_translate (index : Z) : M bitmap (Z * Z) :=
  asserts (λ b, index <? nbits b);;
  mret (index / WORD_BITS, mask (index mod WORD_BITS)).

Definition bitmap_test (index : Z) : M bitmap bool :=
  '(word, mask) ← bitmap_translate index;
  gets (λ b, truth (Z.land (map b word) mask)).

Definition bitmap_free (index : Z) : M bitmap unit :=
  '(word, mask) ← bitmap_translate index;
  asserts (λ b, negb (truth (Z.land (map b word) mask)));;
  modify (λ b, set_word word (Z.lor (map b word) mask) b).

(** The words as the bytes to be written to disk: their length. *)
Definition bitmap_getdata (b : bitmap) : (Z → Z) * Z := (map b, 4 * nwords b).

(** ** The abstract view *)

Definition is_free (b : bitmap) (i : Z) : bool := Z.testbit (map b (i / 32)) (i mod 32).

Record bitmap_wf (b : bitmap) : Prop := BitmapWf {
  wf_nbits : 0 < nbits b < 2 ^ 32 - 32;
  wf_nwords : nwords b = (nbits b + 31) / 32;
  wf_words : ∀ ix, 0 ≤ map b ix < 2 ^ 32;
  wf_tail : ∀ i, nbits b ≤ i < 32 * nwords b → is_free b i = false;
}.

(** ** Bits of words *)

Lemma mask_testbit o i : 0 ≤ o < 32 → Z.testbit (mask o) i = bool_decide (i = o).
Proof.
  intros Ho. unfold mask. rewrite Z.shiftl_1_l. rewrite u32_small.
  - rewrite Z.pow2_bits_eqb by lia. case_bool_decide; subst; [apply Z.eqb_refl|apply Z.eqb_neq; lia].
  - split; [lia|]. apply Z.pow_lt_mono_r; lia.
Qed.

Lemma land_mask w o : 0 ≤ o < 32 → truth (Z.land w (mask o)) = Z.testbit w o.
Proof.
  intros Ho. unfold truth. destruct (Z.testbit w o) eqn:E.
  - apply negb_true_iff, Z.eqb_neq. intros H0.
    assert (Z.testbit (Z.land w (mask o)) o = true) as Ht.
    { by rewrite Z.land_spec, E, mask_testbit, bool_decide_eq_true_2 by lia. }
    by rewrite H0, Z.testbit_0_l in Ht.
  - apply negb_false_iff, Z.eqb_eq. apply Z.bits_inj. intros i.
    rewrite Z.land_spec, mask_testbit, Z.testbit_0_l by lia.
    case_bool_decide; subst; [by rewrite E|by rewrite andb_false_r].
Qed.

Lemma range_testbit w : 0 ≤ w → (∀ i, 32 ≤ i → Z.testbit w i = false) → 0 ≤ w < 2 ^ 32.
Proof.
  intros Hw Hb. split; [done|]. destruct (decide (w = 0)) as [->|]; [lia|].
  apply Z.log2_lt_pow2; [lia|]. destruct (Z.lt_ge_cases (Z.log2 w) 32) as [|Hl]; [done|].
  specialize (Hb _ Hl). rewrite Z.bit_log2 in Hb by lia. done.
Qed.

Lemma testbit_range w i : 0 ≤ w < 2 ^ 32 → 32 ≤ i → Z.testbit w i = false.
Proof.
  intros [H0 H1] Hi. destruct (decide (w = 0)) as [->|]; [apply Z.testbit_0_l|].
  apply Z.bits_above_log2; [done|]. apply Z.log2_lt_pow2 in H1; lia.
Qed.

(** [find_bit] finds the lowest set bit. *)
Lemma find_bit_spec n offset w :
  match find_bit n offset w with
  | Some o => offset ≤ o < offset + Z.of_nat n ∧ truth (Z.land w (mask o)) = true ∧
      ∀ i, offset ≤ i < o → truth (Z.land w (mask i)) = false
  | None => ∀ i, offset ≤ i < offset + Z.of_nat n → truth (Z.land w (mask i)) = false
  end.
Proof.
  revert offset. induction n as [|n IH]; intros offset; cbn [find_bit]; [lia|].
  destruct (truth (Z.land w (mask offset))) eqn:E.
  - split_and!; [lia|lia|done|lia].
  - specialize (IH (offset + 1)). destruct (find_bit n (offset + 1) w) as [o|].
    + destruct IH as (H1 & H2 & H3). split_and!; [lia|lia|done|]. intros i Hi.
      destruct (decide (i = offset)) as [->|]; [done|]. apply H3. lia.
    + intros i Hi. destruct (decide (i = offset)) as [->|]; [done|]. apply IH. lia.
Qed.

Lemma find_bit_word w :
  0 ≤ w < 2 ^ 32 → w ≠ 0 →
  ∃ o, find_bit 32 0 w = Some o ∧ 0 ≤ o < 32 ∧ Z.testbit w o = true ∧
    ∀ i, 0 ≤ i < o → Z.testbit w i = false.
Proof.
  intros Hw Hne. pose proof (find_bit_spec 32 0 w) as H. destruct (find_bit 32 0 w) as [o|].
  - destruct H as (H1 & H2 & H3). exists o. rewrite land_mask in H2 by lia.
    split_and!; [done|lia|lia|done|]. intros i Hi. rewrite <-land_mask by lia. by apply H3.
  - destruct Hne. apply Z.bits_inj. intros i. rewrite Z.testbit_0_l.
    destruct (Z.lt_ge_cases i 0); [by apply Z.testbit_neg_r|].
    destruct (Z.lt_ge_cases i 32); [|by apply testbit_range].
    rewrite <-land_mask by lia. apply H. lia.
Qed.

(** ** Allocation *)

(** Index [i] and its word and offset. *)
Lemma index_split i : i = 32 * (i / 32) + i mod 32 ∧ 0 ≤ i mod 32 < 32.
Proof. split; [apply Z.div_mod; lia|apply Z.mod_pos_bound; lia]. Qed.

Lemma index_of ix o : 0 ≤ o < 32 → (ix * 32 + o) / 32 = ix ∧ (ix * 32 + o) mod 32 = o.
Proof.
  intros Ho. split.
  - rewrite Z.div_add_l by lia. rewrite (Z.div_small o) by lia. lia.
  - rewrite Z.add_comm, Z.mod_add by lia. by apply Z.mod_small.
Qed.

(** Clearing one bit of one word. *)
Lemma is_free_clear b ix o i :
  0 ≤ o < 32 → Z.testbit (map b ix) o = true →
  is_free (set_word ix (Z.lxor (map b ix) (mask o)) b) i =
    (negb (bool_decide (i = ix * 32 + o)) && is_free b i)%bool.
Proof.
  intros Ho Hb. unfold is_free, set_word. simpl. pose proof (index_split i) as [Hi Hr].
  destruct (decide (ix = i / 32)) as [->|Hne].
  - rewrite upd_eq, Z.lxor_spec, mask_testbit by lia. destruct (decide (i mod 32 = o)) as [<-|Hno].
    + rewrite !bool_decide_eq_true_2 by lia. by rewrite Hb.
    + rewrite !bool_decide_eq_false_2 by lia. by rewrite xorb_false_r.
  - rewrite upd_ne by done. rewrite bool_decide_eq_false_2; [done|]. intros ->.
    destruct (index_of ix o Ho). lia.
Qed.

Lemma set_word_wf b ix v :
  bitmap_wf b → 0 ≤ v < 2 ^ 32 →
  (∀ i, nbits b ≤ i < 32 * nwords b → is_free (set_word ix v b) i = false) → bitmap_wf (set_word ix v b).
Proof.
  intros [H1 H2 H3 H4] Hv Ht. split; simpl; [done|done| |done].
  intros i. unfold upd. by case_decide.
Qed.

Lemma lxor_mask_range w o : 0 ≤ w < 2 ^ 32 → 0 ≤ o < 32 → 0 ≤ Z.lxor w (mask o) < 2 ^ 32.
Proof.
  intros Hw Ho. apply range_testbit.
  - apply Z.lxor_nonneg. split; intros _; [|lia]. unfold mask. apply u32_range.
  - intros i Hi. rewrite Z.lxor_spec, mask_testbit, (testbit_range w) by lia.
    rewrite bool_decide_eq_false_2 by lia. done.
Qed.

Lemma alloc_from_spec b n ix :
  bitmap_wf b → 0 ≤ ix → ix + Z.of_nat n = nwords b →
  (∃ i b', alloc_from n ix b = Ok (Some i, b') ∧ bitmap_wf b' ∧ 32 * ix ≤ i < nbits b ∧
     is_free b i = true ∧ (∀ j, 32 * ix ≤ j < i → is_free b j = false) ∧ nbits b' = nbits b ∧
     ∀ j, is_free b' j = (negb (bool_decide (j = i)) && is_free b j)%bool) ∨
  (alloc_from n ix b = Ok (None, b) ∧ ∀ i, 32 * ix ≤ i < nbits b → is_free b i = false).
Proof.
  intros Hwf. pose proof Hwf as [Hnb Hnw Hw Ht].
  assert (nbits b ≤ 32 * nwords b) as Hcov.
  { rewrite Hnw. pose proof (Z.div_mod (nbits b + 31) 32 ltac:(lia)).
    pose proof (Z.mod_pos_bound (nbits b + 31) 32 ltac:(lia)). lia. }
  assert (nwords b < 2 ^ 27) as Hsm.
  { rewrite Hnw. apply Z.div_lt_upper_bound; lia. }
  revert ix. induction n as [|n IH]; intros ix Hix Hn; cbn [alloc_from].
  { right. split; [done|]. lia. }
  rewrite bind_gets. destruct (Z.eqb_spec (map b ix) 0) as [E|E]; cbn [negb].
  - assert (∀ j, 32 * ix ≤ j < 32 * (ix + 1) → is_free b j = false) as Hz.
    { intros j Hj. unfold is_free. pose proof (index_split j).
      replace (j / 32) with ix by lia. rewrite E. apply Z.testbit_0_l. }
    destruct (IH (ix + 1)) as [(i & b' & E' & Hwf' & Hi & Hf & Hmin & Hnb' & Hfr)|[E' Hnone]]; [lia..| |].
    + left. exists i, b'. split_and!; try done; [lia|lia|]. intros j Hj.
      destruct (Z.lt_ge_cases j (32 * (ix + 1))); [apply Hz; lia|apply Hmin; lia].
    + right. split; [done|]. intros j Hj.
      destruct (Z.lt_ge_cases j (32 * (ix + 1))); [apply Hz; lia|apply Hnone; lia].
  - left. destruct (find_bit_word (map b ix) (Hw ix) E) as (o & Eo & Ho & Hbit & Hlow). rewrite Eo. msteps.
    destruct (index_of ix o Ho) as [Hq Hr].
    assert (is_free b (ix * 32 + o) = true) as Hf by (unfold is_free; by rewrite Hq, Hr).
    assert (ix * 32 + o < nbits b) as Hlt.
    { destruct (Z.lt_ge_cases (ix * 32 + o) (nbits b)); [done|]. rewrite Ht in Hf by lia. done. }
    unfold WORD_BITS. rewrite u32_small by lia. eexists (ix * 32 + o), _. split; [reflexivity|].
    split_and!; [|lia|lia|done| |done|intros j; by apply is_free_clear].
    + apply set_word_wf; [done|by apply lxor_mask_range|]. intros i Hi.
      rewrite is_free_clear by done. rewrite Ht by lia. apply andb_false_r.
    + intros j Hj. unfold is_free. pose proof (index_split j). replace (j / 32) with ix by lia. apply Hlow. lia.
Qed.

(** ** The properties *)

Lemma bitmap_alloc_spec b :
  bitmap_wf b →
  (∃ i b', bitmap_alloc b = Ok (Some i, b') ∧ bitmap_wf b' ∧ 0 ≤ i < nbits b ∧
     is_free b i = true ∧ (∀ j, 0 ≤ j < i → is_free b j = false) ∧ nbits b' = nbits b ∧
     ∀ j, is_free b' j = (negb (bool_decide (j = i)) && is_free b j)%bool) ∨
  (bitmap_alloc b = Ok (None, b) ∧ ∀ i, 0 ≤ i < nbits b → is_free b i = false).
Proof.
  intros Hwf. unfold bitmap_alloc. rewrite bind_gets.
  apply (alloc_from_spec b (Z.to_nat (nwords b)) 0 Hwf); [lia|].
  pose proof Hwf as [Hnb Hnw _ _]. rewrite Hnw, Z2Nat.id; [lia|]. apply Z.div_pos; lia.
Qed.

(** [bitmap_alloc] takes the smallest free index, which is a valid one, and
    only that one; it reports [-E_NO_MEM] exactly when nothing is free, and never
    fails its assertion.  The invariant holds again. *)
Theorem bitmap_alloc_smallest b :
  bitmap_wf b →
  (∃ i b', bitmap_alloc b = Ok (Some i, b') ∧ bitmap_wf b' ∧ 0 ≤ i < nbits b ∧
     is_free b i = true ∧ (∀ j, 0 ≤ j < i → is_free b j = false) ∧ nbits b' = nbits b ∧
     ∀ j, is_free b' j = (negb (bool_decide (j = i)) && is_free b j)%bool) ∨
  (bitmap_alloc b = Ok (None, b) ∧ ∀ i, 0 ≤ i < nbits b → is_free b i = false).
Proof. apply bitmap_alloc_spec. Qed.

Lemma mark_leftover_spec n o w i :
  0 ≤ o → o + Z.of_nat n ≤ 32 →
  Z.testbit (mark_leftover n o w) i = xorb (Z.testbit w i) (bool_decide (o ≤ i < o + Z.of_nat n)).
Proof.
  revert o w. induction n as [|n IH]; intros o w Ho Hn; cbn [mark_leftover].
  - rewrite bool_decide_eq_false_2 by lia. by rewrite xorb_false_r.
  - rewrite IH by lia. rewrite Z.lxor_spec, mask_testbit by lia.
    destruct (decide (i = o)) as [->|].
    + rewrite (bool_decide_eq_true_2 (o = o)), (bool_decide_eq_false_2 (o + 1 ≤ _ < _)),
        (bool_decide_eq_true_2 (o ≤ _ < _)) by lia. by rewrite xorb_false_r.
    + rewrite (bool_decide_eq_false_2 (i = o)) by done. rewrite xorb_false_r. f_equal.
      apply bool_decide_ext. lia.
Qed.

Lemma mark_leftover_range n o w :
  0 ≤ o → o + Z.of_nat n ≤ 32 → 0 ≤ w < 2 ^ 32 → 0 ≤ mark_leftover n o w < 2 ^ 32.
Proof.
  revert o w. induction n as [|n IH]; intros o w Ho Hn Hw; cbn [mark_leftover]; [done|].
  apply IH; [lia|lia|]. apply lxor_mask_range; [done|lia].
Qed.

Lemma all_ones_testbit i : 0 ≤ i < 32 → Z.testbit 0xFFFFFFFF i = true.
Proof. intros Hi. change 0xFFFFFFFF with (Z.ones 32). rewrite Z.testbit_ones_nonneg by lia. lia. Qed.

Lemma bitmap_create_spec n :
  0 < n < 2 ^ 32 - 32 →
  ∃ b, bitmap_create true true n = Ok (Some b) ∧ bitmap_wf b ∧ nbits b = n ∧
    ∀ i, 0 ≤ i < 32 * nwords b → is_free b i = bool_decide (i < n).
Proof.
  intros Hn. unfold bitmap_create, WORD_BITS, ROUNDUP_DIV.
  rewrite (u64_small 32), (u64_small (n + 32)), (u64_small (n + 32 - 1)) by lia.
  destruct (Z.eqb_spec n 0); [lia|]. destruct (Z.ltb_spec n (n + 32)); [|lia]. cbn [negb andb].
  replace (n + 32 - 1) with (n + 31) by lia. set (nw := (n + 31) / 32).
  pose proof (index_split (n + 31)) as [Hs1 Hs2]. fold nw in Hs1.
  rewrite (u32_small nw) by lia. destruct (Z.eqb_spec n (nw * 32)) as [E|E]; cbn [negb].
  - eexists. split; [reflexivity|]. assert (∀ i, is_free (Bitmap n nw (λ _, 0xFFFFFFFF)) i = true) as Hall.
    { intros i. unfold is_free. simpl map. apply all_ones_testbit. apply index_split. }
    split_and!; [split; simpl; [done|done|lia|lia]|done|]. simpl. intros i Hi.
    rewrite Hall, bool_decide_eq_true_2 by lia. done.
  - rewrite (u32_small (nw - 1)) by lia. rewrite (u32_small (n - (nw - 1) * 32)) by lia.
    set (ov := n - (nw - 1) * 32). assert (0 < ov < 32) as Hov by lia.
    destruct (Z.eqb_spec (n / 32) (nw - 1)) as [_|Hx]; [|pose proof (index_split n); lia].
    destruct (Z.ltb_spec 0 ov); [|lia]. destruct (Z.ltb_spec ov 32); [|lia]. cbn [andb].
    eexists. split; [reflexivity|]. set (lw := mark_leftover _ _ _). set (b := Bitmap _ _ _).
    assert (∀ i, 0 ≤ i < 32 * nw → is_free b i = bool_decide (i < n)) as Hfree.
    { intros i Hi. unfold is_free, b. simpl map. pose proof (index_split i) as [Hi1 Hi2].
      destruct (decide (nw - 1 = i / 32)) as [Hw|Hw].
      - rewrite <-Hw, upd_eq. unfold lw. rewrite mark_leftover_spec by lia. rewrite all_ones_testbit by lia.
        rewrite Z2Nat.id by lia. destruct (decide (i < n)).
        + rewrite bool_decide_eq_false_2, bool_decide_eq_true_2 by lia. done.
        + rewrite bool_decide_eq_true_2, bool_decide_eq_false_2 by lia. done.
      - rewrite upd_ne by done. rewrite all_ones_testbit by done. rewrite bool_decide_eq_true_2 by lia. done. }
    split_and!; [|done|exact Hfree]. split; simpl; [done|done| |].
    + intros ix. unfold upd. case_decide; [|lia]. unfold lw. apply mark_leftover_range; lia.
    + intros i Hi. rewrite Hfree by lia. rewrite bool_decide_eq_false_2 by lia. done.
Qed.

(** [bitmap_create] makes a well-formed bitmap in which exactly the [nbits]
    indices are free: the leftover bits of the last word are marked in use, and
    its assertions hold for every size below the 32-bit limit. *)
Theorem bitmap_create_all_free n :
  0 < n < 2 ^ 32 - 32 →
  ∃ b, bitmap_create true true n = Ok (Some b) ∧ bitmap_wf b ∧ nbits b = n ∧
    ∀ i, 0 ≤ i < 32 * nwords b → is_free b i = bool_decide (i < n).
Proof. apply bitmap_create_spec. Qed.

Lemma bitmap_create_all_free_witness :
  ∃ b, bitmap_create true true 40 = Ok (Some b) ∧ is_free b 39 = true ∧ is_free b 40 = false.
Proof.
  destruct (bitmap_create_all_free 40) as (b & E & Hwf & Hn & Hf); [lia|].
  exists b. destruct Hwf as [_ Hw _ _]. rewrite Hn in Hw. change ((40 + 31) / 32) with 2 in Hw.
  split_and!; [exact E|rewrite Hf by lia; reflexivity..].
Defined.

Lemma bitmap_alloc_smallest_witness :
  ∃ b i b', bitmap_create true true 40 = Ok (Some b) ∧ bitmap_alloc b = Ok (Some i, b') ∧ is_free b' i = false.
Proof.
  destruct (bitmap_create_spec 40) as (b & E & Hwf & Hn & Hf); [lia|].
  destruct (bitmap_alloc_smallest b Hwf) as [(i & b' & Ea & _ & _ & _ & _ & _ & Hfr)|[_ Hno]].
  - exists b, i, b'. split_and!; [exact E|exact Ea|]. rewrite Hfr, bool_decide_eq_true_2 by done. done.
  - exfalso. specialize (Hno 0 ltac:(lia)). rewrite Hf in Hno; [discriminate Hno|].
    destruct Hwf as [_ Hw _ _]. rewrite Hw, Hn. change ((40 + 31) / 32) with 2. lia.
Defined.

Lemma bitmap_free_spec b i :
  bitmap_wf b → 0 ≤ i < nbits b → is_free b i = false →
  ∃ b2, bitmap_free i b = Ok (tt, b2) ∧ bitmap_wf b2 ∧ nbits b2 = nbits b ∧
    ∀ j, is_free b2 j = (bool_decide (j = i) || is_free b j)%bool.
Proof.
  intros Hwf Hi Hfi. pose proof (index_split i) as [Hi1 Hi2]. unfold bitmap_free, bitmap_translate.
  rewrite bind_assoc, bind_asserts by lia. rewrite bind_ret. cbn beta iota.
  unfold WORD_BITS. unfold is_free in Hfi. rewrite bind_asserts by (rewrite land_mask by lia; by rewrite Hfi).
  eexists. split; [reflexivity|]. set (v := Z.lor _ _).
  assert (∀ j, is_free (set_word (i / 32) v b) j = (bool_decide (j = i) || is_free b j)%bool) as Hall.
  { intros j. unfold is_free, set_word. simpl. pose proof (index_split j) as [Hj1 Hj2].
    destruct (decide (i / 32 = j / 32)) as [Hq|Hq].
    - rewrite Hq, upd_eq. unfold v. rewrite Z.lor_spec, mask_testbit, Hq by lia. rewrite orb_comm. f_equal.
      by apply bool_decide_ext; lia.
    - rewrite upd_ne by done. rewrite bool_decide_eq_false_2; [done|]. lia. }
  split; [|by split]. apply set_word_wf; [done| |].
  - unfold v. destruct Hwf as [_ _ Hw _]. specialize (Hw (i / 32)). apply range_testbit.
    + apply Z.lor_nonneg. split; [lia|]. unfold mask. apply u32_range.
    + intros k Hk. rewrite Z.lor_spec, mask_testbit, (testbit_range (map b _)) by lia.
      rewrite bool_decide_eq_false_2 by lia. done.
  - intros j Hj. rewrite Hall. destruct Hwf as [_ Hnw _ Ht]. rewrite Ht by done.
    rewrite bool_decide_eq_false_2 by lia. done.
Qed.

Lemma bitmap_test_spec b i :
  bitmap_wf b → i < nbits b → bitmap_test i b = Ok (is_free b i, b).
Proof.
  intros Hwf Hi. pose proof (index_split i) as [_ Hi2]. unfold bitmap_test, bitmap_translate.
  rewrite bind_assoc, bind_asserts by lia. rewrite bind_ret. cbn beta iota. unfold gets, WORD_BITS.
  by rewrite land_mask by lia.
Qed.

(** [bitmap_free] undoes [bitmap_alloc]: freeing the index that was allocated
    returns without failing an assertion and makes the free set what it was. *)
Theorem bitmap_alloc_free_roundtrip b i b1 :
  bitmap_wf b → bitmap_alloc b = Ok (Some i, b1) →
  ∃ b2, bitmap_free i b1 = Ok (tt, b2) ∧ bitmap_wf b2 ∧ ∀ j, is_free b2 j = is_free b j.
Proof.
  intros Hwf E. destruct (bitmap_alloc_spec b Hwf) as [(i' & b' & E' & Hwf' & Hi & Hf & _ & Hnb & Hfr)|[E' _]];
    rewrite E in E'; simplify_eq.
  destruct (bitmap_free_spec b' i' Hwf') as (b2 & E2 & Hwf2 & _ & H2); [by rewrite Hnb|by rewrite Hfr, bool_decide_eq_true_2|].
  exists b2. split; [done|]. split; [done|]. intros j. rewrite H2, Hfr. case_bool_decide; subst; [by rewrite Hf|done].
Qed.

Lemma bitmap_alloc_free_roundtrip_witness :
  let b := Bitmap 32 1 (λ _, 6) in
  ∃ b1 b2, bitmap_alloc b = Ok (Some 1, b1) ∧ bitmap_free 1 b1 = Ok (tt, b2) ∧ is_free b2 1 = true.
Proof.
  intros b. assert (bitmap_wf b) as Hwf.
  { split; simpl; [lia|reflexivity|lia|lia]. }
  eexists. destruct (bitmap_alloc_free_roundtrip b 1 (set_word 0 4 b) Hwf eq_refl) as (b2 & E & _ & H).
  exists b2. split_and!; [reflexivity|exact E|]. rewrite H. reflexivity.
Defined.
