(* ===== verification/Vmm.v ===== *)
(** * kern/mm/vmm.c: virtual memory areas

    [mm_struct]s and [vma_struct]s are named by integers; their fields are
    functions.  The [mmap_list] of an [mm] and the [list_link]s of its areas form
    one list heap.  The abstract view of an [mm] is the sorted list of its areas. *)

From S2P Require Import Prelude ListH CString.

(** ** Data *)

Inductive mentry := MHead (mm : Z) | MVma (vma : Z).

#[global] Instance mentry_eq_dec : EqDecision mentry.
Proof. solve_decision. Defined.

#[global] Instance MVma_inj : Inj (=) (=) MVma.
Proof. by intros ?? [= ->]. Qed.

Record vmm := Vmm {
  mmap : lheap mentry;
  vm_start : Z → Z;
  vm_end : Z → Z;
  vm_flags : Z → Z;
  vm_mm : Z → Z;
  mmap_cache : Z → option Z;
  map_count : Z → Z;
  mm_count : Z → Z;
}.

Definition set_mmap (f : lheap mentry → lheap mentry) (s : vmm) : vmm :=
  Vmm (f (mmap s)) (vm_start s) (vm_end s) (vm_flags s) (vm_mm s) (mmap_cache s) (map_count s) (mm_count s).
Definition set_vma (v start end' flags : Z) (s : vmm) : vmm :=
  Vmm (mmap s) (upd v start (vm_start s)) (upd v end' (vm_end s)) (upd v flags (vm_flags s))
    (vm_mm s) (mmap_cache s) (map_count s) (mm_count s).
Definition set_vm_mm (v mm : Z) (s : vmm) : vmm :=
  Vmm (mmap s) (vm_start s) (vm_end s) (vm_flags s) (upd v mm (vm_mm s)) (mmap_cache s) (map_count s) (mm_count s).
Definition set_cache (mm : Z) (v : option Z) (s : vmm) : vmm :=
  Vmm (mmap s) (vm_start s) (vm_end s) (vm_flags s) (vm_mm s) (upd mm v (mmap_cache s)) (map_count s) (mm_count s).
Definition set_map_count (mm v : Z) (s : vmm) : vmm :=
  Vmm (mmap s) (vm_start s) (vm_end s) (vm_flags s) (vm_mm s) (mmap_cache s) (upd mm v (map_count s)) (mm_count s).
Definition set_mm_count (mm v : Z) (s : vmm) : vmm :=
  Vmm (mmap s) (vm_start s) (vm_end s) (vm_flags s) (vm_mm s) (mmap_cache s) (map_count s) (upd mm v (mm_count s)).

Definition VM_READ : Z := 0x00000001.
Definition VM_WRITE : Z := 0x00000002.
Definition VM_EXEC : Z := 0x00000004.
Definition VM_STACK : Z := 0x00000008.

(** kern/mm/memlayout.h and mmu.h *)
Definition PGSIZE : Z := 4096.
Definition KERNBASE : Z := 0xFFFFFFFFC0200000.
Definition KMEMSIZE : Z := 0x7E00000.
Definition KERNTOP : Z := KERNBASE + KMEMSIZE.
Definition USERTOP : Z := 0x80000000.
Definition USERBASE : Z := 0x00200000.

Definition USER_ACCESS (start end' : Z) : bool :=
  ((USERBASE <=? start) && ((start <? end') && (end' <=? USERTOP)))%bool.
Definition KERN_ACCESS (start end' : Z) : bool :=
  ((KERNBASE <=? start) && ((start <? end') && (end' <=? KERNTOP)))%bool.

(** ** Operations

    [kmalloc] returns [got], a fresh object or [None]. *)

Definition mm_create (got : option Z) : M vmm (option Z) :=
  match got with
  | Some mm =>
    modify (set_mmap (list_init (MHead mm)));;
    modify (set_cache mm None);;
    modify (set_map_count mm 0);;
    modify (set_mm_count mm 0);;
    mret (Some mm)
  | None => mret None
  end.

Definition mm_count_inc (mm : Z) : M vmm Z :=
  modify (λ s, set_mm_count mm (s32 (mm_count s mm + 1)) s);; gets (λ s, mm_count s mm).

Definition mm_count_dec (mm : Z) : M vmm Z :=
  modify (λ s, set_mm_count mm (s32 (mm_count s mm - 1)) s);; gets (λ s, mm_count s mm).

Definition vma_create (got : option Z) (start end' flags : Z) : M vmm (option Z) :=
  match got with
  | Some v => modify (set_vma v start end' flags);; mret (Some v)
  | None => mret None
  end.

(** Every area of an [mm] is counted in [map_count]. *)
Definition walk_fuel (s : vmm) (mm : Z) : nat := S (Z.to_nat (map_count s mm)).

Definition contains (s : vmm) (v addr : Z) : bool :=
  ((vm_start s v <=? addr) && (addr <? vm_end s v))%bool.

Fixpoint find_walk (fuel : nat) (mm addr : Z) (le : mentry) : M vmm (option Z) :=
  match fuel with
  | O => out_of_fuel
  | S fuel' =>
    h ← gets mmap;
    match list_next h le with
    | MVma vma =>
      found ← gets (λ s, contains s vma addr);
      if found : bool then mret (Some vma) else find_walk fuel' mm addr (MVma vma)
    | MHead _ => mret None
    end
  end.

Definition find_vma (mm : option Z) (addr : Z) : M vmm (option Z) :=
  match mm with
  | None => mret None
  | Some mm =>
    cache ← gets (λ s, mmap_cache s mm);
    hit ← gets (λ s, match cache with Some v => contains s v addr | None => false end);
    vma ← (if hit : bool then mret cache
           else fuel ← gets (λ s, walk_fuel s mm); find_walk fuel mm addr (MHead mm));
    (match vma with Some v => modify (set_cache mm (Some v)) | None => mret tt end);;
    mret vma
  end.

Definition check_vma_overlap (prev next : Z) : M vmm unit :=
  asserts (λ s, vm_start s prev <? vm_end s prev);;
  asserts (λ s, vm_end s prev <=? vm_start s next);;
  asserts (λ s, vm_start s next <? vm_end s next).

(** The loop of [insert_vma_struct]: the entry to insert behind. *)
Fixpoint insert_walk (fuel : nat) (start : Z) (le_prev le : mentry) : M vmm mentry :=
  match fuel with
  | O => out_of_fuel
  | S fuel' =>
    h ← gets mmap;
    let le := list_next h le in
    match le with
    | MHead _ => mret le_prev
    | MVma mmap_prev =>
      st ← gets (λ s, vm_start s mmap_prev);
      if start <? st then mret le_prev else insert_walk fuel' start le le
    end
  end.

Definition insert_vma_struct (mm vma : Z) : M vmm unit :=
  asserts (λ s, vm_start s vma <? vm_end s vma);;
  start ← gets (λ s, vm_start s vma);
  fuel ← gets (λ s, walk_fuel s mm);
  le_prev ← insert_walk fuel start (MHead mm) (MHead mm);
  le_next ← gets (λ s, list_next (mmap s) le_prev);
  (match le_prev with MVma p => check_vma_overlap p vma | MHead _ => mret tt end);;
  (match le_next with MVma n => check_vma_overlap vma n | MHead _ => mret tt end);;
  modify (set_vm_mm vma mm);;
  modify (set_mmap (list_add_after le_prev (MVma vma)));;
  modify (λ s, set_map_count mm (s32 (map_count s mm + 1)) s).

(** The loop of [mm_destroy]; the freed areas are returned in order. *)
Fixpoint destroy_walk (fuel : nat) (mm : Z) : M vmm (list Z) :=
  match fuel with
  | O => out_of_fuel
  | S fuel' =>
    h ← gets mmap;
    match list_next h (MHead mm) with
    | MHead _ => mret []
    | MVma v =>
      modify (set_mmap (list_del (MVma v)));;
      freed ← destroy_walk fuel' mm;
      mret (v :: freed)
    end
  end.

Definition mm_destroy (mm : Z) : M vmm (list Z) :=
  asserts (λ s, mm_count s mm =? 0);;
  fuel ← gets (λ s, walk_fuel s mm);
  destroy_walk fuel mm.

(** The result is the C return value and the new area. *)
Definition mm_map (got : option Z) (mm addr len flags : Z) : M vmm (Z * option Z) :=
  let start := ROUNDDOWN addr PGSIZE in
  let end' := ROUNDUP (u64 (addr + len)) PGSIZE in
  if negb (USER_ACCESS start end') then mret (- E_INVAL, None)
  else
    vma ← find_vma (Some mm) start;
    hit ← gets (λ s, match vma with Some v => vm_start s v <? end' | None => false end);
    if hit : bool then mret (- E_INVAL, None)
    else
      vma ← vma_create got start end' flags;
      match vma with
      | None => mret (- E_NO_MEM, None)
      | Some v => insert_vma_struct mm v;; mret (0, Some v)
      end.

(** The loop of [user_mem_check] over the areas that cover the range. *)
Fixpoint check_walk (fuel : nat) (mm start end' : Z) (write : bool) : M vmm bool :=
  match fuel with
  | O => out_of_fuel
  | S fuel' =>
    if start <? end' then
      vma ← find_vma (Some mm) start;
      match vma with
      | None => mret false
      | Some v =>
        s ← gets id;
        if start <? vm_start s v then mret false
        else if negb (truth (Z.land (vm_flags s v) (if write then VM_WRITE else VM_READ))) then mret false
        else if (write && truth (Z.land (vm_flags s v) VM_STACK) && (start <? u64 (vm_start s v + PGSIZE)))%bool
             then mret false
        else check_walk fuel' mm (vm_end s v) end' write
      end
    else mret true
  end.

Definition user_mem_check (mm : option Z) (addr len : Z) (write : bool) : M vmm bool :=
  match mm with
  | Some mm =>
    if negb (USER_ACCESS addr (u64 (addr + len))) then mret false
    else fuel ← gets (λ s, walk_fuel s mm); check_walk fuel mm addr (u64 (addr + len)) write
  | None => mret (KERN_ACCESS addr (u64 (addr + len)))
  end.

(** *** Copies between user and kernel memory *)

Definition vmm_mem : Type := vmm * mem.
Definition on_vmm {A} (m : M vmm A) : M vmm_mem A := zoom fst (λ v s, (v, s.2)) m.
Definition on_mem {A} (m : M mem A) : M vmm_mem A := zoom snd (λ v s, (s.1, v)) m.

Definition copy_from_user (mm : option Z) (dst src len : Z) (writable : bool) : M vmm_mem bool :=
  ok ← on_vmm (user_mem_check mm src len writable);
  if negb ok then mret false
  else on_mem (memcpy dst src len);; mret true.

Definition copy_to_user (mm : option Z) (dst src len : Z) : M vmm_mem bool :=
  ok ← on_vmm (user_mem_check mm dst len true);
  if negb ok then mret false
  else on_mem (memcpy dst src len);; mret true.

Fixpoint copy_string_loop (fuel : nat) (mm : option Z) (dst src maxn part : Z) : M vmm_mem bool :=
  match fuel with
  | O => out_of_fuel
  | S fuel' =>
    let part := if maxn <? part then maxn else part in
    ok ← on_vmm (user_mem_check mm src part false);
    if negb ok then mret false
    else
      alen ← on_mem (strnlen src part);
      if alen <? part then on_mem (memcpy dst src (alen + 1));; mret true
      else if part =? maxn then mret false
      else
        on_mem (memcpy dst src part);;
        copy_string_loop fuel' mm (dst + part) (src + part) (u64 (maxn - part)) PGSIZE
  end.

(** Every round but the last copies at least one byte of the [maxn]. *)
Definition copy_string (mm : option Z) (dst src maxn : Z) : M vmm_mem bool :=
  copy_string_loop (S (Z.to_nat maxn)) mm dst src maxn (u64 (ROUNDDOWN (u64 (src + PGSIZE)) PGSIZE - src)).
