(* ===== verification/VmmProofs.v ===== *)
(** * Virtual memory areas: proofs *)

From S2P Require Import Prelude ListH CString Vmm.

(** ** The invariant of an address space *)

(** The areas are sorted, disjoint and not empty, from [lo] on. *)
Fixpoint sorted_areas (s : vmm) (lo : Z) (vs : list Z) : Prop :=
  match vs with
  | [] => True
  | v :: r => lo ≤ vm_start s v ∧ vm_start s v < vm_end s v ∧ sorted_areas s (vm_end s v) r
  end.

Record mm_inv (s : vmm) (mm : Z) (vs : list Z) : Prop := MmInv {
  mi_links : dll (mmap s) (MHead mm) (MVma <$> vs);
  mi_sorted : sorted_areas s 0 vs;
  mi_high : ∀ v, v ∈ vs → vm_end s v < 2 ^ 63;
  mi_cache : ∀ v, mmap_cache s mm = Some v → v ∈ vs;
  mi_count : map_count s mm = Z.of_nat (length vs);
  mi_small : Z.of_nat (length vs) < 2 ^ 31 - 1;
}.

(** The area that contains an address. *)
Definition lookup_vma (s : vmm) (vs : list Z) (addr : Z) : option Z :=
  head (filter (λ v, contains s v addr = true) vs).

(** Nothing but the cache of [mm] changed. *)
Definition same_but_cache (mm : Z) (s s' : vmm) : Prop :=
  mmap s' = mmap s ∧ vm_start s' = vm_start s ∧ vm_end s' = vm_end s ∧ vm_flags s' = vm_flags s ∧
  vm_mm s' = vm_mm s ∧ map_count s' = map_count s ∧ mm_count s' = mm_count s ∧
  ∀ mm', mm' ≠ mm → mmap_cache s' mm' = mmap_cache s mm'.

Lemma sorted_ext s s' lo vs :
  (∀ v, v ∈ vs → vm_start s' v = vm_start s v ∧ vm_end s' v = vm_end s v) →
  sorted_areas s lo vs → sorted_areas s' lo vs.
Proof.
  revert lo. induction vs as [|v vs IH]; intros lo Hx; simpl; [done|].
  destruct (Hx v) as [-> ->]; [set_solver|]. intros (? & ? & ?). split_and!; [done|done|].
  apply IH; [|done]. set_solver.
Qed.

Lemma sorted_elem s lo vs v : sorted_areas s lo vs → v ∈ vs → lo ≤ vm_start s v < vm_end s v.
Proof.
  revert lo. induction vs as [|w vs IH]; intros lo; simpl; [set_solver|].
  intros (? & ? & Hs) [->|Hin]%elem_of_cons; [lia|]. specialize (IH _ Hs Hin). lia.
Qed.

Lemma sorted_app s lo l1 l2 :
  sorted_areas s lo (l1 ++ l2) ↔
    sorted_areas s lo l1 ∧ sorted_areas s (default lo (vm_end s <$> last l1)) l2.
Proof.
  revert lo. induction l1 as [|v l1 IH]; intros lo; simpl; [tauto|].
  rewrite IH. destruct l1 as [|w l1]; [simpl; tauto|]. rewrite last_cons_cons.
  destruct (last (w :: l1)) eqn:E; [simpl; tauto|]. by apply last_None in E.
Qed.

Lemma sorted_unique s lo vs v w a :
  sorted_areas s lo vs → v ∈ vs → w ∈ vs → contains s v a = true → contains s w a = true → v = w.
Proof.
  revert lo. induction vs as [|x vs IH]; intros lo; simpl; [set_solver|].
  intros (? & ? & Hs) Hv Hw Hcv Hcw. unfold contains in *. b2p.
  apply elem_of_cons in Hv as [->|Hv], Hw as [->|Hw]; [done|..].
  - pose proof (sorted_elem _ _ _ _ Hs Hw). lia.
  - pose proof (sorted_elem _ _ _ _ Hs Hv). lia.
  - eapply IH; [done..| |]; unfold contains; lia.
Qed.

Lemma lookup_vma_Some s lo vs v a :
  sorted_areas s lo vs → lookup_vma s vs a = Some v ↔ v ∈ vs ∧ contains s v a = true.
Proof.
  intros Hs. unfold lookup_vma. split.
  - destruct (filter _ vs) as [|w l] eqn:E; simpl; [done|]. intros [= ->].
    assert (v ∈ filter (λ v, contains s v a = true) vs) as Hin by (rewrite E; set_solver).
    apply list_elem_of_filter in Hin as [? ?]. done.
  - intros [Hv Hc]. assert (v ∈ filter (λ v, contains s v a = true) vs) as Hin by by apply list_elem_of_filter.
    destruct (filter _ vs) as [|w l] eqn:E; [set_solver|]. simpl. f_equal.
    assert (w ∈ filter (λ v, contains s v a = true) vs) as Hw by (rewrite E; set_solver).
    apply list_elem_of_filter in Hw as [Hwc Hw]. by eapply sorted_unique.
Qed.

Lemma lookup_vma_None s vs a : lookup_vma s vs a = None ↔ ∀ v, v ∈ vs → contains s v a = false.
Proof.
  unfold lookup_vma. rewrite head_None. split.
  - intros E v Hv. destruct (contains s v a) eqn:Ec; [|done].
    assert (v ∈ filter (λ v, contains s v a = true) vs) as Hin by by apply list_elem_of_filter.
    rewrite E in Hin. set_solver.
  - intros Hn. destruct (filter _ vs) as [|w l] eqn:E; [done|].
    assert (w ∈ filter (λ v, contains s v a = true) vs) as Hw by (rewrite E; set_solver).
    apply list_elem_of_filter in Hw as [Hwc Hw]. rewrite Hn in Hwc; done.
Qed.

(** ** find_vma *)

Lemma find_walk_spec s mm addr l0 l1 fuel :
  dll (mmap s) (MHead mm) (MVma <$> l0 ++ l1) → (length l1 < fuel)%nat →
  find_walk fuel mm addr (default (MHead mm) (last (MVma <$> l0))) s = Ok (lookup_vma s l1 addr, s).
Proof.
  revert l0 fuel. induction l1 as [|v l1 IH]; intros l0 fuel Hd Hf;
    (destruct fuel as [|fuel]; simpl in Hf; [lia|]); cbn [find_walk]; rewrite bind_gets;
    rewrite fmap_app in Hd; rewrite (list_next_cut _ _ _ _ Hd); simpl; [done|].
  rewrite bind_gets. unfold lookup_vma. destruct (contains s v addr) eqn:E.
  - by rewrite filter_cons_True.
  - rewrite filter_cons_False by congruence. specialize (IH (l0 ++ [v]) fuel).
    rewrite last_fmap_snoc, <-app_assoc in IH. rewrite <-fmap_app in Hd. apply IH; [done|lia].
Qed.

Lemma find_vma_spec s mm vs addr :
  mm_inv s mm vs →
  ∃ s', find_vma (Some mm) addr s = Ok (lookup_vma s vs addr, s') ∧ same_but_cache mm s s' ∧ mm_inv s' mm vs.
Proof.
  intros [Hd Hs Hh Hc Hn Hsm]. unfold find_vma. msteps.
  assert (∀ r, r = lookup_vma s vs addr →
    ∃ s', ((match r with Some v => modify (set_cache mm (Some v)) | None => mret tt end);; mret r) s =
      Ok (lookup_vma s vs addr, s') ∧ same_but_cache mm s s' ∧ mm_inv s' mm vs) as Hfin.
  { intros r ->. destruct (lookup_vma s vs addr) as [v|] eqn:E; [|by exists s].
    eexists. split; [reflexivity|]. split.
    - unfold same_but_cache. simpl. split_and!; try done. intros. by rewrite upd_ne.
    - split; [done|by apply (sorted_ext s)|done| |done|done]. simpl. rewrite upd_eq. intros w [= ->].
      by apply (lookup_vma_Some _ _ _ _ _ Hs) in E as [? _]. }
  destruct (match mmap_cache s mm with Some v => contains s v addr | None => false end) eqn:Hit.
  - rewrite bind_ret. apply Hfin. destruct (mmap_cache s mm) as [v|] eqn:Ec; [|done].
    symmetry. apply (lookup_vma_Some _ _ _ _ _ Hs). auto.
  - rewrite bind_assoc, bind_gets.
    pose proof (find_walk_spec s mm addr [] vs (walk_fuel s mm) Hd) as Hw.
    rewrite (bind_ok _ _ _ _ _ (Hw ltac:(unfold walk_fuel; lia))). by apply Hfin.
Qed.

Lemma same_but_cache_contains mm s s' v a : same_but_cache mm s s' → contains s' v a = contains s v a.
Proof. intros (_ & H1 & H2 & _). unfold contains. by rewrite H1, H2. Qed.

Lemma same_but_cache_trans mm s1 s2 s3 : same_but_cache mm s1 s2 → same_but_cache mm s2 s3 → same_but_cache mm s1 s3.
Proof.
  intros (?&?&?&?&?&?&?&Hc1) (?&?&?&?&?&?&?&Hc2). unfold same_but_cache. split_and!; try congruence.
  intros. by rewrite Hc2, Hc1.
Qed.

Lemma same_but_cache_refl mm s : same_but_cache mm s s.
Proof. done. Qed.

(** ** user_mem_check *)

(** Address [a] may be read (or written) by the user program. *)
Definition access_ok (s : vmm) (vs : list Z) (write : bool) (a : Z) : Prop :=
  ∃ v, v ∈ vs ∧ contains s v a = true ∧
    truth (Z.land (vm_flags s v) (if write then VM_WRITE else VM_READ)) = true ∧
    (write = true → truth (Z.land (vm_flags s v) VM_STACK) = true → vm_start s v + PGSIZE ≤ a).

Lemma access_ok_ext mm s s' vs w a : same_but_cache mm s s' → access_ok s' vs w a ↔ access_ok s vs w a.
Proof. intros (_ & H1 & H2 & H3 & _). unfold access_ok, contains. by rewrite H1, H2, H3. Qed.

(** The areas that end behind [a] get fewer when [a] moves behind one of them. *)
Lemma measure_decreases s (vs : list Z) v a :
  v ∈ vs → contains s v a = true →
  (length (filter (λ w, (vm_end s v < vm_end s w)%Z) vs) < length (filter (λ w, (a < vm_end s w)%Z) vs))%nat.
Proof.
  intros Hv Hc. unfold contains in Hc. b2p.
  assert (∀ (l : list Z), (length (filter (λ w, (vm_end s v < vm_end s w)%Z) l) ≤
    length (filter (λ w, (a < vm_end s w)%Z) l))%nat) as Hle.
  { induction l as [|w l IH]; [done|]. rewrite !filter_cons. repeat case_decide; simpl; lia. }
  apply list_elem_of_split in Hv as (l1 & l2 & ->). rewrite !filter_app, !length_app.
  rewrite filter_cons_False, filter_cons_True by lia. simpl.
  pose proof (Hle l1). pose proof (Hle l2). lia.
Qed.

Lemma check_walk_spec s mm vs start end' write fuel :
  mm_inv s mm vs → 0 ≤ start →
  (length (filter (λ w, (start < vm_end s w)%Z) vs) < fuel)%nat →
  ∃ b s', check_walk fuel mm start end' write s = Ok (b, s') ∧ same_but_cache mm s s' ∧ mm_inv s' mm vs ∧
    (b = true ↔ ∀ a, start ≤ a < end' → access_ok s vs write a).
Proof.
  revert s start. induction fuel as [|fuel IH]; intros s start Hi H0 Hf; [lia|].
  cbn [check_walk]. destruct (Z.ltb_spec start end') as [Hlt|Hge].
  2: { exists true, s. split_and!; [done|apply same_but_cache_refl|done|].
       split; [|done]. intros _ a Ha. exfalso. lia. }
  destruct (find_vma_spec s mm vs start Hi) as (s1 & E1 & Hsb1 & Hi1).
  rewrite (bind_ok _ _ _ _ _ E1). pose proof (mi_sorted _ _ _ Hi) as Hs.
  assert (∀ b, b = false → ¬ access_ok s vs write start →
    ∃ b' s', (mret b : M vmm bool) s1 = Ok (b', s') ∧ same_but_cache mm s s' ∧ mm_inv s' mm vs ∧
      (b' = true ↔ ∀ a, start ≤ a < end' → access_ok s vs write a)) as Hno.
  { intros b -> Hn. exists false, s1. split_and!; [done..|]. split; [done|]. intros Ha. exfalso. destruct Hn. apply Ha. lia. }
  destruct (lookup_vma s vs start) as [v|] eqn:Ev.
  2: { apply Hno; [done|]. intros (v & Hv & Hc & _). apply lookup_vma_None with (v := v) in Ev; [congruence|done]. }
  pose proof Ev as [Hv Hc]%(lookup_vma_Some _ _ _ _ _ Hs).
  rewrite bind_gets. unfold id. pose proof Hsb1 as (_ & Hst & Hen & Hfl & _). rewrite Hst, Hen, Hfl.
  assert (∀ w, w ∈ vs → contains s w start = true → w = v) as Huni by (intros; by eapply sorted_unique).
  pose proof Hc as Hc'. unfold contains in Hc'. b2p. pose proof (mi_high _ _ _ Hi v Hv).
  destruct (Z.ltb_spec start (vm_start s v)); [lia|].
  destruct (truth (Z.land (vm_flags s v) (if write then VM_WRITE else VM_READ))) eqn:Efl; cbn [negb].
  2: { apply Hno; [done|]. intros (w & Hw & Hcw & Hfw & _). rewrite (Huni w Hw Hcw) in Hfw. congruence. }
  rewrite u64_small by (pose proof (sorted_elem _ _ _ _ Hs Hv); unfold PGSIZE; lia).
  destruct (write && truth (Z.land (vm_flags s v) VM_STACK) && (start <? vm_start s v + PGSIZE))%bool eqn:Eg.
  { apply Hno; [done|]. intros (w & Hw & Hcw & _ & Hgw). rewrite (Huni w Hw Hcw) in Hgw. b2p.
    assert (vm_start s v + PGSIZE ≤ start) by (apply Hgw; done). lia. }
  destruct (IH s1 (vm_end s v)) as (b & s' & E & Hsb & Hi' & Hb); [done|lia|..].
  { rewrite Hen. pose proof (measure_decreases s vs v start Hv Hc). lia. }
  exists b, s'. split_and!; [done|by eapply same_but_cache_trans|done|].
  rewrite Hb. setoid_rewrite (access_ok_ext mm s s1 vs write); [|done]. split.
  - intros Hall a Ha. destruct (Z.lt_ge_cases a (vm_end s v)); [|apply Hall; lia].
    exists v. split_and!; [done|unfold contains; lia|done|]. intros -> Hstk. rewrite Hstk in Eg. simpl in Eg. b2p. lia.
  - intros Hall a Ha. apply Hall. lia.
Qed.

(** ** insert_vma_struct *)

Lemma insert_walk_areas s mm start l0 l1 fuel :
  dll (mmap s) (MHead mm) (MVma <$> l0 ++ l1) → (length l1 < fuel)%nat →
  ∃ a b, l1 = a ++ b ∧
    insert_walk fuel start (default (MHead mm) (last (MVma <$> l0))) (default (MHead mm) (last (MVma <$> l0))) s =
      Ok (default (MHead mm) (last (MVma <$> l0 ++ a)), s) ∧
    Forall (λ w, vm_start s w ≤ start) a ∧ (∀ w, head b = Some w → start < vm_start s w).
Proof.
  revert l0 fuel. induction l1 as [|v l1 IH]; intros l0 fuel Hd Hf;
    (destruct fuel as [|fuel]; simpl in Hf; [lia|]); cbn [insert_walk]; rewrite bind_gets;
    rewrite fmap_app in Hd; rewrite (list_next_cut _ _ _ _ Hd); simpl.
  { exists [], []. rewrite (app_nil_r l0). split_and!; [done|done|constructor|]. intros w [=]. }
  rewrite bind_gets. destruct (Z.ltb_spec start (vm_start s v)) as [Hlt|Hge].
  { exists [], (v :: l1). rewrite (app_nil_r l0). split_and!; [done|done|constructor|]. by intros w [= <-]. }
  destruct (IH (l0 ++ [v]) fuel) as (a & b & -> & E & Ha & Hb); [by rewrite <-app_assoc, fmap_app|lia|].
  rewrite last_fmap_snoc, <-app_assoc in E. exists (v :: a), b. split_and!; [done|done| |done]. by constructor.
Qed.

(** Two areas share an address. *)
Definition overlap (s : vmm) (v w : Z) : Prop := vm_start s v < vm_end s w ∧ vm_start s w < vm_end s v.

Lemma sorted_mid s lo l1 v l2 :
  sorted_areas s lo (l1 ++ v :: l2) →
  (∀ w, w ∈ l1 → vm_end s w ≤ vm_start s v) ∧ (∀ w, w ∈ l2 → vm_end s v ≤ vm_start s w).
Proof.
  revert lo. induction l1 as [|x l1 IH]; intros lo; simpl.
  - intros (? & ? & Hs). split; [set_solver|]. intros w Hw. by destruct (sorted_elem _ _ _ _ Hs Hw).
  - intros (? & ? & Hs). destruct (IH _ Hs) as [H1 H2]. split; [|done].
    intros w [->|Hw]%elem_of_cons; [|by apply H1].
    assert (v ∈ l1 ++ v :: l2) as Hv by set_solver. by destruct (sorted_elem _ _ _ _ Hs Hv).
Qed.

(** An area that overlaps neither neighbour of its place fits there. *)
Lemma sorted_insert s lo l1 v l2 :
  sorted_areas s lo (l1 ++ l2) → lo ≤ vm_start s v < vm_end s v →
  (∀ p, last l1 = Some p → vm_end s p ≤ vm_start s v) → (∀ n, head l2 = Some n → vm_end s v ≤ vm_start s n) →
  sorted_areas s lo (l1 ++ v :: l2).
Proof.
  intros Hs Hv Hp Hn. apply sorted_app in Hs as [Hs1 Hs2]. apply sorted_app. split; [done|]. simpl. split_and!.
  - destruct (last l1) as [p|]; simpl; [by apply Hp|lia].
  - lia.
  - destruct l2 as [|n l2]; simpl in *; [done|]. split_and!; [by apply Hn|tauto|tauto].
Qed.

Lemma fresh_vma mm (v : Z) (vs : list Z) : (v ∉ vs) → MVma v ∉ MHead mm :: (MVma <$> vs).
Proof.
  intros Hv. rewrite not_elem_of_cons. split; [done|]. intros (w & [= <-] & Hw)%list_elem_of_fmap. done.
Qed.

(** The two overlap checks of [insert_vma_struct]. *)
Lemma overlap_check_ok s p n :
  vm_start s p < vm_end s p → vm_start s n < vm_end s n → vm_end s p ≤ vm_start s n →
  check_vma_overlap p n s = Ok (tt, s).
Proof.
  intros. unfold check_vma_overlap. rewrite bind_asserts by lia. rewrite bind_asserts by lia.
  unfold asserts. by destruct (Z.ltb_spec (vm_start s n) (vm_end s n)); [|lia].
Qed.

Lemma overlap_check_panic s p n : vm_start s n < vm_end s p → check_vma_overlap p n s = Panic.
Proof.
  intros. unfold check_vma_overlap, asserts, mbind, M_bind.
  destruct (vm_start s p <? vm_end s p); [|done].
  by destruct (Z.leb_spec (vm_end s p) (vm_start s n)); [lia|].
Qed.

Lemma insert_vma_struct_spec s mm vs v :
  mm_inv s mm vs → (v ∉ vs) → 0 ≤ vm_start s v < vm_end s v → vm_end s v < 2 ^ 63 →
  Z.of_nat (length vs) + 1 < 2 ^ 31 - 1 →
  ((∀ w, w ∈ vs → ¬ overlap s v w) →
    ∃ l1 l2 s', vs = l1 ++ l2 ∧ insert_vma_struct mm v s = Ok (tt, s') ∧ mm_inv s' mm (l1 ++ v :: l2) ∧
      vm_start s' = vm_start s ∧ vm_end s' = vm_end s ∧ vm_flags s' = vm_flags s) ∧
  ((∃ w, w ∈ vs ∧ overlap s v w) → insert_vma_struct mm v s = Panic).
Proof.
  intros [Hd Hs Hh Hc Hn Hsm] Hv Hse Hend Hroom.
  destruct (insert_walk_areas s mm (vm_start s v) [] vs (walk_fuel s mm)) as (l1 & l2 & -> & E & Ha & Hb);
    [done|unfold walk_fuel; lia|].
  change (default (MHead mm) (last (MVma <$> []))) with (MHead mm) in E. rewrite app_nil_l in E.
  unfold insert_vma_struct. rewrite bind_asserts by lia. rewrite !bind_gets, (bind_ok _ _ _ _ _ E), bind_gets.
  pose proof Hd as Hd'. rewrite fmap_app in Hd'. rewrite (list_next_cut _ _ _ _ Hd').
  rewrite fmap_last, head_fmap.
  set (pc := match default (MHead mm) (MVma <$> last l1) with MVma p => check_vma_overlap p v | MHead _ => mret tt end).
  set (nc := match default (MHead mm) (MVma <$> head l2) with MVma n => check_vma_overlap v n | MHead _ => mret tt end).
  assert (∀ w, w ∈ l1 ++ l2 → vm_start s w < vm_end s w) as Hne by (intros w Hw; by destruct (sorted_elem _ _ _ _ Hs Hw)).
  assert (∀ p, last l1 = Some p → p ∈ l1 ∧ vm_start s p ≤ vm_start s v) as Hlast.
  { intros p Hp%last_Some_elem_of. rewrite Forall_forall in Ha. auto. }
  assert (∀ n, head l2 = Some n → n ∈ l2) as Hhead.
  { intros n Hn2. destruct l2; simpl in Hn2; simplify_eq. set_solver. }
  split.
  - intros Hov. exists l1, l2.
    assert (∀ p, last l1 = Some p → vm_end s p ≤ vm_start s v) as Hp.
    { intros p Hp. destruct (Hlast p Hp). destruct (Z.le_gt_cases (vm_end s p) (vm_start s v)); [done|].
      destruct (Hov p); [set_solver|]. unfold overlap. lia. }
    assert (∀ n, head l2 = Some n → vm_end s v ≤ vm_start s n) as Hnx.
    { intros n Hn2. destruct (Z.le_gt_cases (vm_end s v) (vm_start s n)); [done|].
      assert (n ∈ l1 ++ l2) by set_solver. destruct (Hov n); [done|]. specialize (Hne n). specialize (Hb n Hn2).
      unfold overlap. naive_solver lia. }
    assert (pc s = Ok (tt, s)) as Epc.
    { unfold pc. destruct (last l1) as [p|]; simpl; [|done]. destruct (Hlast p eq_refl).
      apply overlap_check_ok; [apply Hne; set_solver|lia|by apply Hp]. }
    assert (nc s = Ok (tt, s)) as Enc.
    { unfold nc. destruct (head l2) as [n|]; simpl; [|done].
      apply overlap_check_ok; [lia|apply Hne; set_solver|by apply Hnx]. }
    rewrite (bind_ok _ _ _ _ _ Epc), (bind_ok _ _ _ _ _ Enc). msteps.
    eexists. split; [done|]. split; [reflexivity|]. split_and!; [|done..]. split; simpl.
    + rewrite fmap_app. simpl. rewrite <-fmap_last. apply (list_add_at_cut (mmap s)); [done|].
      rewrite <-fmap_app. by apply fresh_vma.
    + apply (sorted_ext s); [done|]. by apply sorted_insert.
    + intros w [?|[->|?]%elem_of_cons]%elem_of_app; [apply Hh; set_solver|done|apply Hh; set_solver].
    + intros w ?%Hc. set_solver.
    + rewrite upd_eq, Hn, s32_small; rewrite !length_app in *; simpl; lia.
    + rewrite !length_app in *. simpl. lia.
  - intros (w & Hw & [Ho1 Ho2]). destruct (decide (w ∈ l1)) as [Hw1|Hw1].
    + unfold mbind, M_bind at 1. replace (pc s) with (@Panic (unit * vmm)); [done|]. unfold pc.
      destruct l1 as [|p l1 _] using rev_ind; [set_solver|]. rewrite last_snoc. simpl.
      symmetry. apply overlap_check_panic. apply elem_of_app in Hw1 as [Hw1| ->%list_elem_of_singleton]; [|lia].
      rewrite <-app_assoc in Hs. apply sorted_mid in Hs as [Hs _]. specialize (Hs w Hw1).
      destruct (Hlast p); [by rewrite last_snoc|]. lia.
    + assert (w ∈ l2) as Hw2 by set_solver.
      assert (nc s = Panic) as Enc.
      { unfold nc. destruct l2 as [|n l2]; [set_solver|]. simpl. apply overlap_check_panic.
        apply elem_of_cons in Hw2 as [->|Hw2]; [done|]. apply sorted_mid in Hs as [_ Hs]. specialize (Hs w Hw2).
        specialize (Hne n ltac:(set_solver)). lia. }
      assert (pc s = Ok (tt, s) ∨ pc s = Panic) as [Epc|Epc].
      { unfold pc. destruct (default (MHead mm) (MVma <$> last l1)) as [|p]; [by left|].
        unfold check_vma_overlap, asserts, mbind, M_bind. repeat (case_match; simplify_eq; auto). }
      * rewrite (bind_ok _ _ _ _ _ Epc). unfold mbind, M_bind at 1. by rewrite Enc.
      * unfold mbind, M_bind at 1. by rewrite Epc.
Qed.

(** ** mm_map *)

Lemma mm_inv_set_vma s mm vs v a b c : (v ∉ vs) → mm_inv s mm vs → mm_inv (set_vma v a b c s) mm vs.
Proof.
  intros Hv [Hd Hs Hh Hc Hn Hsm]. split; try done; simpl.
  - apply (sorted_ext s); [|done]. intros w Hw. simpl. rewrite !upd_ne by (intros ->; done). done.
  - intros w Hw. rewrite upd_ne by (intros ->; done). by apply Hh.
Qed.

Lemma sorted_areas_ext mm s s' lo vs : same_but_cache mm s s' → sorted_areas s lo vs → sorted_areas s' lo vs.
Proof. intros (_ & H1 & H2 & _). apply sorted_ext. intros. by rewrite H1, H2. Qed.

Lemma user_mem_check_spec s mm vs addr len write :
  mm_inv s mm vs → 0 ≤ addr → 0 ≤ len → addr + len < 2 ^ 64 →
  ∃ b s', user_mem_check (Some mm) addr len write s = Ok (b, s') ∧ same_but_cache mm s s' ∧ mm_inv s' mm vs ∧
    (b = true ↔ USER_ACCESS addr (addr + len) = true ∧ ∀ a, addr ≤ a < addr + len → access_ok s vs write a).
Proof.
  intros Hi Ha Hl Hx. unfold user_mem_check. rewrite u64_small by lia.
  destruct (USER_ACCESS addr (addr + len)) eqn:Eu; cbn [negb].
  2: { exists false, s. split_and!; [done|apply same_but_cache_refl|done|]. split; [done|]. by intros [? _]. }
  rewrite bind_gets.
  destruct (check_walk_spec s mm vs addr (addr + len) write (walk_fuel s mm) Hi Ha) as (b & s' & E & Hsb & Hi' & Hb).
  { unfold walk_fuel. rewrite (mi_count _ _ _ Hi). pose proof (length_filter (λ w, addr < vm_end s w) vs). lia. }
  exists b, s'. split_and!; [done..|]. rewrite Hb. split; [done|]. by intros [_ ?].
Qed.

(** ** copy_string *)

Lemma strnlen_loop_spec m a n cnt :
  0 ≤ cnt → cnt + Z.of_nat n < 2 ^ 64 →
  ∃ k, strnlen_loop n a cnt m = Ok (cnt + k, m) ∧ 0 ≤ k ≤ Z.of_nat n ∧
    (∀ i, 0 ≤ i < k → m (a + i) ≠ 0) ∧ (k < Z.of_nat n → m (a + k) = 0).
Proof.
  revert a cnt. induction n as [|n IH]; intros a cnt Hc Hx; cbn [strnlen_loop].
  - exists 0. rewrite Z.add_0_r. split_and!; [done|lia|lia|lia|lia].
  - unfold load. rewrite bind_gets. destruct (Z.eqb_spec (m a) 0) as [E|E]; cbn [negb].
    + exists 0. rewrite !Z.add_0_r. split_and!; [done|lia|lia|lia|done].
    + rewrite u64_small by lia. destruct (IH (a + 1) (cnt + 1)) as (k & Ek & Hk & Hnz & Hz); [lia..|].
      exists (k + 1). rewrite Ek. split_and!; [do 2 f_equal; lia|lia|lia|..].
      * intros i Hi. destruct (decide (i = 0)) as [->|]; [by rewrite Z.add_0_r|].
        replace (a + i) with (a + 1 + (i - 1)) by lia. apply Hnz. lia.
      * intros Hlt. replace (a + (k + 1)) with (a + 1 + k) by lia. apply Hz. lia.
Qed.

(** The string of [k] bytes at [src] is readable and copied to [dst]. *)
Definition string_copied (s : vmm) (vs : list Z) (m m' : mem) (dst src k : Z) : Prop :=
  m (src + k) = 0 ∧ (∀ i, 0 ≤ i < k → m (src + i) ≠ 0) ∧
  (∀ i, 0 ≤ i ≤ k → m' (dst + i) = m (src + i)) ∧
  (∀ i, 0 ≤ i ≤ k → access_ok s vs false (src + i)).

Lemma copy_string_loop_spec fuel s m mm vs dst src maxn part :
  mm_inv s mm vs → 0 ≤ src → 0 ≤ maxn → src + maxn < 2 ^ 64 → (Z.to_nat maxn < fuel)%nat → 0 < part →
  dst + maxn ≤ src ∨ src + maxn ≤ dst →
  ∃ b s' m', copy_string_loop fuel (Some mm) dst src maxn part (s, m) = Ok (b, (s', m')) ∧
    same_but_cache mm s s' ∧ mm_inv s' mm vs ∧
    (∀ p, ¬ (dst ≤ p < dst + maxn) → m' p = m p) ∧
    (b = true → ∃ k, 0 ≤ k < maxn ∧ string_copied s vs m m' dst src k).
Proof.
  revert s m dst src maxn part. induction fuel as [|fuel IH]; intros s m dst src maxn part Hi Hs Hm Hx Hf Hp Hd; [lia|].
  cbn [copy_string_loop]. set (part' := if maxn <? part then maxn else part).
  assert (0 ≤ part' ≤ maxn ∧ (0 < maxn → 0 < part')) as [Hp' Hpp] by (unfold part'; destruct (Z.ltb_spec maxn part); lia).
  destruct (user_mem_check_spec s mm vs src part' false Hi) as (ok & s1 & E1 & Hsb1 & Hi1 & Hok); [lia..|].
  pose proof (zoom_ok fst (λ v (st : vmm_mem), (v, st.2)) _ (s, m) _ _ E1) as Ez. fold (@on_vmm bool) in Ez.
  rewrite (bind_ok _ _ _ _ _ Ez). cbn [snd]. destruct ok; cbn [negb].
  2: { exists false, s1, m. split_and!; [done..|]. done. }
  destruct Hok as [Hok _]. destruct (Hok eq_refl) as [_ Hacc]. clear Hok.
  destruct (strnlen_loop_spec m src (Z.to_nat part') 0) as (k & Ek & Hk & Hnz & Hz); [lia|lia|].
  rewrite Z2Nat.id in Hk, Hz by lia. rewrite Z.add_0_l in Ek.
  pose proof (zoom_ok snd (λ v (st : vmm_mem), (st.1, v)) (strnlen src part') (s1, m) k m Ek) as Ez2.
  unfold on_mem at 1. rewrite (bind_ok _ _ _ _ _ Ez2). cbn [fst snd].
  destruct (Z.ltb_spec k part') as [Hlt|Hge].
  - destruct (memcpy_spec m dst src (k + 1)) as (m' & Em & Hm'); [lia|lia|].
    pose proof (zoom_ok snd (λ v (st : vmm_mem), (st.1, v)) (memcpy dst src (k + 1)) (s1, m) _ m' Em) as Ez3.
    unfold on_mem. rewrite (bind_ok _ _ _ _ _ Ez3). exists true, s1, m'. split_and!; [done|done|done|..].
    + intros p Hn. rewrite Hm', decide_False by lia. done.
    + intros _. exists k. split; [lia|]. split_and!; [by apply Hz|done| |].
      * intros i Hi'. rewrite Hm', decide_True by lia. f_equal. lia.
      * intros i Hi'. apply Hacc. lia.
  - destruct (Z.eqb_spec part' maxn) as [_|Hne].
    { exists false, s1, m. split_and!; done. }
    destruct (memcpy_spec m dst src part') as (m1 & Em & Hm1); [lia|lia|].
    pose proof (zoom_ok snd (λ v (st : vmm_mem), (st.1, v)) (memcpy dst src part') (s1, m) _ m1 Em) as Ez3.
    unfold on_mem at 1. rewrite (bind_ok _ _ _ _ _ Ez3). cbn [fst]. rewrite u64_small by lia.
    destruct (IH s1 m1 (dst + part') (src + part') (maxn - part') PGSIZE)
      as (b & s' & m' & E & Hsb & Hi' & Hfr & Hcp); [done|lia|lia|lia|lia|done|lia|].
    exists b, s', m'. split_and!; [done|by eapply same_but_cache_trans|done|..].
    + intros p Hn. rewrite Hfr by lia. rewrite Hm1, decide_False by lia. done.
    + intros Hb. destruct (Hcp Hb) as (j & Hj & Hz' & Hnz' & Hc' & Ha').
      assert (∀ i, 0 ≤ i < maxn → m1 (src + i) = m (src + i)) as Hsrc.
      { intros i Hi2. rewrite Hm1, decide_False by lia. done. }
      exists (part' + j). split; [lia|]. unfold string_copied. split_and!.
      * rewrite <-Hsrc by lia. by rewrite Z.add_assoc.
      * intros i Hi2. destruct (Z.lt_ge_cases i part'); [apply Hnz; lia|].
        rewrite <-Hsrc by lia. replace (src + i) with (src + part' + (i - part')) by lia. apply Hnz'. lia.
      * intros i Hi2. destruct (Z.lt_ge_cases i part').
        -- rewrite Hfr, Hm1, decide_True by lia. f_equal. lia.
        -- replace (dst + i) with (dst + part' + (i - part')) by lia. rewrite Hc' by lia.
           rewrite <-Hsrc by lia. f_equal. lia.
      * intros i Hi2. destruct (Z.lt_ge_cases i part'); [apply Hacc; lia|].
        apply (access_ok_ext mm s s1); [done|]. replace (src + i) with (src + part' + (i - part')) by lia. apply Ha'. lia.
Qed.

(** An example: address space 1 with a writable area 10 and a read-only area 11,
    and the free objects 12 and 13 for two more areas. *)
Definition example_vmm : vmm :=
  Vmm (λ e, match e with
            | MHead _ => ListEntry (MVma 11) (MVma 10)
            | MVma v => if v =? 10 then ListEntry (MHead 1) (MVma 11)
                else if v =? 11 then ListEntry (MVma 10) (MHead 1) else ListEntry e e
            end)
    (λ v, if v =? 10 then 0x200000 else if v =? 11 then 0x203000 else 0x201000)
    (λ v, if v =? 10 then 0x201000 else if v =? 11 then 0x204000 else if v =? 12 then 0x202000 else 0x205000)
    (λ v, if v =? 10 then 3 else 1) (λ _, 1) (λ _, Some 11) (λ _, 2) (λ _, 1).

Lemma example_vmm_inv : mm_inv example_vmm 1 [10; 11].
Proof.
  split.
  - split; [|simpl; tauto]. apply NoDup_ListNoDup. repeat constructor; set_solver.
  - simpl. lia.
  - intros v [->|[->|[]%elem_of_nil]%elem_of_cons]%elem_of_cons; simpl; lia.
  - simpl. intros v [= <-]. set_solver.
  - done.
  - simpl. lia.
Qed.

(** ** The properties of address spaces *)

(** [find_vma] is a lookup in the areas of the address space: it returns the
    area that contains the address and [NULL] if there is none, whatever the cache
    holds; it changes nothing but the cache and keeps the invariant. *)
Theorem find_vma_correct s mm vs addr :
  mm_inv s mm vs →
  ∃ r s', find_vma (Some mm) addr s = Ok (r, s') ∧ same_but_cache mm s s' ∧ mm_inv s' mm vs ∧
    match r with
    | Some v => v ∈ vs ∧ vm_start s v ≤ addr < vm_end s v
    | None => ∀ v, v ∈ vs → ¬ (vm_start s v ≤ addr < vm_end s v)
    end.
Proof.
  intros Hi. destruct (find_vma_spec s mm vs addr Hi) as (s' & E & Hsb & Hi').
  exists (lookup_vma s vs addr), s'. split_and!; [done..|].
  destruct (lookup_vma s vs addr) as [v|] eqn:El.
  - apply (lookup_vma_Some _ _ _ _ _ (mi_sorted _ _ _ Hi)) in El as [? Hc]. unfold contains in Hc. b2p. done.
  - intros v Hv Hin. apply lookup_vma_None with (v := v) in El; [|done]. unfold contains in El. lia.
Qed.

Lemma find_vma_correct_witness : ∃ s',
  find_vma (Some 1) 0x200010 example_vmm = Ok (Some 10, s') ∧ mm_inv s' 1 [10; 11].
Proof.
  destruct (find_vma_correct example_vmm 1 [10; 11] 0x200010 example_vmm_inv) as (r & s' & E & _ & Hi & _).
  assert (r = Some 10) as -> by (vm_compute in E; injection E; congruence). exists s'. split; [exact E|exact Hi].
Defined.

(** C36. [insert_vma_struct] puts an area that overlaps no other into its sorted
    place, and panics exactly when it overlaps one: comparing with the two
    neighbours is enough. *)
Theorem insert_vma_struct_correct s mm vs v :
  mm_inv s mm vs → (v ∉ vs) → 0 ≤ vm_start s v < vm_end s v → vm_end s v < 2 ^ 63 →
  Z.of_nat (length vs) + 1 < 2 ^ 31 - 1 →
  ((∀ w, w ∈ vs → ¬ overlap s v w) →
    ∃ l1 l2 s', vs = l1 ++ l2 ∧ insert_vma_struct mm v s = Ok (tt, s') ∧ mm_inv s' mm (l1 ++ v :: l2) ∧
      vm_start s' = vm_start s ∧ vm_end s' = vm_end s ∧ vm_flags s' = vm_flags s) ∧
  ((∃ w, w ∈ vs ∧ overlap s v w) → insert_vma_struct mm v s = Panic).
Proof. apply insert_vma_struct_spec. Qed.

Lemma insert_vma_struct_correct_witness :
  (∃ s', insert_vma_struct 1 12 example_vmm = Ok (tt, s')) ∧ insert_vma_struct 1 13 example_vmm = Panic.
Proof.
  split.
  - destruct (insert_vma_struct_correct example_vmm 1 [10; 11] 12) as [H _];
      [apply example_vmm_inv|set_solver|simpl; lia|simpl; lia|simpl; lia|].
    destruct H as (l1 & l2 & s' & _ & E & _); [|exists s'; exact E].
    intros w [->|[->|[]%elem_of_nil]%elem_of_cons]%elem_of_cons; unfold overlap; simpl; lia.
  - apply (insert_vma_struct_correct example_vmm 1 [10; 11] 13);
      [apply example_vmm_inv|set_solver|simpl; lia|simpl; lia|simpl; lia|].
    exists 11. split; [set_solver|]. unfold overlap. simpl. lia.
Defined.

(** The outcomes of [mm_map] for a range of user addresses, when memory for
    the area [v] can be had: [-E_INVAL] if its first page lies in an area, success with
    the page-aligned area added to the address space if it overlaps none, and a
    panic if it only runs into a later area. *)
Theorem mm_map_outcomes s mm vs v addr len flags :
  let start := ROUNDDOWN addr PGSIZE in
  let end' := ROUNDUP (u64 (addr + len)) PGSIZE in
  mm_inv s mm vs → (v ∉ vs) → USER_ACCESS start end' = true → Z.of_nat (length vs) + 1 < 2 ^ 31 - 1 →
  ((∃ w, w ∈ vs ∧ vm_start s w ≤ start < vm_end s w) →
    ∃ s', mm_map (Some v) mm addr len flags s = Ok ((- E_INVAL, None), s') ∧ mm_inv s' mm vs) ∧
  ((∀ w, w ∈ vs → end' ≤ vm_start s w ∨ vm_end s w ≤ start) →
    ∃ l1 l2 s', vs = l1 ++ l2 ∧ mm_map (Some v) mm addr len flags s = Ok ((0, Some v), s') ∧
      mm_inv s' mm (l1 ++ v :: l2) ∧ vm_start s' v = start ∧ vm_end s' v = end' ∧ vm_flags s' v = flags) ∧
  ((∀ w, w ∈ vs → ¬ (vm_start s w ≤ start < vm_end s w)) →
    (∃ w, w ∈ vs ∧ start < vm_start s w < end') → mm_map (Some v) mm addr len flags s = Panic).
Proof.
  intros start end' Hi Hv Hua Hroom. unfold mm_map. fold start end'. rewrite Hua. cbn [negb].
  unfold USER_ACCESS, USERBASE, USERTOP in Hua. b2p.
  destruct (find_vma_spec s mm vs start Hi) as (s1 & E1 & Hsb & Hi1). rewrite (bind_ok _ _ _ _ _ E1), bind_gets.
  pose proof (mi_sorted _ _ _ Hi) as Hs. pose proof Hsb as (_ & Hst & Hen & _). rewrite Hst.
  assert (∀ w, w ∈ vs → 0 ≤ vm_start s w < vm_end s w) as Hpos by (intros; by eapply sorted_elem).
  assert (lookup_vma s vs start = None → ∀ s2, s2 = set_vma v start end' flags s1 →
    (v ← vma_create (Some v) start end' flags;
     match v with None => mret (- E_NO_MEM, None) | Some v => insert_vma_struct mm v;; mret (0, Some v) end) s1 =
    (insert_vma_struct mm v;; mret (0, Some v)) s2) as Hcr by (by intros _ ? ->).
  set (s2 := set_vma v start end' flags s1) in *.
  pose proof (mm_inv_set_vma s1 mm vs v start end' flags Hv Hi1) as Hi2. fold s2 in Hi2.
  assert (∀ w, w ∈ vs → vm_start s2 w = vm_start s w ∧ vm_end s2 w = vm_end s w) as Hold.
  { intros w Hw. unfold s2. simpl. by rewrite Hst, Hen, !upd_ne by (intros ->; done). }
  assert (vm_start s2 v = start ∧ vm_end s2 v = end' ∧ vm_flags s2 v = flags) as (Hv1 & Hv2 & Hv3).
  { unfold s2. simpl. by rewrite !upd_eq. }
  destruct (insert_vma_struct_spec s2 mm vs v Hi2 Hv) as [Hok Hpanic]; [lia|lia|done|].
  split_and!.
  - intros (w & Hw & Hin). assert (lookup_vma s vs start = Some w) as ->.
    { apply (lookup_vma_Some _ _ _ _ _ Hs). split; [done|]. unfold contains. lia. }
    destruct (Z.ltb_spec (vm_start s w) end'); [|lia]. eauto.
  - intros Hdis. destruct (lookup_vma s vs start) as [w|] eqn:El.
    { apply (lookup_vma_Some _ _ _ _ _ Hs) in El as [Hw Hc]. unfold contains in Hc. b2p. destruct (Hdis w Hw); lia. }
    rewrite (Hcr eq_refl s2 eq_refl). destruct Hok as (l1 & l2 & s' & -> & E & Hi' & Hs1 & Hs2 & Hs3).
    { intros w Hw [Ho1 Ho2]. destruct (Hold w Hw) as [Hw1 Hw2]. rewrite Hw1, Hw2, Hv1, Hv2 in *.
      destruct (Hdis w Hw); lia. }
    exists l1, l2, s'. rewrite (bind_ok _ _ _ _ _ E), Hs1, Hs2, Hs3. by split_and!.
  - intros Hno (w & Hw & Hin). destruct (lookup_vma s vs start) as [u|] eqn:El.
    { apply (lookup_vma_Some _ _ _ _ _ Hs) in El as [Hu Hc]. unfold contains in Hc. b2p. destruct (Hno u Hu). lia. }
    rewrite (Hcr eq_refl s2 eq_refl). unfold mbind, M_bind at 1. rewrite Hpanic; [done|].
    exists w. split; [done|]. unfold overlap. destruct (Hold w Hw) as [-> ->]. specialize (Hpos w Hw). lia.
Qed.

Lemma mm_map_outcomes_witness :
  (∃ s', mm_map (Some 12) 1 0x201010 100 1 example_vmm = Ok ((0, Some 12), s')) ∧
  mm_map (Some 12) 1 0x201010 0x3000 1 example_vmm = Panic.
Proof.
  split.
  - destruct (mm_map_outcomes example_vmm 1 [10; 11] 12 0x201010 100 1) as (_ & H & _);
      [apply example_vmm_inv|set_solver|reflexivity|simpl; lia|].
    destruct H as (l1 & l2 & s' & _ & E & _); [|exists s'; exact E].
    intros w [->|[->|[]%elem_of_nil]%elem_of_cons]%elem_of_cons; vm_compute; [right|left]; discriminate.
  - apply (mm_map_outcomes example_vmm 1 [10; 11] 12 0x201010 0x3000 1);
      [apply example_vmm_inv|set_solver|reflexivity|simpl; lia|..].
    + intros w [->|[->|[]%elem_of_nil]%elem_of_cons]%elem_of_cons; vm_compute; intuition discriminate.
    + exists 11. split; [set_solver|]. vm_compute. split; reflexivity.
Defined.

(** C31. [user_mem_check] is exact: it returns (no matter how many areas it has to
    walk) and answers true exactly when the range is not empty and lies in user space, and
    every address of it may be accessed, that is, lies in an area that allows the access
    and, for writes, above the guard page of a stack.  The end of the range does not
    overflow 64 bits. *)
Theorem user_mem_check_exact s mm vs addr len write :
  mm_inv s mm vs → 0 ≤ addr → 0 ≤ len → addr + len < 2 ^ 64 →
  ∃ b s', user_mem_check (Some mm) addr len write s = Ok (b, s') ∧ same_but_cache mm s s' ∧ mm_inv s' mm vs ∧
    (b = true ↔ USER_ACCESS addr (addr + len) = true ∧ ∀ a, addr ≤ a < addr + len → access_ok s vs write a).
Proof. apply user_mem_check_spec. Qed.

Lemma user_mem_check_exact_witness : ∃ b s',
  user_mem_check (Some 1) 0x200ff0 16 true example_vmm = Ok (b, s') ∧
  (b = true ↔ USER_ACCESS 0x200ff0 0x201000 = true ∧
     ∀ a, 0x200ff0 ≤ a < 0x201000 → access_ok example_vmm [10; 11] true a).
Proof.
  destruct (user_mem_check_exact example_vmm 1 [10; 11] 0x200ff0 16 true) as (b & s' & E & _ & _ & H);
    [apply example_vmm_inv|lia|lia|lia|].
  exists b, s'. split; [exact E|exact H].
Defined.

(** [copy_string] returns and, when it reports success, has copied a whole
    zero-terminated string of less than [maxn] bytes from addresses the user may read;
    it never writes outside [dst, dst + maxn). *)
Theorem copy_string_sound s m mm vs dst src maxn :
  mm_inv s mm vs → 0 ≤ src < 2 ^ 63 → 0 ≤ maxn < 2 ^ 63 → dst + maxn ≤ src ∨ src + maxn ≤ dst →
  ∃ b s' m', copy_string (Some mm) dst src maxn (s, m) = Ok (b, (s', m')) ∧ mm_inv s' mm vs ∧
    (∀ p, ¬ (dst ≤ p < dst + maxn) → m' p = m p) ∧
    (b = true → ∃ k, 0 ≤ k < maxn ∧ string_copied s vs m m' dst src k).
Proof.
  intros Hi Hs Hm Hd. unfold copy_string, PGSIZE. rewrite (u64_small (src + 4096)), ROUNDDOWN_spec by lia.
  pose proof (Z.mod_pos_bound (src + 4096) 4096 ltac:(lia)). rewrite u64_small by lia.
  destruct (copy_string_loop_spec (S (Z.to_nat maxn)) s m mm vs dst src maxn (src + 4096 - (src + 4096) mod 4096 - src))
    as (b & s' & m' & E & _ & Hi' & Hf & Hc); [done|lia|lia|lia|lia|lia|done|].
  exists b, s', m'. by split_and!.
Qed.

Lemma copy_string_sound_witness : ∃ b s' m',
  copy_string (Some 1) 0x400000 0x200ffe 8 (example_vmm, λ p, if p =? 0x200ffe then 97 else 0) = Ok (b, (s', m')) ∧
  b = true ∧ m' 0x400000 = 97 ∧ m' 0x400001 = 0.
Proof.
  destruct (copy_string_sound example_vmm (λ p, if p =? 0x200ffe then 97 else 0) 1 [10; 11] 0x400000 0x200ffe 8)
    as (b & s' & m' & E & _ & _ & H); [apply example_vmm_inv|lia|lia|lia|].
  exists b, s', m'. split; [exact E|]. assert (b = true) as -> by (vm_compute in E; injection E; congruence).
  split; [reflexivity|]. destruct (H eq_refl) as (k & Hk & Hz & Hnz & Hc & _).
  assert (k = 1) as ->.
  { destruct (decide (k = 0)) as [->|]; [vm_compute in Hz; discriminate Hz|].
    destruct (decide (k = 1)) as [|]; [assumption|]. exfalso. apply (Hnz 1); [lia|reflexivity]. }
  split; [exact (Hc 0 ltac:(lia))|exact (Hc 1 ltac:(lia))].
Defined.
