(* ===== verification/Pgtable.v ===== *)
(** * kern/mm/pmm.c: page tables

    The three-level Sv39 page tables of an address space.  A page is named by its
    index in [pages]; the 512 words of its frame are [tab page].  Page directories,
    page tables and user pages live in the same frames and are allocated by the
    allocator of [Pmm].  Swapping, which [alloc_pages] and [pgdir_alloc_page] call,
    is an argument here; TLB flushes have no effect on the state. *)

From S2P Require Import Prelude ListH Pmm CString Vmm.

(** ** kern/mm/mmu.h *)

Definition PTXSHIFT : Z := 12.
Definition PDX0SHIFT : Z := 21.
Definition PDX1SHIFT : Z := 30.
Definition PTE_PPN_SHIFT : Z := 10.
Definition NPTEENTRY : Z := 512.
Definition NPDEENTRY : Z := 512.
Definition PTSIZE : Z := PGSIZE * NPTEENTRY.
Definition PDSIZE : Z := PTSIZE * NPDEENTRY.

Definition PDX1 (la : Z) : Z := Z.land (Z.shiftr la PDX1SHIFT) 0x1FF.
Definition PDX0 (la : Z) : Z := Z.land (Z.shiftr la PDX0SHIFT) 0x1FF.
Definition PTX (la : Z) : Z := Z.land (Z.shiftr la PTXSHIFT) 0x1FF.
Definition PPN (la : Z) : Z := Z.shiftr la PTXSHIFT.
Definition PGOFF (la : Z) : Z := Z.land la 0xFFF.

Definition PTE_ADDR (pte : Z) : Z := u64 (Z.shiftl (Z.land pte (u64 (Z.lnot 0x3FF))) (PTXSHIFT - PTE_PPN_SHIFT)).
Definition PDE_ADDR (pde : Z) : Z := PTE_ADDR pde.

Definition PTE_V : Z := 0x001.
Definition PTE_R : Z := 0x002.
Definition PTE_W : Z := 0x004.
Definition PTE_X : Z := 0x008.
Definition PTE_U : Z := 0x010.
Definition READ_WRITE : Z := Z.lor (Z.lor PTE_R PTE_W) PTE_V.
Definition PTE_USER : Z := Z.lor (Z.lor (Z.lor (Z.lor PTE_R PTE_W) PTE_X) PTE_U) PTE_V.

(** ** kern/mm/pmm.h *)

(** [DRAM_BASE / PGSIZE], and [npage] as [page_init] computes it. *)
Definition nbase : Z := 0x80000.
Definition npage : Z := 0x88000.

Record vms := Vms {
  phys : pmm;
  tab : Z → Z → Z;
}.

Definition set_phys (p : pmm) (s : vms) : vms := Vms p (tab s).
Definition set_frame (page : Z) (f : Z → Z) (s : vms) : vms := Vms (phys s) (upd page f (tab s)).
(** [((pte_t * )frame)[i] = v] *)
Definition set_entry (page i v : Z) (s : vms) : vms := set_frame page (upd i v (tab s page)) s.

Definition on_phys {A} (m : M pmm A) : M vms A := zoom phys set_phys m.

Definition page2ppn (page : Z) : Z := page + nbase.
Definition page2pa (page : Z) : Z := Z.shiftl (page2ppn page) 12.

Definition pa2page (pa : Z) : M vms Z :=
  assert (PPN pa <? npage);;
  mret (PPN pa - nbase).

(** The frame at a physical address ([KADDR] and a pointer cast). *)
Definition KADDR (pa : Z) : M vms Z := pa2page pa.

Definition pte2page (pte : Z) : M vms Z :=
  assert (truth (Z.land pte PTE_V));;
  pa2page (PTE_ADDR pte).

Definition pde2page (pde : Z) : M vms Z := pa2page (PDE_ADDR pde).

Definition page_ref (page : Z) : M vms Z := gets (λ s, pg_ref (phys s) page).
Definition set_ref (page v : Z) : M vms unit := on_phys (modify (set_page_ref page v)).
Definition page_ref_inc (page : Z) : M vms Z :=
  r ← page_ref page; set_ref page (s32 (r + 1));; page_ref page.
Definition page_ref_dec (page : Z) : M vms Z :=
  r ← page_ref page; set_ref page (s32 (r - 1));; page_ref page.

Definition pte_create (ppn type : Z) : Z :=
  Z.lor (Z.lor (u64 (Z.shiftl ppn PTE_PPN_SHIFT)) PTE_V) type.

Definition valid (pte : Z) : bool := truth (Z.land pte PTE_V).

(** ** Allocation of frames

    [swap_out n] is called when no page is free and swapping is on; [rounds]
    bounds the number of attempts. *)

Section pgtable.
Context (swap_init_ok : bool) (swap_out : Z → M vms unit) (rounds : nat).
Context (have_check_mm : bool) (swap_map_swappable : Z → Z → M vms unit).

Fixpoint alloc_pages_loop (fuel : nat) (n : Z) : M vms (option Z) :=
  match fuel with
  | O => out_of_fuel
  | S fuel' =>
    page ← on_phys (default_alloc_pages n);
    match page with
    | Some p => mret (Some p)
    | None =>
      if ((1 <? n) || negb swap_init_ok)%bool then mret None
      else swap_out n;; alloc_pages_loop fuel' n
    end
  end.

Definition alloc_pages (n : Z) : M vms (option Z) := alloc_pages_loop (S rounds) n.
Definition alloc_page : M vms (option Z) := alloc_pages 1.

Definition free_pages (base n : Z) : M vms unit := on_phys (default_free_pages base n).
Definition free_page (page : Z) : M vms unit := free_pages page 1.

Definition nr_free_pages : M vms Z := on_phys default_nr_free_pages.

(** ** The walk *)

(** A missing table is allocated and cleared; [true] when the entry is valid
    afterwards. *)
Definition ensure_table (dir i : Z) (create : bool) : M vms bool :=
  pde ← gets (λ s, tab s dir i);
  if negb (valid pde) then
    if negb create then mret false
    else
      page ← alloc_page;
      match page with
      | None => mret false
      | Some page =>
        set_ref page 1;;
        frame ← KADDR (page2pa page);
        modify (set_frame frame (λ _, 0));;
        modify (set_entry dir i (pte_create (page2ppn page) (Z.lor PTE_U PTE_V)));;
        mret true
      end
  else mret true.

(** The result points at the entry: the frame and the index in it. *)
Definition get_pte (pgdir la : Z) (create : bool) : M vms (option (Z * Z)) :=
  ok ← ensure_table pgdir (PDX1 la) create;
  if negb ok then mret None
  else
    pde1 ← gets (λ s, tab s pgdir (PDX1 la));
    pd0 ← KADDR (PDE_ADDR pde1);
    ok ← ensure_table pd0 (PDX0 la) create;
    if negb ok then mret None
    else
      pde0 ← gets (λ s, tab s pd0 (PDX0 la));
      pt ← KADDR (PDE_ADDR pde0);
      mret (Some (pt, PTX la)).

Definition load_pte (ptep : Z * Z) : M vms Z := gets (λ s, tab s ptep.1 ptep.2).
Definition store_pte (ptep : Z * Z) (v : Z) : M vms unit := modify (set_entry ptep.1 ptep.2 v).

Definition get_page (pgdir la : Z) : M vms (option Z) :=
  ptep ← get_pte pgdir la false;
  match ptep with
  | Some ptep =>
    pte ← load_pte ptep;
    if valid pte then page ← pte2page pte; mret (Some page) else mret None
  | None => mret None
  end.

Definition page_remove_pte (ptep : Z * Z) : M vms unit :=
  pte ← load_pte ptep;
  when (valid pte)
    (page ← pte2page pte;
     page_ref_dec page;;
     ref ← page_ref page;
     when (ref =? 0) (free_page page);;
     store_pte ptep 0).

Definition page_remove (pgdir la : Z) : M vms unit :=
  ptep ← get_pte pgdir la false;
  match ptep with
  | Some ptep => page_remove_pte ptep
  | None => mret tt
  end.

Definition page_insert (pgdir page la perm : Z) : M vms Z :=
  ptep ← get_pte pgdir la true;
  match ptep with
  | None => mret (- E_NO_MEM)
  | Some ptep =>
    page_ref_inc page;;
    pte ← load_pte ptep;
    when (valid pte)
      (p ← pte2page pte;
       if p =? page then page_ref_dec page;; mret tt else page_remove_pte ptep);;
    store_pte ptep (pte_create (page2ppn page) (Z.lor PTE_V perm));;
    mret 0
  end.

Definition pgdir_alloc_page (pgdir la perm : Z) : M vms (option Z) :=
  page ← alloc_page;
  match page with
  | None => mret None
  | Some page =>
    r ← page_insert pgdir page la perm;
    if negb (r =? 0) then free_page page;; mret None
    else
      when (swap_init_ok && have_check_mm)
        (swap_map_swappable la page;;
         ref ← page_ref page;
         assert (ref =? 1));;
      mret (Some page)
  end.

(** ** Ranges

    Each loop advances by at least one page: the number of pages of the range is
    enough fuel. *)

Definition range_fuel (start end' : Z) : nat := S (Z.to_nat ((end' - start) / PGSIZE)).

Definition range_asserts (start end' : Z) : M vms unit :=
  assert ((start mod PGSIZE =? 0) && (end' mod PGSIZE =? 0))%bool;;
  assert (USER_ACCESS start end').

Definition go_on (start end' : Z) : bool := (negb (start =? 0) && (start <? end'))%bool.

Fixpoint unmap_loop (fuel : nat) (pgdir start end' : Z) : M vms unit :=
  match fuel with
  | O => out_of_fuel
  | S fuel' =>
    ptep ← get_pte pgdir start false;
    match ptep with
    | None =>
      let start := ROUNDDOWN (u64 (start + PTSIZE)) PTSIZE in
      when (go_on start end') (unmap_loop fuel' pgdir start end')
    | Some ptep =>
      pte ← load_pte ptep;
      when (negb (pte =? 0)) (page_remove_pte ptep);;
      let start := u64 (start + PGSIZE) in
      when (go_on start end') (unmap_loop fuel' pgdir start end')
    end
  end.

Definition unmap_range (pgdir start end' : Z) : M vms unit :=
  range_asserts start end';;
  unmap_loop (range_fuel start end') pgdir start end'.

(** No entry of a page table is valid. *)
Definition no_valid_entry (f : Z → Z) : bool := forallb (λ i, negb (valid (f (Z.of_nat i)))) (seq 0 512).

(** The inner loop of [exit_range] over a level 0 directory: [free_pd0] and the
    final [d0start]. *)
Fixpoint exit_pd0 (fuel : nat) (pd0 d0start d1start end' : Z) (free_pd0 : bool) : M vms bool :=
  match fuel with
  | O => out_of_fuel
  | S fuel' =>
    pde0 ← gets (λ s, tab s pd0 (PDX0 d0start));
    free_pd0 ←
      (if valid pde0 then
         pt ← pde2page pde0;
         free_pt ← gets (λ s, no_valid_entry (tab s pt));
         when free_pt
           (page ← pde2page pde0;
            free_page page;;
            modify (set_entry pd0 (PDX0 d0start) 0));;
         mret free_pd0
       else mret false);
    let d0start := u64 (d0start + PTSIZE) in
    if (negb (d0start =? 0) && (d0start <? d1start + PDSIZE) && (d0start <? end'))%bool
    then exit_pd0 fuel' pd0 d0start d1start end' free_pd0
    else mret free_pd0
  end.

Fixpoint exit_loop (fuel : nat) (pgdir d1start d0start end' : Z) : M vms unit :=
  match fuel with
  | O => out_of_fuel
  | S fuel' =>
    pde1 ← gets (λ s, tab s pgdir (PDX1 d1start));
    when (valid pde1)
      (pd0 ← pde2page pde1;
       free_pd0 ← exit_pd0 512 pd0 d0start d1start end' true;
       when free_pd0
         (page ← pde2page pde1;
          free_page page;;
          modify (set_entry pgdir (PDX1 d1start) 0)));;
    let d1start := u64 (d1start + PDSIZE) in
    when (go_on d1start end') (exit_loop fuel' pgdir d1start d1start end')
  end.

Definition exit_range (pgdir start end' : Z) : M vms unit :=
  range_asserts start end';;
  exit_loop (range_fuel start end') pgdir (ROUNDDOWN start PDSIZE) (ROUNDDOWN start PTSIZE) end'.

Fixpoint copy_loop (fuel : nat) (to from start end' : Z) : M vms Z :=
  match fuel with
  | O => out_of_fuel
  | S fuel' =>
    ptep ← get_pte from start false;
    match ptep with
    | None =>
      let start := ROUNDDOWN (u64 (start + PTSIZE)) PTSIZE in
      if go_on start end' then copy_loop fuel' to from start end' else mret 0
    | Some ptep =>
      pte ← load_pte ptep;
      r ← (if valid pte then
             nptep ← get_pte to start true;
             match nptep with
             | None => mret (- E_NO_MEM)
             | Some _ =>
               let perm := Z.land pte PTE_USER in
               page ← pte2page pte;
               npage ← alloc_page;
               match npage with
               | None => panic
               | Some npage =>
                 frame ← gets (λ s, tab s page);
                 modify (set_frame npage frame);;
                 ret ← page_insert to npage start perm;
                 assert (ret =? 0);;
                 mret 0
               end
             end
           else mret 0);
      if negb (r =? 0) then mret r
      else
        let start := u64 (start + PGSIZE) in
        if go_on start end' then copy_loop fuel' to from start end' else mret 0
    end
  end.

Definition copy_range (to from start end' : Z) : M vms Z :=
  range_asserts start end';;
  copy_loop (range_fuel start end') to from start end'.

(** [for (; n > 0; n--, la += PGSIZE, pa += PGSIZE)] *)
Fixpoint boot_map_loop (n : nat) (pgdir la pa perm : Z) : M vms unit :=
  match n with
  | O => mret tt
  | S n' =>
    ptep ← get_pte pgdir la true;
    match ptep with
    | None => panic
    | Some ptep =>
      store_pte ptep (pte_create (Z.shiftr pa 12) (Z.lor PTE_V perm));;
      boot_map_loop n' pgdir (u64 (la + PGSIZE)) (u64 (pa + PGSIZE)) perm
    end
  end.

Definition boot_map_segment (pgdir la size pa perm : Z) : M vms unit :=
  assert (PGOFF la =? PGOFF pa);;
  let n := ROUNDUP (u64 (size + PGOFF la)) PGSIZE / PGSIZE in
  boot_map_loop (Z.to_nat n) pgdir (ROUNDDOWN la PGSIZE) (ROUNDDOWN pa PGSIZE) perm.

End pgtable.
