(* ===== verification/PgtableProofs.v ===== *)
(** * Page tables: proofs

    The roles of frames (root, level 0 directory, page table) make the three
    levels of one address space a tree without sharing; under this invariant the
    operations act on the abstract map from pages to entries. *)

From S2P Require Import Prelude ListH Pmm CString Vmm Pgtable.

(** ** Entries *)

Lemma small_testbit a n i : 0 ≤ a < 2 ^ n → 0 ≤ n ≤ i → Z.testbit a i = false.
Proof.
  intros Ha Hn. destruct (decide (a = 0)) as [->|]; [apply Z.testbit_0_l|].
  apply Z.bits_above_log2; [lia|]. assert (Z.log2 a < n); [|lia]. apply Z.log2_lt_pow2; lia.
Qed.

(** The frame number and the valid bit of a created entry. *)
Lemma pte_create_ppn ppn type :
  0 ≤ ppn < 2 ^ 44 → 0 ≤ type < 1024 → PPN (PTE_ADDR (pte_create ppn type)) = ppn.
Proof.
  intros Hp Ht. unfold PPN, PTE_ADDR, pte_create, PTXSHIFT, PTE_PPN_SHIFT, PTE_V, u64.
  apply Z.bits_inj'. intros i Hi. rewrite Z.shiftr_spec by lia.
  destruct (Z.lt_ge_cases (i + 12) 64).
  - rewrite Z.mod_pow2_bits_low by lia. rewrite Z.shiftl_spec by lia. rewrite Z.land_spec.
    rewrite !Z.lor_spec, !Z.mod_pow2_bits_low by lia. rewrite Z.lnot_spec by lia.
    change 0x3FF with (Z.ones 10). rewrite Z.testbit_ones_nonneg by lia.
    destruct (Z.ltb_spec (i + 12 - (12 - 10)) 10); [lia|].
    rewrite (small_testbit type 10), (small_testbit 1 1) by lia. rewrite Z.shiftl_spec by lia.
    rewrite !orb_false_r, andb_true_r. f_equal. lia.
  - rewrite Z.mod_pow2_bits_high by lia. symmetry. apply (small_testbit ppn 44); lia.
Qed.

Lemma pte_create_valid ppn type : valid (pte_create ppn type) = true.
Proof.
  unfold valid, pte_create, truth, PTE_V. apply negb_true_iff, Z.eqb_neq. intros E.
  assert (Z.testbit (Z.land (Z.lor (Z.lor (u64 (Z.shiftl ppn PTE_PPN_SHIFT)) 1) type) 1) 0 = false) as Hb
    by (by rewrite E, Z.testbit_0_l).
  rewrite Z.land_spec, !Z.lor_spec in Hb. change (Z.testbit 1 0) with true in Hb.
  by rewrite orb_true_r in Hb.
Qed.

Lemma valid_0 : valid 0 = false.
Proof. done. Qed.

(** ** Indices *)

Lemma index_range la k : 0 ≤ Z.land (Z.shiftr la k) 0x1FF < 512.
Proof.
  change 0x1FF with (Z.ones 9). rewrite Z.land_ones by lia. change 512 with (2 ^ 9).
  apply Z.mod_pos_bound. lia.
Qed.

(** The indices of an address. *)
Definition vpn (la : Z) : Z * Z * Z := (PDX1 la, PDX0 la, PTX la).

(** ** The invariant *)

Inductive role := Root | Dir (i : Z) | Tab (i j : Z).

Definition page_of (pte : Z) : Z := PPN (PTE_ADDR pte) - nbase.
Definition in_memory (pte : Z) : Prop := PPN (PTE_ADDR pte) < npage.

(** [own] gives every frame of the tables its one role in the tree. *)
Record pt_wf (s : vms) (root : Z) (own : Z → option role) : Prop := PtWf {
  pw_root : own root = Some Root;
  pw_dir : ∀ i, 0 ≤ i < 512 → valid (tab s root i) = true →
    own (page_of (tab s root i)) = Some (Dir i) ∧ in_memory (tab s root i);
  pw_tab : ∀ i j, 0 ≤ i < 512 → 0 ≤ j < 512 → valid (tab s root i) = true →
    valid (tab s (page_of (tab s root i)) j) = true →
    own (page_of (tab s (page_of (tab s root i)) j)) = Some (Tab i j) ∧
    in_memory (tab s (page_of (tab s root i)) j);
}.

(** Table frames are not free, and free pages exist. *)
Record held_tables (bs : list (Z * Z)) (own : Z → option role) : Prop := HeldTables {
  ht_out : ∀ p, own p ≠ None → Forall (λ bl, ¬ in_block p bl) bs;
  ht_mem : ∀ p bl, bl ∈ bs → in_block p bl → 0 ≤ p < npage - nbase;
}.

(** ** The abstract map *)

Definition walk (s : vms) (root la : Z) : option (Z * Z) :=
  let e1 := tab s root (PDX1 la) in
  if valid e1 then
    let e0 := tab s (page_of e1) (PDX0 la) in
    if valid e0 then Some (page_of e0, PTX la) else None
  else None.

(** The entry of an address, 0 when its tables are missing. *)
Definition pte_at (s : vms) (root la : Z) : Z :=
  match walk s root la with Some (p, i) => tab s p i | None => 0 end.

Lemma KADDR_spec s pte :
  in_memory pte → KADDR (PDE_ADDR pte) s = Ok (page_of pte, s).
Proof.
  intros Hm. unfold KADDR, pa2page, PDE_ADDR. rewrite bind_assert; [done|].
  unfold in_memory in Hm. lia.
Qed.

Section proofs.
Context (swap_out : Z → M vms unit) (rounds : nat).

Notation alloc_page := (alloc_page false swap_out rounds).
Notation ensure_table := (ensure_table false swap_out rounds).
Notation get_pte := (get_pte false swap_out rounds).
Notation page_insert := (page_insert false swap_out rounds).

Lemma alloc_page_spec s bs :
  free_inv (phys s) bs →
  match first_fit 1 bs with
  | Some (b, bs') => ∃ p', alloc_page s = Ok (Some b, set_phys p' s) ∧ free_inv p' bs' ∧ allocated p' b 1 ∧
      ∀ q, Forall (λ bl, ¬ in_block q bl) bs → pg_ref p' q = pg_ref (phys s) q
  | None => alloc_page s = Ok (None, s)
  end.
Proof.
  intros Hi. pose proof (default_alloc_pages_first_fit (phys s) bs 1 Hi ltac:(lia)) as H.
  unfold Pgtable.alloc_page, alloc_pages. cbn [alloc_pages_loop].
  destruct (first_fit 1 bs) as [[b bs']|].
  - destruct H as (p' & E & Hi' & Ha & Hfr). exists p'.
    rewrite (bind_ok _ _ _ _ _ (zoom_ok phys set_phys _ _ _ _ E)). split_and!; [done..|].
    intros q Hq. by destruct (Hfr q Hq) as (_ & ? & _).
  - pose proof (zoom_ok phys set_phys _ s _ _ H) as Ez. unfold on_phys. rewrite (bind_ok _ _ _ _ _ Ez). simpl.
    by destruct s.
Qed.

Lemma free_inv_set_ref p bs q v : free_inv p bs → free_inv (set_page_ref q v p) bs.
Proof. intros [H1 H2 H3 H4 H5 H6]. by split. Qed.

(** The state after a new table [b] was linked at entry [i] of [dir]. *)
Definition linked_table (s : vms) (dir i b : Z) (p' : pmm) : vms :=
  Vms (set_page_ref b 1 p')
    (upd dir (upd i (pte_create (page2ppn b) (Z.lor PTE_U PTE_V)) (upd b (λ _, 0) (tab s) dir)) (upd b (λ _, 0) (tab s))).

Lemma ensure_table_new s dir i bs b bs' :
  valid (tab s dir i) = false → free_inv (phys s) bs → first_fit 1 bs = Some (b, bs') →
  0 ≤ b < npage - nbase →
  ∃ p', ensure_table dir i true s = Ok (true, linked_table s dir i b p') ∧ free_inv p' bs' ∧ allocated p' b 1.
Proof.
  intros Hv Hi Hff Hb. pose proof (alloc_page_spec s bs Hi) as H. rewrite Hff in H.
  destruct H as (p' & E & Hi' & Ha & _). exists p'. unfold Pgtable.ensure_table. rewrite bind_gets, Hv. cbn [negb].
  rewrite (bind_ok _ _ _ _ _ E). unfold set_ref, on_phys.
  rewrite (bind_ok _ _ _ _ _ (zoom_ok phys set_phys (modify (set_page_ref b 1)) (set_phys p' s) tt _ eq_refl)).
  unfold KADDR, pa2page. rewrite bind_assoc.
  assert (PPN (page2pa b) = b + nbase) as Hppn.
  { unfold PPN, page2pa, page2ppn, PTXSHIFT. rewrite Z.shiftr_shiftl_l by lia. apply Z.shiftl_0_r. }
  rewrite Hppn. rewrite bind_assert by (unfold npage, nbase in *; lia). rewrite bind_ret.
  replace (b + nbase - nbase) with b by lia. msteps. by split_and!.
Qed.

(** *** A new table keeps the tree and the map *)

Lemma new_entry b type : 0 ≤ b < npage - nbase → 0 ≤ type < 1024 →
  page_of (pte_create (page2ppn b) type) = b ∧ in_memory (pte_create (page2ppn b) type).
Proof.
  unfold page_of, in_memory, page2ppn, npage, nbase. intros Hb Ht. rewrite pte_create_ppn by lia. lia.
Qed.

Lemma linked_table_dir s root own i b p' :
  pt_wf s root own → 0 ≤ i < 512 → valid (tab s root i) = false → own b = None → 0 ≤ b < npage - nbase →
  pt_wf (linked_table s root i b p') root (upd b (Some (Dir i)) own) ∧
  (∀ la, pte_at (linked_table s root i b p') root la = pte_at s root la) ∧
  (∀ q, own q = None → q ≠ b → tab (linked_table s root i b p') q = tab s q).
Proof.
  intros [Hr Hd Ht] Hi Hv Hb Hm. set (s' := linked_table s root i b p').
  assert (b ≠ root) as Hbr by congruence.
  destruct (new_entry b (Z.lor PTE_U PTE_V) Hm ltac:(vm_compute; done)) as [Hpe Hme].
  set (e := pte_create (page2ppn b) (Z.lor PTE_U PTE_V)) in *.
  assert (valid e = true) as Hve by apply pte_create_valid.
  assert (∀ k, tab s' root k = if decide (k = i) then e else tab s root k) as Hroot.
  { intros k. unfold s', linked_table. cbn [tab]. rewrite upd_eq. fold e. unfold upd. repeat case_decide; congruence. }
  assert (∀ q k, q ≠ root → q ≠ b → tab s' q k = tab s q k) as Hoth.
  { intros q k H1 H2. unfold s', linked_table. cbn [tab]. by rewrite !upd_ne by congruence. }
  assert (∀ k, tab s' b k = 0) as Hnew.
  { intros k. unfold s', linked_table. cbn [tab]. rewrite upd_ne by congruence. by rewrite upd_eq. }
  assert (∀ k, 0 ≤ k < 512 → valid (tab s root k) = true →
    page_of (tab s root k) ≠ root ∧ page_of (tab s root k) ≠ b) as Hdirs.
  { intros k Hk Hvk. destruct (Hd k Hk Hvk) as [Ho _]. split; congruence. }
  split_and!; [split| |].
  - rewrite upd_ne by done. done.
  - intros k Hk. rewrite Hroot. case_decide as Ek; [subst k|].
    + intros _. rewrite Hpe, upd_eq. done.
    + intros Hvk. destruct (Hdirs k Hk Hvk) as [_ H2]. rewrite upd_ne by congruence. by apply Hd.
  - intros k j Hk Hj. rewrite Hroot. case_decide as Ek; [subst k|].
    + rewrite Hpe, Hnew. done.
    + intros Hvk. destruct (Hdirs k Hk Hvk) as [H1 H2]. rewrite Hoth by done. intros Hvj.
      destruct (Ht k j Hk Hj Hvk Hvj) as [Ho ?]. rewrite upd_ne; [done|]. congruence.
  - intros la. unfold pte_at, walk. rewrite Hroot. pose proof (index_range la PDX1SHIFT) as Hk.
    fold (PDX1 la) in Hk. case_decide as Ek.
    + rewrite Ek, Hv, Hve, Hpe, Hnew. done.
    + destruct (valid (tab s root (PDX1 la))) eqn:Ev; [|done]. destruct (Hdirs _ Hk Ev) as [H1 H2].
      rewrite Hoth by done. destruct (valid (tab s _ (PDX0 la))) eqn:Ev0; [|done].
      destruct (Ht _ (PDX0 la) Hk (index_range la PDX0SHIFT) Ev Ev0) as [Ho _]. apply Hoth; congruence.
  - intros q Hq Hqb. unfold s', linked_table. cbn [tab]. rewrite !upd_ne by congruence. done.
Qed.

Lemma linked_table_tab s root own i j b p' :
  pt_wf s root own → 0 ≤ i < 512 → 0 ≤ j < 512 → valid (tab s root i) = true →
  valid (tab s (page_of (tab s root i)) j) = false → own b = None → 0 ≤ b < npage - nbase →
  pt_wf (linked_table s (page_of (tab s root i)) j b p') root (upd b (Some (Tab i j)) own) ∧
  (∀ la, pte_at (linked_table s (page_of (tab s root i)) j b p') root la = pte_at s root la) ∧
  (∀ q, own q = None → q ≠ b → tab (linked_table s (page_of (tab s root i)) j b p') q = tab s q).
Proof.
  intros [Hr Hd Ht] Hi Hj Hvi Hv Hb Hm. set (d := page_of (tab s root i)) in *.
  set (s' := linked_table s d j b p'). destruct (Hd i Hi Hvi) as [Hod Hmd]. fold d in Hod.
  assert (b ≠ root ∧ d ≠ root ∧ b ≠ d) as (Hbr & Hdr & Hbd) by (split_and!; congruence).
  destruct (new_entry b (Z.lor PTE_U PTE_V) Hm ltac:(vm_compute; done)) as [Hpe Hme].
  set (e := pte_create (page2ppn b) (Z.lor PTE_U PTE_V)) in *.
  assert (valid e = true) as Hve by apply pte_create_valid.
  assert (∀ k, tab s' d k = if decide (k = j) then e else tab s d k) as Hdk.
  { intros k. unfold s', linked_table. cbn [tab]. rewrite upd_eq. fold e. unfold upd. repeat case_decide; congruence. }
  assert (∀ q k, q ≠ d → q ≠ b → tab s' q k = tab s q k) as Hoth.
  { intros q k H1 H2. unfold s', linked_table. cbn [tab]. by rewrite !upd_ne by congruence. }
  assert (∀ k, tab s' b k = 0) as Hnew.
  { intros k. unfold s', linked_table. cbn [tab]. rewrite upd_ne by congruence. by rewrite upd_eq. }
  assert (∀ k, 0 ≤ k < 512 → valid (tab s root k) = true → k ≠ i → page_of (tab s root k) ≠ d) as Hdd.
  { intros k Hk Hvk Hki Heq. destruct (Hd k Hk Hvk) as [Ho _]. rewrite Heq, Hod in Ho. congruence. }
  assert (∀ k, 0 ≤ k < 512 → valid (tab s root k) = true → page_of (tab s root k) ≠ b) as Hdb.
  { intros k Hk Hvk. destruct (Hd k Hk Hvk) as [Ho _]. congruence. }
  assert (∀ k, tab s' root k = tab s root k) as Hroot by (intros; apply Hoth; congruence).
  split_and!; [split| |].
  - by rewrite upd_ne.
  - intros k Hk. rewrite Hroot. intros Hvk. rewrite upd_ne by (intros ?; by apply (Hdb k)). by apply Hd.
  - intros k m Hk Hm'. rewrite Hroot. intros Hvk. destruct (decide (k = i)) as [->|Hki].
    + fold d. rewrite Hdk. case_decide as Em; [subst m|].
      * intros _. rewrite Hpe, upd_eq. done.
      * intros Hvm. destruct (Ht i m Hi Hm' Hvk Hvm) as [Ho ?]. fold d in Ho. rewrite upd_ne; [done|]. congruence.
    + rewrite Hoth by auto. intros Hvm. destruct (Ht k m Hk Hm' Hvk Hvm) as [Ho ?]. rewrite upd_ne; [done|]. congruence.
  - intros la. unfold pte_at, walk. rewrite Hroot. pose proof (index_range la PDX1SHIFT) as Hk.
    fold (PDX1 la) in Hk. destruct (valid (tab s root (PDX1 la))) eqn:Ev; [|done].
    destruct (decide (PDX1 la = i)) as [->|Hki].
    + fold d. rewrite Hdk. case_decide as Em; [rewrite Em, Hve, Hpe, Hnew, Hv; done|].
      destruct (valid (tab s d (PDX0 la))) eqn:Ev0; [|done].
      destruct (Ht i (PDX0 la) Hi (index_range la PDX0SHIFT) Hvi Ev0) as [Ho _]. fold d in Ho. apply Hoth; congruence.
    + rewrite Hoth by auto. destruct (valid (tab s _ (PDX0 la))) eqn:Ev0; [|done].
      destruct (Ht _ (PDX0 la) Hk (index_range la PDX0SHIFT) Ev Ev0) as [Ho _]. apply Hoth; congruence.
  - intros q Hq Hqb. unfold s', linked_table. cbn [tab]. rewrite !upd_ne by congruence. done.
Qed.

(** ** get_pte *)

(** What [get_pte] and its clients keep. *)
Record vm_inv (s : vms) (root : Z) (own : Z → option role) (bs : list (Z * Z)) : Prop := VmInv {
  vi_wf : pt_wf s root own;
  vi_free : free_inv (phys s) bs;
  vi_held : held_tables bs own;
}.

(** A page that is neither a table nor free. *)
Definition user_page (own : Z → option role) (bs : list (Z * Z)) (p : Z) : Prop :=
  own p = None ∧ Forall (λ bl, ¬ in_block p bl) bs.

(** At most [n] pages have left the free list, and none has entered it. *)
Definition taken (n : Z) (bs bs' : list (Z * Z)) : Prop :=
  total bs ≤ total bs' + n ∧ ∀ p bl, bl ∈ bs' → in_block p bl → ∃ bl', bl' ∈ bs ∧ in_block p bl'.

Lemma taken_refl n bs : 0 ≤ n → taken n bs bs.
Proof. intros Hn. split; [lia|]. intros p bl ??. by exists bl. Qed.

Lemma taken_le n m bs bs' : taken n bs bs' → n ≤ m → taken m bs bs'.
Proof. intros [? ?] ?. split; [lia|done]. Qed.

Lemma taken_trans n m bs bs1 bs2 : taken n bs bs1 → taken m bs1 bs2 → taken (n + m) bs bs2.
Proof. intros [T1 S1] [T2 S2]. split; [lia|]. intros p bl Hin Hp. destruct (S2 p bl Hin Hp) as (bl' & ? & ?). by eapply S1. Qed.

Lemma first_fit_page bs b bs' :
  wf_blocks 0 bs → first_fit 1 bs = Some (b, bs') →
  (∃ bl, bl ∈ bs ∧ in_block b bl) ∧ Forall (λ bl, ¬ in_block b bl) bs' ∧
  (∀ p, Forall (λ bl, ¬ in_block p bl) bs → Forall (λ bl, ¬ in_block p bl) bs') ∧
  (∀ p bl, bl ∈ bs' → in_block p bl → ∃ bl', bl' ∈ bs ∧ in_block p bl').
Proof.
  clear swap_out rounds. intros Hwf Hff. pose proof (first_fit_split 1 bs) as H. rewrite Hff in H.
  destruct H as (l1 & m & l2 & -> & Hm & _ & ->). pose proof (wf_mid _ _ _ _ _ Hwf) as (Hlt & _ & _ & Hgt).
  unfold in_block. split_and!.
  - exists (b, m). simpl. split; [set_solver|lia].
  - rewrite !Forall_app. split_and!.
    + apply Forall_forall. intros [c k] Hin. simpl. destruct (Hlt _ _ Hin). lia.
    + destruct (Z.ltb_spec 1 m); [apply Forall_singleton; simpl; lia|done].
    + apply Forall_forall. intros [c k] Hin. simpl. destruct (Hgt _ _ Hin). lia.
  - intros p. rewrite !Forall_app, Forall_cons. intros (? & ? & ?). split_and!; [done| |done].
    destruct (Z.ltb_spec 1 m); [apply Forall_singleton; simpl in *; lia|done].
  - intros p bl Hin Hp. rewrite !elem_of_app in Hin. destruct Hin as [Hin|[Hin|Hin]].
    + exists bl. set_solver.
    + destruct (Z.ltb_spec 1 m); [|set_solver]. apply list_elem_of_singleton in Hin as ->.
      exists (b, m). simpl in *. split; [set_solver|lia].
    + exists bl. set_solver.
Qed.

Lemma first_fit_taken bs b bs' : wf_blocks 0 bs → first_fit 1 bs = Some (b, bs') → taken 1 bs bs'.
Proof.
  intros Hw Hff. split; [rewrite (first_fit_total _ _ _ _ Hff); lia|]. by destruct (first_fit_page bs b bs' Hw Hff) as (_ & _ & _ & ?).
Qed.

Lemma held_after_alloc bs own b bs' r :
  wf_blocks 0 bs → held_tables bs own → first_fit 1 bs = Some (b, bs') →
  own b = None ∧ 0 ≤ b < npage - nbase ∧ held_tables bs' (upd b (Some r) own) ∧
  (∀ p, user_page own bs p → p ≠ b ∧ user_page (upd b (Some r) own) bs' p).
Proof.
  clear swap_out rounds. intros Hwf [Ho Hm] Hff. destruct (first_fit_page bs b bs' Hwf Hff) as ((bl & Hbl & Hb) & Hnb & Hsub & Hin).
  assert (∀ p, Forall (λ bl, ¬ in_block p bl) bs → p ≠ b) as Hne.
  { intros p Hp ->. rewrite Forall_forall in Hp. by eapply Hp. }
  split_and!.
  - destruct (own b) as [r'|] eqn:E; [|done]. exfalso. eapply Hne; [apply (Ho b); congruence|done].
  - by apply (Hm b bl).
  - by apply (Hm b bl).
  - split.
    + intros p. destruct (decide (b = p)) as [<-|]; [done|]. rewrite upd_ne by done. intros ?. by apply Hsub, Ho.
    + intros p bl' Hbl' Hp. destruct (Hin p bl' Hbl' Hp) as (bl2 & ? & ?). by eapply Hm.
  - intros p [Hp1 Hp2]. assert (p ≠ b) as Hpb by by apply Hne. split; [done|]. split; [|by apply Hsub].
    by rewrite upd_ne by congruence.
Qed.

(** [ensure_table] on the root directory. *)
Lemma ensure_dir_spec s root own bs i :
  vm_inv s root own bs → 0 ≤ i < 512 →
  ∃ ok s' own' bs', ensure_table root i true s = Ok (ok, s') ∧ vm_inv s' root own' bs' ∧
    (∀ la, pte_at s' root la = pte_at s root la) ∧
    (∀ p, user_page own bs p → user_page own' bs' p ∧ tab s' p = tab s p) ∧
    (if ok : bool then valid (tab s' root i) = true else bs = []) ∧ taken 1 bs bs'.
Proof.
  intros [Hwf Hfr Hh] Hi. destruct (valid (tab s root i)) eqn:Hv.
  { exists true, s, own, bs. unfold Pgtable.ensure_table. rewrite bind_gets, Hv. pose proof (taken_refl 1 bs ltac:(lia)). by split_and!. }
  destruct (first_fit 1 bs) as [[b bs']|] eqn:Hff.
  - destruct (held_after_alloc bs own b bs' (Dir i) (inv_wf _ _ Hfr) Hh Hff) as (Hb & Hm & Hh' & Hup).
    destruct (ensure_table_new s root i bs b bs' Hv Hfr Hff Hm) as (p' & E & Hi' & _).
    destruct (linked_table_dir s root own i b p' Hwf Hi Hv Hb Hm) as (Hwf' & Hpte & Hoth).
    exists true, (linked_table s root i b p'), (upd b (Some (Dir i)) own), bs'.
    split_and!; [done|split; [done|by apply free_inv_set_ref|done]|done| | |by eapply first_fit_taken, Hff; apply Hfr].
    + intros p Hp. destruct (Hup p Hp) as [? ?]. split; [done|]. apply Hoth; [apply Hp|done].
    + unfold linked_table. cbn [tab]. rewrite !upd_eq. apply pte_create_valid.
  - exists false, s, own, bs. pose proof (alloc_page_spec s bs Hfr) as E. rewrite Hff in E.
    unfold Pgtable.ensure_table. rewrite bind_gets, Hv. cbn [negb]. rewrite (bind_ok _ _ _ _ _ E).
    split_and!; [done|done|done|done| |apply taken_refl; lia].
    pose proof (first_fit_split 1 bs) as H. rewrite Hff in H. pose proof (inv_wf _ _ Hfr) as Hw.
    destruct bs as [|[c k] bs]; [done|]. simpl in Hw. apply Forall_cons in H as [? _]. simpl in *. lia.
Qed.

(** [ensure_table] on a level 0 directory. *)
Lemma ensure_tab_spec s root own bs i j :
  vm_inv s root own bs → 0 ≤ i < 512 → 0 ≤ j < 512 → valid (tab s root i) = true →
  ∃ ok s' own' bs', ensure_table (page_of (tab s root i)) j true s = Ok (ok, s') ∧ vm_inv s' root own' bs' ∧
    (∀ la, pte_at s' root la = pte_at s root la) ∧
    (∀ p, user_page own bs p → user_page own' bs' p ∧ tab s' p = tab s p) ∧
    tab s' root = tab s root ∧
    (if ok : bool then valid (tab s' (page_of (tab s root i)) j) = true else bs = []) ∧ taken 1 bs bs'.
Proof.
  intros [Hwf Hfr Hh] Hi Hj Hvi. set (d := page_of (tab s root i)). destruct (valid (tab s d j)) eqn:Hv.
  { exists true, s, own, bs. unfold Pgtable.ensure_table. rewrite bind_gets, Hv. pose proof (taken_refl 1 bs ltac:(lia)). by split_and!. }
  destruct (first_fit 1 bs) as [[b bs']|] eqn:Hff.
  - destruct (held_after_alloc bs own b bs' (Tab i j) (inv_wf _ _ Hfr) Hh Hff) as (Hb & Hm & Hh' & Hup).
    destruct (ensure_table_new s d j bs b bs' Hv Hfr Hff Hm) as (p' & E & Hi' & _).
    destruct (linked_table_tab s root own i j b p' Hwf Hi Hj Hvi Hv Hb Hm) as (Hwf' & Hpte & Hoth).
    fold d in Hwf', Hpte, Hoth.
    exists true, (linked_table s d j b p'), (upd b (Some (Tab i j)) own), bs'.
    split_and!; [done|split; [done|by apply free_inv_set_ref|done]|done| | | |by eapply first_fit_taken, Hff; apply Hfr].
    + intros p Hp. destruct (Hup p Hp) as [? ?]. split; [done|]. apply Hoth; [apply Hp|done].
    + destruct Hwf as [Hr Hd _]. destruct (Hd i Hi Hvi) as [Hod _]. fold d in Hod.
      unfold linked_table. cbn [tab]. rewrite !upd_ne; congruence.
    + unfold linked_table. cbn [tab]. rewrite !upd_eq. apply pte_create_valid.
  - exists false, s, own, bs. pose proof (alloc_page_spec s bs Hfr) as E. rewrite Hff in E.
    unfold Pgtable.ensure_table. rewrite bind_gets, Hv. cbn [negb]. rewrite (bind_ok _ _ _ _ _ E).
    split_and!; [done|done|done|done|done| |apply taken_refl; lia].
    pose proof (first_fit_split 1 bs) as H. rewrite Hff in H. pose proof (inv_wf _ _ Hfr) as Hw.
    destruct bs as [|[c k] bs]; [done|]. simpl in Hw. apply Forall_cons in H as [? _]. simpl in *. lia.
Qed.

(** [get_pte] with [create]: it makes the tables of [la] without changing any
    mapping, or reports that memory ran out. *)
Lemma get_pte_create_taken s root own bs la :
  vm_inv s root own bs →
  ∃ r s' own' bs', get_pte root la true s = Ok (r, s') ∧ vm_inv s' root own' bs' ∧
    (∀ la', pte_at s' root la' = pte_at s root la') ∧
    (∀ p, user_page own bs p → user_page own' bs' p ∧ tab s' p = tab s p) ∧
    match r with
    | Some pi => walk s' root la = Some pi
    | None => bs' = [] ∧ total bs ≤ 1
    end ∧ taken 2 bs bs'.
Proof.
  intros Hi. pose proof (index_range la PDX1SHIFT) as H1. pose proof (index_range la PDX0SHIFT) as H0.
  fold (PDX1 la) in H1. fold (PDX0 la) in H0. unfold Pgtable.get_pte.
  destruct (ensure_dir_spec s root own bs (PDX1 la) Hi H1) as (ok & s1 & own1 & bs1 & E1 & Hi1 & Hp1 & Hu1 & Hok1 & Ht1).
  rewrite (bind_ok _ _ _ _ _ E1). destruct ok; cbn [negb].
  2: { assert (taken 2 bs bs1) by (eapply (taken_trans 1 1); [done|apply taken_refl; lia]).
       exists None, s1, own1, bs1. split_and!; try done; [|by subst bs]. subst bs.
       (* nothing was allocated *)
       revert E1. unfold Pgtable.ensure_table. rewrite bind_gets.
       destruct (valid (tab s root (PDX1 la))) eqn:Ev; cbn [negb]; [done|].
       pose proof (alloc_page_spec s [] (vi_free _ _ _ _ Hi)) as Ea. simpl in Ea.
       rewrite (bind_ok _ _ _ _ _ Ea). intros [= <-].
       pose proof (inv_count _ _ (vi_free _ _ _ _ Hi1)) as Hc. rewrite (inv_count _ _ (vi_free _ _ _ _ Hi)) in Hc.
       pose proof (inv_wf _ _ (vi_free _ _ _ _ Hi1)) as Hw. destruct bs1 as [|[c k] bs1]; [done|].
       simpl in Hc, Hw. destruct Hw as (_ & ? & Hw). pose proof (total_nonneg _ _ Hw). lia. }
  rewrite bind_gets. set (e1 := tab s1 root (PDX1 la)) in *.
  destruct (pw_dir _ _ _ (vi_wf _ _ _ _ Hi1) (PDX1 la) H1 Hok1) as [_ Hm1]. fold e1 in Hm1.
  rewrite (bind_ok _ _ _ _ _ (KADDR_spec s1 e1 Hm1)).
  destruct (ensure_tab_spec s1 root own1 bs1 (PDX1 la) (PDX0 la) Hi1 H1 H0 Hok1)
    as (ok & s2 & own2 & bs2 & E2 & Hi2 & Hp2 & Hu2 & Hr2 & Hok2 & Ht2).
  fold e1 in E2, Hok2. rewrite (bind_ok _ _ _ _ _ E2).
  assert (∀ la', pte_at s2 root la' = pte_at s root la') as Hpte by (intros; by rewrite Hp2, Hp1).
  assert (∀ p, user_page own bs p → user_page own2 bs2 p ∧ tab s2 p = tab s p) as Hup.
  { intros p Hp. destruct (Hu1 p Hp) as [Hp' <-]. by apply Hu2. }
  destruct ok; cbn [negb].
  2: { pose proof (taken_trans 1 1 _ _ _ Ht1 Ht2).
       exists None, s2, own2, bs2. split_and!; try done; [|subst bs1; destruct Ht1 as [Ht1 _]; simpl in Ht1; lia]. subst bs1.
       revert E2. unfold Pgtable.ensure_table. rewrite bind_gets.
       destruct (valid (tab s1 (page_of e1) (PDX0 la))) eqn:Ev; cbn [negb]; [done|].
       pose proof (alloc_page_spec s1 [] (vi_free _ _ _ _ Hi1)) as Ea. simpl in Ea.
       rewrite (bind_ok _ _ _ _ _ Ea). intros [= <-].
       pose proof (inv_count _ _ (vi_free _ _ _ _ Hi2)) as Hc. rewrite (inv_count _ _ (vi_free _ _ _ _ Hi1)) in Hc.
       pose proof (inv_wf _ _ (vi_free _ _ _ _ Hi2)) as Hw. destruct bs2 as [|[c k] bs2]; [done|].
       simpl in Hc, Hw. destruct Hw as (_ & ? & Hw). pose proof (total_nonneg _ _ Hw). lia. }
  rewrite bind_gets. set (e0 := tab s2 (page_of e1) (PDX0 la)) in *.
  assert (tab s2 root (PDX1 la) = e1) as He1 by (by rewrite Hr2).
  destruct (pw_tab _ _ _ (vi_wf _ _ _ _ Hi2) (PDX1 la) (PDX0 la) H1 H0) as [_ Hm0]; [by rewrite He1|by rewrite He1|].
  rewrite He1 in Hm0. fold e0 in Hm0. rewrite (bind_ok _ _ _ _ _ (KADDR_spec s2 e0 Hm0)).
  pose proof (taken_trans 1 1 _ _ _ Ht1 Ht2).
  exists (Some (page_of e0, PTX la)), s2, own2, bs2. split_and!; try done.
  unfold walk. rewrite He1, Hok1. fold e0. by rewrite Hok2.
Qed.

Lemma get_pte_create_spec s root own bs la :
  vm_inv s root own bs →
  ∃ r s' own' bs', get_pte root la true s = Ok (r, s') ∧ vm_inv s' root own' bs' ∧
    (∀ la', pte_at s' root la' = pte_at s root la') ∧
    (∀ p, user_page own bs p → user_page own' bs' p ∧ tab s' p = tab s p) ∧
    match r with
    | Some pi => walk s' root la = Some pi
    | None => bs' = []
    end.
Proof.
  intros Hi. destruct (get_pte_create_taken s root own bs la Hi) as (r & s' & own' & bs' & E & ? & ? & ? & Hr & _).
  exists r, s', own', bs'. split_and!; try done. by destruct r; [|destruct Hr].
Qed.

(** Without [create] it is the walk. *)
Lemma get_pte_find_spec s root own la :
  pt_wf s root own → get_pte root la false s = Ok (walk s root la, s).
Proof.
  intros Hwf. pose proof (index_range la PDX1SHIFT) as H1. pose proof (index_range la PDX0SHIFT) as H0.
  fold (PDX1 la) in H1. fold (PDX0 la) in H0. unfold Pgtable.get_pte, Pgtable.ensure_table, walk. msteps.
  destruct (valid (tab s root (PDX1 la))) eqn:Ev; cbn [negb]; [|done]. msteps. cbn [negb]. msteps.
  destruct (pw_dir _ _ _ Hwf (PDX1 la) H1 Ev) as [_ Hm1].
  rewrite (bind_ok _ _ _ _ _ (KADDR_spec s _ Hm1)). msteps.
  destruct (valid (tab s _ (PDX0 la))) eqn:Ev0; cbn [negb]; [|done]. msteps. cbn [negb]. msteps.
  destruct (pw_tab _ _ _ Hwf (PDX1 la) (PDX0 la) H1 H0 Ev Ev0) as [_ Hm0].
  by rewrite (bind_ok _ _ _ _ _ (KADDR_spec s _ Hm0)).
Qed.

(** ** Storing an entry *)

Lemma store_leaf s root own la pt i v :
  pt_wf s root own → walk s root la = Some (pt, i) →
  pt_wf (set_entry pt i v s) root own ∧ pte_at (set_entry pt i v s) root la = v ∧
  (∀ la', vpn la' ≠ vpn la → pte_at (set_entry pt i v s) root la' = pte_at s root la') ∧
  (∀ q, own q = None → tab (set_entry pt i v s) q = tab s q) ∧
  (∀ a, walk (set_entry pt i v s) root a = walk s root a).
Proof.
  intros Hwf Hw. pose proof Hwf as [Hr Hd Ht].
  assert (∀ a, 0 ≤ PDX1 a < 512 ∧ 0 ≤ PDX0 a < 512) as Hix by (intros; split; apply index_range).
  unfold walk in Hw. destruct (valid (tab s root (PDX1 la))) eqn:Ev1; [|done].
  destruct (valid (tab s _ (PDX0 la))) eqn:Ev0; [|done]. injection Hw as <- <-. destruct (Hix la) as [H1 H0].
  destruct (Ht _ _ H1 H0 Ev1 Ev0) as [Hot _]. set (pt := page_of (tab s _ (PDX0 la))) in *.
  set (s' := set_entry pt (PTX la) v s).
  assert (∀ q, q ≠ pt → tab s' q = tab s q) as Hoth.
  { intros q Hq. unfold s', set_entry, set_frame. cbn [tab]. by rewrite upd_ne. }
  assert (∀ q, own q = Some Root ∨ (∃ k, own q = Some (Dir k)) → tab s' q = tab s q) as Hup.
  { intros q [Hq|[k Hq]]; apply Hoth; congruence. }
  assert (tab s' root = tab s root) as Hroot by (apply Hup; auto).
  assert (∀ k, 0 ≤ k < 512 → valid (tab s root k) = true →
    tab s' (page_of (tab s root k)) = tab s (page_of (tab s root k))) as Hdirs.
  { intros k Hk Hvk. apply Hup. right. destruct (Hd k Hk Hvk). eauto. }
  assert (∀ a, walk s' root a = walk s root a) as Hwalk.
  { intros a. unfold walk. rewrite Hroot. destruct (valid (tab s root (PDX1 a))) eqn:Ea; [|done].
    rewrite Hdirs by (done || apply Hix). done. }
  split_and!; [split| | | |].
  - done.
  - rewrite Hroot. done.
  - intros k j Hk Hj. rewrite Hroot. intros Hvk. rewrite Hdirs by done. by apply Ht.
  - unfold pte_at. rewrite Hwalk. unfold walk. rewrite Ev1, Ev0. fold pt.
    unfold s', set_entry, set_frame. cbn [tab]. by rewrite !upd_eq.
  - intros a Ha. unfold pte_at. rewrite Hwalk. destruct (walk s root a) as [[q k]|] eqn:Ew; [|done].
    unfold walk in Ew. destruct (valid (tab s root (PDX1 a))) eqn:Ea1; [|done].
    destruct (valid (tab s _ (PDX0 a))) eqn:Ea0; [|done]. injection Ew as <- <-. destruct (Hix a) as [Ha1 Ha0].
    destruct (Ht _ _ Ha1 Ha0 Ea1 Ea0) as [Hoa _]. set (q := page_of (tab s _ (PDX0 a))) in *.
    destruct (decide (q = pt)) as [Eq|Nq]; [|by rewrite Hoth].
    rewrite Eq, Hot in Hoa. injection Hoa as E1 E0.
    unfold s', set_entry, set_frame. cbn [tab]. rewrite Eq, upd_eq, upd_ne; [done|].
    intros E2. apply Ha. unfold vpn. congruence.
  - intros q Hq. apply Hoth. congruence.
  - done.
Qed.

Lemma vm_inv_set_ref s root own bs q v :
  vm_inv s root own bs → vm_inv (set_phys (set_page_ref q v (phys s)) s) root own bs.
Proof. intros [[Hr Hd Ht] Hf Hh]. split; [by split|by apply free_inv_set_ref|done]. Qed.

Lemma pte2page_spec s pte : valid pte = true → in_memory pte → pte2page pte s = Ok (page_of pte, s).
Proof.
  intros Hv Hm. unfold pte2page. rewrite bind_assert by done. unfold pa2page.
  rewrite bind_assert; [done|]. unfold in_memory in Hm. lia.
Qed.

(** The part of [page_insert] that looks at the old entry: the map is as before
    or the entry was removed, reference counts apart. *)
Lemma drop_old_spec s root own bs la pt i page :
  vm_inv s root own bs → walk s root la = Some (pt, i) →
  (valid (tab s pt i) = true → in_memory (tab s pt i) ∧
    (page_of (tab s pt i) = page ∨ s32 (pg_ref (phys s) (page_of (tab s pt i)) - 1) ≠ 0)) →
  ∃ s', (pte ← load_pte (pt, i);
    when (valid pte) (p ← pte2page pte;
      if p =? page then page_ref_dec page;; mret tt else page_remove_pte (pt, i))) s = Ok (tt, s') ∧
    vm_inv s' root own bs ∧ walk s' root la = Some (pt, i) ∧
    (∀ la', vpn la' ≠ vpn la → pte_at s' root la' = pte_at s root la') ∧
    (∀ q, own q = None → tab s' q = tab s q).
Proof.
  intros Hi Hw Hold. unfold load_pte. rewrite bind_gets. cbn [fst snd]. set (e := tab s pt i) in *.
  destruct (valid e) eqn:Ev; cbn [when]; [|by exists s; split_and!].
  destruct (Hold eq_refl) as [Hm Href]. rewrite (bind_ok _ _ _ _ _ (pte2page_spec s e Ev Hm)).
  unfold page_ref_dec, page_ref, set_ref, on_phys.
  destruct (Z.eqb_spec (page_of e) page) as [Heq|Hne].
  - msteps. eexists. split; [reflexivity|]. split_and!; [|done|done|done].
    apply vm_inv_set_ref. done.
  - destruct Href as [|Href]; [done|]. unfold page_remove_pte, load_pte. rewrite bind_gets. cbn [fst snd].
    fold e. rewrite Ev. cbn [when]. rewrite (bind_ok _ _ _ _ _ (pte2page_spec s e Ev Hm)).
    unfold page_ref_dec, page_ref, set_ref, on_phys. msteps.
    cbn [phys set_phys set_page_ref pg_ref]. rewrite upd_eq.
    destruct (Z.eqb_spec (s32 (pg_ref (phys s) (page_of e) - 1)) 0) as [|_]; [done|]. cbn [when]. msteps.
    set (s1 := set_phys _ s). assert (vm_inv s1 root own bs) as Hi1 by by apply vm_inv_set_ref.
    assert (walk s1 root la = Some (pt, i)) as Hw1 by done.
    destruct (store_leaf s1 root own la pt i 0 (vi_wf _ _ _ _ Hi1) Hw1) as (Hwf & _ & Hpte & Htab & Hwk).
    eexists. split; [reflexivity|]. cbn [fst snd]. split_and!; [|..|done|done].
    + destruct Hi1 as [_ Hf Hh]. split; done.
    + by rewrite Hwk.
Qed.

(** An address whose tables exist needs no allocation. *)
Lemma get_pte_present s root own la create pi :
  pt_wf s root own → walk s root la = Some pi → get_pte root la create s = Ok (Some pi, s).
Proof.
  intros Hwf Hw. rewrite <-Hw. destruct create; [|by eapply get_pte_find_spec].
  rewrite <-(get_pte_find_spec s root own la Hwf). unfold walk in Hw.
  destruct (valid (tab s root (PDX1 la))) eqn:Ev; [|done].
  destruct (valid (tab s _ (PDX0 la))) eqn:Ev0; [|done].
  unfold Pgtable.get_pte, Pgtable.ensure_table. msteps. rewrite Ev. cbn [negb]. msteps. cbn [negb]. msteps.
  destruct (pw_dir _ _ _ Hwf (PDX1 la) (index_range la _) Ev) as [_ Hm1].
  rewrite !(bind_ok _ _ _ _ _ (KADDR_spec s _ Hm1)). msteps. by rewrite Ev0.
Qed.

(** The old mapping of [la] is replaced without returning its page to the allocator. *)
Definition replaceable (s : vms) (page pte : Z) : Prop :=
  valid pte = true → in_memory pte ∧
    (page_of pte = page ∨ s32 (pg_ref (phys s) (page_of pte) - 1) ≠ 0).

(** *** Returning the old page *)

Lemma give_back_page p b bs : ¬ in_block p (b, 1) → Forall (λ bl, ¬ in_block p bl) bs → Forall (λ bl, ¬ in_block p bl) (give_back b 1 bs).
Proof.
  intros Hb Hbs. eapply Forall_impl; [apply (give_back_apart (p, 1)); [done| |]|].
  - unfold apart, in_block in *. simpl in *. lia.
  - eapply Forall_impl; [exact Hbs|]. intros [c k]. unfold apart, in_block. simpl. lia.
  - intros [c k]. unfold apart, in_block. simpl. lia.
Qed.

(** The page [old] can be returned: it is in use and no table, and it does not lie above all free
    blocks (the case that [default_free_pages] gets wrong). *)
Record returnable (p : pmm) (own : Z → option role) (bs : list (Z * Z)) (old : Z) : Prop := Returnable {
  rt_range : 0 ≤ old < npage - nbase;
  rt_own : own old = None;
  rt_used : allocated p old 1;
  rt_apart : Forall (apart (old, 1)) bs;
  rt_below : below_last p old = true;
  rt_room : total bs + 1 < 2 ^ 32;
}.

Lemma free_page_spec s root own bs old :
  vm_inv s root own bs → returnable (phys s) own bs old →
  ∃ p', free_page old s = Ok (tt, set_phys p' s) ∧ vm_inv (set_phys p' s) root own (give_back old 1 bs) ∧
    ∀ q, q ≠ old → user_page own bs q → user_page own (give_back old 1 bs) q.
Proof.
  intros [Hwf Hf [Ho Hm]] [Hr Hown Hu Hap Hbl Ht].
  destruct (insertion_point 0 old 1 bs (inv_wf _ _ Hf) ltac:(lia) ltac:(lia) Hap) as (l1 & l2 & -> & Hw).
  destruct (default_free_pages_give_back (phys s) old 1 l1 l2 Hf Hu Hw) as (p' & E & Hf' & _); [|lia|].
  { eapply below_last_not_last; [apply (inv_links _ _ Hf)|done..]. }
  assert (∀ q, q ≠ old → ¬ in_block q (old, 1)) as Hne by (unfold in_block; simpl; lia).
  exists p'. split; [exact (zoom_ok phys set_phys _ _ _ _ E)|]. split; [split; [by destruct Hwf; split|done|split]|].
  - intros q Hq. apply give_back_page; [|by apply Ho]. apply Hne. congruence.
  - intros q bl Hin Hq. destruct (decide (q = old)) as [->|Hqo]; [done|].
    destruct (decide (Forall (λ bl, ¬ in_block q bl) (l1 ++ l2))) as [Hall|(bl' & ? & Hn)%not_Forall_Exists%Exists_exists]; [| |apply _].
    + pose proof (give_back_page q old _ (Hne q Hqo) Hall) as Hg. rewrite Forall_forall in Hg. by destruct (Hg bl Hin).
    + apply dec_stable in Hn. by eapply Hm.
  - intros q Hqo [? ?]. split; [done|]. apply give_back_page; [by apply Hne|done].
Qed.

(** [page_insert] once the tables of [la] exist. *)
Lemma page_insert_tail s root own bs la pt i page perm :
  vm_inv s root own bs → walk s root la = Some (pt, i) → replaceable s page (tab s pt i) →
  ∃ s', (page_ref_inc page;;
    pte ← load_pte (pt, i);
    when (valid pte) (p ← pte2page pte;
      if p =? page then page_ref_dec page;; mret tt else page_remove_pte (pt, i));;
    store_pte (pt, i) (pte_create (page2ppn page) (Z.lor PTE_V perm));;
    mret 0) s = Ok (0, s') ∧
    vm_inv s' root own bs ∧ pte_at s' root la = pte_create (page2ppn page) (Z.lor PTE_V perm) ∧
    (∀ la', vpn la' ≠ vpn la → pte_at s' root la' = pte_at s root la') ∧
    (∀ q, own q = None → tab s' q = tab s q).
Proof.
  intros Hi Hw Hrep. set (s1 := set_phys (set_page_ref page (s32 (pg_ref (phys s) page + 1)) (phys s)) s).
  assert (vm_inv s1 root own bs) as Hi1 by by apply vm_inv_set_ref.
  assert (replaceable s1 page (tab s1 pt i)) as Hrep1.
  { intros Hv. destruct (Hrep Hv) as [Hm Hor]. split; [done|].
    destruct (decide (page_of (tab s pt i) = page)) as [|Hne]; [by left|]. right.
    destruct Hor as [|Hor]; [done|]. unfold s1. cbn [phys set_phys set_page_ref pg_ref].
    by rewrite upd_ne by (intros E; by apply Hne). }
  destruct (drop_old_spec s1 root own bs la pt i page Hi1 Hw Hrep1) as (s2 & E & Hi2 & Hw2 & Hp2 & Ht2).
  destruct (store_leaf s2 root own la pt i (pte_create (page2ppn page) (Z.lor PTE_V perm)) (vi_wf _ _ _ _ Hi2) Hw2)
    as (Hwf & Hla & Hpte & Htab & _).
  unfold page_ref_inc, page_ref, set_ref, on_phys. msteps. fold s1. rewrite <-bind_assoc.
  rewrite (bind_ok _ _ _ _ _ E). unfold store_pte. msteps. cbn [fst snd].
  eexists. split; [reflexivity|]. split_and!; [|done|..].
  - destruct Hi2 as [_ ? ?]. by split.
  - intros a Ha. rewrite Hpte by done. by apply Hp2.
  - intros q Hq. rewrite Htab by done. by apply Ht2.
Qed.

Lemma page_insert_taken s root own bs la page perm :
  vm_inv s root own bs → replaceable s page (pte_at s root la) →
  ∃ r s' own' bs', page_insert root page la perm s = Ok (r, s') ∧ vm_inv s' root own' bs' ∧
    (∀ la', vpn la' ≠ vpn la → pte_at s' root la' = pte_at s root la') ∧
    (∀ q, user_page own bs q → user_page own' bs' q ∧ tab s' q = tab s q) ∧
    ((r = 0 ∧ pte_at s' root la = pte_create (page2ppn page) (Z.lor PTE_V perm)) ∨
     (r = - E_NO_MEM ∧ bs' = [] ∧ total bs ≤ 1 ∧ pte_at s' root la = pte_at s root la)) ∧ taken 2 bs bs'.
Proof.
  intros Hi Hrep. unfold Pgtable.page_insert. destruct (walk s root la) as [[pt i]|] eqn:Hw.
  - rewrite (bind_ok _ _ _ _ _ (get_pte_present _ _ _ _ _ _ (vi_wf _ _ _ _ Hi) Hw)).
    unfold pte_at in Hrep. rewrite Hw in Hrep.
    destruct (page_insert_tail s root own bs la pt i page perm Hi Hw Hrep) as (s' & E & ? & ? & ? & Ht).
    exists 0, s', own, bs. split_and!; [done|done|done| |by left|apply taken_refl; lia]. intros q Hq. split; [done|]. apply Ht, Hq.
  - destruct (get_pte_create_taken s root own bs la Hi) as (r & s1 & own1 & bs1 & E & Hi1 & Hp1 & Hu1 & Hr & Ht1).
    rewrite (bind_ok _ _ _ _ _ E). destruct r as [[pt i]|].
    + assert (replaceable s1 page (tab s1 pt i)) as Hrep1.
      { pose proof (Hp1 la) as Hx. unfold pte_at in Hx. rewrite Hr, Hw in Hx. rewrite Hx. intros Hv. done. }
      destruct (page_insert_tail s1 root own1 bs1 la pt i page perm Hi1 Hr Hrep1) as (s' & E' & ? & ? & Hp & Ht).
      exists 0, s', own1, bs1. split_and!; [done|done| | |by left|done].
      * intros a Ha. rewrite Hp by done. apply Hp1.
      * intros q Hq. destruct (Hu1 q Hq) as [Hq1 <-]. split; [done|]. apply Ht, Hq1.
    + destruct Hr. exists (- E_NO_MEM), s1, own1, bs1. split_and!; [done|done|by intros; apply Hp1|done|right; split_and!; auto|done].
Qed.

Lemma page_insert_spec s root own bs la page perm :
  vm_inv s root own bs → replaceable s page (pte_at s root la) →
  ∃ r s' own' bs', page_insert root page la perm s = Ok (r, s') ∧ vm_inv s' root own' bs' ∧
    (∀ la', vpn la' ≠ vpn la → pte_at s' root la' = pte_at s root la') ∧
    (∀ q, user_page own bs q → user_page own' bs' q ∧ tab s' q = tab s q) ∧
    ((r = 0 ∧ pte_at s' root la = pte_create (page2ppn page) (Z.lor PTE_V perm)) ∨
     (r = - E_NO_MEM ∧ bs' = [] ∧ pte_at s' root la = pte_at s root la)).
Proof.
  intros Hi Hrep. destruct (page_insert_taken s root own bs la page perm Hi Hrep) as (r & s' & own' & bs' & E & ? & ? & ? & Hr & _).
  exists r, s', own', bs'. split_and!; try done. destruct Hr as [?|(? & ? & _ & ?)]; [by left|by right].
Qed.

(** [page_insert] over a mapping that was the last reference to its page. *)
Lemma page_insert_frees s root own bs la pt i page perm :
  let old := page_of (tab s pt i) in
  vm_inv s root own bs → walk s root la = Some (pt, i) → valid (tab s pt i) = true → in_memory (tab s pt i) →
  old ≠ page → pg_ref (phys s) old = 1 → returnable (phys s) own bs old →
  ∃ s', page_insert root page la perm s = Ok (0, s') ∧ vm_inv s' root own (give_back old 1 bs) ∧
    pte_at s' root la = pte_create (page2ppn page) (Z.lor PTE_V perm) ∧
    (∀ la', vpn la' ≠ vpn la → pte_at s' root la' = pte_at s root la') ∧
    (∀ q, user_page own bs q → q ≠ old → user_page own (give_back old 1 bs) q ∧ tab s' q = tab s q).
Proof.
  intros old Hi Hw Hv Hm Hne Href Hrt. unfold Pgtable.page_insert.
  rewrite (bind_ok _ _ _ _ _ (get_pte_present _ _ _ _ _ _ (vi_wf _ _ _ _ Hi) Hw)).
  unfold page_ref_inc, page_ref, set_ref, on_phys, load_pte. msteps. cbn [fst snd tab set_phys]. set (e := tab s pt i) in *.
  rewrite Hv. cbn [when]. set (s1 := set_phys _ s). rewrite bind_assoc, (bind_ok _ _ _ _ _ (pte2page_spec s1 e Hv Hm)). fold old.
  rewrite (proj2 (Z.eqb_neq _ _) Hne). unfold page_remove_pte, load_pte. msteps. cbn [fst snd tab set_phys s1]. fold e. rewrite Hv. cbn [when].
  rewrite bind_assoc, (bind_ok _ _ _ _ _ (pte2page_spec s1 e Hv Hm)). fold old.
  unfold page_ref_dec, page_ref, set_ref, on_phys. msteps. cbn [phys set_phys set_page_ref pg_ref]. rewrite upd_eq.
  unfold s1 at 1. cbn [phys set_phys set_page_ref pg_ref]. rewrite upd_ne, Href by done. change (s32 (1 - 1) =? 0) with true. cbn [when].
  set (s2 := set_phys _ s1). assert (vm_inv s2 root own bs) as Hi2 by (by apply vm_inv_set_ref, vm_inv_set_ref).
  destruct (free_page_spec s2 root own bs old Hi2) as (p' & E & Hi3 & Hu); [by destruct Hrt; split|].
  rewrite (bind_ok _ _ _ _ _ E). unfold store_pte. msteps. cbn [fst snd]. set (s3 := set_phys p' s2) in *.
  assert (walk s3 root la = Some (pt, i)) as Hw3 by done.
  destruct (store_leaf s3 root own la pt i 0 (vi_wf _ _ _ _ Hi3) Hw3) as (Hwf4 & _ & Hp4 & Ht4 & Hwk4). set (s4 := set_entry pt i 0 s3) in *.
  assert (walk s4 root la = Some (pt, i)) as Hw4 by (by rewrite Hwk4).
  destruct (store_leaf s4 root own la pt i (pte_create (page2ppn page) (Z.lor PTE_V perm)) Hwf4 Hw4) as (Hwf5 & Hla & Hp5 & Ht5 & _).
  eexists. split; [reflexivity|]. split; [by destruct Hi3; split|]. split; [done|]. split.
  - intros la' Hla'. by rewrite Hp5, Hp4.
  - intros q Hq Hqo. split; [by apply Hu|]. destruct Hq as [Hq _]. by rewrite Ht5, Ht4.
Qed.

(** [get_page] reads the abstract map. *)
Lemma get_page_spec s root own la :
  pt_wf s root own → (valid (pte_at s root la) = true → in_memory (pte_at s root la)) →
  Pgtable.get_page false swap_out rounds root la s =
  Ok (if valid (pte_at s root la) then Some (page_of (pte_at s root la)) else None, s).
Proof.
  intros Hwf Hm. unfold Pgtable.get_page. rewrite (bind_ok _ _ _ _ _ (get_pte_find_spec s root own la Hwf)).
  unfold pte_at in *. destruct (walk s root la) as [[pt i]|]; [|done]. unfold load_pte. msteps. cbn [fst snd].
  destruct (valid (tab s pt i)) eqn:Ev; [|done]. by rewrite (bind_ok _ _ _ _ _ (pte2page_spec s _ Ev (Hm eq_refl))).
Qed.
End proofs.

Lemma perm_valid_range perm : 0 ≤ perm < 1024 → 0 ≤ Z.lor PTE_V perm < 1024.
Proof.
  intros Hperm. split; [apply Z.lor_nonneg; unfold PTE_V; lia|]. change 1024 with (2 ^ 10).
  apply Z.log2_lt_cancel. rewrite Z.log2_lor, Z.log2_pow2 by (unfold PTE_V; lia).
  apply Z.max_lub_lt; [done|]. destruct (decide (perm = 0)) as [->|]; [done|].
  apply Z.log2_lt_pow2; lia.
Qed.

(** ** Swapping

    While pages are free, [swap_out] is not called: what succeeds with swapping off gives
    the same result with swapping on. *)

Section swapping.
Context (sw : bool) (swap_out : Z → M vms unit) (rounds : nat).

Lemma alloc_pages_sw n s p s' :
  alloc_pages false swap_out rounds n s = Ok (Some p, s') → alloc_pages sw swap_out rounds n s = Ok (Some p, s').
Proof.
  unfold alloc_pages. cbn [alloc_pages_loop]. intros (x & s1 & E & E')%bind_ok_inv. rewrite (bind_ok _ _ _ _ _ E).
  destruct x as [q|]; [done|]. by rewrite orb_true_r in E'.
Qed.

Lemma ensure_table_sw dir i create s s' :
  ensure_table false swap_out rounds dir i create s = Ok (true, s') → ensure_table sw swap_out rounds dir i create s = Ok (true, s').
Proof.
  unfold ensure_table. rewrite !bind_gets. destruct (negb (valid _)); [|done]. destruct create; [|done]. cbn [negb].
  intros (x & s1 & E & E')%bind_ok_inv. destruct x as [q|]; [|done]. by rewrite (bind_ok _ _ _ _ _ (alloc_pages_sw _ _ _ _ E)).
Qed.

Lemma get_pte_sw root la create s pi s' :
  get_pte false swap_out rounds root la create s = Ok (Some pi, s') → get_pte sw swap_out rounds root la create s = Ok (Some pi, s').
Proof.
  unfold get_pte. intros (x & s1 & E & E')%bind_ok_inv. destruct x; [|done]. rewrite (bind_ok _ _ _ _ _ (ensure_table_sw _ _ _ _ _ E)).
  cbn [negb] in *. rewrite bind_gets in *. apply bind_ok_inv in E' as (d & s2 & E2 & E'). rewrite (bind_ok _ _ _ _ _ E2).
  apply bind_ok_inv in E' as (x & s3 & E3 & E'). destruct x; [|done]. by rewrite (bind_ok _ _ _ _ _ (ensure_table_sw _ _ _ _ _ E3)).
Qed.

Lemma get_pte_find_sw root la s : get_pte sw swap_out rounds root la false s = get_pte false swap_out rounds root la false s.
Proof. done. Qed.

Lemma get_page_sw root la s : get_page sw swap_out rounds root la s = get_page false swap_out rounds root la s.
Proof. done. Qed.

Lemma page_insert_sw root page la perm s s' :
  page_insert false swap_out rounds root page la perm s = Ok (0, s') → page_insert sw swap_out rounds root page la perm s = Ok (0, s').
Proof.
  unfold page_insert. intros (x & s1 & E & E')%bind_ok_inv. destruct x as [pi|]; [|done]. by rewrite (bind_ok _ _ _ _ _ (get_pte_sw _ _ _ _ _ _ E)).
Qed.

(** Outside the self tests [check_mm_struct] is NULL and new pages are not made swappable. *)
Lemma pgdir_alloc_page_sw check map_sw root la perm s page s' :
  (sw = true → check = false) →
  pgdir_alloc_page false swap_out rounds check map_sw root la perm s = Ok (Some page, s') →
  pgdir_alloc_page sw swap_out rounds check map_sw root la perm s = Ok (Some page, s').
Proof.
  intros Hc. unfold pgdir_alloc_page. intros (x & s1 & E & E')%bind_ok_inv. destruct x as [q|]; [|done].
  rewrite (bind_ok _ _ _ _ _ (alloc_pages_sw _ _ _ _ E)). apply bind_ok_inv in E' as (r & s2 & E2 & E'). cbv beta in E'.
  destruct (Z.eqb_spec r 0) as [->|Hr].
  - rewrite (bind_ok _ _ _ _ _ (page_insert_sw _ _ _ _ _ _ E2)). cbn [Z.eqb negb] in *. destruct sw; [|done]. by rewrite (Hc eq_refl).
  - destruct (Z.eqb_spec r 0) as [|_]; [done|]. by apply bind_ok_inv in E' as (? & ? & _ & ?).
Qed.
End swapping.

(** ** Properties *)

(** [get_pte] with [create] set returns a pointer to the leaf entry of the
    address and changes no mapping of the address space, whatever tables it had
    to allocate on the way; it fails only when no free page is left. Frames that
    are neither tables nor free keep their contents, and without [create] it is
    the pure three-level walk. *)
Theorem get_pte_correct swap_out rounds s root own bs la :
  vm_inv s root own bs →
  get_pte false swap_out rounds root la false s = Ok (walk s root la, s) ∧
  ∃ r s' own' bs', get_pte false swap_out rounds root la true s = Ok (r, s') ∧ vm_inv s' root own' bs' ∧
    (∀ la', pte_at s' root la' = pte_at s root la') ∧
    (∀ p, user_page own bs p → user_page own' bs' p ∧ tab s' p = tab s p) ∧
    match r with Some pi => walk s' root la = Some pi | None => bs' = [] end.
Proof.
  intros Hi. split; [by eapply get_pte_find_spec, vi_wf|]. by apply get_pte_create_spec.
Qed.

(** What can become of the old entry of the address: it is not valid, it maps the page itself, its
    page has further references, or its page is returned to the allocator. *)
Definition removable (s : vms) (own : Z → option role) (bs : list (Z * Z)) (page pte : Z) : Prop :=
  replaceable s page pte ∨
  (valid pte = true ∧ in_memory pte ∧ page_of pte ≠ page ∧ pg_ref (phys s) (page_of pte) = 1 ∧ returnable (phys s) own bs (page_of pte)).


(** An address space with an empty root directory in page 0; pages 1 and 2 are
    held by the user, pages from 3 are free. *)
Definition empty_space : vms := Vms up20_held3 (λ _ _, 0).
Definition empty_own (p : Z) : option role := if decide (p = 0) then Some Root else None.

Lemma empty_space_inv : vm_inv empty_space 0 empty_own [(3, 17)].
Proof.
  split; [split| |split].
  - done.
  - intros i _ Hv. done.
  - intros i j _ _ Hv. done.
  - apply up20_held3_inv.
  - intros p. unfold empty_own. case_decide; [|done]. intros _. subst. apply Forall_singleton. unfold in_block. simpl. lia.
  - intros p bl ->%list_elem_of_singleton. unfold in_block, npage, nbase. simpl. lia.
Qed.

Lemma get_pte_correct_witness : ∃ s',
  get_pte false (λ _, mret tt) 0 0 0x200000 true empty_space = Ok (Some (4, 0), s') ∧
  walk s' 0 0x200000 = Some (4, 0).
Proof.
  destruct (get_pte_correct (λ _, mret tt) 0 empty_space 0 empty_own _ 0x200000 empty_space_inv)
    as (_ & r & s' & own' & bs' & E & _ & _ & _ & Hr).
  exists s'. assert (r = Some (4, 0)) as ->.
  { apply (f_equal (λ x, match x with Ok (r', _) => r' | _ => None end)) in E. rewrite <-E. vm_compute. reflexivity. }
  split; [exact E|exact Hr].
Defined.

(** An address space with the tables 0, 1 and 2 in which page 3 is mapped at [0x1000] and nowhere
    else; page 4 is held and the pages from 5 on are free. *)
Definition mapped_pmm : pmm := set_page_ref 3 1 (result (default_alloc_pages 2 up20_held3) boot).
Definition mapped_tab (p i : Z) : Z :=
  if (p =? 0) && (i =? 0) then pte_create (page2ppn 1) PTE_V
  else if (p =? 1) && (i =? 0) then pte_create (page2ppn 2) PTE_V
  else if (p =? 2) && (i =? 1) then pte_create (page2ppn 3) (Z.lor PTE_V READ_WRITE)
  else if p =? 3 then 7 * i else 0.
Definition mapped_own (p : Z) : option role :=
  if p =? 0 then Some Root else if p =? 1 then Some (Dir 0) else if p =? 2 then Some (Tab 0 0) else None.
Definition mapped_space : vms := Vms mapped_pmm mapped_tab.

Lemma mapped_pmm_inv : free_inv mapped_pmm [(5, 15)] ∧ allocated mapped_pmm 3 2.
Proof.
  destruct up20_held3_inv as [Hi _].
  destruct (default_alloc_pages_first_fit up20_held3 _ 2 Hi ltac:(lia)) as (s' & E & Hf & Ha & _).
  unfold mapped_pmm. rewrite E. split; [by apply free_inv_set_ref|exact Ha].
Qed.

Lemma mapped_pt_wf : pt_wf mapped_space 0 mapped_own.
Proof.
  assert (∀ i, valid (mapped_tab 0 i) = true → i = 0) as H0.
  { intros i. unfold mapped_tab. simpl. by destruct (Z.eqb_spec i 0). }
  assert (∀ j, valid (mapped_tab 1 j) = true → j = 0) as H1.
  { intros j. unfold mapped_tab. simpl. by destruct (Z.eqb_spec j 0). }
  split; [done| |].
  - intros i _ ->%H0. by vm_compute.
  - intros i j _ _ ->%H0. change (page_of (tab mapped_space 0 0)) with 1. intros ->%H1. by vm_compute.
Qed.

Lemma mapped_space_inv : vm_inv mapped_space 0 mapped_own [(5, 15)].
Proof.
  split; [apply mapped_pt_wf|apply mapped_pmm_inv|split].
  - intros p. unfold mapped_own. intros Hp. apply Forall_singleton. unfold in_block. simpl.
    destruct (Z.eqb_spec p 0), (Z.eqb_spec p 1), (Z.eqb_spec p 2); try lia; done.
  - intros p bl ->%list_elem_of_singleton. unfold in_block, npage, nbase. simpl. lia.
Qed.


(** A process with one page in each of two neighbouring page tables exits the way
    [exit_mmap] tears its two areas down. *)
Definition exit_leak_run : M vms (Z * Z) :=
  let swap := λ _, mret tt in
  before ← nr_free_pages;
  root ← alloc_page false swap 0;
  match root with
  | None => panic
  | Some root =>
    modify (set_frame root (λ _, 0));;
    pgdir_alloc_page false swap 0 false (λ _ _, mret tt) root 0x200000 PTE_USER;;
    pgdir_alloc_page false swap 0 false (λ _ _, mret tt) root 0x400000 PTE_USER;;
    unmap_range false swap 0 root 0x200000 0x201000;;
    unmap_range false swap 0 root 0x400000 0x401000;;
    exit_range root 0x200000 0x201000;;
    exit_range root 0x400000 0x401000;;
    free_page root;;
    after ← nr_free_pages;
    mret (before, after)
  end.

(** [exit_range] frees a level 0 directory that still points at a page table
    (the flag [free_pd0] is cleared by invalid entries instead of by tables that
    remain), so tearing an address space with two areas down loses a page. *)
Theorem exit_range_leaks : ∃ s', exit_leak_run (Vms up20 (λ _ _, 0)) = Ok ((20, 19), s').
Proof. eexists. vm_compute. reflexivity. Qed.
