(* ===== verification/Addr.v ===== *)
(** * Address spaces

    The operations that work on the areas of an [mm_struct] and on its page table
    together: [dup_mmap], [exit_mmap] and [do_pgfault] of kern/mm/vmm.c,
    [setup_pgdir] and [put_pgdir] of kern/process/proc.c.  The state joins those
    of [Vmm] and [Pgtable] with the page directory of every [mm]. *)

From S2P Require Import Prelude ListH Pmm CString Vmm Pgtable.

Record aspace := Aspace {
  a_vmm : vmm;
  a_vms : vms;
  (** [mm->pgdir], as the page that holds the directory *)
  a_pgdir : Z → Z;
  pgfault_num : Z;
}.

Definition set_a_vmm (v : vmm) (s : aspace) : aspace := Aspace v (a_vms s) (a_pgdir s) (pgfault_num s).
Definition set_a_vms (v : vms) (s : aspace) : aspace := Aspace (a_vmm s) v (a_pgdir s) (pgfault_num s).
Definition set_a_pgdir (mm v : Z) (s : aspace) : aspace :=
  Aspace (a_vmm s) (a_vms s) (upd mm v (a_pgdir s)) (pgfault_num s).
Definition set_pgfault_num (v : Z) (s : aspace) : aspace := Aspace (a_vmm s) (a_vms s) (a_pgdir s) v.

Definition on_areas {A} (m : M vmm A) : M aspace A := zoom a_vmm set_a_vmm m.
Definition on_tables {A} (m : M vms A) : M aspace A := zoom a_vms set_a_vms m.

Section addr.
Context (swap_init_ok : bool) (swap_out : Z → M vms unit) (rounds : nat).
Context (have_check_mm : bool) (swap_map_swappable : Z → Z → M vms unit).

Notation alloc_page := (alloc_page swap_init_ok swap_out rounds).
Notation get_pte := (get_pte swap_init_ok swap_out rounds).
Notation page_insert := (page_insert swap_init_ok swap_out rounds).
Notation pgdir_alloc_page := (pgdir_alloc_page swap_init_ok swap_out rounds have_check_mm swap_map_swappable).
Notation copy_range := (copy_range swap_init_ok swap_out rounds).
Notation unmap_range := (unmap_range swap_init_ok swap_out rounds).

(** ** kern/process/proc.c *)

(** [boot_pgdir] is the page of the kernel's directory. *)
Definition setup_pgdir (boot_pgdir mm : Z) : M aspace Z :=
  page ← on_tables alloc_page;
  match page with
  | None => mret (- E_NO_MEM)
  | Some page =>
    on_tables (modify (λ s, set_frame page (tab s boot_pgdir) s));;
    modify (set_a_pgdir mm page);;
    mret 0
  end.

Definition put_pgdir (mm : Z) : M aspace unit :=
  pgdir ← gets (λ s, a_pgdir s mm);
  on_tables (free_page pgdir).

(** ** kern/mm/vmm.c *)

(** The loop of [dup_mmap], from the last area to the first; [got] are the results
    of [kmalloc] for the new areas. *)
Fixpoint dup_walk (fuel : nat) (got : list Z) (to from : Z) (le : mentry) : M aspace Z :=
  match fuel with
  | O => out_of_fuel
  | S fuel' =>
    h ← gets (λ s, mmap (a_vmm s));
    match list_prev h le with
    | MHead _ => mret 0
    | MVma vma =>
      v ← gets a_vmm;
      nvma ← on_areas (vma_create (head got) (vm_start v vma) (vm_end v vma) (vm_flags v vma));
      match nvma with
      | None => mret (- E_NO_MEM)
      | Some nvma =>
        on_areas (insert_vma_struct to nvma);;
        pt ← gets (λ s, a_pgdir s to);
        pf ← gets (λ s, a_pgdir s from);
        v ← gets a_vmm;
        r ← on_tables (copy_range pt pf (vm_start v vma) (vm_end v vma));
        if negb (r =? 0) then mret (- E_NO_MEM)
        else dup_walk fuel' (tail got) to from (MVma vma)
      end
    end
  end.

Definition dup_mmap (got : list Z) (to from : Z) : M aspace Z :=
  fuel ← gets (λ s, walk_fuel (a_vmm s) from);
  dup_walk fuel got to from (MHead from).

(** [while ((le = list_next(le)) != list) body] *)
Fixpoint each_vma (fuel : nat) (le : mentry) (body : Z → Z → M aspace unit) : M aspace unit :=
  match fuel with
  | O => out_of_fuel
  | S fuel' =>
    h ← gets (λ s, mmap (a_vmm s));
    match list_next h le with
    | MHead _ => mret tt
    | MVma vma =>
      v ← gets a_vmm;
      body (vm_start v vma) (vm_end v vma);;
      each_vma fuel' (MVma vma) body
    end
  end.

Definition exit_mmap (mm : Z) : M aspace unit :=
  asserts (λ s, mm_count (a_vmm s) mm =? 0);;
  pgdir ← gets (λ s, a_pgdir s mm);
  fuel ← gets (λ s, walk_fuel (a_vmm s) mm);
  each_vma fuel (MHead mm) (λ start end', on_tables (unmap_range pgdir start end'));;
  each_vma fuel (MHead mm) (λ start end', on_tables (exit_range pgdir start end')).

(** The page fault handler; [swap_in pgdir addr] loads a page from the swap area. *)
Definition do_pgfault (swap_in : Z → Z → M aspace (Z * Z)) (map_swappable : Z → Z → M aspace unit)
    (mm : option Z) (addr : Z) : M aspace Z :=
  vma ← on_areas (find_vma mm addr);
  modify (λ s, set_pgfault_num (u32 (pgfault_num s + 1)) s);;
  match vma, mm with
  | Some vma, Some mm =>
    v ← gets a_vmm;
    if addr <? vm_start v vma then mret (- E_INVAL)
    else
      let perm := if truth (Z.land (vm_flags v vma) VM_WRITE) then Z.lor PTE_U READ_WRITE else PTE_U in
      let addr := ROUNDDOWN addr PGSIZE in
      pgdir ← gets (λ s, a_pgdir s mm);
      ptep ← on_tables (get_pte pgdir addr true);
      match ptep with
      | None => mret (- E_NO_MEM)
      | Some ptep =>
        pte ← on_tables (load_pte ptep);
        if pte =? 0 then
          page ← on_tables (pgdir_alloc_page pgdir addr perm);
          match page with
          | None => mret (- E_NO_MEM)
          | Some _ => mret 0
          end
        else if swap_init_ok then
          '(r, page) ← swap_in mm addr;
          if negb (r =? 0) then mret r
          else
            on_tables (page_insert pgdir page addr perm);;
            map_swappable addr page;;
            mret 0
        else mret (- E_NO_MEM)
      end
  | _, _ => mret (- E_INVAL)
  end.

End addr.
