(* ===== verification/AddrProofs.v ===== *)
(** * Address spaces: proofs

    The page fault handler: it maps a cleared entry of an area with a page that was
    free and changes nothing else. *)

From S2P Require Import Prelude ListH Pmm CString Vmm VmmProofs Pgtable PgtableProofs Addr.

Section proofs.
Context (swap_out : Z → M vms unit) (rounds : nat) (have_check_mm : bool) (map_sw : Z → Z → M vms unit).

Notation pgdir_alloc_page := (pgdir_alloc_page false swap_out rounds have_check_mm map_sw).

Lemma on_tables_ok {A} (m : M vms A) s a t : m (a_vms s) = Ok (a, t) → on_tables m s = Ok (a, set_a_vms t s).
Proof. apply zoom_ok. Qed.

(** A page leaves the free list and is put to no use yet. *)
Lemma alloc_user_page s root own bs b bs' p' :
  vm_inv s root own bs → first_fit 1 bs = Some (b, bs') → free_inv p' bs' →
  vm_inv (set_phys p' s) root own bs' ∧ user_page own bs' b ∧ 0 ≤ b < npage - nbase ∧
  (∀ q, user_page own bs q → user_page own bs' q) ∧ ¬ user_page own bs b.
Proof.
  intros [[Hr Hd Ht] Hf Hh] Hff Hf'. pose proof (inv_wf _ _ Hf) as Hw.
  destruct (first_fit_page bs b bs' Hw Hff) as ((bl & Hbl & Hb) & Hnb & Hsub & Hin).
  destruct (held_after_alloc bs own b bs' Root Hw Hh Hff) as (Hob & Hrange & _ & _).
  split; [|split; [done|split; [done|split]]].
  - split; [by split|done|]. destruct Hh as [Ho Hm]. split.
    + intros p Hp. by apply Hsub, Ho.
    + intros p bl' Hbl' Hp. destruct (Hin p bl' Hbl' Hp) as (bl2 & ? & ?). by eapply Hm.
  - intros q [? ?]. split; [done|]. by apply Hsub.
  - intros [_ Hn]. rewrite Forall_forall in Hn. by eapply Hn.
Qed.

(** [pgdir_alloc_page] at an address whose tables exist and whose entry is clear. *)
Lemma pgdir_alloc_page_spec s root own bs la pt i perm :
  vm_inv s root own bs → walk s root la = Some (pt, i) → tab s pt i = 0 →
  ∃ r s' bs', pgdir_alloc_page root la perm s = Ok (r, s') ∧ vm_inv s' root own bs' ∧
    (∀ la', vpn la' ≠ vpn la → pte_at s' root la' = pte_at s root la') ∧
    (∀ q, user_page own bs q → user_page own bs' q ∧ tab s' q = tab s q) ∧
    match r with
    | Some page => user_page own bs' page ∧ ¬ user_page own bs page ∧ 0 ≤ page < npage - nbase ∧
        pte_at s' root la = pte_create (page2ppn page) (Z.lor PTE_V perm)
    | None => bs = [] ∧ bs' = [] ∧ s' = s
    end ∧ taken 1 bs bs'.
Proof.
  intros Hi Hw H0. unfold Pgtable.pgdir_alloc_page.
  pose proof (alloc_page_spec swap_out rounds s bs (vi_free _ _ _ _ Hi)) as Ha.
  destruct (first_fit 1 bs) as [[b bs']|] eqn:Hff.
  - destruct Ha as (p' & Ea & Hf' & _). rewrite (bind_ok _ _ _ _ _ Ea).
    destruct (alloc_user_page s root own bs b bs' p' Hi Hff Hf') as (Hi1 & Hub & Hr & Hu & Hnu).
    assert (walk (set_phys p' s) root la = Some (pt, i)) as Hw1 by done.
    destruct (page_insert_tail (set_phys p' s) root own bs' la pt i b perm Hi1 Hw1) as (s' & E & Hi' & Hla & Hoth & Ht).
    { cbn [tab set_phys]. rewrite H0. intros Hv. by rewrite valid_0 in Hv. }
    assert (page_insert false swap_out rounds root b la perm (set_phys p' s) = Ok (0, s')) as Ep.
    { unfold page_insert. rewrite (bind_ok _ _ _ _ _ (get_pte_present _ _ _ _ _ _ _ _ (vi_wf _ _ _ _ Hi1) Hw1)). exact E. }
    rewrite (bind_ok _ _ _ _ _ Ep). exists (Some b), s', bs'. split; [by destruct have_check_mm|].
    split_and!; try done; try apply Hr.
    + intros q Hq. split; [by apply Hu|]. rewrite Ht; [done|apply Hq].
    + by apply (first_fit_taken bs b bs' (inv_wf _ _ (vi_free _ _ _ _ Hi))).
  - rewrite (bind_ok _ _ _ _ _ Ha). exists None, s, bs. assert (bs = []) as ->; [|split_and!; try done; apply taken_refl; lia].
    pose proof (first_fit_split 1 bs) as H. rewrite Hff in H. pose proof (inv_wf _ _ (vi_free _ _ _ _ Hi)) as Hwf.
    destruct bs as [|[c k] bs]; [done|]. simpl in Hwf. apply Forall_cons in H as [? _]. simpl in *. lia.
Qed.

(** [pgdir_alloc_page] at an unmapped address, with memory for the page and its
    tables. *)
Lemma pgdir_alloc_page_maps s root own bs la perm :
  vm_inv s root own bs → pte_at s root la = 0 → 3 ≤ total bs →
  ∃ page s' own' bs', pgdir_alloc_page root la perm s = Ok (Some page, s') ∧ vm_inv s' root own' bs' ∧ taken 3 bs bs' ∧
    (∀ la', vpn la' ≠ vpn la → pte_at s' root la' = pte_at s root la') ∧
    (∀ q, user_page own bs q → user_page own' bs' q ∧ tab s' q = tab s q ∧ q ≠ page) ∧
    user_page own' bs' page ∧ 0 ≤ page < npage - nbase ∧ (∃ bl, bl ∈ bs ∧ in_block page bl) ∧
    pte_at s' root la = pte_create (page2ppn page) (Z.lor PTE_V perm).
Proof.
  intros Hi H0 Ht. unfold Pgtable.pgdir_alloc_page. pose proof (inv_wf _ _ (vi_free _ _ _ _ Hi)) as Hw.
  pose proof (alloc_page_spec swap_out rounds s bs (vi_free _ _ _ _ Hi)) as Ha.
  destruct (first_fit 1 bs) as [[b bs1]|] eqn:Hff.
  - destruct Ha as (p' & Ea & Hf' & _). rewrite (bind_ok _ _ _ _ _ Ea).
    destruct (alloc_user_page s root own bs b bs1 p' Hi Hff Hf') as (Hi1 & Hub & Hr & Hu & Hnu).
    pose proof (first_fit_taken bs b bs1 Hw Hff) as T1. pose proof (first_fit_total _ _ _ _ Hff).
    destruct (first_fit_page bs b bs1 Hw Hff) as (Hfree & _).
    destruct (page_insert_taken swap_out rounds (set_phys p' s) root own bs1 la b perm Hi1) as (r & s' & own' & bs' & E & Hi' & Hoth & Hus & Hres & T2).
    { change (pte_at (set_phys p' s) root la) with (pte_at s root la). rewrite H0. intros Hv. by rewrite valid_0 in Hv. }
    destruct Hres as [[-> Hla]|(_ & _ & ? & _)]; [|lia]. rewrite (bind_ok _ _ _ _ _ E).
    exists b, s', own', bs'. split; [by destruct have_check_mm|]. split_and!; try done.
    + exact (taken_trans 1 2 _ _ _ T1 T2).
    + intros q Hq. destruct (Hus q (Hu q Hq)) as [? ?]. split_and!; [done|done|]. by intros ->.
    + by apply Hus.
    + apply Hr.
    + apply Hr.
  - pose proof (first_fit_split 1 bs) as H. rewrite Hff in H.
    destruct bs as [|[c k] bs]; [simpl in Ht; lia|]. simpl in Hw. apply Forall_cons in H as [? _]. simpl in *. lia.
Qed.

(** The permissions that [do_pgfault] gives to a page of the area [v]: reading and writing if
    the area is writable, and else not even reading. *)
Definition fault_perm (s : vmm) (v : Z) : Z :=
  if truth (Z.land (vm_flags s v) VM_WRITE) then Z.lor PTE_U READ_WRITE else PTE_U.

Context (swap_in : Z → Z → M aspace (Z * Z)) (map_swappable : Z → Z → M aspace unit).

Notation do_pgfault := (do_pgfault false swap_out rounds have_check_mm map_sw swap_in map_swappable).

Lemma do_pgfault_spec s mm vs own bs addr :
  let root := a_pgdir s mm in let la := ROUNDDOWN addr PGSIZE in
  mm_inv (a_vmm s) mm vs → vm_inv (a_vms s) root own bs →
  ∃ r s', do_pgfault (Some mm) addr s = Ok (r, s') ∧ a_pgdir s' = a_pgdir s ∧ mm_inv (a_vmm s') mm vs ∧
    match lookup_vma (a_vmm s) vs addr with
    | None => r = - E_INVAL ∧ a_vms s' = a_vms s
    | Some v => ∃ own' bs', vm_inv (a_vms s') root own' bs' ∧
      (∀ la', vpn la' ≠ vpn la → pte_at (a_vms s') root la' = pte_at (a_vms s) root la') ∧
      (∀ q, user_page own bs q → user_page own' bs' q ∧ tab (a_vms s') q = tab (a_vms s) q) ∧
      ((r = 0 ∧ pte_at (a_vms s) root la = 0 ∧ ∃ page, user_page own' bs' page ∧ (¬ user_page own bs page) ∧
          pte_at (a_vms s') root la = pte_create (page2ppn page) (Z.lor PTE_V (fault_perm (a_vmm s) v))) ∨
       (r = - E_NO_MEM ∧ pte_at (a_vms s') root la = pte_at (a_vms s) root la ∧
          (bs' = [] ∧ total bs ≤ 2 ∨ pte_at (a_vms s) root la ≠ 0)))
    end.
Proof.
  intros root la Hmm Hvm. destruct (find_vma_spec _ _ _ addr Hmm) as (v' & E & Hsame & Hmm').
  unfold Addr.do_pgfault, on_areas. rewrite (bind_ok _ _ _ _ _ (zoom_ok _ _ _ _ _ _ E)). msteps.
  destruct (lookup_vma (a_vmm s) vs addr) as [v|] eqn:El; [|by eexists _, _; split_and!].
  msteps. set (s1 := set_pgfault_num _ _).
  assert (a_vms s1 = a_vms s ∧ a_pgdir s1 = a_pgdir s ∧ a_vmm s1 = v') as (Ev1 & Eg1 & Em1) by done.
  clearbody s1. rewrite Em1.
  apply (lookup_vma_Some _ _ _ _ _ (mi_sorted _ _ _ Hmm)) in El as [Hv Hc]. unfold contains in Hc. b2p.
  destruct Hsame as (_ & Est & _ & Efl & _). rewrite Est, Efl. destruct (Z.ltb_spec addr (vm_start (a_vmm s) v)); [lia|].
  msteps. rewrite Eg1. fold root la (fault_perm (a_vmm s) v).
  rewrite <-Ev1 in Hvm |- *. rewrite <-Eg1, <-Em1 in *. clear Em1 Ev1 Eg1.
  destruct (get_pte_create_taken swap_out rounds (a_vms s1) root own bs la Hvm) as (r & t1 & own1 & bs1 & E1 & Hvm1 & Hp1 & Hu1 & Hr1 & Ht1).
  rewrite (bind_ok _ _ _ _ _ (on_tables_ok _ _ _ _ E1)).
  destruct r as [[pt i]|].
  2: { eexists _, _. split; [reflexivity|]. split_and!; [done|done|].
       destruct Hr1 as [-> ?]. exists own1, []. split_and!; [done|by intros; apply Hp1|done|]. right. split_and!; [done|by apply Hp1|left; split; [done|lia]]. }
  assert (on_tables (load_pte (pt, i)) (set_a_vms t1 s1) = Ok (tab t1 pt i, set_a_vms t1 s1)) as E2 by done.
  rewrite (bind_ok _ _ _ _ _ E2).
  assert (pte_at (a_vms s1) root la = tab t1 pt i) as Ept by (rewrite <-Hp1; unfold pte_at; by rewrite Hr1).
  destruct (Z.eqb_spec (tab t1 pt i) 0) as [Hz|Hz].
  - destruct (pgdir_alloc_page_spec t1 root own1 bs1 la pt i (fault_perm (a_vmm s) v) Hvm1 Hr1 Hz)
      as (r & t2 & bs2 & E3 & Hvm2 & Hoth & Hu2 & Hr2 & Ht2).
    rewrite (bind_ok _ _ _ _ _ (on_tables_ok _ (set_a_vms t1 s1) _ _ E3)).
    exists (match r with Some _ => 0 | None => - E_NO_MEM end), (set_a_vms t2 s1). split; [by destruct r|]. split; [done|]. split; [done|]. exists own1, bs2.
    split; [done|]. split; [by intros la' Hla; cbn; rewrite Hoth, Hp1|]. split.
    { intros q Hq. destruct (Hu1 q Hq) as [Hq1 <-]. by apply Hu2. }
    destruct r as [page|].
    + left. destruct Hr2 as (Hup & Hnu & _ & Hla). split; [done|]. split; [by rewrite Ept|]. exists page.
      split; [done|]. split; [|done]. intros Hq. apply Hnu. by apply Hu1.
    + right. destruct Hr2 as (-> & -> & ->). split; [done|]. split; [apply Hp1|]. left. split; [done|]. destruct Ht1 as [Ht1 _]. simpl in Ht1. lia.
  - eexists _, _. split; [reflexivity|]. split; [done|]. split; [done|]. exists own1, bs1.
    split; [done|]. split; [by intros; apply Hp1|]. split; [done|]. right. split; [done|].
    split; [apply Hp1|]. right. by rewrite Ept.
Qed.
End proofs.

(** ** Theorems *)

(** Outside all areas. *)
Lemma do_pgfault_outside sw swap_out rounds check map_sw swap_in map_swappable mm vs addr s :
  mm_inv (a_vmm s) mm vs → lookup_vma (a_vmm s) vs addr = None →
  ∃ s', do_pgfault sw swap_out rounds check map_sw swap_in map_swappable (Some mm) addr s = Ok (- E_INVAL, s') ∧ a_vms s' = a_vms s.
Proof.
  intros Hmm El. destruct (find_vma_spec _ _ _ addr Hmm) as (v' & Ef & _). unfold do_pgfault, on_areas.
  rewrite (bind_ok _ _ _ _ _ (zoom_ok _ _ _ _ _ _ Ef)), bind_modify, El. by eexists.
Qed.

(** With swapping on and three pages free, a fault at a cleared entry is handled as with swapping
    off. *)
Lemma do_pgfault_sw sw swap_out rounds check map_sw swap_in map_swappable mm addr s r s' :
  (sw = true → r = 0 ∧ check = false ∧ pte_at (a_vms s) (a_pgdir s mm) (ROUNDDOWN addr PGSIZE) = 0) →
  (∃ own bs, vm_inv (a_vms s) (a_pgdir s mm) own bs) → (∃ vs, mm_inv (a_vmm s) mm vs) →
  do_pgfault false swap_out rounds check map_sw swap_in map_swappable (Some mm) addr s = Ok (r, s') →
  do_pgfault sw swap_out rounds check map_sw swap_in map_swappable (Some mm) addr s = Ok (r, s').
Proof.
  destruct sw; [|done]. intros H (own & bs & Hvm) (vs & Hmm) E. destruct (H eq_refl) as (-> & -> & H0). clear H.
  destruct (find_vma_spec _ _ _ addr Hmm) as (v' & Ef & _). revert E. unfold do_pgfault, on_areas.
  rewrite !(bind_ok _ _ _ _ _ (zoom_ok _ _ _ _ _ _ Ef)). rewrite !bind_modify. destruct (lookup_vma (a_vmm s) vs addr) as [v|]; [|done].
  rewrite !bind_gets. destruct (addr <? _); [done|]. rewrite !bind_gets. set (s1 := set_pgfault_num _ _).
  change (a_pgdir s1 mm) with (a_pgdir s mm). set (root := a_pgdir s mm) in *. set (la := ROUNDDOWN addr PGSIZE) in *.
  destruct (get_pte_create_spec swap_out rounds (a_vms s1) root own bs la Hvm) as (pi & t1 & own1 & bs1 & E1 & Hvm1 & Hp1 & _ & Hr1).
  rewrite (bind_ok _ _ _ _ _ (on_tables_ok _ _ _ _ E1)). destruct pi as [[pt i]|]; [|done].
  rewrite (bind_ok _ _ _ _ _ (on_tables_ok _ _ _ _ (get_pte_sw true _ _ _ _ _ _ _ _ E1))).
  assert (tab t1 pt i = 0) as Hz by (rewrite <-H0; change (a_vms s) with (a_vms s1); rewrite <-Hp1; unfold pte_at; by rewrite Hr1).
  assert (∀ a : aspace, a_vms a = t1 → on_tables (load_pte (pt, i)) a = Ok (0, a)) as El.
  { intros [? ? ? ?]. cbn. intros ->. unfold on_tables, zoom, load_pte, gets. cbn. by rewrite Hz. }
  rewrite !(bind_ok _ _ _ _ _ (El (set_a_vms t1 s1) eq_refl)). cbn [Z.eqb].
  intros (pg & s3 & E3 & E')%bind_ok_inv. destruct pg as [pg|]; [|done].
  match type of E3 with on_tables (pgdir_alloc_page _ _ _ _ _ _ _ ?p) _ = _ => set (perm := p) in * end.
  destruct (pgdir_alloc_page false swap_out rounds false map_sw root la perm t1) as [[x t2]| |] eqn:E2.
  - pose proof (on_tables_ok _ (set_a_vms t1 s1) _ _ E2) as E4. rewrite E4 in E3. injection E3 as -> <-.
    rewrite (bind_ok _ _ _ _ _ (on_tables_ok _ (set_a_vms t1 s1) _ _ (pgdir_alloc_page_sw true _ _ false _ _ _ _ _ _ _ ltac:(done) E2))). exact E'.
  - unfold on_tables, zoom in E3. cbn [a_vms set_a_vms] in E3. by rewrite E2 in E3.
  - unfold on_tables, zoom in E3. cbn [a_vms set_a_vms] in E3. by rewrite E2 in E3.
Qed.

(** C21. The page fault handler [do_pgfault] always returns at an address outside all areas, where
    it reports [-E_INVAL] and changes no mapping.  Inside an area, at a page without an
    entry, it maps a page that was free before, for reading and writing if the area
    is writable; if the area is not writable, the entry has [PTE_U] and no [PTE_R], so the
    access faults again ([readonly_area_unreadable]).  No other mapping of the
    address space and no contents of a page in use change.  With swapping on this
    holds outside the self tests while three pages are free; with swapping off it
    reports [-E_NO_MEM] when no page is left and when the page has an entry already. *)
Theorem do_pgfault_correct sw swap_out rounds have_check_mm map_sw swap_in map_swappable s mm vs own bs addr :
  let root := a_pgdir s mm in let la := ROUNDDOWN addr PGSIZE in
  mm_inv (a_vmm s) mm vs → vm_inv (a_vms s) root own bs →
  (sw = true → lookup_vma (a_vmm s) vs addr ≠ None → have_check_mm = false ∧ 3 ≤ total bs ∧ pte_at (a_vms s) root la = 0) →
  ∃ r s', do_pgfault sw swap_out rounds have_check_mm map_sw swap_in map_swappable (Some mm) addr s = Ok (r, s') ∧
    match lookup_vma (a_vmm s) vs addr with
    | None => r = - E_INVAL ∧ a_vms s' = a_vms s
    | Some v => ∃ own' bs', vm_inv (a_vms s') root own' bs' ∧
      (∀ la', vpn la' ≠ vpn la → pte_at (a_vms s') root la' = pte_at (a_vms s) root la') ∧
      (∀ q, user_page own bs q → user_page own' bs' q ∧ tab (a_vms s') q = tab (a_vms s) q) ∧
      ((r = 0 ∧ pte_at (a_vms s) root la = 0 ∧ ∃ page, user_page own' bs' page ∧ (¬ user_page own bs page) ∧
          pte_at (a_vms s') root la = pte_create (page2ppn page) (Z.lor PTE_V (fault_perm (a_vmm s) v))) ∨
       (sw = false ∧ r = - E_NO_MEM ∧ pte_at (a_vms s') root la = pte_at (a_vms s) root la ∧
          (bs' = [] ∨ pte_at (a_vms s) root la ≠ 0)))
    end.
Proof.
  intros root la Hmm Hvm Hsw.
  destruct (do_pgfault_spec swap_out rounds have_check_mm map_sw swap_in map_swappable s mm vs own bs addr Hmm Hvm)
    as (r & s' & E & _ & _ & H).
  destruct (lookup_vma (a_vmm s) vs addr) as [v|] eqn:El.
  2: { destruct (do_pgfault_outside sw swap_out rounds have_check_mm map_sw swap_in map_swappable mm vs addr s Hmm El) as (s1 & E1 & ?). by eexists _, s1. }
  exists r, s'. destruct H as (own' & bs' & Hvm' & Hoth & Hup & Hr). fold root la in Hvm', Hoth, Hr. split.
  - eapply do_pgfault_sw; [|by exists own, bs|by exists vs|exact E]. intros Ht'. destruct (Hsw Ht' ltac:(done)) as (? & ? & ?).
    destruct Hr as [(-> & _)|(_ & _ & [[_ ?]|?])]; [done|lia|done].
  - exists own', bs'. do 3 (split; [done|]). destruct Hr as [?|(? & ? & Hor)]; [by left|right]. destruct sw.
    + destruct (Hsw eq_refl ltac:(done)) as (_ & ? & ?). destruct Hor as [[_ ?]|?]; [lia|done].
    + split_and!; [done..|]. destruct Hor as [[-> _]|?]; [by left|by right].
Qed.

(** The example areas of [VmmProofs] over the empty page table of [PgtableProofs]. *)
Definition example_aspace : aspace := Aspace example_vmm empty_space (λ _, 0) 0.
Definition no_swap (_ : Z) : M vms unit := mret tt.
Definition fault (addr : Z) : M aspace Z :=
  do_pgfault false no_swap 0 false (λ _ _, mret tt) (λ _ _, mret (0, 0)) (λ _ _, mret tt) (Some 1) addr.

Lemma do_pgfault_correct_witness :
  ∃ s' page, do_pgfault true no_swap 0 false (λ _ _, mret tt) (λ _ _, mret (0, 0)) (λ _ _, mret tt) (Some 1) 0x200123 example_aspace = Ok (0, s') ∧
    pte_at (a_vms s') 0 0x200000 = pte_create (page2ppn page) (Z.lor PTE_V (Z.lor PTE_U READ_WRITE)).
Proof.
  destruct (do_pgfault_correct true no_swap 0 false (λ _ _, mret tt) (λ _ _, mret (0, 0)) (λ _ _, mret tt)
    example_aspace 1 [10; 11] empty_own [(3, 17)] 0x200123) as (r & s' & E & H).
  - apply example_vmm_inv.
  - apply empty_space_inv.
  - intros _ _. split; [reflexivity|]. split; [vm_compute; discriminate|vm_compute; reflexivity].
  - destruct H as (own' & bs' & _ & _ & _ & [(Hr & _ & page & _ & _ & Hla)|(Hf & _)]); [|discriminate Hf].
    rewrite Hr in E. exists s', page. split; [exact E|exact Hla].
Defined.

(** A page of an area that is not writable is mapped without [PTE_R]: the
    handler reports success, but the entry does not permit reading, so the access
    faults again, and the second fault takes the entry for a swap entry. *)
Theorem readonly_area_unreadable :
  ∃ s1 s2, fault 0x203010 example_aspace = Ok (0, s1) ∧
    Z.land (vm_flags (a_vmm s1) 11) VM_READ = VM_READ ∧
    valid (pte_at (a_vms s1) 0 0x203000) = true ∧ Z.land (pte_at (a_vms s1) 0 0x203000) PTE_R = 0 ∧
    fault 0x203010 s1 = Ok (- E_NO_MEM, s2).
Proof. eexists _, _. split; [vm_compute; reflexivity|]. split_and!; vm_compute; reflexivity. Qed.
