(* ===== verification/Swap.v ===== *)
(** * Page replacement

    kern/mm/swap.c, kern/mm/swap_clock.c and kern/mm/swap_fifo.c.  The pages that
    may be swapped out hang on [pra_list_head]; a swap manager picks a victim,
    [swap_out] writes it to the swap area and leaves a swap entry in its page
    table, [swap_in] reads it back.  The swap area of kern/fs/swap/swapfs.c is an
    array of pages. *)

From S2P Require Import Prelude ListH Pmm CString Vmm Pgtable.

(** ** The list of swappable pages *)

(** [pra_page_link], [visited] and [pra_vaddr] of all pages, and the hand of the
    clock. *)
Record pra := Pra {
  pra_link : lheap (entry Z);
  visited : Z → Z;
  pra_vaddr : Z → Z;
  curr_ptr : entry Z;
}.

Definition set_pra_link (f : lheap (entry Z) → lheap (entry Z)) (s : pra) : pra :=
  Pra (f (pra_link s)) (visited s) (pra_vaddr s) (curr_ptr s).
Definition set_visited (page v : Z) (s : pra) : pra :=
  Pra (pra_link s) (upd page v (visited s)) (pra_vaddr s) (curr_ptr s).
Definition set_pra_vaddr (page v : Z) (s : pra) : pra :=
  Pra (pra_link s) (visited s) (upd page v (pra_vaddr s)) (curr_ptr s).
Definition set_curr_ptr (e : entry Z) (s : pra) : pra :=
  Pra (pra_link s) (visited s) (pra_vaddr s) e.

(** [struct swap_manager]; the victim is the result and the page. *)
Record swap_manager := SwapManager {
  sm_init : Z;
  sm_init_mm : M pra Z;
  sm_tick_event : M pra Z;
  sm_map_swappable : Z → M pra Z;
  sm_set_unswappable : Z → M pra Z;
  sm_swap_out_victim : bool → M pra (Z * Z);
}.

(** *** swap_clock.c *)

Definition _clock_init_mm : M pra Z :=
  modify (set_pra_link (list_init Head));;
  modify (set_curr_ptr Head);;
  mret 0.

Definition _clock_map_swappable (page : Z) : M pra Z :=
  modify (set_pra_link (list_add_before Head (Elem page)));;
  modify (set_visited page 1);;
  mret 0.

(** The [while (1)] of [_clock_swap_out_victim]. *)
Fixpoint clock_loop (fuel : nat) : M pra (Z * Z) :=
  match fuel with
  | O => out_of_fuel
  | S fuel' =>
    hand ← gets curr_ptr;
    match hand with
    | Head =>
      modify (λ s, set_curr_ptr (list_next (pra_link s) Head) s);;
      clock_loop fuel'
    | Elem page =>
      v ← gets (λ s, visited s page);
      if v =? 1 then
        modify (set_visited page 0);;
        modify (λ s, set_curr_ptr (list_next (pra_link s) (Elem page)) s);;
        clock_loop fuel'
      else
        modify (set_pra_link (list_del (Elem page)));;
        mret (0, page)
    end
  end.

Definition _clock_swap_out_victim (fuel : nat) (in_tick : bool) : M pra (Z * Z) :=
  assert (negb in_tick);;
  clock_loop fuel.

Definition _clock_set_unswappable (addr : Z) : M pra Z := mret 0.
Definition _clock_tick_event : M pra Z := mret 0.

Definition swap_manager_clock (fuel : nat) : swap_manager :=
  SwapManager 0 _clock_init_mm _clock_tick_event _clock_map_swappable _clock_set_unswappable (_clock_swap_out_victim fuel).

(** *** swap_fifo.c *)

Definition _fifo_init_mm : M pra Z := modify (set_pra_link (list_init Head));; mret 0.

Definition _fifo_map_swappable (page : Z) : M pra Z :=
  modify (set_pra_link (list_add_before Head (Elem page)));;
  mret 0.

(** On an empty list the head itself is unlinked and taken for a page. *)
Definition _fifo_swap_out_victim (in_tick : bool) : M pra (Z * Z) :=
  assert (negb in_tick);;
  h ← gets pra_link;
  match list_next h Head with
  | Head => panic
  | Elem page => modify (set_pra_link (list_del (Elem page)));; mret (0, page)
  end.

Definition swap_manager_fifo : swap_manager :=
  SwapManager 0 _fifo_init_mm (mret 0) _fifo_map_swappable (λ _, mret 0) _fifo_swap_out_victim.

(** ** swap.c *)

Record sws := Sws {
  sw_vms : vms;
  sw_pra : pra;
  (** the pages of the swap area *)
  sw_area : Z → Z → Z;
  max_swap_offset : Z;
}.

Definition set_sw_vms (v : vms) (s : sws) : sws := Sws v (sw_pra s) (sw_area s) (max_swap_offset s).
Definition set_sw_pra (v : pra) (s : sws) : sws := Sws (sw_vms s) v (sw_area s) (max_swap_offset s).
Definition set_sw_area (v : Z → Z → Z) (s : sws) : sws := Sws (sw_vms s) (sw_pra s) v (max_swap_offset s).

Definition on_sw_vms {A} (m : M vms A) : M sws A := zoom sw_vms set_sw_vms m.
Definition on_pra {A} (m : M pra A) : M sws A := zoom sw_pra set_sw_pra m.

Definition swap_offset (entry : Z) : M sws Z :=
  let offset := Z.shiftr entry 8 in
  asserts (λ s, ((0 <? offset) && (offset <? max_swap_offset s))%bool);;
  mret offset.

(** The offset is below the number of pages of the device, so the driver does not
    refuse the request. *)
Definition swapfs_read (entry page : Z) : M sws Z :=
  offset ← swap_offset entry;
  modify (λ s, set_sw_vms (set_frame page (sw_area s offset) (sw_vms s)) s);;
  mret 0.

Definition swapfs_write (entry page : Z) : M sws Z :=
  offset ← swap_offset entry;
  modify (λ s, set_sw_area (upd offset (tab (sw_vms s) page) (sw_area s)) s);;
  mret 0.

Section swap.
Context (sm : swap_manager) (swap_init_ok : bool) (pgdir : Z).

Definition swap_init_mm : M sws Z := on_pra (sm_init_mm sm).
Definition swap_tick_event : M sws Z := on_pra (sm_tick_event sm).
Definition swap_map_swappable (page : Z) : M sws Z := on_pra (sm_map_swappable sm page).
Definition swap_set_unswappable (addr : Z) : M sws Z := on_pra (sm_set_unswappable sm addr).

Definition swap_entry (v : Z) : Z := u64 (Z.shiftl (v / PGSIZE + 1) 8).

(** The [for] loop of [swap_out]: [n] rounds are left, [i] are done. *)
Fixpoint swap_out_loop (n : nat) (i : Z) (in_tick : bool) : M sws Z :=
  match n with
  | O => mret i
  | S n' =>
    '(r, page) ← on_pra (sm_swap_out_victim sm in_tick);
    if negb (r =? 0) then mret i
    else
      v ← gets (λ s, pra_vaddr (sw_pra s) page);
      ptep ← on_sw_vms (get_pte false (λ _, mret tt) 0 pgdir v false);
      match ptep with
      | None => panic
      | Some ptep =>
        pte ← on_sw_vms (load_pte ptep);
        assert (valid pte);;
        w ← swapfs_write (swap_entry v) page;
        (if negb (w =? 0) then on_pra (sm_map_swappable sm page);; mret tt
         else
           on_sw_vms (store_pte ptep (swap_entry v));;
           on_sw_vms (free_page page));;
        swap_out_loop n' (i + 1) in_tick
      end
  end.

Definition swap_out (n : Z) (in_tick : bool) : M sws Z := swap_out_loop (Z.to_nat n) 0 in_tick.

(** [alloc] is the call of [alloc_page], which may itself swap out. A read that
    fails goes unnoticed: its result is only compared with 0 in an [assert] that
    holds then. *)
Definition swap_in (alloc : M sws (option Z)) (addr : Z) : M sws (Z * Z) :=
  result ← alloc;
  match result with
  | None => panic
  | Some result =>
    ptep ← on_sw_vms (get_pte false (λ _, mret tt) 0 pgdir addr false);
    match ptep with
    | None => panic
    | Some ptep =>
      pte ← on_sw_vms (load_pte ptep);
      swapfs_read pte result;;
      mret (0, result)
    end
  end.

End swap.
