(* ===== verification/SwapProofs.v ===== *)
(** * Page replacement: proofs *)

From S2P Require Import Prelude ListH Pmm CString Vmm Pgtable PgtableProofs Swap.

(** ** The clock *)

(** The page the clock takes from the pages [rot], in the order the hand meets
    them: the first whose [visited] is not 1, or the first of all. *)
Definition clock_victim (vis : Z → Z) (rot : list Z) : option Z :=
  match head (filter (λ p, vis p ≠ 1) rot) with Some p => Some p | None => head rot end.

(** [visited] is cleared for the pages [l]. *)
Definition clear_visited (l : list Z) (vis : Z → Z) : Z → Z := λ p, if decide (p ∈ l) then 0 else vis p.

Definition same_vis (s s' : pra) (l : list Z) : Prop :=
  pra_link s' = pra_link s ∧ pra_vaddr s' = pra_vaddr s ∧ ∀ p, visited s' p = clear_visited l (visited s) p.

(** The hand passes the pages [a], which are all marked. *)
Lemma clock_pass s l0 a l1 fuel :
  dll (pra_link s) Head (Elem <$> l0 ++ a ++ l1) →
  curr_ptr s = default Head (head (Elem <$> a ++ l1)) → Forall (λ p, visited s p = 1) a →
  ∃ s', clock_loop (length a + fuel) s = clock_loop fuel s' ∧ same_vis s s' a ∧
    curr_ptr s' = default Head (head (Elem <$> l1)).
Proof.
  revert s l0. induction a as [|p a IH]; intros s l0 Hd Hc Ha.
  { exists s. split_and!; [done| |done]. split_and!; [done..|]. intros p. unfold clear_visited.
    by rewrite decide_False by set_solver. }
  apply Forall_cons in Ha as [Hp Ha]. simpl in Hc.
  assert (NoDup (l0 ++ (p :: a) ++ l1)) as Hnd.
  { destruct Hd as [[_ Hn]%NoDup_cons _]. by apply NoDup_fmap_1 in Hn. }
  assert (p ∉ a) as Hpa.
  { apply NoDup_app in Hnd as (_ & _ & [Hn _]%NoDup_cons). set_solver. }
  set (s1 := set_curr_ptr (default Head (head (Elem <$> a ++ l1))) (set_visited p 0 s)).
  destruct (IH s1 (l0 ++ [p])) as (s' & E & (El & Ev & Evis) & Ec).
  - rewrite <-app_assoc. exact Hd.
  - done.
  - apply Forall_forall. intros x Hx. simpl. rewrite upd_ne by (intros ->; done).
    rewrite Forall_forall in Ha. by apply Ha.
  - exists s'. split_and!; [|split_and!; [done|done|]|done].
    + rewrite <-E. cbn [length]. change (S (length a) + fuel)%nat with (S (length a + fuel)). cbn [clock_loop].
      msteps. rewrite Hc. msteps. rewrite Hp. simpl. msteps. unfold s1. do 2 f_equal.
      rewrite fmap_app in Hd. simpl in Hd.
      pose proof (list_next_dll _ _ _ _ _ Hd) as Hn. cbn [set_visited pra_link]. by rewrite Hn.
    + intros x. rewrite Evis. unfold clear_visited. cbn [s1 visited set_curr_ptr set_visited]. unfold upd.
      destruct (decide (x ∈ a)), (decide (x ∈ p :: a)), (decide (p = x)); subst; set_solver.
Qed.

Lemma clock_take s v fuel :
  curr_ptr s = Elem v → visited s v ≠ 1 → (0 < fuel)%nat →
  clock_loop fuel s = Ok ((0, v), set_pra_link (list_del (Elem v)) s).
Proof.
  intros Hc Hv Hf. destruct fuel as [|fuel]; [lia|]. cbn [clock_loop]. msteps. rewrite Hc. msteps.
  destruct (Z.eqb_spec (visited s v) 1); [done|]. done.
Qed.

Lemma clock_turn s l fuel :
  dll (pra_link s) Head (Elem <$> l) → curr_ptr s = Head → (0 < fuel)%nat →
  clock_loop fuel s = clock_loop (fuel - 1) (set_curr_ptr (default Head (head (Elem <$> l))) s).
Proof.
  intros Hd Hc Hf. destruct fuel as [|fuel]; [lia|]. cbn [clock_loop]. msteps. rewrite Hc. msteps.
  rewrite (list_next_head _ _ _ Hd). by rewrite Nat.sub_0_r || simpl; rewrite Nat.sub_0_r.
Qed.

Lemma split_marked (vis : Z → Z) (l : list Z) :
  ∃ a r, l = a ++ r ∧ Forall (λ p, vis p = 1) a ∧ (r = [] ∨ ∃ v r', r = v :: r' ∧ vis v ≠ 1).
Proof.
  induction l as [|p l IH]; [by exists [], []; eauto|]. destruct (decide (vis p = 1)) as [Hp|Hp].
  - destruct IH as (a & r & -> & Ha & Hr). exists (p :: a), r. split_and!; [done|by constructor|done].
  - exists [], (p :: l). split_and!; [done|done|]. right. eauto.
Qed.

Lemma filter_marked (vis : Z → Z) (a : list Z) : Forall (λ p, vis p = 1) a → filter (λ p, vis p ≠ 1) a = [].
Proof.
  induction 1 as [|p a Hp Ha IH]; [done|]. by rewrite filter_cons_False by naive_solver.
Qed.

(** The result of the clock: the victim is unlinked, the hand stays on it. *)
Definition clock_done (s s' : pra) (l : list Z) (v : Z) (passed : list Z) : Prop :=
  ∃ l1 l2, l = l1 ++ v :: l2 ∧ dll (pra_link s') Head (Elem <$> l1 ++ l2) ∧ curr_ptr s' = Elem v ∧
    pra_vaddr s' = pra_vaddr s ∧ ∀ p, visited s' p = clear_visited passed (visited s) p.

(** The last steps: the hand passes [a] and takes [v]. *)
Lemma clock_finish s s0 l0 a v l1 passed fuel :
  dll (pra_link s) Head (Elem <$> l0 ++ a ++ v :: l1) →
  curr_ptr s = default Head (head (Elem <$> a ++ v :: l1)) → Forall (λ p, visited s p = 1) a → visited s v ≠ 1 →
  pra_vaddr s = pra_vaddr s0 → (∀ p, visited s p = clear_visited passed (visited s0) p) → (length a < fuel)%nat →
  ∃ s', clock_loop fuel s = Ok ((0, v), s') ∧ clock_done s0 s' (l0 ++ a ++ v :: l1) v (passed ++ a).
Proof.
  intros Hd Hc Ha Hv Hva Hpass Hf.
  destruct (clock_pass s l0 a (v :: l1) (fuel - length a) Hd Hc Ha) as (s1 & E & (El & Ev & Evis) & Ec).
  replace (length a + (fuel - length a))%nat with fuel in E by lia.
  assert (v ∉ a) as Hva'.
  { destruct Hd as [[_ Hn]%NoDup_cons _]. apply NoDup_fmap_1 in Hn.
    apply NoDup_app in Hn as (_ & _ & (_ & Hn & _)%NoDup_app). intros Hin. apply (Hn v Hin). by left. }
  assert (visited s1 v ≠ 1) as Hv1.
  { rewrite Evis. unfold clear_visited. by rewrite decide_False. }
  eexists. split; [by rewrite E, (clock_take s1 v) by (done || lia)|].
  exists (l0 ++ a), l1. split_and!; [by rewrite <-app_assoc| |done|by simpl; rewrite Ev|].
  - assert (dll (pra_link s) Head ((Elem <$> l0 ++ a) ++ Elem v :: (Elem <$> l1))) as Hd'.
    { by rewrite <-fmap_cons, <-fmap_app, <-app_assoc. }
    apply list_del_dll in Hd'. simpl. by rewrite El, fmap_app.
  - intros p. simpl. rewrite Evis. unfold clear_visited. rewrite Hpass. unfold clear_visited.
    destruct (decide (p ∈ a)), (decide (p ∈ passed)), (decide (p ∈ passed ++ a)); set_solver.
Qed.

Lemma clock_spec s l0 l1 fuel :
  dll (pra_link s) Head (Elem <$> l0 ++ l1) → curr_ptr s = default Head (head (Elem <$> l1)) → l0 ++ l1 ≠ [] →
  (2 * length (l0 ++ l1) + 2 < fuel)%nat →
  ∃ v s' passed, clock_loop fuel s = Ok ((0, v), s') ∧ clock_victim (visited s) (l1 ++ l0) = Some v ∧
    clock_done s s' (l0 ++ l1) v passed ∧ Forall (λ p, visited s p = 1) passed.
Proof.
  intros Hd Hc Hne Hf. rewrite length_app in Hf.
  assert (∀ p, visited s p = clear_visited [] (visited s) p) as Hnil.
  { intros p. unfold clear_visited. by rewrite decide_False by set_solver. }
  destruct (split_marked (visited s) l1) as (a & r & -> & Ha & Hr).
  destruct Hr as [->|(v & r' & -> & Hv)].
  2: { destruct (clock_finish s s l0 a v r' [] fuel) as (s' & E & Hdone); try done.
       { rewrite length_app in Hf. lia. }
       exists v, s', a. split_and!; [done| |done|done]. unfold clock_victim.
       rewrite <-app_assoc, filter_app, filter_marked by done. cbn [app]. by rewrite filter_cons_True. }
  rewrite app_nil_r in *.
  destruct (clock_pass s l0 a [] (fuel - length a)) as (s1 & E1 & (El1 & Ev1 & Evis1) & Ec1); rewrite ?app_nil_r; try done.
  replace (length a + (fuel - length a))%nat with fuel in E1 by lia. simpl in Ec1.
  rewrite E1. assert (dll (pra_link s1) Head (Elem <$> l0 ++ a)) as Hd1 by by rewrite El1.
  rewrite (clock_turn s1 _ _ Hd1 Ec1) by lia. set (s2 := set_curr_ptr _ s1).
  assert (curr_ptr s2 = default Head (head (Elem <$> l0 ++ a))) as Hc2 by done.
  assert (∀ p, p ∈ l0 → visited s2 p = visited s p) as Hl0.
  { intros p Hp. cbn [s2 visited set_curr_ptr]. rewrite Evis1. unfold clear_visited. rewrite decide_False; [done|].
    destruct Hd as [[_ Hn]%NoDup_cons _]. apply NoDup_fmap_1 in Hn. apply NoDup_app in Hn as (_ & Hn & _). by apply Hn. }
  destruct (split_marked (visited s) l0) as (b & r & -> & Hb & Hr).
  assert (Forall (λ p, visited s2 p = 1) b) as Hb2.
  { apply Forall_forall. intros p Hp. rewrite Hl0 by set_solver. rewrite Forall_forall in Hb. by apply Hb. }
  rewrite length_app in Hf.
  destruct Hr as [->|(v & r' & -> & Hv)].
  2: { rewrite <-!app_assoc in *. cbn [app] in *.
       destruct (clock_finish s2 s [] b v (r' ++ a) a (fuel - length a - 1)) as (s' & E & Hdone);
         [exact Hd1|exact Hc2|done| |exact Ev1|exact Evis1|lia|].
       { rewrite Hl0 by set_solver. done. }
       exists v, s', (a ++ b). split_and!; [done| |done|by apply Forall_app]. unfold clock_victim.
       rewrite !filter_app, (filter_marked _ a), (filter_marked _ b) by done. cbn [app]. by rewrite filter_cons_True. }
  rewrite app_nil_r in *.
  destruct (clock_pass s2 [] b a (fuel - length a - 1 - length b) Hd1 Hc2 Hb2) as (s3 & E3 & (El3 & Ev3 & Evis3) & Ec3).
  replace (length b + (fuel - length a - 1 - length b))%nat with (fuel - length a - 1)%nat in E3 by lia. rewrite E3.
  assert (∀ p, visited s3 p = clear_visited (a ++ b) (visited s) p) as Hvis3.
  { intros p. rewrite Evis3. unfold clear_visited. cbn [s2 visited set_curr_ptr]. rewrite Evis1. unfold clear_visited.
    destruct (decide (p ∈ a)), (decide (p ∈ b)), (decide (p ∈ a ++ b)); set_solver. }
  assert (dll (pra_link s3) Head (Elem <$> b ++ a)) as Hd3 by (rewrite El3; exact Hd1).
  assert (clock_victim (visited s) (a ++ b) = head (a ++ b)) as Hcv.
  { unfold clock_victim. by rewrite filter_app, !filter_marked. }
  assert (∀ p, p ∈ a ++ b → visited s3 p ≠ 1) as Hclr.
  { intros p Hp. rewrite Hvis3. unfold clear_visited. by rewrite decide_True. }
  rewrite Hcv. destruct a as [|w a].
  - simpl in *. rewrite app_nil_r in *. rewrite (clock_turn s3 _ _ Hd3 Ec3) by (rewrite ?length_app in *; simpl in *; lia).
    destruct b as [|w b]; [done|].
    destruct (clock_finish (set_curr_ptr (Elem w) s3) s [] [] w b (w :: b) (fuel - 0 - 1 - length (w :: b) - 1))
      as (s' & E & Hdone); [exact Hd3|done|done|apply Hclr; by left|by cbn; rewrite Ev3|exact Hvis3|cbn [length] in *; lia|].
    exists w, s', (w :: b). split_and!; [exact E|done| |done]. by rewrite app_nil_r in Hdone.
  - destruct (clock_finish s3 s b [] w a ((w :: a) ++ b) (fuel - length (w :: a) - 1 - length b)) as (s' & E & Hdone);
      [exact Hd3|done|done|apply Hclr; by left|by rewrite Ev3|exact Hvis3|cbn [length] in *; lia|].
    exists w, s', ((w :: a) ++ b). split_and!; [exact E|done| |by apply Forall_app].
    by rewrite app_nil_r in Hdone.
Qed.

(** ** swap_out and swap_in *)

Lemma swap_entry_spec v :
  0 ≤ v < 2 ^ 64 →
  valid (swap_entry v) = false ∧ Z.shiftr (swap_entry v) 8 = v / PGSIZE + 1.
Proof.
  intros Hv. pose proof (Z.div_pos v PGSIZE ltac:(lia) ltac:(unfold PGSIZE; lia)) as Hd.
  assert (v / PGSIZE < 2 ^ 52) by (apply Z.div_lt_upper_bound; [done|]; change (PGSIZE * 2 ^ 52) with (2 ^ 64); lia).
  unfold swap_entry. rewrite u64_small.
  2: { rewrite Z.shiftl_mul_pow2 by lia. change (2 ^ 8) with 256. lia. }
  split.
  - unfold valid, truth, PTE_V. replace (Z.land _ 1) with 0; [done|]. symmetry. apply Z.bits_inj_0. intros n.
    rewrite Z.land_spec. destruct (decide (n < 0)); [by rewrite Z.testbit_neg_r by lia|].
    destruct (decide (n = 0)) as [->|]; [by rewrite Z.shiftl_spec_low|].
    replace 1 with (2 ^ 0) by done. rewrite (Z.pow2_bits_false 0 n) by lia. apply andb_false_r.
  - rewrite Z.shiftr_shiftl_l by lia. apply Z.shiftl_0_r.
Qed.

Section roundtrip.
Context (sm : swap_manager) (pgdir : Z) (own : Z → option role).

(** [swap_out] of one page. *)
Lemma swap_out_one s page pra' pt i l1 l2 :
  let va := pra_vaddr pra' page in
  sm_swap_out_victim sm false (sw_pra s) = Ok ((0, page), pra') →
  pt_wf (sw_vms s) pgdir own → own page = None →
  walk (sw_vms s) pgdir va = Some (pt, i) → valid (tab (sw_vms s) pt i) = true →
  0 ≤ va < 2 ^ 64 → va / PGSIZE + 1 < max_swap_offset s →
  free_inv (phys (sw_vms s)) (l1 ++ l2) → allocated (phys (sw_vms s)) page 1 → wf_blocks 0 (l1 ++ (page, 1) :: l2) →
  not_last l1 l2 → total (l1 ++ l2) + 1 < 2 ^ 32 →
  ∃ s', swap_out sm pgdir 1 false s = Ok (1, s') ∧ pt_wf (sw_vms s') pgdir own ∧
    pte_at (sw_vms s') pgdir va = swap_entry va ∧
    (∀ la, vpn la ≠ vpn va → pte_at (sw_vms s') pgdir la = pte_at (sw_vms s) pgdir la) ∧
    (∀ la, walk (sw_vms s') pgdir la = walk (sw_vms s) pgdir la) ∧
    sw_area s' (va / PGSIZE + 1) = tab (sw_vms s) page ∧ max_swap_offset s' = max_swap_offset s ∧
    free_inv (phys (sw_vms s')) (give_back page 1 (l1 ++ l2)).
Proof.
  intros va Hvic Hwf Hown Hwalk Hval Hva Hoff Hfree Hal Hwb Hnl Htot.
  destruct (swap_entry_spec va Hva) as [_ Hsh].
  pose proof (Z.div_pos va PGSIZE ltac:(lia) ltac:(unfold PGSIZE; lia)) as Hd.
  destruct (store_leaf (sw_vms s) pgdir own va pt i (swap_entry va) Hwf Hwalk) as (Hwf' & Hla & Hoth & _ & Hwk).
  destruct (default_free_pages_give_back (phys (sw_vms s)) page 1 l1 l2 Hfree Hal Hwb Hnl Htot) as (p' & Ef & Hfree' & _).
  unfold swap_out. change (Z.to_nat 1) with 1%nat. cbn [swap_out_loop].
  rewrite (bind_ok _ _ _ _ _ (zoom_ok sw_pra set_sw_pra _ s _ _ Hvic)). cbn match. cbn [negb Z.eqb]. msteps.
  cbn [sw_pra set_sw_pra]. fold va.
  rewrite (bind_ok _ _ _ _ _ (zoom_ok sw_vms set_sw_vms _ (set_sw_pra pra' s) _ _
    (get_pte_find_spec (λ _, mret tt) 0 (sw_vms s) pgdir own va Hwf))).
  rewrite Hwalk. set (s1 := set_sw_vms (sw_vms s) _).
  assert (on_sw_vms (load_pte (pt, i)) s1 = Ok (tab (sw_vms s) pt i, s1)) as E1 by done.
  rewrite (bind_ok _ _ _ _ _ E1), bind_assert by done.
  set (s2 := set_sw_area (upd (va / PGSIZE + 1) (tab (sw_vms s) page) (sw_area s)) s1).
  assert (swapfs_write (swap_entry va) page s1 = Ok (0, s2)) as E2.
  { unfold swapfs_write, swap_offset. rewrite Hsh, bind_assoc, bind_asserts; [done|].
    change (max_swap_offset s1) with (max_swap_offset s). apply andb_true_intro. split; lia. }
  rewrite (bind_ok _ _ _ _ _ E2). cbn [negb Z.eqb]. rewrite bind_assoc.
  set (v3 := set_entry pt i (swap_entry va) (sw_vms s)).
  assert (on_sw_vms (store_pte (pt, i) (swap_entry va)) s2 = Ok (tt, set_sw_vms v3 s2)) as E3 by done.
  rewrite (bind_ok _ _ _ _ _ E3).
  assert (on_sw_vms (free_page page) (set_sw_vms v3 s2) = Ok (tt, set_sw_vms (set_phys p' v3) s2)) as E4.
  { unfold on_sw_vms. rewrite (zoom_ok sw_vms set_sw_vms _ (set_sw_vms v3 s2) tt (set_phys p' v3)); [done|].
    by apply (zoom_ok phys set_phys). }
  rewrite (bind_ok _ _ _ _ _ E4). eexists. split; [reflexivity|]. cbn [sw_vms set_sw_vms].
  split_and!; try done.
  - destruct Hwf'. by split.
  - simpl. by rewrite upd_eq.
Qed.

(** A page whose slot lies beyond the swap area cannot be swapped out. *)
Lemma swap_out_beyond s page pra' pt i :
  let va := pra_vaddr pra' page in
  sm_swap_out_victim sm false (sw_pra s) = Ok ((0, page), pra') → pt_wf (sw_vms s) pgdir own →
  walk (sw_vms s) pgdir va = Some (pt, i) → valid (tab (sw_vms s) pt i) = true →
  0 ≤ va < 2 ^ 64 → max_swap_offset s ≤ va / PGSIZE + 1 → swap_out sm pgdir 1 false s = Panic.
Proof.
  intros va Hvic Hwf Hwalk Hval Hva Hoff. destruct (swap_entry_spec va Hva) as [_ Hsh].
  unfold swap_out. change (Z.to_nat 1) with 1%nat. cbn [swap_out_loop].
  rewrite (bind_ok _ _ _ _ _ (zoom_ok sw_pra set_sw_pra _ s _ _ Hvic)). cbn match. cbn [negb Z.eqb]. msteps.
  cbn [sw_pra set_sw_pra]. fold va.
  rewrite (bind_ok _ _ _ _ _ (zoom_ok sw_vms set_sw_vms _ (set_sw_pra pra' s) _ _
    (get_pte_find_spec (λ _, mret tt) 0 (sw_vms s) pgdir own va Hwf))).
  rewrite Hwalk. set (s1 := set_sw_vms (sw_vms s) _).
  assert (on_sw_vms (load_pte (pt, i)) s1 = Ok (tab (sw_vms s) pt i, s1)) as E1 by done.
  rewrite (bind_ok _ _ _ _ _ E1), bind_assert by done. apply bind_panic.
  unfold swapfs_write, swap_offset. apply bind_panic, bind_panic. unfold asserts. rewrite Hsh.
  change (max_swap_offset s1) with (max_swap_offset s). destruct (Z.ltb_spec (va / PGSIZE + 1) (max_swap_offset s)); [lia|]. by rewrite andb_false_r.
Qed.

Lemma swap_in_one (alloc : M sws (option Z)) s q s1 va pt i :
  alloc s = Ok (Some q, s1) → pt_wf (sw_vms s1) pgdir own → own q = None →
  walk (sw_vms s1) pgdir va = Some (pt, i) → tab (sw_vms s1) pt i = swap_entry va →
  0 ≤ va < 2 ^ 64 → va / PGSIZE + 1 < max_swap_offset s1 →
  ∃ s', swap_in pgdir alloc va s = Ok ((0, q), s') ∧ tab (sw_vms s') q = sw_area s1 (va / PGSIZE + 1) ∧
    (∀ p, p ≠ q → tab (sw_vms s') p = tab (sw_vms s1) p).
Proof.
  intros Ea Hwf Hq Hwalk Htab Hva Hoff.
  destruct (swap_entry_spec va Hva) as [_ Hsh].
  pose proof (Z.div_pos va PGSIZE ltac:(lia) ltac:(unfold PGSIZE; lia)) as Hd.
  unfold swap_in. rewrite (bind_ok _ _ _ _ _ Ea).
  rewrite (bind_ok _ _ _ _ _ (zoom_ok sw_vms set_sw_vms _ s1 _ _
    (get_pte_find_spec (λ _, mret tt) 0 (sw_vms s1) pgdir own va Hwf))).
  rewrite Hwalk. set (s2 := set_sw_vms (sw_vms s1) s1).
  assert (on_sw_vms (load_pte (pt, i)) s2 = Ok (swap_entry va, s2)) as E1 by (rewrite <-Htab; done).
  rewrite (bind_ok _ _ _ _ _ E1).
  assert (swapfs_read (swap_entry va) q s2 =
    Ok (0, set_sw_vms (set_frame q (sw_area s1 (va / PGSIZE + 1)) (sw_vms s1)) s2)) as E2.
  { unfold swapfs_read, swap_offset. rewrite Hsh, bind_assoc, bind_asserts; [done|].
    change (max_swap_offset s2) with (max_swap_offset s1). apply andb_true_intro. split; lia. }
  rewrite (bind_ok _ _ _ _ _ E2). eexists. split; [reflexivity|]. simpl. rewrite upd_eq. split; [done|].
  intros p Hp. by rewrite upd_ne.
Qed.
End roundtrip.

(** ** Theorems *)

(** C23. The clock algorithm.  If there is a swappable page and the hand points at
    the list, [_clock_swap_out_victim] returns within two rounds: the victim is the
    first page from the hand on that has not been visited, or the first one if all
    were; it alone leaves the list, and only marks of visited pages are cleared. *)
Theorem clock_second_chance s l0 l1 fuel :
  dll (pra_link s) Head (Elem <$> l0 ++ l1) → curr_ptr s = default Head (head (Elem <$> l1)) → l0 ++ l1 ≠ [] →
  (2 * length (l0 ++ l1) + 2 < fuel)%nat →
  ∃ v s' passed, _clock_swap_out_victim fuel false s = Ok ((0, v), s') ∧
    clock_victim (visited s) (l1 ++ l0) = Some v ∧
    clock_done s s' (l0 ++ l1) v passed ∧ Forall (λ p, visited s p = 1) passed.
Proof. intros. unfold _clock_swap_out_victim. rewrite bind_assert by done. by apply clock_spec. Qed.

(** Three pages on the list, the first of them marked, the hand at the head. *)
Definition example_pra : pra :=
  Pra (λ e, match e with
            | Head => ListEntry (Elem 3) (Elem 1)
            | Elem p => if p =? 1 then ListEntry Head (Elem 2) else if p =? 2 then ListEntry (Elem 1) (Elem 3)
                else if p =? 3 then ListEntry (Elem 2) Head else ListEntry (Elem p) (Elem p)
            end)
    (λ p, if p =? 1 then 1 else 0) (λ p, p * PGSIZE) Head.

Lemma example_pra_dll : dll (pra_link example_pra) Head (Elem <$> [1; 2; 3]).
Proof. split; [|simpl; tauto]. apply NoDup_ListNoDup. repeat constructor; set_solver. Qed.

Lemma clock_second_chance_witness :
  ∃ s' passed, _clock_swap_out_victim 9 false example_pra = Ok ((0, 2), s') ∧ clock_done example_pra s' [1; 2; 3] 2 passed.
Proof.
  destruct (clock_second_chance example_pra [1; 2; 3] [] 9) as (v & s' & passed & E & Hv & Hd & _).
  - rewrite app_nil_r. apply example_pra_dll.
  - reflexivity.
  - discriminate.
  - simpl. lia.
  - vm_compute in Hv. injection Hv as <-. exists s', passed. split; [exact E|exact Hd].
Defined.

Lemma unlink_second (l1 l2 : list Z) : [1; 2; 3] ++ [] = l1 ++ 2 :: l2 → l1 ++ l2 = [1; 3].
Proof. destruct l1 as [|x1 [|x2 [|x3 l1]]]; intros H; simplify_eq/=; [done|]. by destruct l1. Qed.

(** Two flaws of the clock.  With no swappable page the search never ends: no
    fuel is enough.  And the hand is left on the victim, which is no longer on the
    list: asked again, the clock returns the same page, so [swap_out] of two pages
    would free it twice. *)
Theorem clock_flaws :
  (∀ s fuel, dll (pra_link s) Head [] → curr_ptr s = Head → clock_loop fuel s = Fuel) ∧
  ∃ s1 s2, _clock_swap_out_victim 9 false example_pra = Ok ((0, 2), s1) ∧
    dll (pra_link s1) Head (Elem <$> [1; 3]) ∧ _clock_swap_out_victim 9 false s1 = Ok ((0, 2), s2).
Proof.
  split.
  - intros s fuel Hd Hc. revert s Hd Hc. induction fuel as [|fuel IH]; intros s Hd Hc; [done|].
    rewrite (clock_turn s [] (S fuel) Hd Hc) by lia. simpl. rewrite Nat.sub_0_r. by apply IH.
  - destruct (clock_spec example_pra [1; 2; 3] [] 9) as (v & s1 & passed & E & Hv & (l1 & l2 & El & Hd & Hc & _ & Hvis) & Hp).
    { rewrite app_nil_r. apply example_pra_dll. }
    { done. }
    { done. }
    { simpl. lia. }
    vm_compute in Hv. injection Hv as <-. exists s1, (set_pra_link (list_del (Elem 2)) s1).
    split; [exact E|]. split.
    + by rewrite <-(unlink_second l1 l2 El).
    + unfold _clock_swap_out_victim. rewrite bind_assert by done. apply clock_take; [exact Hc| |lia].
      rewrite Hvis. unfold clear_visited. by case_decide.
Qed.

(** The state [s1] after the page [page], mapped at [va], has been swapped out of
    [s]: its entry is not valid, no other mapping changed, the page is free. *)
Definition swapped_out (pgdir page va : Z) (bs : blocks) (s s1 : sws) : Prop :=
  valid (pte_at (sw_vms s1) pgdir va) = false ∧
  (∀ la, vpn la ≠ vpn va → pte_at (sw_vms s1) pgdir la = pte_at (sw_vms s) pgdir la) ∧
  free_inv (phys (sw_vms s1)) (give_back page 1 bs).

(** C22. Swapping a page out and in again is the identity on its contents.  The slot of
    the page mapped at [va] in the swap area is [va / PGSIZE + 1].  If the area has it,
    then after [swap_out] of one page its entry is a swap entry that is not valid, every
    other mapping is unchanged and the page is free again, and [swap_in] at its address,
    into whatever page [alloc] returns, restores the contents; if it has not, [swap_out] panics.
    (The area that the build makes has 7 slots, so that it panics for every address of a
    user program.)  Some free block lies above the page, or there is none at all: the case in
    which [default_free_pages] corrupts its list is excluded. *)
Theorem swap_roundtrip sm pgdir own s page pra' pt i l1 l2 :
  let va := pra_vaddr pra' page in
  sm_swap_out_victim sm false (sw_pra s) = Ok ((0, page), pra') →
  pt_wf (sw_vms s) pgdir own → own page = None →
  walk (sw_vms s) pgdir va = Some (pt, i) → valid (tab (sw_vms s) pt i) = true → 0 ≤ va < 2 ^ 64 →
  free_inv (phys (sw_vms s)) (l1 ++ l2) → allocated (phys (sw_vms s)) page 1 → wf_blocks 0 (l1 ++ (page, 1) :: l2) →
  not_last l1 l2 → total (l1 ++ l2) + 1 < 2 ^ 32 →
  if va / PGSIZE + 1 <? max_swap_offset s then
    ∃ s1, swap_out sm pgdir 1 false s = Ok (1, s1) ∧ swapped_out pgdir page va (l1 ++ l2) s s1 ∧
      ∀ (alloc : M sws (option Z)) q p', own q = None → alloc s1 = Ok (Some q, set_sw_vms (set_phys p' (sw_vms s1)) s1) →
        ∃ s2, swap_in pgdir alloc va s1 = Ok ((0, q), s2) ∧ tab (sw_vms s2) q = tab (sw_vms s) page
  else swap_out sm pgdir 1 false s = Panic.
Proof.
  intros va H1 H2 H3 H4 H5 H6 H9 H10 H11 H12 H13. destruct (Z.ltb_spec (va / PGSIZE + 1) (max_swap_offset s)) as [H7|H7].
  2: { by eapply (swap_out_beyond sm pgdir own). }
  destruct (swap_out_one sm pgdir own s page pra' pt i l1 l2) as (s1 & E & Hwf & Hla & Hoth & Hwk & Har & Hmx & Hfr); [done..|].
  fold va in Hla, Hoth, Har. exists s1. split; [done|]. split; [split_and!; [|done|done]|].
  - rewrite Hla. by apply swap_entry_spec.
  - intros alloc q p' Hq Ea.
    destruct (swap_in_one pgdir own alloc s1 q _ va pt i Ea) as (s2 & E2 & Ht & _); simpl; try done; try by rewrite Hmx.
    + destruct Hwf. by split.
    + change (walk (sw_vms s1) pgdir va = Some (pt, i)). by rewrite Hwk.
    + unfold pte_at in Hla. by rewrite Hwk, H4 in Hla.
    + exists s2. split; [done|]. rewrite Ht. exact Har.
Qed.

(** Page 3 of the example of [PgtableProofs] is mapped at [0x1000], and is the only page
    the clock knows.  The swap area has the 7 slots of the image that the build makes. *)
Definition swap_pra : pra :=
  result ((_clock_init_mm;; _clock_map_swappable 3;; modify (set_pra_vaddr 3 0x1000)) example_pra)
    example_pra.
Definition example_sws : sws := Sws mapped_space swap_pra (λ _ _, 0) 7.

Lemma swap_roundtrip_witness : ∃ s1 s2,
  swap_out (swap_manager_clock 9) 0 1 false example_sws = Ok (1, s1) ∧
  swap_in 0 (mret (Some 9)) 0x1000 s1 = Ok ((0, 9), s2) ∧ tab (sw_vms s2) 9 = (λ i, 7 * i).
Proof.
  destruct (swap_roundtrip (swap_manager_clock 9) 0 mapped_own example_sws 3
    (result (_clock_swap_out_victim 9 false swap_pra) example_pra) 2 1 [] [(5, 15)])
    as (s1 & E & _ & Hin).
  - vm_compute. reflexivity.
  - apply mapped_pt_wf.
  - reflexivity.
  - vm_compute. reflexivity.
  - vm_compute. reflexivity.
  - vm_compute. split; [discriminate|reflexivity].
  - apply mapped_pmm_inv.
  - intros p Hp. apply mapped_pmm_inv. lia.
  - simpl. lia.
  - intros Hn. discriminate Hn.
  - vm_compute. reflexivity.
  - destruct (Hin (mret (Some 9)) 9 (phys (sw_vms s1)) ltac:(reflexivity)) as (s2 & E2 & Ht).
    { destruct s1 as [[? ?] ? ? ?]. reflexivity. }
    exists s1, s2. split; [exact E|]. split; [exact E2|]. rewrite Ht. reflexivity.
Defined.
