(* ===== verification/Kmalloc.v ===== *)
(** * kern/mm/kmalloc.c: the kernel heap

    The SLOB allocator: a circular list of free blocks sorted by address, grown
    by whole pages, and the list of big blocks.  The heap is a memory of 8-byte
    cells named by their byte address; [slob_t] and [bigblock_t] are overlaid on
    it as in C ([units] and [order] at offset 0, the pointers at 8 and 16), so
    that a header in a free block and data in an allocated one share cells.
    The page allocator is the argument [alloc_pages]/[free_pages] of the
    definitions; its contract is the class [PageLaws].  Interrupts are off in the
    critical sections, which are therefore atomic here. *)

From S2P Require Import Prelude ListH Pmm CString Vmm Pgtable.

(** ** kern/mm/pmm.h: kernel addresses of pages *)

Definition va_pa_offset : Z := KERNBASE - 0x80200000.

Definition page2kva {S} (page : Z) : M S Z :=
  assert (PPN (page2pa page) <? npage);;
  mret (u64 (page2pa page + va_pa_offset)).

Definition kva2page {S} (kva : Z) : M S Z :=
  assert (negb (kva <? KERNBASE));;
  let pa := u64 (kva - va_pa_offset) in
  assert (PPN pa <? npage);;
  mret (PPN pa - nbase).

(** ** Constants and data *)

Definition SLOB_UNIT : Z := 16.
Definition SLOB_UNITS (size : Z) : Z := (size + SLOB_UNIT - 1) / SLOB_UNIT.
Definition ALIGN (addr size : Z) : Z := Z.land (addr + size - 1) (Z.lnot (size - 1)).
(** [sizeof(bigblock_t)] *)
Definition BIGBLOCK_SIZE : Z := 24.

Record kheap (P : Type) := Kheap {
  cell : Z → Z;
  slobfree : Z;
  bigblocks : Z;
  pages : P;
}.
Arguments Kheap {P} _ _ _ _.
Arguments cell {P} _ _.
Arguments slobfree {P} _.
Arguments bigblocks {P} _.
Arguments pages {P} _.

Definition set_cell {P} (a v : Z) (s : kheap P) : kheap P := Kheap (upd a v (cell s)) (slobfree s) (bigblocks s) (pages s).
Definition set_slobfree {P} (v : Z) (s : kheap P) : kheap P := Kheap (cell s) v (bigblocks s) (pages s).
Definition set_bigblocks {P} (v : Z) (s : kheap P) : kheap P := Kheap (cell s) (slobfree s) v (pages s).
Definition set_pages {P} (v : P) (s : kheap P) : kheap P := Kheap (cell s) (slobfree s) (bigblocks s) v.

(** The fields of [slob_t] and [bigblock_t]. *)
Definition units {P} (s : kheap P) (b : Z) : Z := cell s b.
Definition next {P} (s : kheap P) (b : Z) : Z := cell s (b + 8).
Definition set_units {P} (b v : Z) : M (kheap P) unit := modify (set_cell b v).
Definition set_next {P} (b v : Z) : M (kheap P) unit := modify (set_cell (b + 8) v).

Section slob.
Context {P : Type} (alloc_pages : Z → M P (option Z)) (free_pages : Z → Z → M P unit).
Notation st := (kheap P).

Definition __slob_get_free_pages (order : Z) : M st (option Z) :=
  page ← zoom pages set_pages (alloc_pages (Z.shiftl 1 order));
  match page with
  | None => mret None
  | Some page => kva ← page2kva page; mret (Some kva)
  end.

Definition __slob_free_pages (kva order : Z) : M st unit :=
  page ← kva2page kva;
  zoom pages set_pages (free_pages page (Z.shiftl 1 order)).

(** The search for the insertion point; the result is the block before it. *)
Fixpoint slob_free_walk (fuel : nat) (b cur : Z) : M st Z :=
  match fuel with
  | O => out_of_fuel
  | S fuel' =>
    nxt ← gets (λ s, next s cur);
    if ((cur <? b) && (b <? nxt))%bool then mret cur
    else if ((nxt <=? cur) && ((cur <? b) || (b <? nxt)))%bool then mret cur
    else slob_free_walk fuel' b nxt
  end.

(** [b] takes over what follows [cur], and its successor if it is adjacent. *)
Definition link_next (b cur : Z) : M st unit :=
  nxt ← gets (λ s, next s cur);
  ub ← gets (λ s, units s b);
  if b + SLOB_UNIT * ub =? nxt then
    un ← gets (λ s, units s nxt);
    set_units b (s32 (ub + un));;
    nn ← gets (λ s, next s nxt);
    set_next b nn
  else set_next b nxt.

(** [cur] is linked to [b], or takes it over if it is adjacent. *)
Definition link_prev (b cur : Z) : M st unit :=
  uc ← gets (λ s, units s cur);
  if cur + SLOB_UNIT * uc =? b then
    ub ← gets (λ s, units s b);
    set_units cur (s32 (uc + ub));;
    nb ← gets (λ s, next s b);
    set_next cur nb
  else set_next cur b.

Definition slob_free (fuel : nat) (b size : Z) : M st unit :=
  if b =? 0 then mret tt
  else
    when (negb (size =? 0)) (set_units b (SLOB_UNITS size));;
    sf ← gets slobfree;
    cur ← slob_free_walk fuel b sf;
    link_next b cur;;
    link_prev b cur;;
    modify (set_slobfree cur).

(** One block that is large enough: split off the aligned part, then take
    [units] units of it. *)
Definition slob_take (units_ prev cur aligned delta : Z) : M st Z :=
  '(prev, cur) ←
    (if negb (delta =? 0) then
       cu ← gets (λ s, units s cur);
       set_units aligned (s32 (cu - delta));;
       nc ← gets (λ s, next s cur);
       set_next aligned nc;;
       set_next cur aligned;;
       set_units cur delta;;
       mret (cur, aligned)
     else mret (prev, cur));
  cu ← gets (λ s, units s cur);
  (if cu =? units_ then
     nc ← gets (λ s, next s cur);
     set_next prev nc
   else
     let rest := cur + SLOB_UNIT * units_ in
     set_next prev rest;;
     cu ← gets (λ s, units s cur);
     set_units rest (s32 (cu - units_));;
     nc ← gets (λ s, next s cur);
     set_next rest nc;;
     set_units cur units_);;
  modify (set_slobfree prev);;
  mret cur.

Fixpoint slob_alloc_loop (fuel : nat) (size units_ align prev cur : Z) : M st (option Z) :=
  match fuel with
  | O => out_of_fuel
  | S fuel' =>
    let aligned := if negb (align =? 0) then ALIGN cur align else 0 in
    let delta := if negb (align =? 0) then s32 ((aligned - cur) / SLOB_UNIT) else 0 in
    cu ← gets (λ s, units s cur);
    if units_ + delta <=? cu then
      b ← slob_take units_ prev cur aligned delta;
      mret (Some b)
    else
      sf ← gets slobfree;
      if cur =? sf then
        if size =? PGSIZE then mret None
        else
          page ← __slob_get_free_pages 0;
          match page with
          | None => mret None
          | Some page =>
            slob_free fuel page PGSIZE;;
            cur ← gets slobfree;
            nxt ← gets (λ s, next s cur);
            slob_alloc_loop fuel' size units_ align cur nxt
          end
      else
        nxt ← gets (λ s, next s cur);
        slob_alloc_loop fuel' size units_ align cur nxt
  end.

Definition slob_alloc (fuel : nat) (size align : Z) : M st (option Z) :=
  assert (size + SLOB_UNIT <? PGSIZE);;
  prev ← gets slobfree;
  cur ← gets (λ s, next s prev);
  slob_alloc_loop fuel size (SLOB_UNITS size) align prev cur.

(** [for ( ; size > 4096 ; size >>= 1) order ++;] on an [int], which has at most
    19 rounds. *)
Fixpoint find_order_loop (n : nat) (size order : Z) : Z :=
  match n with
  | O => order
  | S n' => if 4096 <? size then find_order_loop n' (Z.shiftr size 1) (order + 1) else order
  end.

Definition find_order (size : Z) : Z := find_order_loop 32 (s32 size) 0.

Definition __kmalloc (fuel : nat) (size : Z) : M st (option Z) :=
  if size <? PGSIZE - SLOB_UNIT then
    m ← slob_alloc fuel (size + SLOB_UNIT) 0;
    mret (match m with Some m => Some (m + SLOB_UNIT) | None => None end)
  else
    bb ← slob_alloc fuel BIGBLOCK_SIZE 0;
    match bb with
    | None => mret None
    | Some bb =>
      let order := find_order size in
      modify (set_cell bb order);;
      pg ← __slob_get_free_pages order;
      modify (set_cell (bb + 8) (default 0 pg));;
      match pg with
      | Some pg =>
        big ← gets bigblocks;
        modify (set_cell (bb + 16) big);;
        modify (set_bigblocks bb);;
        mret (Some pg)
      | None =>
        slob_free fuel bb BIGBLOCK_SIZE;;
        mret None
      end
    end.

Definition kmalloc (fuel : nat) (size : Z) : M st (option Z) := __kmalloc fuel size.

(** The search of the big block list.  [last] is the cell that points at [bb]
    ([None] for the variable [bigblocks]). *)
Fixpoint bigblock_walk (fuel : nat) (block : Z) (last : option Z) (bb : Z) : M st (option (option Z * Z)) :=
  match fuel with
  | O => out_of_fuel
  | S fuel' =>
    if bb =? 0 then mret None
    else
      pg ← gets (λ s, cell s (bb + 8));
      if pg =? block then mret (Some (last, bb))
      else
        nxt ← gets (λ s, cell s (bb + 16));
        bigblock_walk fuel' block (Some (bb + 16)) nxt
  end.

Definition find_bigblock (fuel : nat) (block : Z) : M st (option (option Z * Z)) :=
  if negb (truth (Z.land block (PGSIZE - 1))) then
    big ← gets bigblocks;
    bigblock_walk fuel block None big
  else mret None.

Definition kfree (fuel : nat) (block : Z) : M st unit :=
  if block =? 0 then mret tt
  else
    found ← find_bigblock fuel block;
    match found with
    | Some (last, bb) =>
      nxt ← gets (λ s, cell s (bb + 16));
      modify (match last with Some a => set_cell a nxt | None => set_bigblocks nxt end);;
      order ← gets (λ s, cell s bb);
      __slob_free_pages block order;;
      slob_free fuel bb BIGBLOCK_SIZE
    | None => slob_free fuel (block - SLOB_UNIT) 0
    end.

Definition ksize (fuel : nat) (block : Z) : M st Z :=
  if block =? 0 then mret 0
  else
    found ← find_bigblock fuel block;
    match found with
    | Some (_, bb) => order ← gets (λ s, cell s bb); mret (u32 (Z.shiftl PGSIZE order))
    | None => u ← gets (λ s, units s (block - SLOB_UNIT)); mret (u32 (u * SLOB_UNIT))
    end.
End slob.
