(* ===== verification/KmallocProofs.v ===== *)
(** * The kernel heap is a ring of disjoint free blocks

    The invariant of the SLOB list, what [slob_free] and [slob_alloc] do to it,
    and the safety of all runs of [kmalloc] and [kfree].  The page allocator
    enters through the class [PageLaws], which the allocator of [Pmm] behind
    [alloc_pages] implements. *)

From S2P Require Import Prelude ListH Pmm CString Vmm Pgtable Kmalloc.

(** ** Rings of blocks

    A block is an address and a number of units; a list of blocks is sorted up to
    rotation. *)

Notation slobs := (list (Z * Z)).

(** Two blocks share no byte. *)
Definition sep (x y : Z * Z) : Prop := x.1 + SLOB_UNIT * x.2 ≤ y.1 ∨ y.1 + SLOB_UNIT * y.2 ≤ x.1.

Fixpoint ascending (lo : Z) (l : slobs) : Prop :=
  match l with
  | [] => True
  | (b, u) :: l' => lo ≤ b ∧ 0 < u ∧ ascending (b + SLOB_UNIT * u) l'
  end.

Definition cyc (l : slobs) : Prop := ∃ l1 l2, l = l2 ++ l1 ∧ ascending 0 (l1 ++ l2).

(** The address a chain of blocks after [a] ends at. *)
Definition end_at (a : Z) (l : slobs) : Z := default a (fst <$> last l).

Lemma ascending_app lo l1 l2 :
  ascending lo (l1 ++ l2) ↔
  ascending lo l1 ∧ ascending (match last l1 with Some (b, u) => b + SLOB_UNIT * u | None => lo end) l2.
Proof.
  revert lo. induction l1 as [|[b u] l1 IH]; intros lo; simpl; [tauto|]. rewrite IH.
  destruct l1 as [|y l1]; simpl; [tauto|]. destruct (last (y :: l1)) as [[]|] eqn:E; [tauto|].
  by apply last_None in E.
Qed.

Lemma ascending_mono lo lo' l : lo' ≤ lo → ascending lo l → ascending lo' l.
Proof. destruct l as [|[b u] l]; simpl; [done|]. intros ? (? & ? & ?). split_and!; [lia|done..]. Qed.

Lemma ascending_elem lo l x : ascending lo l → x ∈ l → lo ≤ x.1 ∧ 0 < x.2.
Proof.
  revert lo. induction l as [|[b u] l IH]; intros lo Hs Hx; [by apply not_elem_of_nil in Hx|].
  destruct Hs as (? & ? & Hs). apply elem_of_cons in Hx as [->|Hx]; [done|].
  destruct (IH _ Hs Hx). split; [|done]. unfold SLOB_UNIT in *. lia.
Qed.

Lemma ascending_below lo l y x : ascending lo (l ++ [y]) → x ∈ l → x.1 + SLOB_UNIT * x.2 ≤ y.1.
Proof.
  revert lo. induction l as [|[b u] l IH]; intros lo Hs Hx; [by apply not_elem_of_nil in Hx|].
  destruct Hs as (? & ? & Hs). apply elem_of_cons in Hx as [->|Hx]; [|by eapply IH].
  by destruct (ascending_elem _ _ y Hs); [set_solver|].
Qed.

Lemma cyc_rotate l1 l2 : cyc (l1 ++ l2) → cyc (l2 ++ l1).
Proof.
  intros (m1 & m2 & E & Hs). symmetry in E. apply app_eq_app in E as (k & [[-> ->]|[-> ->]]).
  - exists (m1 ++ l1), k. by rewrite <-!app_assoc in *.
  - exists k, (l2 ++ m2). rewrite <-!app_assoc in *. done.
Qed.

Lemma rotation_of l1 l2 m1 m2 :
  l1 ++ l2 = m1 ++ m2 → ∃ k1 k2 : slobs, l2 ++ l1 = k1 ++ k2 ∧ m2 ++ m1 = k2 ++ k1.
Proof.
  intros E. apply app_eq_app in E as (k & [[-> ->]|[-> ->]]).
  - exists (l2 ++ m1), k. by rewrite <-!app_assoc.
  - exists k, (m2 ++ l1). by rewrite <-!app_assoc.
Qed.

Lemma cyc_elem l x : cyc l → x ∈ l → 0 ≤ x.1 ∧ 0 < x.2.
Proof. intros (l1 & l2 & -> & Hs) Hx. eapply ascending_elem; [done|]. set_solver. Qed.

Lemma cyc_cons x l : cyc (x :: l) →
  ∃ l1 l2, l = l2 ++ l1 ∧ ascending 0 (l1 ++ x :: l2).
Proof.
  intros (l1 & l2 & E & Hs). destruct l2 as [|y l2].
  - destruct l1 as [|y l1]; [done|]. injection E as -> ->. exists [], l1. by rewrite app_nil_r in *.
  - injection E as -> ->. by exists l1, l2.
Qed.

Lemma cyc_sep x l : cyc (x :: l) → Forall (sep x) l.
Proof.
  intros (l1 & l2 & -> & Hs)%cyc_cons. apply Forall_forall. intros y [Hy|Hy]%elem_of_app.
  - destruct x as [b u]. rewrite ascending_app in Hs. destruct Hs as [_ (_ & _ & Hs)].
    left. by destruct (ascending_elem _ _ _ Hs Hy).
  - right. rewrite cons_middle, app_assoc, ascending_app in Hs. eapply ascending_below; [apply Hs|done].
Qed.

Lemma cyc_delete x l : cyc (x :: l) → cyc l.
Proof.
  intros (l1 & l2 & -> & Hs)%cyc_cons. exists l1, l2. split; [done|]. destruct x as [b u].
  rewrite ascending_app in *. destruct Hs as (? & Hl & Hu & Hs). split; [done|].
  eapply ascending_mono; [|done]. unfold SLOB_UNIT in *. lia.
Qed.

(** A block shrinks to a part of it. *)
Lemma cyc_shrink b u b' u' l :
  cyc ((b, u) :: l) → b ≤ b' → 0 < u' → b' + SLOB_UNIT * u' ≤ b + SLOB_UNIT * u → cyc ((b', u') :: l).
Proof.
  intros (l1 & l2 & -> & Hs)%cyc_cons Hb Hu He. exists l1, ((b', u') :: l2). split; [done|].
  rewrite ascending_app in *. destruct Hs as (? & Hl & ? & Hs). split; [done|]. split_and!; [lia|done|].
  by eapply ascending_mono.
Qed.

(** Adjacent blocks of the ring merge. *)
Lemma cyc_merge b u v l : cyc ((b, u) :: (b + SLOB_UNIT * u, v) :: l) → cyc ((b, u + v) :: l).
Proof.
  intros Hc. destruct (cyc_elem _ (b, u) Hc) as [_ Hu]; [set_solver|].
  destruct (cyc_elem _ (b + SLOB_UNIT * u, v) Hc) as [_ Hv]; [set_solver|]. simpl in *.
  apply cyc_cons in Hc as (l1 & l2 & E & Hs). destruct l2 as [|y l2].
  - destruct l1 as [|y l1]; [done|]. injection E as <- ->. exfalso.
    pose proof (ascending_below _ _ _ (b + SLOB_UNIT * u, v) Hs ltac:(set_solver)) as Hb.
    simpl in Hb. unfold SLOB_UNIT in *. lia.
  - injection E as <- ->. exists l1, ((b, u + v) :: l2). split; [done|].
    rewrite ascending_app in *. simpl in *. destruct Hs as (? & ? & ? & ? & ? & Hs). split_and!; [done..|lia|].
    by replace (b + SLOB_UNIT * (u + v)) with (b + SLOB_UNIT * u + SLOB_UNIT * v) by lia.
Qed.

(** *** Insertion

    The two tests of the loop of [slob_free] on neighbours [c] and [n]. *)

Definition fits (b c n : Z) : bool :=
  (((c <? b) && (b <? n)) || ((n <=? c) && ((c <? b) || (b <? n))))%bool.

Lemma ascending_insert b u l1 l2 :
  ascending 0 (l1 ++ l2) → 0 ≤ b → 0 < u → Forall (sep (b, u)) (l1 ++ l2) →
  (∀ x, x ∈ l1 → x.1 < b) → (∀ x, x ∈ l2 → b < x.1) → ascending 0 (l1 ++ (b, u) :: l2).
Proof.
  rewrite !ascending_app, Forall_app. intros [H1 H2] Hb Hu [Hs1 Hs2] Hl1 Hl2. split; [done|]. simpl. split_and!.
  - destruct (last l1) as [[c v]|] eqn:E; [|done]. apply last_Some_elem_of in E.
    rewrite Forall_forall in Hs1. destruct (Hs1 _ E) as [?|?]; [|done]. specialize (Hl1 _ E).
    simpl in *. unfold SLOB_UNIT in *. lia.
  - done.
  - destruct l2 as [|[c v] l2]; [done|]. simpl in *. destruct H2 as (? & ? & ?). split_and!; [|done..].
    apply Forall_cons in Hs2 as [[?|?] _]; [done|]. specialize (Hl2 (c, v) ltac:(set_solver)).
    simpl in *. unfold SLOB_UNIT in *. lia.
Qed.

Lemma ascending_lt lo l1 x l2 y : ascending lo (l1 ++ x :: l2) → y ∈ l2 → x.1 < y.1.
Proof.
  rewrite ascending_app. destruct x as [b u]. intros [_ (_ & ? & Hs)] Hy.
  destruct (ascending_elem _ _ _ Hs Hy). simpl. unfold SLOB_UNIT in *. lia.
Qed.

Lemma ascending_first lo x l y : ascending lo (x :: l) → y ∈ x :: l → x.1 ≤ y.1.
Proof.
  intros Hs Hy. apply elem_of_cons in Hy as [->|Hy]; [done|].
  pose proof (ascending_lt lo [] x l y Hs Hy). lia.
Qed.

Lemma ascending_last lo x l y : ascending lo (l ++ [x]) → y ∈ l ++ [x] → y.1 ≤ x.1.
Proof.
  intros Hs Hy. apply elem_of_app in Hy as [Hy|Hy%list_elem_of_singleton]; [|by subst].
  pose proof (ascending_below _ _ _ _ Hs Hy). rewrite ascending_app in Hs.
  destruct (ascending_elem _ _ y (proj1 Hs) Hy). unfold SLOB_UNIT in *. lia.
Qed.

(** A block that fits between the ends of a rotation can be inserted there: at an
    end of the sorted list if the rotation is the sorted list itself, else at the
    seam. *)
Lemma cyc_insert_ends b u n c l0 :
  ascending 0 (n :: l0) → last (n :: l0) = Some c → fits b c.1 n.1 = true →
  0 ≤ b → 0 < u → Forall (sep (b, u)) (n :: l0) → cyc ((b, u) :: n :: l0).
Proof.
  intros Hs Hl Hf Hb Hu Hsep. pose proof (ascending_first _ _ _ c Hs (last_Some_elem_of _ _ Hl)) as Hnc.
  assert (c.1 < b ∨ b < n.1) as [Hcb|Hbn].
  { unfold fits in Hf. destruct (Z.ltb_spec c.1 b), (Z.ltb_spec b n.1), (Z.leb_spec n.1 c.1); simpl in Hf; (lia || done). }
  - exists (n :: l0), [(b, u)]. split; [done|]. apply ascending_insert; rewrite ?app_nil_r; [done..| |].
    + intros x Hx. apply last_Some in Hl as [l' El]. rewrite El in Hs, Hx.
      pose proof (ascending_last _ _ _ _ Hs Hx). lia.
    + intros x Hx. by apply not_elem_of_nil in Hx.
  - exists [], ((b, u) :: n :: l0). split; [by rewrite app_nil_r|]. apply (ascending_insert _ _ []); [done..| |].
    + intros x Hx. by apply not_elem_of_nil in Hx.
    + intros x Hx. pose proof (ascending_first _ _ _ _ Hs Hx). lia.
Qed.

Lemma cyc_insert b u n c l0 :
  cyc (n :: l0) → last (n :: l0) = Some c → fits b c.1 n.1 = true →
  0 ≤ b → 0 < u → Forall (sep (b, u)) (n :: l0) → cyc ((b, u) :: n :: l0).
Proof.
  intros (l1 & l2 & E & Hs)%cyc_cons Hl Hf Hb Hu Hsep.
  destruct l1 as [|z l1 _] using rev_ind.
  { rewrite app_nil_r in E. subst l0. by eapply cyc_insert_ends. }
  subst l0. rewrite app_comm_cons, app_assoc, last_snoc in Hl. injection Hl as ->.
  exists (l1 ++ [c]), ((b, u) :: n :: l2). split; [done|].
  assert (c.1 < n.1) as Hcn. { rewrite <-app_assoc in Hs. eapply ascending_lt; [done|]. set_solver. }
  assert (c.1 < b < n.1) as Hcb.
  { unfold fits in Hf. destruct (Z.ltb_spec c.1 b), (Z.ltb_spec b n.1), (Z.leb_spec n.1 c.1); simpl in Hf; (lia || done). }
  apply ascending_insert; [done..| | |].
  - rewrite app_comm_cons, Forall_app in Hsep. rewrite Forall_app. tauto.
  - intros x Hx. rewrite ascending_app in Hs. pose proof (ascending_last _ _ _ _ (proj1 Hs) Hx). lia.
  - intros x [->|Hx]%elem_of_cons; [lia|].
    pose proof (ascending_lt _ (l1 ++ [c]) n l2 x Hs Hx). lia.
Qed.

Lemma end_at_app a l1 l2 : end_at a (l1 ++ l2) = end_at (end_at a l1) l2.
Proof.
  unfold end_at. destruct l2 as [|x l2 _] using rev_ind; [by rewrite app_nil_r|].
  by rewrite app_assoc, !last_snoc.
Qed.

Lemma end_at_ne a a' l : l ≠ [] → end_at a l = end_at a' l.
Proof. unfold end_at. destruct l as [|x l _] using rev_ind; [done|]. by rewrite !last_snoc. Qed.

Lemma ascending_split lo b u l :
  ascending lo l → 0 < u → Forall (sep (b, u)) l →
  ∃ k1 k2, l = k1 ++ k2 ∧ (∀ x, x ∈ k1 → x.1 < b) ∧ (∀ x, x ∈ k2 → b < x.1).
Proof.
  revert lo. induction l as [|[c v] l IH]; intros lo Hs Hu Hsep.
  { exists [], []. split_and!; [done|set_solver..]. }
  apply Forall_cons in Hsep as [Hc Hsep]. pose proof Hs as (? & ? & Hs').
  destruct (IH _ Hs' Hu Hsep) as (k1 & k2 & -> & Hk1 & Hk2).
  destruct (decide (c < b)) as [Hcb|Hcb].
  - exists ((c, v) :: k1), k2. split_and!; [done| |done]. intros x [->|Hx]%elem_of_cons; [done|by apply Hk1].
  - assert (b < c) as Hbc. { destruct Hc as [?|?]; simpl in *; unfold SLOB_UNIT in *; lia. }
    exists [], ((c, v) :: k1 ++ k2). split_and!; [done|set_solver|].
    intros x Hx. pose proof (ascending_first _ _ _ _ Hs Hx). simpl in *. lia.
Qed.

Lemma fits_seam b k1 k2 :
  ascending 0 (k1 ++ k2) → (∀ x, x ∈ k1 → x.1 < b) → (∀ x, x ∈ k2 → b < x.1) → k2 ++ k1 ≠ [] →
  ∃ x r, k2 ++ k1 = x :: r ∧ fits b (end_at 0 (k2 ++ k1)) x.1 = true.
Proof.
  intros Hs Hk1 Hk2 Hne. assert (∃ x r, k2 ++ k1 = x :: r) as (x & r & E) by (destruct (k2 ++ k1); eauto; done).
  exists x, r. split; [done|]. unfold end_at. destruct (last (k2 ++ k1)) as [c|] eqn:El; simpl; [|by apply last_None in El].
  assert (c ∈ k2 ++ k1) as Hc by by apply last_Some_elem_of.
  unfold fits. destruct k1 as [|y k1 _] using rev_ind; [|destruct k2 as [|z k2]].
  - rewrite app_nil_r, app_nil_l in *. subst k2. pose proof (Hk2 x ltac:(set_solver)).
    pose proof (ascending_first _ _ _ c Hs Hc).
    rewrite (proj2 (Z.leb_le x.1 c.1)), (proj2 (Z.ltb_lt b x.1)) by lia. by rewrite !orb_true_r.
  - rewrite app_nil_l, app_nil_r in *. rewrite last_snoc in El. injection El as ->.
    pose proof (Hk1 c ltac:(set_solver)). rewrite E in Hs. pose proof (ascending_first _ _ _ c Hs ltac:(by rewrite <-E)).
    rewrite (proj2 (Z.leb_le x.1 c.1)), (proj2 (Z.ltb_lt c.1 b)) by lia. by rewrite !orb_true_r.
  - injection E as -> _. rewrite app_assoc, last_snoc in El. injection El as ->.
    pose proof (Hk1 c ltac:(set_solver)). pose proof (Hk2 x ltac:(set_solver)).
    by rewrite (proj2 (Z.ltb_lt c.1 b)), (proj2 (Z.ltb_lt b x.1)) by lia.
Qed.

(** Somewhere in the ring it fits. *)
Lemma ring_fits b u l :
  cyc l → l ≠ [] → 0 < u → Forall (sep (b, u)) l →
  ∃ l1 x l2, l = l1 ++ x :: l2 ∧ fits b (end_at (end_at 0 l) l1) x.1 = true.
Proof.
  intros (m1 & m2 & -> & Hs) Hne Hu Hsep.
  destruct (ascending_split 0 b u (m1 ++ m2)) as (k1 & k2 & E & Hk1 & Hk2); [done..| |].
  { rewrite Forall_app in *. tauto. }
  destruct (rotation_of _ _ _ _ E) as (j1 & j2 & Ej & Er). rewrite Ej in *.
  assert (∃ x r, k2 ++ k1 = x :: r ∧ fits b (end_at 0 (k2 ++ k1)) x.1 = true) as (x & r & Ek & Hf).
  { rewrite E in Hs. eapply fits_seam; [done..|]. rewrite Er. intros [-> ->]%app_eq_nil. done. }
  destruct j2 as [|y j2].
  - rewrite app_nil_r, app_nil_l in *. exists [], x, r. rewrite Er in Ek, Hf. done.
  - rewrite Er in Ek. injection Ek as -> <-. exists j1, x, j2. split; [done|]. rewrite Er in Hf.
    rewrite <-Hf. f_equal. rewrite !end_at_app. by rewrite (end_at_ne (end_at 0 j1) 0 (x :: j2)).
Qed.

(** ** Chains in the heap *)

Section heap.
Context {P : Type}.
Notation st := (kheap P).

Fixpoint chain (s : st) (a : Z) (l : slobs) : Prop :=
  match l with
  | [] => True
  | (b, u) :: l' => next s a = b ∧ units s b = u ∧ chain s b l'
  end.

Lemma chain_app s a l1 l2 : chain s a (l1 ++ l2) ↔ chain s a l1 ∧ chain s (end_at a l1) l2.
Proof.
  revert a. induction l1 as [|[b u] l1 IH]; intros a; simpl; [tauto|]. rewrite IH.
  change (end_at a ((b, u) :: l1)) with (end_at a ([(b, u)] ++ l1)). rewrite end_at_app. simpl. tauto.
Qed.

(** Chains only read the headers of their blocks. *)
Lemma chain_frame s s' a a' l :
  next s' a' = next s a → (∀ x, x ∈ l → units s' x.1 = units s x.1) →
  (∀ x, x ∈ removelast l → next s' x.1 = next s x.1) →
  chain s a l → chain s' a' l.
Proof.
  revert a a'. induction l as [|[b u] l IH]; intros a a' Ha Hu Hn; simpl; [done|]. intros (E1 & E2 & Hc). split_and!.
  - congruence.
  - specialize (Hu (b, u) ltac:(set_solver)). simpl in Hu. congruence.
  - destruct l as [|y l]; [done|]. apply (IH b b); [|set_solver| |done].
    + apply (Hn (b, u)). simpl. set_solver.
    + intros x Hx. apply Hn. simpl in *. set_solver.
Qed.

Lemma chain_rotate s a l1 l2 :
  chain s a (l1 ++ l2) → end_at a (l1 ++ l2) = a →
  chain s (end_at a l1) (l2 ++ l1) ∧ end_at (end_at a l1) (l2 ++ l1) = end_at a l1.
Proof.
  rewrite !chain_app, !end_at_app. intros [H1 H2] E. rewrite E. done.
Qed.

(** The invariant of the free list: [t] lists it in the order of the links,
    beginning behind [slobfree]. *)
Record free_ring (s : st) (t : slobs) : Prop := FreeRing {
  fr_chain : chain s (slobfree s) t;
  fr_end : end_at (slobfree s) t = slobfree s;
  fr_ne : t ≠ [];
  fr_cyc : cyc t;
}.

Lemma slob_free_walk_spec s b a l1 x l2 fuel :
  chain s a (l1 ++ x :: l2) → fits b (end_at a l1) x.1 = true → (length l1 < fuel)%nat →
  ∃ k1 y k2, l1 ++ x :: l2 = k1 ++ y :: k2 ∧ fits b (end_at a k1) y.1 = true ∧
    slob_free_walk fuel b a s = Ok (end_at a k1, s).
Proof.
  revert a fuel. induction l1 as [|[c v] l1 IH]; intros a fuel Hc Hf Hl;
    (destruct fuel as [|fuel]; [simpl in Hl; lia|]); simpl in Hl; cbn [slob_free_walk]; msteps.
  - destruct x as [n w]. simpl in Hc. destruct Hc as (-> & _ & _). unfold fits, end_at in Hf. simpl in Hf.
    exists [], (n, w), l2. split_and!; [done|done|].
    destruct ((a <? b) && (b <? n))%bool; [done|]. simpl in Hf. by rewrite Hf.
  - simpl in Hc. destruct Hc as (-> & _ & Hc).
    change (end_at a ((c, v) :: l1)) with (end_at a ([(c, v)] ++ l1)) in Hf. rewrite end_at_app in Hf.
    destruct (fits b a c) eqn:E.
    + exists [], (c, v), (l1 ++ x :: l2). split_and!; [done|done|]. unfold fits in E.
      destruct ((a <? b) && (b <? c))%bool; [done|]. simpl in E. by rewrite E.
    + destruct (IH c fuel Hc Hf ltac:(lia)) as (k1 & y & k2 & Ek & Hy & Ew).
      exists ((c, v) :: k1), y, k2. split_and!; [by rewrite <-app_comm_cons, Ek| |].
      * change ((c, v) :: k1) with ([(c, v)] ++ k1). by rewrite end_at_app.
      * unfold fits in E. apply orb_false_elim in E as [-> E]. rewrite E, Ew.
        change ((c, v) :: k1) with ([(c, v)] ++ k1). by rewrite end_at_app.
Qed.

(** The bytes of a block, and of a list of blocks. *)
Definition byte_of (p : Z) (x : Z * Z) : Prop := x.1 ≤ p < x.1 + SLOB_UNIT * x.2.
Definition covered (t : slobs) (p : Z) : Prop := Exists (byte_of p) t.

Lemma covered_elem t x p : x ∈ t → byte_of p x → covered t p.
Proof. intros. apply Exists_exists. eauto. Qed.

(** A chain into [c] from another start, after stores that miss its headers but
    may resize [c]. *)
Lemma chain_move s s' a a' l c u u' :
  chain s a (l ++ [(c, u)]) → next s' a' = next s a → units s' c = u' →
  (∀ x, x ∈ l → units s' x.1 = units s x.1 ∧ next s' x.1 = next s x.1) → chain s' a' (l ++ [(c, u')]).
Proof.
  revert a a'. induction l as [|[b v] l IH]; intros a a' Hc Ha Hu Hl; simpl in *.
  - destruct Hc as (<- & _ & _). done.
  - destruct Hc as (<- & <- & Hc). destruct (Hl (next s a, units s (next s a))) as [? Hn]; [by left|].
    split_and!; [done|done|]. apply (IH (next s a)); [done|done|done|]. intros x Hx. apply Hl. by right.
Qed.

Lemma chain_last s a l c : chain s a (l ++ [c]) → units s c.1 = c.2.
Proof. rewrite chain_app. destruct c. simpl. tauto. Qed.

(** The header cells of two disjoint blocks are different. *)
Lemma sep_cells x y : sep x y → 0 < x.2 → 0 < y.2 →
  x.1 ≠ y.1 ∧ x.1 ≠ y.1 + 8 ∧ x.1 + 8 ≠ y.1 ∧ x.1 + 8 ≠ y.1 + 8.
Proof. unfold sep, SLOB_UNIT. lia. Qed.

Lemma ring_cells x l y : cyc (x :: l) → y ∈ l →
  x.1 ≠ y.1 ∧ x.1 ≠ y.1 + 8 ∧ x.1 + 8 ≠ y.1 ∧ x.1 + 8 ≠ y.1 + 8.
Proof.
  intros Hc Hy. pose proof (cyc_sep _ _ Hc) as Hs. rewrite Forall_forall in Hs.
  destruct (cyc_elem _ x Hc); [set_solver|]. destruct (cyc_elem _ y Hc); [set_solver|]. apply sep_cells; auto.
Qed.

(** [slob_free] first links [b] to what follows it, merging it with the block
    behind it ... *)
Lemma link_next_spec s b u L c :
  chain s c.1 (L ++ [c]) → cyc ((b, u) :: L ++ [c]) → units s b = u → b + SLOB_UNIT * u ≠ c.1 →
  Forall (λ x, x.2 < 2 ^ 29) ((b, u) :: L ++ [c]) →
  ∃ s1 u1 L1, link_next b c.1 s = Ok (tt, s1) ∧
    units s1 b = u1 ∧ chain s1 b (L1 ++ [c]) ∧ cyc ((b, u1) :: L1 ++ [c]) ∧ u ≤ u1 < 2 ^ 30 ∧
    (∀ p, covered ((b, u1) :: L1 ++ [c]) p ↔ covered ((b, u) :: L ++ [c]) p) ∧
    (∀ p, p ≠ b → p ≠ b + 8 → cell s1 p = cell s p) ∧
    (length L1 ≤ length L)%nat ∧ slobfree s1 = slobfree s ∧ bigblocks s1 = bigblocks s ∧ pages s1 = pages s ∧
    (∀ x, x ∈ L ++ [c] → b + SLOB_UNIT * u ≠ x.1 → x ∈ L1 ++ [c]).
Proof.
  intros Hch Hcyc Hu Hne Hsz. unfold link_next. msteps. rewrite Hu.
  assert (∀ x, x ∈ L ++ [c] → b ≠ x.1 ∧ b ≠ x.1 + 8 ∧ b + 8 ≠ x.1 ∧ b + 8 ≠ x.1 + 8) as Hcl.
  { intros x Hx. by apply (ring_cells (b, u) (L ++ [c]) x). }
  destruct (Z.eqb_spec (b + SLOB_UNIT * u) (next s c.1)) as [E|E].
  - destruct L as [|[n v] L]; simpl in Hch; [destruct c; simpl in *; lia|].
    destruct Hch as (En & Ev & Hch). rewrite En in E |- *.
    assert (n = b + SLOB_UNIT * u) as -> by done. clear E.
    apply Forall_cons in Hsz as [Hsu [Hsv _]%Forall_cons]. simpl in Hsu, Hsv.
    destruct (cyc_elem _ (b, u) Hcyc) as [_ ?]; [by left|].
    destruct (cyc_elem _ (b + SLOB_UNIT * u, v) Hcyc) as [_ ?]; [by right; left|]. simpl in *.
    destruct (Hcl (b + SLOB_UNIT * u, v)) as (? & ? & ? & ?); [by left|]. simpl in *.
    eexists _, (u + v), L. split; [reflexivity|]. unfold units, next, set_cell. simpl. split_and!.
    + rewrite upd_ne by lia. unfold units in Ev. by rewrite upd_eq, Ev, s32_small by lia.
    + destruct c as [c uc]. eapply chain_move; [apply Hch| | |]; unfold units, next; simpl in *.
      * rewrite upd_eq. by rewrite upd_ne by lia.
      * destruct (Hcl (c, uc)) as (? & ? & ? & ?); [set_solver|]. simpl in *.
        rewrite !upd_ne by lia. by apply chain_last in Hch.
      * intros x Hx. destruct (Hcl x) as (? & ? & ? & ?); [set_solver|]. by rewrite !upd_ne by lia.
    + by apply cyc_merge.
    + lia.
    + lia.
    + intros p. unfold covered. rewrite !Exists_cons. unfold byte_of. simpl. unfold SLOB_UNIT in *.
      split; [intros [?|?]|intros [?|[?|?]]]; auto; [|left; lia..].
      destruct (decide (p < b + 16 * u)); [left; lia|right; left; lia].
    + intros p ? ?. by rewrite !upd_ne by done.
    + lia.
    + done.
    + done.
    + done.
    + intros x [->|Hx]%elem_of_cons Hxn; [done|done].
  - eexists _, u, L. split; [reflexivity|]. unfold units, next, set_cell in *. simpl. split_and!.
    + by rewrite upd_ne by lia.
    + destruct c as [c uc]. eapply chain_move; [apply Hch| | |]; unfold units, next; simpl in *.
      * by rewrite upd_eq.
      * destruct (Hcl (c, uc)) as (? & ? & ? & ?); [set_solver|]. simpl in *.
        rewrite !upd_ne by lia. by apply chain_last in Hch.
      * intros x Hx. destruct (Hcl x) as (? & ? & ? & ?); [set_solver|]. by rewrite !upd_ne by lia.
    + done.
    + done.
    + by apply Forall_inv in Hsz; simpl in Hsz; lia.
    + done.
    + intros p ? ?. by rewrite !upd_ne by done.
    + done.
    + done.
    + done.
    + done.
    + done.
Qed.

(** ... and then links the block before it, merging again. *)
Lemma link_prev_spec s b u L c v :
  chain s b (L ++ [(c, v)]) → cyc ((b, u) :: L ++ [(c, v)]) → units s b = u → u < 2 ^ 30 → v < 2 ^ 29 →
  ∃ s2 t', link_prev b c s = Ok (tt, s2) ∧
    chain s2 c t' ∧ end_at c t' = c ∧ cyc t' ∧ t' ≠ [] ∧
    (∀ p, covered t' p ↔ covered ((b, u) :: L ++ [(c, v)]) p) ∧
    (∀ p, p ≠ c → p ≠ c + 8 → cell s2 p = cell s p) ∧
    (length t' ≤ S (S (length L)))%nat ∧ slobfree s2 = slobfree s ∧ bigblocks s2 = bigblocks s ∧ pages s2 = pages s ∧
    (∀ x, x ∈ L ++ [(c, v)] → x.1 + SLOB_UNIT * x.2 ≠ b → x ∈ t') ∧ ∃ y, y ∈ t' ∧ u ≤ y.2.
Proof.
  intros Hch Hcyc Hu Hu2 Hv. unfold link_prev. msteps. pose proof (chain_last _ _ _ _ Hch) as El. simpl in El. rewrite El.
  assert (cyc ((c, v) :: (b, u) :: L)) as Hcyc'.
  { apply (cyc_rotate ((b, u) :: L) [(c, v)] Hcyc). }
  destruct (cyc_elem _ (b, u) Hcyc) as [_ ?]; [by left|].
  destruct (cyc_elem _ (c, v) Hcyc') as [_ ?]; [by left|]. simpl in *.
  assert (∀ x, x ∈ (b, u) :: L → c ≠ x.1 ∧ c ≠ x.1 + 8 ∧ c + 8 ≠ x.1 ∧ c + 8 ≠ x.1 + 8) as Hcl.
  { intros x Hx. by apply (ring_cells (c, v) ((b, u) :: L) x). }
  destruct (Hcl (b, u)) as (? & ? & ? & ?); [by left|]. simpl in *.
  destruct (Z.eqb_spec (c + SLOB_UNIT * v) b) as [E|E].
  - eexists _, (L ++ [(c, v + u)]). split; [reflexivity|]. split_and!.
    + eapply chain_move; [apply Hch| | |]; unfold units, next, set_cell in *; simpl.
      * rewrite upd_eq. by rewrite upd_ne by lia.
      * rewrite upd_ne by lia. by rewrite upd_eq, Hu, s32_small by lia.
      * intros x Hx. destruct (Hcl x) as (? & ? & ? & ?); [by right|]. by rewrite !upd_ne by lia.
    + unfold end_at. by rewrite last_snoc.
    + apply (cyc_rotate [(c, v + u)]). subst b. by apply cyc_merge.
    + by destruct L.
    + intros p. unfold covered. rewrite Exists_cons, !Exists_app, !Exists_cons, Exists_nil. unfold byte_of. simpl.
      unfold SLOB_UNIT in *. split; [intros [?|[?|?]]|intros [?|[?|[?|?]]]]; auto; try done; [|right; left; lia..].
      destruct (decide (p < b)); [right; right; left; lia|left; lia].
    + intros p ? ?. unfold set_cell. simpl. by rewrite !upd_ne by done.
    + rewrite length_app. simpl. lia.
    + done.
    + done.
    + done.
    + intros x [Hx|Hx]%elem_of_app Hxn; [set_solver|]. apply list_elem_of_singleton in Hx as ->. done.
    + exists (c, v + u). split; [set_solver|]. simpl. lia.
  - eexists _, ((b, u) :: L ++ [(c, v)]). split; [reflexivity|]. split_and!.
    + cbn [chain]. split_and!.
      1: { unfold next, set_cell. simpl. by rewrite upd_eq. }
      1: { unfold units, set_cell in *. simpl. by rewrite upd_ne by lia. }
      eapply chain_move; [apply Hch| | |]; unfold units, next, set_cell in *; simpl.
      * by rewrite upd_ne by lia.
      * rewrite upd_ne by lia. by apply chain_last in Hch.
      * intros x Hx. destruct (Hcl x) as (? & ? & ? & ?); [by right|]. by rewrite !upd_ne by lia.
    + unfold end_at. by rewrite app_comm_cons, last_snoc.
    + done.
    + done.
    + done.
    + intros p ? ?. unfold set_cell. simpl. by rewrite !upd_ne by done.
    + simpl. rewrite length_app. simpl. lia.
    + done.
    + done.
    + done.
    + intros x Hx _. by right.
    + exists (b, u). split; [by left|done].
Qed.

(** The block before [b] does not begin where [b] ends. *)
Lemma not_around b u x L c : cyc ((b, u) :: (x :: L) ++ [c]) → b + SLOB_UNIT * u ≠ c.1.
Proof.
  intros Hc. destruct (cyc_elem _ (b, u) Hc) as [_ Hu]; [by left|].
  apply cyc_cons in Hc as (l1 & l2 & E & Hs). simpl in Hu.
  destruct l1 as [|c' l1 _] using rev_ind.
  - rewrite app_nil_r in E. subst l2. rewrite app_nil_l in Hs. destruct Hs as (_ & _ & Hs).
    pose proof (ascending_below _ _ _ x Hs ltac:(by left)). simpl in Hs. destruct x as [n v].
    destruct Hs as (? & ? & _). simpl in *. unfold SLOB_UNIT in *. lia.
  - rewrite app_assoc in E. apply app_inj_tail in E as [_ <-]. rewrite <-app_assoc in Hs.
    assert (c.1 < b) by (eapply (ascending_lt _ l1 c ((b, u) :: l2) (b, u)); [done|by left]).
    unfold SLOB_UNIT in *. lia.
Qed.

Lemma link_spec s b u L c g :
  chain s c.1 (L ++ [c]) → cyc ((b, u) :: L ++ [c]) → units s b = u →
  Forall (λ x, x.2 < 2 ^ 29) ((b, u) :: L ++ [c]) →
  g ∈ L ++ [c] → b + SLOB_UNIT * u ≠ g.1 → g.1 + SLOB_UNIT * g.2 ≠ b →
  ∃ s' t', (link_next b c.1;; link_prev b c.1;; modify (set_slobfree c.1)) s = Ok (tt, s') ∧
    free_ring s' t' ∧ g ∈ t' ∧ (∀ p, covered t' p ↔ covered ((b, u) :: L ++ [c]) p) ∧
    (∀ p, ¬ covered t' p → cell s' p = cell s p) ∧ bigblocks s' = bigblocks s ∧ pages s' = pages s ∧
    (length t' ≤ S (length (L ++ [c])))%nat ∧ ∃ y, y ∈ t' ∧ u ≤ y.2.
Proof.
  intros Hch Hcyc Hu Hsz Hg Hg1 Hg2.
  assert (b + SLOB_UNIT * u ≠ c.1) as Hne.
  { destruct L as [|x L]; [apply list_elem_of_singleton in Hg; by subst|by eapply not_around]. }
  destruct (link_next_spec s b u L c Hch Hcyc Hu Hne Hsz)
    as (s1 & u1 & L1 & E1 & Hu1 & Hch1 & Hcyc1 & Hle & Hcov1 & Hf1 & Hl1 & Esf & Ebb & Epg & Hin1).
  destruct c as [c v]. assert (v < 2 ^ 29) as Hv.
  { rewrite Forall_forall in Hsz. apply (Hsz (c, v)). set_solver. }
  destruct (link_prev_spec s1 b u1 L1 c v Hch1 Hcyc1 Hu1 ltac:(lia) Hv)
    as (s2 & t' & E2 & Hch2 & He2 & Hcyc2 & Hne2 & Hcov2 & Hf2 & Hl2 & Esf2 & Ebb2 & Epg2 & Hin2 & y & Hy & Hyu).
  simpl. rewrite (bind_ok _ _ _ _ _ E1), (bind_ok _ _ _ _ _ E2).
  exists (set_slobfree c s2), t'. split; [done|].
  destruct (cyc_elem _ (b, u1) Hcyc1) as [_ ?]; [by left|].
  destruct (cyc_elem _ (c, v) Hcyc1) as [_ ?]; [set_solver|]. simpl in *.
  split; [split; [by eapply chain_frame; [..|exact Hch2]|done..]|]. split_and!.
  - apply Hin2; [|done]. by apply Hin1.
  - intros p. by rewrite Hcov2, Hcov1.
  - intros p Hp. rewrite Hcov2 in Hp. rewrite Hf2, Hf1; [done|..]; intros ->; apply Hp.
    + eapply covered_elem; [by left|]. unfold byte_of, SLOB_UNIT. simpl. lia.
    + eapply covered_elem; [by left|]. unfold byte_of, SLOB_UNIT. simpl. lia.
    + eapply (covered_elem _ (c, v)); [set_solver|]. unfold byte_of, SLOB_UNIT. simpl. lia.
    + eapply (covered_elem _ (c, v)); [set_solver|]. unfold byte_of, SLOB_UNIT. simpl. lia.
  - congruence.
  - congruence.
  - rewrite length_app. simpl. lia.
  - exists y. split; [done|lia].
Qed.

Lemma chain_store s s' b u a t :
  chain s a t → cyc t → t ≠ [] → end_at a t = a → 0 < u → Forall (sep (b, u)) t →
  (∀ p, p ≠ b → cell s' p = cell s p) → chain s' a t.
Proof.
  intros Hch Hcyc Hne He Hu Hsep Hs.
  assert (∀ x, x ∈ t → b ≠ x.1 ∧ b ≠ x.1 + 8) as Hcl.
  { intros x Hx. rewrite Forall_forall in Hsep. destruct (cyc_elem _ x Hcyc Hx).
    destruct (sep_cells (b, u) x) as (? & ? & _); [auto..|]. done. }
  eapply chain_frame; [| | |done]; unfold next, units.
  - apply Hs. destruct t as [|x t _] using rev_ind; [done|]. unfold end_at in He. rewrite last_snoc in He.
    simpl in He. subst a. destruct (Hcl x); [set_solver|]. done.
  - intros x Hx. apply Hs. destruct (Hcl x); [done|]. done.
  - intros x Hx. apply Hs. destruct (Hcl x); [|done]. by apply removelast_sub.
Qed.

(** [slob_free] puts a block back: the free bytes are the old ones and those of
    the block, only the headers of free blocks are written, and the guard block
    [g], which the block does not touch, stays in the ring. *)
Lemma slob_free_spec s t b u size fuel g :
  free_ring s t → u = (if size =? 0 then units s b else SLOB_UNITS size) → 0 < b → 0 < u →
  Forall (sep (b, u)) t → Forall (λ x, x.2 < 2 ^ 29) ((b, u) :: t) →
  g ∈ t → b + SLOB_UNIT * u ≠ g.1 → g.1 + SLOB_UNIT * g.2 ≠ b → (length t ≤ fuel)%nat →
  ∃ s' t', slob_free fuel b size s = Ok (tt, s') ∧ free_ring s' t' ∧ g ∈ t' ∧
    (∀ p, covered t' p ↔ covered t p ∨ byte_of p (b, u)) ∧
    (∀ p, ¬ covered t' p → cell s' p = cell s p) ∧ bigblocks s' = bigblocks s ∧ pages s' = pages s ∧
    (length t' ≤ S (length t))%nat ∧ ∃ y, y ∈ t' ∧ u ≤ y.2.
Proof.
  intros [Hch He Hne Hcyc] Hu Hb Hu0 Hsep Hsz Hg Hg1 Hg2 Hf.
  unfold slob_free. rewrite (proj2 (Z.eqb_neq b 0)) by lia.
  set (s1 := if negb (size =? 0) then set_cell b (SLOB_UNITS size) s else s).
  assert (units s1 b = u) as Hu1.
  { subst s1 u. destruct (size =? 0); simpl; [done|]. unfold units, set_cell. simpl. by rewrite upd_eq. }
  assert (∀ p, p ≠ b → cell s1 p = cell s p) as Hs1.
  { intros p Hp. subst s1. destruct (size =? 0); simpl; [done|]. by rewrite upd_ne by done. }
  assert (chain s1 (slobfree s) t) as Hch1.
  { by eapply chain_store. }
  assert (slobfree s1 = slobfree s ∧ bigblocks s1 = bigblocks s ∧ pages s1 = pages s) as (Esf & Ebb & Epg).
  { subst s1. by destruct (size =? 0). }
  rewrite (bind_ok _ _ _ tt s1) by (subst s1; by destruct (size =? 0)). msteps. rewrite Esf.
  destruct (ring_fits b u t Hcyc Hne Hu0 Hsep) as (l1 & x & l2 & El & Hfit).
  rewrite (end_at_ne 0 (slobfree s)), He in Hfit by done.
  destruct (slob_free_walk_spec s1 b (slobfree s) l1 x l2 fuel) as (k1 & y & k2 & Ek & Hfit' & Ew).
  { by rewrite <-El. } { done. }
  { rewrite El, length_app in Hf. simpl in Hf. lia. }
  rewrite (bind_ok _ _ _ _ _ Ew). msteps. rewrite Ek in El. clear Ek Hfit Ew. subst t.
  destruct (chain_rotate s1 (slobfree s) k1 (y :: k2) Hch1 He) as [Hch2 He2].
  assert (∃ L c, (y :: k2) ++ k1 = L ++ [c] ∧ c.1 = end_at (slobfree s) k1) as (L & c & EL & Ec).
  { destruct ((y :: k2) ++ k1) as [|c L _] eqn:EL using rev_ind; [done|]. exists L, c. split; [done|].
    rewrite <-He2. unfold end_at. by rewrite last_snoc. }
  rewrite <-Ec in *. rewrite EL in Hch2.
  assert (∀ x, x ∈ L ++ [c] ↔ x ∈ k1 ++ y :: k2) as Hin. { intros w. rewrite <-EL, !elem_of_app. tauto. }
  assert (length (L ++ [c]) = length (k1 ++ y :: k2)) as Hlen. { rewrite <-EL, !length_app. lia. }
  destruct (link_spec s1 b u L c g) as (s' & t' & E & Hr & Hgt & Hcov & Hfr & ? & ? & Hl & Hy).
  - done.
  - rewrite <-EL. eapply (cyc_insert b u y c (k2 ++ k1)).
    + by apply (cyc_rotate k1 (y :: k2)).
    + change (last ((y :: k2) ++ k1) = Some c). rewrite EL. apply last_snoc.
    + done.
    + lia.
    + done.
    + change (Forall (sep (b, u)) ((y :: k2) ++ k1)). rewrite EL. apply Forall_forall. intros z Hz. rewrite Forall_forall in Hsep. by apply Hsep, Hin.
  - done.
  - apply Forall_forall. intros z [->|Hz]%elem_of_cons; rewrite Forall_forall in Hsz; apply Hsz; [by left|].
    right. by apply Hin.
  - by apply Hin.
  - done.
  - done.
  - exists s', t'. split; [exact E|]. split; [done|]. split_and!.
    + done.
    + intros p. rewrite Hcov. unfold covered. rewrite Exists_cons, <-EL, !Exists_app, !Exists_cons. tauto.
    + intros p Hp. rewrite Hfr by done. apply Hs1. intros ->. apply Hp. rewrite Hcov.
      eapply covered_elem; [by left|]. unfold byte_of, SLOB_UNIT. simpl. lia.
    + congruence.
    + congruence.
    + lia.
    + done.
Qed.

(** ** Allocation *)

(** Taking [n] units from the block [c], the successor of [q] in the ring. *)
Lemma slob_take_rotated s c u n L q w :
  chain s q ((c, u) :: L ++ [(q, w)]) → cyc ((c, u) :: L ++ [(q, w)]) → 0 < n ≤ u → u < 2 ^ 29 →
  let t' := (if n <? u then [(c + SLOB_UNIT * n, u - n)] else []) ++ L ++ [(q, w)] in
  ∃ s', slob_take n q c 0 0 s = Ok (c, s') ∧ free_ring s' t' ∧ units s' c = n ∧
    (∀ p, ¬ covered ((c, u) :: L ++ [(q, w)]) p → cell s' p = cell s p) ∧
    bigblocks s' = bigblocks s ∧ pages s' = pages s.
Proof.
  intros Hch Hcyc Hn Hu t'. pose proof Hch as (_ & Hcu & Hch').
  assert (∀ x, x ∈ L ++ [(q, w)] → c ≠ x.1 ∧ c ≠ x.1 + 8 ∧ c + 8 ≠ x.1 ∧ c + 8 ≠ x.1 + 8) as Hcl.
  { intros x Hx. by apply (ring_cells (c, u) (L ++ [(q, w)]) x). }
  assert (cyc ((q, w) :: (c, u) :: L)) as Hcycq.
  { apply (cyc_rotate ((c, u) :: L) [(q, w)] Hcyc). }
  assert (∀ x, x ∈ (c, u) :: L → q ≠ x.1 ∧ q ≠ x.1 + 8 ∧ q + 8 ≠ x.1 ∧ q + 8 ≠ x.1 + 8) as Hql.
  { intros x Hx. by apply (ring_cells (q, w) ((c, u) :: L) x). }
  destruct (Hql (c, u)) as (? & ? & ? & ?); [by left|]. simpl in *.
  pose proof (cyc_sep _ _ Hcyc) as Hsep. rewrite Forall_forall in Hsep.
  destruct (cyc_elem _ (q, w) Hcycq) as [_ ?]; [by left|]. simpl in *.
  pose proof (chain_last _ _ _ _ Hch') as Hqw. simpl in Hqw.
  assert (byte_of q (q, w) ∧ byte_of (q + 8) (q, w)) as [Hbq Hbq8] by (unfold byte_of, SLOB_UNIT; simpl; lia).
  unfold slob_take. simpl. msteps. rewrite Hcu. subst t'.
  destruct (Z.eqb_spec u n) as [->|Hne].
  - rewrite Z.ltb_irrefl. simpl. eexists. split; [reflexivity|]. split; [split|split_and!]; simpl.
    + eapply chain_move; [apply Hch'| | |]; unfold units, next, set_cell, set_slobfree; simpl.
      * by rewrite upd_eq.
      * by rewrite upd_ne by lia.
      * intros x Hx. destruct (Hql x) as (? & ? & ? & ?); [by right|]. by rewrite !upd_ne by lia.
    + unfold end_at. by rewrite last_snoc.
    + by destruct L.
    + by eapply cyc_delete.
    + unfold units, set_slobfree, set_cell in *. simpl. by rewrite upd_ne by lia.
    + intros p Hp. rewrite upd_ne; [done|]. intros <-. apply Hp. eapply covered_elem; [|exact Hbq8]. set_solver.
    + done.
    + done.
  - rewrite (proj2 (Z.ltb_lt n u)) by lia. simpl.
    assert (cyc ((c + SLOB_UNIT * n, u - n) :: L ++ [(q, w)])) as Hcycr.
    { eapply cyc_shrink; [exact Hcyc|unfold SLOB_UNIT; lia..]. }
    assert (∀ x, x ∈ L ++ [(q, w)] → let r := c + SLOB_UNIT * n in
      r ≠ x.1 ∧ r ≠ x.1 + 8 ∧ r + 8 ≠ x.1 ∧ r + 8 ≠ x.1 + 8) as Hrl.
    { intros x Hx. by apply (ring_cells (c + SLOB_UNIT * n, u - n) (L ++ [(q, w)]) x). }
    destruct (Hrl (q, w)) as (? & ? & ? & ?); [set_solver|]. simpl in *.
    assert (c + SLOB_UNIT * n ≠ c ∧ c + SLOB_UNIT * n ≠ c + 8 ∧ c + SLOB_UNIT * n + 8 ≠ c) as (? & ? & ?)
      by (unfold SLOB_UNIT; lia).
    set (r := c + SLOB_UNIT * n) in *.
    exists (set_slobfree q (set_cell c n (set_cell (r + 8) (next s c) (set_cell r (u - n) (set_cell (q + 8) r s))))).
    split; [|split; [split|split_and!]]; simpl.
    + unfold set_next, set_units. msteps. unfold units, next in *. simpl.
      by rewrite !upd_ne, Hcu, s32_small by lia.
    + split_and!.
      1: { unfold next. simpl. by rewrite (upd_ne c), (upd_ne (r + 8)), (upd_ne r), upd_eq by lia. }
      1: { unfold units. simpl. by rewrite (upd_ne c), (upd_ne (r + 8)), upd_eq by lia. }
      eapply chain_move; [apply Hch'| | |]; unfold units, next, set_cell, set_slobfree; simpl.
      * by rewrite upd_ne, upd_eq by lia.
      * by rewrite !upd_ne by lia.
      * intros x Hx. destruct (Hql x) as (? & ? & ? & ?); [by right|].
        destruct (Hrl x) as (? & ? & ? & ?); [set_solver|]. destruct (Hcl x) as (? & ? & ? & ?); [set_solver|].
        by rewrite !upd_ne by lia.
    + unfold end_at. by rewrite app_comm_cons, last_snoc.
    + done.
    + done.
    + unfold units. simpl. by rewrite upd_eq.
    + intros p Hp. assert (∀ d, byte_of d (c, u) → d ≠ p) as Hd.
      { intros d Hd ->. apply Hp. eapply covered_elem; [|exact Hd]. by left. }
      rewrite !upd_ne; [done|..].
      * intros <-. apply Hp. eapply covered_elem; [|exact Hbq8]. set_solver.
      * apply Hd. unfold byte_of, r, SLOB_UNIT. simpl. lia.
      * apply Hd. unfold byte_of, r, SLOB_UNIT. simpl. lia.
      * apply Hd. unfold byte_of, r, SLOB_UNIT. simpl. lia.
    + done.
    + done.
Qed.

Lemma slob_take_spec s t1 c u t2 n g :
  free_ring s (t1 ++ (c, u) :: t2) → 0 < n ≤ u → u < 2 ^ 29 → g ∈ t1 ++ t2 →
  ∃ s' t', slob_take n (end_at (slobfree s) t1) c 0 0 s = Ok (c, s') ∧ free_ring s' t' ∧ g ∈ t' ∧
    (∀ p, covered (t1 ++ (c, u) :: t2) p ↔ covered t' p ∨ byte_of p (c, n)) ∧ Forall (sep (c, n)) t' ∧
    units s' c = n ∧ (∀ p, ¬ covered (t1 ++ (c, u) :: t2) p → cell s' p = cell s p) ∧
    bigblocks s' = bigblocks s ∧ pages s' = pages s.
Proof.
  intros [Hch He _ Hcyc] Hn Hu Hg.
  destruct (chain_rotate s (slobfree s) t1 ((c, u) :: t2) Hch He) as [Hch2 He2].
  assert (∃ L q w, t2 ++ t1 = L ++ [(q, w)] ∧ q = end_at (slobfree s) t1) as (L & q & w & EL & Eq).
  { destruct (t2 ++ t1) as [|[q w] L _] eqn:EL using rev_ind.
    - apply app_eq_nil in EL as [-> ->]. by apply not_elem_of_nil in Hg.
    - exists L, q, w. split; [done|]. rewrite <-He2. simpl. rewrite EL. unfold end_at. by rewrite app_comm_cons, last_snoc. }
  rewrite <-Eq in *. simpl in Hch2. rewrite EL in Hch2. apply cyc_rotate in Hcyc. simpl in Hcyc. rewrite EL in Hcyc.
  destruct (slob_take_rotated s c u n L q w Hch2 Hcyc Hn Hu) as (s' & E & Hr & Hun & Hfr & Hb & Hp).
  rewrite <-EL in *.
  assert (∀ p, covered (t1 ++ (c, u) :: t2) p ↔ covered ((c, u) :: t2 ++ t1) p) as Hrot.
  { intros p. unfold covered. rewrite Exists_cons, !Exists_app, Exists_cons. tauto. }
  pose proof (cyc_sep _ _ Hcyc) as Hsep.
  eexists s', _. split; [exact E|]. split; [exact Hr|]. split_and!.
  - apply elem_of_app. right. apply elem_of_app in Hg as [?|?]; apply elem_of_app; auto.
  - intros p. rewrite Hrot. unfold covered. rewrite Exists_cons, !Exists_app.
    assert (byte_of p (c, u) ↔
      Exists (byte_of p) (if n <? u then [(c + SLOB_UNIT * n, u - n)] else []) ∨ byte_of p (c, n)); [|tauto].
    destruct (Z.ltb_spec n u); rewrite ?Exists_cons, Exists_nil; unfold byte_of, SLOB_UNIT; simpl;
      [|assert (n = u) as -> by lia; tauto].
    destruct (decide (p < c + 16 * n)); intuition lia.
  - apply Forall_app. split.
    + destruct (n <? u); [|done]. apply Forall_singleton. left. simpl. lia.
    + eapply Forall_impl; [exact Hsep|]. intros x. unfold sep, SLOB_UNIT. simpl. lia.
  - done.
  - intros p. rewrite Hrot. apply Hfr.
  - done.
  - done.
Qed.

Lemma ring_last_unique s t1 x t2 : free_ring s (t1 ++ x :: t2) → (x.1 =? slobfree s) = bool_decide (t2 = []).
Proof.
  intros [_ He _ Hcyc]. destruct t2 as [|z t2 _] using rev_ind.
  - rewrite bool_decide_eq_true_2 by done. unfold end_at in He. rewrite last_snoc in He. simpl in He. by apply Z.eqb_eq.
  - rewrite bool_decide_eq_false_2 by (by destruct t2). apply Z.eqb_neq. rewrite <-He. unfold end_at.
    rewrite app_comm_cons, app_assoc, last_snoc. simpl. apply cyc_rotate in Hcyc. simpl in Hcyc.
    destruct (ring_cells x ((t2 ++ [z]) ++ t1) z Hcyc) as [? _]; [set_solver|done].
Qed.

Lemma ring_next s t1 x y t2 : free_ring s (t1 ++ x :: y :: t2) → next s x.1 = y.1.
Proof. intros [Hch _ _ _]. rewrite chain_app in Hch. destruct x, y. simpl in *. tauto. Qed.

Lemma ring_units s t x : free_ring s t → x ∈ t → units s x.1 = x.2.
Proof.
  intros [Hch _ _ _] (l1 & l2 & ->)%list_elem_of_split. rewrite chain_app in Hch. destruct x. simpl in *. tauto.
Qed.

(** The loop of [slob_alloc] stops at the first block that is large enough ... *)
Lemma alloc_loop_fit (alloc_pages : Z → M P (option Z)) s t1 x t2 size n fuel :
  free_ring s (t1 ++ x :: t2) → Exists (λ y, n ≤ y.2) (x :: t2) → (length (x :: t2) ≤ fuel)%nat →
  ∃ k1 y k2, t1 ++ x :: t2 = k1 ++ y :: k2 ∧ n ≤ y.2 ∧
    slob_alloc_loop alloc_pages fuel size n 0 (end_at (slobfree s) t1) x.1 s =
    (b ← slob_take n (end_at (slobfree s) k1) y.1 0 0; mret (Some b)) s.
Proof.
  revert t1 x fuel. induction t2 as [|z t2 IH]; intros t1 x fuel Hr Hex Hf;
    (destruct fuel as [|fuel]; simpl in Hf; [lia|]); cbn [slob_alloc_loop]; simpl; msteps;
    rewrite Z.add_0_r, (ring_units _ _ x Hr) by set_solver; destruct (Z.leb_spec n x.2) as [Hle|Hlt].
  - by exists t1, x, [].
  - rewrite Exists_cons, Exists_nil in Hex. lia.
  - by exists t1, x, (z :: t2).
  - msteps. rewrite (ring_last_unique _ _ _ _ Hr), bool_decide_eq_false_2 by done. msteps.
    rewrite (ring_next _ _ _ _ _ Hr). apply Exists_cons in Hex as [?|Hex]; [lia|].
    destruct (IH (t1 ++ [x]) z fuel) as (k1 & y & k2 & E & Hy & El).
    + by rewrite <-app_assoc.
    + done.
    + simpl. lia.
    + exists k1, y, k2. rewrite <-app_assoc in E. split_and!; [done|done|]. rewrite end_at_app in El. exact El.
Qed.

(** ... and asks for a page when it has seen them all. *)
Lemma alloc_loop_grow (alloc_pages : Z → M P (option Z)) s t1 x t2 size n fuel :
  free_ring s (t1 ++ x :: t2) → Forall (λ y, y.2 < n) (x :: t2) → (length (x :: t2) ≤ fuel)%nat → size ≠ PGSIZE →
  ∃ f, fuel = (length (x :: t2) + f)%nat ∧
    slob_alloc_loop alloc_pages fuel size n 0 (end_at (slobfree s) t1) x.1 s =
    (page ← __slob_get_free_pages alloc_pages 0;
     match page with
     | None => mret None
     | Some page =>
       slob_free (S f) page PGSIZE;;
       cur ← gets slobfree;
       nxt ← gets (λ s, next s cur);
       slob_alloc_loop alloc_pages f size n 0 cur nxt
     end) s.
Proof.
  revert t1 x fuel. induction t2 as [|z t2 IH]; intros t1 x fuel Hr Hall Hf Hsz;
    (destruct fuel as [|fuel]; simpl in Hf; [lia|]); cbn [slob_alloc_loop]; simpl; msteps;
    apply Forall_cons in Hall as [Hx Hall];
    rewrite Z.add_0_r, (ring_units _ _ x Hr) by set_solver; rewrite (proj2 (Z.leb_gt n x.2)) by lia; msteps;
    rewrite (ring_last_unique _ _ _ _ Hr).
  - rewrite bool_decide_eq_true_2 by done. rewrite (proj2 (Z.eqb_neq size PGSIZE)) by done. by exists fuel.
  - rewrite bool_decide_eq_false_2 by done. msteps. rewrite (ring_next _ _ _ _ _ Hr).
    destruct (IH (t1 ++ [x]) z fuel) as (f & E & El); [by rewrite <-app_assoc|done|simpl; lia|done|].
    exists f. split; [simpl in *; lia|]. rewrite end_at_app in El. exact El.
Qed.
End heap.

(** ** The page allocator as the heap sees it *)

(** The kernel address of a page. *)
Definition kva (page : Z) : Z := 0xFFFFFFFFC0000000 + PGSIZE * page.

Lemma page2kva_spec {S} (s : S) p : 0 ≤ p < npage - nbase → page2kva p s = Ok (kva p, s).
Proof.
  intros Hp. unfold page2kva, page2pa, page2ppn, PPN, PTXSHIFT, npage, nbase in *.
  rewrite Z.shiftl_mul_pow2, Z.shiftr_div_pow2, Z.div_mul by lia.
  rewrite bind_assert by (apply Z.ltb_lt; lia). unfold va_pa_offset, KERNBASE, kva, PGSIZE.
  rewrite u64_small by lia. unfold mret, M_ret. do 2 f_equal. lia.
Qed.

(** What the heap relies on: a run of pages that is handed out shares no page
    with those handed out before, and lies above the page [low] and in memory. *)
Class PageLaws {P} (alloc_pages : Z → M P (option Z)) (low : Z) (inv : P → blocks → Prop) := {
  page_alloc p ps n : inv p ps → 0 < n → ∃ r p', alloc_pages n p = Ok (r, p') ∧
    inv p' (match r with Some b => (b, n) :: ps | None => ps end);
  page_apart p ps : inv p ps → pairwise_apart ps;
  page_range p ps x : inv p ps → x ∈ ps → low ≤ x.1 ∧ 0 < x.2 ∧ x.1 + x.2 ≤ npage - nbase;
}.

Definition in_pages (ps : blocks) (p : Z) : Prop := ∃ x, x ∈ ps ∧ kva x.1 ≤ p < kva (x.1 + x.2).

Section runs.
Context {P : Type} (alloc_pages : Z → M P (option Z)) (free_pages : Z → Z → M P unit).
Context (low : Z) (inv : P → blocks → Prop) `{!PageLaws alloc_pages low inv}.
(** The static block [arena] lies below the pages, with a gap. *)
Context (arena : Z) (Harena : 0 < arena) (Hgap : arena + SLOB_UNIT < kva low) (Hlow : 0 ≤ low).
Notation st := (kheap P).

(** The invariant of a run: [t] are the free blocks, [held] the allocated ones
    (headers included), [ps] the pages of the heap. *)
Record heap_inv (s : st) (t held : slobs) (ps : blocks) : Prop := HeapInv {
  hi_ring : free_ring s t;
  hi_arena : (arena, 1) ∈ t;
  hi_held : Forall (λ x, 0 < x.2 ∧ units s x.1 = x.2 ∧ Forall (sep x) t) held;
  hi_sep : ForallOrdPairs sep held;
  hi_mem : ∀ x, x ∈ t ++ held → x = (arena, 1) ∨ ∀ p, byte_of p x → in_pages ps p;
  hi_big : bigblocks s = 0;
  hi_pages : inv (pages s) ps;
}.

Lemma in_pages_range p ps a : inv p ps → in_pages ps a → kva low ≤ a < kva (npage - nbase).
Proof.
  intros Hi (x & Hx & Ha). destruct (page_range _ _ _ Hi Hx) as (? & ? & ?).
  unfold kva, PGSIZE, npage, nbase in *. lia.
Qed.

Lemma kblock_range s t held ps x :
  heap_inv s t held ps → x ∈ t ++ held → x ≠ (arena, 1) →
  arena + SLOB_UNIT < x.1 ∧ 0 < x.2 < 2 ^ 29.
Proof.
  intros Hi Hx Hne. assert (0 < x.2) as Hx2.
  { apply elem_of_app in Hx as [Hx|Hx].
    - by destruct (cyc_elem _ _ (fr_cyc _ _ (hi_ring _ _ _ _ Hi)) Hx).
    - pose proof (hi_held _ _ _ _ Hi) as Hh. rewrite Forall_forall in Hh. by apply Hh. }
  destruct (hi_mem _ _ _ _ Hi x Hx) as [?|Hm]; [done|].
  pose proof (in_pages_range _ _ _ (hi_pages _ _ _ _ Hi) (Hm x.1 ltac:(unfold byte_of, SLOB_UNIT; lia))).
  pose proof (in_pages_range _ _ _ (hi_pages _ _ _ _ Hi) (Hm (x.1 + SLOB_UNIT * x.2 - 1) ltac:(unfold byte_of, SLOB_UNIT; lia))).
  unfold kva, PGSIZE, npage, nbase, SLOB_UNIT in *. lia.
Qed.

(** Blocks that share no byte are apart. *)
Lemma sep_disjoint x y : 0 < x.2 → 0 < y.2 → (∀ p, byte_of p x → byte_of p y → False) → sep x y.
Proof.
  intros Hx Hy H. unfold sep. destruct (decide (x.1 ≤ y.1)) as [Hle|Hgt].
  - left. destruct (decide (x.1 + SLOB_UNIT * x.2 ≤ y.1)) as [|Hn]; [done|]. exfalso.
    apply (H y.1); unfold byte_of, SLOB_UNIT in *; lia.
  - right. destruct (decide (y.1 + SLOB_UNIT * y.2 ≤ x.1)) as [|Hn]; [done|]. exfalso.
    apply (H x.1); unfold byte_of, SLOB_UNIT in *; lia.
Qed.

Lemma sep_covered x t : 0 < x.2 → Forall (λ y, 0 < y.2) t → (∀ p, byte_of p x → ¬ covered t p) → Forall (sep x) t.
Proof.
  intros Hx Ht H. apply Forall_forall. intros y Hy. rewrite Forall_forall in Ht.
  apply sep_disjoint; [done|by apply Ht|]. intros p Hp Hq. apply (H p Hp). by eapply covered_elem.
Qed.

Lemma ring_pos (s : st) t : free_ring s t → Forall (λ y, 0 < y.2) t.
Proof. intros Hr. apply Forall_forall. intros y Hy. by destruct (cyc_elem _ _ (fr_cyc _ _ Hr) Hy). Qed.

(** A held block does not meet the free bytes, and its header survives a change
    of the free list that leaves it alone. *)
Lemma held_not_covered s t held ps x p :
  heap_inv s t held ps → x ∈ held → byte_of p x → ¬ covered t p.
Proof.
  intros Hi Hx Hp Hc. pose proof (hi_held _ _ _ _ Hi) as Hh. rewrite Forall_forall in Hh.
  destruct (Hh x Hx) as (_ & _ & Hs). unfold covered in Hc. rewrite Exists_exists in Hc.
  destruct Hc as (y & Hy & Hpy). rewrite Forall_forall in Hs. specialize (Hs y Hy).
  unfold sep, byte_of in *. lia.
Qed.

Lemma ring_sep (s : st) t x y : free_ring s t → x ∈ t → y ∈ t → x ≠ y → sep x y.
Proof.
  intros Hr (l1 & l2 & ->)%list_elem_of_split Hy Hne.
  pose proof (fr_cyc _ _ Hr) as Hc. apply cyc_rotate in Hc. simpl in Hc. apply cyc_sep in Hc.
  rewrite Forall_forall in Hc. apply Hc. apply elem_of_app in Hy as [Hy|[->|Hy]%elem_of_cons]; [set_solver|done|set_solver].
Qed.

(** The blocks of a new ring whose bytes come from pages lie in pages. *)
Lemma ring_in_pages (s : st) t' (Q : Z → Prop) x :
  free_ring s t' → (arena, 1) ∈ t' → x ∈ t' → (∀ p, covered t' p → byte_of p (arena, 1) ∨ Q p) →
  x = (arena, 1) ∨ ∀ p, byte_of p x → Q p.
Proof.
  intros Hr Ha Hx H. destruct (decide (x = (arena, 1))) as [|Hne]; [by left|]. right. intros p Hp.
  destruct (H p) as [Hq|]; [by eapply covered_elem| |done].
  pose proof (ring_sep _ _ _ _ Hr Hx Ha Hne). unfold sep, byte_of in *. simpl in *. lia.
Qed.

Lemma covered_in_pages s t held ps p :
  heap_inv s t held ps → covered t p → byte_of p (arena, 1) ∨ in_pages ps p.
Proof.
  intros Hi (y & Hy & Hp)%Exists_exists. destruct (hi_mem _ _ _ _ Hi y) as [->|H]; [set_solver|by left|]. right. by apply H.
Qed.

(** Giving a block to the free list. *)
Lemma inv_slob_free s t held ps b u size fuel :
  heap_inv s t held ps → u = (if size =? 0 then units s b else SLOB_UNITS size) → 0 < u →
  (∀ p, byte_of p (b, u) → in_pages ps p) → Forall (sep (b, u)) t → Forall (sep (b, u)) held →
  (length t ≤ fuel)%nat →
  ∃ s' t', slob_free fuel b size s = Ok (tt, s') ∧ heap_inv s' t' held ps ∧
    (length t' ≤ S (length t))%nat ∧ ∃ y, y ∈ t' ∧ u ≤ y.2.
Proof.
  intros Hi Hu Hu0 Hm Ht Hh Hf. pose proof (hi_pages _ _ _ _ Hi) as Hp.
  pose proof (in_pages_range _ _ _ Hp (Hm b ltac:(unfold byte_of, SLOB_UNIT; simpl; lia))) as Hr1.
  pose proof (in_pages_range _ _ _ Hp (Hm (b + SLOB_UNIT * u - 1) ltac:(unfold byte_of, SLOB_UNIT; simpl; lia))) as Hr2.
  unfold kva, PGSIZE, npage, nbase in Hr1, Hr2, Hgap.
  destruct (slob_free_spec s t b u size fuel (arena, 1)) as (s' & t' & E & Hr & Ha & Hcov & Hfr & Hb & Hpg & Hl & Hy).
  - apply (hi_ring _ _ _ _ Hi).
  - done.
  - lia.
  - done.
  - done.
  - constructor; [simpl; unfold SLOB_UNIT in *; lia|]. apply Forall_forall. intros x Hx.
    destruct (decide (x = (arena, 1))) as [->|Hne]; [simpl; lia|].
    destruct (kblock_range _ _ _ _ x Hi ltac:(set_solver) Hne). lia.
  - apply (hi_arena _ _ _ _ Hi).
  - simpl. unfold SLOB_UNIT in *. lia.
  - simpl. lia.
  - done.
  - assert (∀ x p, x ∈ held → byte_of p x → ¬ covered t' p) as Hnc.
    { intros x p Hx Hpx [Hc|Hc]%Hcov; [by eapply held_not_covered in Hc|].
      rewrite Forall_forall in Hh. specialize (Hh x Hx). unfold sep, byte_of in *. simpl in *. lia. }
    exists s', t'. split; [done|]. split; [|done]. destruct Hi as [Hi1 Hi2 Hi3 Hi4 Hi5 Hi6 Hi7]. split.
    + done.
    + done.
    + apply Forall_forall. intros x Hx. rewrite Forall_forall in Hi3. destruct (Hi3 x Hx) as (Hx0 & Hxu & _).
      split_and!; [done| |].
      * unfold units in *. rewrite Hfr; [done|]. eapply Hnc; [done|]. unfold byte_of, SLOB_UNIT. lia.
      * eapply sep_covered; [done|by eapply ring_pos|]. intros p. by apply Hnc.
    + done.
    + intros x [Hx|Hx]%elem_of_app; [|apply Hi5; set_solver].
      eapply (ring_in_pages s' t'); [done..|]. intros p [Hc|Hc]%Hcov; [|right; by apply Hm].
      by eapply (covered_in_pages s t held ps).
    + congruence.
    + congruence.
Qed.

(** Taking a block from it. *)
Lemma inv_slob_take s t1 c u t2 held ps n :
  heap_inv s (t1 ++ (c, u) :: t2) held ps → 1 < n ≤ u →
  ∃ s' t', slob_take n (end_at (slobfree s) t1) c 0 0 s = Ok (c, s') ∧ heap_inv s' t' ((c, n) :: held) ps ∧
    Forall (sep (c, n)) held.
Proof.
  intros Hi Hn. assert ((c, u) ≠ (arena, 1)) as Hca by (intros [= -> ->]; lia).
  destruct (kblock_range _ _ _ _ (c, u) Hi ltac:(set_solver) Hca) as [_ Hu]. simpl in Hu.
  assert ((arena, 1) ∈ t1 ++ t2) as Ha. { pose proof (hi_arena _ _ _ _ Hi). set_solver. }
  destruct (slob_take_spec s t1 c u t2 n (arena, 1)) as (s' & t' & E & Hr & Ha' & Hcov & Hsep & Hun & Hfr & Hb & Hpg);
    [apply (hi_ring _ _ _ _ Hi)|lia|lia|done|].
  assert (∀ x p, x ∈ held → byte_of p x → ¬ (covered t' p ∨ byte_of p (c, n))) as Hnc.
  { intros x p Hx Hpx. rewrite <-Hcov. by eapply held_not_covered. }
  assert (∀ x, x ∈ held → 0 < x.2) as Hpos.
  { intros x Hx. pose proof (hi_held _ _ _ _ Hi) as Hh. rewrite Forall_forall in Hh. by apply Hh. }
  assert (Forall (sep (c, n)) held) as Hheld.
  { apply Forall_forall. intros x Hx. apply sep_disjoint; [simpl; lia|by apply Hpos|].
    intros p Hp1 Hp2. eapply Hnc; [done|done|by right]. }
  exists s', t'. split; [done|]. split; [|done]. pose proof Hi as [Hi1 Hi2 Hi3 Hi4 Hi5 Hi6 Hi7]. split.
  - done.
  - done.
  - constructor; [simpl; split_and!; [lia|done|done]|]. apply Forall_forall. intros x Hx.
    rewrite Forall_forall in Hi3. destruct (Hi3 x Hx) as (Hx0 & Hxu & _). split_and!; [done| |].
    + unfold units in *. rewrite Hfr; [done|]. rewrite Hcov. eapply Hnc; [done|]. unfold byte_of, SLOB_UNIT. lia.
    + eapply sep_covered; [done|by eapply ring_pos|]. intros p Hp Hc. eapply Hnc; [done|done|by left].
  - by constructor.
  - intros x [Hx|[->|Hx]%elem_of_cons]%elem_of_app; [| |apply Hi5; set_solver].
    + eapply (ring_in_pages s' t'); [done..|]. intros p Hc.
      eapply (covered_in_pages s _ held ps); [done|]. apply Hcov. by left.
    + right. intros p Hp. destruct (Hi5 (c, u) ltac:(set_solver)) as [?|H]; [done|]. apply H.
      unfold byte_of, SLOB_UNIT in *. simpl in *. lia.
  - congruence.
  - congruence.
Qed.

Lemma SLOB_UNITS_range size : SLOB_UNIT < size ≤ PGSIZE → 1 < SLOB_UNITS size ≤ 256.
Proof.
  intros H. unfold SLOB_UNITS, SLOB_UNIT, PGSIZE in *.
  pose proof (Z.div_mod (size + 16 - 1) 16 ltac:(lia)). pose proof (Z.mod_pos_bound (size + 16 - 1) 16 ltac:(lia)). lia.
Qed.

(** New pages belong to the heap; the blocks stay as they are. *)
Lemma inv_pages s t held ps p' ps' :
  heap_inv s t held ps → inv p' ps' → (∀ x, x ∈ ps → x ∈ ps') → heap_inv (set_pages p' s) t held ps'.
Proof.
  intros [[Hch He Hne Hcyc] Hi2 Hi3 Hi4 Hi5 Hi6 Hi7] Hp Hsub. split.
  - split; [by eapply chain_frame; [..|exact Hch]|done..].
  - done.
  - done.
  - done.
  - intros x Hx. destruct (Hi5 x Hx) as [?|H]; [by left|]. right. intros p (y & Hy & ?)%H.
    exists y. split; [by apply Hsub|done].
  - done.
  - done.
Qed.

(** A new page is apart from every block. *)
Lemma new_page_sep s t held ps p p' :
  heap_inv s t held ps → inv p' ((p, 1) :: ps) → ∀ x, x ∈ t ++ held → sep (kva p, 256) x.
Proof.
  intros Hi Hp x Hx. destruct (page_range _ _ (p, 1) Hp) as (? & _ & ?); [by left|]. simpl in *.
  destruct (decide (x = (arena, 1))) as [->|Hne].
  { right. simpl. unfold kva, PGSIZE, SLOB_UNIT in *. lia. }
  destruct (kblock_range _ _ _ _ _ Hi Hx Hne) as [_ ?].
  destruct (hi_mem _ _ _ _ Hi x Hx) as [?|Hm]; [done|]. apply sep_disjoint; [simpl; lia|lia|].
  intros a Ha (y & Hy & Hay)%Hm. destruct (page_apart _ _ Hp) as [Hap _].
  rewrite Forall_forall in Hap. specialize (Hap y Hy). unfold apart, byte_of, kva, PGSIZE, SLOB_UNIT in *. simpl in *. lia.
Qed.

Lemma inv_grow s t held ps p p' fuel :
  heap_inv s t held ps → inv p' ((p, 1) :: ps) → (length t ≤ fuel)%nat →
  ∃ s' t', slob_free fuel (kva p) PGSIZE (set_pages p' s) = Ok (tt, s') ∧ heap_inv s' t' held ((p, 1) :: ps) ∧
    (length t' ≤ S (length t))%nat ∧ ∃ y, y ∈ t' ∧ 256 ≤ y.2.
Proof.
  intros Hi Hp Hf. pose proof (new_page_sep _ _ _ _ _ _ Hi Hp) as Hs.
  eapply (inv_slob_free _ t held); [|done|lia| | | |done].
  - eapply inv_pages; [done|done|]. intros. by right.
  - intros a Ha. exists (p, 1). split; [by left|]. unfold byte_of, kva, PGSIZE, SLOB_UNIT in *. simpl in *. lia.
  - apply Forall_forall. intros x Hx. apply Hs. set_solver.
  - apply Forall_forall. intros x Hx. apply Hs. set_solver.
Qed.

Lemma alloc_first_fit s t held ps size n fuel :
  heap_inv s t held ps → 1 < n → Exists (λ y, n ≤ y.2) t → (length t ≤ fuel)%nat →
  ∃ c s' t', slob_alloc_loop alloc_pages fuel size n 0 (slobfree s) (next s (slobfree s)) s = Ok (Some c, s') ∧
    heap_inv s' t' ((c, n) :: held) ps ∧ Forall (sep (c, n)) held.
Proof.
  intros Hi Hn Hex Hf. pose proof (hi_ring _ _ _ _ Hi) as Hr.
  destruct t as [|x t]; [by apply Exists_nil in Hex|].
  assert (next s (slobfree s) = x.1) as ->. { pose proof (fr_chain _ _ Hr) as Hc. destruct x. simpl in Hc. tauto. }
  destruct (alloc_loop_fit alloc_pages s [] x t size n fuel Hr Hex Hf) as (k1 & [c u] & k2 & E & Hu & El).
  simpl in E. rewrite E in Hi. destruct (inv_slob_take s k1 c u k2 held ps n Hi ltac:(simpl in *; lia)) as (s' & t' & Et & Hi' & Hs).
  exists c, s', t'. split_and!; [|done|done]. change (slobfree s) with (end_at (slobfree s) []) at 1. rewrite El.
  by rewrite (bind_ok _ _ _ _ _ Et).
Qed.

Lemma slob_alloc_inv s t held ps size fuel :
  heap_inv s t held ps → SLOB_UNIT < size < PGSIZE - SLOB_UNIT → (2 * length t + 2 ≤ fuel)%nat →
  ∃ r s' t' ps', slob_alloc alloc_pages fuel size 0 s = Ok (r, s') ∧
    match r with
    | Some c => heap_inv s' t' ((c, SLOB_UNITS size) :: held) ps' ∧ Forall (sep (c, SLOB_UNITS size)) held
    | None => heap_inv s' t' held ps'
    end.
Proof.
  intros Hi Hsz Hf. set (n := SLOB_UNITS size).
  assert (1 < n ≤ 256) as Hn by (apply SLOB_UNITS_range; unfold SLOB_UNIT, PGSIZE in *; lia).
  unfold slob_alloc. rewrite bind_assert by (apply Z.ltb_lt; unfold PGSIZE, SLOB_UNIT in *; lia). msteps. fold n.
  destruct (decide (Exists (λ y, n ≤ y.2) t)) as [Hex|Hno].
  { destruct (alloc_first_fit s t held ps size n fuel Hi ltac:(lia) Hex ltac:(lia)) as (c & s' & t' & E & ? & ?).
    by exists (Some c), s', t', ps. }
  pose proof (hi_ring _ _ _ _ Hi) as Hr. destruct t as [|x t]; [by destruct (fr_ne _ _ Hr)|].
  assert (next s (slobfree s) = x.1) as ->. { pose proof (fr_chain _ _ Hr) as Hc. destruct x. simpl in Hc. tauto. }
  destruct (alloc_loop_grow alloc_pages s [] x t size n fuel) as (f & Ef & El).
  { done. }
  { apply Forall_Exists_neg in Hno. eapply Forall_impl; [exact Hno|]. intros y. simpl. lia. }
  { lia. }
  { unfold PGSIZE, SLOB_UNIT in *. lia. }
  change (slobfree s) with (end_at (slobfree s) []) at 1. rewrite El. unfold __slob_get_free_pages.
  destruct (page_alloc (pages s) ps 1) as (r & p' & Ep & Hp); [apply (hi_pages _ _ _ _ Hi)|lia|].
  rewrite bind_assoc, (bind_ok _ _ _ r (set_pages p' s)) by (by apply zoom_ok).
  cbn [length] in Hf, Ef.
  destruct r as [p|].
  - destruct (page_range _ _ (p, 1) Hp) as (? & _ & ?); [by left|]. cbn [fst snd] in *.
    rewrite bind_assoc, (bind_ok _ _ _ _ _ (page2kva_spec _ p ltac:(lia))). msteps.
    destruct (inv_grow s (x :: t) held ps p p' (S f) Hi Hp ltac:(simpl; lia)) as (s1 & t1 & E1 & Hi1 & Hl & y & Hy & Hyu).
    rewrite (bind_ok _ _ _ _ _ E1). msteps.
    destruct (alloc_first_fit s1 t1 held ((p, 1) :: ps) size n f Hi1 ltac:(lia)) as (c & s' & t' & E & ? & ?).
    { apply Exists_exists. exists y. split; [done|lia]. }
    { simpl in *. lia. }
    rewrite E. by exists (Some c), s', t', ((p, 1) :: ps).
  - msteps. exists None, (set_pages p' s), (x :: t), ps. split; [done|]. by eapply inv_pages.
Qed.

(** ** More fuel does not change a result *)

Definition mono {S A} (m m' : M S A) : Prop := ∀ s r, m s = Ok r → m' s = Ok r.

Lemma mono_refl {S A} (m : M S A) : mono m m.
Proof. by intros s r. Qed.

Lemma mono_bind {S A B} (m m' : M S A) (k k' : A → M S B) :
  mono m m' → (∀ a, mono (k a) (k' a)) → mono (m ≫= k) (m' ≫= k').
Proof.
  intros Hm Hk s r (a & s1 & E1 & E2)%bind_ok_inv. rewrite (bind_ok _ _ _ _ _ (Hm _ _ E1)). by apply Hk.
Qed.

Ltac mono_step :=
  first
    [ apply mono_refl
    | apply mono_bind; [|intros]
    | match goal with |- mono (match ?x with _ => _ end) (match ?x with _ => _ end) => destruct x end
    | match goal with |- mono (if ?x then _ else _) (if ?x then _ else _) => destruct x end ].
Ltac mono_auto := repeat mono_step; auto.

Lemma slob_free_walk_mono f f' b a : (f ≤ f')%nat → mono (slob_free_walk (P := P) f b a) (slob_free_walk f' b a).
Proof.
  revert f' a. induction f as [|f IH]; intros f' a Hle; [by intros s r|]. destruct f' as [|f']; [lia|].
  cbn [slob_free_walk]. mono_auto. apply IH. lia.
Qed.

Lemma slob_free_mono f f' b size : (f ≤ f')%nat → mono (slob_free (P := P) f b size) (slob_free f' b size).
Proof. intros Hle. unfold slob_free. mono_auto. by apply slob_free_walk_mono. Qed.

Lemma slob_alloc_loop_mono f f' size n al prev cur :
  (f ≤ f')%nat → mono (slob_alloc_loop alloc_pages f size n al prev cur) (slob_alloc_loop alloc_pages f' size n al prev cur).
Proof.
  revert f' prev cur. induction f as [|f IH]; intros f' prev cur Hle; [by intros s r|]. destruct f' as [|f']; [lia|].
  cbn [slob_alloc_loop]. cbv zeta. mono_auto; try (apply IH; lia). apply slob_free_mono. lia.
Qed.

Lemma kmalloc_mono f f' size : (f ≤ f')%nat → mono (kmalloc alloc_pages f size) (kmalloc alloc_pages f' size).
Proof.
  intros Hle. unfold kmalloc, __kmalloc, slob_alloc. mono_auto;
    (by apply slob_alloc_loop_mono) || (by apply slob_free_mono).
Qed.

Lemma kfree_mono f f' b : (f ≤ f')%nat → mono (kfree free_pages f b) (kfree free_pages f' b).
Proof.
  intros Hle. unfold kfree, find_bigblock.
  assert (∀ last bb, mono (bigblock_walk (P := P) f b last bb) (bigblock_walk f' b last bb)) as Hw.
  { clear -Hle. revert f' Hle. induction f as [|f IH]; intros f' Hle last bb; [by intros s r|]. destruct f' as [|f']; [lia|].
    cbn [bigblock_walk]. mono_auto. apply IH. lia. }
  mono_auto; by apply slob_free_mono.
Qed.

(** ** Runs

    The clients hold blocks of bytes: the address [kmalloc] returned and the size
    asked for.  They call [kmalloc] and [kfree], write into their blocks, and other
    kernel code takes pages from the same page allocator. *)

Definition header (x : Z * Z) : Z * Z := (x.1 - SLOB_UNIT, SLOB_UNITS (x.2 + SLOB_UNIT)).

Definition set_cells (c : Z → Z) (s : st) : st := Kheap c (slobfree s) (bigblocks s) (pages s).

(** The sizes that neither trip the assertion of [slob_alloc] nor go to the big
    blocks. *)
Definition small (size : Z) : Prop := 0 < size < PGSIZE - 2 * SLOB_UNIT.

Inductive kstep : st * slobs → st * slobs → Prop :=
| kstep_malloc s s' held fuel size b : small size →
    kmalloc alloc_pages fuel size s = Ok (Some b, s') → kstep (s, held) (s', (b, size) :: held)
| kstep_fail s s' held fuel size : small size →
    kmalloc alloc_pages fuel size s = Ok (None, s') → kstep (s, held) (s', held)
| kstep_free s s' h1 b size h2 fuel :
    kfree free_pages fuel b s = Ok (tt, s') → kstep (s, h1 ++ (b, size) :: h2) (s', h1 ++ h2)
| kstep_write s held b size c : (b, size) ∈ held →
    (∀ p, ¬ (b ≤ p < b + size) → c p = cell s p) → kstep (s, held) (set_cells c s, held)
| kstep_pages s held n r p' : 0 < n →
    alloc_pages n (pages s) = Ok (r, p') → kstep (s, held) (set_pages p' s, held).

(** The heap at boot: [arena] is its only block. *)
Definition heap0 (c : Z → Z) (p : P) : st := Kheap (upd (arena + 8) arena (upd arena 1 c)) arena 0 p.

Lemma heap0_inv c p ps : inv p ps → heap_inv (heap0 c p) [(arena, 1)] [] ps.
Proof.
  intros Hp. split; simpl; [|by left|done|constructor| |done|done].
  - split; simpl; [|done|done|].
    + unfold next, units. simpl. rewrite upd_eq, upd_ne, upd_eq by lia. done.
    + exists [], [(arena, 1)]. simpl. split_and!; [done|lia|lia|done].
  - intros x Hx. left. by apply list_elem_of_singleton in Hx.
Qed.

Lemma kmalloc_inv s t held ps size fuel :
  heap_inv s t (header <$> held) ps → small size → (2 * length t + 2 ≤ fuel)%nat →
  ∃ r s' t' ps', kmalloc alloc_pages fuel size s = Ok (r, s') ∧
    match r with
    | Some b => heap_inv s' t' (header <$> (b, size) :: held) ps' ∧ Forall (sep (header (b, size))) (header <$> held)
    | None => heap_inv s' t' (header <$> held) ps'
    end.
Proof.
  intros Hi Hsz Hf. unfold kmalloc, __kmalloc.
  rewrite (proj2 (Z.ltb_lt size (PGSIZE - SLOB_UNIT))) by (unfold small, SLOB_UNIT in *; lia).
  destruct (slob_alloc_inv s t (header <$> held) ps (size + SLOB_UNIT) fuel) as (r & s' & t' & ps' & E & H);
    [done|unfold small, SLOB_UNIT in *; lia|done|].
  rewrite (bind_ok _ _ _ _ _ E). destruct r as [c|]; eexists _, s', t', ps'; (split; [reflexivity|]); [|done].
  assert (header (c + SLOB_UNIT, size) = (c, SLOB_UNITS (size + SLOB_UNIT))) as Eh.
  { unfold header. simpl. f_equal. lia. }
  cbv iota. by rewrite fmap_cons, Eh.
Qed.

Lemma kfree_inv s t h1 b size h2 ps fuel :
  heap_inv s t (header <$> h1 ++ (b, size) :: h2) ps → (length t + 1 ≤ fuel)%nat →
  ∃ s' t', kfree free_pages fuel b s = Ok (tt, s') ∧ heap_inv s' t' (header <$> h1 ++ h2) ps.
Proof.
  intros Hi Hf. rewrite !fmap_app, fmap_cons in *. set (x := header (b, size)) in *.
  pose proof (hi_held _ _ _ _ Hi) as Hh. rewrite Forall_app, Forall_cons in Hh.
  destruct Hh as (Hh1 & (Hx0 & Hxu & Hxt) & Hh2).
  assert (x ≠ (arena, 1)) as Hxa.
  { intros ->. pose proof (hi_arena _ _ _ _ Hi) as Ha. rewrite Forall_forall in Hxt. specialize (Hxt _ Ha).
    unfold sep, SLOB_UNIT in Hxt. simpl in Hxt. lia. }
  destruct (kblock_range _ _ _ _ x Hi ltac:(set_solver) Hxa) as [Hxr _]. simpl in Hxr.
  unfold kfree. rewrite (proj2 (Z.eqb_neq b 0)) by (unfold SLOB_UNIT in *; lia).
  unfold find_bigblock. rewrite (bind_ok _ _ _ None s).
  2: { destruct (negb _); [|done]. msteps. rewrite (hi_big _ _ _ _ Hi). destruct fuel; [lia|done]. }
  assert (ForallOrdPairs sep (fmap header h1 ++ x :: fmap header h2)) as Hp by apply (hi_sep _ _ _ _ Hi).
  assert (Forall (sep x) (fmap header h1 ++ fmap header h2) ∧ ForallOrdPairs sep (fmap header h1 ++ fmap header h2)) as [Hxs Hp'].
  { clear -Hp. induction (fmap header h1) as [|y l IH]; simpl in *; inversion Hp as [|? ? H1 H2]; subst; [done|].
    destruct (IH H2) as [? ?]. rewrite Forall_app, Forall_cons in H1. destruct H1 as (Ha & Hb & Hc). split.
    - constructor; [|done]. unfold sep in *. lia.
    - constructor; [by apply Forall_app|done]. }
  destruct (inv_slob_free s t (fmap header h1 ++ fmap header h2) ps x.1 x.2 0 fuel) as (s' & t' & E & Hi' & _).
  - destruct Hi as [? ? Hi3 ? Hi5 ? ?]. split; [done|done| |done| |done|done].
    + rewrite Forall_app, Forall_cons in Hi3. rewrite Forall_app. tauto.
    + intros y Hy. apply Hi5. set_solver.
  - done.
  - done.
  - destruct (hi_mem _ _ _ _ Hi x ltac:(set_solver)) as [?|Hm]; [done|]. intros p Hp0. apply Hm. by destruct x.
  - by destruct x.
  - by destruct x.
  - lia.
  - exists s', t'. split; [exact E|done].
Qed.

(** Payloads of disjoint blocks are disjoint. *)
Lemma header_apart x y : sep (header x) (header y) → apart x y.
Proof.
  unfold sep, header, apart, SLOB_UNITS, SLOB_UNIT. simpl. intros H.
  pose proof (Z.div_mod (x.2 + 16 + 16 - 1) 16 ltac:(lia)). pose proof (Z.mod_pos_bound (x.2 + 16 + 16 - 1) 16 ltac:(lia)).
  pose proof (Z.div_mod (y.2 + 16 + 16 - 1) 16 ltac:(lia)). pose proof (Z.mod_pos_bound (y.2 + 16 + 16 - 1) 16 ltac:(lia)).
  lia.
Qed.

(** A client's writes miss every header. *)
Lemma inv_write s t held ps b size c :
  heap_inv s t (header <$> held) ps → (b, size) ∈ held → (∀ p, ¬ (b ≤ p < b + size) → c p = cell s p) →
  heap_inv (set_cells c s) t (header <$> held) ps.
Proof.
  intros Hi Hb Hc. assert (∀ p, b ≤ p < b + size → byte_of p (header (b, size))) as Hbyte.
  { intros p Hp. unfold byte_of, header, SLOB_UNITS, SLOB_UNIT. simpl.
    pose proof (Z.div_mod (size + 16 + 16 - 1) 16 ltac:(lia)). pose proof (Z.mod_pos_bound (size + 16 + 16 - 1) 16 ltac:(lia)). lia. }
  assert (header (b, size) ∈ header <$> held) as Hh by by apply list_elem_of_fmap_2.
  assert (∀ x, x ∈ t → c x.1 = cell s x.1 ∧ c (x.1 + 8) = cell s (x.1 + 8)) as Ht.
  { intros x Hx. pose proof (proj2 (cyc_elem _ _ (fr_cyc _ _ (hi_ring _ _ _ _ Hi)) Hx)).
    split; apply Hc; intros Hp%Hbyte; eapply (held_not_covered _ _ _ _ _ _ Hi Hh Hp);
      (eapply covered_elem; [exact Hx|unfold byte_of, SLOB_UNIT; lia]). }
  pose proof Hi as [[Hch He Hne Hcyc] Hi2 Hi3 Hi4 Hi5 Hi6 Hi7]. split; [split; [|done..]|done| |done|done|done|done].
  - destruct t as [|z t _] using rev_ind; [done|]. unfold end_at in He. rewrite last_snoc in He. simpl in He.
    destruct z as [z v]. simpl in He. eapply chain_move; [exact Hch| | |].
    + destruct (Ht (z, v)) as [_ Hz]; [set_solver|]. simpl. rewrite <-He. exact Hz.
    + simpl. pose proof (chain_last _ _ _ _ Hch) as Hu. simpl in Hu. rewrite <-Hu. apply (Ht (z, v)). set_solver.
    + intros x Hx. apply Ht. set_solver.
  - apply Forall_forall. intros x Hx. rewrite Forall_forall in Hi3. destruct (Hi3 x Hx) as (Hx0 & Hxu & Hxt).
    split; [exact Hx0|]. split; [|exact Hxt]. rewrite <-Hxu. unfold units. simpl. apply Hc. intros Hp.
    destruct (decide (x = header (b, size))) as [->|Hne'].
    + unfold header, SLOB_UNIT in Hp. simpl in Hp. lia.
    + apply Hbyte in Hp. rewrite list_elem_of_In in Hx, Hh.
      destruct (ForallOrdPairs_In Hi4 _ _ Hx Hh) as [?|[Hs|Hs]]; [done|..];
        unfold sep, byte_of, SLOB_UNIT in *; lia.
Qed.

Lemma kstep_inv s held s' held' t ps :
  heap_inv s t (header <$> held) ps → kstep (s, held) (s', held') →
  ∃ t' ps', heap_inv s' t' (header <$> held') ps'.
Proof.
  intros Hi. inversion 1 as [? ? ? fuel size b Hsz E|? ? ? fuel size Hsz E|? ? h1 b size h2 fuel E|? ? b size c Hb Hc|? ? n r p' Hn E]; subst.
  - destruct (kmalloc_inv s t held ps size (Nat.max fuel (2 * length t + 2)) Hi Hsz ltac:(lia)) as (r & ? & t' & ps' & E' & H').
    rewrite (kmalloc_mono fuel (Nat.max fuel (2 * length t + 2)) size ltac:(lia) _ _ E) in E'. injection E' as <- <-. destruct H'. eauto.
  - destruct (kmalloc_inv s t held' ps size (Nat.max fuel (2 * length t + 2)) Hi Hsz ltac:(lia)) as (r & ? & t' & ps' & E' & H').
    rewrite (kmalloc_mono fuel (Nat.max fuel (2 * length t + 2)) size ltac:(lia) _ _ E) in E'. injection E' as <- <-. eauto.
  - destruct (kfree_inv s t h1 b size h2 ps (Nat.max fuel (length t + 1)) Hi ltac:(lia)) as (? & t' & E' & H').
    rewrite (kfree_mono fuel (Nat.max fuel (length t + 1)) b ltac:(lia) _ _ E) in E'. injection E' as <-. eauto.
  - exists t, ps. by eapply inv_write.
  - destruct (page_alloc (pages s) ps n) as (r' & p1 & E' & Hp); [apply (hi_pages _ _ _ _ Hi)|done|].
    rewrite E in E'. injection E' as <- <-. eexists t, _. eapply inv_pages; [done|exact Hp|].
    intros x Hx. destruct r; [by right|done].
Qed.

Lemma kmalloc_reachable s held s' held' t ps :
  heap_inv s t (header <$> held) ps → rtc kstep (s, held) (s', held') →
  ∃ t' ps', heap_inv s' t' (header <$> held') ps'.
Proof.
  intros Hi Hr. remember (s, held) as x eqn:Ex. remember (s', held') as y eqn:Ey.
  revert s held t ps Ex Hi. induction Hr as [|? [s1 held1] ? Hst Hr IH]; intros s held t ps -> Hi.
  - injection Ey as -> ->. eauto.
  - destruct (kstep_inv _ _ _ _ _ _ Hi Hst) as (t1 & ps1 & Hi1). by eapply IH.
Qed.

Lemma held_apart s t held ps : heap_inv s t (header <$> held) ps → pairwise_apart held.
Proof.
  intros Hi. pose proof (hi_sep _ _ _ _ Hi) as Hs. clear Hi.
  induction held as [|x held IH]; simpl in *; [done|]. inversion Hs as [|? ? Hx Hs']; subst.
  split; [|by apply IH]. rewrite Forall_fmap in Hx. eapply Forall_impl; [exact Hx|]. intros y. apply header_apart.
Qed.
End runs.

(** ** The allocator of [Pmm] as page allocator *)

Definition pmm_pages (base N : Z) (v : vms) (ps : blocks) : Prop :=
  ∃ free, trace_inv N (phys v) free ps ∧ Forall (λ x, base ≤ x.1 ∧ x.1 + x.2 ≤ base + N) (free ++ ps).

Lemma first_fit_within n free b free' lo hi :
  0 < n → first_fit n free = Some (b, free') → Forall (λ x, lo ≤ x.1 ∧ x.1 + x.2 ≤ hi) free →
  (lo ≤ b ∧ b + n ≤ hi) ∧ Forall (λ x, lo ≤ x.1 ∧ x.1 + x.2 ≤ hi) free'.
Proof.
  intros Hn Hff Hin. pose proof (first_fit_split n free) as H. rewrite Hff in H.
  destruct H as (l1 & m & l2 & -> & Hm & _ & ->). rewrite !Forall_app, Forall_cons in *. simpl in *.
  destruct Hin as (? & ? & ?). split; [lia|]. split_and!; [done| |done].
  destruct (Z.ltb_spec n m); [|done]. apply Forall_singleton. simpl. lia.
Qed.

Lemma pmm_page_laws swap_out rounds base N :
  N < 2 ^ 32 → 0 ≤ base → base + N ≤ npage - nbase →
  PageLaws (Pgtable.alloc_pages false swap_out rounds) base (pmm_pages base N).
Proof.
  intros HN Hb Hm. split.
  - intros v ps n (free & [Hi Hs Hh Ha Ht] & Hin) Hn.
    destruct (trace_alloc N (phys v) free ps n HN) as (r & p' & free' & held' & E & Htr & -> & Eff); [by split|done|].
    exists r, (set_phys p' v). split.
    + unfold Pgtable.alloc_pages. cbn [alloc_pages_loop].
      rewrite (bind_ok _ _ _ r (set_phys p' v)) by (by apply zoom_ok). destruct r; [done|].
      by rewrite orb_true_r.
    + exists free'. split; [done|]. apply Forall_app in Hin as [Hfr Hps].
      destruct (first_fit n free) as [[b f1]|] eqn:Ef; injection Eff as -> ->; apply Forall_app; [|done].
      destruct (first_fit_within n free b f1 base (base + N) Hn Ef Hfr) as [Hbn Hf1]. split; [done|by constructor].
  - intros v ps (free & Htr & _). apply (ti_apart _ _ _ _ Htr).
  - intros v ps x (free & Htr & Hin) Hx. pose proof (ti_held _ _ _ _ Htr) as Hh.
    rewrite Forall_forall in Hh, Hin. destruct (Hh x Hx) as (_ & ? & _). destruct (Hin x ltac:(set_solver)). lia.
Qed.

(** ** The properties of the heap *)

(** C15. Safety of the kernel heap over every run.  From the heap at boot, after any
    sequence of [kmalloc] (of sizes the small-block path serves, from 1 on) and [kfree]
    calls, writes of clients into their blocks and page allocations by other
    kernel code, the blocks the clients hold are disjoint ranges of bytes, the
    next [kmalloc] returns and hands out bytes nobody holds, and [kfree] of a held
    block returns. *)
Theorem kmalloc_runs_are_safe {P} (alloc_pages : Z → M P (option Z)) (free_pages : Z → Z → M P unit)
    low inv `{!PageLaws alloc_pages low inv} arena c p ps s held :
  0 < arena → arena + SLOB_UNIT < kva low → 0 ≤ low → inv p ps →
  rtc (kstep alloc_pages free_pages) (heap0 arena c p, []) (s, held) →
  pairwise_apart held ∧
  (∀ size, small size → ∃ N, ∀ fuel, (N ≤ fuel)%nat → ∃ r s', kmalloc alloc_pages fuel size s = Ok (r, s') ∧
    ∀ b, r = Some b → Forall (apart (b, size)) held) ∧
  (∀ b size, (b, size) ∈ held → ∃ N, ∀ fuel, (N ≤ fuel)%nat → ∃ s', kfree free_pages fuel b s = Ok (tt, s')).
Proof.
  intros Ha Hg Hl Hp Hr.
  destruct (kmalloc_reachable alloc_pages free_pages low inv arena Ha Hg Hl _ [] s held _ _
    (heap0_inv inv arena Ha c p ps Hp) Hr) as (t & ps' & Hi).
  split_and!.
  - by eapply held_apart.
  - intros size Hsz. exists (2 * length t + 2)%nat. intros fuel Hf.
    destruct (kmalloc_inv alloc_pages free_pages low inv arena Ha Hg Hl s t held ps' size fuel Hi Hsz Hf) as (r & s' & ? & ? & E & H).
    exists r, s'. split; [done|]. intros b ->. destruct H as [_ Hs]. rewrite Forall_fmap in Hs.
    eapply Forall_impl; [exact Hs|]. intros y. apply header_apart.
  - intros b size (h1 & h2 & ->)%list_elem_of_split. exists (length t + 1)%nat. intros fuel Hf.
    destruct (kfree_inv alloc_pages free_pages low inv arena Ha Hg Hl s t h1 b size h2 ps' fuel Hi Hf) as (s' & ? & E & _).
    eauto.
Qed.

(** A concrete heap: twenty pages from page 1024 on, and [arena] 256 pages below. *)
Definition example_arena : Z := 0xFFFFFFFFC0300000.
Definition example_vms : vms := Vms (result (bring_up 1024 20 boot) boot) (λ _ _, 0).
Definition example_pages : Z → M vms (option Z) := Pgtable.alloc_pages false (λ _, mret tt) 0.
Definition example_heap0 : kheap vms := heap0 example_arena (λ _, 0) example_vms.
Definition example_heap1 : kheap vms := result (kmalloc example_pages 8 100 example_heap0) example_heap0.
Definition example_heap2 : kheap vms := result (kmalloc example_pages 8 4000 example_heap1) example_heap0.

Lemma example_pages_inv : pmm_pages 1024 20 example_vms [].
Proof.
  destruct (bring_up_inv boot 1024 20) as (s1 & E & Hi); [lia..|done|]. exists [(1024, 20)].
  unfold example_vms. rewrite E. split; [exact Hi|]. apply Forall_singleton. simpl. lia.
Qed.

Definition returned {S A} (r : res (A * S)) : option A := match r with Ok (a, _) => Some a | _ => None end.

Lemma returned_result {S A} (r : res (A * S)) a d : returned r = Some a → r = Ok (a, result r d).
Proof. destruct r as [[a' s]| |]; [|done|done]. by intros [= ->]. Qed.

Lemma kmalloc_runs_are_safe_witness :
  ∃ b1 b2, pairwise_apart [(b2, 4000); (b1, 100)] ∧ b1 ≠ b2 ∧
    ∃ N, ∀ fuel, (N ≤ fuel)%nat → ∃ s', kfree (Pgtable.free_pages) fuel b1 example_heap2 = Ok (tt, s').
Proof.
  exists (kva 1024 + 16), (kva 1024 + 144).
  destruct (kmalloc_runs_are_safe example_pages Pgtable.free_pages 1024 (pmm_pages 1024 20)
    (PageLaws0 := pmm_page_laws (λ _, mret tt) 0 1024 20 ltac:(lia) ltac:(lia) ltac:(unfold npage, nbase; lia))
    example_arena (λ _, 0) example_vms [] example_heap2 [(kva 1024 + 144, 4000); (kva 1024 + 16, 100)]) as (H1 & _ & H3).
  - done.
  - done.
  - lia.
  - apply example_pages_inv.
  - eapply rtc_l; [apply (kstep_malloc _ _ _ example_heap1 _ 8 100)|].
    + unfold small, PGSIZE, SLOB_UNIT. lia.
    + apply returned_result. vm_compute. reflexivity.
    + eapply rtc_once, (kstep_malloc _ _ _ example_heap2 _ 8 4000).
      * unfold small, PGSIZE, SLOB_UNIT. lia.
      * apply returned_result. vm_compute. reflexivity.
  - split; [exact H1|]. split; [done|]. eapply H3. by right; left.
Defined.

(** [kfree] of the block [kmalloc(0)] returned looks for a place around [arena]
    for ever. *)
Lemma free_walk_hangs {P} (s : kheap P) a fuel : next s a = a → slob_free_walk fuel a a s = Fuel.
Proof.
  intros Hn. induction fuel as [|fuel IH]; [done|]. cbn [slob_free_walk]. msteps. rewrite Hn.
  by rewrite Z.ltb_irrefl, Z.leb_refl.
Qed.

(** The list consists of the block [a] of one unit alone. *)
Definition alone {P} (s : kheap P) (a : Z) : Prop := slobfree s = a ∧ next s a = a ∧ units s a = 1.

Lemma kmalloc_0_alone {P} (alloc_pages : Z → M P (option Z)) s a :
  alone s a → ∃ s', kmalloc alloc_pages 1 0 s = Ok (Some (a + SLOB_UNIT), s') ∧ alone s' a ∧ bigblocks s' = bigblocks s.
Proof.
  intros (Hf & Hn & Hu). unfold kmalloc, __kmalloc, slob_alloc. change (0 <? PGSIZE - SLOB_UNIT) with true.
  change (0 + SLOB_UNIT + SLOB_UNIT <? PGSIZE) with true. change (SLOB_UNITS (0 + SLOB_UNIT)) with 1. cbv iota. simpl.
  msteps. rewrite Hf, Hn, Hu. simpl. unfold slob_take. simpl. msteps. rewrite Hu. simpl. msteps. rewrite Hn.
  eexists. split; [reflexivity|]. split; [|done]. unfold alone, next, units in *. simpl. rewrite upd_eq, upd_ne by lia. done.
Qed.

(** The sizes [kmalloc] gets wrong: from 4064 to 4079 bytes it trips the
    assertion of [slob_alloc]; 8193 bytes (and every size just above a power of
    two) get the order of a block that is too small; and on the fresh heap
    [kmalloc(0)] takes the list head itself out, so that the same block is handed
    out again and freeing it never returns. *)
Theorem kmalloc_size_defects {P} (alloc_pages : Z → M P (option Z)) (free_pages : Z → Z → M P unit) arena c p :
  0 < arena →
  (∀ fuel size s, 4064 ≤ size < 4080 → kmalloc alloc_pages fuel size s = Panic) ∧
  (∀ k, 1 ≤ k ≤ 16 → let size := PGSIZE * 2 ^ k + 1 in PGSIZE * 2 ^ find_order size < size) ∧
  (∃ s1 s2, kmalloc alloc_pages 1 0 (heap0 arena c p) = Ok (Some (arena + SLOB_UNIT), s1) ∧
     kmalloc alloc_pages 1 0 s1 = Ok (Some (arena + SLOB_UNIT), s2) ∧
     ∀ fuel, kfree free_pages (S fuel) (arena + SLOB_UNIT) s1 = Fuel).
Proof.
  intros Ha. split_and!.
  - intros fuel size s Hs. unfold kmalloc, __kmalloc, PGSIZE, SLOB_UNIT.
    rewrite (proj2 (Z.ltb_lt size (4096 - 16))) by lia. unfold slob_alloc, SLOB_UNIT, PGSIZE.
    rewrite (proj2 (Z.ltb_ge (size + 16 + 16) 4096)) by lia. done.
  - intros k Hk size. unfold size.
    assert (k = 1 ∨ k = 2 ∨ k = 3 ∨ k = 4 ∨ k = 5 ∨ k = 6 ∨ k = 7 ∨ k = 8 ∨ k = 9 ∨ k = 10 ∨ k = 11 ∨ k = 12 ∨
      k = 13 ∨ k = 14 ∨ k = 15 ∨ k = 16) as Hc by lia.
    repeat (destruct Hc as [->|Hc]; [reflexivity|]). by subst k.
  - destruct (kmalloc_0_alone alloc_pages (heap0 arena c p) arena) as (s1 & E1 & Hs1 & Hb1).
    { unfold alone, next, units. simpl. rewrite upd_eq, upd_ne, upd_eq by lia. done. }
    destruct (kmalloc_0_alone alloc_pages s1 arena Hs1) as (s2 & E2 & _).
    exists s1, s2. split; [done|]. split; [done|]. intros fuel. destruct Hs1 as (Hf & Hn & Hu).
    unfold kfree. rewrite (proj2 (Z.eqb_neq (arena + SLOB_UNIT) 0)) by (unfold SLOB_UNIT; lia).
    unfold find_bigblock. rewrite (bind_ok _ _ _ None s1).
    2: { destruct (negb _); [|done]. msteps. by rewrite Hb1. }
    replace (arena + SLOB_UNIT - SLOB_UNIT) with arena by lia. unfold slob_free.
    rewrite (proj2 (Z.eqb_neq arena 0)) by lia. change (negb (0 =? 0)) with false. unfold when. msteps. rewrite Hf.
    unfold mbind at 1, M_bind at 1. by rewrite (free_walk_hangs s1 arena (S fuel) Hn).
Qed.

Lemma kmalloc_size_defects_witness : PGSIZE * 2 ^ find_order 8193 < 8193 ∧
  kmalloc example_pages 8 4064 example_heap0 = Panic.
Proof.
  destruct (kmalloc_size_defects example_pages Pgtable.free_pages example_arena (λ _, 0) example_vms) as (H1 & H2 & _); [done|].
  split; [apply (H2 1); lia|apply H1; lia].
Defined.
