(* ===== verification/Sync.v ===== *)
(** * Wait queues, semaphores and monitors

    kern/sync/wait.c, sem.c and monitor.c on top of the scheduler.  The kernel
    is not preempted in kernel mode, so a process runs atomically from one call of
    [schedule] to the next: a function that blocks is a [thread], a computation
    that ends or suspends with the code that runs when the process is
    scheduled again. *)

From S2P Require Import Prelude ListH SkewHeap Sched.

(** ** State *)

(** The wait queues of the kernel objects that embed one. *)
Inductive queue :=
| QSem (sem : Z)
| QMutex (mt : Z)
| QNext (mt : Z)
| QCv (cv : Z)
| QPipeRead (pipe : Z)
| QPipeWrite (pipe : Z)
| QStdin.

#[global] Instance queue_eq_dec : EqDecision queue.
Proof. solve_decision. Defined.

(** List entries: the head in a queue and the [wait_link] of a [wait_t]. *)
Inductive wentry := QHead (q : queue) | WNode (w : Z).

#[global] Instance wentry_eq_dec : EqDecision wentry.
Proof. solve_decision. Defined.

(** The fields of all [wait_t], semaphores (named by their queue), condition
    variables and monitors.  A [wait_t] lives on the kernel stack of the process
    that waits and is named by that process. *)
Record sync := Sync {
  sc : sched;
  w_proc : Z → option Z;
  w_flags : Z → Z;
  w_queue : Z → option queue;
  w_link : lheap wentry;
  sem_value : queue → Z;
  cv_count : Z → Z;
  cv_owner : Z → Z;
  next_count : Z → Z;
  mon_cv : Z → option Z;
}.

Definition set_sc (v : sched) (s : sync) : sync :=
  Sync v (w_proc s) (w_flags s) (w_queue s) (w_link s) (sem_value s) (cv_count s) (cv_owner s) (next_count s) (mon_cv s).
Definition set_w_proc (w : Z) (v : option Z) (s : sync) : sync :=
  Sync (sc s) (upd w v (w_proc s)) (w_flags s) (w_queue s) (w_link s) (sem_value s) (cv_count s) (cv_owner s) (next_count s) (mon_cv s).
Definition set_w_flags (w v : Z) (s : sync) : sync :=
  Sync (sc s) (w_proc s) (upd w v (w_flags s)) (w_queue s) (w_link s) (sem_value s) (cv_count s) (cv_owner s) (next_count s) (mon_cv s).
Definition set_w_queue (w : Z) (v : option queue) (s : sync) : sync :=
  Sync (sc s) (w_proc s) (w_flags s) (upd w v (w_queue s)) (w_link s) (sem_value s) (cv_count s) (cv_owner s) (next_count s) (mon_cv s).
Definition set_w_link (f : lheap wentry → lheap wentry) (s : sync) : sync :=
  Sync (sc s) (w_proc s) (w_flags s) (w_queue s) (f (w_link s)) (sem_value s) (cv_count s) (cv_owner s) (next_count s) (mon_cv s).
Definition set_sem_value (q : queue) (v : Z) (s : sync) : sync :=
  Sync (sc s) (w_proc s) (w_flags s) (w_queue s) (w_link s) (upd q v (sem_value s)) (cv_count s) (cv_owner s) (next_count s) (mon_cv s).
Definition set_cv_count (c v : Z) (s : sync) : sync :=
  Sync (sc s) (w_proc s) (w_flags s) (w_queue s) (w_link s) (sem_value s) (upd c v (cv_count s)) (cv_owner s) (next_count s) (mon_cv s).
Definition set_cv_owner (c v : Z) (s : sync) : sync :=
  Sync (sc s) (w_proc s) (w_flags s) (w_queue s) (w_link s) (sem_value s) (cv_count s) (upd c v (cv_owner s)) (next_count s) (mon_cv s).
Definition set_next_count (m v : Z) (s : sync) : sync :=
  Sync (sc s) (w_proc s) (w_flags s) (w_queue s) (w_link s) (sem_value s) (cv_count s) (cv_owner s) (upd m v (next_count s)) (mon_cv s).
Definition set_mon_cv (m : Z) (v : option Z) (s : sync) : sync :=
  Sync (sc s) (w_proc s) (w_flags s) (w_queue s) (w_link s) (sem_value s) (cv_count s) (cv_owner s) (next_count s) (upd m v (mon_cv s)).

Definition on_sc {A} (m : M sched A) : M sync A := zoom sc set_sc m.

(** ** Threads *)

(** The result of running a process up to its end or to its next [schedule]. *)
Inductive thread (S A : Type) : Type :=
| Ret (a : A)
| Suspended (k : S → res (thread S A * S)).
Arguments Ret {S A} a.
Arguments Suspended {S A} k.

(** Sequencing of a thread with the code after it. *)
Fixpoint tcont {S A B} (t : thread S A) (k : A → M S (thread S B)) : M S (thread S B) :=
  match t with
  | Ret a => k a
  | Suspended m => mret (Suspended (λ s,
      match m s with
      | Ok (t', s') => tcont t' k s'
      | Panic => Panic
      | Fuel => Fuel
      end))
  end.

Definition tbind {S A B} (m : M S (thread S A)) (k : A → M S (thread S B)) : M S (thread S B) :=
  t ← m; tcont t k.

Notation tret a := (mret (Ret a)).
Notation "x ⇐ m ; k" := (tbind m (λ x, k)) (at level 20, m at level 100, k at level 200, only parsing).

(** [schedule()] in a process that blocked: the rest runs when it is scheduled again. *)
Definition reschedule {A} (k : M sync (thread sync A)) : M sync (thread sync A) :=
  on_sc schedule;; mret (Suspended k).

(** ** kern/sync/wait.c *)

Definition wait_init (wait proc : Z) : M sync unit :=
  modify (set_w_proc wait (Some proc));;
  modify (set_w_flags wait WT_INTERRUPTED);;
  modify (set_w_link (list_init (WNode wait))).

Definition wait_queue_init (q : queue) : M sync unit := modify (set_w_link (list_init (QHead q))).

Definition wait_queue_add (q : queue) (wait : Z) : M sync unit :=
  asserts (λ s, (list_empty (w_link s) (WNode wait) && bool_decide (w_proc s wait ≠ None))%bool);;
  modify (set_w_queue wait (Some q));;
  modify (set_w_link (list_add_before (QHead q) (WNode wait))).

(** The assertion of the three functions below. *)
Definition waits_in (q : queue) (wait : Z) (s : sync) : bool :=
  (negb (list_empty (w_link s) (WNode wait)) && bool_decide (w_queue s wait = Some q))%bool.

Definition wait_queue_del (q : queue) (wait : Z) : M sync unit :=
  asserts (waits_in q wait);;
  modify (set_w_link (list_del_init (WNode wait))).

(** [le2wait], or [NULL] when the entry is a queue head. *)
Definition le2wait (le : wentry) : option Z := match le with WNode w => Some w | QHead _ => None end.

Definition wait_queue_next (q : queue) (wait : Z) : M sync (option Z) :=
  asserts (waits_in q wait);;
  gets (λ s, le2wait (list_next (w_link s) (WNode wait))).

Definition wait_queue_prev (q : queue) (wait : Z) : M sync (option Z) :=
  asserts (waits_in q wait);;
  gets (λ s, le2wait (list_prev (w_link s) (WNode wait))).

Definition wait_queue_first (q : queue) : M sync (option Z) :=
  gets (λ s, le2wait (list_next (w_link s) (QHead q))).

Definition wait_queue_last (q : queue) : M sync (option Z) :=
  gets (λ s, le2wait (list_prev (w_link s) (QHead q))).

Definition wait_queue_empty (q : queue) : M sync bool := gets (λ s, list_empty (w_link s) (QHead q)).

Definition wait_in_queue (wait : Z) : M sync bool := gets (λ s, negb (list_empty (w_link s) (WNode wait))).

Definition wakeup_wait (q : queue) (wait flags : Z) (del : bool) : M sync unit :=
  when del (wait_queue_del q wait);;
  modify (set_w_flags wait flags);;
  proc ← gets (λ s, w_proc s wait);
  match proc with Some p => on_sc (wakeup_proc p) | None => panic end.

Definition wakeup_first (q : queue) (flags : Z) (del : bool) : M sync unit :=
  wait ← wait_queue_first q;
  match wait with Some w => wakeup_wait q w flags del | None => mret tt end.

(** The two [do ... while] loops; [fuel] bounds the number of waiters. *)
Fixpoint wakeup_loop (fuel : nat) (q : queue) (wait flags : Z) (del : bool) : M sync unit :=
  match fuel with
  | O => out_of_fuel
  | S fuel' =>
    wakeup_wait q wait flags del;;
    next ← (if del then wait_queue_first q else wait_queue_next q wait);
    match next with Some w => wakeup_loop fuel' q w flags del | None => mret tt end
  end.

Definition wakeup_queue (fuel : nat) (q : queue) (flags : Z) (del : bool) : M sync unit :=
  wait ← wait_queue_first q;
  match wait with Some w => wakeup_loop fuel q w flags del | None => mret tt end.

Definition get_current : M sync Z := gets (λ s, current (sc s)).

Definition wait_current_set (q : queue) (wait wait_state : Z) : M sync unit :=
  cur ← get_current;
  wait_init wait cur;;
  on_sc (store cur (set_state PROC_SLEEPING));;
  on_sc (store cur (set_wait_state wait_state));;
  wait_queue_add q wait.

Definition wait_current_del (q : queue) (wait : Z) : M sync unit :=
  b ← wait_in_queue wait;
  when b (wait_queue_del q wait).

(** ** kern/sync/sem.c *)

Definition sem_init (sem : queue) (value : Z) : M sync unit :=
  modify (set_sem_value sem value);;
  wait_queue_init sem.

Definition __up (sem : queue) (wait_state : Z) : M sync unit :=
  wait ← wait_queue_first sem;
  match wait with
  | None => modify (λ s, set_sem_value sem (s32 (sem_value s sem + 1)) s)
  | Some w =>
    proc ← gets (λ s, w_proc s w);
    (match proc with
     | Some p => asserts (λ s, p_wait_state (procs (sc s) p) =? wait_state)
     | None => panic
     end);;
    wakeup_wait sem w wait_state true
  end.

Definition __down (sem : queue) (wait_state : Z) : M sync (thread sync Z) :=
  value ← gets (λ s, sem_value s sem);
  if 0 <? value then
    modify (λ s, set_sem_value sem (s32 (sem_value s sem - 1)) s);;
    tret 0
  else
    wait ← get_current;
    wait_current_set sem wait wait_state;;
    reschedule
      (wait_current_del sem wait;;
       flags ← gets (λ s, w_flags s wait);
       tret (if negb (flags =? wait_state) then flags else 0)).

Definition up (sem : queue) : M sync unit := __up sem WT_KSEM.

Definition down (sem : queue) : M sync (thread sync unit) :=
  flags ⇐ __down sem WT_KSEM;
  (assert (flags =? 0);; tret tt).

Definition try_down (sem : queue) : M sync bool :=
  value ← gets (λ s, sem_value s sem);
  if 0 <? value
  then modify (λ s, set_sem_value sem (s32 (sem_value s sem - 1)) s);; mret true
  else mret false.

(** ** kern/sync/monitor.c *)

(** [cvs] is the result of the [kmalloc] of the condition variables, which are
    numbered from there. *)
Definition monitor_init (mtp num_cv : Z) (cvs : option Z) : M sync unit :=
  assert (0 <? num_cv);;
  modify (set_next_count mtp 0);;
  modify (set_mon_cv mtp None);;
  sem_init (QMutex mtp) 1;;
  sem_init (QNext mtp) 0;;
  modify (set_mon_cv mtp cvs);;
  match cvs with
  | None => panic
  | Some cv =>
    for_range cv (Z.to_nat num_cv) (λ c,
      modify (set_cv_count c 0);;
      sem_init (QCv c) 0;;
      modify (set_cv_owner c mtp))
  end.

Definition cond_signal (cvp : Z) : M sync (thread sync unit) :=
  count ← gets (λ s, cv_count s cvp);
  if 0 <? count then
    mtp ← gets (λ s, cv_owner s cvp);
    modify (λ s, set_next_count mtp (s32 (next_count s mtp + 1)) s);;
    up (QCv cvp);;
    _ ⇐ down (QNext mtp);
    (modify (λ s, set_next_count mtp (s32 (next_count s mtp - 1)) s);;
     tret tt)
  else tret tt.

Definition cond_wait (cvp : Z) : M sync (thread sync unit) :=
  modify (λ s, set_cv_count cvp (s32 (cv_count s cvp + 1)) s);;
  mtp ← gets (λ s, cv_owner s cvp);
  next ← gets (λ s, next_count s mtp);
  (if 0 <? next then up (QNext mtp) else up (QMutex mtp));;
  _ ⇐ down (QCv cvp);
  (modify (λ s, set_cv_count cvp (s32 (cv_count s cvp - 1)) s);;
   tret tt).
