(* ===== verification/SyncProofs.v ===== *)
(** * Wait queues, semaphores and monitors: proofs

    The queue of a semaphore is an abstract list of sleeping processes; [up] hands
    the semaphore to the first of them.  A step relation interleaves the processes
    that use a semaphore, each running the code from one [schedule] to the next;
    by induction on it a semaphore never has more holders than its initial value. *)

From S2P Require Import Prelude ListH SkewHeap Sched SchedProofs Timers Sync.

(** ** What the scheduler keeps *)

(** The states of the processes other than [D] do not change. *)
Definition same_states (D : list Z) (s s' : sched) : Prop :=
  ∀ p, p ∉ D → p_state (procs s' p) = p_state (procs s p) ∧
    p_wait_state (procs s' p) = p_wait_state (procs s p).

#[global] Instance same_states_preorder D : PreOrder (same_states D).
Proof.
  split.
  - by intros s p.
  - intros s1 s2 s3 H12 H23 p Hp. destruct (H12 p Hp), (H23 p Hp). split; by etrans.
Qed.

Lemma same_states_upd D p f s :
  (∀ x, p_state (f x) = p_state x ∧ p_wait_state (f x) = p_wait_state x) ∨ p ∈ D →
  same_states D s (upd_proc p f s).
Proof.
  intros Hf q Hq. simpl. destruct (decide (p = q)) as [<-|]; [|by rewrite upd_ne].
  rewrite upd_eq. destruct Hf as [Hf|]; [apply Hf|done].
Qed.

Ltac keeps_states :=
  unfold field, store; keeps_auto; (done || (apply same_states_upd; by left) || idtac).

Lemma stride_enqueue_keeps D p : keeps (same_states D) (stride_enqueue p).
Proof. unfold stride_enqueue. keeps_states. Qed.

Lemma stride_dequeue_keeps D p : keeps (same_states D) (stride_dequeue p).
Proof. unfold stride_dequeue. keeps_states. Qed.

Lemma stride_pick_next_keeps D : keeps (same_states D) stride_pick_next.
Proof. unfold stride_pick_next. keeps_states. Qed.

Lemma schedule_keeps D : keeps (same_states D) schedule.
Proof.
  unfold schedule, sched_class_enqueue, sched_class_pick_next, sched_class_dequeue, proc_run. simpl.
  keeps_states; first [apply stride_enqueue_keeps|apply stride_pick_next_keeps|apply stride_dequeue_keeps].
Qed.

Lemma wakeup_proc_keeps p : keeps (same_states [p]) (wakeup_proc p).
Proof.
  unfold wakeup_proc, sched_class_enqueue. simpl.
  keeps_states; first [apply stride_enqueue_keeps|apply same_states_upd; right; set_solver].
Qed.

(** ** The queue of a semaphore *)

#[global] Instance WNode_inj : Inj (=) (=) WNode.
Proof. by intros ?? [= ->]. Qed.

Lemma elem_of_nodes w (ws : list Z) : WNode w ∈ WNode <$> ws ↔ w ∈ ws.
Proof. rewrite list_elem_of_fmap. naive_solver. Qed.

(** [w] waits in [q]: its [wait_t] and its process agree. *)
Record waiter (s : sync) (q : queue) (w : Z) : Prop := Waiter {
  wt_proc : w_proc s w = Some w;
  wt_queue : w_queue s w = Some q;
  wt_state : p_state (procs (sc s) w) = PROC_SLEEPING;
  wt_wait : p_wait_state (procs (sc s) w) = WT_KSEM;
}.

(** The semaphore [q] has value [v] and the waiters [ws], in order of arrival. *)
Record sem_inv (s : sync) (q : queue) (v : Z) (ws : list Z) : Prop := SemInv {
  si_links : dll (w_link s) (QHead q) (WNode <$> ws);
  si_value : sem_value s q = v;
  si_range : 0 ≤ v < 2 ^ 31;
  si_handoff : 0 < v → ws = [];
  si_waiters : ∀ w, w ∈ ws → waiter s q w;
}.

(** A waiter that was handed the semaphore and has not run yet. *)
Definition granted (s : sync) (w : Z) : Prop :=
  list_empty (w_link s) (WNode w) = true ∧ w_flags s w = WT_KSEM.

Lemma first_waiter s q v ws : sem_inv s q v ws →
  le2wait (list_next (w_link s) (QHead q)) = head ws.
Proof. intros Hi. rewrite (list_next_head _ _ _ (si_links _ _ _ _ Hi)). by destruct ws. Qed.

Lemma up_free s q v : sem_inv s q v [] → v + 1 < 2 ^ 31 →
  up q s = Ok (tt, set_sem_value q (v + 1) s) ∧ sem_inv (set_sem_value q (v + 1) s) q (v + 1) [].
Proof.
  intros Hi Hv. pose proof (si_range _ _ _ _ Hi). split.
  - unfold up, __up, wait_queue_first. msteps. rewrite (first_waiter _ _ _ _ Hi). simpl.
    unfold modify. by rewrite (si_value _ _ _ _ Hi), s32_small by lia.
  - destruct Hi as [Hl _ _ _ _]. split; simpl; [done|by rewrite upd_eq|lia|done|set_solver].
Qed.

(** The part of the state that [up] with a waiter [w] leaves alone. *)
Definition up_frame (q : queue) (w : Z) (ws : list Z) (s s' : sync) : Prop :=
  w_proc s' = w_proc s ∧ w_queue s' = w_queue s ∧ sem_value s' = sem_value s ∧
  (∀ p, p ≠ w → w_flags s' p = w_flags s p) ∧
  (∀ x, x ∉ QHead q :: (WNode <$> w :: ws) → w_link s' x = w_link s x) ∧
  same_states [w] (sc s) (sc s').

(** [up] up to the call of [wakeup_proc]. *)
Lemma up_handoff s q v w ws :
  sem_inv s q v (w :: ws) →
  let s1 := set_w_flags w WT_KSEM (set_w_link (list_del_init (WNode w)) s) in
  up q s = on_sc (wakeup_proc w) s1 ∧ v = 0.
Proof.
  intros Hi s1. destruct (si_waiters _ _ _ _ Hi w ltac:(set_solver)) as [Hp Hq _ Hw]. split.
  2: { pose proof (si_range _ _ _ _ Hi). destruct (decide (0 < v)) as [Hv|]; [|lia].
       by apply (si_handoff _ _ _ _ Hi) in Hv. }
  unfold up, __up, wait_queue_first, wakeup_wait. msteps. rewrite (first_waiter _ _ _ _ Hi). simpl. msteps.
  rewrite Hp. rewrite bind_asserts by (by rewrite Hw). simpl. unfold wait_queue_del. msteps.
  rewrite bind_asserts.
  2: { unfold waits_in. rewrite Hq, bool_decide_eq_true_2 by done.
       rewrite (list_empty_member _ _ _ _ (si_links _ _ _ _ Hi)) by (rewrite elem_of_nodes; set_solver). done. }
  msteps. simpl. by rewrite Hp.
Qed.

Lemma up_wakes s q v w ws s' :
  sem_inv s q v (w :: ws) → up q s = Ok (tt, s') →
  v = 0 ∧ sem_inv s' q 0 ws ∧ granted s' w ∧ up_frame q w ws s s'.
Proof.
  intros Hi E. destruct (up_handoff s q v w ws Hi) as [E1 ->]. rewrite E1 in E. split; [done|].
  pose proof (si_links _ _ _ _ Hi) as Hd. simpl in Hd.
  destruct (list_del_init_dll _ _ [] _ _ Hd) as [Hd' He].
  unfold on_sc, zoom in E. destruct (wakeup_proc w _) as [[[] sc']| |] eqn:Ew; [|done|done].
  injection E as <-. apply wakeup_proc_keeps in Ew. simpl in Ew.
  assert (w ∉ ws) as Hw.
  { destruct Hd as [Hnd _]. apply NoDup_cons in Hnd as [_ Hnd]. apply NoDup_cons in Hnd as [Hnd _].
    by rewrite elem_of_nodes in Hnd. }
  split_and!.
  - destruct Hi as [_ Hv Hr Hh Hws]. split; simpl; [done|done|lia|lia|].
    intros p Hp. destruct (Hws p ltac:(set_solver)) as [? ? ? ?].
    destruct (Ew p ltac:(set_solver)) as [E2 E3]. split; simpl; congruence.
  - split; simpl; [done|by rewrite upd_eq].
  - split_and!; simpl; try done.
    + intros p Hp. by rewrite upd_ne.
    + intros x Hx. by apply (list_del_init_other _ (QHead q) [] _ (WNode <$> ws)).
Qed.

(** *** down *)

Lemma down_free s q v ws : sem_inv s q v ws → 0 < v →
  down q s = Ok (Ret tt, set_sem_value q (v - 1) s) ∧ sem_inv (set_sem_value q (v - 1) s) q (v - 1) [].
Proof.
  intros Hi Hv. pose proof (si_range _ _ _ _ Hi). split.
  - unfold down, tbind, __down. msteps. rewrite (si_value _ _ _ _ Hi). destruct (Z.ltb_spec 0 v); [|lia].
    msteps. rewrite (si_value _ _ _ _ Hi), s32_small by lia. done.
  - rewrite (si_handoff _ _ _ _ Hi Hv) in Hi. destruct Hi as [Hl _ _ _ _]. split; simpl; [done|by rewrite upd_eq|lia|done|set_solver].
Qed.

(** The code of [down] after its [schedule]. *)
Definition down_resume (q : queue) (w : Z) : M sync (thread sync unit) :=
  λ s, match (wait_current_del q w;; flags ← gets (λ s, w_flags s w);
              tret (if negb (flags =? WT_KSEM) then flags else 0)) s with
       | Ok (t', s') => tcont t' (λ flags, assert (flags =? 0);; tret tt) s'
       | Panic => Panic
       | Fuel => Fuel
       end.

(** [down] up to its [schedule]. *)
Definition blocked_state (q : queue) (w : Z) (s : sync) : sync :=
  set_w_link (list_add_before (QHead q) (WNode w)) (set_w_queue w (Some q)
    (set_sc (upd_proc w (set_wait_state WT_KSEM) (upd_proc w (set_state PROC_SLEEPING) (sc s)))
      (set_w_link (list_init (WNode w)) (set_w_flags w WT_INTERRUPTED (set_w_proc w (Some w) s))))).

Lemma down_blocks s q ws :
  sem_inv s q 0 ws →
  let w := current (sc s) in
  down q s = (on_sc schedule;; mret (Suspended (down_resume q w))) (blocked_state q w s).
Proof.
  intros Hi w. unfold down, tbind, __down. msteps. rewrite (si_value _ _ _ _ Hi). simpl. unfold get_current. msteps.
  fold w. unfold wait_current_set, get_current, wait_init, on_sc, store, wait_queue_add. msteps. fold w.
  rewrite bind_asserts.
  2: { simpl. by rewrite list_init_empty, upd_eq. }
  msteps. unfold reschedule, on_sc. msteps. unfold mbind, M_bind. unfold blocked_state.
  by destruct (zoom sc set_sc schedule _) as [[[] s']| |].
Qed.

Lemma blocked_state_inv s q ws w :
  sem_inv s q 0 ws → (w ∉ ws) → sem_inv (blocked_state q w s) q 0 (ws ++ [w]).
Proof.
  intros [Hl Hv Hr Hh Hws] Hw. split; simpl; try done.
  - rewrite fmap_app. apply list_add_before_head; [|rewrite not_elem_of_cons, elem_of_nodes; split; [done|done]].
    eapply dll_frame; [|exact Hl]. intros x Hx. apply list_init_other. intros ->.
    apply elem_of_cons in Hx as [?|Hx]; [done|]. by rewrite elem_of_nodes in Hx.
  - intros p Hp. destruct (decide (p = w)) as [->|Hne].
    + split; simpl; by rewrite !upd_eq.
    + destruct (Hws p ltac:(set_solver)) as [? ? ? ?]. split; simpl; by rewrite !upd_ne by done.
Qed.

(** A waiter that was handed the semaphore returns from [down]. *)
Lemma down_resumes s q w : granted s w → down_resume q w s = Ok (Ret tt, s).
Proof.
  intros [He Hf]. unfold down_resume, wait_current_del, wait_in_queue. msteps. rewrite He. simpl. msteps.
  by rewrite Hf.
Qed.

(** ** Processes that share a semaphore *)

(** The processes that passed [down] and did not yet call [up], and the
    suspended code of those that are inside [down]. *)
Record conf := Conf {
  cst : sync;
  holders : list Z;
  blocked : Z → option (M sync (thread sync unit));
}.

(** What other code may do: it leaves the semaphore, the [wait_t] of the
    processes blocked on it and their sleep alone. *)
Definition quiet (q : queue) (bl : Z → option (M sync (thread sync unit))) (s s' : sync) : Prop :=
  sem_value s' q = sem_value s q ∧ w_link s' (QHead q) = w_link s (QHead q) ∧
  ∀ p, bl p ≠ None →
    w_proc s' p = w_proc s p ∧ w_flags s' p = w_flags s p ∧ w_queue s' p = w_queue s p ∧
    w_link s' (WNode p) = w_link s (WNode p) ∧
    (p_state (procs (sc s) p) = PROC_SLEEPING → p_wait_state (procs (sc s) p) = WT_KSEM →
      p_state (procs (sc s') p) = PROC_SLEEPING ∧ p_wait_state (procs (sc s') p) = WT_KSEM).

(** The running process is runnable: it is not asleep in a queue. *)
Definition runs (s : sync) (p : Z) : Prop :=
  current (sc s) = p ∧ p_state (procs (sc s) p) ≠ PROC_SLEEPING.

Inductive sstep (q : queue) : conf → conf → Prop :=
| ss_down s h bl p s' :
    runs s p → bl p = None → p ∉ h → down q s = Ok (Ret tt, s') →
    sstep q (Conf s h bl) (Conf s' (p :: h) bl)
| ss_block s h bl p k s' :
    runs s p → bl p = None → p ∉ h → down q s = Ok (Suspended k, s') →
    sstep q (Conf s h bl) (Conf s' h (upd p (Some k) bl))
| ss_resume s h bl p k s' :
    runs s p → bl p = Some k → k s = Ok (Ret tt, s') →
    sstep q (Conf s h bl) (Conf s' (p :: h) (upd p None bl))
| ss_up s h1 p h2 bl s' :
    runs s p → up q s = Ok (tt, s') →
    sstep q (Conf s (h1 ++ p :: h2) bl) (Conf s' (h1 ++ h2) bl)
| ss_other s h bl s' :
    quiet q bl s s' → sstep q (Conf s h bl) (Conf s' h bl).

(** [gs] were handed the semaphore, [ws] sleep. *)
Record conf_inv (q : queue) (n : Z) (c : conf) (gs ws : list Z) : Prop := ConfInv {
  ci_sem : sem_inv (cst c) q (sem_value (cst c) q) ws;
  ci_count : sem_value (cst c) q + Z.of_nat (length (holders c)) + Z.of_nat (length gs) = n;
  ci_nodup : NoDup (holders c ++ gs ++ ws);
  ci_blocked : ∀ p, blocked c p = if decide (p ∈ gs ++ ws) then Some (down_resume q p) else None;
  ci_granted : ∀ p, p ∈ gs → granted (cst c) p;
}.

Lemma sem_inv_frame s s' q v ws :
  sem_inv s q v ws → sem_value s' q = sem_value s q →
  (∀ x, x ∈ QHead q :: (WNode <$> ws) → w_link s' x = w_link s x) →
  (∀ w, w ∈ ws → waiter s q w → waiter s' q w) → sem_inv s' q v ws.
Proof.
  intros [Hl Hv Hr Hh Hw] Ev El Ew. split; [|congruence|done|done|auto]. by eapply dll_frame.
Qed.

Lemma granted_frame s s' p :
  granted s p → w_link s' (WNode p) = w_link s (WNode p) → w_flags s' p = w_flags s p → granted s' p.
Proof. unfold granted, list_empty. by intros [? ?] -> ->. Qed.

(** A runnable process is not in the queue. *)
Lemma runs_not_waiting s q v ws p : sem_inv s q v ws → runs s p → p ∉ ws.
Proof. intros Hi [_ Hr] Hp. by destruct (si_waiters _ _ _ _ Hi p Hp). Qed.

Lemma inv_down q n s h bl p s' gs ws :
  conf_inv q n (Conf s h bl) gs ws → bl p = None → p ∉ h → down q s = Ok (Ret tt, s') →
  conf_inv q n (Conf s' (p :: h) bl) gs [].
Proof.
  intros [Hs Hc Hnd Hb Hg] Hbp Hph E. simpl in *. pose proof (si_range _ _ _ _ Hs) as Hr.
  destruct (decide (0 < sem_value s q)) as [Hv|Hv].
  - destruct (down_free s q _ ws Hs Hv) as [E' Hs']. rewrite E in E'. injection E' as ->.
    pose proof (si_handoff _ _ _ _ Hs Hv) as ->. rewrite app_nil_r in *. split; simpl; rewrite ?upd_eq, ?app_nil_r.
    + done.
    + lia.
    + apply NoDup_cons. split; [|done]. intros [?|Hp]%elem_of_app; [done|].
      rewrite Hb, decide_True in Hbp by done. done.
    + intros x. by rewrite Hb.
    + intros x Hx. by apply Hg.
  - assert (sem_value s q = 0) as Hz by lia. rewrite Hz in Hs. rewrite (down_blocks s q ws Hs) in E.
    apply bind_ok_inv in E as (? & ? & _ & E). done.
Qed.

Lemma inv_block q n s h bl p k s' gs ws :
  conf_inv q n (Conf s h bl) gs ws → runs s p → bl p = None → p ∉ h → down q s = Ok (Suspended k, s') →
  conf_inv q n (Conf s' h (upd p (Some k) bl)) gs (ws ++ [p]).
Proof.
  intros [Hs Hc Hnd Hb Hg] [Hcur _] Hbp Hph E. simpl in *. pose proof (si_range _ _ _ _ Hs) as Hr.
  destruct (decide (0 < sem_value s q)) as [Hv|Hv].
  { destruct (down_free s q _ ws Hs Hv) as [E' _]. by rewrite E in E'. }
  assert (sem_value s q = 0) as Hz by lia. rewrite Hz in *. rewrite (down_blocks s q ws Hs), Hcur in E.
  apply bind_ok_inv in E as ([] & s1 & Esch & E). injection E as <- <-.
  unfold on_sc, zoom in Esch. destruct (schedule _) as [[[] sc']| |] eqn:Ew; [|done|done]. injection Esch as <-.
  apply (schedule_keeps []) in Ew. rewrite Hb in Hbp. case_decide as Hin; [done|].
  rewrite elem_of_app in Hin. assert (p ∉ ws) as Hpw by tauto. assert (p ∉ gs) as Hpg by tauto.
  pose proof (blocked_state_inv s q ws p Hs Hpw) as Hs1. split; simpl.
  - rewrite Hz. eapply sem_inv_frame; [exact Hs1|done|done|]. intros w _ [? ? ? ?].
    destruct (Ew w ltac:(set_solver)) as [E1 E2]. split; [done|done|by etrans; [exact E1|]|by etrans; [exact E2|]].
  - lia.
  - rewrite !app_assoc. apply NoDup_app. split_and!; [by rewrite <-app_assoc| |apply NoDup_singleton].
    set_solver.
  - intros x. destruct (decide (p = x)) as [<-|Hne].
    + rewrite upd_eq, decide_True; [done|set_solver].
    + rewrite upd_ne, Hb by done. repeat case_decide; set_solver.
  - intros x Hx. eapply granted_frame; [by apply Hg| |].
    + simpl. rewrite (list_add_before_head_other _ _ (WNode <$> ws)).
      * apply list_init_other. intros [= ->]. done.
      * eapply dll_frame; [|apply (si_links _ _ _ _ Hs)]. intros z Hz'. apply list_init_other. intros ->.
        apply elem_of_cons in Hz' as [?|Hz']; [done|]. by rewrite elem_of_nodes in Hz'.
      * rewrite !not_elem_of_cons, elem_of_nodes. split_and!; [done|intros [= ->]; done|].
        apply NoDup_app in Hnd as (_ & _ & Hnd). apply NoDup_app in Hnd as (_ & Hnd & _). by apply Hnd.
    + simpl. rewrite upd_ne; [done|]. intros ->. done.
Qed.

Lemma inv_resume q n s h bl p k s' gs ws :
  conf_inv q n (Conf s h bl) gs ws → runs s p → bl p = Some k → k s = Ok (Ret tt, s') →
  ∃ gs', conf_inv q n (Conf s' (p :: h) (upd p None bl)) gs' ws.
Proof.
  intros [Hs Hc Hnd Hb Hg] Hrun Hbp E. simpl in *. rewrite Hb in Hbp. case_decide as Hin; [|done].
  injection Hbp as <-. pose proof (runs_not_waiting _ _ _ _ _ Hs Hrun) as Hpw.
  assert (p ∈ gs) as Hpg by set_solver. rewrite (down_resumes s q p) in E by by apply Hg. injection E as <-.
  apply list_elem_of_split in Hpg as (g1 & g2 & ->). exists (g1 ++ g2).
  assert (h ++ (g1 ++ p :: g2) ++ ws ≡ₚ p :: h ++ (g1 ++ g2) ++ ws) as Hperm by solve_Permutation.
  rewrite Hperm in Hnd. split; simpl; [done| |done| |].
  - rewrite length_app in *. simpl in *. lia.
  - intros x. apply NoDup_cons in Hnd as [Hp _]. destruct (decide (p = x)) as [<-|Hne].
    + rewrite upd_eq, decide_False; [done|set_solver].
    + rewrite upd_ne, Hb by done. repeat case_decide; set_solver.
  - intros x Hx. apply Hg. set_solver.
Qed.

Lemma inv_up q n s h1 p h2 bl s' gs ws :
  n < 2 ^ 31 → conf_inv q n (Conf s (h1 ++ p :: h2) bl) gs ws → up q s = Ok (tt, s') →
  ∃ gs' ws', conf_inv q n (Conf s' (h1 ++ h2) bl) gs' ws'.
Proof.
  intros Hn [Hs Hc Hnd Hb Hg] E. simpl in *. rewrite length_app in Hc. simpl in Hc.
  assert ((h1 ++ p :: h2) ++ gs ++ ws ≡ₚ p :: (h1 ++ h2) ++ gs ++ ws) as Hperm by solve_Permutation.
  rewrite Hperm in Hnd. apply NoDup_cons in Hnd as [_ Hnd].
  destruct ws as [|w ws].
  - destruct (up_free s q _ Hs) as [E' Hs']; [lia|]. rewrite E in E'. injection E' as ->.
    exists gs, []. split; simpl; rewrite ?upd_eq; [done|rewrite length_app; lia|done|done|].
    intros x Hx. by apply Hg.
  - destruct (up_wakes s q _ w ws s' Hs E) as (Hv & Hs' & Hgw & (Fp & Fq & Fv & Ff & Fl & _)).
    exists (gs ++ [w]), ws. split; simpl.
    + by rewrite Fv, Hv.
    + rewrite Fv, !length_app. simpl. lia.
    + by rewrite <-(app_assoc gs).
    + intros x. rewrite Hb, <-(app_assoc gs). done.
    + intros x [Hx|Hx]%elem_of_app; [|apply list_elem_of_singleton in Hx as ->; done].
      apply NoDup_app in Hnd as (_ & _ & Hnd). apply NoDup_app in Hnd as (_ & Hnd & _). specialize (Hnd x Hx).
      eapply granted_frame; [by apply Hg| |].
      * apply Fl. rewrite not_elem_of_cons, elem_of_nodes. done.
      * apply Ff. set_solver.
Qed.

Lemma inv_other q n s h bl s' gs ws :
  conf_inv q n (Conf s h bl) gs ws → quiet q bl s s' → conf_inv q n (Conf s' h bl) gs ws.
Proof.
  intros [Hs Hc Hnd Hb Hg] (Hv & Hl & Hp). simpl in *.
  assert (∀ p, p ∈ gs ++ ws → bl p ≠ None) as Hbl by (intros p Hin; by rewrite Hb, decide_True).
  split; simpl; [|by rewrite Hv|done|done|].
  - rewrite Hv. eapply sem_inv_frame; [exact Hs|done| |].
    + intros x [->|(w & -> & Hw)%list_elem_of_fmap]%elem_of_cons; [done|]. apply Hp, Hbl. set_solver.
    + intros w Hw [? ? Hst Hwt]. destruct (Hp w) as (? & ? & ? & ? & Hx); [apply Hbl; set_solver|].
      destruct (Hx Hst Hwt). split; congruence.
  - intros x Hx. destruct (Hp x) as (? & ? & ? & ? & _); [apply Hbl; set_solver|]. eapply granted_frame; eauto.
Qed.

Lemma conf_inv_reachable q n c c' :
  n < 2 ^ 31 → rtc (sstep q) c c' → (∃ gs ws, conf_inv q n c gs ws) → ∃ gs ws, conf_inv q n c' gs ws.
Proof.
  intros Hn. induction 1 as [|c1 c2 c3 Hstep _ IH]; [done|]. intros (gs & ws & Hi). apply IH.
  destruct Hstep.
  - eexists _, _. by eapply inv_down.
  - eexists _, _. by eapply inv_block.
  - edestruct inv_resume; eauto.
  - by eapply inv_up.
  - eexists _, _. by eapply inv_other.
Qed.

(** The scheduler is such other code: a process may yield anywhere. *)
Lemma schedule_quiet q bl s s' : on_sc schedule s = Ok (tt, s') → quiet q bl s s'.
Proof.
  unfold on_sc, zoom. destruct (schedule _) as [[[] sc']| |] eqn:E; [|done|done]. intros [= <-].
  apply (schedule_keeps []) in E. split_and!; [done..|]. intros p _. split_and!; [done..|].
  simpl. destruct (E p ltac:(set_solver)) as [-> ->]. done.
Qed.

Lemma sem_init_inv q n s s' : 0 ≤ n < 2 ^ 31 → sem_init q n s = Ok (tt, s') → sem_inv s' q n [].
Proof.
  intros Hn [= <-]. split; simpl; [apply list_init_dll|by rewrite upd_eq|lia|done|set_solver].
Qed.

(** ** Properties *)

(** C2. Semaphores are safe: start from [sem_init sem n] and let any processes
    interleave [down] and [up] (a process calls [up] only after it passed [down]),
    with any other kernel code in between that does not touch the semaphore.
    Then the value plus the processes that hold the semaphore plus those it was
    handed to is always [n], so a mutex has at most one holder; while the value is
    positive nobody sleeps, and a process that was handed the semaphore returns
    from [down] without tripping its assertion. *)
Theorem sem_mutual_exclusion q n s0 s1 c :
  0 ≤ n < 2 ^ 31 → sem_init q n s0 = Ok (tt, s1) →
  rtc (sstep q) (Conf s1 [] (λ _, None)) c →
  ∃ gs ws, NoDup (holders c ++ gs ++ ws) ∧ 0 ≤ sem_value (cst c) q ∧
    sem_value (cst c) q + Z.of_nat (length (holders c)) + Z.of_nat (length gs) = n ∧
    (0 < sem_value (cst c) q → ws = []) ∧
    (∀ p, blocked c p ≠ None ↔ p ∈ gs ++ ws) ∧
    (∀ p k, p ∈ gs → blocked c p = Some k → k (cst c) = Ok (Ret tt, cst c)) ∧
    (∀ p, p ∈ ws → p_state (procs (sc (cst c)) p) = PROC_SLEEPING).
Proof.
  intros Hn E Hrtc. destruct (conf_inv_reachable q n _ c ltac:(lia) Hrtc) as (gs & ws & [Hs Hc Hnd Hb Hg]).
  { pose proof (sem_init_inv q n s0 s1 Hn E) as Hi. exists [], [].
    split; simpl; rewrite ?(si_value _ _ _ _ Hi); [done|lia|constructor|done|set_solver]. }
  exists gs, ws. split_and!; [done|apply (si_range _ _ _ _ Hs)|done|apply (si_handoff _ _ _ _ Hs)|..].
  - intros p. rewrite Hb. case_decide; naive_solver.
  - intros p k Hp. rewrite Hb, decide_True by set_solver. intros [= <-]. by apply down_resumes, Hg.
  - intros p Hp. by apply (si_waiters _ _ _ _ Hs).
Qed.

(** [up] on a semaphore with waiters hands it to the process that has waited
    longest: that process leaves the queue, enters the run pool and will find the
    wakeup flags it waits for; the other waiters keep their order and the
    value stays 0. It returns whenever the run queue is well formed. *)
Theorem up_hands_over s q v w ws base t :
  sem_inv s q v (w :: ws) → rq_inv (sc s) base t → sleeper (sc s) base t w →
  Z.of_nat (length (elems t)) + 1 < 2 ^ 32 →
  ∃ s' t', up q s = Ok (tt, s') ∧ sem_inv s' q 0 ws ∧ granted s' w ∧
    rq_inv (sc s') base t' ∧ elems t' ≡ₚ w :: elems t ∧ current (sc s') = current (sc s).
Proof.
  intros Hi Hrq Hsl Hroom. destruct (up_handoff s q v w ws Hi) as [E _].
  destruct (wakeup_sleeper_spec (sc s) base t w Hrq Hsl Hroom) as (t' & sc' & Ew & Hrq' & Hp & (_ & _ & Hcur & _) & _).
  unfold on_sc in E. rewrite (zoom_ok sc set_sc _ _ tt sc') in E by exact Ew.
  destruct (up_wakes s q v w ws _ Hi E) as (_ & Hs' & Hg & _).
  eexists _, t'. split; [exact E|]. by do 4 (split; [done|]).
Qed.

(** Processes 1 and 2 are runnable, process 1 runs; no wait queue exists yet. *)
Definition example_sync : sync :=
  Sync (example_sched (λ _, 0)) (λ _, None) (λ _, 0) (λ _, None) (λ _, ListEntry (QHead QStdin) (QHead QStdin))
    (λ _, 0) (λ _, 0) (λ _, 0) (λ _, 0) (λ _, None).

Definition mutex : queue := QSem 7.
Definition mutex_1 : sync := set_w_link (list_init (QHead mutex)) (set_sem_value mutex 1 example_sync).
(** Process 1 holds the mutex and process 2 runs. *)
Definition mutex_2 : sync := let s := set_sem_value mutex 0 mutex_1 in set_sc (set_current 2 (sc s)) s.
Lemma mutex_2_blocks : ∃ k s, down mutex mutex_2 = Ok (Suspended k, s).
Proof.
  assert (match down mutex mutex_2 with Ok (Suspended _, _) => true | _ => false end = true) as H
    by (vm_compute; reflexivity).
  destruct (down mutex mutex_2) as [[[|k] s]| |]; try discriminate. by exists k, s.
Qed.

Lemma sem_mutual_exclusion_witness : ∃ k s,
  rtc (sstep mutex) (Conf mutex_1 [] (λ _, None)) (Conf s [1] (upd 2 (Some k) (λ _, None))) ∧
  sem_value s mutex = 0.
Proof.
  destruct mutex_2_blocks as (k & s & Ek).
  assert (rtc (sstep mutex) (Conf mutex_1 [] (λ _, None)) (Conf s [1] (upd 2 (Some k) (λ _, None)))) as Hr.
  { eapply rtc_l; [|eapply rtc_l; [|eapply rtc_once]].
    - eapply (ss_down _ _ _ _ 1); [split; [reflexivity|discriminate]|reflexivity|apply not_elem_of_nil|].
      eapply down_free; [apply (sem_init_inv mutex 1 example_sync); [lia|reflexivity]|lia].
    - change (1 - 1) with 0. apply (ss_other _ _ _ _ mutex_2). unfold mutex_2. unfold quiet.
      cbn [sem_value w_link set_sc]. split; [done|]. split; [done|]. intros p Hp. done.
    - eapply (ss_block _ _ _ _ 2); [split; [reflexivity|discriminate]|reflexivity|by rewrite list_elem_of_singleton|exact Ek]. }
  exists k, s. split; [exact Hr|].
  destruct (sem_mutual_exclusion mutex 1 example_sync mutex_1 _ ltac:(lia) eq_refl Hr)
    as (gs & ws & _ & Hv & Hc & _). cbn [cst holders length] in Hv, Hc. lia.
Defined.

(** Process 2 sleeps in the queue and process 1 runs. *)
Definition mutex_3 : sync :=
  let s := blocked_state mutex 2 mutex_2 in set_sc (set_current 1 (sc s)) s.

Lemma mutex_3_inv : sem_inv mutex_3 mutex 0 [2].
Proof.
  assert (sem_inv mutex_2 mutex 0 []) as H2.
  { split; simpl; [apply list_init_dll|done|lia|done|set_solver]. }
  pose proof (blocked_state_inv mutex_2 mutex [] 2 H2 (not_elem_of_nil 2)) as H3.
  eapply sem_inv_frame; [exact H3|done|done|]. by intros w _ [? ? ? ?].
Qed.

Lemma up_hands_over_witness : ∃ s', up mutex mutex_3 = Ok (tt, s') ∧ granted s' 2.
Proof.
  destruct (up_hands_over mutex_3 mutex 0 2 [] 0 Leaf) as (s' & t' & E & _ & Hg & _).
  - apply mutex_3_inv.
  - split; simpl; try set_solver; try done. split; try done. constructor.
  - split; [reflexivity|simpl; set_solver|discriminate..|vm_compute; discriminate|vm_compute; discriminate].
  - simpl. lia.
  - exists s'. split; [exact E|exact Hg].
Defined.
