(* ===== verification/Philosophers.v ===== *)
(** * kern/sync/check_sync.c: the dining philosophers

    Five kernel threads share forks, once with semaphores and once with a monitor.
    The table is the state of [Sync] with the two arrays of the program; the
    philosophers' procedures are threads that suspend where the semaphores block.
    The second half proves the semaphore version: over all interleavings neighbours
    never eat together, and a philosopher waits only for a neighbour that eats. *)

From S2P Require Import Prelude ListH SkewHeap Sched SchedProofs Timers Sync SyncProofs.

(** ** State *)

Record table := Table {
  tsync : sync;
  state_sema : Z → Z;
  state_condvar : Z → Z;
}.

Definition set_tsync (v : sync) (t : table) : table := Table v (state_sema t) (state_condvar t).
Definition set_state_sema (i v : Z) (t : table) : table := Table (tsync t) (upd i v (state_sema t)) (state_condvar t).
Definition set_state_condvar (i v : Z) (t : table) : table := Table (tsync t) (state_sema t) (upd i v (state_condvar t)).

Definition on_sync {A} (m : M sync A) : M table A := zoom tsync set_tsync m.

(** A thread on a part of the state as a thread on the whole. *)
Fixpoint zoom_thread {T S A} (get : T → S) (put : S → T → T) (t : thread S A) : thread T A :=
  match t with
  | Ret a => Ret a
  | Suspended m => Suspended (λ s,
      match m (get s) with
      | Ok (t', v) => Ok (zoom_thread get put t', put v s)
      | Panic => Panic
      | Fuel => Fuel
      end)
  end.

Definition sync_thread {A} (m : M sync (thread sync A)) : M table (thread table A) :=
  t ← on_sync m; mret (zoom_thread tsync set_tsync t).

Definition N : Z := 5.
Definition LEFT (i : Z) : Z := Z.rem (i - 1 + N) N.
Definition RIGHT (i : Z) : Z := Z.rem (i + 1) N.
Definition THINKING : Z := 0.
Definition HUNGRY : Z := 1.
Definition EATING : Z := 2.

Section philosophers.
(** The addresses of [mutex], of the array [s] and of the monitor [mt]. *)
Context (at_mutex at_s mtp : Z).

Definition mutex : queue := QSem at_mutex.
Definition s_sem (i : Z) : queue := QSem (at_s + i).

(** ** Semaphores *)

Definition phi_test_sema (i : Z) : M table unit :=
  t ← gets state_sema;
  when ((t i =? HUNGRY) && negb (t (LEFT i) =? EATING) && negb (t (RIGHT i) =? EATING))%bool
    (modify (set_state_sema i EATING);;
     on_sync (up (s_sem i))).

Definition phi_take_forks_sema (i : Z) : M table (thread table unit) :=
  _ ⇐ sync_thread (down mutex);
  (modify (set_state_sema i HUNGRY);;
   phi_test_sema i;;
   on_sync (up mutex);;
   sync_thread (down (s_sem i))).

Definition phi_put_forks_sema (i : Z) : M table (thread table unit) :=
  _ ⇐ sync_thread (down mutex);
  (modify (set_state_sema i THINKING);;
   phi_test_sema (LEFT i);;
   phi_test_sema (RIGHT i);;
   on_sync (up mutex);;
   tret tt).

(** The semaphores as [check_sync] sets them up. *)
Definition init_sema : M sync unit :=
  sem_init mutex 1;;
  for_range 0 (Z.to_nat N) (λ i, sem_init (s_sem i) 0).

(** ** The monitor *)

(** [&mtp->cv[i]]; the array must have been allocated. *)
Definition cv (i : Z) : M table Z :=
  c ← gets (λ t, mon_cv (tsync t) mtp);
  match c with Some c => mret (c + i) | None => panic end.

Definition phi_test_condvar (i : Z) : M table (thread table unit) :=
  t ← gets state_condvar;
  if ((t i =? HUNGRY) && negb (t (LEFT i) =? EATING) && negb (t (RIGHT i) =? EATING))%bool then
    modify (set_state_condvar i EATING);;
    c ← cv i;
    sync_thread (cond_signal c)
  else tret tt.

(** The end of a routine in the monitor. *)
Definition leave_monitor : M table unit :=
  n ← gets (λ t, next_count (tsync t) mtp);
  if 0 <? n then on_sync (up (QNext mtp)) else on_sync (up (QMutex mtp)).

Definition phi_take_forks_condvar (i : Z) : M table (thread table unit) :=
  _ ⇐ sync_thread (down (QMutex mtp));
  (modify (set_state_condvar i HUNGRY);;
   _ ⇐ phi_test_condvar i;
   t ← gets state_condvar;
   _ ⇐ (if t i =? HUNGRY then c ← cv i; sync_thread (cond_wait c) else tret tt);
   (leave_monitor;; tret tt)).

Definition phi_put_forks_condvar (i : Z) : M table (thread table unit) :=
  _ ⇐ sync_thread (down (QMutex mtp));
  (modify (set_state_condvar i THINKING);;
   _ ⇐ phi_test_condvar (LEFT i);
   _ ⇐ phi_test_condvar (RIGHT i);
   (leave_monitor;; tret tt)).

End philosophers.

(** ** Several semaphores *)

(** A change at the semaphore [q] and at the process [w]. *)
Record apart (q : queue) (w : option Z) (u u' : sync) : Prop := Apart {
  ap_sem : ∀ q' v ws, q' ≠ q → (∀ x, w = Some x → x ∉ ws) → sem_inv u q' v ws → sem_inv u' q' v ws;
  ap_granted : ∀ p, w ≠ Some p → granted u p → granted u' p;
  ap_count : cv_count u' = cv_count u;
  ap_next : next_count u' = next_count u;
  ap_owner : cv_owner u' = cv_owner u;
  ap_cv : mon_cv u' = mon_cv u;
}.

Lemma set_value_apart q v u : apart q None u (set_sem_value q v u).
Proof.
  split; try done. intros q' v' ws Hq _ Hi. eapply sem_inv_frame; [exact Hi|simpl; by rewrite upd_ne|done|].
  by intros w _ [? ? ? ?].
Qed.

(** A granted process is in no queue. *)
Lemma granted_not_waiting u q v ws p : sem_inv u q v ws → granted u p → p ∉ ws.
Proof.
  intros Hi [He _] Hp. rewrite (list_empty_member _ _ _ _ (si_links _ _ _ _ Hi)) in He; [done|]. by rewrite elem_of_nodes.
Qed.

Lemma waiter_queue u q v ws q' v' ws' w : sem_inv u q v ws → sem_inv u q' v' ws' → q' ≠ q → w ∈ ws → w ∉ ws'.
Proof.
  intros Hi Hi' Hq Hw Hw'. destruct (si_waiters _ _ _ _ Hi w Hw) as [_ E _ _]. destruct (si_waiters _ _ _ _ Hi' w Hw') as [_ E' _ _].
  congruence.
Qed.

Lemma up_apart u q v w ws u' :
  sem_inv u q v (w :: ws) → up q u = Ok (tt, u') → apart q (Some w) u u'.
Proof.
  intros Hi E. destruct (up_wakes _ _ _ _ _ _ Hi E) as (_ & _ & _ & Fp & Fq & Fv & Ff & Fl & Fs).
  destruct (up_handoff u q v w ws Hi) as [E1 _]. rewrite E1 in E. unfold on_sc, zoom in E.
  destruct (wakeup_proc w _) as [[[] sc']| |]; [|done|done]. injection E as <-. split; try done.
  - intros q' v' ws' Hq Hw Hi'. pose proof (λ p, waiter_queue _ _ _ _ _ _ _ p Hi Hi' Hq) as Hd.
    eapply sem_inv_frame; [exact Hi'|by rewrite Fv| |].
    + intros x Hx. apply Fl. intros [->|Hy]%elem_of_cons.
      * apply elem_of_cons in Hx as [?|(y & ? & _)%list_elem_of_fmap]; congruence.
      * apply list_elem_of_fmap in Hy as (y & -> & Hy). apply elem_of_cons in Hx as [?|Hx]; [done|]. rewrite elem_of_nodes in Hx.
        by eapply Hd.
    + intros p Hp [? ? ? ?]. destruct (Fs p) as [E2 E3]; [|split; congruence].
      intros ->%list_elem_of_singleton. by eapply Hw.
  - intros p Hp Hg. pose proof (granted_not_waiting _ _ _ _ _ Hi Hg) as Hnw. eapply granted_frame; [exact Hg| |].
    + apply Fl. rewrite not_elem_of_cons, elem_of_nodes. done.
    + apply Ff. intros ->. done.
Qed.

Lemma block_apart u q w ws u' :
  sem_inv u q 0 ws → w ∉ ws → on_sc schedule (blocked_state q w u) = Ok (tt, u') →
  sem_inv u' q 0 (ws ++ [w]) ∧ apart q (Some w) u u'.
Proof.
  intros Hi Hw E. unfold on_sc, zoom in E. destruct (schedule _) as [[[] sc']| |] eqn:Es; [|done|done]. injection E as <-.
  apply (schedule_keeps []) in Es.
  assert (∀ q' v ws, sem_inv (blocked_state q w u) q' v ws → sem_inv (set_sc sc' (blocked_state q w u)) q' v ws) as Hsch.
  { intros q' v ws' Hi'. eapply sem_inv_frame; [exact Hi'|done|done|]. intros p _ [? ? ? ?].
    destruct (Es p ltac:(set_solver)) as [E1 E2]. split; [done|done|by etrans; [exact E1|]|by etrans; [exact E2|]]. }
  assert (dll (list_init (WNode w) (w_link u)) (QHead q) (WNode <$> ws)) as Hl.
  { eapply dll_frame; [|apply (si_links _ _ _ _ Hi)]. intros z Hz. apply list_init_other. intros ->.
    apply elem_of_cons in Hz as [?|Hz]; [done|]. by rewrite elem_of_nodes in Hz. }
  split; [by apply Hsch, blocked_state_inv|]. split; try done.
  - intros q' v ws' Hq Hx Hi'. specialize (Hx w eq_refl). apply Hsch. eapply sem_inv_frame; [exact Hi'|done| |].
    + intros x Hx'. simpl. rewrite (list_add_before_head_other _ _ (WNode <$> ws)); [|done|].
      * apply list_init_other. intros ->. apply elem_of_cons in Hx' as [?|Hx']; [done|]. by rewrite elem_of_nodes in Hx'.
      * apply elem_of_cons in Hx' as [->|(y & -> & Hy)%list_elem_of_fmap].
        -- rewrite !not_elem_of_cons. split_and!; [congruence|done|]. intros (y & ? & _)%list_elem_of_fmap. done.
        -- rewrite !not_elem_of_cons, elem_of_nodes. split_and!; [done|intros [= ->]; done|]. intros Hy'.
           by eapply (waiter_queue _ _ _ _ _ _ _ y Hi Hi' Hq).
    + intros p Hp [? ? ? ?]. assert (w ≠ p) by (intros ->; done). split; simpl; by rewrite !upd_ne by done.
  - intros p Hp Hg. pose proof (granted_not_waiting _ _ _ _ _ Hi Hg) as Hnw. assert (w ≠ p) by congruence.
    eapply granted_frame; [exact Hg| |simpl; by rewrite upd_ne].
    simpl. rewrite (list_add_before_head_other _ _ (WNode <$> ws)); [|done|].
    + apply list_init_other. congruence.
    + rewrite !not_elem_of_cons, elem_of_nodes. split_and!; [done|congruence|done].
Qed.

Lemma sem_init_apart q x u u' : sem_init q x u = Ok (tt, u') → (∀ q', q' ≠ q → sem_inv u q' (sem_value u q') [] → sem_inv u' q' (sem_value u q') []).
Proof.
  intros [= <-] q' Hq Hi. eapply sem_inv_frame; [exact Hi|simpl; by rewrite upd_ne| |set_solver]. intros y Hy. simpl in *.
  apply list_elem_of_singleton in Hy as ->. apply list_init_other. congruence.
Qed.

(** ** The semaphore version *)

Definition phil (i : Z) : Prop := 0 ≤ i < N.

Lemma phil_cases i : phil i → i = 0 ∨ i = 1 ∨ i = 2 ∨ i = 3 ∨ i = 4.
Proof. unfold phil, N. lia. Qed.

Ltac phil_split H := destruct (phil_cases _ H) as [->|[->|[->|[->| ->]]]].

Lemma neighbours i : phil i → phil (LEFT i) ∧ phil (RIGHT i) ∧ LEFT i ≠ i ∧ RIGHT i ≠ i ∧ LEFT i ≠ RIGHT i ∧
  RIGHT (LEFT i) = i ∧ LEFT (RIGHT i) = i.
Proof. intros H. phil_split H; vm_compute; intuition discriminate. Qed.

(** What a philosopher is doing: between its calls, or suspended in one of them. *)
Inductive phase :=
| Thinking
| Taking (k : M table (thread table unit))
| Eating
| Putting (k : M table (thread table unit)).

Record dinner := Dinner {
  d_table : table;
  d_phase : Z → phase;
}.

(** The phase after a part of [phi_take_forks] or [phi_put_forks]. *)
Definition took (r : thread table unit) : phase := match r with Ret _ => Eating | Suspended k => Taking k end.
Definition dropped (r : thread table unit) : phase := match r with Ret _ => Thinking | Suspended k => Putting k end.

Definition suspended (p : phase) : bool := match p with Taking _ | Putting _ => true | _ => false end.

Section dinner.
(** The procedures of the philosophers, the process of each and the semaphores they use. *)
Context (take_forks put_forks : Z → M table (thread table unit)) (proc : Z → Z) (uses : queue → Prop).

(** Other code leaves the semaphores, the arrays and the sleep of the philosophers alone. *)
Record undisturbed (ph : Z → phase) (t t' : table) : Prop := Undisturbed {
  un_sema : state_sema t' = state_sema t;
  un_condvar : state_condvar t' = state_condvar t;
  un_count : cv_count (tsync t') = cv_count (tsync t);
  un_next : next_count (tsync t') = next_count (tsync t);
  un_owner : cv_owner (tsync t') = cv_owner (tsync t);
  un_cv : mon_cv (tsync t') = mon_cv (tsync t);
  un_sem : ∀ q, uses q → sem_value (tsync t') q = sem_value (tsync t) q ∧ w_link (tsync t') (QHead q) = w_link (tsync t) (QHead q);
  un_phil : ∀ i, phil i → suspended (ph i) = true →
    w_proc (tsync t') (proc i) = w_proc (tsync t) (proc i) ∧ w_flags (tsync t') (proc i) = w_flags (tsync t) (proc i) ∧
    w_queue (tsync t') (proc i) = w_queue (tsync t) (proc i) ∧ w_link (tsync t') (WNode (proc i)) = w_link (tsync t) (WNode (proc i)) ∧
    (p_state (procs (sc (tsync t)) (proc i)) = PROC_SLEEPING → p_wait_state (procs (sc (tsync t)) (proc i)) = WT_KSEM →
      p_state (procs (sc (tsync t')) (proc i)) = PROC_SLEEPING ∧ p_wait_state (procs (sc (tsync t')) (proc i)) = WT_KSEM);
}.

(** A running philosopher goes on to its next suspension. *)
Inductive dstep : dinner → dinner → Prop :=
| ds_take t ph i r t' :
    phil i → runs (tsync t) (proc i) → ph i = Thinking → take_forks i t = Ok (r, t') →
    dstep (Dinner t ph) (Dinner t' (upd i (took r) ph))
| ds_taking t ph i k r t' :
    phil i → runs (tsync t) (proc i) → ph i = Taking k → k t = Ok (r, t') →
    dstep (Dinner t ph) (Dinner t' (upd i (took r) ph))
| ds_put t ph i r t' :
    phil i → runs (tsync t) (proc i) → ph i = Eating → put_forks i t = Ok (r, t') →
    dstep (Dinner t ph) (Dinner t' (upd i (dropped r) ph))
| ds_putting t ph i k r t' :
    phil i → runs (tsync t) (proc i) → ph i = Putting k → k t = Ok (r, t') →
    dstep (Dinner t ph) (Dinner t' (upd i (dropped r) ph))
| ds_other t ph t' :
    undisturbed ph t t' → dstep (Dinner t ph) (Dinner t' ph).

Lemma undisturbed_sem ph t t' q v ws :
  undisturbed ph t t' → uses q → (∀ w, w ∈ ws → ∃ i, phil i ∧ w = proc i ∧ suspended (ph i) = true) →
  sem_inv (tsync t) q v ws → sem_inv (tsync t') q v ws.
Proof.
  intros Hu Hq Hws Hi. destruct (un_sem _ _ _ Hu q Hq) as [Ev El]. eapply sem_inv_frame; [exact Hi|done| |].
  - intros x [->|(w & -> & Hw)%list_elem_of_fmap]%elem_of_cons; [done|]. destruct (Hws w Hw) as (i & Hp & -> & Hs).
    apply (un_phil _ _ _ Hu i Hp Hs).
  - intros w Hw [? ? Hst Hwt]. destruct (Hws w Hw) as (i & Hp & -> & Hs).
    destruct (un_phil _ _ _ Hu i Hp Hs) as (? & ? & ? & ? & Hx). destruct (Hx Hst Hwt). split; congruence.
Qed.

Lemma undisturbed_granted ph t t' i :
  undisturbed ph t t' → phil i → suspended (ph i) = true → granted (tsync t) (proc i) → granted (tsync t') (proc i).
Proof. intros Hu Hp Hs Hg. destruct (un_phil _ _ _ Hu i Hp Hs) as (? & ? & ? & ? & _). eapply granted_frame; eauto. Qed.

End dinner.

(** ** The array of states *)

Definition may_eat (st : Z → Z) (i : Z) : bool :=
  ((st i =? HUNGRY) && negb (st (LEFT i) =? EATING) && negb (st (RIGHT i) =? EATING))%bool.
Definition test (st : Z → Z) (i : Z) : Z → Z := if may_eat st i then upd i EATING st else st.

(** Neighbours do not eat together, and a hungry philosopher has a neighbour that eats. *)
Record forks (st : Z → Z) : Prop := Forks {
  fk_apart : ∀ i, phil i → st i = EATING → st (RIGHT i) ≠ EATING;
  fk_wait : ∀ i, phil i → st i = HUNGRY → st (LEFT i) = EATING ∨ st (RIGHT i) = EATING;
}.

Lemma test_grows st i j : st j = EATING → test st i j = EATING.
Proof.
  intros Hj. unfold test. destruct (may_eat st i); [|done]. destruct (decide (i = j)) as [<-|]; [by rewrite upd_eq|by rewrite upd_ne].
Qed.

Lemma test_hungry st i j : test st i j = HUNGRY →
  st j = HUNGRY ∧ (j = i → test st i (LEFT i) = EATING ∨ test st i (RIGHT i) = EATING).
Proof.
  unfold test at 1. destruct (may_eat st i) eqn:Hm; intros Hj.
  - destruct (decide (i = j)) as [<-|]; [by rewrite upd_eq in Hj|]. rewrite upd_ne in Hj by done. by split; [|intros ->].
  - split; [done|]. intros ->. unfold test. rewrite Hm. unfold may_eat in Hm.
    destruct (Z.eqb_spec (st (LEFT i)) EATING); [by left|]. destruct (Z.eqb_spec (st (RIGHT i)) EATING); [by right|].
    by rewrite (proj2 (Z.eqb_eq _ _) Hj) in Hm.
Qed.

Lemma test_apart st i : phil i → (∀ j, phil j → st j = EATING → st (RIGHT j) ≠ EATING) →
  ∀ j, phil j → test st i j = EATING → test st i (RIGHT j) ≠ EATING.
Proof.
  intros Hi Ha j Hj. unfold test. destruct (may_eat st i) eqn:Hm; [|by apply Ha].
  destruct (neighbours i Hi) as (_ & _ & Hl & Hr & _). destruct (neighbours j Hj) as (_ & _ & _ & Hr' & _ & _ & Hlr).
  apply andb_true_iff in Hm as [[_ HL]%andb_true_iff HR]. apply negb_true_iff, Z.eqb_neq in HL, HR.
  destruct (decide (i = j)) as [<-|Hne]; [intros _; by rewrite upd_ne by (by apply not_eq_sym)|]. rewrite upd_ne by done. intros Hs.
  destruct (decide (i = RIGHT j)) as [->|Hne']; [by rewrite Hlr in HL|]. rewrite upd_ne by done. by apply Ha.
Qed.

Lemma forks_take st i : forks st → phil i → st i = THINKING → forks (test (upd i HUNGRY st) i).
Proof.
  intros [Ha Hw] Hi Hs. split.
  - apply test_apart; [done|]. intros j Hj. destruct (decide (i = j)) as [<-|]; [by rewrite upd_eq|]. rewrite upd_ne by done. intros Hj'.
    destruct (decide (i = RIGHT j)) as [<-|]; [by rewrite upd_eq|]. rewrite upd_ne by done. by apply Ha.
  - intros j Hj Hh. destruct (test_hungry _ _ _ Hh) as [Hj1 Hself]. destruct (decide (j = i)) as [->|Hne]; [auto|].
    rewrite upd_ne in Hj1 by done. assert (∀ x, st x = EATING → upd i HUNGRY st x = EATING) as Hx.
    { intros x Hx. rewrite upd_ne; [done|]. intros ->. by rewrite Hx in Hs. }
    destruct (Hw j Hj Hj1); [left|right]; auto using test_grows.
Qed.

(** Neighbours do not eat together; a hungry philosopher has a neighbour that eats, or it
    is the right neighbour that a philosopher has still to look at. *)
Record wforks (st : Z → Z) (pend : option Z) : Prop := Wforks {
  wf_apart : ∀ i, phil i → st i = EATING → st (RIGHT i) ≠ EATING;
  wf_wait : ∀ i, phil i → st i = HUNGRY → st (LEFT i) = EATING ∨ st (RIGHT i) = EATING ∨ pend = Some i;
}.

Lemma wforks_forks st : wforks st None ↔ forks st.
Proof.
  split; intros [Ha Hw]; split; try done; intros i Hi Hs.
  - destruct (Hw i Hi Hs) as [?|[?|?]]; auto. done.
  - destruct (Hw i Hi Hs); auto.
Qed.

Lemma wforks_weaken st pend : forks st → wforks st pend.
Proof. intros [Ha Hw]. split; [done|]. intros i Hi Hs. destruct (Hw i Hi Hs); auto. Qed.

(** After the left neighbour has been looked at. *)
Lemma wforks_left st i : forks st → phil i → wforks (test (upd i THINKING st) (LEFT i)) (Some (RIGHT i)).
Proof.
  intros [Ha Hw] Hi. destruct (neighbours i Hi) as (Hli & Hri & _). split.
  - apply test_apart; [done|]. intros j Hj. destruct (decide (i = j)) as [<-|]; [by rewrite upd_eq|].
    rewrite upd_ne by done. intros Hj'. destruct (decide (i = RIGHT j)) as [<-|]; [by rewrite upd_eq|]. rewrite upd_ne by done. by apply Ha.
  - intros j Hj Hh. destruct (test_hungry _ _ _ Hh) as [Hj1 Hl].
    destruct (decide (j = RIGHT i)) as [->|Hnr]; [auto|]. destruct (decide (j = LEFT i)) as [->|Hnl]; [by destruct (Hl eq_refl); auto|].
    destruct (neighbours j Hj) as (_ & _ & _ & _ & _ & Hrl & Hlr). destruct (decide (i = j)) as [<-|Hne]; [by rewrite upd_eq in Hj1|].
    rewrite upd_ne in Hj1 by done. destruct (Hw j Hj Hj1) as [E|E]; [left|right; left]; apply test_grows; rewrite upd_ne; try done.
    + intros ->. congruence.
    + intros ->. congruence.
Qed.

(** After the right neighbour has been looked at. *)
Lemma wforks_right st i : wforks st (Some (RIGHT i)) → phil i → forks (test st (RIGHT i)).
Proof.
  intros [Ha Hw] Hi. destruct (neighbours i Hi) as (_ & Hri & _). split; [by apply test_apart|].
  intros j Hj Hh. destruct (test_hungry _ _ _ Hh) as [Hj1 Hself].
  destruct (Hw j Hj Hj1) as [E|[E|[= <-]]]; [left|right|auto]; by apply test_grows.
Qed.

Lemma forks_put st i : forks st → phil i → forks (test (test (upd i THINKING st) (LEFT i)) (RIGHT i)).
Proof. intros Hf Hi. by apply wforks_right, Hi; apply wforks_left. Qed.

Lemma may_eat_hungry st i : may_eat st i = true → st i = HUNGRY.
Proof. by intros [[?%Z.eqb_eq _]%andb_true_iff _]%andb_true_iff. Qed.

Lemma test_new st i j : test st i j = EATING → st j = EATING ∨ j = i ∧ may_eat st i = true.
Proof.
  unfold test. destruct (may_eat st i); [|by left]. destruct (decide (i = j)) as [<-|]; [by right|]. rewrite upd_ne by done. by left.
Qed.

Lemma test_hungry_at st i j :
  (test st i j =? HUNGRY) = if decide (i = j) then ((st j =? HUNGRY) && negb (may_eat st i))%bool else (st j =? HUNGRY).
Proof.
  unfold test. destruct (may_eat st i); case_decide as Hd.
  - subst. by rewrite upd_eq, andb_false_r.
  - by rewrite upd_ne.
  - by rewrite andb_true_r.
  - done.
Qed.

Lemma test_cases st i j : test st i j = st j ∨ st j = HUNGRY ∧ test st i j = EATING.
Proof.
  unfold test. destruct (may_eat st i) eqn:Hm; [|by left]. destruct (decide (i = j)) as [<-|]; [|left; by rewrite upd_ne].
  right. rewrite upd_eq. by apply may_eat_hungry in Hm.
Qed.

Section sema.
Context (at_mutex at_s : Z) (proc : Z → Z).
Hypothesis sems_distinct : ∀ i, phil i → at_mutex ≠ at_s + i.
Hypothesis proc_inj : ∀ i j, phil i → phil j → proc i = proc j → i = j.

Notation mutex := (mutex at_mutex).
Notation s_sem := (s_sem at_s).

(** The mutex has value [m] and no waiters, the semaphore of [i] the value [v i], and [i]
    waits there if [W i]. *)
Record sems (u : sync) (m : Z) (v : Z → Z) (W : Z → bool) : Prop := Sems {
  sm_mutex : sem_inv u mutex m [];
  sm_s : ∀ i, phil i → sem_inv u (s_sem i) (v i) (if W i then [proc i] else []);
}.

Lemma sems_ext u m v W v' W' :
  sems u m v W → (∀ i, phil i → v' i = v i) → (∀ i, phil i → W' i = W i) → sems u m v' W'.
Proof. intros [Hm Hs] Hv HW. split; [done|]. intros i Hi. rewrite Hv, HW by done. by apply Hs. Qed.

Lemma s_sem_ne i j : phil i → phil j → i ≠ j → s_sem i ≠ s_sem j.
Proof. intros _ _ Hne [= ?]. lia. Qed.

Lemma s_sem_mutex i : phil i → s_sem i ≠ mutex.
Proof. intros Hi [= ?]. by apply (sems_distinct i Hi). Qed.

Lemma waits_proc (W : Z → bool) i j : phil i → phil j → i ≠ j → proc i ∉ (if W j then [proc j] else [] : list Z).
Proof. intros Hi Hj Hne. destruct (W j); [|set_solver]. intros ?%list_elem_of_singleton. by apply Hne, proc_inj. Qed.

(** A change at the mutex. *)
Lemma sems_mutex u u' m m' v W :
  sems u m v W → sem_inv u' mutex m' [] → apart mutex None u u' → sems u' m' v W.
Proof.
  intros [Hm Hs] Hm' Ha. split; [done|]. intros i Hi. apply (ap_sem _ _ _ _ Ha); [by apply s_sem_mutex|done|by apply Hs].
Qed.

(** A change at the semaphore of [i]. *)
Lemma sems_phil u u' i m v W x b w :
  sems u m v W → phil i → (w = None ∨ w = Some (proc i)) →
  sem_inv u' (s_sem i) x (if b : bool then [proc i] else []) → apart (s_sem i) w u u' → sems u' m (upd i x v) (upd i b W).
Proof.
  intros [Hm Hs] Hi Hw Hn Ha. split.
  - apply (ap_sem _ _ _ _ Ha); [by apply not_eq_sym, s_sem_mutex|intros; set_solver|done].
  - intros j Hj. destruct (decide (i = j)) as [<-|Hne]; [by rewrite !upd_eq|]. rewrite !upd_ne by done.
    apply (ap_sem _ _ _ _ Ha); [by apply s_sem_ne|intros y ->|by apply Hs].
    destruct Hw as [?|[= ->]]; [done|]. by apply waits_proc.
Qed.

Lemma down_mutex u v W : sems u 1 v W → ∃ u', down mutex u = Ok (Ret tt, u') ∧ sems u' 0 v W ∧ apart mutex None u u' ∧ sc u' = sc u.
Proof.
  intros Hs. destruct (down_free u _ _ _ (sm_mutex _ _ _ _ Hs)) as [E Hi]; [lia|]. eexists. split; [exact E|].
  split_and!; [|apply set_value_apart|done]. eapply sems_mutex; [exact Hs|exact Hi|apply set_value_apart].
Qed.

Lemma up_mutex u v W : sems u 0 v W → ∃ u', up mutex u = Ok (tt, u') ∧ sems u' 1 v W ∧ apart mutex None u u' ∧ sc u' = sc u.
Proof.
  intros Hs. destruct (up_free u _ _ (sm_mutex _ _ _ _ Hs)) as [E Hi]; [lia|]. eexists. split; [exact E|].
  split_and!; [|apply set_value_apart|done]. eapply sems_mutex; [exact Hs|exact Hi|apply set_value_apart].
Qed.

(** [up] at the semaphore of [i]: a waiting philosopher is woken, otherwise it is counted. *)
Lemma up_phil u u' i m v W :
  sems u m v W → phil i → v i = 0 → up (s_sem i) u = Ok (tt, u') →
  sems u' m (if W i then v else upd i 1 v) (upd i false W) ∧ (W i = true → granted u' (proc i)) ∧
  (∀ p, p ≠ proc i → granted u p → granted u' p).
Proof.
  intros Hs Hi Hv E. pose proof (sm_s _ _ _ _ Hs i Hi) as Hsi. rewrite Hv in Hsi. destruct (W i) eqn:HW.
  - destruct (up_wakes _ _ _ _ _ _ Hsi E) as (_ & Hi' & Hg & _). pose proof (up_apart _ _ _ _ _ _ Hsi E) as Ha. split_and!; [|done|].
    + eapply sems_ext; [eapply (sems_phil u u' i m v W 0 false); [exact Hs|done|by right|exact Hi'|exact Ha]| |done].
      intros j _. destruct (decide (i = j)) as [<-|]; [by rewrite upd_eq|by rewrite upd_ne].
    + intros p Hp. apply (ap_granted _ _ _ _ Ha). congruence.
  - destruct (up_free u _ _ Hsi) as [E' Hi']; [lia|]. rewrite E' in E. injection E as <-. split_and!; [|done|].
    + eapply (sems_phil u _ i m v W 1 false); [exact Hs|done|by left|exact Hi'|apply set_value_apart].
    + intros p _. apply (ap_granted _ _ _ _ (set_value_apart _ _ _)). done.
Qed.

Lemma down_phil_free u i v W :
  sems u 1 v W → phil i → v i = 1 → ∃ u', down (s_sem i) u = Ok (Ret tt, u') ∧ sems u' 1 (upd i 0 v) (upd i false W) ∧
    (∀ p, granted u p → granted u' p).
Proof.
  intros Hs Hi Hv. pose proof (sm_s _ _ _ _ Hs i Hi) as Hsi. destruct (down_free u _ _ _ Hsi) as [E Hn]; [lia|].
  eexists. split; [exact E|]. split.
  - rewrite Hv in Hn. eapply (sems_phil u _ i 1 v W 0 false); [exact Hs|done|by left|by rewrite Hv|apply set_value_apart].
  - intros p. apply (ap_granted _ _ _ _ (set_value_apart _ _ _)). done.
Qed.

Lemma down_phil_block u i v W r u' :
  sems u 1 v W → phil i → v i = 0 → W i = false → current (sc u) = proc i → down (s_sem i) u = Ok (r, u') →
  r = Suspended (down_resume (s_sem i) (proc i)) ∧ sems u' 1 v (upd i true W) ∧ (∀ p, p ≠ proc i → granted u p → granted u' p).
Proof.
  intros Hs Hi Hv HW Hc E. pose proof (sm_s _ _ _ _ Hs i Hi) as Hsi. rewrite Hv, HW in Hsi.
  rewrite (down_blocks _ _ _ Hsi), Hc in E. apply bind_ok_inv in E as ([] & u1 & Es & E). injection E as <- <-. split; [done|].
  destruct (block_apart u _ _ _ u1 Hsi (not_elem_of_nil _) Es) as [Hn Ha]. split.
  - eapply sems_ext; [eapply (sems_phil u u1 i 1 v W 0 true); [exact Hs|done|by right|exact Hn|exact Ha]| |done].
    intros j _. destruct (decide (i = j)) as [<-|]; [by rewrite upd_eq|by rewrite upd_ne].
  - intros p Hp. apply (ap_granted _ _ _ _ Ha). congruence.
Qed.

(** *** The procedures *)

Notation phi_test := (phi_test_sema at_s).
Notation take_forks := (phi_take_forks_sema at_mutex at_s).
Notation put_forks := (phi_put_forks_sema at_mutex at_s).

Lemma on_sync_run {A} (m : M sync A) t a u : m (tsync t) = Ok (a, u) → on_sync m t = Ok (a, set_tsync u t).
Proof. intros E. unfold on_sync. by apply zoom_ok. Qed.

Lemma sync_thread_run {A} (m : M sync (thread sync A)) t r u :
  m (tsync t) = Ok (r, u) → sync_thread m t = Ok (zoom_thread tsync set_tsync r, set_tsync u t).
Proof. intros E. unfold sync_thread. by rewrite (bind_ok _ _ _ _ _ (on_sync_run _ _ _ _ E)). Qed.

Lemma on_sync_inv {A} (m : M sync A) t a t' : on_sync m t = Ok (a, t') → ∃ u, m (tsync t) = Ok (a, u) ∧ t' = set_tsync u t.
Proof. unfold on_sync, zoom. destruct (m _) as [[a' u]| |]; [|done|done]. intros [= -> <-]. by exists u. Qed.

Lemma sync_thread_inv {A} (m : M sync (thread sync A)) t r t' :
  sync_thread m t = Ok (r, t') → ∃ r' u, m (tsync t) = Ok (r', u) ∧ r = zoom_thread tsync set_tsync r' ∧ t' = set_tsync u t.
Proof. intros (r' & t1 & E & E2)%bind_ok_inv. injection E2 as <- <-. apply on_sync_inv in E as (u & E & ->). by exists r', u. Qed.

(** What [phi_test_sema] does; [p] is any other process. *)
Lemma phi_test_run t t' i m v W :
  sems (tsync t) m v W → phil i → v i = 0 → phi_test i t = Ok (tt, t') →
  state_sema t' = test (state_sema t) i ∧
  (if may_eat (state_sema t) i
   then sems (tsync t') m (if W i then v else upd i 1 v) (upd i false W) ∧ (W i = true → granted (tsync t') (proc i)) ∧
        (∀ p, p ≠ proc i → granted (tsync t) p → granted (tsync t') p)
   else t' = t).
Proof.
  intros Hs Hi Hv E. unfold phi_test_sema in E. rewrite bind_gets in E. fold (may_eat (state_sema t) i) in E. unfold test, when in *.
  destruct (may_eat _ _); [|by injection E as <-]. rewrite bind_modify in E. apply on_sync_inv in E as (u & E & ->). split; [done|].
  by apply (up_phil _ _ _ _ _ _ Hs Hi Hv) in E.
Qed.

(** The philosopher that waits for its semaphore. *)
Definition take_resume (i : Z) : M table (thread table unit) := λ t,
  match down_resume (s_sem i) (proc i) (tsync t) with
  | Ok (r, u) => Ok (zoom_thread tsync set_tsync r, set_tsync u t)
  | Panic => Panic
  | Fuel => Fuel
  end.

Lemma enter_run (i : Z) t r t' v W (k : M table (thread table unit)) :
  sems (tsync t) 1 v W → (_ ⇐ sync_thread (down mutex); k) t = Ok (r, t') →
  ∃ u, k (set_tsync u t) = Ok (r, t') ∧ sems u 0 v W ∧ (∀ p, granted (tsync t) p → granted u p) ∧ sc u = sc (tsync t).
Proof.
  intros Hs E. destruct (down_mutex _ _ _ Hs) as (u & Eu & Hu & Ha & Hsc). unfold tbind in E.
  rewrite (bind_ok _ _ _ _ _ (sync_thread_run _ _ _ _ Eu)) in E. exists u. split_and!; [exact E|done| |done].
  intros p. by apply (ap_granted _ _ _ _ Ha).
Qed.

Lemma leave_run t r t' v W (k : M table (thread table unit)) :
  sems (tsync t) 0 v W → (on_sync (up mutex);; k) t = Ok (r, t') →
  ∃ u, k (set_tsync u t) = Ok (r, t') ∧ sems u 1 v W ∧ (∀ p, granted (tsync t) p → granted u p) ∧ sc u = sc (tsync t).
Proof.
  intros Hs E. destruct (up_mutex _ _ _ Hs) as (u & Eu & Hu & Ha & Hsc).
  rewrite (bind_ok _ _ _ _ _ (on_sync_run _ _ _ _ Eu)) in E. exists u. split_and!; [exact E|done| |done].
  intros p. by apply (ap_granted _ _ _ _ Ha).
Qed.

Lemma take_run t i r t' W :
  sems (tsync t) 1 (λ _, 0) W → phil i → W i = false → current (sc (tsync t)) = proc i → take_forks i t = Ok (r, t') →
  let st := upd i HUNGRY (state_sema t) in
  state_sema t' = test st i ∧ (∀ p, p ≠ proc i → granted (tsync t) p → granted (tsync t') p) ∧
  sems (tsync t') 1 (λ _, 0) (upd i (negb (may_eat st i)) W) ∧
  r = if may_eat st i then Ret tt else Suspended (take_resume i).
Proof.
  intros Hs Hi HW Hc E st. apply (enter_run i _ _ _ _ _ _ Hs) in E as (u0 & E & Hs0 & Hg0 & Hsc0). rewrite bind_modify in E.
  apply bind_ok_inv in E as ([] & t1 & E1 & E). destruct (phi_test_run (set_state_sema i HUNGRY (set_tsync u0 t)) _ _ _ _ _ Hs0 Hi eq_refl E1) as [Hst Ht]. simpl in Hst, Ht.
  fold st in Hst, Ht. rewrite HW in Ht. destruct (may_eat st i) eqn:Hm; simpl.
  - destruct Ht as (Hs1 & _ & Hg1). apply (leave_run _ _ _ _ _ _ Hs1) in E as (u2 & E & Hs2 & Hg2 & _).
    destruct (down_phil_free u2 i _ _ Hs2 Hi ltac:(by rewrite upd_eq)) as (u3 & E3 & Hs3 & Hg3).
    rewrite (sync_thread_run _ (set_tsync u2 t1) _ _ E3) in E. injection E as <- <-. simpl. split_and!; [done|auto| |done].
    eapply sems_ext; [exact Hs3| |]; intros j _; (destruct (decide (i = j)) as [<-|]; [by rewrite !upd_eq|by rewrite !upd_ne]).
  - subst t1. apply (leave_run (set_state_sema i HUNGRY (set_tsync u0 t)) _ _ _ _ _ Hs0) in E as (u2 & E & Hs2 & Hg2 & Hsc2). apply sync_thread_inv in E as (r' & u3 & E3 & -> & ->).
    simpl in E3, Hsc2. destruct (down_phil_block u2 i _ _ _ _ Hs2 Hi eq_refl HW ltac:(congruence) E3) as (-> & Hs3 & Hg3).
    simpl. split_and!; [done|auto|exact Hs3|done].
Qed.

(** Waking a philosopher that waits. *)
Lemma wake_run t t' i W :
  sems (tsync t) 0 (λ _, 0) W → phil i → (state_sema t i = HUNGRY → W i = true) → phi_test i t = Ok (tt, t') →
  state_sema t' = test (state_sema t) i ∧ sems (tsync t') 0 (λ _, 0) (upd i (W i && negb (may_eat (state_sema t) i))%bool W) ∧
  (may_eat (state_sema t) i = true → granted (tsync t') (proc i)) ∧
  (∀ p, (may_eat (state_sema t) i = true → p ≠ proc i) → granted (tsync t) p → granted (tsync t') p).
Proof.
  intros Hs Hi HW E. destruct (phi_test_run _ _ _ _ _ _ Hs Hi eq_refl E) as [Hst Ht]. split; [done|].
  destruct (may_eat _ _) eqn:Hm.
  - apply andb_true_iff in Hm as [[Hh%Z.eqb_eq _]%andb_true_iff _]. rewrite (HW Hh) in *. destruct Ht as (Hs' & Hg & Ho). simpl. split_and!; auto.
  - subst t'. split_and!; [|done|auto]. eapply sems_ext; [exact Hs|done|]. intros j _. rewrite andb_true_r.
    destruct (decide (i = j)) as [<-|]; [by rewrite upd_eq|by rewrite upd_ne].
Qed.

Lemma put_run t i r t' W :
  sems (tsync t) 1 (λ _, 0) W → phil i → (∀ j, phil j → state_sema t j = HUNGRY → W j = true) → put_forks i t = Ok (r, t') →
  let st := upd i THINKING (state_sema t) in let l := LEFT i in let r' := RIGHT i in
  r = Ret tt ∧ state_sema t' = test (test st l) r' ∧
  sems (tsync t') 1 (λ _, 0) (upd r' (W r' && negb (may_eat (test st l) r'))%bool (upd l (W l && negb (may_eat st l))%bool W)) ∧
  (∀ j, phil j → j ≠ i → state_sema t j ≠ EATING → state_sema t' j = EATING → granted (tsync t') (proc j)) ∧
  (∀ j, phil j → state_sema t j = EATING → granted (tsync t) (proc j) → granted (tsync t') (proc j)).
Proof.
  intros Hs Hi HW E st l r'. destruct (neighbours i Hi) as (Hl & Hr & Hli & Hri & Hlr & _).
  apply (enter_run i _ _ _ _ _ _ Hs) in E as (u0 & E & Hs0 & Hg0 & _). rewrite bind_modify in E.
  apply bind_ok_inv in E as ([] & t1 & E1 & E). apply bind_ok_inv in E as ([] & t2 & E2 & E).
  destruct (λ H, wake_run (set_state_sema i THINKING (set_tsync u0 t)) t1 (LEFT i) W Hs0 Hl H E1) as (Hst1 & Hs1 & Hw1 & Hg1).
  { simpl. rewrite upd_ne by auto. by apply HW. }
  simpl in Hst1, Hs1, Hw1, Hg1. fold st in Hst1, Hs1, Hw1, Hg1. fold l in Hst1, Hs1, Hw1, Hg1.
  destruct (λ H, wake_run t1 t2 (RIGHT i) _ Hs1 Hr H E2) as (Hst2 & Hs2 & Hw2 & Hg2).
  { rewrite Hst1, upd_ne by done. intros [Hh _]%test_hungry. unfold st in Hh. rewrite upd_ne in Hh by auto. by apply HW. }
  rewrite Hst1 in Hst2, Hs2, Hw2, Hg2. fold r' in Hst2, Hs2, Hw2, Hg2. rewrite upd_ne in Hs2 by done.
  apply (leave_run _ _ _ _ _ _ Hs2) in E as (u3 & E & Hs3 & Hg3 & _). injection E as <- <-. simpl.
  split_and!; [done|done|exact Hs3| |].
  - intros j Hj Hne Hj0 He. apply Hg3. rewrite Hst2 in He. apply test_new in He as [He|[-> Hm]]; [|auto].
    apply test_new in He as [He|[-> Hm]]; [unfold st in He; by rewrite upd_ne in He by auto|]. apply Hg2; [|auto].
    intros _ Hp. by apply proc_inj in Hp.
  - intros j Hj Hj0 Hg. apply Hg3, Hg2; [|apply Hg1; [|auto]].
    + intros [Hm _]%may_eat_hungry%test_hungry Hp. apply proc_inj in Hp as ->; [|done|done]. unfold st in Hm. rewrite upd_ne in Hm by auto. by rewrite Hm in Hj0.
    + intros Hm%may_eat_hungry Hp. apply proc_inj in Hp as ->; [|done|done]. unfold st in Hm. rewrite upd_ne in Hm by auto. by rewrite Hm in Hj0.
Qed.

(** *** The invariant *)

Definition phase_ok (t : table) (i : Z) (p : phase) : Prop :=
  match p with
  | Thinking => state_sema t i = THINKING
  | Taking k => k = take_resume i ∧ (state_sema t i = HUNGRY ∨ state_sema t i = EATING ∧ granted (tsync t) (proc i))
  | Eating => state_sema t i = EATING
  | Putting _ => False
  end.

Record dinner_inv (c : dinner) : Prop := DinnerInv {
  di_sems : sems (tsync (d_table c)) 1 (λ _, 0) (λ i, state_sema (d_table c) i =? HUNGRY);
  di_phase : ∀ i, phil i → phase_ok (d_table c) i (d_phase c i);
  di_forks : forks (state_sema (d_table c));
}.

Lemma step_take t ph i r t' :
  dinner_inv (Dinner t ph) → phil i → runs (tsync t) (proc i) → ph i = Thinking → take_forks i t = Ok (r, t') →
  dinner_inv (Dinner t' (upd i (took r) ph)).
Proof.
  intros [Hs Hp Hf] Hi [Hc _] Hph E. simpl in *. pose proof (Hp i Hi) as Hpi. rewrite Hph in Hpi. simpl in Hpi.
  assert ((state_sema t i =? HUNGRY) = false) as Hnh by by rewrite Hpi.
  destruct (take_run t i r t' _ Hs Hi Hnh Hc E) as (Hst & Hg & Hs' & Hr).
  set (st := upd i HUNGRY (state_sema t)) in *.
  assert (∀ j, j ≠ i → state_sema t' j = state_sema t j) as Hold.
  { intros j Hne. rewrite Hst. unfold test, st. destruct (may_eat _ _); by rewrite !upd_ne by auto. }
  assert (state_sema t' i = if may_eat st i then EATING else HUNGRY) as Hnew.
  { rewrite Hst. unfold test. destruct (may_eat _ _); [by rewrite upd_eq|]. unfold st. by rewrite upd_eq. }
  split; simpl.
  - eapply sems_ext; [exact Hs'|done|]. intros j Hj. destruct (decide (i = j)) as [<-|Hne].
    + rewrite upd_eq, Hnew. by destruct (may_eat _ _).
    + by rewrite upd_ne, Hold by auto.
  - intros j Hj. destruct (decide (i = j)) as [<-|Hne].
    + rewrite upd_eq, Hr. destruct (may_eat _ _); [done|]. simpl. auto.
    + rewrite upd_ne by done. specialize (Hp j Hj). destruct (ph j); simpl in *; rewrite ?Hold by auto; try done.
      destruct Hp as [-> [?|[? ?]]]; split; auto. right. split; [done|]. apply Hg; [|done]. intros ?%proc_inj; auto.
  - rewrite Hst. by apply forks_take.
Qed.

Lemma step_put t ph i r t' :
  dinner_inv (Dinner t ph) → phil i → ph i = Eating → put_forks i t = Ok (r, t') →
  dinner_inv (Dinner t' (upd i (dropped r) ph)).
Proof.
  intros [Hs Hp Hf] Hi Hph E. simpl in *. pose proof (Hp i Hi) as Hpi. rewrite Hph in Hpi. simpl in Hpi.
  destruct (put_run t i r t' _ Hs Hi (λ j _, proj2 (Z.eqb_eq _ _)) E) as (-> & Hst & Hs' & Hw & Hg).
  destruct (neighbours i Hi) as (Hl & Hr & Hli & Hri & Hlr & _). set (st := upd i THINKING (state_sema t)) in *.
  assert (∀ j, j ≠ i → st j = state_sema t j) as Hold by (intros j Hne; unfold st; by rewrite upd_ne by auto).
  assert (st i = THINKING) as Hthink by (unfold st; by rewrite upd_eq).
  split; simpl; [| |rewrite Hst; by apply forks_put].
  - eapply sems_ext; [exact Hs'|done|]. intros j Hj. rewrite Hst, !test_hungry_at. unfold upd.
    repeat case_decide; subst; rewrite ?Hold by auto; try done.
    destruct (decide (j = i)) as [->|]; [by rewrite Hthink, Hpi|by rewrite Hold].
  - intros j Hj. destruct (decide (i = j)) as [<-|Hne].
    { rewrite upd_eq. simpl. rewrite Hst. destruct (test_cases (test st (LEFT i)) (RIGHT i) i) as [->|[Hx _]].
      - destruct (test_cases st (LEFT i) i) as [->|[Hx _]]; [done|by rewrite Hthink in Hx].
      - apply test_hungry in Hx as [Hx _]. by rewrite Hthink in Hx. }
    rewrite upd_ne by done. specialize (Hp j Hj). pose proof (Hold j (not_eq_sym Hne)) as Ej.
    assert (state_sema t' j = state_sema t j ∨ state_sema t j = HUNGRY ∧ state_sema t' j = EATING) as Hc.
    { rewrite Hst, <-Ej. destruct (test_cases (test st (LEFT i)) (RIGHT i) j) as [->|[Hx ->]]; [apply test_cases|].
      apply test_hungry in Hx as [Hx _]. auto. }
    destruct (ph j) as [|k| |]; simpl in *; [| | |done].
    + destruct Hc as [->|[Hc _]]; [done|by rewrite Hp in Hc].
    + destruct Hp as [-> Hp]. split; [done|]. destruct Hp as [Hh|[He Hgr]].
      * destruct Hc as [->|[_ Hc]]; [by left|]. right. split; [done|]. apply Hw; [done|auto|by rewrite Hh|done].
      * right. destruct Hc as [->|[Hc _]]; [auto|by rewrite He in Hc].
    + destruct Hc as [->|[Hc _]]; [done|by rewrite Hp in Hc].
Qed.

Lemma step_resume t ph i k r t' :
  dinner_inv (Dinner t ph) → phil i → runs (tsync t) (proc i) → ph i = Taking k → k t = Ok (r, t') →
  r = Ret tt ∧ t' = t ∧ dinner_inv (Dinner t (upd i Eating ph)).
Proof.
  intros [Hs Hp Hf] Hi Hrun Hph E. simpl in *. pose proof (Hp i Hi) as Hpi. rewrite Hph in Hpi. destruct Hpi as [-> [Hh|[He Hg]]].
  { pose proof (sm_s _ _ _ _ Hs i Hi) as Hsi. simpl in Hsi. rewrite Hh in Hsi. by apply (runs_not_waiting _ _ _ _ _ Hsi) in Hrun; set_solver. }
  unfold take_resume in E. rewrite (down_resumes _ _ _ Hg) in E. injection E as <- <-.
  split_and!; [done|by destruct t|]. split; simpl; [done| |done]. intros j Hj. destruct (decide (i = j)) as [<-|]; [by rewrite upd_eq|].
  rewrite upd_ne by done. by apply Hp.
Qed.

Definition sema_queues (q : queue) : Prop := q = mutex ∨ ∃ i, phil i ∧ q = s_sem i.

Lemma step_other t ph t' :
  dinner_inv (Dinner t ph) → undisturbed proc sema_queues ph t t' → dinner_inv (Dinner t' ph).
Proof.
  intros [Hs Hp Hf] Hu. simpl in *. pose proof (un_sema _ _ _ _ _ Hu) as Est. split; simpl; rewrite ?Est; [|..|done].
  - split.
    + eapply undisturbed_sem; [exact Hu|by left|set_solver|apply (sm_mutex _ _ _ _ Hs)].
    + intros i Hi. eapply undisturbed_sem; [exact Hu|right; eauto| |apply (sm_s _ _ _ _ Hs i Hi)]. intros w Hw. exists i.
      destruct (Z.eqb_spec (state_sema t i) HUNGRY) as [Hh|]; [|set_solver]. split_and!; [done|set_solver|].
      specialize (Hp i Hi). destruct (ph i); simpl in *; [by rewrite Hp in Hh|done|by rewrite Hp in Hh|done].
  - intros i Hi. specialize (Hp i Hi). unfold phase_ok in *. rewrite Est. destruct (ph i) eqn:Hph; try done.
    destruct Hp as [-> [?|[? Hg]]]; split; auto. right. split; [done|]. eapply undisturbed_granted; eauto. by rewrite Hph.
Qed.

Lemma dinner_reachable c c' :
  dinner_inv c → rtc (dstep take_forks put_forks proc sema_queues) c c' → dinner_inv c'.
Proof.
  intros Hi. induction 1 as [|c1 c2 c3 Hs _ IH]; [done|]. apply IH. destruct Hs.
  - by eapply step_take.
  - eapply step_resume in H2 as (-> & -> & ?); eauto.
  - by eapply step_put.
  - pose proof (di_phase _ Hi i H) as Hp. simpl in Hp. by rewrite H1 in Hp.
  - by eapply step_other.
Qed.

Lemma init_loop n i u u' : (0 ≤ i)%Z → for_range i n (λ j, sem_init (s_sem j) 0) u = Ok (tt, u') →
  (∀ j, i ≤ j < i + Z.of_nat n → sem_inv u' (s_sem j) 0 []) ∧
  (∀ q v, (∀ j, i ≤ j < i + Z.of_nat n → q ≠ s_sem j) → sem_inv u q v [] → sem_inv u' q v []).
Proof.
  revert i u. induction n as [|n IH]; intros i u Hi E; [injection E as <-; split; [lia|auto]|].
  simpl in E. apply bind_ok_inv in E as ([] & u1 & E1 & E). apply IH in E as [H1 H2]; [|lia]. split.
  - intros j Hj. destruct (decide (j = i)) as [->|]; [|apply H1; lia]. apply H2.
    + intros j Hj' [= ?]. lia.
    + by apply (sem_init_inv _ _ u).
  - intros q v Hq Hv. pose proof (si_value _ _ _ _ Hv) as <-. apply H2; [intros j Hj; apply Hq; lia|].
    eapply sem_init_apart; [exact E1|apply Hq; lia|done].
Qed.

Lemma init_sema_sems u0 u1 : init_sema at_mutex at_s u0 = Ok (tt, u1) → sems u1 1 (λ _, 0) (λ _, false).
Proof.
  intros ([] & u & E1 & E2)%bind_ok_inv. apply sem_init_inv in E1; [|lia]. apply init_loop in E2 as [H1 H2]; [|lia]. split.
  - apply H2; [|done]. intros j Hj. apply not_eq_sym, s_sem_mutex. unfold phil, N in *. lia.
  - intros i Hi. apply H1. unfold phil, N in *. lia.
Qed.

End sema.

(** ** Properties *)

(** C3. The dining philosophers with semaphores: start as [check_sync] does and let the five
    processes interleave [phi_take_forks_sema] and [phi_put_forks_sema] in any
    order with any kernel code in between that does not touch their semaphores.
    Then no philosopher eats while a neighbour eats; a philosopher is never stopped
    while it puts its forks back (the mutex is free whenever a philosopher runs);
    one that is stopped taking its forks sleeps and a neighbour has the forks,
    or it has been given the forks and eats as soon as it runs; and forks are
    held only by philosophers that eat or are about to. *)
Theorem philosophers_sema_safe at_mutex at_s (proc : Z → Z) u0 u1 sc0 c :
  (∀ i, phil i → at_mutex ≠ at_s + i) → (∀ i j, phil i → phil j → proc i = proc j → i = j) →
  init_sema at_mutex at_s u0 = Ok (tt, u1) →
  rtc (dstep (phi_take_forks_sema at_mutex at_s) (phi_put_forks_sema at_mutex at_s) proc (sema_queues at_mutex at_s))
    (Dinner (Table u1 (λ _, THINKING) sc0) (λ _, Thinking)) c →
  let t := d_table c in
  ∀ i, phil i →
    (d_phase c i = Eating → state_sema t i = EATING ∧ d_phase c (LEFT i) ≠ Eating ∧ d_phase c (RIGHT i) ≠ Eating) ∧
    (∀ k, d_phase c i ≠ Putting k) ∧
    (∀ k, d_phase c i = Taking k →
      (state_sema t i = HUNGRY ∧ p_state (procs (sc (tsync t)) (proc i)) = PROC_SLEEPING ∧
        (state_sema t (LEFT i) = EATING ∨ state_sema t (RIGHT i) = EATING)) ∨
      (state_sema t i = EATING ∧ k t = Ok (Ret tt, t))) ∧
    (state_sema t i = EATING → d_phase c i = Eating ∨ ∃ k, d_phase c i = Taking k).
Proof.
  intros Hd Hinj Hinit Hr t i Hi. assert (dinner_inv at_mutex at_s proc c) as [Hs Hp Hf].
  { eapply dinner_reachable; [done|done| |exact Hr]. split; simpl; [|done|by split].
    eapply sems_ext; [by eapply init_sema_sems|done|done]. }
  fold t in Hs, Hp, Hf. pose proof (Hp i Hi) as Hpi. destruct (neighbours i Hi) as (Hl & Hri & _ & _ & _ & Hrl & _). split_and!.
  - intros E. rewrite E in Hpi. simpl in Hpi. split; [done|]. split; intros E'.
    + pose proof (Hp _ Hl) as Hx. rewrite E' in Hx. apply (fk_apart _ Hf _ Hl) in Hx. by rewrite Hrl in Hx.
    + pose proof (Hp _ Hri) as Hx. rewrite E' in Hx. by apply (fk_apart _ Hf i Hi) in Hpi.
  - intros k E. by rewrite E in Hpi.
  - intros k E. rewrite E in Hpi. destruct Hpi as [-> [Hh|[He Hg]]].
    + left. split_and!; [done| |by apply (fk_wait _ Hf)]. pose proof (sm_s _ _ _ _ _ _ _ Hs i Hi) as Hsi. simpl in Hsi. rewrite Hh in Hsi.
      apply (si_waiters _ _ _ _ Hsi). set_solver.
    + right. split; [done|]. unfold take_resume. rewrite (down_resumes _ _ _ Hg). simpl. by destruct t.
  - intros E. destruct (d_phase c i); simpl in *; [by rewrite E in Hpi|eauto|eauto|done].
Qed.

(** Philosopher [i] is process [i + 1]; the mutex is at 10 and the semaphores from 20 on. *)
Definition example_procs (i : Z) : Z := i + 1.

Definition state_after {S A} (d : S) (r : res (A * S)) : S := match r with Ok (_, s) => s | _ => d end.

Definition laid : table := Table (state_after example_sync (init_sema 10 20 example_sync)) (λ _, THINKING) (λ _, THINKING).
(** Philosopher 0 has taken its forks; then philosopher 1 runs. *)
Definition served : table := state_after laid (phi_take_forks_sema 10 20 0 laid).
Definition switch (p : Z) (t : table) : table := set_tsync (set_sc (set_current p (sc (tsync t))) (tsync t)) t.
Definition second : table := switch 2 served.

Lemma switch_undisturbed proc uses ph t p : undisturbed proc uses ph t (switch p t).
Proof. by split. Qed.

Lemma second_blocks : ∃ k t, phi_take_forks_sema 10 20 1 second = Ok (Suspended k, t).
Proof.
  assert (match phi_take_forks_sema 10 20 1 second with Ok (Suspended _, _) => true | _ => false end = true) as H
    by (vm_compute; reflexivity).
  destruct (phi_take_forks_sema 10 20 1 second) as [[[|k] t]| |]; try discriminate. by exists k, t.
Qed.

(** Philosopher 0 eats and philosopher 1 waits for it. *)
Lemma philosophers_sema_safe_witness : ∃ c k,
  d_phase c 0 = Eating ∧ d_phase c 1 = Taking k ∧ state_sema (d_table c) 0 = EATING.
Proof.
  destruct second_blocks as (k & t & Ek).
  set (c := Dinner t (upd 1 (Taking k) (upd 0 Eating (λ _, Thinking)))).
  assert (rtc (dstep (phi_take_forks_sema 10 20) (phi_put_forks_sema 10 20) example_procs (sema_queues 10 20))
    (Dinner laid (λ _, Thinking)) c) as Hr.
  { eapply rtc_l; [|eapply rtc_l; [|eapply rtc_once]].
    - apply (ds_take _ _ _ _ laid (λ _, Thinking) 0 (Ret tt) served); [done|split; [reflexivity|discriminate]|reflexivity|vm_compute; reflexivity].
    - apply (ds_other _ _ _ _ served _ second), switch_undisturbed.
    - apply (ds_take _ _ _ _ second _ 1 (Suspended k) t); [done|split; [reflexivity|discriminate]|reflexivity|exact Ek]. }
  destruct (philosophers_sema_safe 10 20 example_procs example_sync (tsync laid) (λ _, THINKING) c) with (i := 0) as [H _].
  - unfold phil, N. lia.
  - unfold example_procs. lia.
  - vm_compute. reflexivity.
  - exact Hr.
  - done.
  - exists c, k. split; [reflexivity|]. split; [reflexivity|]. by apply H.
Defined.
