(* ===== verification/PhilMonitor.v ===== *)
(** * The dining philosophers with a monitor: proofs

    [phi_take_forks_condvar] and [phi_put_forks_condvar] of kern/sync/check_sync.c over the
    monitor of kern/sync/monitor.c, whose condition variables hand the monitor to
    the process they wake (Hoare's discipline).  Each philosopher is at a stage of its
    procedure; one of them at most holds the monitor, and it is the only one that
    goes on when it is scheduled.  By induction over all interleavings neighbours never
    eat together. *)

From S2P Require Import Prelude ListH SkewHeap Sched SchedProofs Timers Sync SyncProofs Philosophers.

(** ** What [up] keeps *)

Definition same_current (s s' : sched) : Prop := current s' = current s.

#[global] Instance same_current_preorder : PreOrder same_current.
Proof. split; [done|]. unfold same_current. by intros ??? -> ->. Qed.

Lemma wakeup_proc_current p : keeps same_current (wakeup_proc p).
Proof. unfold wakeup_proc, sched_class_enqueue. simpl. unfold stride_enqueue, field, store. keeps_auto; done. Qed.

Lemma up_current u q v ws u' : sem_inv u q v ws → up q u = Ok (tt, u') → current (sc u') = current (sc u).
Proof.
  intros Hi E. destruct ws as [|w ws].
  - destruct (decide (v + 1 < 2 ^ 31)) as [Hv|Hv].
    + destruct (up_free u q v Hi Hv) as [E' _]. rewrite E' in E. by injection E as <-.
    + unfold up, __up, wait_queue_first in E. rewrite bind_gets, (first_waiter _ _ _ _ Hi) in E. by injection E as <-.
  - destruct (up_handoff u q v w ws Hi) as [E' _]. rewrite E' in E. unfold on_sc, zoom in E.
    destruct (wakeup_proc w _) as [[[] sc']| |] eqn:Ew; [|done|done]. injection E as <-. by apply wakeup_proc_current in Ew.
Qed.

(** ** Threads that wait *)

(** A thread that waits for process [p] to be granted and goes on with [K] then; [view] is
    the part of the state with the queues. *)
Definition blocks {S A} (view : S → sync) (p : Z) (r : thread S A) (K : M S (thread S A)) : Prop :=
  ∃ k, r = Suspended k ∧ ∀ s, granted (view s) p → k s = K s.

Lemma tcont_blocks {S A B} (view : S → sync) p (r : thread S A) K (f : A → M S (thread S B)) s :
  blocks view p r K → ∃ r', tcont r f s = Ok (r', s) ∧ blocks view p r' (tbind K f).
Proof.
  intros (k & -> & Hk). eexists. split; [reflexivity|]. eexists. split; [reflexivity|]. intros s' Hg. cbn. rewrite (Hk s' Hg).
  unfold tbind, mbind, M_bind. by destruct (K s') as [[? ?]| |].
Qed.

(** Sequencing after a thread that has been run. *)
Lemma tbind_blocks {S A B} (view : S → sync) (m : M S (thread S A)) p r K (f : A → M S (thread S B)) s s' :
  m s = Ok (r, s') → blocks view p r K → ∃ r', tbind m f s = Ok (r', s') ∧ blocks view p r' (tbind K f).
Proof. intros E Hb. unfold tbind. rewrite (bind_ok _ _ _ _ _ E). by apply tcont_blocks. Qed.

Lemma tbind_done {S A B} (m : M S (thread S A)) a (f : A → M S (thread S B)) s s' :
  m s = Ok (Ret a, s') → tbind m f s = f a s'.
Proof. intros E. unfold tbind. by rewrite (bind_ok _ _ _ _ _ E). Qed.

Lemma tbind_runs {S A B} (m : M S (thread S A)) (f : A → M S (thread S B)) s x :
  tbind m f s = Ok x → ∃ r s', m s = Ok (r, s').
Proof. intros (r & s' & E & _)%bind_ok_inv. eauto. Qed.

Lemma blocks_ext {S A} (view : S → sync) p (r : thread S A) K K' : blocks view p r K → (∀ s, K s = K' s) → blocks view p r K'.
Proof. intros (k & -> & Hk) He. exists k. split; [done|]. intros s Hg. by rewrite Hk, He. Qed.

Lemma zoom_blocks {A} p (r : thread sync A) K :
  blocks id p r K → blocks tsync p (zoom_thread tsync set_tsync r) (sync_thread K).
Proof.
  intros (k & -> & Hk). eexists. split; [reflexivity|]. intros t Hg. cbn. rewrite (Hk _ Hg). unfold sync_thread, on_sync, zoom, mbind, M_bind.
  by destruct (K (tsync t)) as [[? ?]| |].
Qed.

Lemma down_waits q p : blocks id p (Suspended (down_resume q p)) (tret tt).
Proof. eexists. split; [reflexivity|]. intros u Hg. by rewrite (down_resumes _ _ _ Hg). Qed.

Lemma down_waits_table q p : blocks tsync p (zoom_thread tsync set_tsync (Suspended (down_resume q p))) (tret tt).
Proof. eapply blocks_ext; [apply zoom_blocks, down_waits|]. by intros []. Qed.

(** ** The semaphores of the monitor *)

Inductive mq := MQ | XQ | CQ (i : Z).

#[global] Instance mq_eq_dec : EqDecision mq.
Proof. solve_decision. Defined.

Definition valid (q : mq) : Prop := match q with CQ i => phil i | _ => True end.

Section monitor.
Context (mtp cvs : Z) (proc : Z → Z).
Hypothesis proc_inj : ∀ i j, phil i → phil j → proc i = proc j → i = j.

Definition qof (q : mq) : queue := match q with MQ => QMutex mtp | XQ => QNext mtp | CQ i => QCv (cvs + i) end.

Lemma qof_inj q q' : qof q = qof q' → q = q'.
Proof. destruct q, q'; simpl; intros H; (done || (f_equal; injection H; lia)). Qed.

(** The values and waiters of the semaphores and the counters. *)
Record msync (u : sync) (val : mq → Z) (wl : mq → list Z) (nc : Z) (cnt : Z → Z) : Prop := Msync {
  ms_sem : ∀ q, valid q → sem_inv u (qof q) (val q) (wl q);
  ms_nc : next_count u mtp = nc;
  ms_cnt : ∀ i, phil i → cv_count u (cvs + i) = cnt i;
  ms_cv : mon_cv u mtp = Some cvs;
  ms_owner : ∀ i, phil i → cv_owner u (cvs + i) = mtp;
}.

Lemma msync_ext u val wl nc cnt val' wl' nc' cnt' :
  msync u val wl nc cnt → (∀ q, valid q → val' q = val q ∧ wl' q = wl q) → nc' = nc → (∀ i, phil i → cnt' i = cnt i) →
  msync u val' wl' nc' cnt'.
Proof.
  intros [Hs Hn Hc Hcv Ho] Hq -> Hcnt. split; try done.
  - intros q Hv. destruct (Hq q Hv) as [-> ->]. by apply Hs.
  - intros i Hi. rewrite Hcnt by done. by apply Hc.
Qed.

Lemma msync_change u u' val wl nc cnt q w v ws :
  msync u val wl nc cnt → valid q → apart (qof q) w u u' → (∀ p q', w = Some p → valid q' → q' ≠ q → p ∉ wl q') →
  sem_inv u' (qof q) v ws → msync u' (upd q v val) (upd q ws wl) nc cnt.
Proof.
  intros [Hs Hn Hc Hcv Ho] Hq Ha Hw Hi. split.
  - intros q' Hq'. destruct (decide (q = q')) as [<-|Hne]; [by rewrite !upd_eq|]. rewrite !upd_ne by done.
    apply (ap_sem _ _ _ _ Ha); [by intros ->%qof_inj| |by apply Hs]. intros x Hx. by eapply Hw.
  - by rewrite (ap_next _ _ _ _ Ha).
  - intros i Hp. rewrite (ap_count _ _ _ _ Ha). by apply Hc.
  - by rewrite (ap_cv _ _ _ _ Ha).
  - intros i Hp. rewrite (ap_owner _ _ _ _ Ha). by apply Ho.
Qed.

Lemma mdown_free u val wl nc cnt q :
  msync u val wl nc cnt → valid q → val q = 1 →
  ∃ u', down (qof q) u = Ok (Ret tt, u') ∧ msync u' (upd q 0 val) (upd q [] wl) nc cnt ∧
    (∀ p, granted u p → granted u' p) ∧ current (sc u') = current (sc u).
Proof.
  intros Hm Hq Hv. pose proof (ms_sem _ _ _ _ _ Hm q Hq) as Hi. rewrite Hv in Hi. destruct (down_free u _ _ _ Hi) as [E Hn]; [lia|].
  eexists. split; [exact E|]. split_and!; [|intros p; by apply (ap_granted _ _ _ _ (set_value_apart _ _ _))|done].
  eapply msync_change; [exact Hm|done|apply set_value_apart|done|exact Hn].
Qed.

Lemma mdown_block u val wl nc cnt q p r u' :
  msync u val wl nc cnt → valid q → val q = 0 → (∀ q', valid q' → p ∉ wl q') → current (sc u) = p → down (qof q) u = Ok (r, u') →
  r = Suspended (down_resume (qof q) p) ∧ msync u' val (upd q (wl q ++ [p]) wl) nc cnt ∧ (∀ x, x ≠ p → granted u x → granted u' x).
Proof.
  intros Hm Hq Hv Hp Hc E. pose proof (ms_sem _ _ _ _ _ Hm q Hq) as Hi. rewrite Hv in Hi.
  rewrite (down_blocks _ _ _ Hi), Hc in E. apply bind_ok_inv in E as ([] & u1 & Es & E). injection E as <- <-. split; [done|].
  destruct (block_apart u _ _ _ u1 Hi (Hp q Hq) Es) as [Hn Ha]. split.
  - eapply msync_ext; [eapply (msync_change u u1 _ _ _ _ q); [exact Hm|done|exact Ha| |exact Hn]| |done|done].
    + intros x q' [= <-] Hq' _. by apply Hp.
    + intros q' _. split; [|done]. destruct (decide (q = q')) as [<-|]; [by rewrite upd_eq|by rewrite upd_ne].
  - intros x Hx. apply (ap_granted _ _ _ _ Ha). congruence.
Qed.

Lemma mup_free u val wl nc cnt q :
  msync u val wl nc cnt → valid q → val q = 0 → wl q = [] →
  ∃ u', up (qof q) u = Ok (tt, u') ∧ msync u' (upd q 1 val) wl nc cnt ∧ (∀ p, granted u p → granted u' p).
Proof.
  intros Hm Hq Hv Hw. pose proof (ms_sem _ _ _ _ _ Hm q Hq) as Hi. rewrite Hv, Hw in Hi. destruct (up_free u _ _ Hi) as [E Hn]; [lia|].
  eexists. split; [exact E|]. split; [|intros p; by apply (ap_granted _ _ _ _ (set_value_apart _ _ _))].
  eapply msync_ext; [eapply (msync_change u _ _ _ _ _ q None); [exact Hm|done|apply set_value_apart|done|exact Hn]| |done|done].
  intros q' _. split; [done|]. destruct (decide (q = q')) as [<-|]; [by rewrite upd_eq|by rewrite upd_ne].
Qed.

Lemma mup_wake u val wl nc cnt q w ws u' :
  msync u val wl nc cnt → valid q → wl q = w :: ws → up (qof q) u = Ok (tt, u') →
  msync u' val (upd q ws wl) nc cnt ∧ granted u' w ∧ (∀ p, p ≠ w → granted u p → granted u' p).
Proof.
  intros Hm Hq Hw E. pose proof (ms_sem _ _ _ _ _ Hm q Hq) as Hi. rewrite Hw in Hi.
  destruct (up_wakes _ _ _ _ _ _ Hi E) as (Hv & Hn & Hg & _). pose proof (up_apart _ _ _ _ _ _ Hi E) as Ha. split_and!; [|done|].
  - eapply msync_ext; [eapply (msync_change u u' _ _ _ _ q (Some w)); [exact Hm|done|exact Ha| |exact Hn]| |done|done].
    + intros p q' [= <-] Hq' Hne. eapply (waiter_queue u); [exact Hi|by apply (ms_sem _ _ _ _ _ Hm)|by intros ->%qof_inj|set_solver].
    + intros q' _. split; [|done]. destruct (decide (q = q')) as [<-|]; [by rewrite upd_eq|by rewrite upd_ne].
  - intros p Hp. apply (ap_granted _ _ _ _ Ha). congruence.
Qed.

(** ** Stages *)

(** Where a philosopher is: thinking, waiting at the mutex to take its forks, running in
    the monitor, about to wait or waiting at its condition variable, eating,
    waiting at the mutex to put its forks back, or waiting on [next] after it has
    signalled its left or its right neighbour. *)
Inductive stage := SThink | STakeM | SIn | SGo | SCv | SEat | SPutM | SNextL | SNextR.

#[local] Instance stage_eq_dec : EqDecision stage.
Proof. solve_decision. Defined.

Definition at_mx (s : stage) : bool := match s with STakeM | SPutM => true | _ => false end.
Definition at_nx (s : stage) : bool := match s with SNextL | SNextR => true | _ => false end.
Definition susp (s : stage) : bool := match s with SThink | SIn | SGo | SEat => false | _ => true end.
Definition counted (s : stage) : Z := match s with SGo | SCv => 1 | _ => 0 end.

(** The entry of the array at each stage; [h] is the philosopher that holds the monitor. *)
Definition st_ok (i : Z) (h : option Z) (s : stage) (v : Z) : Prop :=
  match s with
  | SThink | STakeM | SNextL | SNextR => v = THINKING
  | SEat | SPutM => v = EATING
  | SGo => v = HUNGRY
  | SCv => v = if decide (h = Some i) then EATING else HUNGRY
  | SIn => True
  end.

(** Who can hold the monitor; [nx] is the philosopher that has signalled and waits on [next]. *)
Definition may_hold (nx : option Z) (s : stage) : Prop :=
  match s with
  | SThink | SEat => False
  | STakeM | SPutM | SGo => nx = None
  | SCv => nx ≠ None
  | SIn | SNextL | SNextR => True
  end.

Definition mval (h : option Z) (q : mq) : Z := match q with MQ => if h then 0 else 1 | _ => 0 end.
Definition mwl (sg : Z → stage) (h nx : option Z) (ms : list Z) (q : mq) : list Z :=
  match q with
  | MQ => ms
  | XQ => match nx with Some p => if decide (h = Some p) then [] else [proc p] | None => [] end
  | CQ i => if decide (sg i = SCv ∧ h ≠ Some i) then [proc i] else []
  end.

Record minv (t : table) (sg : Z → stage) (h nx : option Z) (ms : list Z) : Prop := Minv {
  mi_sync : msync (tsync t) (mval h) (mwl sg h nx ms) (if nx then 1 else 0) (λ i, counted (sg i));
  mi_ms : ∀ w, w ∈ ms ↔ ∃ i, phil i ∧ w = proc i ∧ at_mx (sg i) = true ∧ h ≠ Some i;
  mi_nx : ∀ i, phil i → at_nx (sg i) = true ↔ nx = Some i;
  mi_nx_phil : ∀ i, nx = Some i → phil i;
  mi_h : ∀ j, h = Some j → phil j ∧ may_hold nx (sg j) ∧ (susp (sg j) = true → granted (tsync t) (proc j));
  mi_free : h = None → nx = None;
  mi_in : ∀ i, phil i → sg i = SIn → h = Some i;
  mi_st : ∀ i, phil i → st_ok i h (sg i) (state_condvar t i);
}.

Lemma mi_nodup t sg h nx ms : minv t sg h nx ms → NoDup ms.
Proof.
  intros Hm. destruct (ms_sem _ _ _ _ _ (mi_sync _ _ _ _ _ Hm) MQ I) as [[Hnd _] _ _ _ _]. simpl in Hnd.
  apply NoDup_cons in Hnd as [_ Hnd]. by apply NoDup_fmap_1 in Hnd.
Qed.

(** A philosopher that is not suspended waits nowhere. *)
Lemma not_waiting t sg h nx ms i q : minv t sg h nx ms → phil i → susp (sg i) = false → valid q → proc i ∉ mwl sg h nx ms q.
Proof.
  intros Hm Hi Hs Hq. destruct q as [| |j]; simpl in *.
  - rewrite (mi_ms _ _ _ _ _ Hm). intros (j & Hj & E & Hx & _). apply proc_inj in E as ->; [|done|done]. by destruct (sg j).
  - destruct nx as [p|] eqn:En; [|set_solver]. case_decide; [set_solver|]. intros E%list_elem_of_singleton.
    apply proc_inj in E as ->; [|done|by apply (mi_nx_phil _ _ _ _ _ Hm)]. pose proof (proj2 (mi_nx _ _ _ _ _ Hm p Hi) eq_refl).
    by destruct (sg p).
  - case_decide as Hd; [|set_solver]. intros E%list_elem_of_singleton. apply proc_inj in E as ->; [|done|done]. destruct Hd as [Hd _].
    by rewrite Hd in Hs.
Qed.

(** One that is and does not hold the monitor does. *)
Lemma waits_somewhere t sg h nx ms i :
  minv t sg h nx ms → phil i → susp (sg i) = true → h ≠ Some i → ∃ q, valid q ∧ proc i ∈ mwl sg h nx ms q.
Proof.
  intros Hm Hi Hs Hh. destruct (at_mx (sg i)) eqn:E1; [exists MQ; split; [done|]; apply (mi_ms _ _ _ _ _ Hm); by exists i|].
  destruct (at_nx (sg i)) eqn:E2.
  - exists XQ. split; [done|]. simpl. apply (mi_nx _ _ _ _ _ Hm i Hi) in E2 as ->. rewrite decide_False by done. set_solver.
  - exists (CQ i). split; [done|]. simpl. rewrite decide_True; [set_solver|]. split; [|done]. by destruct (sg i).
Qed.

(** A philosopher that runs although its stage is suspended holds the monitor. *)
Lemma runs_holder t sg h nx ms i :
  minv t sg h nx ms → phil i → runs (tsync t) (proc i) → susp (sg i) = true → h = Some i ∧ granted (tsync t) (proc i).
Proof.
  intros Hm Hi Hr Hs. destruct (decide (h = Some i)) as [Hh|Hh]; [split; [done|by apply (mi_h _ _ _ _ _ Hm i Hh)]|]. exfalso.
  destruct (waits_somewhere _ _ _ _ _ _ Hm Hi Hs Hh) as (q & Hq & Hw).
  by apply (runs_not_waiting _ _ _ _ _ (ms_sem _ _ _ _ _ (mi_sync _ _ _ _ _ Hm) q Hq) Hr) in Hw.
Qed.

(** [mi_ms] when [i] goes to a stage that is not at the mutex. *)
Lemma ms_leave sg (h : option Z) i s (ms : list Z) :
  (∀ w, w ∈ ms ↔ ∃ j, phil j ∧ w = proc j ∧ at_mx (sg j) = true ∧ h ≠ Some j) → at_mx s = false → (at_mx (sg i) = true → h = Some i) →
  ∀ w, w ∈ ms ↔ ∃ j, phil j ∧ w = proc j ∧ at_mx (upd i s sg j) = true ∧ h ≠ Some j.
Proof.
  intros Hms Hs Hi w. rewrite Hms. split; intros (j & Hj & -> & Hx & Hh); exists j; (destruct (decide (i = j)) as [<-|];
    [rewrite ?upd_eq in *; naive_solver congruence|rewrite ?upd_ne in * by done; done]).
Qed.

(** Changing the stage of one philosopher: the facts about the others stay. *)
Lemma nx_move sg (nx : option Z) i s :
  (∀ j, phil j → at_nx (sg j) = true ↔ nx = Some j) → at_nx s = at_nx (sg i) →
  ∀ j, phil j → at_nx (upd i s sg j) = true ↔ nx = Some j.
Proof.
  intros Hn Hs j Hj. rewrite <-Hn by done. destruct (decide (i = j)) as [<-|]; [by rewrite upd_eq, Hs|by rewrite upd_ne].
Qed.

Lemma st_move t t' sg h h' i s :
  (∀ j, phil j → st_ok j h (sg j) (state_condvar t j)) → (∀ j, j ≠ i → state_condvar t' j = state_condvar t j) →
  (∀ j, phil j → j ≠ i → sg j = SCv → h = Some j ↔ h' = Some j) → st_ok i h' s (state_condvar t' i) →
  ∀ j, phil j → st_ok j h' (upd i s sg j) (state_condvar t' j).
Proof.
  intros Hs Ho Hh Hi j Hj. destruct (decide (i = j)) as [<-|Hne]; [by rewrite upd_eq|]. rewrite upd_ne, Ho by auto.
  specialize (Hs j Hj). unfold st_ok in *. destruct (sg j) eqn:E; try done. specialize (Hh j Hj (not_eq_sym Hne) E).
  repeat case_decide; naive_solver.
Qed.

Lemma in_move (sg : Z → stage) (h h' : option Z) i s :
  (∀ j, phil j → sg j = SIn → h = Some j) → (s = SIn → h' = Some i) → (∀ j, j ≠ i → h = Some j → h' = Some j) →
  ∀ j, phil j → upd i s sg j = SIn → h' = Some j.
Proof.
  intros Hs Hi Hh j Hj. destruct (decide (i = j)) as [<-|Hne]; [by rewrite upd_eq|]. rewrite upd_ne by done. intros ?.
  apply Hh; [done|by apply Hs].
Qed.

(** The lists at the condition variables. *)
Lemma cv_list_move sg (h h' : option Z) i s j :
  (i ≠ j → sg j = SCv → h = Some j ↔ h' = Some j) → (i = j → (sg i = SCv ∧ h ≠ Some i) ↔ (s = SCv ∧ h' ≠ Some i)) →
  (if decide (upd i s sg j = SCv ∧ h' ≠ Some j) then [proc j] else []) = (if decide (sg j = SCv ∧ h ≠ Some j) then [proc j] else []).
Proof.
  intros Hne He. destruct (decide (i = j)) as [<-|Hij].
  - rewrite upd_eq. apply decide_ext. symmetry. by apply He.
  - rewrite upd_ne by done. apply decide_ext. naive_solver.
Qed.

Lemma counted_move (sg : Z → stage) i s j : counted s = counted (sg i) → counted (upd i s sg j) = counted (sg j).
Proof. intros Hs. destruct (decide (i = j)) as [<-|]; [by rewrite upd_eq|by rewrite upd_ne]. Qed.

(** [down] at the mutex when nobody is in the monitor. *)
Lemma enter_free t sg nx ms i :
  minv t sg None nx ms → phil i → sg i = SThink ∨ sg i = SEat →
  ∃ u, sync_thread (down (QMutex mtp)) t = Ok (Ret tt, set_tsync u t) ∧ minv (set_tsync u t) (upd i SIn sg) (Some i) None [] ∧
    current (sc u) = current (sc (tsync t)).
Proof.
  intros Hm Hi Hs. destruct Hm as [Hy Hms Hn Hnp Hh Hf Hin Hst]. rewrite (Hf eq_refl) in *.
  destruct (mdown_free _ _ _ _ _ MQ Hy I eq_refl) as (u & E & Hu & _ & Hc). exists u.
  pose proof (si_handoff _ _ _ _ (ms_sem _ _ _ _ _ Hy MQ I) ltac:(done)) as Hnil. simpl in Hnil. subst ms.
  split_and!; [by apply sync_thread_run in E| |done]. split; simpl.
  - eapply msync_ext; [exact Hu| |done|]; [|intros j _; apply counted_move; by destruct Hs as [-> | ->]].
    intros q Hq. destruct q as [| |j]; simpl; [by rewrite !upd_eq|by rewrite !upd_ne by done|]. rewrite !(upd_ne (K:=mq)) by done. split; [done|].
    apply cv_list_move; [naive_solver congruence|]. intros <-. destruct Hs as [-> | ->]; naive_solver.
  - intros w. split; [set_solver|]. intros (j & Hj & -> & Hx & Hne). apply Hms. exists j. split_and!; [done|done| |done].
    rewrite upd_ne in Hx by congruence. done.
  - apply nx_move; [done|]. by destruct Hs as [-> | ->].
  - done.
  - intros j [= <-]. by rewrite upd_eq.
  - done.
  - eapply in_move; [exact Hin|done|done].
  - eapply st_move; [exact Hst|done| |done]. intros j _ Hne _. naive_solver congruence.
Qed.

(** [down] at the mutex when somebody is. *)
Lemma enter_block t sg j nx ms i s r t' :
  minv t sg (Some j) nx ms → phil i → (sg i = SThink ∧ s = STakeM) ∨ (sg i = SEat ∧ s = SPutM) → current (sc (tsync t)) = proc i →
  sync_thread (down (QMutex mtp)) t = Ok (r, t') →
  blocks tsync (proc i) r (tret tt) ∧ minv t' (upd i s sg) (Some j) nx (ms ++ [proc i]) ∧ state_condvar t' = state_condvar t.
Proof.
  intros Hm Hi Hs Hc E. apply sync_thread_inv in E as (r' & u & E & -> & ->).
  assert (susp (sg i) = false) as Hsu by by destruct Hs as [[-> _]|[-> _]].
  destruct (mdown_block _ _ _ _ _ MQ _ _ _ (mi_sync _ _ _ _ _ Hm) I eq_refl (λ q, not_waiting _ _ _ _ _ i q Hm Hi Hsu) Hc E) as (-> & Hu & Hg).
  split; [apply down_waits_table|]. split; [|done]. destruct Hm as [Hy Hms Hn Hnp Hh Hf Hin Hst].
  assert (i ≠ j) as Hij. { intros ->. destruct (Hh j eq_refl) as (_ & Hx & _). by destruct Hs as [[E1 _]|[E1 _]]; rewrite E1 in Hx. }
  split; simpl.
  - eapply msync_ext; [exact Hu| |done|]; [|intros k _; apply counted_move; by destruct Hs as [[-> ->]|[-> ->]]].
    intros q Hq. split; [done|]. destruct q as [| |k]; simpl; [by rewrite !upd_eq|by rewrite !upd_ne by done|]. rewrite !(upd_ne (K:=mq)) by done.
    apply cv_list_move; [done|]. intros <-. destruct Hs as [[-> ->]|[-> ->]]; naive_solver.
  - intros w. rewrite elem_of_app, list_elem_of_singleton, Hms. split.
    + intros [(k & Hk & -> & Hx & Hne)| ->].
      * exists k. rewrite upd_ne; [done|]. intros ->. by destruct (sg k).
      * exists i. rewrite upd_eq. split_and!; [done|done|by destruct Hs as [[_ ->]|[_ ->]]|congruence].
    + intros (k & Hk & -> & Hx & Hne). destruct (decide (i = k)) as [<-|]; [by right|]. rewrite upd_ne in Hx by done. left. by exists k.
  - apply nx_move; [done|]. by destruct Hs as [[-> ->]|[-> ->]].
  - done.
  - intros k [= <-]. rewrite upd_ne by done. destruct (Hh j eq_refl) as (Hj & Hmay & Hgr). split_and!; [done|done|]. intros Hsj.
    apply Hg; [|by apply Hgr]. intros Ep%proc_inj; auto.
  - done.
  - eapply in_move; [exact Hin|by destruct Hs as [[_ ->]|[_ ->]]|done].
  - eapply st_move; [exact Hst|done|done|]. specialize (Hst i Hi). by destruct Hs as [[Ei ->]|[Ei ->]]; rewrite Ei in Hst.
Qed.

(** A philosopher that was woken at the mutex is in the monitor. *)
Lemma enter_resume t sg h nx ms i :
  minv t sg h nx ms → phil i → runs (tsync t) (proc i) → at_mx (sg i) = true →
  h = Some i ∧ nx = None ∧ granted (tsync t) (proc i) ∧ minv t (upd i SIn sg) (Some i) None ms.
Proof.
  intros Hm Hi Hr Hs. destruct (runs_holder _ _ _ _ _ _ Hm Hi Hr) as [-> Hg]; [by destruct (sg i)|].
  destruct Hm as [Hy Hms Hn Hnp Hh Hf Hin Hst]. destruct (Hh i eq_refl) as (_ & Hmay & _).
  assert (nx = None) as -> by by destruct (sg i). split_and!; [done|done|done|]. split; simpl.
  - eapply msync_ext; [exact Hy| |done|]; [|intros k _; apply counted_move; by destruct (sg i)].
    intros q Hq. split; [done|]. destruct q as [| |k]; simpl; [done|done|]. apply cv_list_move; [done|]. intros <-. naive_solver congruence.
  - by apply ms_leave.
  - apply nx_move; [done|]. by destruct (sg i).
  - done.
  - intros k [= <-]. by rewrite upd_eq.
  - done.
  - by eapply in_move.
  - by eapply st_move.
Qed.

(** [up] at the mutex: the monitor is free or the first in the queue has it. *)
Lemma release t sg ms i s t' :
  minv t sg (Some i) None ms → phil i → susp s = false → s ≠ SIn → susp (sg i) = false → counted s = counted (sg i) →
  st_ok i None s (state_condvar t i) → on_sync (up (QMutex mtp)) t = Ok (tt, t') →
  ∃ h' ms', minv t' (upd i s sg) h' None ms' ∧ h' ≠ Some i ∧ state_condvar t' = state_condvar t ∧
    current (sc (tsync t')) = current (sc (tsync t)).
Proof.
  intros Hm Hi Hsu Hsin Hgi Hcn Hso E. apply on_sync_inv in E as (u & E & ->).
  pose proof (mi_nodup _ _ _ _ _ Hm) as Hnd. destruct Hm as [Hy Hms Hn Hnp Hh Hf Hin Hst].
  pose proof (up_current _ _ _ _ _ (ms_sem _ _ _ _ _ Hy MQ I) E) as Hcur.
  assert (at_mx (sg i) = false ∧ at_nx (sg i) = false ∧ sg i ≠ SCv) as (Hmi & Hni & Hci) by by destruct (sg i).
  assert (at_mx s = false ∧ at_nx s = false ∧ s ≠ SCv) as (Hms' & Hns & Hcs) by by destruct s.
  assert (∀ h', st_ok i h' s (state_condvar t i)) as Hso' by by destruct s.
  destruct ms as [|w ms].
  - destruct (mup_free _ _ _ _ _ MQ Hy I eq_refl eq_refl) as (u' & E' & Hu & _). simpl in E'. rewrite E in E'. injection E' as <-.
    exists None, []. split_and!; [|done|done|done]. split; simpl.
    + eapply msync_ext; [exact Hu| |done|]; [|intros k _; by apply counted_move].
      intros q Hq. destruct q as [| |k]; simpl; [by rewrite !upd_eq|by rewrite !upd_ne by done|]. rewrite !(upd_ne (K:=mq)) by done. split; [done|].
      apply cv_list_move; [naive_solver congruence|naive_solver].
    + intros w. split; [set_solver|]. intros (k & Hk & -> & Hx & _). destruct (decide (i = k)) as [<-|]; [rewrite upd_eq in Hx; congruence|].
      rewrite upd_ne in Hx by done. apply (Hms (proc k)). exists k. split_and!; [done|done|done|congruence].
    + apply nx_move; [done|congruence].
    + done.
    + done.
    + done.
    + intros k Hk. destruct (decide (i = k)) as [<-|]; [by rewrite upd_eq|]. rewrite upd_ne by done. intros Hk'%Hin; [|done]. congruence.
    + eapply st_move; [exact Hst|done|naive_solver congruence|done].
  - destruct (mup_wake _ _ _ _ _ MQ w ms u Hy I eq_refl E) as (Hu & Hgw & _).
    destruct (proj1 (Hms w) ltac:(set_solver)) as (j & Hj & -> & Hxj & Hnj). assert (i ≠ j) as Hij by congruence.
    apply NoDup_cons in Hnd as [Hnw Hnd]. exists (Some j), ms. split_and!; [|congruence|done|done]. split; simpl.
    + eapply msync_ext; [exact Hu| |done|]; [|intros k _; by apply counted_move].
      intros q Hq. destruct q as [| |k]; simpl; [by rewrite !upd_eq|by rewrite !upd_ne by done|]. rewrite !(upd_ne (K:=mq)) by done. split; [done|].
      apply cv_list_move; [|naive_solver]. intros Hik Hk. split; [congruence|]. intros [= ->]. by rewrite Hk in Hxj.
    + intros w. split.
      * intros Hw. destruct (proj1 (Hms w) ltac:(set_solver)) as (k & Hk & -> & Hx & Hnk). exists k. rewrite upd_ne by congruence.
        split_and!; [done|done|done|]. intros [= ->]. done.
      * intros (k & Hk & -> & Hx & Hnk). destruct (decide (i = k)) as [<-|]; [rewrite upd_eq in Hx; congruence|].
        rewrite upd_ne in Hx by done. assert (proc k ∈ proc j :: ms) as [Hw|Hw]%elem_of_cons; [|by apply proc_inj in Hw; [congruence|..]|done].
        apply Hms. exists k. split_and!; [done|done|done|congruence].
    + apply nx_move; [done|congruence].
    + done.
    + intros k [= <-]. rewrite upd_ne by done. split_and!; [done|by destruct (sg j)|done].
    + done.
    + intros k Hk. destruct (decide (i = k)) as [<-|]; [by rewrite upd_eq|]. rewrite upd_ne by done. intros Hk'%Hin; [|done]. congruence.
    + eapply st_move; [exact Hst|done| |done]. intros k Hk Hne Hsk. split; [congruence|]. intros [= ->]. by rewrite Hsk in Hxj.
Qed.

Lemma msync_set_count u val wl nc cnt i x :
  msync u val wl nc cnt → phil i → msync (set_cv_count (cvs + i) x u) val wl nc (upd i x cnt).
Proof.
  intros [Hs Hn Hc Hcv Ho] Hi. split; try done.
  - intros q Hq. eapply sem_inv_frame; [by apply Hs|done|done|]. by intros w _ [? ? ? ?].
  - intros j Hj. simpl. destruct (decide (i = j)) as [<-|]; [by rewrite !upd_eq|]. rewrite !upd_ne by lia. by apply Hc.
Qed.

Lemma msync_set_next u val wl nc cnt x : msync u val wl nc cnt → msync (set_next_count mtp x u) val wl x cnt.
Proof.
  intros [Hs Hn Hc Hcv Ho]. split; try done.
  - intros q Hq. eapply sem_inv_frame; [by apply Hs|done|done|]. by intros w _ [? ? ? ?].
  - simpl. by rewrite upd_eq.
Qed.

Definition on_u (f : sync → sync) (t : table) : table := set_tsync (f (tsync t)) t.

(** [cond_wait] has counted its caller. *)
Lemma go_wait t sg ms i :
  minv t sg (Some i) None ms → sg i = SIn → state_condvar t i = HUNGRY →
  minv (on_u (set_cv_count (cvs + i) 1) t) (upd i SGo sg) (Some i) None ms.
Proof.
  intros [Hy Hms Hn Hnp Hh Hf Hin Hst] Hs Hst'. destruct (Hh i eq_refl) as (Hi & _). split; simpl.
  - eapply msync_ext; [by apply msync_set_count|intros q Hq; split; [done|]|done|intros j _; by destruct (decide (i = j)) as [<-|]; [rewrite !upd_eq|rewrite !upd_ne]].
    destruct q as [| |k]; simpl; [done|done|]. apply cv_list_move; [done|]. naive_solver congruence.
  - by apply ms_leave.
  - apply nx_move; [done|]. by rewrite Hs.
  - done.
  - intros k [= <-]. by rewrite upd_eq.
  - done.
  - by eapply in_move.
  - by eapply st_move.
Qed.

(** A philosopher that was signalled uncounts itself. *)
Lemma cv_back t sg nx ms i :
  minv t sg (Some i) nx ms → sg i = SCv → minv (on_u (set_cv_count (cvs + i) 0) t) (upd i SIn sg) (Some i) nx ms.
Proof.
  intros [Hy Hms Hn Hnp Hh Hf Hin Hst] Hs. destruct (Hh i eq_refl) as (Hi & _). split; simpl.
  - eapply msync_ext; [by apply msync_set_count|intros q Hq; split; [done|]|done|intros j _; by destruct (decide (i = j)) as [<-|]; [rewrite !upd_eq|rewrite !upd_ne]].
    destruct q as [| |k]; simpl; [done|done|]. apply cv_list_move; [done|]. naive_solver congruence.
  - apply ms_leave; [done|done|by rewrite Hs].
  - apply nx_move; [done|]. by rewrite Hs.
  - done.
  - intros k [= <-]. by rewrite upd_eq.
  - done.
  - by eapply in_move.
  - by eapply st_move.
Qed.

(** A philosopher that was let on again after its signal. *)
Lemma next_back t sg nx ms i :
  minv t sg (Some i) nx ms → at_nx (sg i) = true → minv (on_u (set_next_count mtp 0) t) (upd i SIn sg) (Some i) None ms.
Proof.
  intros [Hy Hms Hn Hnp Hh Hf Hin Hst] Hs. destruct (Hh i eq_refl) as (Hi & _). pose proof (proj1 (Hn i Hi) Hs) as ->. split; simpl.
  - eapply msync_ext; [by eapply msync_set_next|intros q Hq; split; [done|]|done|intros j _; apply counted_move; by destruct (sg i)].
    destruct q as [| |k]; simpl; [done|by rewrite decide_True|]. apply cv_list_move; [done|]. naive_solver congruence.
  - apply ms_leave; [done|done|by destruct (sg i)].
  - intros j Hj. destruct (decide (i = j)) as [<-|]; [by rewrite upd_eq|]. rewrite upd_ne, Hn by done. naive_solver congruence.
  - done.
  - intros k [= <-]. by rewrite upd_eq.
  - done.
  - by eapply in_move.
  - by eapply st_move.
Qed.

(** [down] at the own condition variable. *)
Lemma block_cv t sg h nx ms i r u :
  minv t sg h nx ms → phil i → sg i = SGo → h ≠ Some i → current (sc (tsync t)) = proc i →
  down (QCv (cvs + i)) (tsync t) = Ok (r, u) →
  r = Suspended (down_resume (QCv (cvs + i)) (proc i)) ∧ minv (set_tsync u t) (upd i SCv sg) h nx ms.
Proof.
  intros Hm Hi Hs Hhi Hc E. assert (susp (sg i) = false) as Hsu by by rewrite Hs.
  destruct (mdown_block _ _ _ _ _ (CQ i) _ _ _ (mi_sync _ _ _ _ _ Hm) Hi eq_refl (λ q, not_waiting _ _ _ _ _ i q Hm Hi Hsu) Hc E) as (-> & Hu & Hg).
  split; [done|]. destruct Hm as [Hy Hms Hn Hnp Hh Hf Hin Hst]. split; simpl.
  - eapply msync_ext; [exact Hu| |done|]; [|intros k _; apply counted_move; by rewrite Hs].
    intros q Hq. split; [done|]. destruct (decide (q = CQ i)) as [->|Hne].
    + rewrite upd_eq. simpl. by rewrite upd_eq, decide_True, decide_False by naive_solver congruence.
    + rewrite (upd_ne (K:=mq)) by done. destruct q as [| |k]; simpl; [done|done|]. apply cv_list_move; [done|]. congruence.
  - apply ms_leave; [done|done|by rewrite Hs].
  - apply nx_move; [done|]. by rewrite Hs.
  - done.
  - intros k ->. rewrite upd_ne by congruence. destruct (Hh k eq_refl) as (Hk & Hmay & Hgr). split_and!; [done|done|]. intros Hsk.
    apply Hg; [|by apply Hgr]. intros ->%proc_inj; done.
  - done.
  - by eapply in_move.
  - eapply st_move; [exact Hst|done|done|]. specialize (Hst i Hi). rewrite Hs in Hst. simpl. by rewrite decide_False.
Qed.

(** [up] at [next]: the monitor goes back to the philosopher that has signalled. *)
Lemma hand_back t sg p ms i t' :
  minv t sg (Some i) (Some p) ms → sg i = SIn → state_condvar t i = EATING → on_sync (up (QNext mtp)) t = Ok (tt, t') →
  minv t' (upd i SEat sg) (Some p) (Some p) ms ∧ state_condvar t' = state_condvar t.
Proof.
  intros [Hy Hms Hn Hnp Hh Hf Hin Hst] Hs Hst' E. apply on_sync_inv in E as (u & E & ->). split; [|done].
  destruct (Hh i eq_refl) as (Hi & _). pose proof (Hnp p eq_refl) as Hp. pose proof (proj2 (Hn p Hp) eq_refl) as Hnxp.
  assert (i ≠ p) as Hip by (intros ->; by rewrite Hs in Hnxp).
  destruct (mup_wake _ _ _ _ _ XQ (proc p) [] u Hy I) as (Hu & Hg & _); [simpl; by rewrite decide_False by congruence|exact E|].
  assert (∀ k, phil k → k ≠ i → sg k = SCv ∨ at_mx (sg k) = true → Some i = Some k ↔ Some p = Some k) as Hik.
  { intros k Hk Hki Hsk. split; [congruence|]. intros [= ->]. destruct Hsk as [Hsk|Hsk]; by destruct (sg k). }
  split; simpl.
  - eapply msync_ext; [exact Hu|intros q Hq; split; [done|]|done|intros j _; apply counted_move; by rewrite Hs].
    destruct q as [| |k]; simpl; [by rewrite upd_ne by done|by rewrite upd_eq, decide_True|]. rewrite (upd_ne (K:=mq)) by done.
    apply cv_list_move; [|naive_solver congruence]. intros Hne Hsk. apply Hik; [done|auto|by left].
  - intros w. rewrite Hms. split; intros (k & Hk & -> & Hx & Hne); exists k.
    + rewrite upd_ne by congruence. split_and!; [done|done|done|]. rewrite <-Hik; [done|done|congruence|by right].
    + destruct (decide (i = k)) as [<-|]; [by rewrite upd_eq in Hx|]. rewrite upd_ne in Hx by done. split_and!; [done|done|done|congruence].
  - apply nx_move; [done|]. by rewrite Hs.
  - done.
  - intros k [= <-]. rewrite upd_ne by done. split_and!; [done|by destruct (sg p)|done].
  - done.
  - intros k Hk. destruct (decide (i = k)) as [<-|]; [by rewrite upd_eq|]. rewrite upd_ne by done. intros Hk'%Hin; [congruence|done].
  - eapply st_move; [exact Hst|done| |done]. intros k Hk Hne Hsk. apply Hik; [done|done|by left].
Qed.

(** The end of [cond_signal] and of [cond_wait]. *)
Definition next_dec : M sync (thread sync unit) := modify (λ u, set_next_count mtp (s32 (next_count u mtp - 1)) u);; tret tt.
Definition count_dec (i : Z) : M sync (thread sync unit) :=
  modify (λ u, set_cv_count (cvs + i) (s32 (cv_count u (cvs + i) - 1)) u);; tret tt.

(** [cond_signal] to a philosopher that waits: it gets the monitor and the caller waits on
    [next]. *)
Lemma signal_sync u sg ms i l r u' :
  msync u (mval (Some i)) (mwl sg (Some i) None ms) 0 (λ j, counted (sg j)) → phil i → phil l → l ≠ i → sg l = SCv →
  (∀ q, valid q → proc i ∉ mwl sg (Some i) None ms q) → current (sc u) = proc i → cond_signal (cvs + l) u = Ok (r, u') →
  blocks id (proc i) r next_dec ∧ granted u' (proc l) ∧
  msync u' (mval (Some i)) (upd XQ [proc i] (upd (CQ l) [] (mwl sg (Some i) None ms))) 1 (λ j, counted (sg j)).
Proof.
  intros Hy Hi Hl Hli Hsl Hnw Hc E. unfold cond_signal in E. rewrite bind_gets, (ms_cnt _ _ _ _ _ Hy l Hl), Hsl in E. simpl in E.
  rewrite bind_gets, (ms_owner _ _ _ _ _ Hy l Hl), bind_modify, (ms_nc _ _ _ _ _ Hy) in E. change (s32 (0 + 1)) with 1 in E.
  pose proof (msync_set_next _ _ _ _ _ 1 Hy) as Hy1. apply bind_ok_inv in E as ([] & u1 & E1 & E).
  pose proof (up_current _ _ _ _ _ (ms_sem _ _ _ _ _ Hy1 (CQ l) Hl) E1) as Hc1. simpl in Hc1.
  destruct (mup_wake _ _ _ _ _ (CQ l) (proc l) [] u1 Hy1 Hl) as (Hy2 & Hg & _); [simpl; by rewrite decide_True by (split; congruence)|exact E1|].
  destruct (tbind_runs _ _ _ _ E) as (r2 & u2 & E2).
  assert (∀ q, valid q → proc i ∉ upd (CQ l) [] (mwl sg (Some i) None ms) q) as Hnw2.
  { intros q Hq. destruct (decide (q = CQ l)) as [->|]; [rewrite upd_eq; set_solver|]. rewrite upd_ne by auto. by apply Hnw. }
  destruct (mdown_block _ _ _ _ _ XQ (proc i) _ _ Hy2 I eq_refl Hnw2 ltac:(congruence) E2) as (-> & Hy3 & Hg3).
  destruct (tbind_blocks id _ _ _ _ (λ _, next_dec) _ _ E2 (down_waits _ _)) as (r' & E' & Hb). unfold next_dec in E' at 1. rewrite E' in E. injection E as <- <-.
  split_and!; [by eapply blocks_ext; [exact Hb|]|apply Hg3; [by intros Hx%proc_inj|done]|exact Hy3].
Qed.

Lemma signal_run t sg ms i l s r t' :
  minv t sg (Some i) None ms → sg i = SIn → state_condvar t i = THINKING → phil l → l ≠ i → sg l = SCv → at_nx s = true →
  current (sc (tsync t)) = proc i → sync_thread (cond_signal (cvs + l)) (set_state_condvar l EATING t) = Ok (r, t') →
  blocks tsync (proc i) r (sync_thread next_dec) ∧ minv t' (upd i s sg) (Some l) (Some i) ms ∧
  state_condvar t' = upd l EATING (state_condvar t).
Proof.
  intros Hm Hs Hst' Hl Hli Hsl Hns Hc E. apply sync_thread_inv in E as (r' & u & E & -> & ->).
  destruct (mi_h _ _ _ _ _ Hm i eq_refl) as (Hi & _). assert (susp (sg i) = false) as Hsu by by rewrite Hs.
  destruct (signal_sync _ _ _ _ _ _ _ (mi_sync _ _ _ _ _ Hm) Hi Hl Hli Hsl (λ q, not_waiting _ _ _ _ _ i q Hm Hi Hsu) Hc E) as (Hb & Hg & Hu).
  split; [by apply zoom_blocks|]. split; [|done]. destruct Hm as [Hy Hms Hn Hnp Hh Hf Hin Hst].
  assert (at_mx s = false ∧ s ≠ SIn ∧ s ≠ SCv ∧ counted s = 0 ∧ ∀ h, st_ok i h s THINKING) as (Hsm & Hsin & Hscv & Hsc & Hsok) by by destruct s.
  split; simpl.
  - eapply msync_ext; [exact Hu|intros q Hq; split; [by destruct q|]|done|intros j _; apply counted_move; by rewrite Hs].
    destruct q as [| |k]; simpl; [by rewrite !upd_ne by done|by rewrite upd_eq, decide_False by congruence|].
    rewrite (upd_ne XQ) by done. destruct (decide (k = l)) as [->|Hkl].
    + by rewrite upd_eq, decide_False by naive_solver.
    + rewrite (upd_ne (CQ l)) by congruence. apply cv_list_move; [naive_solver congruence|naive_solver congruence].
  - intros w. rewrite Hms. split; intros (k & Hk & -> & Hx & Hne); exists k.
    + rewrite upd_ne by congruence. split_and!; [done|done|done|]. intros [= ->]. by rewrite Hsl in Hx.
    + destruct (decide (i = k)) as [<-|]; [rewrite upd_eq in Hx; congruence|]. rewrite upd_ne in Hx by done. split_and!; [done|done|done|congruence].
  - intros j Hj. destruct (decide (i = j)) as [<-|]; [by rewrite upd_eq|]. rewrite upd_ne, Hn by done. naive_solver congruence.
  - by intros k [= <-].
  - intros k [= <-]. rewrite upd_ne, Hsl by auto. done.
  - done.
  - intros k Hk. destruct (decide (i = k)) as [<-|]; [by rewrite upd_eq|]. rewrite upd_ne by done. intros Hk'%Hin; [congruence|done].
  - intros k Hk. destruct (decide (i = k)) as [<-|]; [rewrite upd_eq, upd_ne, Hst' by auto; apply Hsok|]. rewrite upd_ne by done.
    destruct (decide (l = k)) as [<-|]; [rewrite upd_eq, Hsl; simpl; by rewrite decide_True|]. rewrite upd_ne by done. specialize (Hst k Hk).
    unfold st_ok in *. destruct (sg k); try done. repeat case_decide; congruence.
Qed.

(** ** The procedures *)

Notation phi_test := (phi_test_condvar mtp).
Notation take_forks := (phi_take_forks_condvar mtp).
Notation put_forks := (phi_put_forks_condvar mtp).

(** What is left of the procedures at each stage. *)
Definition out : M table (thread table unit) := leave_monitor mtp;; tret tt.
Definition take_body (i : Z) : M table (thread table unit) :=
  modify (set_state_condvar i HUNGRY);;
  _ ⇐ phi_test i;
  t ← gets state_condvar;
  _ ⇐ (if t i =? HUNGRY then c ← cv mtp i; sync_thread (cond_wait c) else tret tt);
  out.
Definition right_body (i : Z) : M table (thread table unit) := _ ⇐ phi_test (RIGHT i); out.
Definition put_body (i : Z) : M table (thread table unit) :=
  modify (set_state_condvar i THINKING);; _ ⇐ phi_test (LEFT i); right_body i.

Definition resid (i : Z) (s : stage) : M table (thread table unit) :=
  match s with
  | STakeM => take_body i
  | SCv => _ ⇐ sync_thread (count_dec i); out
  | SPutM => put_body i
  | SNextL => _ ⇐ sync_thread next_dec; right_body i
  | SNextR => _ ⇐ sync_thread next_dec; out
  | _ => tret tt
  end.

Definition pend_of (sg : Z → stage) (nx : option Z) : option Z :=
  match nx with Some p => if decide (sg p = SNextL) then Some (RIGHT p) else None | None => None end.

(** *** The tests *)

Lemma cv_run t sg h nx ms i : minv t sg h nx ms → cv mtp i t = Ok (cvs + i, t).
Proof. intros Hm. unfold cv. by rewrite bind_gets, (ms_cv _ _ _ _ _ (mi_sync _ _ _ _ _ Hm)). Qed.

Lemma phi_test_eq i t : phi_test i t =
  if may_eat (state_condvar t) i then (c ← cv mtp i; sync_thread (cond_signal c)) (set_state_condvar i EATING t) else Ok (Ret tt, t).
Proof. unfold phi_test_condvar. rewrite bind_gets. fold (may_eat (state_condvar t) i). by destruct (may_eat _ _). Qed.

(** Looking at a neighbour from inside the monitor. *)
Lemma phi_test_neighbour t sg ms i l s r t' :
  minv t sg (Some i) None ms → sg i = SIn → state_condvar t i = THINKING → phil l → l ≠ i → sg l ≠ SGo → at_nx s = true →
  current (sc (tsync t)) = proc i → phi_test l t = Ok (r, t') → state_condvar t' = test (state_condvar t) l ∧
  if may_eat (state_condvar t) l
  then blocks tsync (proc i) r (sync_thread next_dec) ∧ minv t' (upd i s sg) (Some l) (Some i) ms
  else r = Ret tt ∧ t' = t.
Proof.
  intros Hm Hs Hst Hl Hli Hgo Hns Hc E. rewrite phi_test_eq in E. unfold test. destruct (may_eat _ _) eqn:Hme; [|by injection E as <- <-].
  assert (sg l = SCv) as Hsl.
  { apply may_eat_hungry in Hme. pose proof (mi_st _ _ _ _ _ Hm l Hl) as Hx. pose proof (mi_in _ _ _ _ _ Hm l Hl) as Hin.
    unfold st_ok in Hx. rewrite Hme in Hx. destruct (sg l); try done. specialize (Hin eq_refl). congruence. }
  assert (cv mtp l (set_state_condvar l EATING t) = Ok (cvs + l, set_state_condvar l EATING t)) as Ecv.
  { unfold cv. by rewrite bind_gets; simpl; rewrite (ms_cv _ _ _ _ _ (mi_sync _ _ _ _ _ Hm)). }
  rewrite (bind_ok _ _ _ _ _ Ecv) in E. destruct (signal_run _ _ _ _ _ s _ _ Hm Hs Hst Hl Hli Hsl Hns Hc E) as (Hb & Hm' & Est). done.
Qed.

(** Looking at oneself: nobody waits at the own condition variable. *)
Lemma phi_test_self t sg nx ms i : minv t sg (Some i) nx ms → sg i = SIn →
  ∃ t', phi_test i t = Ok (Ret tt, t') ∧ tsync t' = tsync t ∧ state_condvar t' = test (state_condvar t) i.
Proof.
  intros Hm Hs. destruct (mi_h _ _ _ _ _ Hm i eq_refl) as (Hi & _). rewrite phi_test_eq. unfold test.
  destruct (may_eat _ _); [|by exists t]. exists (set_state_condvar i EATING t). split; [|done].
  assert (cv mtp i (set_state_condvar i EATING t) = Ok (cvs + i, set_state_condvar i EATING t)) as Ecv.
  { unfold cv. by rewrite bind_gets; simpl; rewrite (ms_cv _ _ _ _ _ (mi_sync _ _ _ _ _ Hm)). }
  rewrite (bind_ok _ _ _ _ _ Ecv). rewrite (sync_thread_run _ _ (Ret tt) (tsync t)); [by destruct t|]. simpl.
  unfold cond_signal. by rewrite bind_gets, (ms_cnt _ _ _ _ _ (mi_sync _ _ _ _ _ Hm) i Hi), Hs.
Qed.

(** Changing the entry of the philosopher that runs. *)
Lemma minv_state t t' sg h nx ms i :
  minv t sg h nx ms → sg i = SIn → tsync t' = tsync t → (∀ j, j ≠ i → state_condvar t' j = state_condvar t j) → minv t' sg h nx ms.
Proof.
  intros [Hy Hms Hn Hnp Hh Hf Hin Hst] Hs Ht Ho. split; rewrite ?Ht; try done. intros j Hj.
  destruct (decide (j = i)) as [->|]; [by rewrite Hs|]. rewrite Ho by done. by apply Hst.
Qed.

Lemma leave_free t sg h ms : minv t sg h None ms → leave_monitor mtp t = on_sync (up (QMutex mtp)) t.
Proof. intros Hm. unfold leave_monitor. by rewrite bind_gets, (ms_nc _ _ _ _ _ (mi_sync _ _ _ _ _ Hm)). Qed.

Lemma leave_next t sg h p ms : minv t sg h (Some p) ms → leave_monitor mtp t = on_sync (up (QNext mtp)) t.
Proof. intros Hm. unfold leave_monitor. by rewrite bind_gets, (ms_nc _ _ _ _ _ (mi_sync _ _ _ _ _ Hm)). Qed.

(** Leaving the monitor without a signal. *)
Lemma out_run t sg ms i s r t' :
  minv t sg (Some i) None ms → sg i = SIn → st_ok i None s (state_condvar t i) → s = SThink ∨ s = SEat → out t = Ok (r, t') →
  r = Ret tt ∧ ∃ h' ms', minv t' (upd i s sg) h' None ms' ∧ state_condvar t' = state_condvar t.
Proof.
  intros Hm Hs Hso Hs' E. destruct (mi_h _ _ _ _ _ Hm i eq_refl) as (Hi & _). apply bind_ok_inv in E as ([] & t1 & E1 & E). injection E as <- <-.
  split; [done|]. rewrite (leave_free _ _ _ _ Hm) in E1.
  assert (susp s = false ∧ s ≠ SIn ∧ susp (sg i) = false ∧ counted s = counted (sg i)) as (H1 & H2 & H3 & H4)
    by (rewrite Hs; by destruct Hs' as [-> | ->]).
  destruct (release _ _ _ _ s _ Hm Hi H1 H2 H3 H4 Hso E1) as (h' & ms' & Hm' & _ & Est & _). by exists h', ms'.
Qed.

(** *** Bodies *)

(** What a part of a procedure of [i] leaves: it has returned and [i] is at the stage
    [fin], or it waits at a stage [s] of [mid] with the rest of the procedure. *)
Definition after (sg : Z → stage) (i : Z) (fin : stage) (mid : list stage) (r : thread table unit) (t : table) : Prop :=
  ∃ s h nx ms, minv t (upd i s sg) h nx ms ∧ wforks (state_condvar t) (pend_of (upd i s sg) nx) ∧
    (s = fin ∧ r = Ret tt ∨ s ∈ mid ∧ blocks tsync (proc i) r (resid i s)).

Lemma upd_upd {V} i (x y : V) (f : Z → V) : ∀ j, upd i x (upd i y f) j = upd i x f j.
Proof. intros j. unfold upd. by case_decide. Qed.

Lemma minv_ext t sg sg' h nx ms : minv t sg h nx ms → (∀ j, sg' j = sg j) → minv t sg' h nx ms.
Proof.
  intros [Hy Hms Hn Hnp Hh Hf Hin Hst] He. split; try done.
  - eapply msync_ext; [exact Hy| |done|intros j _; by rewrite He]. intros q _. split; [done|]. destruct q; simpl; rewrite ?He; done.
  - intros w. rewrite Hms. by setoid_rewrite He.
  - intros i. rewrite He. apply Hn.
  - intros j. rewrite He. apply Hh.
  - intros j. rewrite He. apply Hin.
  - intros j. rewrite He. apply Hst.
Qed.

(** [cond_wait] in the monitor: the monitor is given away and the philosopher waits. *)
Lemma wait_run t sg ms i r t' :
  minv t sg (Some i) None ms → sg i = SIn → state_condvar t i = HUNGRY → current (sc (tsync t)) = proc i →
  sync_thread (cond_wait (cvs + i)) t = Ok (r, t') →
  blocks tsync (proc i) r (sync_thread (count_dec i)) ∧ state_condvar t' = state_condvar t ∧
  ∃ h ms', minv t' (upd i SCv sg) h None ms'.
Proof.
  intros Hm Hs Hst Hc E. destruct (mi_h _ _ _ _ _ Hm i eq_refl) as (Hi & _). apply sync_thread_inv in E as (r' & u & E & -> & ->).
  unfold cond_wait in E. rewrite bind_modify, (ms_cnt _ _ _ _ _ (mi_sync _ _ _ _ _ Hm) i Hi), Hs in E. change (s32 (counted SIn + 1)) with 1 in E.
  pose proof (go_wait _ _ _ _ Hm Hs Hst) as Hg. rewrite !bind_gets in E. simpl in E.
  rewrite (ms_owner _ _ _ _ _ (mi_sync _ _ _ _ _ Hm) i Hi), (ms_nc _ _ _ _ _ (mi_sync _ _ _ _ _ Hm)) in E. simpl in E.
  apply bind_ok_inv in E as ([] & u1 & E1 & E).
  destruct (release _ _ _ i SGo _ Hg Hi eq_refl ltac:(done) ltac:(by rewrite upd_eq) ltac:(by rewrite upd_eq) Hst
    (on_sync_run _ (on_u (set_cv_count (cvs + i) 1) t) _ _ E1)) as (h' & ms' & Hm' & Hh' & _ & Hc').
  destruct (tbind_runs _ _ _ _ E) as (r2 & u2 & E2).
  destruct (block_cv _ _ _ _ _ i _ _ Hm' Hi ltac:(by rewrite upd_eq) Hh' ltac:(simpl in *; congruence) E2) as (-> & Hm2).
  destruct (tbind_blocks id _ _ _ _ (λ _, count_dec i) _ _ E2 (down_waits _ _)) as (r3 & E3 & Hb). unfold count_dec in E3 at 1.
  rewrite E3 in E. injection E as <- <-. split_and!; [apply zoom_blocks; by eapply blocks_ext|done|]. exists h', ms'.
  eapply minv_ext; [exact Hm2|]. intros j. by rewrite !upd_upd.
Qed.

Lemma pend_ext sg sg' nx : (∀ j, sg' j = sg j) → pend_of sg' nx = pend_of sg nx.
Proof. intros He. destruct nx as [p|]; [|done]. simpl. by rewrite He. Qed.

Lemma after_upd sg i x fin mid r t : after (upd i x sg) i fin mid r t → after sg i fin mid r t.
Proof.
  intros (s & h & nx & ms & Hm & Hw & Hr). exists s, h, nx, ms. split_and!; [|..|done].
  - eapply minv_ext; [exact Hm|]. intros j. by rewrite upd_upd.
  - erewrite pend_ext; [exact Hw|]. intros j. by rewrite upd_upd.
Qed.

Lemma test_other st i j : j ≠ i → test st i j = st j.
Proof. intros Hne. unfold test. destruct (may_eat st i); [by rewrite upd_ne by auto|done]. Qed.

Lemma take_body_run t sg ms i r t' :
  minv t sg (Some i) None ms → sg i = SIn → state_condvar t i = THINKING → forks (state_condvar t) → current (sc (tsync t)) = proc i →
  take_body i t = Ok (r, t') → after sg i SEat [STakeM; SCv] r t'.
Proof.
  intros Hm Hs Hst Hf Hc E. destruct (mi_h _ _ _ _ _ Hm i eq_refl) as (Hi & _). unfold take_body in E. rewrite bind_modify in E.
  assert (minv (set_state_condvar i HUNGRY t) sg (Some i) None ms) as Hm1.
  { eapply minv_state; [exact Hm|exact Hs|done|]. intros j Hj. simpl. by rewrite upd_ne by auto. }
  destruct (phi_test_self _ _ _ _ _ Hm1 Hs) as (t2 & E2 & Hu2 & Hst2). simpl in Hu2, Hst2. rewrite (tbind_done _ _ _ _ _ E2), bind_gets in E.
  pose proof (forks_take _ _ Hf Hi Hst) as Hf2. set (st := upd i HUNGRY (state_condvar t)) in *.
  assert (minv t2 sg (Some i) None ms) as Hm2.
  { eapply minv_state; [exact Hm1|exact Hs|done|]. intros j Hj. rewrite Hst2. by apply test_other. }
  destruct (may_eat st i) eqn:Hme.
  - assert (state_condvar t2 i = EATING) as Hi2 by (rewrite Hst2; unfold test; by rewrite Hme, upd_eq).
    rewrite Hi2 in E. simpl in E. rewrite (tbind_done _ tt _ _ t2) in E by done.
    apply (out_run _ _ _ _ SEat _ _ Hm2 Hs Hi2) in E as (-> & h & ms' & Hm' & Est); [|by right].
    exists SEat, h, None, ms'. split_and!; [done| |by left]. apply wforks_forks. by rewrite Est, Hst2.
  - assert (state_condvar t2 i = HUNGRY) as Hi2 by (rewrite Hst2; unfold test; rewrite Hme; unfold st; by rewrite upd_eq).
    rewrite Hi2 in E. simpl in E. destruct (tbind_runs _ _ _ _ E) as (r3 & t3 & E3). pose proof E3 as E3'.
    rewrite (bind_ok _ _ _ _ _ (cv_run _ _ _ _ _ i Hm2)) in E3'.
    destruct (wait_run _ _ _ _ _ _ Hm2 Hs Hi2 ltac:(congruence) E3') as (Hb & Est & h & ms' & Hm3).
    destruct (tbind_blocks _ _ _ _ _ (λ _, out) _ _ E3 Hb) as (r4 & E4 & Hb4). rewrite E4 in E. injection E as <- <-.
    exists SCv, h, None, ms'. split_and!; [done| |right; split; [set_solver|exact Hb4]]. apply wforks_forks. by rewrite Est, Hst2.
Qed.

Lemma right_body_run t sg ms i r t' :
  minv t sg (Some i) None ms → sg i = SIn → state_condvar t i = THINKING → wforks (state_condvar t) (Some (RIGHT i)) →
  (∀ j, phil j → sg j ≠ SGo) → current (sc (tsync t)) = proc i →
  right_body i t = Ok (r, t') → after sg i SThink [SPutM; SNextL; SNextR] r t'.
Proof.
  intros Hm Hs Hst Hw Hgo Hc E. destruct (mi_h _ _ _ _ _ Hm i eq_refl) as (Hi & _). destruct (neighbours i Hi) as (_ & Hr & _ & Hri & _).
  pose proof (wforks_right _ _ Hw Hi) as Hf. unfold right_body in E.
  destruct (tbind_runs _ _ _ _ E) as (r1 & t1 & E1).
  destruct (phi_test_neighbour _ _ _ _ _ SNextR _ _ Hm Hs Hst Hr Hri (Hgo _ Hr) eq_refl Hc E1) as [Est Hx].
  destruct (may_eat _ _) eqn:Hme.
  - destruct Hx as [Hb Hm1]. destruct (tbind_blocks _ _ _ _ _ (λ _, out) _ _ E1 Hb) as (r4 & E4 & Hb4). rewrite E4 in E. injection E as <- <-.
    exists SNextR, (Some (RIGHT i)), (Some i), ms. split_and!; [done| |right; split; [set_solver|exact Hb4]]. rewrite Est.
    by apply wforks_weaken.
  - destruct Hx as [-> ->]. rewrite (tbind_done _ _ _ _ _ E1) in E.
    apply (out_run _ _ _ _ SThink _ _ Hm Hs Hst) in E as (-> & h & ms' & Hm' & Est'); [|by left].
    exists SThink, h, None, ms'. split_and!; [done| |by left]. apply wforks_forks. by rewrite Est', Est.
Qed.

Lemma put_body_run t sg ms i r t' :
  minv t sg (Some i) None ms → sg i = SIn → forks (state_condvar t) → (∀ j, phil j → sg j ≠ SGo) → current (sc (tsync t)) = proc i →
  put_body i t = Ok (r, t') → after sg i SThink [SPutM; SNextL; SNextR] r t'.
Proof.
  intros Hm Hs Hf Hgo Hc E. destruct (mi_h _ _ _ _ _ Hm i eq_refl) as (Hi & _). destruct (neighbours i Hi) as (Hl & _ & Hli & _).
  unfold put_body in E. rewrite bind_modify in E.
  assert (minv (set_state_condvar i THINKING t) sg (Some i) None ms) as Hm1.
  { eapply minv_state; [exact Hm|exact Hs|done|]. intros j Hj. simpl. by rewrite upd_ne by auto. }
  assert (state_condvar (set_state_condvar i THINKING t) i = THINKING) as Hst by (simpl; by rewrite upd_eq).
  pose proof (wforks_left _ _ Hf Hi) as Hw. destruct (tbind_runs _ _ _ _ E) as (r1 & t1 & E1).
  destruct (phi_test_neighbour _ _ _ _ _ SNextL _ _ Hm1 Hs Hst Hl Hli (Hgo _ Hl) eq_refl Hc E1) as [Est Hx]. simpl in Est, Hx.
  destruct (may_eat _ _) eqn:Hme.
  - destruct Hx as [Hb Hm2]. destruct (tbind_blocks _ _ _ _ _ (λ _, right_body i) _ _ E1 Hb) as (r4 & E4 & Hb4). rewrite E4 in E. injection E as <- <-.
    exists SNextL, (Some (LEFT i)), (Some i), ms. split_and!; [done| |right; split; [set_solver|exact Hb4]]. rewrite Est. simpl.
    by rewrite upd_eq, decide_True.
  - destruct Hx as [-> ->]. rewrite (tbind_done _ _ _ _ _ E1) in E. eapply (right_body_run _ _ _ _ _ _ Hm1 Hs Hst); [|done|done|exact E].
    simpl. unfold test in Hw. by rewrite Hme in Hw.
Qed.

(** *** Steps *)

Lemma pend_move sg nx i s : nx ≠ Some i → pend_of (upd i s sg) nx = pend_of sg nx.
Proof. destruct nx as [p|]; [|done]. intros Hne. simpl. by rewrite upd_ne by congruence. Qed.

Lemma resume_cv t sg nx ms i r t' :
  minv t sg (Some i) nx ms → sg i = SCv → wforks (state_condvar t) (pend_of sg nx) → resid i SCv t = Ok (r, t') →
  after sg i SEat [STakeM; SCv] r t'.
Proof.
  intros Hm Hs Hw E. destruct (mi_h _ _ _ _ _ Hm i eq_refl) as (Hi & Hmay & _). rewrite Hs in Hmay. destruct nx as [p|]; [|done].
  pose proof (cv_back _ _ _ _ _ Hm Hs) as Hm1. unfold resid in E.
  rewrite (tbind_done _ tt _ _ (on_u (set_cv_count (cvs + i) 0) t)) in E.
  2: { rewrite (sync_thread_run _ t (Ret tt) (set_cv_count (cvs + i) 0 (tsync t))); [done|]. unfold count_dec.
       by rewrite bind_modify, (ms_cnt _ _ _ _ _ (mi_sync _ _ _ _ _ Hm) i Hi), Hs. }
  apply bind_ok_inv in E as ([] & t2 & E2 & E). injection E as <- <-. rewrite (leave_next _ _ _ _ _ Hm1) in E2.
  assert (state_condvar t i = EATING) as Hst by (pose proof (mi_st _ _ _ _ _ Hm i Hi) as Hx; rewrite Hs in Hx; simpl in Hx; by rewrite decide_True in Hx).
  destruct (hand_back _ _ _ _ _ _ Hm1 (upd_eq _ _ _) Hst E2) as [Hm2 Est]. apply (after_upd sg i SIn). exists SEat, (Some p), (Some p), ms.
  assert (Some p ≠ Some i) as Hpi by (intros Hx%(mi_nx _ _ _ _ _ Hm i Hi); by rewrite Hs in Hx).
  split_and!; [done| |by left]. rewrite !pend_move by done. rewrite Est. exact Hw.
Qed.

Lemma next_dec_run t sg nx ms i : minv t sg (Some i) nx ms → at_nx (sg i) = true →
  sync_thread next_dec t = Ok (Ret tt, on_u (set_next_count mtp 0) t) ∧ nx = Some i.
Proof.
  intros Hm Hs. destruct (mi_h _ _ _ _ _ Hm i eq_refl) as (Hi & _). pose proof (proj1 (mi_nx _ _ _ _ _ Hm i Hi) Hs) as ->. split; [|done].
  rewrite (sync_thread_run _ t (Ret tt) (set_next_count mtp 0 (tsync t))); [done|]. unfold next_dec.
  by rewrite bind_modify, (ms_nc _ _ _ _ _ (mi_sync _ _ _ _ _ Hm)).
Qed.

Lemma resume_next t sg nx ms i r t' :
  minv t sg (Some i) nx ms → at_nx (sg i) = true → wforks (state_condvar t) (pend_of sg nx) → (∀ j, phil j → sg j ≠ SGo) →
  current (sc (tsync t)) = proc i → resid i (sg i) t = Ok (r, t') → after sg i SThink [SPutM; SNextL; SNextR] r t'.
Proof.
  intros Hm Hs Hw Hgo Hc E. destruct (next_dec_run _ _ _ _ _ Hm Hs) as [E1 ->]. pose proof (next_back _ _ _ _ _ Hm Hs) as Hm1.
  destruct (mi_h _ _ _ _ _ Hm i eq_refl) as (Hi & _). pose proof (mi_st _ _ _ _ _ Hm i Hi) as Hst. apply (after_upd sg i SIn). simpl in Hw.
  destruct (sg i) eqn:Hsi; try done; simpl in Hst, E; rewrite (tbind_done _ _ _ _ _ E1) in E.
  - eapply right_body_run; [exact Hm1|by rewrite upd_eq|done|exact Hw| |exact Hc|exact E].
    intros j Hj. destruct (decide (i = j)) as [<-|]; [by rewrite upd_eq|]. rewrite upd_ne by done. by apply Hgo.
  - apply (out_run _ _ _ _ SThink _ _ Hm1 (upd_eq _ _ _) Hst) in E as (-> & h & ms' & Hm' & Est); [|by left].
    exists SThink, h, None, ms'. split_and!; [done| |by left]. by rewrite Est.
Qed.

(** Entering the monitor: the body runs at once or the philosopher waits for the mutex. *)
Lemma mon_enter_run t sg h nx ms i s (K : M table (thread table unit)) r t' :
  minv t sg h nx ms → phil i → (sg i = SThink ∧ s = STakeM) ∨ (sg i = SEat ∧ s = SPutM) → current (sc (tsync t)) = proc i →
  (_ ⇐ sync_thread (down (QMutex mtp)); K) t = Ok (r, t') →
  (nx = None ∧ ∃ u ms', K (set_tsync u t) = Ok (r, t') ∧ minv (set_tsync u t) (upd i SIn sg) (Some i) None ms' ∧ current (sc u) = proc i) ∨
  (∃ ms', minv t' (upd i s sg) h nx ms' ∧ blocks tsync (proc i) r K ∧ state_condvar t' = state_condvar t).
Proof.
  intros Hm Hi Hs Hc E. destruct h as [j|].
  - right. destruct (tbind_runs _ _ _ _ E) as (r1 & t1 & E1). destruct (enter_block _ _ _ _ _ _ _ _ _ Hm Hi Hs Hc E1) as (Hb & Hm' & Est).
    destruct (tbind_blocks _ _ _ _ _ (λ _, K) _ _ E1 Hb) as (r4 & E4 & Hb4). rewrite E4 in E. injection E as <- <-.
    eexists. split_and!; [exact Hm'| |done]. by eapply blocks_ext.
  - left. destruct (enter_free _ _ _ _ _ Hm Hi) as (u & E1 & Hm1 & Hc1); [naive_solver|]. split; [by apply (mi_free _ _ _ _ _ Hm)|].
    rewrite (tbind_done _ _ _ _ _ E1) in E. exists u, []. split_and!; [done|done|congruence].
Qed.

(** ** The invariant *)

Definition phase_at (i : Z) (s : stage) (p : phase) : Prop :=
  match p with
  | Thinking => s = SThink
  | Eating => s = SEat
  | Taking k => s ∈ [STakeM; SCv] ∧ ∀ t, granted (tsync t) (proc i) → k t = resid i s t
  | Putting k => s ∈ [SPutM; SNextL; SNextR] ∧ ∀ t, granted (tsync t) (proc i) → k t = resid i s t
  end.

Record monitor_at (c : dinner) (sg : Z → stage) (h nx : option Z) (ms : list Z) : Prop := MonitorAt {
  ma_inv : minv (d_table c) sg h nx ms;
  ma_forks : wforks (state_condvar (d_table c)) (pend_of sg nx);
  ma_phase : ∀ i, phil i → phase_at i (sg i) (d_phase c i);
}.

Definition monitor_inv (c : dinner) : Prop := ∃ sg h nx ms, monitor_at c sg h nx ms.

Lemma stages_stable c sg h nx ms j : monitor_at c sg h nx ms → phil j → sg j ≠ SGo ∧ sg j ≠ SIn.
Proof.
  intros Hm Hj. pose proof (ma_phase _ _ _ _ _ Hm j Hj) as Hp. destruct (d_phase c j) as [|k| |k]; simpl in Hp;
    [by rewrite Hp|destruct Hp as [Hp _]; split; intros E; rewrite E in Hp; set_solver|by rewrite Hp|
     destruct Hp as [Hp _]; split; intros E; rewrite E in Hp; set_solver].
Qed.

(** A part of [phi_take_forks] has been run. *)
Lemma after_take t ph sg h nx ms i r t' :
  monitor_at (Dinner t ph) sg h nx ms → after sg i SEat [STakeM; SCv] r t' → monitor_inv (Dinner t' (upd i (took r) ph)).
Proof.
  intros [_ _ Hp] (s & h' & nx' & ms' & Hm & Hw & Hr). exists (upd i s sg), h', nx', ms'. split; [done|done|]. intros j Hj. simpl.
  destruct (decide (i = j)) as [<-|]; [|rewrite !upd_ne by done; by apply Hp]. rewrite !upd_eq.
  destruct Hr as [[-> ->]|[Hs (k & -> & Hk)]]; done.
Qed.

Lemma after_put t ph sg h nx ms i r t' :
  monitor_at (Dinner t ph) sg h nx ms → after sg i SThink [SPutM; SNextL; SNextR] r t' → monitor_inv (Dinner t' (upd i (dropped r) ph)).
Proof.
  intros [_ _ Hp] (s & h' & nx' & ms' & Hm & Hw & Hr). exists (upd i s sg), h', nx', ms'. split; [done|done|]. intros j Hj. simpl.
  destruct (decide (i = j)) as [<-|]; [|rewrite !upd_ne by done; by apply Hp]. rewrite !upd_eq.
  destruct Hr as [[-> ->]|[Hs (k & -> & Hk)]]; done.
Qed.

(** A philosopher that waits to enter. *)
Lemma after_block t t' sg h nx ms ms' i s fin mid r :
  minv t sg h nx ms → phil i → at_nx (sg i) = false → wforks (state_condvar t) (pend_of sg nx) → s ∈ mid →
  minv t' (upd i s sg) h nx ms' → blocks tsync (proc i) r (resid i s) → state_condvar t' = state_condvar t → after sg i fin mid r t'.
Proof.
  intros Hm Hi Hs Hw Hmid Hm' Hb Est. exists s, h, nx, ms'. split_and!; [done| |by right]. rewrite Est, pend_move; [done|].
  intros Hx%(mi_nx _ _ _ _ _ Hm i Hi). congruence.
Qed.

Lemma mstep_take t ph sg h nx ms i r t' :
  monitor_at (Dinner t ph) sg h nx ms → phil i → runs (tsync t) (proc i) → ph i = Thinking → take_forks i t = Ok (r, t') →
  monitor_inv (Dinner t' (upd i (took r) ph)).
Proof.
  intros Hma Hi [Hc _] Hph E. pose proof (ma_phase _ _ _ _ _ Hma i Hi) as Hs. simpl in Hs. rewrite Hph in Hs. simpl in Hs.
  destruct Hma as [Hm Hw Hp] eqn:Eq. eapply after_take; [exact Hma|]. clear Eq. simpl in *.
  pose proof (mi_st _ _ _ _ _ Hm i Hi) as Hst. rewrite Hs in Hst.
  destruct (mon_enter_run _ _ _ _ _ _ STakeM (take_body i) _ _ Hm Hi (or_introl (conj Hs eq_refl)) Hc E) as [(-> & u & ms' & E' & Hm' & Hc')|(ms' & Hm' & Hb & Est)].
  - apply (after_upd sg i SIn). eapply take_body_run; [exact Hm'|by rewrite upd_eq|done|by apply wforks_forks|done|exact E'].
  - eapply (after_block t t' sg h nx ms ms' i STakeM); try done; [by rewrite Hs|set_solver].
Qed.

Lemma mstep_put t ph sg h nx ms i r t' :
  monitor_at (Dinner t ph) sg h nx ms → phil i → runs (tsync t) (proc i) → ph i = Eating → put_forks i t = Ok (r, t') →
  monitor_inv (Dinner t' (upd i (dropped r) ph)).
Proof.
  intros Hma Hi [Hc _] Hph E. pose proof (ma_phase _ _ _ _ _ Hma i Hi) as Hs. simpl in Hs. rewrite Hph in Hs. simpl in Hs.
  pose proof (λ j Hj, proj1 (stages_stable _ _ _ _ _ j Hma Hj)) as Hgo.
  destruct Hma as [Hm Hw Hp] eqn:Eq. eapply after_put; [exact Hma|]. clear Eq. simpl in *.
  destruct (mon_enter_run _ _ _ _ _ _ SPutM (put_body i) _ _ Hm Hi (or_intror (conj Hs eq_refl)) Hc E) as [(-> & u & ms' & E' & Hm' & Hc')|(ms' & Hm' & Hb & Est)].
  - apply (after_upd sg i SIn). eapply put_body_run; [exact Hm'|by rewrite upd_eq|by apply wforks_forks| |done|exact E'].
    intros j Hj. destruct (decide (i = j)) as [<-|]; [by rewrite upd_eq|]. rewrite upd_ne by done. by apply Hgo.
  - eapply (after_block t t' sg h nx ms ms' i SPutM); try done; [by rewrite Hs|set_solver].
Qed.

Lemma mstep_taking t ph sg h nx ms i k r t' :
  monitor_at (Dinner t ph) sg h nx ms → phil i → runs (tsync t) (proc i) → ph i = Taking k → k t = Ok (r, t') →
  monitor_inv (Dinner t' (upd i (took r) ph)).
Proof.
  intros Hma Hi Hr Hph E. pose proof (ma_phase _ _ _ _ _ Hma i Hi) as Hs. simpl in Hs. rewrite Hph in Hs. destruct Hs as [Hs Hk].
  destruct Hma as [Hm Hw Hp] eqn:Eq. eapply after_take; [exact Hma|]. clear Eq. simpl in *.
  destruct (runs_holder _ _ _ _ _ _ Hm Hi Hr) as [-> Hg].
  { repeat (apply elem_of_cons in Hs as [Hs|Hs]; [by rewrite Hs|]). set_solver. }
  rewrite (Hk t Hg) in E. apply elem_of_cons in Hs as [Hs|Hs%list_elem_of_singleton]; rewrite Hs in E.
  - destruct (enter_resume _ _ _ _ _ _ Hm Hi Hr) as (_ & -> & _ & Hm'); [by rewrite Hs|]. pose proof (mi_st _ _ _ _ _ Hm i Hi) as Hst. rewrite Hs in Hst.
    apply (after_upd sg i SIn). eapply take_body_run; [exact Hm'|by rewrite upd_eq|done|by apply wforks_forks|apply Hr|exact E].
  - by eapply resume_cv.
Qed.

Lemma mstep_putting t ph sg h nx ms i k r t' :
  monitor_at (Dinner t ph) sg h nx ms → phil i → runs (tsync t) (proc i) → ph i = Putting k → k t = Ok (r, t') →
  monitor_inv (Dinner t' (upd i (dropped r) ph)).
Proof.
  intros Hma Hi Hr Hph E. pose proof (ma_phase _ _ _ _ _ Hma i Hi) as Hs. simpl in Hs. rewrite Hph in Hs. destruct Hs as [Hs Hk].
  pose proof (λ j Hj, proj1 (stages_stable _ _ _ _ _ j Hma Hj)) as Hgo.
  destruct Hma as [Hm Hw Hp] eqn:Eq. eapply after_put; [exact Hma|]. clear Eq. simpl in *.
  destruct (runs_holder _ _ _ _ _ _ Hm Hi Hr) as [-> Hg].
  { repeat (apply elem_of_cons in Hs as [Hs|Hs]; [by rewrite Hs|]). set_solver. }
  rewrite (Hk t Hg) in E. destruct (at_nx (sg i)) eqn:Hn.
  - eapply resume_next; [exact Hm|done|exact Hw|done|apply Hr|exact E].
  - assert (sg i = SPutM) as Hs'.
    { repeat (apply elem_of_cons in Hs as [Hs|Hs]; [by rewrite Hs in Hn|]). set_solver. }
    rewrite Hs' in E. destruct (enter_resume _ _ _ _ _ _ Hm Hi Hr) as (_ & -> & _ & Hm'); [by rewrite Hs'|].
    apply (after_upd sg i SIn). eapply put_body_run; [exact Hm'|by rewrite upd_eq|by apply wforks_forks| |apply Hr|exact E].
    intros j Hj. destruct (decide (i = j)) as [<-|]; [by rewrite upd_eq|]. rewrite upd_ne by done. by apply Hgo.
Qed.

Definition monitor_queues (q : queue) : Prop := ∃ m, valid m ∧ q = qof m.

Lemma waiting_suspended t ph sg h nx ms q w :
  monitor_at (Dinner t ph) sg h nx ms → valid q → w ∈ mwl sg h nx ms q → ∃ i, phil i ∧ w = proc i ∧ suspended (ph i) = true.
Proof.
  intros [Hm _ Hp] Hq Hw. simpl in *. assert (∃ i, phil i ∧ w = proc i ∧ susp (sg i) = true) as (i & Hi & -> & Hs).
  { destruct q as [| |j]; simpl in *.
    - apply (mi_ms _ _ _ _ _ Hm) in Hw as (i & Hi & -> & Hx & _). exists i. split_and!; [done|done|by destruct (sg i)].
    - destruct nx as [p|] eqn:En; [|set_solver]. case_decide; [set_solver|]. exists p. pose proof (mi_nx_phil _ _ _ _ _ Hm p eq_refl) as Hpp.
      pose proof (proj2 (mi_nx _ _ _ _ _ Hm p Hpp) eq_refl). split_and!; [done|set_solver|by destruct (sg p)].
    - case_decide as Hd; [|set_solver]. exists j. split_and!; [done|set_solver|]. by destruct Hd as [-> _]. }
  exists i. split_and!; [done|done|]. specialize (Hp i Hi). destruct (ph i); simpl in Hp; try done; by rewrite Hp in Hs.
Qed.

Lemma mstep_other t ph sg h nx ms t' :
  monitor_at (Dinner t ph) sg h nx ms → undisturbed proc monitor_queues ph t t' → monitor_at (Dinner t' ph) sg h nx ms.
Proof.
  intros Hma Hu. pose proof Hma as [Hm Hw Hp]. simpl in *. pose proof (un_condvar _ _ _ _ _ Hu) as Est.
  split; simpl; [|by rewrite Est|done]. destruct Hm as [Hy Hms Hn Hnp Hh Hf Hin Hst]. split; try done.
  - destruct Hy as [Hs Hnc Hc Hcv Ho]. split.
    + intros q Hq. eapply undisturbed_sem; [exact Hu|by exists q| |by apply Hs]. intros w Hx. by eapply waiting_suspended.
    + by rewrite (un_next _ _ _ _ _ Hu).
    + intros i Hi. rewrite (un_count _ _ _ _ _ Hu). by apply Hc.
    + by rewrite (un_cv _ _ _ _ _ Hu).
    + intros i Hi. rewrite (un_owner _ _ _ _ _ Hu). by apply Ho.
  - intros j Hj. destruct (Hh j Hj) as (Hpj & Hmay & Hg). split_and!; [done|done|]. intros Hsj.
    eapply undisturbed_granted; [exact Hu|done| |by apply Hg]. specialize (Hp j Hpj). destruct (ph j); simpl in Hp; try done; by rewrite Hp in Hsj.
  - intros i Hi. rewrite Est. by apply Hst.
Qed.

Lemma monitor_reachable c c' : monitor_inv c → rtc (dstep take_forks put_forks proc monitor_queues) c c' → monitor_inv c'.
Proof.
  intros Hi Hr. induction Hr as [|c1 c2 c3 Hs _ IH]; [done|]. apply IH. destruct Hi as (sg & h & nx & ms & Hma). destruct Hs.
  - by eapply mstep_take.
  - by eapply mstep_taking.
  - by eapply mstep_put.
  - by eapply mstep_putting.
  - eexists _, _, _, _. by eapply mstep_other.
Qed.

(** *** The start *)

Definition init_cv (c : Z) : M sync unit := modify (set_cv_count c 0);; sem_init (QCv c) 0;; modify (set_cv_owner c mtp).

(** A condition variable that has been set up. *)
Definition fresh_cv (u : sync) (c : Z) : Prop := sem_inv u (QCv c) 0 [] ∧ cv_count u c = 0 ∧ cv_owner u c = mtp.

Lemma init_cv_run c u u' : init_cv c u = Ok (tt, u') →
  fresh_cv u' c ∧ (∀ j, j ≠ c → fresh_cv u j → fresh_cv u' j) ∧
  (∀ q v, q ≠ QCv c → sem_inv u q v [] → sem_inv u' q v []) ∧ next_count u' = next_count u ∧ mon_cv u' = mon_cv u.
Proof.
  intros [= <-]. assert (∀ q v, q ≠ QCv c → sem_inv u q v [] →
    sem_inv (set_cv_owner c mtp (set_w_link (list_init (QHead (QCv c))) (set_sem_value (QCv c) 0 (set_cv_count c 0 u)))) q v []) as Hfr.
  { intros q v Hne Hi. eapply sem_inv_frame; [exact Hi|simpl; by rewrite upd_ne by auto| |set_solver].
    intros x Hx. simpl in *. apply list_elem_of_singleton in Hx as ->. apply list_init_other. congruence. }
  split_and!; [| |done|done|done].
  - split_and!; simpl; [|by rewrite upd_eq|by rewrite upd_eq]. split; simpl; [apply list_init_dll|by rewrite upd_eq|lia|done|set_solver].
  - intros j Hj (Hi & Hc & Ho). split_and!; [apply Hfr; [congruence|done]|simpl; by rewrite upd_ne by auto..].
Qed.

Lemma init_cv_loop n c u u' : for_range c n init_cv u = Ok (tt, u') →
  (∀ j, c ≤ j < c + Z.of_nat n → fresh_cv u' j) ∧ (∀ j, j < c → fresh_cv u j → fresh_cv u' j) ∧
  (∀ q v, (∀ j, q ≠ QCv j) → sem_inv u q v [] → sem_inv u' q v []) ∧ next_count u' = next_count u ∧ mon_cv u' = mon_cv u.
Proof.
  revert c u. induction n as [|n IH]; intros c u E; [injection E as <-; split_and!; [lia|done..]|].
  cbn [for_range] in E. apply bind_ok_inv in E as ([] & u1 & (F1 & F2 & F3 & F4 & F5)%init_cv_run & (H1 & H2 & H3 & H4 & H5)%IH).
  split_and!; [| |auto|congruence|congruence].
  - intros j Hj. destruct (decide (j = c)) as [->|]; [apply H2; [lia|done]|apply H1; lia].
  - intros j Hj Hf. apply H2; [lia|]. apply F2; [lia|done].
Qed.

Lemma monitor_init_minv u0 u1 ss :
  monitor_init mtp N (Some cvs) u0 = Ok (tt, u1) → minv (Table u1 ss (λ _, THINKING)) (λ _, SThink) None None [].
Proof.
  intros E. unfold monitor_init in E. rewrite (bind_ok _ _ _ tt u0) in E by done. rewrite !bind_modify in E.
  apply bind_ok_inv in E as ([] & u2 & E2 & E). apply bind_ok_inv in E as ([] & u3 & E3 & E). rewrite bind_modify in E.
  pose proof (sem_init_inv _ 1 _ _ ltac:(lia) E2) as Hq2. pose proof (sem_init_inv _ 0 _ _ ltac:(lia) E3) as Hq3.
  pose proof (sem_init_apart _ _ _ _ E3 (QMutex mtp) ltac:(done)) as Hap. rewrite (si_value _ _ _ _ Hq2) in Hap. specialize (Hap Hq2).
  assert (next_count u3 mtp = 0) as Hn3. { injection E2 as <-. injection E3 as <-. simpl. by rewrite upd_eq. }
  assert (∀ q v, sem_inv u3 q v [] → sem_inv (set_mon_cv mtp (Some cvs) u3) q v []) as Hset.
  { intros q v Hi. eapply sem_inv_frame; [exact Hi|done|done|set_solver]. }
  apply (init_cv_loop (Z.to_nat N)) in E as (H1 & _ & H3 & H4 & H5). split; simpl; try done.
  - split; simpl.
    + intros [| |i] Hv; simpl; [apply H3; [done|by apply Hset]|apply H3; [done|by apply Hset]|]. apply H1. unfold valid, phil, N in *. lia.
    + rewrite H4. done.
    + intros i Hi. apply H1. unfold phil, N in *. lia.
    + rewrite H5. simpl. by rewrite upd_eq.
    + intros i Hi. apply H1. unfold phil, N in *. lia.
  - intros w. split; [set_solver|]. intros (i & _ & _ & Hx & _). done.
Qed.

(** *** What the invariant gives *)

Lemma eating_state c sg h nx ms i : monitor_at c sg h nx ms → phil i → d_phase c i = Eating → state_condvar (d_table c) i = EATING.
Proof.
  intros [Hm _ Hp] Hi E. specialize (Hp i Hi). rewrite E in Hp. simpl in Hp. pose proof (mi_st _ _ _ _ _ Hm i Hi) as Hst. by rewrite Hp in Hst.
Qed.

Lemma monitor_apart c sg h nx ms i : monitor_at c sg h nx ms → phil i → d_phase c i = Eating →
  d_phase c (LEFT i) ≠ Eating ∧ d_phase c (RIGHT i) ≠ Eating.
Proof.
  intros Hma Hi E. destruct (neighbours i Hi) as (Hl & Hr & _ & _ & _ & Hrl & _). pose proof (wf_apart _ _ (ma_forks _ _ _ _ _ Hma)) as Ha.
  pose proof (eating_state _ _ _ _ _ i Hma Hi E) as He. split; intros E'; eapply (eating_state _ _ _ _ _ _ Hma) in E'; try done.
  - apply (Ha _ Hl) in E'. by rewrite Hrl in E'.
  - by apply (Ha _ Hi) in He.
Qed.

Lemma phase_susp c sg h nx ms i : monitor_at c sg h nx ms → phil i → susp (sg i) = suspended (d_phase c i).
Proof.
  intros [_ _ Hp] Hi. specialize (Hp i Hi). destruct (d_phase c i) as [|k| |k]; simpl in Hp; [by rewrite Hp| |by rewrite Hp|].
  all: destruct Hp as [Hp _]; repeat (apply elem_of_cons in Hp as [Hp|Hp]; [by rewrite Hp|]); set_solver.
Qed.

(** A suspended philosopher that does not hold the monitor sleeps. *)
Lemma monitor_asleep c sg h nx ms i : monitor_at c sg h nx ms → phil i → suspended (d_phase c i) = true → h ≠ Some i →
  p_state (procs (sc (tsync (d_table c))) (proc i)) = PROC_SLEEPING.
Proof.
  intros Hma Hi Hs Hh. rewrite <-(phase_susp _ _ _ _ _ _ Hma Hi) in Hs. pose proof (ma_inv _ _ _ _ _ Hma) as Hm.
  destruct (waits_somewhere _ _ _ _ _ _ Hm Hi Hs Hh) as (q & Hq & Hw).
  by apply (si_waiters _ _ _ _ (ms_sem _ _ _ _ _ (mi_sync _ _ _ _ _ Hm) q Hq) (proc i)) in Hw as [].
Qed.

(** When nobody holds the monitor, nobody is at the mutex or waits on [next]. *)
Lemma free_stage c sg nx ms i : monitor_at c sg None nx ms → phil i → nx = None ∧ (sg i = SThink ∨ sg i = SCv ∨ sg i = SEat).
Proof.
  intros Hma Hi. pose proof (ma_inv _ _ _ _ _ Hma) as Hm. pose proof (mi_free _ _ _ _ _ Hm eq_refl) as ->. split; [done|].
  pose proof (si_handoff _ _ _ _ (ms_sem _ _ _ _ _ (mi_sync _ _ _ _ _ Hm) MQ I) ltac:(done)) as Hnil. simpl in Hnil. subst ms.
  destruct (stages_stable _ _ _ _ _ i Hma Hi) as [? ?]. pose proof (mi_nx _ _ _ _ _ Hm i Hi) as Hn.
  assert (at_mx (sg i) = true → proc i ∈ ([] : list Z)) as Hx by (intros Hx; apply (mi_ms _ _ _ _ _ Hm); by exists i).
  destruct (sg i); simpl in *; auto; try done; set_solver.
Qed.

(** A philosopher waits for a neighbour that eats. *)
Lemma free_waits c sg nx ms i : monitor_at c sg None nx ms → phil i → suspended (d_phase c i) = true →
  d_phase c (LEFT i) = Eating ∨ d_phase c (RIGHT i) = Eating.
Proof.
  intros Hma Hi Hs. rewrite <-(phase_susp _ _ _ _ _ _ Hma Hi) in Hs. pose proof (ma_inv _ _ _ _ _ Hma) as Hm.
  destruct (free_stage _ _ _ _ _ Hma Hi) as [-> Hst]. assert (sg i = SCv) as Hsi by (destruct Hst as [E|[E|E]]; by rewrite E in Hs).
  pose proof (mi_st _ _ _ _ _ Hm i Hi) as Hh. rewrite Hsi in Hh. simpl in Hh.
  assert (∀ j, phil j → state_condvar (d_table c) j = EATING → d_phase c j = Eating) as He.
  { intros j Hj Ej. destruct (free_stage _ _ _ _ _ Hma Hj) as [_ Hsj]. pose proof (mi_st _ _ _ _ _ Hm j Hj) as Hx. rewrite Ej in Hx.
    pose proof (ma_phase _ _ _ _ _ Hma j Hj) as Hp. destruct Hsj as [E|[E|E]]; rewrite E in Hx, Hp; [done|done|].
    destruct (d_phase c j); simpl in Hp; try done; set_solver. }
  destruct (neighbours i Hi) as (Hl & Hr & _). destruct (wf_wait _ _ (ma_forks _ _ _ _ _ Hma) i Hi Hh) as [E|[E|E]]; [left|right|done]; auto.
Qed.

End monitor.

(** ** Properties *)

(** C4. The dining philosophers with a monitor: start from [monitor_init] and let the five
    processes interleave [phi_take_forks_condvar] and [phi_put_forks_condvar] in any
    order with any kernel code in between that does not touch the monitor.
    Then no philosopher eats while a neighbour eats.  Of the philosophers that are
    stopped in a procedure at most one has been woken and the others sleep, so at most
    one is in the monitor; and when none has been woken the mutex is free and each
    of them has a neighbour that eats, so that the dinner is never stuck. *)
Theorem philosophers_monitor_safe mtp cvs (proc : Z → Z) u0 u1 ss c :
  (∀ i j, phil i → phil j → proc i = proc j → i = j) → monitor_init mtp N (Some cvs) u0 = Ok (tt, u1) →
  rtc (dstep (phi_take_forks_condvar mtp) (phi_put_forks_condvar mtp) proc (monitor_queues mtp cvs))
    (Dinner (Table u1 ss (λ _, THINKING)) (λ _, Thinking)) c →
  let t := d_table c in
  (∀ i, phil i → d_phase c i = Eating → state_condvar t i = EATING ∧ d_phase c (LEFT i) ≠ Eating ∧ d_phase c (RIGHT i) ≠ Eating) ∧
  ∃ woken : option Z,
    (∀ i, woken = Some i → phil i ∧ suspended (d_phase c i) = true ∧ granted (tsync t) (proc i)) ∧
    (∀ i, phil i → suspended (d_phase c i) = true → woken ≠ Some i → p_state (procs (sc (tsync t)) (proc i)) = PROC_SLEEPING) ∧
    (woken = None → sem_value (tsync t) (QMutex mtp) = 1 ∧
      ∀ i, phil i → suspended (d_phase c i) = true → d_phase c (LEFT i) = Eating ∨ d_phase c (RIGHT i) = Eating).
Proof.
  intros Hinj Hinit Hr t. assert (monitor_inv mtp cvs proc c) as (sg & h & nx & ms & Hma).
  { eapply monitor_reachable; [done| |exact Hr]. exists (λ _, SThink), None, None, []. split; simpl; [by eapply monitor_init_minv| |done].
    apply wforks_forks. by split. }
  split.
  { intros i Hi E. split; [by eapply eating_state|by eapply monitor_apart]. }
  pose proof (ma_inv _ _ _ _ _ _ _ _ Hma) as Hm. exists h. split_and!.
  - intros i ->. destruct (mi_h _ _ _ _ _ _ _ _ Hm i eq_refl) as (Hi & Hmay & Hg). split; [done|].
    destruct (stages_stable mtp cvs proc Hinj c sg (Some i) nx ms i Hma Hi) as [? ?].
    assert (susp (sg i) = true) as Hs by by destruct (sg i). split; [|auto]. symmetry in Hs. by rewrite Hs; symmetry; eapply phase_susp.
  - intros i Hi Hs Hh. by eapply monitor_asleep.
  - intros ->. split; [|intros i Hi Hs; by eapply free_waits].
    apply (si_value _ _ _ _ (ms_sem _ _ _ _ _ _ _ (mi_sync _ _ _ _ _ _ _ _ Hm) MQ I)).
Qed.

(** The monitor is at 10 and its condition variables from 20 on; philosopher [i] is process
    [i + 1]. *)
Definition mlaid : table := Table (state_after example_sync (monitor_init 10 N (Some 20) example_sync)) (λ _, THINKING) (λ _, THINKING).
Definition mserved : table := state_after mlaid (phi_take_forks_condvar 10 0 mlaid).
Definition msecond : table := switch 2 mserved.

Lemma msecond_blocks : ∃ k t, phi_take_forks_condvar 10 1 msecond = Ok (Suspended k, t).
Proof.
  assert (match phi_take_forks_condvar 10 1 msecond with Ok (Suspended _, _) => true | _ => false end = true) as H
    by (vm_compute; reflexivity).
  destruct (phi_take_forks_condvar 10 1 msecond) as [[[|k] t]| |]; try discriminate. by exists k, t.
Qed.

(** Philosopher 0 eats and philosopher 1 waits for it. *)
Lemma philosophers_monitor_safe_witness : ∃ c k,
  d_phase c 0 = Eating ∧ d_phase c 1 = Taking k ∧ state_condvar (d_table c) 0 = EATING.
Proof.
  destruct msecond_blocks as (k & t & Ek).
  set (c := Dinner t (upd 1 (Taking k) (upd 0 Eating (λ _, Thinking)))).
  assert (rtc (dstep (phi_take_forks_condvar 10) (phi_put_forks_condvar 10) example_procs (monitor_queues 10 20))
    (Dinner mlaid (λ _, Thinking)) c) as Hr.
  { eapply rtc_l; [|eapply rtc_l; [|eapply rtc_once]].
    - apply (ds_take _ _ _ _ mlaid (λ _, Thinking) 0 (Ret tt) mserved); [done|split; [reflexivity|discriminate]|reflexivity|vm_compute; reflexivity].
    - apply (ds_other _ _ _ _ mserved _ msecond), switch_undisturbed.
    - apply (ds_take _ _ _ _ msecond _ 1 (Suspended k) t); [done|split; [reflexivity|discriminate]|reflexivity|exact Ek]. }
  destruct (philosophers_monitor_safe 10 20 example_procs example_sync (tsync mlaid) (λ _, THINKING) c) as [H _].
  - unfold example_procs. lia.
  - vm_compute. reflexivity.
  - exact Hr.
  - exists c, k. split; [reflexivity|]. split; [reflexivity|]. by apply H.
Defined.
