(* ===== verification/Proc.v ===== *)
(** * kern/process/proc.c: the process table

    The list of all processes, the hash table by pid, the pid allocator and the
    family links ([parent], [cptr], [yptr], [optr]), on top of the descriptors and
    the run queue of [Sched].  Process descriptors are named by integers; the
    result of [kmalloc] is an argument where one is created.  The resources of a
    process (address space, files, kernel stack) follow in [Kernel]. *)

From S2P Require Import Prelude ListH CString SkewHeap Sched.

(** ** Data *)

Definition MAX_PROCESS : Z := 4096.
Definition MAX_PID : Z := MAX_PROCESS * 2.
Definition PROC_NAME_LEN : Z := 15.
Definition HASH_SHIFT : Z := 10.
Definition HASH_LIST_SIZE : Z := Z.shiftl 1 HASH_SHIFT.
Definition pid_hashfn (x : Z) : Z := hash32 x HASH_SHIFT.

(** The entries of the hash lists: the bucket heads and the [hash_link]s. *)
Inductive hentry := HBucket (i : Z) | HProc (p : Z).

#[global] Instance hentry_eq_dec : EqDecision hentry.
Proof. solve_decision. Defined.

#[global] Instance HProc_inj : Inj (=) (=) HProc.
Proof. by intros ?? [= ->]. Qed.

Record ptab := Ptab {
  psc : sched;
  proc_link : lheap (entry Z);
  hash_link : lheap hentry;
  nr_process : Z;
  next_safe : Z;
  last_pid : Z;
  initproc : Z;
}.

Definition set_psc (v : sched) (s : ptab) : ptab :=
  Ptab v (proc_link s) (hash_link s) (nr_process s) (next_safe s) (last_pid s) (initproc s).
Definition set_proc_link (f : lheap (entry Z) → lheap (entry Z)) (s : ptab) : ptab :=
  Ptab (psc s) (f (proc_link s)) (hash_link s) (nr_process s) (next_safe s) (last_pid s) (initproc s).
Definition set_hash_link (f : lheap hentry → lheap hentry) (s : ptab) : ptab :=
  Ptab (psc s) (proc_link s) (f (hash_link s)) (nr_process s) (next_safe s) (last_pid s) (initproc s).
Definition set_nr_process (v : Z) (s : ptab) : ptab :=
  Ptab (psc s) (proc_link s) (hash_link s) v (next_safe s) (last_pid s) (initproc s).
Definition set_next_safe (v : Z) (s : ptab) : ptab :=
  Ptab (psc s) (proc_link s) (hash_link s) (nr_process s) v (last_pid s) (initproc s).
Definition set_last_pid (v : Z) (s : ptab) : ptab :=
  Ptab (psc s) (proc_link s) (hash_link s) (nr_process s) (next_safe s) v (initproc s).
Definition set_initproc (v : Z) (s : ptab) : ptab :=
  Ptab (psc s) (proc_link s) (hash_link s) (nr_process s) (next_safe s) (last_pid s) v.

Definition on_psc {A} (m : M sched A) : M ptab A := zoom psc set_psc m.
(** [proc->field] and [proc->field = v] *)
Definition pget {A} (f : proc_struct → A) (p : Z) : M ptab A := gets (λ s, f (procs (psc s) p)).
Definition pset (p : Z) (f : proc_struct → proc_struct) : M ptab unit := modify (λ s, set_psc (upd_proc p f (psc s)) s).
Definition get_cur : M ptab Z := gets (λ s, current (psc s)).

(** ** Creation *)

(** [memset(proc->name, 0, PROC_NAME_LEN)] *)
Definition clear_name (name : list Z) : list Z := replicate 15 0 ++ drop 15 name.

(** The result of [kmalloc] is [got]; [boot_cr3] is the kernel's page table.
    [exit_code] and the links of the lists are left as they are in memory. *)
Definition alloc_proc (boot_cr3 : Z) (got : option Z) : M ptab (option Z) :=
  match got with
  | None => mret None
  | Some proc =>
    pset proc (set_state PROC_UNINIT);;
    pset proc (set_pid (-1));;
    pset proc (set_runs 0);;
    pset proc (set_kstack 0);;
    pset proc (set_need_resched 0);;
    pset proc (set_parent None);;
    pset proc (set_mm None);;
    pset proc (set_cr3 boot_cr3);;
    pset proc (set_flags 0);;
    pset proc (λ p, set_name (clear_name (p_name p)) p);;
    pset proc (set_wait_state 0);;
    pset proc (set_yptr None);;
    pset proc (set_optr None);;
    pset proc (set_cptr None);;
    pset proc (set_on_rq false);;
    modify (λ s, set_psc (set_run_list (list_init (Elem proc)) (psc s)) s);;
    pset proc (set_time_slice 0);;
    modify (λ s, set_psc (set_run_heap (upd proc (SkewHeapEntry None None None) (run_heap (psc s))) (psc s)) s);;
    pset proc (set_stride 0);;
    pset proc (set_priority 0);;
    pset proc (set_filesp None);;
    mret (Some proc)
  end.

(** [memset(proc->name, 0, sizeof(proc->name)); memcpy(proc->name, name, 15)]:
    [name] are the bytes at the argument. *)
Definition set_proc_name (proc : Z) (name : Z → Z) : M ptab unit :=
  pset proc (set_name (map (λ i, name (Z.of_nat i)) (seq 0 15) ++ [0])).

Definition get_proc_name (proc : Z) : M ptab (list Z) :=
  name ← pget p_name proc; mret (take 15 name ++ [0]).

(** ** Family links *)

Definition set_links (proc : Z) : M ptab unit :=
  modify (set_proc_link (list_add Head (Elem proc)));;
  pset proc (set_yptr None);;
  parent ← pget p_parent proc;
  match parent with
  | None => panic
  | Some parent =>
    older ← pget p_cptr parent;
    pset proc (set_optr older);;
    (match older with Some o => pset o (set_yptr (Some proc)) | None => mret tt end);;
    pset parent (set_cptr (Some proc));;
    modify (λ s, set_nr_process (s32 (nr_process s + 1)) s)
  end.

Definition remove_links (proc : Z) : M ptab unit :=
  modify (set_proc_link (list_del (Elem proc)));;
  optr ← pget p_optr proc;
  yptr ← pget p_yptr proc;
  (match optr with Some o => pset o (set_yptr yptr) | None => mret tt end);;
  (match yptr with
   | Some y => pset y (set_optr optr)
   | None =>
     parent ← pget p_parent proc;
     match parent with Some q => pset q (set_cptr optr) | None => panic end
   end);;
  modify (λ s, set_nr_process (s32 (nr_process s - 1)) s).

(** ** pids *)

(** The process list has fewer than [nr_process] entries. *)
Definition list_fuel (s : ptab) : nat := S (Z.to_nat (nr_process s)).

(** One pass of the loop of [get_pid] over the process list; [false] means
    [goto repeat]. *)
Fixpoint pid_walk (fuel : nat) (le : entry Z) : M ptab bool :=
  match fuel with
  | O => out_of_fuel
  | S fuel' =>
    h ← gets proc_link;
    match list_next h le with
    | Head => mret true
    | Elem proc =>
      pid ← pget p_pid proc;
      last ← gets last_pid;
      safe ← gets next_safe;
      if pid =? last then
        modify (set_last_pid (last + 1));;
        if safe <=? last + 1 then
          when (MAX_PID <=? last + 1) (modify (set_last_pid 1));;
          modify (set_next_safe MAX_PID);;
          mret false
        else pid_walk fuel' (Elem proc)
      else
        when ((last <? pid) && (pid <? safe))%bool (modify (set_next_safe pid));;
        pid_walk fuel' (Elem proc)
    end
  end.

Fixpoint pid_repeat (rounds : nat) : M ptab unit :=
  match rounds with
  | O => out_of_fuel
  | S rounds' =>
    fuel ← gets list_fuel;
    ok ← pid_walk fuel Head;
    if ok : bool then mret tt else pid_repeat rounds'
  end.

(** Each pass that is repeated moves [last_pid] on, and it wraps around once. *)
Definition pid_rounds : nat := Z.to_nat (2 * MAX_PID).

Definition get_pid : M ptab Z :=
  modify (λ s, set_last_pid (last_pid s + 1) s);;
  last ← gets last_pid;
  safe ← gets next_safe;
  (if MAX_PID <=? last then
     modify (set_last_pid 1);;
     modify (set_next_safe MAX_PID);;
     pid_repeat pid_rounds
   else if safe <=? last then
     modify (set_next_safe MAX_PID);;
     pid_repeat pid_rounds
   else mret tt);;
  gets last_pid.

(** ** The hash table *)

Definition hash_proc (proc : Z) : M ptab unit :=
  pid ← pget p_pid proc;
  modify (set_hash_link (list_add (HBucket (pid_hashfn pid)) (HProc proc))).

Definition unhash_proc (proc : Z) : M ptab unit := modify (set_hash_link (list_del (HProc proc))).

Fixpoint find_walk (fuel : nat) (pid : Z) (le : hentry) : M ptab (option Z) :=
  match fuel with
  | O => out_of_fuel
  | S fuel' =>
    h ← gets hash_link;
    match list_next h le with
    | HBucket _ => mret None
    | HProc proc =>
      q ← pget p_pid proc;
      if q =? pid then mret (Some proc) else find_walk fuel' pid (HProc proc)
    end
  end.

Definition find_proc (pid : Z) : M ptab (option Z) :=
  if ((0 <? pid) && (pid <? MAX_PID))%bool then
    fuel ← gets list_fuel;
    find_walk fuel pid (HBucket (pid_hashfn pid))
  else mret None.

(** ** Parts of do_fork, do_exit and do_wait that change the table *)

(** [do_fork] with interrupts off: the child gets its pid and its links. *)
Definition fork_link (proc : Z) : M ptab unit :=
  pid ← get_pid;
  pset proc (set_pid pid);;
  hash_proc proc;;
  set_links proc.

(** The loop of [do_exit] over the children. *)
Fixpoint reparent (fuel : nat) : M ptab unit :=
  match fuel with
  | O => out_of_fuel
  | S fuel' =>
    cur ← get_cur;
    cptr ← pget p_cptr cur;
    match cptr with
    | None => mret tt
    | Some proc =>
      optr ← pget p_optr proc;
      pset cur (set_cptr optr);;
      pset proc (set_yptr None);;
      init ← gets initproc;
      icptr ← pget p_cptr init;
      pset proc (set_optr icptr);;
      (match icptr with Some c => pset c (set_yptr (Some proc)) | None => mret tt end);;
      pset proc (set_parent (Some init));;
      pset init (set_cptr (Some proc));;
      state ← pget p_state proc;
      when (bool_decide (state = PROC_ZOMBIE))
        (ws ← pget p_wait_state init;
         when (ws =? WT_CHILD) (on_psc (wakeup_proc init)));;
      reparent fuel'
    end
  end.

Definition exit_links (error_code : Z) : M ptab unit :=
  cur ← get_cur;
  pset cur (set_state PROC_ZOMBIE);;
  pset cur (set_exit_code error_code);;
  parent ← pget p_parent cur;
  match parent with
  | None => panic
  | Some proc =>
    ws ← pget p_wait_state proc;
    when (ws =? WT_CHILD) (on_psc (wakeup_proc proc));;
    fuel ← gets list_fuel;
    reparent fuel
  end.

(** [do_wait]: the child to reap if there is one, and whether there are children
    at all ([haskid]). *)
Fixpoint wait_scan (fuel : nat) (proc : option Z) (haskid : bool) : M ptab (option Z * bool) :=
  match fuel with
  | O => out_of_fuel
  | S fuel' =>
    match proc with
    | None => mret (None, haskid)
    | Some p =>
      state ← pget p_state p;
      if bool_decide (state = PROC_ZOMBIE) then mret (Some p, true)
      else optr ← pget p_optr p; wait_scan fuel' optr true
    end
  end.

Definition wait_find (pid : Z) : M ptab (option Z * bool) :=
  cur ← get_cur;
  if negb (pid =? 0) then
    proc ← find_proc pid;
    match proc with
    | Some p =>
      parent ← pget p_parent p;
      if bool_decide (parent = Some cur) then
        state ← pget p_state p;
        mret (if bool_decide (state = PROC_ZOMBIE) then Some p else None, true)
      else mret (None, false)
    | None => mret (None, false)
    end
  else
    cptr ← pget p_cptr cur;
    fuel ← gets list_fuel;
    wait_scan fuel cptr false.

(** The reaped process leaves the table. *)
Definition wait_unlink (proc : Z) : M ptab unit :=
  unhash_proc proc;;
  remove_links proc.

(** ** Other system calls *)

Definition do_yield : M ptab Z :=
  cur ← get_cur;
  pset cur (set_need_resched 1);;
  mret 0.

Definition do_kill (pid : Z) : M ptab Z :=
  proc ← find_proc pid;
  match proc with
  | Some p =>
    flags ← pget p_flags p;
    if negb (truth (Z.land flags PF_EXITING)) then
      pset p (set_flags (Z.lor flags PF_EXITING));;
      ws ← pget p_wait_state p;
      when (truth (Z.land ws WT_INTERRUPTED)) (on_psc (wakeup_proc p));;
      mret 0
    else mret (- E_KILLED)
  | None => mret (- E_INVAL)
  end.

Definition lab6_set_priority (priority : Z) : M ptab unit :=
  cur ← get_cur;
  pset cur (set_priority (if priority =? 0 then 1 else priority)).

(** The loop of [do_ps]: what is printed is the pid, the name and the state. *)
Fixpoint do_ps (fuel : nat) (le : entry Z) : M ptab (list (Z * list Z * proc_state)) :=
  match fuel with
  | O => out_of_fuel
  | S fuel' =>
    h ← gets proc_link;
    match list_next h le with
    | Head => mret []
    | Elem proc =>
      pid ← pget p_pid proc; name ← pget p_name proc; state ← pget p_state proc;
      rest ← do_ps fuel' (Elem proc);
      mret ((pid, name, state) :: rest)
    end
  end.
