(* ===== verification/HashList.v ===== *)
(** * Hash tables of linked lists

    An array of list heads whose entries are the objects with a given key: the pids of
    kern/process/proc.c and the inodes of kern/fs/sfs/sfs_inode.c are kept this way.
    The state and the walks are in the files of these components; here is what
    [list_add] and [list_del] do to all the lists of the table. *)

From S2P Require Import Prelude ListH Proc.

(** The objects of [l] whose key is [i]. *)
Definition bucket_of (key : Z → Z) (l : list Z) (i : Z) : list Z := filter (λ p, key p = i) l.

(** The heap [h] holds a table of [size] lists for the objects [l]. *)
Definition hash_table (size : Z) (key : Z → Z) (h : lheap hentry) (l : list Z) : Prop :=
  ∀ i, 0 ≤ i < size → dll h (HBucket i) (HProc <$> bucket_of key l i).

Lemma elem_of_bucket_of key l i p : p ∈ bucket_of key l i ↔ key p = i ∧ p ∈ l.
Proof. unfold bucket_of. by rewrite list_elem_of_filter. Qed.

Lemma bucket_of_ext key key' l i : (∀ p, p ∈ l → key' p = key p) → bucket_of key' l i = bucket_of key l i.
Proof.
  intros He. unfold bucket_of. induction l as [|p l IH]; [done|]. rewrite !filter_cons, He, IH; [done| |by left].
  intros q Hq. apply He. by right.
Qed.

(** The entries of two lists are disjoint. *)
Lemma bucket_of_entries key l i j z :
  z ∈ HBucket i :: (HProc <$> bucket_of key l i) → i ≠ j → z ∉ HBucket j :: (HProc <$> bucket_of key l j).
Proof.
  intros Hz Hij. rewrite elem_of_cons, list_elem_of_fmap in *. intros [->|(y & -> & Hy%elem_of_bucket_of)].
  - destruct Hz as [[= ->]|(? & ? & _)]; done.
  - destruct Hz as [?|(? & [= ->] & Hx%elem_of_bucket_of)]; [done|]. naive_solver.
Qed.

Lemma hash_table_add size key key' h l p :
  hash_table size key h l → p ∉ l → (∀ x, x ∈ l → key' x = key x) → 0 ≤ key' p < size →
  hash_table size key' (list_add (HBucket (key' p)) (HProc p) h) (p :: l).
Proof.
  intros Hh Hp Hs Hr i Hi. unfold bucket_of. rewrite filter_cons. fold (bucket_of key' l i). rewrite (bucket_of_ext key) by done.
  assert (∀ j, HProc p ∉ HBucket j :: (HProc <$> bucket_of key l j)) as Hout.
  { intros j [|(x & [= <-] & [_ ?]%elem_of_bucket_of)%list_elem_of_fmap]%elem_of_cons; done. }
  destruct (decide (key' p = i)) as [<-|Hne].
  - apply list_add_head; [by apply Hh|apply Hout].
  - eapply dll_frame; [|by apply Hh]. intros z Hz. eapply list_add_head_other; [by apply Hh|].
    intros [->|[->|Hz']%elem_of_cons]%elem_of_cons.
    + by apply (bucket_of_entries key l i (key' p) _ Hz); [|left].
    + by apply (Hout i).
    + by apply (bucket_of_entries key l i (key' p) _ Hz); [|right].
Qed.

Lemma hash_table_del size key h a p b :
  hash_table size key h (a ++ p :: b) → p ∉ a ++ b → 0 ≤ key p < size →
  hash_table size key (list_del (HProc p) h) (a ++ b).
Proof.
  intros Hh Hp Hr i Hi.
  assert (HProc <$> bucket_of key (a ++ p :: b) (key p) =
    (HProc <$> bucket_of key a (key p)) ++ HProc p :: (HProc <$> bucket_of key b (key p))) as Ej.
  { unfold bucket_of. by rewrite filter_app, filter_cons_True, fmap_app. }
  pose proof (Hh (key p) Hr) as Hj. destruct (decide (i = key p)) as [->|Hne].
  - rewrite Ej in Hj. apply list_del_dll in Hj. unfold bucket_of. by rewrite filter_app, fmap_app.
  - assert (bucket_of key (a ++ b) i = bucket_of key (a ++ p :: b) i) as ->.
    { unfold bucket_of. by rewrite !filter_app, filter_cons_False. }
    eapply dll_frame; [|by apply Hh]. intros z Hz.
    eapply list_del_other; [by rewrite Ej in Hj|]. rewrite <-Ej. by eapply bucket_of_entries.
Qed.
