(* ===== verification/ProcProofs.v ===== *)
(** * The process table: proofs

    [ptab_inv s ps kids]: the processes [ps] are on the process list, newest
    first, each is in the hash bucket of its pid, pids are distinct, and the
    family links make of every process [q] the parent of the list [kids q],
    youngest first.  The operations of [Proc] keep it, [get_pid] returns a pid no
    process has, and [find_proc] finds a process by its pid. *)

From S2P Require Import Prelude ListH SkewHeap Sched SchedProofs Timers Proc HashList.

(** ** pids *)

(** The pids of the processes [ps]. *)
Definition pids (s : ptab) (ps : list Z) : list Z := (λ p, p_pid (procs (psc s) p)) <$> ps.

(** What [get_pid] remembers between calls: no pid strictly between [last_pid]
    and [next_safe] is in use. *)
Record pid_inv (s : ptab) (used : list Z) : Prop := PidInv {
  pi_last : 1 ≤ last_pid s ≤ MAX_PID;
  pi_safe : next_safe s ≤ MAX_PID;
  pi_gap : ∀ v, v ∈ used → ¬ (last_pid s < v < next_safe s);
}.

Definition with_pids (last safe : Z) (s : ptab) : ptab := set_next_safe safe (set_last_pid last s).

Lemma with_pids_with l1 n1 l2 n2 s : with_pids l2 n2 (with_pids l1 n1 s) = with_pids l2 n2 s.
Proof. done. Qed.

Lemma with_pids_id s : with_pids (last_pid s) (next_safe s) s = s.
Proof. by destruct s. Qed.

Lemma set_next_safe_if (b : bool) v s :
  (if b then set_next_safe v s else s) = set_next_safe (if b then v else next_safe s) s.
Proof. destruct b; [done|by destruct s]. Qed.

(** One pass over the list.  [seen] are the pids the pass has met; the values it
    stepped over are in use. *)
Lemma pid_walk_spec s l1 l2 fuel L0 :
  dll (proc_link s) Head (Elem <$> l1 ++ l2) → (length l2 < fuel)%nat →
  1 ≤ L0 ≤ last_pid s → last_pid s < next_safe s ≤ MAX_PID →
  (∀ v, v ∈ pids s l1 → ¬ (last_pid s ≤ v < next_safe s)) →
  (∀ v, L0 ≤ v < last_pid s → v ∈ pids s (l1 ++ l2)) →
  ∃ ok L N, pid_walk fuel (default Head (last (Elem <$> l1))) s = Ok (ok, with_pids L N s) ∧
    if ok : bool then
      last_pid s ≤ L < N ∧ N ≤ MAX_PID ∧ (∀ v, v ∈ pids s (l1 ++ l2) → ¬ (L ≤ v < N)) ∧
      (∀ v, L0 ≤ v < L → v ∈ pids s (l1 ++ l2))
    else
      N = MAX_PID ∧ ∃ L', last_pid s < L' ≤ MAX_PID ∧ L = (if MAX_PID <=? L' then 1 else L') ∧
      (∀ v, L0 ≤ v < L' → v ∈ pids s (l1 ++ l2)).
Proof.
  revert s l1 fuel. induction l2 as [|p l2 IH]; intros s l1 fuel Hd Hf HL Hls Hseen Hstep;
    (destruct fuel as [|fuel]; [simpl in Hf; lia|]); simpl pid_walk; msteps.
  { rewrite app_nil_r in *. exists true, (last_pid s), (next_safe s).
    rewrite (list_next_cut _ _ (Elem <$> l1) []) by by rewrite app_nil_r. simpl. rewrite with_pids_id.
    split_and!; done || lia. }
  rewrite fmap_app in Hd. rewrite (list_next_cut _ _ _ _ Hd). simpl.
  unfold pget. msteps.
  assert (∀ s', psc s' = psc s → pids s' (l1 ++ p :: l2) = pids s (l1 ++ p :: l2)) as Hpids.
  { intros s' E. unfold pids. by rewrite E. }
  assert (pids s (l1 ++ p :: l2) = pids s ((l1 ++ [p]) ++ l2)) as Eapp by by rewrite <-app_assoc.
  assert (Elem p = default Head (last (Elem <$> l1 ++ [p]))) as Elast by by rewrite last_fmap_snoc.
  assert (dll (proc_link s) Head (Elem <$> (l1 ++ [p]) ++ l2)) as Hd'.
  { by rewrite <-app_assoc, fmap_app. }
  assert (p_pid (procs (psc s) p) ∈ pids s (l1 ++ p :: l2)) as Hin.
  { unfold pids. apply list_elem_of_fmap. exists p. set_solver. }
  destruct (Z.eqb_spec (p_pid (procs (psc s) p)) (last_pid s)) as [Ep|Ep].
  - destruct (Z.leb_spec (next_safe s) (last_pid s + 1)).
    + msteps. exists false, (if MAX_PID <=? last_pid s + 1 then 1 else last_pid s + 1), MAX_PID. split.
      { simpl. by destruct (_ <=? _). }
      split; [done|]. exists (last_pid s + 1). split_and!; [lia|lia|done|].
      intros v Hv. destruct (decide (v = last_pid s)) as [->|]; [by rewrite <-Ep|]. apply Hstep. lia.
    + msteps. rewrite Elast.
      destruct (IH (set_last_pid (last_pid s + 1) s) (l1 ++ [p]) fuel) as (ok & L & N & E & Hr);
        [done|simpl in Hf; lia|simpl; lia|simpl; lia| | |].
      * simpl. intros v. unfold pids. rewrite fmap_app. intros [Hv|Hv]%elem_of_app Hb.
        -- apply (Hseen v Hv). lia.
        -- apply list_elem_of_singleton in Hv as ->. simpl in Hb. lia.
      * simpl. intros v Hv. rewrite <-app_assoc. change (v ∈ pids s (l1 ++ p :: l2)).
        destruct (decide (v = last_pid s)) as [->|]; [by rewrite <-Ep|]. apply Hstep. lia.
      * exists ok, L, N. rewrite E. split; [done|]. rewrite <-app_assoc in Hr. simpl in Hr.
        rewrite (Hpids (set_last_pid (last_pid s + 1) s) eq_refl) in Hr.
        destruct ok; [destruct Hr as (? & ? & ? & ?); split_and!; try done; lia|].
        destruct Hr as (? & L' & ? & ? & ?). split; [done|]. exists L'. split_and!; try done; lia.
  - msteps. rewrite set_next_safe_if. set (N1 := if ((_ <? _) && _)%bool then _ else _).
    assert (last_pid s < N1 ≤ next_safe s ∧ ¬ (last_pid s ≤ p_pid (procs (psc s) p) < N1)) as [HN1 HpN].
    { unfold N1. destruct (_ && _)%bool eqn:Eb; b2p; [lia|]. split; [lia|]. intros Hb.
      apply andb_false_iff in Eb as [?|?]; b2p; lia. }
    rewrite Elast.
    destruct (IH (set_next_safe N1 s) (l1 ++ [p]) fuel) as (ok & L & N & E & Hr);
      [done|simpl in Hf; lia|simpl; lia|simpl; lia| | |].
    + simpl. intros v. unfold pids. rewrite fmap_app. intros [Hv|Hv]%elem_of_app Hb.
      * apply (Hseen v Hv). lia.
      * apply list_elem_of_singleton in Hv as ->. simpl in Hb. lia.
    + simpl. intros v Hv. rewrite <-app_assoc. change (v ∈ pids s (l1 ++ p :: l2)). by apply Hstep.
    + exists ok, L, N. rewrite E. split; [done|]. rewrite <-app_assoc in Hr. simpl in Hr.
      by rewrite (Hpids (set_next_safe N1 s) eq_refl) in Hr.
Qed.

(** The number of passes until a value is free: the distance from [L] to the free
    value [v], once around. *)
Definition pid_dist (v L : Z) : Z := if L <=? v then v - L else MAX_PID - L + v.

Lemma pid_repeat_spec s ps v rounds :
  dll (proc_link s) Head (Elem <$> ps) → Z.of_nat (length ps) ≤ nr_process s →
  1 ≤ v < MAX_PID → v ∉ pids s ps → 1 ≤ last_pid s < MAX_PID → next_safe s = MAX_PID →
  pid_dist v (last_pid s) < Z.of_nat rounds →
  ∃ L N, pid_repeat rounds s = Ok (tt, with_pids L N s) ∧
    1 ≤ L < N ∧ N ≤ MAX_PID ∧ (∀ w, w ∈ pids s ps → ¬ (L ≤ w < N)).
Proof.
  intros Hd Hn Hv Hfree. revert s Hd Hn Hfree.
  induction rounds as [|rounds IH]; intros s Hd Hn Hfree HL HN Hr.
  { exfalso. unfold pid_dist in Hr. destruct (Z.leb_spec (last_pid s) v); lia. }
  simpl. msteps.
  destruct (pid_walk_spec s [] ps (list_fuel s) (last_pid s)) as (ok & L & N & E & Hok);
    [done|unfold list_fuel; lia|lia|lia|set_solver|lia|].
  rewrite (bind_ok _ _ _ _ _ E). destruct ok.
  { exists L, N. split; [done|]. destruct Hok as (? & ? & ? & ?). split_and!; try done; lia. }
  destruct Hok as (-> & L' & HL' & -> & Hused).
  destruct (IH (with_pids (if MAX_PID <=? L' then 1 else L') MAX_PID s)) as (L & N & E' & Hr');
    [done|done|done| |done| |by exists L, N].
  - simpl. destruct (Z.leb_spec MAX_PID L'); lia.
  - assert (¬ (last_pid s ≤ v < L')) as Hnv by (intros Hb; apply Hfree, Hused, Hb).
    simpl. unfold pid_dist in *.
    destruct (Z.leb_spec MAX_PID L'), (Z.leb_spec (last_pid s) v); try lia;
      repeat match goal with |- context [?a <=? ?b] => destruct (Z.leb_spec a b) end; lia.
Qed.

(** A list of fewer than [MAX_PID - 1] values leaves a pid free. *)
Lemma free_pid_exists (used : list Z) :
  Z.of_nat (length used) < MAX_PID - 1 → ∃ v, 1 ≤ v < MAX_PID ∧ v ∉ used.
Proof.
  intros Hlen. set (all := Z.of_nat <$> seq 1 (Z.to_nat (MAX_PID - 1))).
  destruct (decide (Forall (λ v, v ∈ used) all)) as [Hall|Hex].
  - exfalso. assert (NoDup all) as Hnd by (apply NoDup_fmap; [apply _|apply NoDup_seq]).
    assert (length all ≤ length used)%nat as Hle.
    { apply submseteq_length, NoDup_submseteq; [done|]. by apply Forall_forall. }
    unfold all in Hle. rewrite length_fmap, length_seq in Hle. lia.
  - apply not_Forall_Exists in Hex; [|apply _].
    apply Exists_exists in Hex as (v & (n & -> & Hn)%list_elem_of_fmap & Hu). apply elem_of_seq in Hn.
    exists (Z.of_nat n). split; [|done]. unfold MAX_PID, MAX_PROCESS in *. lia.
Qed.

Lemma get_pid_spec s ps :
  dll (proc_link s) Head (Elem <$> ps) → Z.of_nat (length ps) ≤ nr_process s →
  pid_inv s (pids s ps) → Z.of_nat (length ps) < MAX_PID - 1 →
  ∃ L N, get_pid s = Ok (L, with_pids L N s) ∧ 1 ≤ L < N ∧ N ≤ MAX_PID ∧
    (∀ w, w ∈ pids s ps → ¬ (L ≤ w < N)).
Proof.
  intros Hd Hn [HL HN Hgap] Hlen.
  destruct (free_pid_exists (pids s ps)) as (v & Hv & Hfree).
  { unfold pids. by rewrite length_fmap. }
  assert (∀ L, 1 ≤ L < MAX_PID → ∃ L' N, pid_repeat pid_rounds (with_pids L MAX_PID s) = Ok (tt, with_pids L' N s) ∧
    1 ≤ L' < N ∧ N ≤ MAX_PID ∧ (∀ w, w ∈ pids s ps → ¬ (L' ≤ w < N))) as Hrep.
  { intros L HL'. destruct (pid_repeat_spec (with_pids L MAX_PID s) ps v pid_rounds) as (L' & N & E & Hr);
      [done..| |by exists L', N].
    unfold pid_rounds, pid_dist. simpl last_pid. rewrite Z2Nat.id by (unfold MAX_PID, MAX_PROCESS; lia).
    destruct (_ <=? _); lia. }
  unfold get_pid. msteps. simpl last_pid. simpl next_safe.
  destruct (Z.leb_spec MAX_PID (last_pid s + 1)); [|destruct (Z.leb_spec (next_safe s) (last_pid s + 1))].
  - msteps. destruct (Hrep 1) as (L' & N & E & Hr); [unfold MAX_PID, MAX_PROCESS; lia|].
    exists L', N. rewrite (bind_ok _ _ _ _ _ E). done.
  - msteps. destruct (Hrep (last_pid s + 1)) as (L' & N & E & Hr); [lia|].
    exists L', N. rewrite (bind_ok _ _ _ _ _ E). done.
  - msteps. exists (last_pid s + 1), (next_safe s). split; [by destruct s|]. split_and!; [lia..|].
    intros w Hw Hb. apply (Hgap w Hw). lia.
Qed.

(** ** Family links *)

Definition or_else {A} (a b : option A) : option A := match a with Some _ => a | None => b end.

(** [l] is a run of siblings, youngest first; [y] is the younger sibling of its
    first and [o] the older sibling of its last. *)
Fixpoint sib_run (f : Z → proc_struct) (y : option Z) (l : list Z) (o : option Z) : Prop :=
  match l with
  | [] => True
  | p :: r => p_yptr (f p) = y ∧ p_optr (f p) = or_else (head r) o ∧ sib_run f (Some p) r o
  end.

(** The processes [ps] and the idle process [root], each with its children.
    While [do_exit] hands over the children of [loose], the first of those that
    are left may still point at the sibling that is gone. *)
Record family (loose : option Z) (f : Z → proc_struct) (root : Z) (ps : list Z) (kids : Z → list Z) : Prop := Family {
  fam_cptr : ∀ q, q ∈ root :: ps → p_cptr (f q) = head (kids q);
  fam_sib : ∀ q, ∃ y, (loose ≠ Some q → y = None) ∧ sib_run f y (kids q) None;
  fam_nodup : ∀ q, NoDup (kids q);
  fam_kids : ∀ q p, p ∈ kids q ↔ p ∈ ps ∧ p_parent (f p) = Some q;
  fam_parent : ∀ p, p ∈ ps → ∃ q, q ∈ root :: ps ∧ p_parent (f p) = Some q;
}.

Lemma head_app_or {A} (l1 l2 : list A) : head (l1 ++ l2) = or_else (head l1) (head l2).
Proof. by destruct l1. Qed.

Lemma or_else_assoc {A} (a b c : option A) : or_else (or_else a b) c = or_else a (or_else b c).
Proof. by destruct a. Qed.

Lemma sib_run_frame f f' y l o :
  (∀ p, p ∈ l → p_yptr (f' p) = p_yptr (f p) ∧ p_optr (f' p) = p_optr (f p)) →
  sib_run f y l o → sib_run f' y l o.
Proof.
  revert y. induction l as [|p l IH]; simpl; [done|]. intros y Hf (H1 & H2 & H3).
  destruct (Hf p) as [-> ->]; [by left|]. split_and!; [done..|]. apply IH; [|done].
  intros q Hq. apply Hf. by right.
Qed.

Lemma sib_run_app f y l1 l2 o :
  sib_run f y (l1 ++ l2) o ↔
  sib_run f y l1 (or_else (head l2) o) ∧ sib_run f (or_else (last l1) y) l2 o.
Proof.
  revert y. induction l1 as [|p l1 IH]; intros y; simpl; [tauto|].
  rewrite IH, head_app_or, or_else_assoc.
  replace (or_else (last (p :: l1)) y) with (or_else (last l1) (Some p)); [tauto|].
  destruct l1 as [|q l1]; [done|]. rewrite last_cons_cons. by destruct (last (q :: l1)) eqn:E; [|apply last_None in E].
Qed.

(** The first of a run gets another younger sibling, the last another older one. *)
Lemma sib_run_first f f' y y' l o :
  NoDup l → sib_run f y l o →
  (∀ x, x ∈ l → p_yptr (f' x) = (if decide (head l = Some x) then y' else p_yptr (f x)) ∧
    p_optr (f' x) = p_optr (f x)) →
  sib_run f' y' l o.
Proof.
  destruct l as [|p l]; simpl; [done|]. intros [Hp _]%NoDup_cons (H1 & H2 & H3) Hf.
  destruct (Hf p) as [-> ->]; [by left|]. rewrite decide_True by done. split_and!; [done..|].
  eapply sib_run_frame; [|done]. intros x Hx. destruct (Hf x) as [-> ->]; [by right|].
  rewrite decide_False; [done|]. intros [= ->]. done.
Qed.

Lemma sib_run_last f f' y l o o' :
  NoDup l → sib_run f y l o →
  (∀ x, x ∈ l → p_yptr (f' x) = p_yptr (f x) ∧
    p_optr (f' x) = (if decide (last l = Some x) then o' else p_optr (f x))) →
  sib_run f' y l o'.
Proof.
  destruct l as [|p l _] using rev_ind; [done|]. rewrite last_snoc, !sib_run_app. simpl.
  intros (_ & Hp & _)%NoDup_app (H1 & H2 & H3 & _) Hf. split_and!; [|..|done].
  - eapply sib_run_frame; [|done]. intros x Hx. destruct (Hf x) as [-> ->]; [set_solver|].
    rewrite decide_False; [done|]. intros [= ->]. set_solver.
  - destruct (Hf p) as [-> _]; [set_solver|done].
  - destruct (Hf p) as [_ ->]; [set_solver|]. by rewrite decide_True.
Qed.

(** A member [p] leaves its run. *)
Lemma sib_run_remove f f' l1 p l2 :
  NoDup (l1 ++ p :: l2) → sib_run f None (l1 ++ p :: l2) None →
  (∀ x, x ∈ l1 ++ l2 →
    p_yptr (f' x) = (if decide (p_optr (f p) = Some x) then p_yptr (f p) else p_yptr (f x)) ∧
    p_optr (f' x) = (if decide (p_yptr (f p) = Some x) then p_optr (f p) else p_optr (f x))) →
  sib_run f' None (l1 ++ l2) None.
Proof.
  rewrite !sib_run_app. simpl. intros (Hn1 & Hd & [Hp Hn2]%NoDup_cons)%NoDup_app (H1 & Hy & Ho & H2) Hf.
  rewrite Hy, Ho in Hf. split.
  - eapply sib_run_last; [done..|]. intros x Hx. destruct (Hf x) as [-> ->]; [set_solver|]. split.
    + rewrite decide_False; [done|]. destruct l2 as [|z l2]; [done|]. simpl. intros [= ->]. set_solver.
    + destruct (last l1); simpl; by destruct (head l2).
  - eapply sib_run_first; [done..|]. intros x Hx. destruct (Hf x) as [-> ->]; [set_solver|]. split.
    + destruct (head l2); simpl; by destruct (last l1).
    + rewrite decide_False; [done|]. destruct (last l1) as [z|] eqn:E; [|done]. simpl. intros [= ->].
      apply last_Some_elem_of in E. set_solver.
Qed.

Section family.
Implicit Types (f : Z → proc_struct) (kids : Z → list Z).

(** Whoever is not a process of the table has no children. *)
Lemma family_no_kids loose f root ps kids p :
  family loose f root ps kids → p ∉ root :: ps → kids p = [].
Proof.
  intros Hf Hp. destruct (kids p) as [|x l] eqn:E; [done|]. exfalso. apply Hp.
  assert (x ∈ kids p) as [Hx Hpar]%(fam_kids _ _ _ _ _ Hf) by (rewrite E; by left).
  destruct (fam_parent _ _ _ _ _ Hf x Hx) as (q & Hq & E'). rewrite Hpar in E'. by injection E' as ->.
Qed.

Lemma family_strict f root ps kids q : family None f root ps kids → sib_run f None (kids q) None.
Proof. intros Hf. destruct (fam_sib _ _ _ _ _ Hf q) as (y & Hy & Hs). assert (y = None) as -> by by apply Hy. done. Qed.

(** A new process [p] becomes the youngest child of [q]. *)
Lemma family_add f f' root ps kids p q :
  family None f root ps kids → p ∉ root :: ps → q ∈ root :: ps →
  (∀ x, p_parent (f' x) = if decide (x = p) then Some q else p_parent (f x)) →
  (∀ x, p_cptr (f' x) = if decide (x = q) then Some p else if decide (x = p) then None else p_cptr (f x)) →
  (∀ x, p_yptr (f' x) = if decide (x = p) then None else if decide (head (kids q) = Some x) then Some p else p_yptr (f x)) →
  (∀ x, p_optr (f' x) = if decide (x = p) then head (kids q) else p_optr (f x)) →
  family None f' root (p :: ps) (upd q (p :: kids q) kids).
Proof.
  intros Hf Hp Hq Hpar Hc Hy Ho.
  assert (∀ r x, x ∈ kids r → x ≠ p ∧ p_parent (f x) = Some r) as Hk.
  { intros r x [Hx ?]%(fam_kids _ _ _ _ _ Hf). split; [|done]. intros ->. set_solver. }
  assert (p ∉ kids q) as Hpk by (intros [? _]%Hk; done).
  assert (p ≠ q) as Hpq by (intros ->; done).
  split.
  - intros r Hr. rewrite Hc. destruct (decide (r = q)) as [->|]; [by rewrite upd_eq|]. rewrite upd_ne by done.
    destruct (decide (r = p)) as [->|]; [by rewrite (family_no_kids _ _ _ _ _ _ Hf Hp)|].
    apply (fam_cptr _ _ _ _ _ Hf). set_solver.
  - intros r. exists None. split; [done|]. destruct (decide (q = r)) as [<-|Hr].
    + rewrite upd_eq. simpl. rewrite Hy, Ho, !decide_True by done. split_and!; [done|by destruct (head _)|].
      eapply sib_run_first; [apply (fam_nodup _ _ _ _ _ Hf)|by eapply family_strict|].
      intros x Hx. destruct (Hk _ _ Hx). by rewrite Hy, Ho, !(decide_False (P := x = p)).
    + rewrite upd_ne by done. eapply sib_run_frame; [|by eapply family_strict]. intros x Hx.
      destruct (Hk _ _ Hx) as [? E]. rewrite Hy, Ho, !(decide_False (P := x = p)) by done.
      rewrite decide_False; [done|]. intros Hh. destruct (Hk q x) as [_ E'].
      { destruct (kids q); simplify_eq/=. by left. }
      rewrite E in E'. by simplify_eq.
  - intros r. destruct (decide (q = r)) as [<-|]; [rewrite upd_eq|rewrite upd_ne by done]; [|apply (fam_nodup _ _ _ _ _ Hf)].
    constructor; [done|]. apply (fam_nodup _ _ _ _ _ Hf).
  - intros r x. rewrite Hpar. destruct (decide (x = p)) as [->|Hx].
    + destruct (decide (q = r)) as [<-|]; [rewrite upd_eq; set_solver|]. rewrite upd_ne by done.
      split; [by intros [? _]%Hk|]. intros [_ [= ->]]. done.
    + assert (x ∈ upd q (p :: kids q) kids r ↔ x ∈ kids r) as ->.
      { unfold upd. destruct (decide (q = r)) as [<-|]; set_solver. }
      rewrite (fam_kids _ _ _ _ _ Hf). set_solver.
  - intros x Hx. rewrite Hpar. destruct (decide (x = p)) as [->|]; [exists q; set_solver|].
    destruct (fam_parent _ _ _ _ _ Hf x) as (r & Hr & ?); [set_solver|]. exists r. set_solver.
Qed.

(** A process [p] without children leaves. *)
Lemma family_remove f f' root a p b kids q l1 l2 :
  family None f root (a ++ p :: b) kids → NoDup (root :: a ++ p :: b) →
  p_parent (f p) = Some q → kids p = [] → kids q = l1 ++ p :: l2 →
  (∀ x, p_parent (f' x) = p_parent (f x)) →
  (∀ x, p_cptr (f' x) = if decide (x = q ∧ p_yptr (f p) = None) then p_optr (f p) else p_cptr (f x)) →
  (∀ x, p_yptr (f' x) = if decide (p_optr (f p) = Some x) then p_yptr (f p) else p_yptr (f x)) →
  (∀ x, p_optr (f' x) = if decide (p_yptr (f p) = Some x) then p_optr (f p) else p_optr (f x)) →
  family None f' root (a ++ b) (upd q (l1 ++ l2) kids).
Proof.
  intros Hf Hnd Hq Hkp Hkq Hpar Hc Hy Ho.
  assert (p ∉ root :: a ++ b) as Hpout.
  { rewrite app_comm_cons in Hnd. rewrite <-Permutation_middle in Hnd. apply NoDup_cons in Hnd as [? _].
    set_solver. }
  pose proof (fam_nodup _ _ _ _ _ Hf q) as Hnk. rewrite Hkq in Hnk.
  assert (p ∉ l1 ++ l2) as Hpl by (rewrite <-Permutation_middle in Hnk; by apply NoDup_cons in Hnk as [? _]).
  pose proof (family_strict _ _ _ _ q Hf) as Hrun. rewrite Hkq in Hrun.
  pose proof Hrun as Hrun'. apply sib_run_app in Hrun' as [_ (Hyp & Hop & _)].
  assert (∀ x, p_optr (f p) = Some x ∨ p_yptr (f p) = Some x → p_parent (f x) = Some q) as Hnb.
  { intros x Hx. apply (fam_kids _ _ _ _ _ Hf q x). rewrite Hkq, Hyp, Hop in *. destruct Hx as [Hx|Hx].
    - destruct l2; simplify_eq/=. set_solver.
    - destruct (last l1) eqn:E; simplify_eq/=. apply last_Some_elem_of in E. set_solver. }
  split.
  - intros r Hr. rewrite Hc. destruct (decide (q = r)) as [<-|Hne].
    + rewrite upd_eq. destruct l1 as [|z l1]; simpl in Hyp.
      * rewrite decide_True by done. rewrite Hop. by destruct l2.
      * rewrite decide_False by (intros [_ E]; rewrite Hyp in E; destruct (last (z :: l1)) eqn:E'; [done|by apply last_None in E']).
        rewrite (fam_cptr _ _ _ _ _ Hf), Hkq by set_solver. done.
    + rewrite upd_ne, decide_False by (done || by intros [-> _]). apply (fam_cptr _ _ _ _ _ Hf). set_solver.
  - intros r. exists None. split; [done|]. destruct (decide (q = r)) as [<-|Hne].
    + rewrite upd_eq. eapply sib_run_remove; [exact Hnk|done|]. intros x Hx. by rewrite Hy, Ho.
    + rewrite upd_ne by done. eapply sib_run_frame; [|by eapply family_strict].
      intros x [_ Hx]%(fam_kids _ _ _ _ _ Hf). rewrite Hy, Ho, !decide_False; [done|..]; intros E.
      * rewrite (Hnb x) in Hx by auto. by simplify_eq.
      * rewrite (Hnb x) in Hx by auto. by simplify_eq.
  - intros r. unfold upd. destruct (decide (q = r)); [|apply (fam_nodup _ _ _ _ _ Hf)].
    rewrite <-Permutation_middle in Hnk. by apply NoDup_cons in Hnk as [_ ?].
  - intros r x. rewrite Hpar. destruct (decide (x = p)) as [->|Hx].
    + split; [|set_solver]. unfold upd. destruct (decide (q = r)) as [<-|Hr]; [done|].
      intros [_ E]%(fam_kids _ _ _ _ _ Hf). rewrite Hq in E. by simplify_eq.
    + assert (x ∈ upd q (l1 ++ l2) kids r ↔ x ∈ kids r) as ->.
      { unfold upd. destruct (decide (q = r)) as [<-|]; [rewrite Hkq; set_solver|done]. }
      rewrite (fam_kids _ _ _ _ _ Hf). set_solver.
  - intros x Hx. rewrite Hpar. destruct (fam_parent _ _ _ _ _ Hf x) as (r & Hr & E); [set_solver|].
    exists r. split; [|done]. destruct (decide (r = p)) as [->|]; [|set_solver].
    assert (x ∈ kids p) as Hk by (apply (fam_kids _ _ _ _ _ Hf); set_solver). rewrite Hkp in Hk. set_solver.
Qed.

(** The first child [p] of [cur] becomes the youngest child of [init]. *)
Lemma family_move f f' root ps kids cur init p r :
  family (Some cur) f root ps kids → cur ≠ init → cur ∈ root :: ps → init ∈ root :: ps →
  kids cur = p :: r →
  (∀ x, p_parent (f' x) = if decide (x = p) then Some init else p_parent (f x)) →
  (∀ x, p_cptr (f' x) = if decide (x = init) then Some p else if decide (x = cur) then p_optr (f p) else p_cptr (f x)) →
  (∀ x, p_yptr (f' x) = if decide (head (kids init) = Some x) then Some p else if decide (x = p) then None else p_yptr (f x)) →
  (∀ x, p_optr (f' x) = if decide (x = p) then head (kids init) else p_optr (f x)) →
  family (Some cur) f' root ps (upd init (p :: kids init) (upd cur r kids)).
Proof.
  intros Hf Hne Hcur Hinit Hk Hpar Hc Hy Ho.
  assert (p ∈ ps ∧ p_parent (f p) = Some cur) as [Hp Hpp].
  { apply (fam_kids _ _ _ _ _ Hf). rewrite Hk. by left. }
  pose proof (fam_nodup _ _ _ _ _ Hf cur) as Hnc. rewrite Hk in Hnc. apply NoDup_cons in Hnc as [Hpr Hnr].
  assert (p ∉ kids init) as Hpi.
  { intros [_ E]%(fam_kids _ _ _ _ _ Hf). rewrite Hpp in E. by simplify_eq. }
  destruct (fam_sib _ _ _ _ _ Hf cur) as (y & _ & Hs). rewrite Hk in Hs. destruct Hs as (Hyp & Hop & Hsr).
  assert (∀ q x, x ∈ kids q → q ≠ cur → q ≠ init → x ≠ p ∧ head (kids init) ≠ Some x) as Hother.
  { intros q x Hx Hqc Hqi. apply (fam_kids _ _ _ _ _ Hf) in Hx as [_ Hx]. split.
    - intros ->. rewrite Hpp in Hx. by simplify_eq.
    - intros E. assert (x ∈ kids init) as [_ E']%(fam_kids _ _ _ _ _ Hf) by (destruct (kids init); simplify_eq/=; by left).
      rewrite Hx in E'. by simplify_eq. }
  assert (∀ x, x ∈ r → x ≠ p ∧ head (kids init) ≠ Some x) as Hrother.
  { intros x Hx. split; [by intros ->|]. intros E.
    assert (x ∈ kids init) as [_ E']%(fam_kids _ _ _ _ _ Hf) by (destruct (kids init); simplify_eq/=; by left).
    assert (x ∈ kids cur) as [_ E'']%(fam_kids _ _ _ _ _ Hf) by (rewrite Hk; by right).
    rewrite E' in E''. by simplify_eq. }
  split.
  - intros q Hq. rewrite Hc. unfold upd. repeat case_decide; subst; try done.
    + rewrite Hop. by destruct r.
    + by apply (fam_cptr _ _ _ _ _ Hf).
  - intros q. destruct (decide (init = q)) as [<-|Hqi]; [|destruct (decide (cur = q)) as [<-|Hqc]].
    + rewrite upd_eq. exists None. split; [done|]. simpl. rewrite Hy, Ho, !(decide_True (P := p = p)) by done.
      rewrite decide_False by (intros E; apply Hpi; destruct (kids init); simplify_eq/=; by left).
      split_and!; [done|by destruct (head _)|].
      destruct (fam_sib _ _ _ _ _ Hf init) as (y' & Hy' & Hsi).
      eapply sib_run_first; [apply (fam_nodup _ _ _ _ _ Hf)|done|].
      intros x Hx. rewrite Hy, Ho, !(decide_False (P := x = p)) by (intros ->; done). done.
    + rewrite upd_ne, upd_eq by done. exists (Some p). split; [done|].
      eapply sib_run_frame; [|done]. intros x Hx. destruct (Hrother x Hx). by rewrite Hy, Ho, !decide_False.
    + rewrite !upd_ne by done. destruct (fam_sib _ _ _ _ _ Hf q) as (y' & Hy' & Hsq). exists y'. split; [done|].
      eapply sib_run_frame; [|done]. intros x Hx. destruct (Hother q x Hx); [done..|]. by rewrite Hy, Ho, !decide_False.
  - intros q. unfold upd. repeat case_decide; [constructor; [done|]|done|]; apply (fam_nodup _ _ _ _ _ Hf).
  - intros q x. rewrite Hpar. destruct (decide (x = p)) as [->|Hx].
    + unfold upd. repeat case_decide; subst.
      * set_solver.
      * split; [done|]. intros [_ [= ->]]. done.
      * rewrite (fam_kids _ _ _ _ _ Hf), Hpp. naive_solver.
    + rewrite <-(fam_kids _ _ _ _ _ Hf). unfold upd. repeat case_decide; subst; rewrite ?Hk; set_solver.
  - intros x Hx. rewrite Hpar. destruct (decide (x = p)) as [->|]; [by exists init|].
    by apply (fam_parent _ _ _ _ _ Hf).
Qed.
End family.

(** ** The table *)

Definition pid_of (s : ptab) (p : Z) : Z := p_pid (procs (psc s) p).

(** The hash bucket [i]. *)
Definition bucket (s : ptab) (ps : list Z) (i : Z) : list Z := bucket_of (λ p, pid_hashfn (pid_of s p)) ps i.

Record ptab_inv (loose : option Z) (s : ptab) (ps : list Z) (kids : Z → list Z) : Prop := PtabInv {
  pt_list : dll (proc_link s) Head (Elem <$> ps);
  pt_hash : ∀ i, 0 ≤ i < HASH_LIST_SIZE → dll (hash_link s) (HBucket i) (HProc <$> bucket s ps i);
  pt_nr : nr_process s = Z.of_nat (length ps) + 1;
  pt_room : nr_process s ≤ MAX_PROCESS;
  pt_pid : pid_inv s (pids s ps);
  pt_distinct : NoDup (pids s ps);
  pt_range : ∀ p, p ∈ ps → 1 ≤ pid_of s p < MAX_PID;
  pt_idle : idleproc (psc s) ∉ ps;
  pt_family : family loose (procs (psc s)) (idleproc (psc s)) ps kids;
}.

Lemma ptab_nodup loose s ps kids : ptab_inv loose s ps kids → NoDup (idleproc (psc s) :: ps).
Proof.
  intros Hi. constructor; [apply (pt_idle _ _ _ _ Hi)|].
  destruct (pt_list _ _ _ _ Hi) as [[_ Hn]%NoDup_cons _]. by apply NoDup_fmap_1 in Hn.
Qed.

(** The table only depends on these fields of a process. *)
Definition table_fields (p : proc_struct) : Z * option Z * option Z * option Z * option Z :=
  (p_pid p, p_parent p, p_cptr p, p_yptr p, p_optr p).

(** What the scheduler does to the descriptors leaves the table alone. *)
Definition same_table (s s' : sched) : Prop :=
  (∀ p, table_fields (procs s' p) = table_fields (procs s p)) ∧
  idleproc s' = idleproc s ∧ current s' = current s.

#[global] Instance same_table_preorder : PreOrder same_table.
Proof.
  split; [done|]. intros s1 s2 s3 (H1 & H2 & H3) (H4 & H5 & H6). split_and!; [|congruence..].
  intros p. by rewrite H4.
Qed.

Lemma same_table_upd p f s : (∀ x, table_fields (f x) = table_fields x) → same_table s (upd_proc p f s).
Proof.
  intros Hf. split_and!; [|done..]. intros q. simpl. unfold upd. destruct (decide (p = q)) as [<-|]; [apply Hf|done].
Qed.

Lemma wakeup_same_table p : keeps same_table (wakeup_proc p).
Proof.
  unfold wakeup_proc, sched_class_enqueue, stride_enqueue, field, store. simpl.
  unfold stride_enqueue, field, store. keeps_auto; try (by apply same_table_upd); done.
Qed.

Lemma family_ext loose f f' root ps kids :
  (∀ p, table_fields (f' p) = table_fields (f p)) → family loose f root ps kids → family loose f' root ps kids.
Proof.
  intros He Hf. assert (∀ p, p_parent (f' p) = p_parent (f p) ∧ p_cptr (f' p) = p_cptr (f p) ∧
    p_yptr (f' p) = p_yptr (f p) ∧ p_optr (f' p) = p_optr (f p)) as E.
  { intros p. specialize (He p). unfold table_fields in He. by simplify_eq. }
  split.
  - intros q Hq. destruct (E q) as (_ & -> & _). by apply (fam_cptr _ _ _ _ _ Hf).
  - intros q. destruct (fam_sib _ _ _ _ _ Hf q) as (y & Hy & Hs). exists y. split; [done|].
    eapply sib_run_frame; [|done]. intros p _. by destruct (E p) as (_ & _ & -> & ->).
  - apply (fam_nodup _ _ _ _ _ Hf).
  - intros q p. destruct (E p) as (-> & _). apply (fam_kids _ _ _ _ _ Hf).
  - intros p Hp. destruct (E p) as (-> & _). by apply (fam_parent _ _ _ _ _ Hf).
Qed.

Lemma pids_ext s s' ps : (∀ p, p ∈ ps → pid_of s' p = pid_of s p) → pids s' ps = pids s ps.
Proof. intros He. apply list_fmap_ext. intros i p Hp. apply He. by eapply list_elem_of_lookup_2. Qed.

Lemma bucket_ext s s' ps i : (∀ p, p ∈ ps → pid_of s' p = pid_of s p) → bucket s' ps i = bucket s ps i.
Proof. intros He. apply bucket_of_ext. intros p Hp. by rewrite He. Qed.

(** Changes of the descriptors that the table does not see. *)
Lemma ptab_inv_sched loose s sc ps kids :
  same_table (psc s) sc → ptab_inv loose s ps kids → ptab_inv loose (set_psc sc s) ps kids.
Proof.
  intros (Hf & Hid & _) [Hl Hh Hnr Hr Hp Hd Hrg Hi Hfam].
  assert (∀ p, pid_of (set_psc sc s) p = pid_of s p) as E.
  { intros p. specialize (Hf p). unfold pid_of, table_fields in *. simpl. by simplify_eq. }
  assert (pids (set_psc sc s) ps = pids s ps) as Ep by by apply pids_ext.
  split; simpl; rewrite ?Hid; try done.
  - intros i Hr'. rewrite (bucket_ext s) by done. by apply Hh.
  - destruct Hp. rewrite Ep. by split.
  - by rewrite Ep.
  - intros p Hin. rewrite E. by apply Hrg.
  - by eapply family_ext.
Qed.

(** Only the family links of the descriptors change. *)
Definition links_only (s s' : sched) : Prop :=
  (∃ f, s' = Sched f (run_list s) (proc_num s) (max_time_slice s) (run_pool s)
    (run_heap s) (current s) (idleproc s) (t_expires s) (t_proc s) (timer_link s)) ∧
  ∀ x, ∃ a b c d, procs s' x = set_parent a (set_cptr b (set_yptr c (set_optr d (procs s x)))).

#[global] Instance links_only_preorder : PreOrder links_only.
Proof.
  split.
  - intros s. split; [by exists (procs s); destruct s|]. intros x.
    exists (p_parent (procs s x)), (p_cptr (procs s x)), (p_yptr (procs s x)), (p_optr (procs s x)).
    by destruct (procs s x).
  - intros s1 s2 s3 [[f ->] H1] [[g ->] H2]. split; [by exists g|]. intros x. simpl in *.
    destruct (H2 x) as (a & b & c & d & ->), (H1 x) as (a' & b' & c' & d' & ->). by exists a, b, c, d.
Qed.

Lemma links_only_upd p f s :
  (∀ x, ∃ a b c d, f x = set_parent a (set_cptr b (set_yptr c (set_optr d x)))) → links_only s (upd_proc p f s).
Proof.
  intros Hf. split; [by eexists|]. intros x. simpl. unfold upd. case_decide; subst; [apply Hf|].
  exists (p_parent (procs s x)), (p_cptr (procs s x)), (p_yptr (procs s x)), (p_optr (procs s x)).
  by destruct (procs s x).
Qed.

Lemma links_yptr p v s : links_only s (upd_proc p (set_yptr v) s).
Proof. apply links_only_upd. intros x. exists (p_parent x), (p_cptr x), v, (p_optr x). by destruct x. Qed.
Lemma links_optr p v s : links_only s (upd_proc p (set_optr v) s).
Proof. apply links_only_upd. intros x. exists (p_parent x), (p_cptr x), (p_yptr x), v. by destruct x. Qed.
Lemma links_cptr p v s : links_only s (upd_proc p (set_cptr v) s).
Proof. apply links_only_upd. intros x. exists (p_parent x), v, (p_yptr x), (p_optr x). by destruct x. Qed.
Lemma links_parent p v s : links_only s (upd_proc p (set_parent v) s).
Proof. apply links_only_upd. intros x. exists v, (p_cptr x), (p_yptr x), (p_optr x). by destruct x. Qed.

(** [links_only] for a sequence of stores. *)
Ltac links_steps :=
  repeat first
    [ reflexivity
    | etrans; [|apply links_yptr] | etrans; [|apply links_optr]
    | etrans; [|apply links_cptr] | etrans; [|apply links_parent] ].

(** Fields after a sequence of stores. *)
Ltac fields := intros; simpl; unfold upd; repeat case_decide; simplify_eq/=; try done.

Lemma set_links_run s p q :
  p_parent (procs (psc s) p) = Some q → p ≠ q →
  ∃ sc, set_links p s = Ok (tt, Ptab sc (list_add Head (Elem p) (proc_link s)) (hash_link s)
      (s32 (nr_process s + 1)) (next_safe s) (last_pid s) (initproc s)) ∧
    links_only (psc s) sc ∧
    (∀ x, p_parent (procs sc x) = p_parent (procs (psc s) x)) ∧
    (∀ x, p_cptr (procs sc x) = if decide (x = q) then Some p else p_cptr (procs (psc s) x)) ∧
    (∀ x, p_yptr (procs sc x) = if decide (p_cptr (procs (psc s) q) = Some x) then Some p
      else if decide (x = p) then None else p_yptr (procs (psc s) x)) ∧
    (∀ x, p_optr (procs sc x) = if decide (x = p) then p_cptr (procs (psc s) q) else p_optr (procs (psc s) x)).
Proof.
  intros Hq Hne. unfold set_links, pset, pget. msteps. simpl. rewrite upd_eq. simpl. rewrite Hq. msteps. simpl.
  rewrite upd_ne by done. destruct (p_cptr (procs (psc s) q)) as [o|] eqn:Ho; msteps.
  - eexists. split; [reflexivity|]. split; [links_steps|]. split_and!; fields.
  - eexists. split; [reflexivity|]. split; [links_steps|]. split_and!; fields.
Qed.

Lemma remove_links_run s p q :
  p_parent (procs (psc s) p) = Some q → p_optr (procs (psc s) p) ≠ Some p → p_yptr (procs (psc s) p) ≠ Some p →
  ∃ sc, remove_links p s = Ok (tt, Ptab sc (list_del (Elem p) (proc_link s)) (hash_link s)
      (s32 (nr_process s - 1)) (next_safe s) (last_pid s) (initproc s)) ∧
    links_only (psc s) sc ∧
    (∀ x, p_parent (procs sc x) = p_parent (procs (psc s) x)) ∧
    (∀ x, p_cptr (procs sc x) = if decide (x = q ∧ p_yptr (procs (psc s) p) = None)
      then p_optr (procs (psc s) p) else p_cptr (procs (psc s) x)) ∧
    (∀ x, p_yptr (procs sc x) = if decide (p_optr (procs (psc s) p) = Some x)
      then p_yptr (procs (psc s) p) else p_yptr (procs (psc s) x)) ∧
    (∀ x, p_optr (procs sc x) = if decide (p_yptr (procs (psc s) p) = Some x)
      then p_optr (procs (psc s) p) else p_optr (procs (psc s) x)).
Proof.
  intros Hq Hop Hyp. unfold remove_links, pset, pget. msteps. simpl.
  destruct (p_optr (procs (psc s) p)) as [o|] eqn:Ho; msteps;
    (destruct (p_yptr (procs (psc s) p)) as [y|] eqn:Hy; msteps); simpl.
  - eexists. split; [reflexivity|]. split; [links_steps|]. split_and!; fields; naive_solver.
  - rewrite upd_ne by congruence. rewrite Hq. eexists. split; [reflexivity|]. split; [links_steps|].
    split_and!; fields; naive_solver.
  - eexists. split; [reflexivity|]. split; [links_steps|]. split_and!; fields; naive_solver.
  - rewrite Hq. eexists. split; [reflexivity|]. split; [links_steps|]. split_and!; fields; naive_solver.
Qed.

Lemma links_only_fields s s' x :
  links_only s s' → p_pid (procs s' x) = p_pid (procs s x) ∧ same_sched_fields (procs s' x) (procs s x).
Proof. intros [_ H]. destruct (H x) as (a & b & c & d & ->). done. Qed.

(** *** The hash table *)

Definition hash_ok (h : lheap hentry) (s : ptab) (ps : list Z) : Prop :=
  ∀ i, 0 ≤ i < HASH_LIST_SIZE → dll h (HBucket i) (HProc <$> bucket s ps i).

Lemma pid_hashfn_range x : 0 ≤ pid_hashfn x < HASH_LIST_SIZE.
Proof. apply (CString.hash32_range x HASH_SHIFT). done. Qed.

Lemma hash_add h s s' ps p :
  hash_ok h s ps → p ∉ ps → (∀ x, x ∈ ps → pid_of s' x = pid_of s x) →
  hash_ok (list_add (HBucket (pid_hashfn (pid_of s' p))) (HProc p) h) s' (p :: ps).
Proof.
  intros Hh Hp Hs. apply (hash_table_add HASH_LIST_SIZE (λ x, pid_hashfn (pid_of s x)) (λ x, pid_hashfn (pid_of s' x))); [done|done| |].
  - intros x Hx. by rewrite Hs.
  - apply pid_hashfn_range.
Qed.

Lemma hash_del h s a p b :
  hash_ok h s (a ++ p :: b) → p ∉ a ++ b → hash_ok (list_del (HProc p) h) s (a ++ b).
Proof. intros Hh Hp. apply (hash_table_del HASH_LIST_SIZE _ h a p b); [exact Hh|done|apply pid_hashfn_range]. Qed.

(** *** Looking up a pid *)

Definition lookup_pid (s : ptab) (ps : list Z) (pid : Z) : option Z := head (filter (λ p, pid_of s p = pid) ps).

Lemma lookup_pid_ext s s' ps pid :
  (∀ p, p ∈ ps → pid_of s' p = pid_of s p) → lookup_pid s' ps pid = lookup_pid s ps pid.
Proof.
  intros He. unfold lookup_pid. f_equal. induction ps as [|p ps IH]; [done|].
  rewrite !filter_cons, He, IH; [done| |by left]. intros q Hq. apply He. by right.
Qed.

Lemma hash_walk_spec s i l1 l2 pid fuel :
  dll (hash_link s) (HBucket i) (HProc <$> l1 ++ l2) → (length l2 < fuel)%nat →
  find_walk fuel pid (default (HBucket i) (last (HProc <$> l1))) s = Ok (lookup_pid s l2 pid, s).
Proof.
  revert l1 fuel. induction l2 as [|p l2 IH]; intros l1 fuel Hd Hf;
    (destruct fuel as [|fuel]; [simpl in Hf; lia|]); simpl find_walk; msteps; rewrite fmap_app in Hd.
  - by rewrite (list_next_cut _ _ _ _ Hd).
  - rewrite (list_next_cut _ _ _ _ Hd). simpl. unfold pget. msteps. unfold lookup_pid.
    rewrite filter_cons. fold (pid_of s p). destruct (Z.eqb_spec (pid_of s p) pid) as [E|E].
    + by rewrite decide_True.
    + rewrite decide_False by done. replace (HProc p) with (default (HBucket i) (last (HProc <$> l1 ++ [p])))
        by by rewrite last_fmap_snoc.
      apply IH; [|simpl in Hf; lia]. by rewrite <-app_assoc, fmap_app.
Qed.

Lemma find_proc_spec loose s ps kids pid :
  ptab_inv loose s ps kids → find_proc pid s = Ok (lookup_pid s ps pid, s).
Proof.
  intros Hi. unfold find_proc. destruct (_ && _)%bool eqn:E.
  - msteps. pose proof (hash_walk_spec s (pid_hashfn pid) [] (bucket s ps (pid_hashfn pid)) pid (list_fuel s)) as Hw.
    change (default _ _) with (HBucket (pid_hashfn pid)) in Hw. rewrite Hw.
    + unfold lookup_pid, bucket, bucket_of. rewrite list_filter_filter_l; [done|]. by intros x ->.
    + apply (pt_hash _ _ _ _ Hi), pid_hashfn_range.
    + unfold list_fuel. rewrite (pt_nr _ _ _ _ Hi). unfold bucket, bucket_of.
      pose proof (length_filter (λ p, pid_hashfn (pid_of s p) = pid_hashfn pid) ps). lia.
  - unfold lookup_pid. rewrite filter_none; [done|]. intros p Hp%(pt_range _ _ _ _ Hi) Ep.
    apply andb_false_iff in E as [?|?]; b2p; lia.
Qed.

Lemma lookup_pid_Some s ps pid p :
  NoDup (pids s ps) → lookup_pid s ps pid = Some p ↔ p ∈ ps ∧ pid_of s p = pid.
Proof.
  intros Hd. unfold lookup_pid. split.
  - intros E. assert (p ∈ filter (λ p, pid_of s p = pid) ps) as Hin.
    { destruct (filter _ _); simplify_eq/=. by left. }
    apply list_elem_of_filter in Hin. naive_solver.
  - intros [Hin <-]. apply list_elem_of_split in Hin as (a & b & ->).
    unfold pids in Hd. rewrite fmap_app in Hd. simpl in Hd. apply NoDup_app in Hd as (_ & Hd & _).
    rewrite filter_app, filter_none; simpl; [by rewrite filter_cons_True|].
    intros q Hq E. apply (Hd (pid_of s q)); [apply list_elem_of_fmap; eauto|]. rewrite E. by left.
Qed.

(** *** A new process *)

Lemma fork_link_spec s ps kids p q :
  ptab_inv None s ps kids → p ∉ idleproc (psc s) :: ps → q ∈ idleproc (psc s) :: ps →
  p_parent (procs (psc s) p) = Some q → p_cptr (procs (psc s) p) = None → nr_process s < MAX_PROCESS →
  ∃ s', fork_link p s = Ok (tt, s') ∧ ptab_inv None s' (p :: ps) (upd q (p :: kids q) kids) ∧
    (pid_of s' p ∉ pids s ps) ∧ (∀ x, x ≠ p → pid_of s' x = pid_of s x) ∧
    links_only (upd_proc p (set_pid (pid_of s' p)) (psc s)) (psc s') ∧ initproc s' = initproc s.
Proof.
  intros Hi Hp Hq Hpar Hcp Hroom.
  assert (p ≠ q) as Hne by (intros ->; done).
  pose proof (pt_nr _ _ _ _ Hi) as Hnr.
  destruct (get_pid_spec s ps) as (L & N & E & HL & HN & Hfree); [apply Hi|lia|apply Hi| |].
  { unfold MAX_PID, MAX_PROCESS in *. lia. }
  assert (L ∉ pids s ps) as HLf by (intros Hin; apply (Hfree L Hin); lia).
  unfold fork_link. rewrite (bind_ok _ _ _ _ _ E). unfold pset. msteps. unfold hash_proc, pget. msteps.
  cbn [psc set_psc procs upd_proc]. rewrite upd_eq. cbn [p_pid set_pid].
  match goal with |- context [set_links p ?st] => set (s1 := st) end.
  assert (procs (psc s1) = upd p (set_pid L (procs (psc s) p)) (procs (psc s))) as Ef by done.
  assert (p_parent (procs (psc s1) p) = Some q) as Hpar1 by (rewrite Ef, upd_eq; done).
  destruct (set_links_run s1 p q Hpar1 Hne) as (sc & E2 & Hlo & Hpa & Hc & Hy & Ho).
  eexists. split; [exact E2|].
  assert (p_cptr (procs (psc s1) q) = head (kids q)) as Hhq.
  { rewrite Ef, upd_ne by done. by apply (fam_cptr _ _ _ _ _ (pt_family _ _ _ _ Hi)). }
  rewrite Hhq in *. set (s' := Ptab _ _ _ _ _ _ _).
  assert (idleproc (psc s') = idleproc (psc s)) as Hid by (destruct Hlo as [[f ->] _]; done).
  assert (∀ x, pid_of s' x = if decide (x = p) then L else pid_of s x) as Hpid.
  { intros x. unfold pid_of, s'. cbn [psc]. destruct (links_only_fields _ _ x Hlo) as [-> _].
    rewrite Ef. unfold upd. repeat case_decide; simplify_eq; done. }
  assert (∀ x, x ∈ ps → pid_of s' x = pid_of s x) as Hold.
  { intros x Hx. rewrite Hpid, decide_False; [done|]. intros ->. set_solver. }
  assert (pid_of s' p = L) as HpL by (rewrite Hpid; by case_decide).
  assert (pids s' (p :: ps) = L :: pids s ps) as Hpids.
  { change (pids s' (p :: ps)) with (pid_of s' p :: pids s' ps). by rewrite HpL, (pids_ext s s'). }
  assert (p ∉ ps) as Hpps by set_solver.
  split; [split|]; rewrite ?Hid, ?Hpids.
  - apply list_add_head; [apply Hi|]. rewrite fmap_cons || idtac. rewrite elem_of_cons, elem_of_elems. naive_solver.
  - intros i Hr. pose proof (hash_add (hash_link s) s s' ps p (pt_hash _ _ _ _ Hi) Hpps Hold) as Hh.
    rewrite HpL in Hh. by apply Hh.
  - change (nr_process s') with (s32 (nr_process s + 1)). simpl length. unfold MAX_PROCESS in Hroom. rewrite s32_small; lia.
  - change (nr_process s') with (s32 (nr_process s + 1)). unfold MAX_PROCESS in *. rewrite s32_small; lia.
  - split; [simpl; lia|done|]. intros v [->|Hv]%elem_of_cons; [simpl; lia|]. intros Hb. apply (Hfree v Hv).
    simpl in Hb. lia.
  - constructor; [done|apply Hi].
  - intros x [->|Hx]%elem_of_cons; [rewrite HpL; lia|]. rewrite Hold by done. by apply (pt_range _ _ _ _ Hi).
  - intros [<-|Hx]%elem_of_cons; [apply Hp; by left|by apply (pt_idle _ _ _ _ Hi)].
  - assert (∀ x, p_parent (procs (psc s1) x) = p_parent (procs (psc s) x) ∧ p_cptr (procs (psc s1) x) = p_cptr (procs (psc s) x)
      ∧ p_yptr (procs (psc s1) x) = p_yptr (procs (psc s) x) ∧ p_optr (procs (psc s1) x) = p_optr (procs (psc s) x)) as Hs1.
    { intros x. rewrite Ef. unfold upd. by destruct (decide (p = x)) as [<-|]. }
    assert (head (kids q) ≠ Some p) as Hhp.
    { intros Eh. assert (p ∈ kids q) as [? _]%(fam_kids _ _ _ _ _ (pt_family _ _ _ _ Hi)); [|done].
      destruct (kids q); simplify_eq/=. by left. }
    apply (family_add (procs (psc s))); [apply Hi|done|done|..]; intros x; destruct (Hs1 x) as (Ea & Eb & Ec & Ed); change (psc s') with sc.
    + rewrite Hpa, Ea. by destruct (decide (x = p)) as [->|].
    + rewrite Hc, Eb. destruct (decide (x = q)); [done|]. by destruct (decide (x = p)) as [->|].
    + rewrite Hy, Ec. destruct (decide (x = p)) as [->|]; [|done]. by rewrite decide_False.
    + by rewrite Ho, Ed.
  - rewrite HpL. split_and!; [done| |exact Hlo|done]. intros x Hx. by rewrite Hpid, decide_False.
Qed.

(** *** A process is reaped *)

Lemma wait_unlink_spec s a p b kids q l1 l2 :
  ptab_inv None s (a ++ p :: b) kids → kids p = [] →
  p_parent (procs (psc s) p) = Some q → kids q = l1 ++ p :: l2 →
  ∃ s', wait_unlink p s = Ok (tt, s') ∧ ptab_inv None s' (a ++ b) (upd q (l1 ++ l2) kids) ∧
    links_only (psc s) (psc s') ∧ initproc s' = initproc s.
Proof.
  intros Hi Hkp Hpar Hkq. pose proof (ptab_nodup _ _ _ _ Hi) as Hnd.
  pose proof (pt_nr _ _ _ _ Hi) as Hnr. pose proof (pt_room _ _ _ _ Hi) as Hroom.
  assert (p ∉ a ++ b) as Hpout.
  { apply NoDup_cons in Hnd as [_ Hnd]. rewrite <-Permutation_middle in Hnd. by apply NoDup_cons in Hnd as [? _]. }
  pose proof (family_strict _ _ _ _ q (pt_family _ _ _ _ Hi)) as Hrun. rewrite Hkq in Hrun.
  apply sib_run_app in Hrun as [_ (Hyp & Hop & _)].
  pose proof (fam_nodup _ _ _ _ _ (pt_family _ _ _ _ Hi) q) as Hnk. rewrite Hkq in Hnk.
  assert (p ∉ l1 ++ l2) as Hpl by (rewrite <-Permutation_middle in Hnk; by apply NoDup_cons in Hnk as [? _]).
  unfold wait_unlink, unhash_proc. msteps.
  destruct (remove_links_run (set_hash_link (list_del (HProc p)) s) p q) as (sc & E & Hlo & Hpa & Hc & Hy & Ho).
  { done. }
  { cbn [psc set_hash_link]. rewrite Hop. destruct l2; simpl; [done|]. intros [= ->]. set_solver. }
  { cbn [psc set_hash_link]. rewrite Hyp. destruct (last l1) eqn:E; simpl; [|done]. intros [= ->].
    apply last_Some_elem_of in E. set_solver. }
  cbn [psc set_hash_link] in *. eexists. split; [exact E|]. set (s' := Ptab _ _ _ _ _ _ _).
  assert (idleproc (psc s') = idleproc (psc s)) as Hid by (destruct Hlo as [[f ->] _]; done).
  assert (∀ x, pid_of s' x = pid_of s x) as Hpid.
  { intros x. unfold pid_of, s'. cbn [psc]. by destruct (links_only_fields _ _ x Hlo) as [-> _]. }
  assert (pids s' (a ++ b) = pids s (a ++ b)) as Hpids by by apply pids_ext.
  assert (pids s (a ++ p :: b) ≡ₚ pid_of s p :: pids s (a ++ b)) as Hperm.
  { unfold pids. by rewrite <-Permutation_middle. }
  split; [split|done]; rewrite ?Hid, ?Hpids.
  - pose proof (pt_list _ _ _ _ Hi) as Hl. rewrite fmap_app in *. by apply list_del_dll in Hl.
  - intros i Hr. rewrite (bucket_ext s s') by done. by apply (hash_del _ s a p b (pt_hash _ _ _ _ Hi)).
  - change (nr_process s') with (s32 (nr_process s - 1)). rewrite length_app in *. simpl in Hnr.
    unfold MAX_PROCESS in *. rewrite s32_small; lia.
  - change (nr_process s') with (s32 (nr_process s - 1)). unfold MAX_PROCESS in *. rewrite s32_small; lia.
  - destruct (pt_pid _ _ _ _ Hi) as [? ? Hg]. split; [done..|]. intros v Hv. apply Hg. rewrite Hperm. by right.
  - pose proof (pt_distinct _ _ _ _ Hi) as Hdd. rewrite Hperm in Hdd. by apply NoDup_cons in Hdd as [_ ?].
  - intros x Hx. rewrite Hpid. apply (pt_range _ _ _ _ Hi). set_solver.
  - pose proof (pt_idle _ _ _ _ Hi). set_solver.
  - eapply family_remove; [apply Hi|done..].
Qed.

(** *** The children of a process that exits *)

(** The part of the loop body after the child [proc] has been moved. *)
Definition wake_init (proc : Z) : M ptab unit :=
  state ← pget p_state proc;
  when (bool_decide (state = PROC_ZOMBIE))
    (init ← gets initproc;
     ws ← pget p_wait_state init;
     when (ws =? WT_CHILD) (on_psc (wakeup_proc init))).

Lemma reparent_step s fuel p :
  current (psc s) ≠ initproc s → p_cptr (procs (psc s) (current (psc s))) = Some p →
  ∃ sc, reparent (S fuel) s = (wake_init p;; reparent fuel) (set_psc sc s) ∧ links_only (psc s) sc ∧
    (∀ x, p_parent (procs sc x) = if decide (x = p) then Some (initproc s) else p_parent (procs (psc s) x)) ∧
    (∀ x, p_cptr (procs sc x) = if decide (x = initproc s) then Some p else
      if decide (x = current (psc s)) then p_optr (procs (psc s) p) else p_cptr (procs (psc s) x)) ∧
    (∀ x, p_yptr (procs sc x) = if decide (p_cptr (procs (psc s) (initproc s)) = Some x) then Some p else
      if decide (x = p) then None else p_yptr (procs (psc s) x)) ∧
    (∀ x, p_optr (procs sc x) = if decide (x = p) then p_cptr (procs (psc s) (initproc s))
      else p_optr (procs (psc s) x)).
Proof.
  intros Hne Hc. cbn [reparent]. unfold get_cur, pget, pset, wake_init. msteps. rewrite Hc. msteps.
  cbn [psc set_psc procs upd_proc initproc].
  assert (∀ x, p_cptr (upd p (set_yptr None (upd (current (psc s)) (set_cptr (p_optr (procs (psc s) p)) (procs (psc s)
    (current (psc s)))) (procs (psc s)) p)) (upd (current (psc s)) (set_cptr (p_optr (procs (psc s) p)) (procs (psc s)
    (current (psc s)))) (procs (psc s))) x) = if decide (current (psc s) = x) then p_optr (procs (psc s) p) else
    p_cptr (procs (psc s) x)) as E by fields.
  rewrite E, decide_False by done. clear E.
  destruct (p_cptr (procs (psc s) (initproc s))) as [o|] eqn:Ho; msteps.
  - exists (upd_proc (initproc s) (set_cptr (Some p)) (upd_proc p (set_parent (Some (initproc s)))
      (upd_proc o (set_yptr (Some p)) (upd_proc p (set_optr (Some o)) (upd_proc p (set_yptr None)
      (upd_proc (current (psc s)) (set_cptr (p_optr (procs (psc s) p))) (psc s))))))).
    split; [|split; [links_steps|]].
    + unfold pget. msteps. cbn [psc set_psc procs upd_proc initproc]. by destruct (bool_decide _).
    + split_and!; fields.
  - exists (upd_proc (initproc s) (set_cptr (Some p)) (upd_proc p (set_parent (Some (initproc s)))
      (upd_proc p (set_optr None) (upd_proc p (set_yptr None)
      (upd_proc (current (psc s)) (set_cptr (p_optr (procs (psc s) p))) (psc s)))))).
    split; [|split; [links_steps|]].
    + unfold pget. msteps. cbn [psc set_psc procs upd_proc initproc]. by destruct (bool_decide _).
    + split_and!; fields.
Qed.

(** Outside [D] only the family links of the descriptors change. *)
Definition relinked (D : list Z) (s s' : sched) : Prop :=
  (∀ x, x ∉ D → ∃ a b c d, procs s' x = set_parent a (set_cptr b (set_yptr c (set_optr d (procs s x))))) ∧
  current s' = current s ∧ idleproc s' = idleproc s.

#[global] Instance relinked_preorder D : PreOrder (relinked D).
Proof.
  split.
  - intros s. split; [|done]. intros x _.
    exists (p_parent (procs s x)), (p_cptr (procs s x)), (p_yptr (procs s x)), (p_optr (procs s x)).
    by destruct (procs s x).
  - intros s1 s2 s3 (H1 & E1 & F1) (H2 & E2 & F2). split_and!; [|congruence..]. intros x Hx.
    destruct (H2 x Hx) as (a & b & c & d & ->), (H1 x Hx) as (a' & b' & c' & d' & ->). by exists a, b, c, d.
Qed.

Lemma links_only_relinked D s s' : links_only s s' → relinked D s s'.
Proof. intros [[f ->] H]. split; [|done]. intros x _. apply H. Qed.

Lemma same_elsewhere_relinked D s s' : same_elsewhere D s s' → relinked D s s'.
Proof.
  intros (Hp & _ & Hc & Hid & _). split; [|done]. intros x Hx. rewrite Hp by done.
  exists (p_parent (procs s x)), (p_cptr (procs s x)), (p_yptr (procs s x)), (p_optr (procs s x)).
  by destruct (procs s x).
Qed.

Lemma relinked_mono D D' s s' : D ⊆ D' → relinked D s s' → relinked D' s s'.
Proof. intros HD (H & E). split; [|done]. intros x Hx. apply H. set_solver. Qed.

Lemma rq_inv_links s s' base t : links_only s s' → rq_inv s base t → rq_inv s' base t.
Proof.
  intros Hl. pose proof Hl as [[f ->] _]. apply rq_inv_frame; try done. intros p _. by apply (links_only_fields _ _ p Hl).
Qed.

(** A sleeping process stays one while others change. *)
Lemma sleeper_frame s s' base t t' p :
  sleeper s base t p → same_sched_fields (procs s' p) (procs s p) →
  current s' = current s → idleproc s' = idleproc s → (p ∈ elems t' → p ∈ elems t) → sleeper s' base t' p.
Proof.
  intros [Hst Ho Hi Hc Hw Hs] (_ & E1 & E2 & E3 & _) Ec Ei Ht.
  split; unfold srank in *; rewrite ?E1, ?E2, ?E3, ?Ec, ?Ei; try done. by intros Hin%Ht.
Qed.

(** If [q] waits for a child it sleeps and the run pool has room for it. *)
Definition waits_asleep (s : sched) (base : Z) (t : tree Z) (q : Z) : Prop :=
  p_wait_state (procs s q) = WT_CHILD → sleeper s base t q ∧ Z.of_nat (length (elems t)) + 1 < 2 ^ 32.

(** [if (q->wait_state == WT_CHILD) wakeup_proc(q)], when [b]. *)
Lemma wake_parent_spec s base t q (b : bool) :
  rq_inv s base t → waits_asleep s base t q →
  ∃ t' s', when b (when (p_wait_state (procs s q) =? WT_CHILD) (wakeup_proc q)) s = Ok (tt, s') ∧
    rq_inv s' base t' ∧ waits_asleep s' base t' q ∧ same_table s s' ∧ same_elsewhere [q] s s' ∧
    elems t' ≡ₚ (if (b && (p_wait_state (procs s q) =? WT_CHILD))%bool then [q] else []) ++ elems t ∧
    p_wait_state (procs s' q) = (if (b && (p_wait_state (procs s q) =? WT_CHILD))%bool then 0 else p_wait_state (procs s q)).
Proof.
  intros Hi Hs. destruct b; simpl; [|by exists t, s].
  destruct (Z.eqb_spec (p_wait_state (procs s q)) WT_CHILD) as [E|E]; simpl; [|by exists t, s].
  destruct (Hs E) as [Hsl Hr]. destruct (wakeup_sleeper_spec s base t q Hi Hsl Hr) as (t' & s' & Ew & Hi' & Hp & Hse & Hw).
  exists t', s'. split_and!; try done; [|by eapply wakeup_same_table]. unfold waits_asleep. by rewrite Hw.
Qed.

Lemma wake_init_spec s base t p :
  rq_inv (psc s) base t → waits_asleep (psc s) base t (initproc s) →
  let woken := (bool_decide (p_state (procs (psc s) p) = PROC_ZOMBIE) &&
    (p_wait_state (procs (psc s) (initproc s)) =? WT_CHILD))%bool in
  ∃ t' sc, wake_init p s = Ok (tt, set_psc sc s) ∧ rq_inv sc base t' ∧
    waits_asleep sc base t' (initproc s) ∧ same_table (psc s) sc ∧ same_elsewhere [initproc s] (psc s) sc ∧
    elems t' ≡ₚ (if woken then [initproc s] else []) ++ elems t ∧
    p_wait_state (procs sc (initproc s)) = (if woken then 0 else p_wait_state (procs (psc s) (initproc s))).
Proof.
  intros Hi Hs. destruct (wake_parent_spec (psc s) base t (initproc s)
    (bool_decide (p_state (procs (psc s) p) = PROC_ZOMBIE)) Hi Hs) as (t' & sc & E & Hrest).
  exists t', sc. split; [|done]. unfold wake_init, pget. msteps.
  destruct (bool_decide _); simpl in *; [|injection E as <-; by destruct s]. msteps.
  destruct (_ =? _); simpl in *; [by apply zoom_ok|]. injection E as <-. by destruct s.
Qed.

Lemma ptab_inv_kids loose s ps kids kids' :
  (∀ q, kids' q = kids q) → ptab_inv loose s ps kids → ptab_inv loose s ps kids'.
Proof.
  intros E [? ? ? ? ? ? ? ? Hf]. split; try done. destruct Hf as [H1 H2 H3 H4 H5]. split; try done.
  - intros q. rewrite E. apply H1.
  - intros q. rewrite E. apply H2.
  - intros q. rewrite E. apply H3.
  - intros q. rewrite E. apply H4.
Qed.

(** Only the links changed, and they are a family again. *)
Lemma ptab_inv_links loose loose' s sc ps kids kids' :
  links_only (psc s) sc → ptab_inv loose s ps kids →
  family loose' (procs sc) (idleproc (psc s)) ps kids' → ptab_inv loose' (set_psc sc s) ps kids'.
Proof.
  intros Hl [H1 H2 H3 H4 H5 H6 H7 H8 H9] Hf.
  assert (∀ x, pid_of (set_psc sc s) x = pid_of s x) as E.
  { intros x. apply (links_only_fields _ _ x Hl). }
  assert (pids (set_psc sc s) ps = pids s ps) as Ep by by apply pids_ext.
  pose proof Hl as [[f Esc] _]. assert (idleproc sc = idleproc (psc s)) as Eid by by rewrite Esc.
  split; cbn [psc set_psc proc_link hash_link nr_process]; rewrite ?Ep, ?Eid; try done.
  - intros i Hi. rewrite (bucket_ext s) by done. by apply H2.
  - destruct H5. by split.
  - intros x Hx. rewrite E. by apply H7.
Qed.

Definition is_zombie (s : sched) (p : Z) : bool := bool_decide (p_state (procs s p) = PROC_ZOMBIE).

Section reparent.
Context (s : ptab) (ps : list Z) (kids : Z → list Z) (base : Z) (t : tree Z).
Notation cur := (current (psc s)).
Notation init := (initproc s).
Context (Hne : cur ≠ init) (Hcur : cur ∈ idleproc (psc s) :: ps) (Hinit : init ∈ idleproc (psc s) :: ps).

(** One round of the loop. *)
Lemma reparent_one p l fuel :
  ptab_inv (Some cur) s ps kids → rq_inv (psc s) base t → kids cur = p :: l → waits_asleep (psc s) base t init →
  let woken := (is_zombie (psc s) p && (p_wait_state (procs (psc s) init) =? WT_CHILD))%bool in
  ∃ t' sc, reparent (S fuel) s = reparent fuel (set_psc sc s) ∧
    ptab_inv (Some cur) (set_psc sc s) ps (upd init (p :: kids init) (upd cur l kids)) ∧
    rq_inv sc base t' ∧ relinked [init] (psc s) sc ∧ waits_asleep sc base t' init ∧
    elems t' ≡ₚ (if woken then [init] else []) ++ elems t ∧
    p_wait_state (procs sc init) = (if woken then 0 else p_wait_state (procs (psc s) init)).
Proof.
  intros Hi Hrq El Hw woken. pose proof (pt_family _ _ _ _ Hi) as Hf.
  destruct (reparent_step s fuel p Hne) as (sc & E & Hlo & Hpa & Hc & Hy & Ho).
  { rewrite (fam_cptr _ _ _ _ _ Hf) by done. by rewrite El. }
  rewrite (fam_cptr _ _ _ _ _ Hf init) in Hy, Ho by done.
  pose proof (ptab_inv_links _ _ _ _ _ _ _ Hlo Hi (family_move _ _ _ _ _ _ _ _ _ Hf Hne Hcur Hinit El Hpa Hc Hy Ho)) as Hi'.
  assert (∀ x, p_state (procs sc x) = p_state (procs (psc s) x) ∧
    p_wait_state (procs sc x) = p_wait_state (procs (psc s) x)) as Est.
  { intros x. destruct Hlo as [_ Hl]. by destruct (Hl x) as (? & ? & ? & ? & ->). }
  assert (waits_asleep sc base t init) as Hw1.
  { unfold waits_asleep. rewrite (proj2 (Est _)). intros Hwt%Hw. destruct Hwt as [Hsl ?]. split; [|done].
    destruct Hlo as [[f ->] Hl]. eapply sleeper_frame; [exact Hsl| |done..].
    by destruct (Hl init) as (? & ? & ? & ? & ->). }
  destruct (wake_init_spec (set_psc sc s) base t p) as (t1 & sc1 & E1 & Hrq1 & Hw2 & Hst & Hse & Hel & Hws);
    [by eapply rq_inv_links|done|].
  cbn [psc set_psc initproc] in Hrq1, Hw2, Hse, Hel, Hws.
  rewrite (proj1 (Est p)), (proj2 (Est init)) in Hel, Hws. fold (is_zombie (psc s) p) woken in Hel, Hws.
  exists t1, sc1. split_and!; try done.
  - by rewrite E, (bind_ok _ _ _ _ _ E1).
  - exact (ptab_inv_sched _ _ sc1 _ _ Hst Hi').
  - etrans; [by apply links_only_relinked|by apply same_elsewhere_relinked].
Qed.
End reparent.

(** The children of the current process, in turn, become the youngest child of
    [initproc], which is woken if it waits and one of them is a zombie. *)
Lemma reparent_spec s ps kids base t fuel :
  ptab_inv (Some (current (psc s))) s ps kids → rq_inv (psc s) base t →
  current (psc s) ≠ initproc s → current (psc s) ∈ idleproc (psc s) :: ps → initproc s ∈ idleproc (psc s) :: ps →
  (initproc s ∉ kids (current (psc s))) → (length (kids (current (psc s))) < fuel)%nat →
  waits_asleep (psc s) base t (initproc s) →
  let woken := (existsb (is_zombie (psc s)) (kids (current (psc s))) &&
    (p_wait_state (procs (psc s) (initproc s)) =? WT_CHILD))%bool in
  ∃ t' sc, reparent fuel s = Ok (tt, set_psc sc s) ∧
    ptab_inv None (set_psc sc s) ps
      (upd (initproc s) (reverse (kids (current (psc s))) ++ kids (initproc s)) (upd (current (psc s)) [] kids)) ∧
    rq_inv sc base t' ∧ relinked [initproc s] (psc s) sc ∧
    elems t' ≡ₚ (if woken then [initproc s] else []) ++ elems t.
Proof.
  remember (kids (current (psc s))) as l eqn:El. symmetry in El. revert s kids t fuel El.
  induction l as [|p l IH]; intros s kids t fuel El Hi Hrq Hne Hcur Hinit Hik Hfuel Hw;
    (destruct fuel as [|fuel]; [simpl in Hfuel; lia|]).
  - exists t, (psc s). assert (set_psc (psc s) s = s) as -> by by destruct s.
    split_and!; try done.
    + cbn [reparent]. unfold get_cur, pget. msteps.
      rewrite (fam_cptr _ _ _ _ _ (pt_family _ _ _ _ Hi)) by done. by rewrite El.
    + apply (ptab_inv_kids _ _ _ kids); [intros q; unfold upd; repeat case_decide; by subst|].
      destruct Hi as [? ? ? ? ? ? ? ? [? Hsib ? ? ?]]. split; try done. split; try done.
      intros q. exists None. split; [done|]. destruct (Hsib q) as (y & Hy & Hr).
      destruct (decide (q = current (psc s))) as [->|Hq]; [by rewrite El|].
      assert (y = None) as -> by (apply Hy; congruence). done.
  - destruct (reparent_one s ps kids base t Hne Hcur Hinit p l fuel Hi Hrq El Hw)
      as (t1 & sc & E & Hi1 & Hrq1 & Hrl & Hw1 & Hel & Hws).
    pose proof Hrl as (Hsame & Ecur & Eidle).
    destruct (IH (set_psc sc s) (upd (initproc s) (p :: kids (initproc s)) (upd (current (psc s)) l kids)) t1 fuel)
      as (t' & sc' & E' & Hi' & Hrq' & Hrl' & Hel'); cbn [psc set_psc initproc]; rewrite ?Ecur, ?Eidle; try done.
    { by rewrite upd_ne, upd_eq by done. }
    { set_solver. }
    { simpl in Hfuel. lia. }
    exists t', sc'. cbn [psc set_psc initproc] in Hrl', Hel'. rewrite E, E'. split_and!; [done| |done|by etrans|].
    + cbn [psc set_psc initproc] in Hi'. rewrite Ecur, upd_eq in Hi'. eapply ptab_inv_kids; [|exact Hi'].
      intros q. rewrite reverse_cons, <-app_assoc. unfold upd. repeat case_decide; by subst.
    + assert (existsb (is_zombie sc) l = existsb (is_zombie (psc s)) l) as Ez.
      { clear -Hsame Hik. assert (∀ x, x ∈ l → x ≠ initproc s) as Hx by set_solver. clear Hik.
        induction l as [|x l IH]; [done|]. simpl. rewrite IH by set_solver. f_equal. unfold is_zombie.
        destruct (Hsame x) as (? & ? & ? & ? & ->); [|done]. assert (x ≠ initproc s) by (apply Hx; by left). set_solver. }
      rewrite Hel', Ez, Hws, Hel. simpl. destruct (is_zombie (psc s) p); simpl.
      * destruct (_ =? WT_CHILD) eqn:Ew; simpl; by rewrite ?andb_false_r, ?Ew, ?andb_false_r.
      * done.
Qed.

(** *** do_exit *)

Lemma existsb_ext_in {A} (f g : A → bool) (l : list A) :
  (∀ x, In x l → f x = g x) → existsb f l = existsb g l.
Proof.
  induction l as [|x l IH]; [done|]. intros H. simpl. rewrite IH by (intros; apply H; by right).
  by rewrite H by by left.
Qed.

(** The table while the children of [x] are handed over, at the beginning. *)
Lemma ptab_inv_loosen s ps kids x : ptab_inv None s ps kids → ptab_inv (Some x) s ps kids.
Proof.
  intros [? ? ? ? ? ? ? ? Hf]. split; try done. destruct Hf as [? Hs ? ? ?]. split; try done.
  intros q. destruct (Hs q) as (y & Hy & Hr). exists y. split; [|done]. intros _. by apply Hy.
Qed.

(** Waking [q] leaves another process [p] that waits asleep. *)
Lemma waits_asleep_other s s' base t t' q p l :
  same_elsewhere [q] s s' → p ≠ q → elems t' ≡ₚ l ++ elems t → l ⊆ [q] → (length l ≤ 1)%nat →
  (p_wait_state (procs s p) = WT_CHILD → sleeper s base t p) → Z.of_nat (length (elems t)) + 2 < 2 ^ 32 →
  waits_asleep s' base t' p.
Proof.
  intros (Hp & _ & Ec & Ei & _) Hne Hel Hl Hlen Hs Hroom. unfold waits_asleep. rewrite Hp by set_solver.
  intros Hw%Hs. split; [|rewrite Hel, length_app; lia].
  eapply sleeper_frame; [done|by rewrite Hp by set_solver|done..|]. rewrite Hel. set_solver.
Qed.

(** The current process [cur], a child of [q], becomes a zombie; [q] is woken if it
    waits; the children go to [initproc]. *)
Lemma exit_links_spec s ps kids base t q code :
  let cur := current (psc s) in let init := initproc s in
  ptab_inv None s ps kids → rq_inv (psc s) base t →
  cur ∈ ps → cur ≠ init → init ∈ ps → p_parent (procs (psc s) init) = Some (idleproc (psc s)) →
  p_parent (procs (psc s) cur) = Some q → q ≠ cur → q ∉ kids cur → cur ∉ elems t →
  Z.of_nat (length (elems t)) + 2 < 2 ^ 32 →
  (∀ x, x = q ∨ x = init → p_wait_state (procs (psc s) x) = WT_CHILD → sleeper (psc s) base t x) →
  ∃ t' s', exit_links code s = Ok (tt, s') ∧
    ptab_inv None s' ps (upd init (reverse (kids cur) ++ kids init) (upd cur [] kids)) ∧
    rq_inv (psc s') base t' ∧
    p_state (procs (psc s') cur) = PROC_ZOMBIE ∧ p_exit_code (procs (psc s') cur) = code ∧
    relinked [cur; q; init] (psc s) (psc s') ∧ initproc s' = init ∧
    elems t' ≡ₚ
      (if bool_decide (q ≠ init) && existsb (is_zombie (psc s)) (kids cur) &&
          (p_wait_state (procs (psc s) init) =? WT_CHILD) then [init] else []) ++
      (if p_wait_state (procs (psc s) q) =? WT_CHILD then [q] else []) ++ elems t.
Proof.
  intros cur init Hi Hrq Hcur Hne Hinit Hpi Hpar Hqc Hqk Hct Hroom Hsl.
  set (s1 := upd_proc cur (set_exit_code code) (upd_proc cur (set_state PROC_ZOMBIE) (psc s))).
  assert (∀ x, x ≠ cur → procs s1 x = procs (psc s) x) as Hs1 by (intros x Hx; unfold s1; simpl; by rewrite !upd_ne).
  assert (same_table (psc s) s1) as Hst1 by (etrans; by apply same_table_upd).
  assert (rq_inv s1 base t) as Hrq1 by by repeat apply rq_inv_upd_out.
  assert (ptab_inv None (set_psc s1 s) ps kids) as Hi1 by by eapply ptab_inv_sched.
  assert (waits_asleep s1 base t q) as Hwq.
  { unfold waits_asleep. rewrite Hs1 by done. intros Hw. split; [|lia].
    eapply sleeper_frame; [by apply Hsl; [left|]|by rewrite Hs1|done..]. }
  destruct (wake_parent_spec s1 base t q true Hrq1 Hwq) as (t2 & s2 & E2 & Hrq2 & Hw2 & Hst2 & Hse2 & Hel2 & Hws2).
  cbn [when andb] in E2, Hel2, Hws2. rewrite (Hs1 q) in E2, Hel2, Hws2 by done.
  pose proof Hse2 as (Hp2 & _ & Ec2 & Ei2 & _). change (current s1) with cur in Ec2. change (idleproc s1) with (idleproc (psc s)) in Ei2.
  pose proof (ptab_inv_sched _ (set_psc s1 s) s2 _ _ Hst2 Hi1) as Hi2. change (set_psc s2 (set_psc s1 s)) with (set_psc s2 s) in Hi2.
  assert (p_wait_state (procs s2 init) = (if bool_decide (q = init) && (p_wait_state (procs (psc s) q) =? WT_CHILD) then 0
    else p_wait_state (procs (psc s) init)))%bool as Ewi.
  { destruct (decide (q = init)) as [->|Hqi]; [by rewrite Hws2, bool_decide_eq_true_2|].
    rewrite bool_decide_eq_false_2, Hp2, Hs1 by (done || set_solver). done. }
  assert (waits_asleep s2 base t2 init) as Hwi.
  { destruct (decide (q = init)) as [->|Hqi]; [done|]. eapply waits_asleep_other; [done..| | | |done].
    - destruct (_ =? _); set_solver.
    - destruct (_ =? _); simpl; lia.
    - rewrite Hs1 by done. intros Hw. eapply sleeper_frame; [by apply Hsl; [right|]|by rewrite Hs1|done..]. }
  assert (init ∉ kids cur) as Hik.
  { intros [_ E]%(fam_kids _ _ _ _ _ (pt_family _ _ _ _ Hi)). rewrite Hpi in E. injection E as E.
    apply (pt_idle _ _ _ _ Hi). by rewrite E. }
  destruct (reparent_spec (set_psc s2 s) ps kids base t2 (list_fuel s)) as (t3 & s3 & E3 & Hi3 & Hrq3 & Hrl3 & Hel3);
    cbn [psc set_psc initproc]; rewrite ?Ec2, ?Ei2; try done.
  { by apply ptab_inv_loosen. }
  { by right. }
  { by right. }
  { unfold list_fuel. rewrite (pt_nr _ _ _ _ Hi). apply Nat.lt_succ_r. transitivity (length ps); [|lia].
    apply submseteq_length, NoDup_submseteq; [apply (pt_family _ _ _ _ Hi)|].
    by intros x [? _]%(fam_kids _ _ _ _ _ (pt_family _ _ _ _ Hi)). }
  exists t3, (set_psc s3 s). cbn [psc set_psc initproc] in Hi3, Hrq3, Hrl3, Hel3. rewrite Ec2 in *.
  assert (relinked [cur; q; init] (psc s) s3) as Hrl.
  { etrans; [|eapply relinked_mono; [|exact Hrl3]; set_solver].
    etrans; [|eapply relinked_mono; [|by apply same_elsewhere_relinked]; set_solver].
    apply same_elsewhere_relinked. split; [|done]. intros x Hx. apply Hs1. set_solver. }
  assert (procs s2 cur = procs s1 cur) as Hc2 by (apply Hp2; set_solver).
  destruct (proj1 Hrl3 cur) as (a & b & c & d & Ecur); [set_solver|].
  split_and!; [|done|done|..]; cbn [psc set_psc initproc]; try done.
  - unfold exit_links, get_cur, pset, pget. msteps. cbn [psc set_psc]. fold cur. fold s1.
    assert (p_parent (procs s1 cur) = Some q) as -> by (unfold s1; simpl; by rewrite !upd_eq).
    msteps. cbn [psc set_psc]. fold s1. rewrite (Hs1 q) by done.
    assert ((when (p_wait_state (procs (psc s) q) =? WT_CHILD) (on_psc (wakeup_proc q))) (set_psc s1 s) =
      Ok (tt, set_psc s2 s)) as E2'.
    { destruct (_ =? _); simpl in *; [|by injection E2 as <-]. unfold on_psc. by rewrite (zoom_ok psc set_psc _ (set_psc s1 s) _ _ E2). }
    rewrite (bind_ok _ _ _ _ _ E2'). msteps. exact E3.
  - rewrite Ecur, Hc2. unfold s1. simpl. by rewrite !upd_eq.
  - rewrite Ecur, Hc2. unfold s1. simpl. by rewrite !upd_eq.
  - rewrite Hel3, Hel2. change (initproc s) with init. rewrite Ewi. assert (existsb (is_zombie s2) (kids cur) = existsb (is_zombie (psc s)) (kids cur)) as ->.
    { apply existsb_ext_in. intros x Hx%list_elem_of_In. assert (x ≠ q) by (intros ->; done).
      assert (x ≠ cur).
      { intros ->. apply (fam_kids _ _ _ _ _ (pt_family _ _ _ _ Hi)) in Hx as [_ Hx]. congruence. }
      unfold is_zombie. by rewrite Hp2, Hs1 by set_solver. }
    destruct (decide (q = init)) as [->|Hqi].
    + rewrite bool_decide_eq_true_2, bool_decide_eq_false_2 by naive_solver. simpl.
      destruct (p_wait_state (procs (psc s) init) =? WT_CHILD) eqn:Ew; simpl; [by rewrite andb_false_r|].
      by rewrite Ew, andb_false_r.
    + by rewrite bool_decide_eq_false_2, bool_decide_eq_true_2 by naive_solver.
Qed.

(** *** do_wait *)

Lemma wait_scan_spec s y l fuel (haskid : bool) :
  sib_run (procs (psc s)) y l None → (length l < fuel)%nat →
  wait_scan fuel (head l) haskid s =
    Ok ((head (filter (λ p, p_state (procs (psc s) p) = PROC_ZOMBIE) l), (haskid || negb (bool_decide (l = [])))%bool), s).
Proof.
  revert y fuel haskid. induction l as [|p l IH]; intros y fuel haskid Hs Hf;
    (destruct fuel as [|fuel]; [simpl in Hf; lia|]); simpl wait_scan.
  { by rewrite orb_false_r. }
  destruct Hs as (_ & Ho & Hs). unfold pget. msteps. rewrite filter_cons.
  rewrite (bool_decide_eq_false_2 (p :: l = [])), orb_true_r by done.
  destruct (decide (p_state (procs (psc s) p) = PROC_ZOMBIE)) as [Hz|Hz].
  { by rewrite bool_decide_eq_true_2. }
  rewrite bool_decide_eq_false_2 by done. msteps.
  rewrite Ho. replace (or_else (head l) None) with (head l) by by destruct (head l).
  by rewrite (IH (Some p)) by (done || simpl in Hf; lia).
Qed.

(** The child [wait_find] chooses: the process with that pid if it is a child of
    the current one, or the youngest zombie among the children; and whether there
    is a child to wait for. *)
Definition wait_choice (s : ptab) (ps : list Z) (kids : Z → list Z) (pid : Z) : option Z * bool :=
  let zombie p := p_state (procs (psc s) p) = PROC_ZOMBIE in
  let cands := if pid =? 0 then kids (current (psc s))
    else filter (λ p, pid_of s p = pid) (kids (current (psc s))) in
  (head (filter zombie cands), negb (bool_decide (cands = []))).

Lemma wait_find_spec s ps kids pid :
  ptab_inv None s ps kids → current (psc s) ∈ idleproc (psc s) :: ps →
  wait_find pid s = Ok (wait_choice s ps kids pid, s).
Proof.
  intros Hi Hcur. pose proof (pt_family _ _ _ _ Hi) as Hf. set (cur := current (psc s)) in *.
  unfold wait_find, get_cur, wait_choice. msteps. fold cur. destruct (Z.eqb_spec pid 0) as [->|Hp]; simpl.
  - unfold pget. msteps. fold cur. rewrite (fam_cptr _ _ _ _ _ Hf) by done.
    rewrite (wait_scan_spec s None); [done|by eapply family_strict|].
    unfold list_fuel. rewrite (pt_nr _ _ _ _ Hi). apply Nat.lt_succ_r. transitivity (length ps); [|lia].
    apply submseteq_length, NoDup_submseteq; [apply (fam_nodup _ _ _ _ _ Hf)|].
    by intros x [? _]%(fam_kids _ _ _ _ _ Hf).
  - rewrite (bind_ok _ _ _ _ _ (find_proc_spec _ _ _ _ pid Hi)).
    destruct (lookup_pid s ps pid) as [p|] eqn:El.
    + apply lookup_pid_Some in El as [Hin Epid]; [|apply Hi]. unfold pget. msteps.
      assert (∀ x, x ∈ ps → pid_of s x = pid → x = p) as Huniq.
      { intros x Hx E. assert (lookup_pid s ps pid = Some x ∧ lookup_pid s ps pid = Some p) as [E1 E2].
        { split; apply lookup_pid_Some; try done; apply Hi. }
        congruence. }
      case_bool_decide as Hpar.
      * assert (filter (λ p, pid_of s p = pid) (kids cur) = [p]) as ->.
        2: { msteps. rewrite filter_cons. destruct (decide (p_state (procs (psc s) p) = PROC_ZOMBIE)).
             - by rewrite (bool_decide_eq_true_2 (p_state _ = _)).
             - by rewrite (bool_decide_eq_false_2 (p_state _ = _)). }
        assert (p ∈ kids cur) as Hk by by apply (fam_kids _ _ _ _ _ Hf).
        pose proof (fam_nodup _ _ _ _ _ Hf cur) as Hnd. apply list_elem_of_split in Hk as (a & b & Ek).
        rewrite Ek in Hnd |- *. rewrite filter_app, filter_cons_True by done.
        apply NoDup_app in Hnd as (_ & Hd & [Hpb _]%NoDup_cons).
        assert (∀ x, x ∈ a ++ p :: b → x ∈ ps) as Hps.
        { rewrite <-Ek. by intros x [? _]%(fam_kids _ _ _ _ _ Hf). }
        rewrite !filter_none; [done|..]; intros x Hx E.
        -- apply Hpb. rewrite <-(Huniq x); [done|apply Hps; set_solver|done].
        -- apply (Hd x Hx). rewrite (Huniq x); [by left|apply Hps; set_solver|done].
      * rewrite (filter_none (λ p, pid_of s p = pid)); [done|]. intros x [Hx Hxp]%(fam_kids _ _ _ _ _ Hf) E.
        by rewrite (Huniq x) in Hxp.
    + rewrite (filter_none (λ p, pid_of s p = pid)); [done|]. intros x [Hx _]%(fam_kids _ _ _ _ _ Hf) E.
      assert (lookup_pid s ps pid = Some x) by (apply lookup_pid_Some; [apply Hi|done]). congruence.
Qed.

(** ** Theorems *)

(** C18. [get_pid] always returns, within [2 * MAX_PID] passes over the process
    list, with a pid in [1, MAX_PID) that no process has; nothing but its two
    static variables changes, and they are left such that the next call is
    correct, also after the pid space wrapped around. *)
Theorem get_pid_fresh s ps kids :
  ptab_inv None s ps kids →
  ∃ pid safe, get_pid s = Ok (pid, with_pids pid safe s) ∧ 1 ≤ pid < MAX_PID ∧ (pid ∉ pids s ps) ∧
    pid_inv (with_pids pid safe s) (pid :: pids s ps).
Proof.
  intros Hi. pose proof (pt_nr _ _ _ _ Hi). pose proof (pt_room _ _ _ _ Hi).
  destruct (get_pid_spec s ps) as (L & N & E & HL & HN & Hfree); [apply Hi|lia|apply Hi| |].
  { unfold MAX_PID, MAX_PROCESS in *. lia. }
  exists L, N. split_and!; [done|lia|lia| |].
  - intros Hin. apply (Hfree L Hin). lia.
  - split; simpl; [lia|lia|]. intros v [->|Hv]%elem_of_cons Hb; [lia|]. apply (Hfree v Hv). lia.
Qed.

(** An example table: 0 idles, 1 is the initial process and waits for its
    children, 2 is a child of 1, and 3 and 4 are children of 2. *)
Definition example_family (p : Z) : proc_struct :=
  ProcStruct (if p =? 1 then PROC_SLEEPING else if p =? 4 then PROC_ZOMBIE else PROC_RUNNABLE) (-1) 0 0 0
    (if p =? 1 then Some 0 else if p =? 2 then Some 1 else Some 2) None 0 0 []
    0 (if p =? 1 then WT_CHILD else 0) None None None false 5 0 1 None.

Definition example_ptab : ptab :=
  Ptab (Sched example_family (λ _, ListEntry Head Head) 0 5 None (λ _, SkewHeapEntry None None None)
      2 0 (λ _, 0) (λ _, 0) (λ _, ListEntry Head Head))
    (λ _, ListEntry Head Head) (λ e, ListEntry e e) 1 MAX_PID MAX_PID 1.

Lemma example_ptab_inv : ptab_inv None example_ptab [] (λ _, []).
Proof.
  split; simpl.
  - split; [apply NoDup_singleton|]. by simpl.
  - intros i _. split; [apply NoDup_singleton|]. by simpl.
  - done.
  - unfold MAX_PROCESS. lia.
  - split; simpl; [unfold MAX_PID, MAX_PROCESS; lia..|]. set_solver.
  - constructor.
  - set_solver.
  - set_solver.
  - split; simpl.
    + intros q ->%list_elem_of_singleton. done.
    + intros q. by exists None.
    + constructor.
    + set_solver.
    + set_solver.
Qed.

Lemma get_pid_fresh_witness : get_pid example_ptab = Ok (1, with_pids 1 MAX_PID example_ptab).
Proof.
  destruct (get_pid_fresh example_ptab [] (λ _, []) example_ptab_inv) as (pid & safe & E & _).
  rewrite E. vm_compute in E. by injection E as <- <-.
Defined.

(** A new process enters the table under a pid of its own: the table stays
    well formed with the process as the youngest child of its parent, [find_proc]
    of the new pid finds it, and of every other pid finds what it found before. *)
Theorem fork_link_adds s ps kids p q :
  ptab_inv None s ps kids → p ∉ idleproc (psc s) :: ps → q ∈ idleproc (psc s) :: ps →
  p_parent (procs (psc s) p) = Some q → p_cptr (procs (psc s) p) = None → nr_process s < MAX_PROCESS →
  ∃ s', fork_link p s = Ok (tt, s') ∧ ptab_inv None s' (p :: ps) (upd q (p :: kids q) kids) ∧
    ∀ pid, find_proc pid s' = Ok (if pid =? pid_of s' p then Some p else lookup_pid s ps pid, s').
Proof.
  intros Hi Hp Hq Hpar Hc Hroom.
  destruct (fork_link_spec s ps kids p q Hi Hp Hq Hpar Hc Hroom) as (s' & E & Hi' & Hfresh & Hold & _).
  exists s'. split_and!; [done|done|]. intros pid. rewrite (find_proc_spec _ _ _ _ pid Hi').
  unfold lookup_pid. rewrite filter_cons. destruct (Z.eqb_spec pid (pid_of s' p)) as [->|Hne].
  - by rewrite decide_True.
  - rewrite decide_False by done. fold (lookup_pid s' ps pid). rewrite (lookup_pid_ext s s'); [done|].
    intros x Hx. apply Hold. intros ->. set_solver.
Qed.

(** The example table with its four processes. *)
Definition after {S A} (m : M S A) (s : S) : S := match m s with Ok (_, s') => s' | _ => s end.

Lemma after_ok {S A} (m : M S A) s a s' : m s = Ok (a, s') → after m s = s'.
Proof. unfold after. by intros ->. Qed.

Definition forked (ps : list Z) : ptab := foldr (λ p s, after (fork_link p) s) example_ptab ps.

Lemma forked_step p ps kids q :
  ptab_inv None (forked ps) ps kids →
  bool_decide (p ∉ idleproc (psc (forked ps)) :: ps ∧ q ∈ idleproc (psc (forked ps)) :: ps ∧
    p_parent (procs (psc (forked ps)) p) = Some q ∧ p_cptr (procs (psc (forked ps)) p) = None ∧
    nr_process (forked ps) < MAX_PROCESS) = true →
  ptab_inv None (forked (p :: ps)) (p :: ps) (upd q (p :: kids q) kids).
Proof.
  intros Hi (H1 & H2 & H3 & H4 & H5)%bool_decide_eq_true.
  destruct (fork_link_spec _ _ _ _ _ Hi H1 H2 H3 H4 H5) as (s' & E & Hi' & _).
  simpl. by rewrite (after_ok _ _ _ _ E).
Qed.

Definition example_kids (q : Z) : list Z := if q =? 0 then [1] else if q =? 1 then [2] else if q =? 2 then [4; 3] else [].

Lemma forked_inv : ptab_inv None (forked [4; 3; 2; 1]) [4; 3; 2; 1] example_kids.
Proof.
  eapply ptab_inv_kids.
  2: { eapply (forked_step 4 [3; 2; 1] _ 2); [|vm_compute; reflexivity].
       eapply (forked_step 3 [2; 1] _ 2); [|vm_compute; reflexivity].
       eapply (forked_step 2 [1] _ 1); [|vm_compute; reflexivity].
       eapply (forked_step 1 [] _ 0); [apply example_ptab_inv|vm_compute; reflexivity]. }
  intros q. unfold example_kids, upd. repeat case_decide; subst; try done.
  destruct (Z.eqb_spec q 0), (Z.eqb_spec q 1), (Z.eqb_spec q 2); congruence.
Qed.

Lemma fork_link_adds_witness :
  ∃ s', fork_link 5 (forked [4; 3; 2; 1]) = Ok (tt, s') ∧ pid_of s' 5 = 5 ∧ find_proc 5 s' = Ok (Some 5, s').
Proof.
  destruct (fork_link_adds (forked [4; 3; 2; 1]) [4; 3; 2; 1] example_kids 5 2 forked_inv) as (s' & E & _ & Hf).
  - vm_compute. intros H. by repeat (apply elem_of_cons in H as [H|H]; [discriminate|]); apply elem_of_nil in H.
  - vm_compute. right. right. right. by left.
  - vm_compute. reflexivity.
  - vm_compute. reflexivity.
  - vm_compute. reflexivity.
  - exists s'. assert (pid_of s' 5 = 5) as Ep.
    { rewrite <-(after_ok _ _ _ _ E). vm_compute. reflexivity. }
    split_and!; [exact E|exact Ep|]. by rewrite Hf, Ep.
Defined.

(** C39. When the current process exits it becomes a zombie with its exit code; the
    parent is woken if it waits for a child; all its children, in reverse order,
    become the youngest children of [initproc], which is woken if it waits and
    one of them is a zombie.  No process is lost, the table stays well formed and
    the run queue holds the woken processes besides those it held.  The process is not
    [initproc], whose parent is the idle process; and a parent or [initproc] that waits for a
    child sleeps and has a stride in the window of the run pool. *)
Theorem exit_links_hands_over s ps kids base t q code :
  let cur := current (psc s) in let init := initproc s in
  ptab_inv None s ps kids → rq_inv (psc s) base t →
  cur ∈ ps → cur ≠ init → init ∈ ps → p_parent (procs (psc s) init) = Some (idleproc (psc s)) →
  p_parent (procs (psc s) cur) = Some q → q ≠ cur → q ∉ kids cur → cur ∉ elems t →
  Z.of_nat (length (elems t)) + 2 < 2 ^ 32 →
  (∀ x, x = q ∨ x = init → p_wait_state (procs (psc s) x) = WT_CHILD → sleeper (psc s) base t x) →
  ∃ t' s', exit_links code s = Ok (tt, s') ∧
    ptab_inv None s' ps (upd init (reverse (kids cur) ++ kids init) (upd cur [] kids)) ∧
    rq_inv (psc s') base t' ∧
    p_state (procs (psc s') cur) = PROC_ZOMBIE ∧ p_exit_code (procs (psc s') cur) = code ∧
    elems t' ≡ₚ
      (if bool_decide (q ≠ init) && existsb (is_zombie (psc s)) (kids cur) &&
          (p_wait_state (procs (psc s) init) =? WT_CHILD) then [init] else []) ++
      (if p_wait_state (procs (psc s) q) =? WT_CHILD then [q] else []) ++ elems t.
Proof.
  intros cur init H1 H2 H3 H4 H5 H6 H7 H8 H9 H10 H11 H12.
  destruct (exit_links_spec s ps kids base t q code) as (t' & s' & ?); [done..|]. exists t', s'. naive_solver.
Qed.

Lemma rq_inv_empty s base : run_pool s = None → proc_num s = 0 → 0 < max_time_slice s → rq_inv s base Leaf.
Proof. intros E1 E2 E3. split; simpl; try done; [|set_solver..]. rewrite E1. split; try done. constructor. Qed.

Lemma exit_links_hands_over_witness :
  ∃ t' s', exit_links 7 (forked [4; 3; 2; 1]) = Ok (tt, s') ∧ elems t' ≡ₚ [1] ∧
    p_exit_code (procs (psc s') 2) = 7.
Proof.
  destruct (exit_links_hands_over (forked [4; 3; 2; 1]) [4; 3; 2; 1] example_kids 0 Leaf 1 7)
    as (t' & s' & E & _ & _ & _ & Hc & Hel).
  - apply forked_inv.
  - apply rq_inv_empty; vm_compute; reflexivity.
  - vm_compute. right. right. by left.
  - vm_compute. discriminate.
  - vm_compute. right. right. right. by left.
  - vm_compute. reflexivity.
  - vm_compute. reflexivity.
  - vm_compute. discriminate.
  - vm_compute. intros H. by repeat (apply elem_of_cons in H as [H|H]; [discriminate|]); apply elem_of_nil in H.
  - simpl. set_solver.
  - simpl. lia.
  - intros x [->| ->] _; split; vm_compute; try done; by intros ?%elem_of_nil.
  - exists t', s'. split_and!; [exact E| |exact Hc]. rewrite Hel. vm_compute. reflexivity.
Defined.

(** Taking out a process without children. *)
Lemma wait_unlink_lookup s ps kids p q :
  ptab_inv None s ps kids → p ∈ kids q → kids p = [] →
  ∃ s' ps' kids', wait_unlink p s = Ok (tt, s') ∧ ps ≡ₚ p :: ps' ∧ ptab_inv None s' ps' kids' ∧
    (∀ q, kids' q = filter (λ c, c ≠ p) (kids q)) ∧
    ∀ pid, find_proc pid s' = Ok (if pid =? pid_of s p then None else lookup_pid s ps pid, s').
Proof.
  intros Hi Hk Hnk. pose proof (pt_family _ _ _ _ Hi) as Hf.
  pose proof Hk as [Hp Hpar]%(fam_kids _ _ _ _ _ Hf).
  apply list_elem_of_split in Hp as (a & b & ->). apply list_elem_of_split in Hk as (l1 & l2 & Ek).
  destruct (wait_unlink_spec s a p b kids q l1 l2 Hi Hnk Hpar Ek) as (s' & E & Hi' & Hlo & _).
  exists s', (a ++ b), (upd q (l1 ++ l2) kids). split_and!; [done|by rewrite Permutation_middle|done|..].
  - intros r. pose proof (fam_nodup _ _ _ _ _ Hf r) as Hnd. destruct (decide (q = r)) as [<-|Hr].
    + rewrite upd_eq, Ek in *. rewrite filter_app, filter_cons_False by naive_solver.
      apply NoDup_app in Hnd as (_ & Hd & [Hpb _]%NoDup_cons).
      rewrite !filter_all; [done|..]; intros x Hx ->; [done|]. apply (Hd p Hx). by left.
    + rewrite upd_ne by done. symmetry. apply filter_all. intros x Hx ->.
      apply (fam_kids _ _ _ _ _ Hf) in Hx as [_ Hx]. congruence.
  - intros pid. rewrite (find_proc_spec _ _ _ _ pid Hi'). f_equal. f_equal.
    rewrite (lookup_pid_ext s s') by (intros x _; apply (links_only_fields _ _ x Hlo)).
    unfold lookup_pid. rewrite !filter_app, filter_cons. destruct (Z.eqb_spec pid (pid_of s p)) as [->|Hne].
    + pose proof (pt_distinct _ _ _ _ Hi) as Hd. unfold pids in Hd. rewrite <-Permutation_middle in Hd.
      apply NoDup_cons in Hd as [Hd _].
      rewrite <-filter_app, filter_none; [done|]. intros x Hx Ex. apply Hd. apply list_elem_of_fmap. by exists x.
    + by rewrite decide_False by done.
Qed.

(** C19. [do_wait] looks at the right processes and reaps them completely.
    [wait_find] chooses the child with the given pid, or for pid 0 any child,
    that is a zombie, and says whether there is a child to wait for; a zombie
    without children that is then taken out leaves a well-formed table in which
    [find_proc] of its pid finds nothing and of every other pid what it found. *)
Theorem wait_reaps_zombie s ps kids pid :
  ptab_inv None s ps kids → current (psc s) ∈ idleproc (psc s) :: ps →
  (∀ z, z ∈ ps → p_state (procs (psc s) z) = PROC_ZOMBIE → kids z = []) →
  ∃ p, wait_find pid s =
    Ok ((p, existsb (λ c, ((pid =? 0) || (pid =? pid_of s c))%bool) (kids (current (psc s)))), s) ∧
  match p with
  | None => ∀ c, c ∈ kids (current (psc s)) → pid = 0 ∨ pid = pid_of s c → p_state (procs (psc s) c) ≠ PROC_ZOMBIE
  | Some p => p ∈ kids (current (psc s)) ∧ (pid = 0 ∨ pid = pid_of s p) ∧ p_state (procs (psc s) p) = PROC_ZOMBIE ∧
    ∃ s' ps' kids', wait_unlink p s = Ok (tt, s') ∧ ps ≡ₚ p :: ps' ∧ ptab_inv None s' ps' kids' ∧
      (∀ q, kids' q = filter (λ c, c ≠ p) (kids q)) ∧
      ∀ pid', find_proc pid' s' = Ok (if pid' =? pid_of s p then None else lookup_pid s ps pid', s')
  end.
Proof.
  intros Hi Hcur Hz. rewrite (wait_find_spec s ps kids pid Hi Hcur). unfold wait_choice.
  set (l := kids (current (psc s))).
  assert ((if pid =? 0 then l else filter (λ p, pid_of s p = pid) l) = filter (λ p, pid = 0 ∨ pid = pid_of s p) l) as ->.
  { destruct (Z.eqb_spec pid 0) as [->|?]; [by rewrite filter_all by naive_solver|]. apply list_filter_iff. naive_solver. }
  set (c := filter (λ p, pid = 0 ∨ pid = pid_of s p) l).
  assert (negb (bool_decide (c = [])) = existsb (λ c, ((pid =? 0) || (pid =? pid_of s c))%bool) l) as ->.
  { unfold c. clear. induction l as [|x l IH]; [done|]. rewrite filter_cons. cbn [existsb]. rewrite <-IH.
    destruct (Z.eqb_spec pid 0), (Z.eqb_spec pid (pid_of s x)); simpl;
      (rewrite decide_True by naive_solver; done) || (rewrite decide_False by naive_solver; done). }
  eexists. split; [reflexivity|].
  destruct (head (filter (λ p, p_state (procs (psc s) p) = PROC_ZOMBIE) c)) as [p|] eqn:Eh.
  - assert (p ∈ filter (λ p, p_state (procs (psc s) p) = PROC_ZOMBIE) c) as Hin.
    { destruct (filter _ c); simplify_eq/=. by left. }
    apply list_elem_of_filter in Hin as [Hpz [Hpp Hpl]%list_elem_of_filter]. split_and!; [done..|].
    eapply wait_unlink_lookup; [done|exact Hpl|]. apply Hz; [|done].
    by apply (fam_kids _ _ _ _ _ (pt_family _ _ _ _ Hi)) in Hpl as [? _].
  - intros x Hx Hp Hxz. destruct (filter (λ p, p_state (procs (psc s) p) = PROC_ZOMBIE) c) eqn:Ec; [|done].
    eapply (not_elem_of_nil x). rewrite <-Ec. apply list_elem_of_filter. split; [done|]. by apply list_elem_of_filter.
Qed.

Lemma wait_reaps_zombie_witness :
  ∃ s' ps', wait_find 0 (forked [4; 3; 2; 1]) = Ok ((Some 4, true), forked [4; 3; 2; 1]) ∧
    wait_unlink 4 (forked [4; 3; 2; 1]) = Ok (tt, s') ∧ [4; 3; 2; 1] ≡ₚ 4 :: ps' ∧
    find_proc 4 s' = Ok (None, s') ∧ find_proc 3 s' = Ok (Some 3, s').
Proof.
  destruct (wait_reaps_zombie (forked [4; 3; 2; 1]) [4; 3; 2; 1] example_kids 0) as (p & E & Hp).
  - apply forked_inv.
  - vm_compute. right. right. right. by left.
  - intros z Hz. repeat (apply elem_of_cons in Hz as [->|Hz]; [vm_compute; done|]). by apply elem_of_nil in Hz.
  - assert (p = Some 4) as ->.
    { pose proof (f_equal (λ r : res (option Z * bool * ptab), match r with Ok ((p, _), _) => p | _ => None end) E) as Ep.
      vm_compute in Ep. by rewrite <-Ep. }
    destruct Hp as (_ & _ & _ & s' & ps' & kids' & E1 & E2 & _ & _ & E3). exists s', ps'.
    split_and!; [rewrite E; vm_compute; reflexivity|exact E1|exact E2|by rewrite E3|by rewrite E3].
Defined.
