(* ===== verification/Vfs.v ===== *)
(** * The virtual file system layer

    kern/fs/iobuf.c and kern/fs/vfs: inodes with their reference and open counts,
    the operation tables of the file systems ([struct inode_ops]) as an interface,
    path lookup, opening and closing, working directories, the boot file system and
    the list of devices.  The state also holds the open file tables of the
    processes (kern/fs/fs.h), which file.c and fs.c work on, and the user and kernel
    memory that I/O moves data between.  Inodes, file systems and [files_struct]s
    are named by integers, C strings by their address in memory. The semaphores
    that protect the lists ([lock_vdev_list], [lock_bootfs], [lock_cfs]) are not
    part of this state: the functions below are what runs while they are held. *)

From S2P Require Import Prelude ListH CString Vmm.

(** ** Data *)

(** libs/unistd.h *)
Definition O_RDONLY : Z := 0.
Definition O_WRONLY : Z := 1.
Definition O_RDWR : Z := 2.
Definition O_CREAT : Z := 0x00000004.
Definition O_EXCL : Z := 0x00000008.
Definition O_TRUNC : Z := 0x00000010.
Definition O_APPEND : Z := 0x00000020.
Definition O_ACCMODE : Z := 3.
Definition NO_FD : Z := -0x9527.
Definition LSEEK_SET : Z := 0.
Definition LSEEK_CUR : Z := 1.
Definition LSEEK_END : Z := 2.
Definition FS_MAX_DNAME_LEN : Z := 31.
Definition FS_MAX_FPATH_LEN : Z := 4095.

(** libs/stat.h *)
Record stat := Stat { st_mode : Z; st_nlinks : Z; st_blocks : Z; st_size : Z }.
Definition S_IFMT : Z := 0x7000.
Definition S_IFREG : Z := 0x1000.
Definition S_IFDIR : Z := 0x2000.
Definition S_IFCHR : Z := 0x4000.
Definition S_IFBLK : Z := 0x5000.
Definition S_ISDIR (mode : Z) : bool := Z.land mode S_IFMT =? S_IFDIR.

(** [struct iobuf] *)
Record iobuf := Iobuf { io_base : Z; io_offset : Z; io_len : Z; io_resid : Z }.

Definition iobuf_used (iob : iobuf) : Z := u64 (io_len iob - io_resid iob).

(** The variants of [in_info] and the operation tables of the kernel. *)
Inductive inode_type := inode_type_pipe_info | inode_type_device_info | inode_type_sfs_inode_info.
Inductive ops_kind := pipe_node_ops | dev_node_ops | sfs_node_dirops | sfs_node_fileops.

#[global] Instance inode_type_eq_dec : EqDecision inode_type.
Proof. solve_decision. Defined.

(** [struct file] *)
Inductive fd_status := FD_NONE | FD_INIT | FD_OPENED | FD_CLOSED.

#[global] Instance fd_status_eq_dec : EqDecision fd_status.
Proof. solve_decision. Defined.

Record file := File {
  fl_status : fd_status;
  fl_readable : bool;
  fl_writable : bool;
  fl_fd : Z;
  fl_pos : Z;
  fl_node : option Z;
  fl_open_count : Z;
}.

(** [vfs_dev_t] *)
Record vfs_dev := VfsDev {
  vd_name : Z;
  vd_node : option Z;
  vd_fs : option Z;
  vd_mountable : bool;
}.

(** The state: fields of all inodes ([i_]), of all [files_struct]s ([f_]), what
    [current] points at, the lists of the VFS, memory, and the data of the file
    systems. *)
Record vst (F : Type) := Vst {
  i_ref : Z → Z;
  i_open : Z → Z;
  i_type : Z → inode_type;
  i_ops : Z → option ops_kind;
  i_fs : Z → option Z;
  f_pwd : Z → option Z;
  f_array : Z → Z → file;
  f_count : Z → Z;
  cur_filesp : option Z;
  bootfs_node : option Z;
  vdev_list : list vfs_dev;
  cur_mm : option Z;
  k_vmm : vmm;
  k_mem : mem;
  fsd : F;
}.
Arguments i_ref {F}.
Arguments i_open {F}.
Arguments i_type {F}.
Arguments i_ops {F}.
Arguments i_fs {F}.
Arguments f_pwd {F}.
Arguments f_array {F}.
Arguments f_count {F}.
Arguments cur_filesp {F}.
Arguments bootfs_node {F}.
Arguments vdev_list {F}.
Arguments cur_mm {F}.
Arguments k_vmm {F}.
Arguments k_mem {F}.
Arguments fsd {F}.
Arguments Vst {F}.

Definition set_i_ref {F} (n : Z) (v : Z) (s : vst F) : vst F :=
  Vst (upd n v (i_ref s)) (i_open s) (i_type s) (i_ops s) (i_fs s) (f_pwd s) (f_array s) (f_count s)
    (cur_filesp s) (bootfs_node s) (vdev_list s) (cur_mm s) (k_vmm s) (k_mem s) (fsd s).
Definition set_i_open {F} (n : Z) (v : Z) (s : vst F) : vst F :=
  Vst (i_ref s) (upd n v (i_open s)) (i_type s) (i_ops s) (i_fs s) (f_pwd s) (f_array s) (f_count s)
    (cur_filesp s) (bootfs_node s) (vdev_list s) (cur_mm s) (k_vmm s) (k_mem s) (fsd s).
Definition set_i_type {F} (n : Z) (v : inode_type) (s : vst F) : vst F :=
  Vst (i_ref s) (i_open s) (upd n v (i_type s)) (i_ops s) (i_fs s) (f_pwd s) (f_array s) (f_count s)
    (cur_filesp s) (bootfs_node s) (vdev_list s) (cur_mm s) (k_vmm s) (k_mem s) (fsd s).
Definition set_i_ops {F} (n : Z) (v : option ops_kind) (s : vst F) : vst F :=
  Vst (i_ref s) (i_open s) (i_type s) (upd n v (i_ops s)) (i_fs s) (f_pwd s) (f_array s) (f_count s)
    (cur_filesp s) (bootfs_node s) (vdev_list s) (cur_mm s) (k_vmm s) (k_mem s) (fsd s).
Definition set_i_fs {F} (n : Z) (v : option Z) (s : vst F) : vst F :=
  Vst (i_ref s) (i_open s) (i_type s) (i_ops s) (upd n v (i_fs s)) (f_pwd s) (f_array s) (f_count s)
    (cur_filesp s) (bootfs_node s) (vdev_list s) (cur_mm s) (k_vmm s) (k_mem s) (fsd s).
Definition set_f_pwd {F} (p : Z) (v : option Z) (s : vst F) : vst F :=
  Vst (i_ref s) (i_open s) (i_type s) (i_ops s) (i_fs s) (upd p v (f_pwd s)) (f_array s) (f_count s)
    (cur_filesp s) (bootfs_node s) (vdev_list s) (cur_mm s) (k_vmm s) (k_mem s) (fsd s).
Definition set_f_file {F} (p : Z) (fd : Z) (v : file) (s : vst F) : vst F :=
  Vst (i_ref s) (i_open s) (i_type s) (i_ops s) (i_fs s) (f_pwd s) (upd p (upd fd v (f_array s p)) (f_array
    s)) (f_count s) (cur_filesp s) (bootfs_node s) (vdev_list s) (cur_mm s) (k_vmm s) (k_mem s) (fsd s).
Definition set_f_count {F} (p : Z) (v : Z) (s : vst F) : vst F :=
  Vst (i_ref s) (i_open s) (i_type s) (i_ops s) (i_fs s) (f_pwd s) (f_array s) (upd p v (f_count s))
    (cur_filesp s) (bootfs_node s) (vdev_list s) (cur_mm s) (k_vmm s) (k_mem s) (fsd s).
Definition set_cur_filesp {F} (v : option Z) (s : vst F) : vst F :=
  Vst (i_ref s) (i_open s) (i_type s) (i_ops s) (i_fs s) (f_pwd s) (f_array s) (f_count s) v (bootfs_node s)
    (vdev_list s) (cur_mm s) (k_vmm s) (k_mem s) (fsd s).
Definition set_bootfs_node {F} (v : option Z) (s : vst F) : vst F :=
  Vst (i_ref s) (i_open s) (i_type s) (i_ops s) (i_fs s) (f_pwd s) (f_array s) (f_count s) (cur_filesp s) v
    (vdev_list s) (cur_mm s) (k_vmm s) (k_mem s) (fsd s).
Definition set_vdev_list {F} (v : list vfs_dev) (s : vst F) : vst F :=
  Vst (i_ref s) (i_open s) (i_type s) (i_ops s) (i_fs s) (f_pwd s) (f_array s) (f_count s) (cur_filesp s)
    (bootfs_node s) v (cur_mm s) (k_vmm s) (k_mem s) (fsd s).
Definition set_k_vm_mem {F} (v : vmm) (s : vst F) : vst F :=
  Vst (i_ref s) (i_open s) (i_type s) (i_ops s) (i_fs s) (f_pwd s) (f_array s) (f_count s) (cur_filesp s)
    (bootfs_node s) (vdev_list s) (cur_mm s) v (k_mem s) (fsd s).
Definition set_k_mem {F} (v : mem) (s : vst F) : vst F :=
  Vst (i_ref s) (i_open s) (i_type s) (i_ops s) (i_fs s) (f_pwd s) (f_array s) (f_count s) (cur_filesp s)
    (bootfs_node s) (vdev_list s) (cur_mm s) (k_vmm s) v (fsd s).
Definition set_fsd {F} (v : F) (s : vst F) : vst F :=
  Vst (i_ref s) (i_open s) (i_type s) (i_ops s) (i_fs s) (f_pwd s) (f_array s) (f_count s) (cur_filesp s)
    (bootfs_node s) (vdev_list s) (cur_mm s) (k_vmm s) (k_mem s) v.

Definition on_mem_k {F A} (m : M mem A) : M (vst F) A := zoom k_mem set_k_mem m.

(** ** kern/fs/vfs/inode.h: the interface to the file systems

    A table without an operation has [None] there. *)
Record inode_ops (S : Type) := InodeOps {
  vop_open : option (Z → Z → M S Z);
  vop_close : option (Z → M S Z);
  vop_read : option (Z → iobuf → M S (Z * iobuf));
  vop_write : option (Z → iobuf → M S (Z * iobuf));
  vop_fstat : option (Z → M S (Z * stat));
  vop_fsync : option (Z → M S Z);
  vop_namefile : option (Z → iobuf → M S (Z * iobuf));
  vop_getdirentry : option (Z → iobuf → M S (Z * iobuf));
  vop_reclaim : option (Z → M S Z);
  vop_gettype : option (Z → M S (Z * Z));
  vop_tryseek : option (Z → Z → M S Z);
  vop_truncate : option (Z → Z → M S Z);
  vop_create : option (Z → Z → bool → M S (Z * option Z));
  vop_lookup : option (Z → Z → M S (Z * option Z));
  vop_ioctl : option (Z → Z → Z → M S Z);
}.
Arguments vop_open {S}.
Arguments vop_close {S}.
Arguments vop_read {S}.
Arguments vop_write {S}.
Arguments vop_fstat {S}.
Arguments vop_fsync {S}.
Arguments vop_namefile {S}.
Arguments vop_getdirentry {S}.
Arguments vop_reclaim {S}.
Arguments vop_gettype {S}.
Arguments vop_tryseek {S}.
Arguments vop_truncate {S}.
Arguments vop_create {S}.
Arguments vop_lookup {S}.
Arguments vop_ioctl {S}.

(** The operations of [struct fs]. *)
Record fs_ops (S : Type) := FsOps {
  fs_sync : Z → M S Z;
  fs_get_root : Z → M S (option Z);
  fs_unmount : Z → M S Z;
  fs_cleanup : Z → M S unit;
}.
Arguments fs_sync {S}.
Arguments fs_get_root {S}.
Arguments fs_unmount {S}.
Arguments fs_cleanup {S}.

(** ** kern/fs/iobuf.c *)

Definition iobuf_init (base len offset : Z) : iobuf := Iobuf base offset len len.

Definition iobuf_skip {F} (iob : iobuf) (n : Z) : M (vst F) iobuf :=
  assert (n <=? io_resid iob);;
  mret (Iobuf (io_base iob + n) (io_offset iob + n) (io_len iob) (io_resid iob - n)).

(** The results are the return value, [*copiedp] and the buffer. *)
Definition iobuf_move {F} (iob : iobuf) (data len : Z) (m2b : bool) : M (vst F) (Z * Z * iobuf) :=
  let alen := if len <? io_resid iob then len else io_resid iob in
  iob ← (if 0 <? alen then
           (if m2b then on_mem_k (memmove (io_base iob) data alen)
            else on_mem_k (memmove data (io_base iob) alen));;
           iobuf_skip iob alen
         else mret iob);
  let len := if 0 <? alen then len - alen else len in
  mret (if len =? 0 then 0 else - E_NO_MEM, alen, iob).

Definition iobuf_move_zeros {F} (iob : iobuf) (len : Z) : M (vst F) (Z * Z * iobuf) :=
  let alen := if len <? io_resid iob then len else io_resid iob in
  iob ← (if 0 <? alen then
           on_mem_k (memset (io_base iob) 0 alen);;
           iobuf_skip iob alen
         else mret iob);
  let len := if 0 <? alen then len - alen else len in
  mret (if len =? 0 then 0 else - E_NO_MEM, alen, iob).

Section vfs.
Context {F : Type} (ops : ops_kind → inode_ops (vst F)) (fsops : fs_ops (vst F)).
(** Bounds the length of the C strings that are scanned. *)
Context (fuel : nat).

Notation st := (vst F).

(** ** kern/fs/vfs/inode.c *)

Definition MAX_INODE_COUNT : Z := 0x10000.

Definition inode_check (node : Z) : M st unit :=
  asserts (λ s, bool_decide (i_ops s node ≠ None));;
  asserts (λ s, ((i_open s node <=? i_ref s node) && (0 <=? i_open s node))%bool);;
  asserts (λ s, ((i_ref s node <? MAX_INODE_COUNT) && (i_open s node <? MAX_INODE_COUNT))%bool).

(** [__vop_op(node, sym)]: the operation of the inode's table. *)
Definition vop_op {A} (sym : inode_ops st → option A) (node : Z) : M st A :=
  k ← gets (λ s, i_ops s node);
  match k ≫= λ k, sym (ops k) with
  | None => panic
  | Some op => inode_check node;; mret op
  end.

(** [kmalloc] returned [got]. *)
Definition __alloc_inode (got : option Z) (type : inode_type) : M st (option Z) :=
  match got with
  | Some node => modify (set_i_type node type);; mret (Some node)
  | None => mret None
  end.

Definition inode_ref_inc (node : Z) : M st Z :=
  modify (λ s, set_i_ref node (s32 (i_ref s node + 1)) s);;
  gets (λ s, i_ref s node).

Definition inode_init (node : Z) (k : ops_kind) (fs : option Z) : M st unit :=
  modify (set_i_ref node 0);;
  modify (set_i_open node 0);;
  modify (set_i_ops node (Some k));;
  modify (set_i_fs node fs);;
  inode_ref_inc node;;
  mret tt.

Definition inode_kill (node : Z) : M st unit :=
  asserts (λ s, i_ref s node =? 0);;
  asserts (λ s, i_open s node =? 0).

Definition inode_ref_dec (node : Z) : M st Z :=
  asserts (λ s, 0 <? i_ref s node);;
  modify (λ s, set_i_ref node (i_ref s node - 1) s);;
  ref_count ← gets (λ s, i_ref s node);
  when (ref_count =? 0) (op ← vop_op vop_reclaim node; op node;; mret tt);;
  mret ref_count.

Definition inode_open_inc (node : Z) : M st Z :=
  modify (λ s, set_i_open node (s32 (i_open s node + 1)) s);;
  gets (λ s, i_open s node).

Definition inode_open_dec (node : Z) : M st Z :=
  asserts (λ s, 0 <? i_open s node);;
  modify (λ s, set_i_open node (i_open s node - 1) s);;
  open_count ← gets (λ s, i_open s node);
  when (open_count =? 0) (op ← vop_op vop_close node; op node;; mret tt);;
  mret open_count.

(** ** kern/fs/vfs/vfspath.c: the working directory *)

(** [current->filesp]; it is not [NULL] in a process that does file I/O. *)
Definition get_filesp : M st Z :=
  p ← gets cur_filesp;
  match p with Some p => mret p | None => panic end.

Definition get_cwd_nolock : M st (option Z) := p ← get_filesp; gets (λ s, f_pwd s p).

Definition set_cwd_nolock (pwd : option Z) : M st unit := p ← get_filesp; modify (set_f_pwd p pwd).

Definition vfs_get_curdir : M st (Z * option Z) :=
  node ← get_cwd_nolock;
  match node with
  | Some n => inode_ref_inc n;; mret (0, Some n)
  | None => mret (- E_NOENT, None)
  end.

Definition vfs_set_curdir (dir : option Z) : M st Z :=
  old_dir ← get_cwd_nolock;
  if bool_decide (old_dir = dir) then mret 0
  else
    ret ← (match dir with
           | Some d =>
             op ← vop_op vop_gettype d;
             '(ret, type) ← op d;
             if negb (ret =? 0) then mret ret
             else if negb (S_ISDIR type) then mret (- E_NOTDIR)
             else inode_ref_inc d;; mret 0
           | None => mret 0
           end);
    if negb (ret =? 0) then mret ret
    else
      set_cwd_nolock dir;;
      (match old_dir with Some o => inode_ref_dec o;; mret tt | None => mret tt end);;
      mret 0.

(** ** kern/fs/vfs/vfs.c: the boot file system *)

Definition change_bootfs (node : option Z) : M st unit :=
  old ← gets bootfs_node;
  modify (set_bootfs_node node);;
  match old with Some o => inode_ref_dec o;; mret tt | None => mret tt end.

Definition vfs_get_bootfs : M st (Z * option Z) :=
  node ← gets bootfs_node;
  match node with
  | Some n => inode_ref_inc n;; mret (0, Some n)
  | None => mret (- E_NOENT, None)
  end.

(** ** kern/fs/vfs/vfsdev.c *)

Definition vfs_devlist_init : M st unit := modify (set_vdev_list []).

Definition vfs_cleanup : M st unit :=
  l ← gets vdev_list;
  foldr (λ vd m, (match vd_fs vd with Some fs => fs_cleanup fsops fs | None => mret tt end);; m) (mret tt) l.

(** The loop of [vfs_get_root]. *)
Fixpoint get_root_walk (l : list vfs_dev) (devname : Z) : M st (Z * option Z) :=
  match l with
  | [] => mret (- E_NO_DEV, None)
  | vd :: l' =>
    c ← on_mem_k (strcmp fuel devname (vd_name vd));
    if c =? 0 then
      found ← (match vd_fs vd with
               | Some fs => fs_get_root fsops fs
               | None =>
                 if negb (vd_mountable vd) then
                   match vd_node vd with
                   | Some n => inode_ref_inc n;; mret (Some n)
                   | None => panic
                   end
                 else mret None
               end);
      mret (match found with Some n => (0, Some n) | None => (- E_NA_DEV, None) end)
    else get_root_walk l' devname
  end.

Definition vfs_get_root (devname : Z) : M st (Z * option Z) :=
  l ← gets vdev_list; get_root_walk l devname.

Definition vfs_get_devname (fs : Z) : M st (option Z) :=
  l ← gets vdev_list;
  mret (vd_name <$> head (filter (λ vd, vd_fs vd = Some fs) l)).

(** [true] when no device has the name. *)
Fixpoint devname_walk (l : list vfs_dev) (devname : Z) : M st bool :=
  match l with
  | [] => mret true
  | vd :: l' =>
    c ← on_mem_k (strcmp fuel (vd_name vd) devname);
    if c =? 0 then mret false else devname_walk l' devname
  end.

Definition check_devname_conflict (devname : Z) : M st bool :=
  l ← gets vdev_list; devname_walk l devname.

(** [s_devname] and [vdev] are the results of the two allocations; [strdup]
    copies the name. *)
Definition vfs_do_add (s_devname : option Z) (vdev : bool) (devname : Z) (devnode fs : option Z) (mountable : bool) : M st Z :=
  asserts (λ s, match devnode with
                | None => negb mountable
                | Some n => bool_decide (i_type s n = inode_type_device_info)
                end);;
  len ← on_mem_k (strlen fuel devname);
  if FS_MAX_DNAME_LEN <? len then mret (- E_TOO_BIG)
  else
    match s_devname with
    | None => mret (- E_NO_MEM)
    | Some name =>
      on_mem_k (strcpy fuel name devname);;
      if negb vdev then mret (- E_NO_MEM)
      else
        ok ← check_devname_conflict name;
        if negb ok then mret (- E_EXISTS)
        else
          modify (λ s, set_vdev_list (VfsDev name devnode fs mountable :: vdev_list s) s);;
          mret 0
    end.

Definition vfs_add_fs (s_devname : option Z) (vdev : bool) (devname fs : Z) : M st Z :=
  vfs_do_add s_devname vdev devname None (Some fs) false.

Definition vfs_add_dev (s_devname : option Z) (vdev : bool) (devname devnode : Z) (mountable : bool) : M st Z :=
  vfs_do_add s_devname vdev devname (Some devnode) None mountable.

(** The index of the mountable device in the list. *)
Fixpoint find_mount_walk (l : list vfs_dev) (i : nat) (devname : Z) : M st (option (nat * vfs_dev)) :=
  match l with
  | [] => mret None
  | vd :: l' =>
    if vd_mountable vd then
      c ← on_mem_k (strcmp fuel (vd_name vd) devname);
      if c =? 0 then mret (Some (i, vd)) else find_mount_walk l' (S i) devname
    else find_mount_walk l' (S i) devname
  end.

Definition find_mount (devname : Z) : M st (option (nat * vfs_dev)) :=
  l ← gets vdev_list; find_mount_walk l 0 devname.

(** [vdev->fs = fs] *)
Definition set_vdev_fs (i : nat) (fs : option Z) : M st unit :=
  modify (λ s, set_vdev_list
    (alter (λ vd, VfsDev (vd_name vd) (vd_node vd) fs (vd_mountable vd)) i (vdev_list s)) s).

Definition vfs_mount (devname : Z) (mountfunc : Z → M st (Z * option Z)) : M st Z :=
  r ← find_mount devname;
  match r with
  | None => mret (- E_NO_DEV)
  | Some (i, vd) =>
    match vd_fs vd with
    | Some _ => mret (- E_BUSY)
    | None =>
      assert (vd_mountable vd);;
      match vd_node vd with
      | None => panic
      | Some node =>
        asserts (λ s, bool_decide (i_type s node = inode_type_device_info));;
        '(ret, fs) ← mountfunc node;
        if ret =? 0 then
          set_vdev_fs i fs;;
          assert (bool_decide (fs ≠ None));;
          mret 0
        else mret ret
      end
    end
  end.

Definition vfs_unmount (devname : Z) : M st Z :=
  r ← find_mount devname;
  match r with
  | None => mret (- E_NO_DEV)
  | Some (i, vd) =>
    match vd_fs vd with
    | None => mret (- E_INVAL)
    | Some fs =>
      assert (vd_mountable vd);;
      ret ← fs_sync fsops fs;
      if negb (ret =? 0) then mret ret
      else
        ret ← fs_unmount fsops fs;
        when (ret =? 0) (set_vdev_fs i None);;
        mret ret
    end
  end.

Fixpoint unmount_walk (n i : nat) : M st unit :=
  match n with
  | O => mret tt
  | S n' =>
    vd ← gets (λ s, vdev_list s !! i);
    (match vd with
     | Some vd =>
       match vd_mountable vd, vd_fs vd with
       | true, Some fs =>
         ret ← fs_sync fsops fs;
         when (ret =? 0)
           (ret ← fs_unmount fsops fs;
            when (ret =? 0) (set_vdev_fs i None))
       | _, _ => mret tt
       end
     | None => mret tt
     end);;
    unmount_walk n' (S i)
  end.

Definition vfs_unmount_all : M st Z :=
  n ← gets (λ s, length (vdev_list s)); unmount_walk n 0;; mret 0.

(** ** kern/fs/vfs/vfslookup.c *)

(** The scan of [get_device]: the positions of a colon or of a slash, whichever
    comes first. *)
Fixpoint scan_path (n : nat) (path i : Z) : M st (Z * Z) :=
  match n with
  | O => out_of_fuel
  | S n' =>
    c ← on_mem_k (load (path + i));
    if c =? 0 then mret (-1, -1)
    else if c =? 58 then mret (i, -1)
    else if c =? 47 then mret (-1, i)
    else scan_path n' path (i + 1)
  end.

(** [while ( *(++ p) == '/');] *)
Fixpoint skip_slashes (n : nat) (p : Z) : M st Z :=
  match n with
  | O => out_of_fuel
  | S n' =>
    c ← on_mem_k (load (p + 1));
    if c =? 47 then skip_slashes n' (p + 1) else mret (p + 1)
  end.

(** The return value, [*subpath] and [*node_store]. *)
Definition get_device (path : Z) : M st (Z * Z * option Z) :=
  '(colon, slash) ← scan_path fuel path 0;
  if ((colon <? 0) && negb (slash =? 0))%bool then
    '(ret, node) ← vfs_get_curdir; mret (ret, path, node)
  else if 0 <? colon then
    on_mem_k (put (path + colon) 0);;
    subpath ← skip_slashes fuel (path + colon);
    '(ret, node) ← vfs_get_root path; mret (ret, subpath, node)
  else
    c ← on_mem_k (load path);
    '(ret, node) ←
      (if c =? 47 then vfs_get_bootfs
       else
         assert (c =? 58);;
         '(ret, cur) ← vfs_get_curdir;
         match cur with
         | None => mret (ret, None)
         | Some n =>
           fs ← gets (λ s, i_fs s n);
           match fs with
           | None => panic
           | Some fs => root ← fs_get_root fsops fs; inode_ref_dec n;; mret (0, root)
           end
         end);
    if negb (ret =? 0) then mret (ret, path, None)
    else subpath ← skip_slashes fuel path; mret (0, subpath, node).

Definition vfs_lookup (path : Z) : M st (Z * option Z) :=
  '(ret, path, node) ← get_device path;
  if negb (ret =? 0) then mret (ret, None)
  else
    match node with
    | None => panic
    | Some n =>
      c ← on_mem_k (load path);
      if negb (c =? 0) then
        op ← vop_op vop_lookup n;
        '(ret, found) ← op n path;
        inode_ref_dec n;;
        mret (ret, found)
      else mret (0, Some n)
    end.

(** [*endp] is the path behind the device. *)
Definition vfs_lookup_parent (path : Z) : M st (Z * option Z * Z) :=
  '(ret, path', node) ← get_device path;
  if negb (ret =? 0) then mret (ret, None, path) else mret (0, node, path').

(** ** kern/fs/vfs/vfspath.c: by path *)

Definition vfs_chdir (path : Z) : M st Z :=
  '(ret, node) ← vfs_lookup path;
  if ret =? 0 then
    match node with
    | None => panic
    | Some n => ret ← vfs_set_curdir (Some n); inode_ref_dec n;; mret ret
    end
  else mret ret.

(** [colon] is the address of the local variable of that name. *)
Definition vfs_getcwd (colon : Z) (iob : iobuf) : M st (Z * iobuf) :=
  '(ret, node) ← vfs_get_curdir;
  match node with
  | None => mret (ret, iob)
  | Some n =>
    fs ← gets (λ s, i_fs s n);
    match fs with
    | None => panic
    | Some fs =>
      name ← vfs_get_devname fs;
      match name with
      | None => panic
      | Some name =>
        len ← on_mem_k (strlen fuel name);
        '(ret, _, iob) ← iobuf_move iob name len true;
        '(ret, iob) ←
          (if negb (ret =? 0) then mret (ret, iob)
           else
             on_mem_k (put colon 58);;
             '(ret, _, iob) ← iobuf_move iob colon 1 true;
             if negb (ret =? 0) then mret (ret, iob)
             else op ← vop_op vop_namefile n; op n iob);
        inode_ref_dec n;;
        mret (ret, iob)
      end
    end
  end.

Definition vfs_set_bootfs (fsname : option Z) : M st Z :=
  match fsname with
  | None => change_bootfs None;; mret 0
  | Some fsname =>
    s ← on_mem_k (strchr fuel fsname 58);
    ok ← (match s with Some p => c ← on_mem_k (load (p + 1)); mret (c =? 0) | None => mret false end);
    if negb ok then mret (- E_INVAL)
    else
      ret ← vfs_chdir fsname;
      if negb (ret =? 0) then mret ret
      else
        '(ret, node) ← vfs_get_curdir;
        if negb (ret =? 0) then mret ret
        else change_bootfs node;; mret 0
  end.

(** ** kern/fs/vfs/vfsfile.c *)

(** [node] in C keeps an indeterminate value when [vop_create] fails; the
    assertion that follows then fails here. *)
Definition vfs_open (path open_flags : Z) : M st (Z * option Z) :=
  let mode := Z.land open_flags O_ACCMODE in
  let can_write := ((mode =? O_WRONLY) || (mode =? O_RDWR))%bool in
  if negb ((mode =? O_RDONLY) || can_write) then mret (- E_INVAL, None)
  else if (truth (Z.land open_flags O_TRUNC) && negb can_write)%bool then mret (- E_INVAL, None)
  else
    let excl := truth (Z.land open_flags O_EXCL) in
    let create := truth (Z.land open_flags O_CREAT) in
    '(ret, node) ← vfs_lookup path;
    '(ret, node) ←
      (if negb (ret =? 0) then
         if ((ret =? -16) && create)%bool then
           '(ret, dir, name) ← vfs_lookup_parent path;
           if negb (ret =? 0) then mret (ret, None)
           else
             match dir with
             | None => panic
             | Some dir =>
               op ← vop_op vop_create dir;
               '(_, node) ← op dir name excl;
               mret (0, node)
             end
         else mret (ret, None)
       else if (excl && create)%bool then mret (- E_EXISTS, None)
       else mret (0, node));
    if negb (ret =? 0) then mret (ret, None)
    else
      match node with
      | None => panic
      | Some n =>
        op ← vop_op vop_open n;
        ret ← op n open_flags;
        if negb (ret =? 0) then inode_ref_dec n;; mret (ret, None)
        else
          inode_open_inc n;;
          ret ← (if (truth (Z.land open_flags O_TRUNC) || create)%bool
                 then op ← vop_op vop_truncate n; op n 0
                 else mret 0);
          if negb (ret =? 0) then inode_open_dec n;; inode_ref_dec n;; mret (ret, None)
          else mret (0, Some n)
      end.

Definition vfs_close (node : Z) : M st Z := inode_open_dec node;; inode_ref_dec node;; mret 0.

Definition vfs_unlink (path : Z) : M st Z := mret (- E_UNIMP).
Definition vfs_rename (old_path new_path : Z) : M st Z := mret (- E_UNIMP).
Definition vfs_link (old_path new_path : Z) : M st Z := mret (- E_UNIMP).

End vfs.
