(* ===== verification/File.v ===== *)
(** * Open files

    kern/fs/file.c and kern/fs/fs.c: the open file table of a process
    ([files_struct]) and the file operations.  A [struct file *] is the table's
    owner and the index of the entry.  The inode operations are those of [Vfs];
    log output is left out. *)

From S2P Require Import Prelude ListH CString Vmm Vfs.

(** [(PGSIZE - sizeof(struct files_struct)) / sizeof(struct file)]: 48 and 56 bytes
    ([bool] is [long long]). *)
Definition FILES_STRUCT_NENTRY : Z := (PGSIZE - 48) / 56.

(** Field stores. *)
Definition fl_set_status (v : fd_status) (f : file) : file :=
  File v (fl_readable f) (fl_writable f) (fl_fd f) (fl_pos f) (fl_node f) (fl_open_count f).
Definition fl_set_rw (r w : bool) (f : file) : file :=
  File (fl_status f) r w (fl_fd f) (fl_pos f) (fl_node f) (fl_open_count f).
Definition fl_set_fd (v : Z) (f : file) : file :=
  File (fl_status f) (fl_readable f) (fl_writable f) v (fl_pos f) (fl_node f) (fl_open_count f).
Definition fl_set_pos (v : Z) (f : file) : file :=
  File (fl_status f) (fl_readable f) (fl_writable f) (fl_fd f) v (fl_node f) (fl_open_count f).
Definition fl_set_node (v : option Z) (f : file) : file :=
  File (fl_status f) (fl_readable f) (fl_writable f) (fl_fd f) (fl_pos f) v (fl_open_count f).
Definition fl_set_open_count (v : Z) (f : file) : file :=
  File (fl_status f) (fl_readable f) (fl_writable f) (fl_fd f) (fl_pos f) (fl_node f) v.

(** [struct dirent] *)
Record dirent := Dirent { d_offset : Z; d_name : Z }.

Section file.
Context {F : Type} (ops : ops_kind → inode_ops (vst F)) (fsops : fs_ops (vst F)) (fuel : nat).

Notation st := (vst F).

Definition the_file (s : st) (p fd : Z) : file := f_array s p fd.
Definition upd_file (p fd : Z) (g : file → file) : M st unit :=
  modify (λ s, set_f_file p fd (g (f_array s p fd)) s).

(** ** kern/fs/file.c: entries of the table *)

Definition testfd (fd : Z) : bool := ((0 <=? fd) && (fd <? FILES_STRUCT_NENTRY))%bool.

(** The table of the current process. *)
Definition get_fd_array : M st Z :=
  p ← gets cur_filesp;
  match p with
  | Some p => asserts (λ s, 0 <? f_count s p);; mret p
  | None => panic
  end.

Definition fd_array_init (p : Z) : M st unit :=
  for_range 0 (Z.to_nat FILES_STRUCT_NENTRY) (λ fd,
    upd_file p fd (fl_set_open_count 0);;
    upd_file p fd (λ f, fl_set_fd fd (fl_set_status FD_NONE f))).

(** The first free entry from [fd] on, at most [n] tries. *)
Fixpoint find_free_fd (n : nat) (p fd : Z) : M st (option Z) :=
  match n with
  | O => mret None
  | S n' =>
    status ← gets (λ s, fl_status (the_file s p fd));
    if bool_decide (status = FD_NONE) then mret (Some fd) else find_free_fd n' p (fd + 1)
  end.

Definition fd_array_alloc (fd : Z) : M st (Z * option Z) :=
  p ← get_fd_array;
  '(ret, found) ←
    (if fd =? NO_FD then
       r ← find_free_fd (Z.to_nat FILES_STRUCT_NENTRY) p 0;
       mret (match r with Some fd => (0, Some fd) | None => (- E_MAX_OPEN, None) end)
     else if testfd fd then
       status ← gets (λ s, fl_status (the_file s p fd));
       mret (if bool_decide (status = FD_NONE) then (0, Some fd) else (- E_BUSY, None))
     else mret (- E_INVAL, None));
  match found with
  | None => mret (ret, None)
  | Some fd =>
    asserts (λ s, fl_open_count (the_file s p fd) =? 0);;
    upd_file p fd (λ f, fl_set_node None (fl_set_status FD_INIT f));;
    mret (0, Some fd)
  end.

Definition fopen_count_inc (p fd : Z) : M st Z :=
  upd_file p fd (λ f, fl_set_open_count (s32 (fl_open_count f + 1)) f);;
  gets (λ s, fl_open_count (the_file s p fd)).

Definition fopen_count_dec (p fd : Z) : M st Z :=
  upd_file p fd (λ f, fl_set_open_count (s32 (fl_open_count f - 1)) f);;
  gets (λ s, fl_open_count (the_file s p fd)).

Definition fd_array_free (p fd : Z) : M st unit :=
  asserts (λ s, bool_decide (fl_status (the_file s p fd) = FD_INIT ∨ fl_status (the_file s p fd) = FD_CLOSED));;
  asserts (λ s, fl_open_count (the_file s p fd) =? 0);;
  f ← gets (λ s, the_file s p fd);
  when (bool_decide (fl_status f = FD_CLOSED))
    (match fl_node f with Some node => vfs_close ops node;; mret tt | None => panic end);;
  upd_file p fd (fl_set_status FD_NONE).

Definition fd_array_acquire (p fd : Z) : M st unit :=
  asserts (λ s, bool_decide (fl_status (the_file s p fd) = FD_OPENED));;
  fopen_count_inc p fd;;
  mret tt.

Definition fd_array_release (p fd : Z) : M st unit :=
  asserts (λ s, bool_decide (fl_status (the_file s p fd) = FD_OPENED ∨ fl_status (the_file s p fd) = FD_CLOSED));;
  asserts (λ s, 0 <? fl_open_count (the_file s p fd));;
  c ← fopen_count_dec p fd;
  when (c =? 0) (fd_array_free p fd).

Definition fd_array_open (p fd : Z) : M st unit :=
  asserts (λ s, bool_decide (fl_status (the_file s p fd) = FD_INIT ∧ fl_node (the_file s p fd) ≠ None));;
  upd_file p fd (fl_set_status FD_OPENED);;
  fopen_count_inc p fd;;
  mret tt.

Definition fd_array_close (p fd : Z) : M st unit :=
  asserts (λ s, bool_decide (fl_status (the_file s p fd) = FD_OPENED));;
  asserts (λ s, 0 <? fl_open_count (the_file s p fd));;
  upd_file p fd (fl_set_status FD_CLOSED);;
  c ← fopen_count_dec p fd;
  when (c =? 0) (fd_array_free p fd).

Definition fd_array_dup (p_to to p_from from : Z) : M st unit :=
  asserts (λ s, bool_decide (fl_status (the_file s p_to to) = FD_INIT ∧ fl_status (the_file s p_from from) = FD_OPENED));;
  f ← gets (λ s, the_file s p_from from);
  upd_file p_to to (λ t, fl_set_rw (fl_readable f) (fl_writable f) (fl_set_pos (fl_pos f) t));;
  match fl_node f with
  | None => panic
  | Some node =>
    inode_ref_inc node;;
    inode_open_inc node;;
    upd_file p_to to (fl_set_node (Some node));;
    fd_array_open p_to to
  end.

(** [0] and the entry, or [-E_INVAL]. *)
Definition fd2file (fd : Z) : M st (option Z) :=
  if testfd fd then
    p ← get_fd_array;
    f ← gets (λ s, the_file s p fd);
    mret (if bool_decide (fl_status f = FD_OPENED ∧ fl_fd f = fd) then Some p else None)
  else mret None.

Definition file_testfd (fd : Z) (readable writable : bool) : M st bool :=
  r ← fd2file fd;
  match r with
  | None => mret false
  | Some p =>
    f ← gets (λ s, the_file s p fd);
    mret (negb (readable && negb (fl_readable f)) && negb (writable && negb (fl_writable f)))%bool
  end.

(** ** kern/fs/file.c: the file operations *)

(** The switch over the access mode accepts the three modes. *)
Definition file_open (path open_flags : Z) : M st Z :=
  let mode := Z.land open_flags O_ACCMODE in
  let readable := ((mode =? O_RDONLY) || (mode =? O_RDWR))%bool in
  let writable := ((mode =? O_WRONLY) || (mode =? O_RDWR))%bool in
  if negb (readable || writable) then mret (- E_INVAL)
  else
    '(ret, file) ← fd_array_alloc NO_FD;
    match file with
    | None => mret ret
    | Some fd =>
      p ← get_fd_array;
      '(ret, node) ← vfs_open ops fsops fuel path open_flags;
      match node with
      | None => fd_array_free p fd;; mret ret
      | Some n =>
        upd_file p fd (fl_set_pos 0);;
        '(ret, pos) ←
          (if truth (Z.land open_flags O_APPEND) then
             op ← vop_op ops vop_fstat n;
             '(ret, stat) ← op n;
             mret (ret, s64 (st_size stat))
           else mret (0, 0));
        if negb (ret =? 0) then
          vfs_close ops n;;
          fd_array_free p fd;;
          mret ret
        else
          upd_file p fd (fl_set_pos pos);;
          upd_file p fd (λ f, fl_set_rw readable writable (fl_set_node (Some n) f));;
          fd_array_open p fd;;
          gets (λ s, fl_fd (the_file s p fd))
      end
    end.

Definition file_close (fd : Z) : M st Z :=
  r ← fd2file fd;
  match r with
  | None => mret (- E_INVAL)
  | Some p => fd_array_close p fd;; mret 0
  end.

(** The part [file_read] and [file_write] share: the transfer and the new position.
    The results are the return value and [*copied_store]. *)
Definition file_io (sym : inode_ops st → option (Z → iobuf → M st (Z * iobuf))) (p fd base len : Z) : M st (Z * Z) :=
  fd_array_acquire p fd;;
  f ← gets (λ s, the_file s p fd);
  match fl_node f with
  | None => panic
  | Some node =>
    op ← vop_op ops sym node;
    '(ret, iob) ← op node (iobuf_init base len (fl_pos f));
    let copied := iobuf_used iob in
    f ← gets (λ s, the_file s p fd);
    when (bool_decide (fl_status f = FD_OPENED)) (upd_file p fd (λ f, fl_set_pos (s64 (fl_pos f + copied)) f));;
    fd_array_release p fd;;
    mret (ret, copied)
  end.

Definition file_read (fd base len : Z) : M st (Z * Z) :=
  r ← fd2file fd;
  match r with
  | None => mret (- E_INVAL, 0)
  | Some p =>
    f ← gets (λ s, the_file s p fd);
    if negb (fl_readable f) then mret (- E_INVAL, 0)
    else file_io vop_read p fd base len
  end.

Definition file_write (fd base len : Z) : M st (Z * Z) :=
  r ← fd2file fd;
  match r with
  | None => mret (- E_INVAL, 0)
  | Some p =>
    f ← gets (λ s, the_file s p fd);
    if negb (fl_writable f) then mret (- E_INVAL, 0)
    else file_io vop_write p fd base len
  end.

(** An operation on the inode of an open file, between acquire and release. *)
Definition with_node {A} (p fd : Z) (k : Z → M st A) : M st A :=
  fd_array_acquire p fd;;
  f ← gets (λ s, the_file s p fd);
  match fl_node f with
  | None => panic
  | Some node => a ← k node; fd_array_release p fd;; mret a
  end.

Definition file_seek (fd pos whence : Z) : M st Z :=
  r ← fd2file fd;
  match r with
  | None => mret (- E_INVAL)
  | Some p =>
    with_node p fd (λ node,
      '(ret, pos) ←
        (if whence =? LSEEK_SET then mret (0, pos)
         else if whence =? LSEEK_CUR then f ← gets (λ s, the_file s p fd); mret (0, s64 (pos + fl_pos f))
         else if whence =? LSEEK_END then
           op ← vop_op ops vop_fstat node;
           '(ret, stat) ← op node;
           mret (ret, if ret =? 0 then s64 (pos + st_size stat) else pos)
         else mret (- E_INVAL, pos));
      if ret =? 0 then
        op ← vop_op ops vop_tryseek node;
        ret ← op node pos;
        when (ret =? 0) (upd_file p fd (fl_set_pos pos));;
        mret ret
      else mret ret)
  end.

Definition file_fstat (fd : Z) : M st (Z * option stat) :=
  r ← fd2file fd;
  match r with
  | None => mret (- E_INVAL, None)
  | Some p =>
    with_node p fd (λ node,
      op ← vop_op ops vop_fstat node;
      '(ret, stat) ← op node;
      mret (ret, Some stat))
  end.

Definition file_fsync (fd : Z) : M st Z :=
  r ← fd2file fd;
  match r with
  | None => mret (- E_INVAL)
  | Some p => with_node p fd (λ node, op ← vop_op ops vop_fsync node; op node)
  end.

(** [FS_MAX_FNAME_LEN + 1] is the size of [direntp->name]. *)
Definition file_getdirentry (fd : Z) (direntp : dirent) : M st (Z * dirent) :=
  r ← fd2file fd;
  match r with
  | None => mret (- E_INVAL, direntp)
  | Some p =>
    with_node p fd (λ node,
      op ← vop_op ops vop_getdirentry node;
      '(ret, iob) ← op node (iobuf_init (d_name direntp) 256 (d_offset direntp));
      mret (ret, if ret =? 0 then Dirent (s64 (d_offset direntp + iobuf_used iob)) (d_name direntp) else direntp))
  end.

Definition file_dup (fd1 fd2 : Z) : M st Z :=
  r ← fd2file fd1;
  match r with
  | None => mret (- E_INVAL)
  | Some p =>
    '(ret, file2) ← fd_array_alloc fd2;
    match file2 with
    | None => mret ret
    | Some to => fd_array_dup p to p fd1;; gets (λ s, fl_fd (the_file s p to))
    end
  end.

(** [pipe_create] is the call of [pipe_create_inode]. *)
Definition file_pipe (pipe_create : M st (option Z)) : M st (Z * option (Z * Z)) :=
  '(ret, file_in) ← fd_array_alloc NO_FD;
  match file_in with
  | None => mret (ret, None)
  | Some fin =>
    p ← get_fd_array;
    '(ret, file_out) ← fd_array_alloc NO_FD;
    match file_out with
    | None => fd_array_free p fin;; mret (ret, None)
    | Some fout =>
      node ← pipe_create;
      match node with
      | None => fd_array_free p fin;; fd_array_free p fout;; mret (- E_NO_MEM, None)
      | Some n =>
        inode_ref_inc n;;
        inode_open_inc n;;
        inode_open_inc n;;
        upd_file p fin (λ f, fl_set_rw true false (fl_set_node (Some n) (fl_set_pos 0 f)));;
        fd_array_open p fin;;
        upd_file p fout (λ f, fl_set_rw false true (fl_set_node (Some n) (fl_set_pos 0 f)));;
        fd_array_open p fout;;
        fd0 ← gets (λ s, fl_fd (the_file s p fin));
        fd1 ← gets (λ s, fl_fd (the_file s p fout));
        mret (0, Some (fd0, fd1))
      end
    end
  end.

(** ** kern/fs/fs.c *)

(** [kmalloc] returned [got]; the semaphore of the table is set to 1. *)
Definition files_create (got : option Z) : M st (option Z) :=
  match got with
  | Some p =>
    modify (set_f_pwd p None);;
    modify (set_f_count p 0);;
    fd_array_init p;;
    mret (Some p)
  | None => mret None
  end.

Definition files_destroy (p : Z) : M st unit :=
  asserts (λ s, f_count s p =? 0);;
  pwd ← gets (λ s, f_pwd s p);
  (match pwd with Some n => inode_ref_dec ops n;; mret tt | None => mret tt end);;
  for_range 0 (Z.to_nat FILES_STRUCT_NENTRY) (λ fd,
    status ← gets (λ s, fl_status (the_file s p fd));
    when (bool_decide (status = FD_OPENED)) (fd_array_close p fd);;
    asserts (λ s, bool_decide (fl_status (the_file s p fd) = FD_NONE))).

Definition files_closeall (p : Z) : M st unit :=
  asserts (λ s, 0 <? f_count s p);;
  for_range 2 (Z.to_nat (FILES_STRUCT_NENTRY - 2)) (λ fd,
    status ← gets (λ s, fl_status (the_file s p fd));
    when (bool_decide (status = FD_OPENED)) (fd_array_close p fd)).

Definition dup_files (to from : Z) : M st Z :=
  asserts (λ s, ((f_count s to =? 0) && (0 <? f_count s from))%bool);;
  pwd ← gets (λ s, f_pwd s from);
  modify (set_f_pwd to pwd);;
  (match pwd with Some n => inode_ref_inc n;; mret tt | None => mret tt end);;
  for_range 0 (Z.to_nat FILES_STRUCT_NENTRY) (λ fd,
    status ← gets (λ s, fl_status (the_file s from fd));
    when (bool_decide (status = FD_OPENED))
      (upd_file to fd (fl_set_status FD_INIT);;
       fd_array_dup to fd from fd));;
  mret 0.

Definition files_count_inc (p : Z) : M st Z :=
  modify (λ s, set_f_count p (s32 (f_count s p + 1)) s);; gets (λ s, f_count s p).

Definition files_count_dec (p : Z) : M st Z :=
  modify (λ s, set_f_count p (s32 (f_count s p - 1)) s);; gets (λ s, f_count s p).

End file.
