(* ===== verification/FileProofs.v ===== *)
(** * Open files: proofs

    The open file tables own the open counts of the inodes: the count of an inode
    is the number of descriptors on it, its references are these and those held
    elsewhere ([extra]).  Under this invariant, and for inode operations that keep
    to their interface, the operations on descriptors never trip an assertion, but for reads
    and writes of inodes that have no such operation. *)

From S2P Require Import Prelude ListH CString Vmm Vfs File.

(** ** The interface the file layer relies on *)

(** Nothing the file layer looks at changes. *)
Definition same_vfs {F} (s s' : vst F) : Prop :=
  f_array s' = f_array s ∧ f_count s' = f_count s ∧ f_pwd s' = f_pwd s ∧ cur_filesp s' = cur_filesp s ∧
  i_ref s' = i_ref s ∧ i_open s' = i_open s ∧ i_ops s' = i_ops s.

(** [op] returns and only changes the data of the file system. *)
Definition returns {F A} (m : M (vst F) A) : Prop := ∀ s, ∃ a s', m s = Ok (a, s') ∧ same_vfs s s'.

(** What [struct inode_ops] promises to the file layer for a kind of inode. *)
Class InodeOpsLaws {F} (ops : ops_kind → inode_ops (vst F)) : Prop := {
  law_read : ∀ k f n iob, vop_read (ops k) = Some f → returns (f n iob);
  law_write : ∀ k f n iob, vop_write (ops k) = Some f → returns (f n iob);
  law_close : ∀ k, ∃ f, vop_close (ops k) = Some f ∧ ∀ n, returns (f n);
  law_reclaim : ∀ k f n, vop_reclaim (ops k) = Some f → returns (f n);
}.

(** Inodes of a kind that is never reclaimed have no such operation. *)
Definition reclaimable {F} (ops : ops_kind → inode_ops (vst F)) (k : ops_kind) : Prop :=
  vop_reclaim (ops k) ≠ None.

(** ** Counting descriptors *)

Definition sum_by {A} (f : A → Z) (l : list A) : Z := foldr (λ x a, f x + a) 0 l.

Lemma sum_by_nonneg {A} (f : A → Z) l : (∀ x, 0 ≤ f x) → 0 ≤ sum_by f l.
Proof. intros Hf. induction l as [|x l IH]; simpl; [lia|]. specialize (Hf x). lia. Qed.

Lemma sum_by_le {A} (f : A → Z) l k : (∀ x, f x ≤ k) → sum_by f l ≤ k * Z.of_nat (length l).
Proof. intros Hf. induction l as [|x l IH]; simpl; [lia|]. specialize (Hf x). lia. Qed.

Lemma sum_by_elem {A} (f : A → Z) l k : (∀ x, 0 ≤ f x) → k ∈ l → f k ≤ sum_by f l.
Proof.
  intros Hf. induction l as [|x l IH]; [set_solver|]. simpl. intros [->|Hk]%elem_of_cons.
  - pose proof (sum_by_nonneg f l Hf). lia.
  - specialize (IH Hk). specialize (Hf x). lia.
Qed.

Lemma sum_by_ext {A} (f g : A → Z) l : (∀ x, x ∈ l → f x = g x) → sum_by f l = sum_by g l.
Proof.
  induction l as [|x l IH]; simpl; [done|]. intros H. rewrite (H x), IH; [done| |set_solver].
  intros y Hy. apply H. set_solver.
Qed.

(** Changing the summand of one element. *)
Lemma sum_by_change {A} (f g : A → Z) l k :
  NoDup l → k ∈ l → (∀ x, x ∈ l → x ≠ k → g x = f x) → sum_by g l = sum_by f l - f k + g k.
Proof.
  induction 1 as [|x l Hx Hl IH]; [set_solver|]. simpl. intros [<-|Hk]%elem_of_cons H.
  - rewrite (sum_by_ext g f); [lia|]. intros y Hy. apply H; [set_solver|]. by intros ->.
  - rewrite IH; [|done|intros y Hy; apply H; set_solver].
    rewrite (H x); [lia|set_solver|]. by intros ->.
Qed.

Definition opened_on (n : Z) (f : file) : Z :=
  if decide (fl_status f = FD_OPENED ∧ fl_node f = Some n) then 1 else 0.

(** All descriptors of the tables [ps]. *)
Definition descriptors (ps : list Z) : list (Z * Z) := p ← ps; (p,.) <$> seqZ 0 FILES_STRUCT_NENTRY.

Lemma elem_of_descriptors ps p fd : (p, fd) ∈ descriptors ps ↔ p ∈ ps ∧ testfd fd = true.
Proof.
  unfold descriptors, testfd. rewrite list_elem_of_bind. setoid_rewrite list_elem_of_fmap.
  setoid_rewrite elem_of_seqZ. rewrite andb_true_iff, Z.leb_le, Z.ltb_lt. naive_solver lia.
Qed.

Lemma NoDup_descriptors ps : NoDup ps → NoDup (descriptors ps).
Proof.
  induction 1 as [|p ps Hp _ IH]; [constructor|]. unfold descriptors in *. rewrite bind_cons. apply NoDup_app. split_and!.
  - apply NoDup_fmap; [by intros ?? [=]|apply NoDup_seqZ].
  - intros [q fd] (fd' & [= -> ->] & _)%list_elem_of_fmap (q' & Hq & Hin)%list_elem_of_bind.
    apply list_elem_of_fmap in Hq as (? & [= -> _] & _). done.
  - done.
Qed.

Definition opens {F} (s : vst F) (ps : list Z) (n : Z) : Z :=
  sum_by (λ k, opened_on n (f_array s k.1 k.2)) (descriptors ps).

Lemma opened_on_range n f : 0 ≤ opened_on n f ≤ 1.
Proof. unfold opened_on. case_decide; lia. Qed.

Lemma opened_on_not n f : fl_status f ≠ FD_OPENED → opened_on n f = 0.
Proof. intros H. unfold opened_on. rewrite decide_False; [done|]. by intros [? _]. Qed.

Lemma opened_on_node n m f : fl_status f = FD_OPENED → fl_node f = Some m →
  opened_on n f = if decide (m = n) then 1 else 0.
Proof. intros H1 H2. unfold opened_on. rewrite H1, H2. repeat case_decide; naive_solver. Qed.

Lemma opens_nonneg {F} (s : vst F) ps n : 0 ≤ opens s ps n.
Proof. apply sum_by_nonneg. intros k. apply opened_on_range. Qed.

Lemma opens_max {F} (s : vst F) ps n : opens s ps n ≤ Z.of_nat (length (descriptors ps)).
Proof. unfold opens. etrans; [apply (sum_by_le _ _ 1)|lia]. intros k. apply opened_on_range. Qed.

(** A store to one descriptor. *)
Definition stored {F} (s s' : vst F) (p fd : Z) (f : file) : Prop :=
  ∀ q d, f_array s' q d = if decide (q = p ∧ d = fd) then f else f_array s q d.

Lemma set_f_file_get {F} (s : vst F) p fd f : f_array (set_f_file p fd f s) p fd = f.
Proof. simpl. by rewrite !upd_eq. Qed.

Lemma stored_set {F} (s s1 : vst F) p fd f g : stored s s1 p fd g → stored s (set_f_file p fd f s1) p fd f.
Proof.
  intros H q d. simpl. specialize (H q d). destruct (decide (p = q)) as [<-|Hp].
  - rewrite upd_eq. destruct (decide (fd = d)) as [<-|Hd].
    + rewrite upd_eq. by rewrite decide_True.
    + rewrite upd_ne by done. rewrite H. by rewrite !decide_False by (intros [_ ->]; done).
  - rewrite upd_ne by done. rewrite H. by rewrite !decide_False by (intros [-> _]; done).
Qed.

Lemma stored_refl {F} (s s1 : vst F) p fd : f_array s1 = f_array s → stored s s1 p fd (f_array s p fd).
Proof. intros E q d. rewrite E. case_decide as H; [by destruct H as [-> ->]|done]. Qed.

Lemma opens_upd {F} (s s' : vst F) ps p fd f n :
  NoDup ps → p ∈ ps → testfd fd = true → stored s s' p fd f →
  opens s' ps n = opens s ps n - opened_on n (f_array s p fd) + opened_on n f.
Proof.
  intros Hnd Hp Hfd Hst. unfold opens.
  rewrite (sum_by_change (λ k, opened_on n (f_array s k.1 k.2)) _ _ (p, fd)).
  - simpl. rewrite Hst. by rewrite decide_True.
  - by apply NoDup_descriptors.
  - by apply elem_of_descriptors.
  - intros [q fd'] _ Hne. simpl. rewrite Hst. rewrite decide_False; [done|]. intros [-> ->]. done.
Qed.

(** ** The invariant *)

(** Between operations a descriptor is free or open, open ones once. *)
Definition fd_ok (fd : Z) (f : file) : Prop :=
  fl_fd f = fd ∧
  ((fl_status f = FD_NONE ∧ fl_open_count f = 0) ∨
   (fl_status f = FD_OPENED ∧ fl_open_count f = 1 ∧ fl_node f ≠ None)).

Record files_ok {F} (ops : ops_kind → inode_ops (vst F)) (ps : list Z) (extra : Z → Z) (s : vst F) : Prop := FilesOk {
  fo_nodup : NoDup ps;
  fo_fd : ∀ p fd, p ∈ ps → testfd fd = true → fd_ok fd (f_array s p fd);
  fo_open : ∀ n, i_open s n = opens s ps n;
  fo_ref : ∀ n, i_ref s n = opens s ps n + extra n;
  fo_extra : ∀ n, 0 ≤ extra n ∧ extra n + Z.of_nat (length (descriptors ps)) < MAX_INODE_COUNT;
  fo_ops : ∀ n, 0 < opens s ps n → ∃ k, i_ops s n = Some k ∧ (reclaimable ops k ∨ 1 ≤ extra n);
}.

(** The current process is one of [ps]. *)
Definition running_in {F} (ps : list Z) (s : vst F) (p : Z) : Prop :=
  cur_filesp s = Some p ∧ p ∈ ps ∧ 0 < f_count s p.

Section proofs.
Context {F : Type} (ops : ops_kind → inode_ops (vst F)) `{!InodeOpsLaws ops}.
Context (ps : list Z) (extra : Z → Z).

Implicit Types s : vst F.

(** The counts of [n] allow calls through its table. *)
Definition counts_ok s (n : Z) : Prop := 0 ≤ i_open s n ≤ i_ref s n ∧ i_ref s n < MAX_INODE_COUNT.

Lemma vop_op_spec {A} (sym : inode_ops (vst F) → option A) s n k op :
  i_ops s n = Some k → sym (ops k) = Some op → counts_ok s n → vop_op ops sym n s = Ok (op, s).
Proof.
  intros Hk Hop [Ho Hm]. unfold vop_op. rewrite bind_gets, Hk. simpl. rewrite Hop. unfold inode_check.
  rewrite bind_assoc, bind_asserts by (by rewrite Hk). msteps. rewrite bind_asserts.
  2: { apply andb_true_iff. split; apply Z.leb_le; lia. }
  msteps. rewrite bind_asserts; [done|]. apply andb_true_iff. split; apply Z.ltb_lt; lia.
Qed.

(** The state after [vfs_close] of [n]. *)
Lemma vfs_close_spec s n k :
  i_ops s n = Some k → counts_ok s n → 0 < i_open s n → (i_ref s n = 1 → reclaimable ops k) →
  ∃ s', vfs_close ops n s = Ok (0, s') ∧
    same_vfs (set_i_ref n (i_ref s n - 1) (set_i_open n (i_open s n - 1) s)) s'.
Proof.
  intros Hk [Ho Hm] H0 Hrec. unfold vfs_close, inode_open_dec, inode_ref_dec.
  rewrite bind_assoc, bind_asserts by (by apply Z.ltb_lt). msteps. cbn [i_open set_i_open]. rewrite upd_eq.
  set (s1 := set_i_open n (i_open s n - 1) s).
  assert (∃ s2, when (i_open s n - 1 =? 0) (op ← vop_op ops vop_close n; op n;; mret tt) s1 = Ok (tt, s2) ∧ same_vfs s1 s2)
    as (s2 & E2 & (Ha & Hc & Hp & Hcur & Hr & Hop & Hki)).
  { destruct (Z.eqb_spec (i_open s n - 1) 0) as [Hz|]; cbn [when]; [|by exists s1].
    destruct (law_close k) as (f & Ef & Hf). rewrite (bind_ok _ _ _ _ _ (vop_op_spec vop_close s1 n k f Hk Ef ltac:(
      split; unfold s1; cbn [i_open i_ref set_i_open]; rewrite ?upd_eq; lia))).
    destruct (Hf n s1) as (a & s2 & Ea & Hs). rewrite (bind_ok _ _ _ _ _ Ea). by exists s2. }
  rewrite (bind_ok _ _ _ _ _ E2). msteps. rewrite bind_asserts.
  2: { rewrite Hr. apply Z.ltb_lt. unfold s1. simpl. lia. }
  msteps. cbn [i_ref set_i_ref]. rewrite upd_eq. set (s3 := set_i_ref n (i_ref s2 n - 1) s2).
  assert (i_ref s2 n = i_ref s n) as Er by by rewrite Hr.
  assert (∃ s4, when (i_ref s2 n - 1 =? 0) (op ← vop_op ops vop_reclaim n; op n;; mret tt) s3 = Ok (tt, s4) ∧ same_vfs s3 s4)
    as (s4 & E4 & (Ha' & Hc' & Hp' & Hcur' & Hr' & Hop' & Hki')).
  { destruct (Z.eqb_spec (i_ref s2 n - 1) 0) as [Hz|]; cbn [when]; [|by exists s3].
    destruct (vop_reclaim (ops k)) as [f|] eqn:Ef; [|destruct Hrec; [lia|done]].
    rewrite (bind_ok _ _ _ _ _ (vop_op_spec vop_reclaim s3 n k f ltac:(unfold s3; simpl; by rewrite Hki) Ef ltac:(
      unfold counts_ok, s3; cbn [i_open i_ref set_i_ref]; rewrite Hop; unfold s1; simpl; rewrite !upd_eq; lia))).
    destruct (law_reclaim k f n Ef s3) as (a & s4 & Ea & Hs). rewrite (bind_ok _ _ _ _ _ Ea). by exists s4. }
  rewrite (bind_ok _ _ _ _ _ E4). msteps. exists s4. split; [done|].
  unfold same_vfs. rewrite Ha', Hc', Hp', Hcur', Hr', Hop', Hki'. unfold s3. simpl.
  rewrite Ha, Hc, Hp, Hcur, Hr, Hop, Hki. by unfold s1.
Qed.

(** A store to one descriptor that keeps the books. *)
Lemma files_ok_change s s' p fd f :
  files_ok ops ps extra s → p ∈ ps → testfd fd = true → fd_ok fd f →
  stored s s' p fd f →
  (∀ n, i_open s' n = i_open s n - opened_on n (f_array s p fd) + opened_on n f) →
  (∀ n, i_ref s' n = i_ref s n - opened_on n (f_array s p fd) + opened_on n f) →
  i_ops s' = i_ops s →
  (∀ n, fl_status f = FD_OPENED → fl_node f = Some n → ∃ k, i_ops s n = Some k ∧ (reclaimable ops k ∨ 1 ≤ extra n)) →
  files_ok ops ps extra s'.
Proof.
  intros [Hnd Hfd Ho Hr He Hk] Hp Ht Hf Ea Eo Er Ek Hn.
  assert (∀ n, opens s' ps n = opens s ps n - opened_on n (f_array s p fd) + opened_on n f) as Hop
    by (intros n; by apply opens_upd).
  split; [done| | | |done|].
  - intros q fd' Hq Ht'. rewrite Ea. case_decide as Hd; [by destruct Hd as [-> ->]|by apply Hfd].
  - intros n. by rewrite Eo, Hop, Ho.
  - intros n. rewrite Er, Hop, Hr. lia.
  - intros n. rewrite Hop, Ek. intros Hpos. destruct (decide (fl_status f = FD_OPENED ∧ fl_node f = Some n)) as [[]|Hno].
    + by apply Hn.
    + apply Hk. unfold opened_on in Hpos. rewrite (decide_False _ _ Hno) in Hpos. case_decide; lia.
Qed.

Lemma same_vfs_running s s' p : same_vfs s s' → running_in ps s p → running_in ps s' p.
Proof. intros (_ & Hc & _ & Hcur & _) (? & ? & ?). unfold running_in. by rewrite Hcur, Hc. Qed.

Lemma files_ok_same s s' :
  f_array s' = f_array s → i_ref s' = i_ref s → i_open s' = i_open s → i_ops s' = i_ops s →
  files_ok ops ps extra s → files_ok ops ps extra s'.
Proof.
  intros Ha Hr Ho Hk [H1 H2 H3 H4 H5 H6].
  assert (∀ n, opens s' ps n = opens s ps n) as Hop by (intros n; unfold opens; by rewrite Ha).
  split; [done|by rewrite Ha|intros n; by rewrite Hop, Ho|intros n; by rewrite Hop, Hr|done|].
  intros n. rewrite Hop, Hk. apply H6.
Qed.

(** An open descriptor gives access to its inode. *)
Lemma opened_node s p fd :
  files_ok ops ps extra s → p ∈ ps → testfd fd = true → fl_status (f_array s p fd) = FD_OPENED →
  ∃ n k, fl_node (f_array s p fd) = Some n ∧ fl_open_count (f_array s p fd) = 1 ∧
    i_ops s n = Some k ∧ (reclaimable ops k ∨ 1 ≤ extra n) ∧ counts_ok s n ∧ 0 < opens s ps n ∧
    i_ref s n = opens s ps n + extra n ∧ i_open s n = opens s ps n.
Proof.
  intros Hi Hp Ht Hst. pose proof Hi as [Hnd Hfd Ho Hr He Hk].
  destruct (Hfd p fd Hp Ht) as [_ [[Hx _]|(_ & Hc & Hn)]]; [congruence|].
  destruct (fl_node (f_array s p fd)) as [n|] eqn:En; [|done].
  assert (0 < opens s ps n) as Hpos.
  { pose proof (sum_by_elem (λ k, opened_on n (f_array s k.1 k.2)) (descriptors ps) (p, fd)) as Hs.
    simpl in Hs. unfold opens. unfold opened_on in Hs at 2. rewrite decide_True in Hs by done.
    enough (1 ≤ sum_by (λ k, opened_on n (f_array s k.1 k.2)) (descriptors ps)) by lia. apply Hs.
    - intros k. apply opened_on_range.
    - by apply elem_of_descriptors. }
  destruct (Hk n Hpos) as (k & Ek & Hre). exists n, k. pose proof (opens_max s ps n). destruct (He n).
  split_and!; try done. unfold counts_ok. rewrite Ho, Hr. lia.
Qed.

Lemma get_fd_array_spec s p : running_in ps s p → get_fd_array s = Ok (p, s).
Proof.
  intros (Hc & _ & H0). unfold get_fd_array. rewrite bind_gets, Hc.
  by rewrite bind_asserts by by apply Z.ltb_lt.
Qed.

Lemma fd2file_spec s p fd : files_ok ops ps extra s → running_in ps s p →
  fd2file fd s = Ok (if (testfd fd && bool_decide (fl_status (f_array s p fd) = FD_OPENED))%bool then Some p else None, s).
Proof.
  intros Hi Hr. unfold fd2file. destruct (testfd fd) eqn:Ht; [|done].
  rewrite (bind_ok _ _ _ _ _ (get_fd_array_spec s p Hr)). rewrite bind_gets. unfold the_file.
  destruct (fo_fd _ _ _ _ Hi p fd ltac:(apply Hr) Ht) as [Hfd _]. simpl.
  repeat case_bool_decide; naive_solver.
Qed.

(** *** Closing *)

Definition closed_file (f : file) : file :=
  File FD_NONE (fl_readable f) (fl_writable f) (fl_fd f) (fl_pos f) (fl_node f) 0.

Lemma fd_array_close_spec s p fd :
  files_ok ops ps extra s → p ∈ ps → testfd fd = true → fl_status (f_array s p fd) = FD_OPENED →
  ∃ s', fd_array_close ops p fd s = Ok (tt, s') ∧ files_ok ops ps extra s' ∧
    (∀ q, running_in ps s q → running_in ps s' q) ∧ stored s s' p fd (closed_file (f_array s p fd)).
Proof.
  intros Hi Hp Ht Hst.
  destruct (opened_node s p fd Hi Hp Ht Hst) as (n & k & Hn & Hc & Hk & Hre & Hco & Hpos & Hr & Ho).
  unfold fd_array_close, fopen_count_dec, fd_array_free, upd_file, the_file.
  rewrite bind_asserts by (by apply bool_decide_eq_true_2). rewrite bind_asserts by (by rewrite Hc). msteps.
  set (s1 := set_f_file p fd (fl_set_status FD_CLOSED (f_array s p fd)) s).
  assert (f_array s1 p fd = fl_set_status FD_CLOSED (f_array s p fd)) as E1 by apply set_f_file_get.
  rewrite E1. cbn [fl_open_count fl_set_status]. rewrite Hc. change (s32 (1 - 1)) with 0.
  set (f2 := fl_set_open_count 0 (fl_set_status FD_CLOSED (f_array s p fd))).
  set (s2 := set_f_file p fd f2 s1). assert (f_array s2 p fd = f2) as E2 by apply set_f_file_get.
  rewrite E2. cbn [f2 fl_open_count fl_set_open_count Z.eqb when]. rewrite bind_asserts.
  2: { rewrite E2. apply bool_decide_eq_true_2. by right. }
  rewrite bind_asserts by (by rewrite E2). rewrite bind_gets, E2.
  cbn [f2 fl_status fl_node fl_set_open_count fl_set_status]. rewrite Hn. simpl (when _ _).
  destruct (vfs_close_spec s2 n k) as (s3 & E3 & (Ha3 & Hc3 & Hp3 & Hcur3 & Hr3 & Ho3 & Hk3)).
  { done. }
  { done. }
  { change (0 < i_open s n). lia. }
  { change (i_ref s n = 1 → reclaimable ops k). intros H1. destruct Hre as [|He]; [done|lia]. }
  rewrite bind_assoc, (bind_ok _ _ _ _ _ E3). msteps. eexists. split; [reflexivity|].
  assert (stored s (set_f_file p fd (closed_file (f_array s p fd)) s3) p fd (closed_file (f_array s p fd))) as Hsto.
  { apply stored_set with f2. intros q d. rewrite Ha3. cbn [f_array set_i_ref set_i_open].
    by apply (stored_set s s1 p fd f2 _ (stored_set s s p fd _ _ (stored_refl s s p fd eq_refl))). }
  assert (fl_set_status FD_NONE (f_array s3 p fd) = closed_file (f_array s p fd)) as Ef.
  { rewrite Ha3. cbn [f_array set_i_ref set_i_open]. fold s2. by rewrite E2. }
  rewrite Ef. split; [|split; [intros q; unfold running_in; simpl; by rewrite Hcur3, Hc3|done]].
  eapply (files_ok_change s _ p fd (closed_file (f_array s p fd))); try done.
  - split; [apply (fo_fd _ _ _ _ Hi p fd Hp Ht)|]. by left.
  - intros m. simpl. rewrite Ho3. simpl. rewrite (opened_on_node m n _ Hst Hn), opened_on_not by done.
    unfold upd. case_decide; subst; lia.
  - intros m. simpl. rewrite Hr3. simpl. rewrite (opened_on_node m n _ Hst Hn), opened_on_not by done.
    unfold upd. case_decide; subst; lia.
Qed.

(** *** Allocating a descriptor *)

Lemma find_free_fd_spec n p fd s :
  ∃ r, find_free_fd n p fd s = Ok (r, s) ∧
    match r with
    | Some d => fd ≤ d < fd + Z.of_nat n ∧ fl_status (f_array s p d) = FD_NONE ∧
        ∀ d', fd ≤ d' < d → fl_status (f_array s p d') ≠ FD_NONE
    | None => ∀ d', fd ≤ d' < fd + Z.of_nat n → fl_status (f_array s p d') ≠ FD_NONE
    end.
Proof.
  revert fd. induction n as [|n IH]; intros fd; cbn [find_free_fd].
  { exists None. split; [done|]. intros d'. lia. }
  rewrite bind_gets. unfold the_file. case_bool_decide as Hs.
  { exists (Some fd). split_and!; [done|lia|lia|done|]. intros d'. lia. }
  destruct (IH (fd + 1)) as (r & E & Hr). exists r. split; [done|].
  assert (∀ d', fd ≤ d' → d' = fd ∨ fd + 1 ≤ d') as Hsp by lia.
  destruct r as [d|].
  - destruct Hr as (? & ? & Hr). split_and!; [lia..|done|]. intros d' Hd.
    destruct (Hsp d' ltac:(lia)) as [->|]; [done|]. apply Hr. lia.
  - intros d' Hd. destruct (Hsp d' ltac:(lia)) as [->|]; [done|]. apply Hr. lia.
Qed.

(** Which descriptor a request gets. *)
Definition alloc_choice s (p fd : Z) (r : Z * option Z) : Prop :=
  match r.2 with
  | Some d => r.1 = 0 ∧ testfd d = true ∧ fl_status (f_array s p d) = FD_NONE ∧
      (if fd =? NO_FD then ∀ d', 0 ≤ d' < d → fl_status (f_array s p d') ≠ FD_NONE else d = fd)
  | None => r.1 = (if fd =? NO_FD then - E_MAX_OPEN else if testfd fd then - E_BUSY else - E_INVAL) ∧
      (fd = NO_FD → ∀ d', testfd d' = true → fl_status (f_array s p d') ≠ FD_NONE)
  end.

Definition init_file (f : file) : file := fl_set_node None (fl_set_status FD_INIT f).

Lemma fd_array_alloc_spec s p fd :
  files_ok ops ps extra s → running_in ps s p →
  ∃ r, fd_array_alloc fd s = Ok (r, match r.2 with Some d => set_f_file p d (init_file (f_array s p d)) s | None => s end) ∧
    alloc_choice s p fd r.
Proof.
  intros Hi Hrun. unfold fd_array_alloc. rewrite (bind_ok _ _ _ _ _ (get_fd_array_spec s p Hrun)).
  assert (∃ r, (if fd =? NO_FD then
       r ← find_free_fd (Z.to_nat FILES_STRUCT_NENTRY) p 0;
       mret (match r with Some fd => (0, Some fd) | None => (- E_MAX_OPEN, None) end)
     else if testfd fd then
       status ← gets (λ s, fl_status (the_file s p fd));
       mret (if bool_decide (status = FD_NONE) then (0, Some fd) else (- E_BUSY, None))
     else mret (- E_INVAL, None)) s = Ok (r, s) ∧ alloc_choice s p fd r) as (r & E & Hr).
  { unfold alloc_choice. destruct (Z.eqb_spec fd NO_FD) as [->|Hne].
    - destruct (find_free_fd_spec (Z.to_nat FILES_STRUCT_NENTRY) p 0 s) as (r & E & Hr).
      rewrite (bind_ok _ _ _ _ _ E). change (0 + Z.of_nat (Z.to_nat FILES_STRUCT_NENTRY)) with FILES_STRUCT_NENTRY in Hr.
      eexists. split; [reflexivity|]. destruct r as [d|]; simpl.
      + destruct Hr as (Hd & ? & ?). split_and!; [done| |done|done]. unfold testfd.
        apply andb_true_iff. split; [apply Z.leb_le|apply Z.ltb_lt]; lia.
      + split; [done|]. intros _ d' Hd'. apply Hr. unfold testfd in Hd'. b2p. lia.
    - destruct (testfd fd) eqn:Ht; [|by eexists; split; [reflexivity|]; split].
      rewrite bind_gets. unfold the_file. eexists. split; [reflexivity|]. case_bool_decide; simpl; [done|]. by split. }
  rewrite (bind_ok _ _ _ _ _ E). exists r. destruct r as [ret [d|]]; simpl in *; [|by split].
  pose proof Hr as (Hret & Ht & Hst & _). simpl in Hret. subst ret. split; [|done].
  destruct (fo_fd _ _ _ _ Hi p d ltac:(apply Hrun) Ht) as [_ [[_ Hc]|[? _]]]; [|congruence].
  rewrite bind_asserts by (unfold the_file; by rewrite Hc). done.
Qed.

(** *** Duplicating *)

Definition dup_file (f t : file) : file :=
  File FD_OPENED (fl_readable f) (fl_writable f) (fl_fd t) (fl_pos f) (fl_node f) 1.

Lemma file_dup_spec s p fd1 fd2 :
  files_ok ops ps extra s → running_in ps s p →
  ∃ r s', file_dup fd1 fd2 s = Ok (r, s') ∧ files_ok ops ps extra s' ∧ running_in ps s' p ∧
    if (testfd fd1 && bool_decide (fl_status (f_array s p fd1) = FD_OPENED))%bool then
      ∃ c, alloc_choice s p fd2 c ∧
        match c.2 with
        | Some d => r = d ∧ stored s s' p d (dup_file (f_array s p fd1) (f_array s p d))
        | None => r = c.1 ∧ s' = s
        end
    else r = - E_INVAL ∧ s' = s.
Proof.
  intros Hi Hrun. unfold file_dup. rewrite (bind_ok _ _ _ _ _ (fd2file_spec s p fd1 Hi Hrun)).
  destruct (testfd fd1) eqn:Ht1; [|by eexists _, _; split_and!]. cbn [andb].
  case_bool_decide as Hst1; [|by eexists _, _; split_and!].
  destruct (fd_array_alloc_spec s p fd2 Hi Hrun) as (c & E & Hc). rewrite (bind_ok _ _ _ _ _ E).
  destruct c as [ret [d|]]; [|by eexists _, _; split_and!; [done..|]; exists (ret, None)].
  pose proof Hc as (Hret & Htd & Hstd & _). simpl in Hret. subst ret. cbn [snd]. set (s1 := set_f_file p d _ s).
  pose proof Hrun as (Hcur & Hp & Hcnt).
  destruct (opened_node s p fd1 Hi Hp Ht1 Hst1) as (n & k & Hn & Hoc & Hk & Hre & Hco & Hpos & Hr & Ho).
  assert (fd1 ≠ d) as Hne by (intros ->; congruence).
  assert (f_array s1 p fd1 = f_array s p fd1) as E1.
  { unfold s1. simpl. by rewrite upd_eq, upd_ne. }
  assert (f_array s1 p d = init_file (f_array s p d)) as Ed by apply set_f_file_get.
  destruct (fo_fd _ _ _ _ Hi p d Hp Htd) as [Hfd [[_ Hcd]|[? _]]]; [|congruence].
  assert (i_ref s n + 1 < 2 ^ 31 ∧ 0 ≤ i_open s n ≤ i_ref s n) as Hb.
  { destruct Hco. unfold MAX_INODE_COUNT in *. lia. }
  unfold fd_array_dup, the_file. rewrite bind_assoc, bind_asserts.
  2: { apply bool_decide_eq_true_2. by rewrite E1, Ed. }
  msteps. rewrite E1, Hn. unfold inode_ref_inc, inode_open_inc, fd_array_open, fopen_count_inc, upd_file, the_file. msteps.
  rewrite bind_asserts.
  2: { apply bool_decide_eq_true_2. rewrite set_f_file_get. cbn [f_array set_i_open set_i_ref].
       rewrite set_f_file_get, Ed. done. }
  msteps. eexists _, _. split; [reflexivity|]. set (fend := dup_file (f_array s p fd1) (f_array s p d)).
  match goal with |- files_ok _ _ _ ?x ∧ _ => set (s' := x) end.
  assert (stored s s' p d fend) as Hsto.
  { unfold s'. rewrite !set_f_file_get. cbn [f_array set_i_open set_i_ref]. rewrite !set_f_file_get, Ed.
    replace (fl_set_open_count _ _) with fend by (unfold fend, dup_file; simpl; by rewrite Hcd, Hn).
    do 3 (eapply stored_set). intros q x. cbn [f_array set_i_open set_i_ref].
    by apply (stored_set s s1 p d _ _ (stored_set s s p d _ _ (stored_refl s s p d eq_refl))). }
  assert (fl_fd (f_array s' p d) = d) as Hfin.
  { rewrite (Hsto p d), decide_True by done. unfold fend. simpl. done. }
  split; [|split; [done|]].
  2: { exists (0, Some d). split; [done|]. cbn [snd]. split; [|done]. exact Hfin. }
  eapply (files_ok_change s _ p d fend); try done.
  - split; [done|]. right. unfold fend. simpl. by rewrite Hn.
  - intros m. unfold s'. simpl. rewrite s32_small by lia. rewrite (opened_on_not m (f_array s p d)) by congruence.
    rewrite (opened_on_node m n) by done. unfold upd. case_decide; subst; lia.
  - intros m. unfold s'. simpl. rewrite s32_small by lia. rewrite (opened_on_not m (f_array s p d)) by congruence.
    rewrite (opened_on_node m n) by done. unfold upd. case_decide; subst; lia.
  - intros m _ Hm. unfold fend in Hm. simpl in Hm. rewrite Hn in Hm. injection Hm as <-. eauto.
Qed.

Lemma file_close_spec s p fd :
  files_ok ops ps extra s → running_in ps s p →
  ∃ r s', file_close ops fd s = Ok (r, s') ∧ files_ok ops ps extra s' ∧ running_in ps s' p ∧
    if (testfd fd && bool_decide (fl_status (f_array s p fd) = FD_OPENED))%bool
    then r = 0 ∧ stored s s' p fd (closed_file (f_array s p fd)) else r = - E_INVAL ∧ s' = s.
Proof.
  intros Hi Hrun. unfold file_close. rewrite (bind_ok _ _ _ _ _ (fd2file_spec s p fd Hi Hrun)).
  destruct (testfd fd) eqn:Ht; cbn [andb]; [|by eexists _, _; split_and!].
  case_bool_decide as Hst; [|by eexists _, _; split_and!].
  destruct (fd_array_close_spec s p fd Hi ltac:(apply Hrun) Ht Hst) as (s' & E & Hi' & Hr & Hsto).
  rewrite (bind_ok _ _ _ _ _ E). exists 0, s'. split_and!; [done|done|by apply Hr..|done|done].
Qed.

(** *** Reading and writing *)

Lemma file_io_spec sym s p fd base len n k op :
  files_ok ops ps extra s → running_in ps s p → testfd fd = true → fl_status (f_array s p fd) = FD_OPENED →
  fl_node (f_array s p fd) = Some n → i_ops s n = Some k → sym (ops k) = Some op → (∀ iob, returns (op n iob)) →
  ∃ ret copied s', file_io ops sym p fd base len s = Ok ((ret, copied), s') ∧ files_ok ops ps extra s' ∧
    running_in ps s' p ∧ stored s s' p fd (fl_set_pos (s64 (fl_pos (f_array s p fd) + copied)) (f_array s p fd)).
Proof.
  intros Hi Hrun Ht Hst Hn Hk Hop Hret. pose proof Hrun as (Hcur & Hp & Hcnt).
  destruct (opened_node s p fd Hi Hp Ht Hst) as (n' & k' & Hn' & Hoc & Hk' & Hre & Hco & Hpos & Hr & Ho).
  simplify_eq. set (f := f_array s p fd) in *.
  unfold file_io, fd_array_acquire, fopen_count_inc, fd_array_release, fopen_count_dec, upd_file, the_file.
  rewrite bind_assoc, bind_asserts by (by apply bool_decide_eq_true_2). msteps. fold f. rewrite Hoc. change (s32 (1 + 1)) with 2.
  set (s1 := set_f_file p fd (fl_set_open_count 2 f) s).
  assert (f_array s1 p fd = fl_set_open_count 2 f) as E1 by apply set_f_file_get. rewrite E1.
  cbn [fl_node fl_set_open_count]. rewrite Hn. rewrite (bind_ok _ _ _ _ _ (vop_op_spec sym s1 n k op Hk Hop Hco)).
  destruct (Hret (iobuf_init base len (fl_pos f)) s1) as ([ret iob] & s2 & E2 & (Ha & Hc & _ & Hcu & Hir & Hio & Hik)).
  rewrite (bind_ok _ _ _ _ _ E2). msteps. rewrite Ha, E1. rewrite bool_decide_eq_true_2 by done. set (c := iobuf_used iob).
  set (f2 := fl_set_pos (s64 (fl_pos f + c)) (fl_set_open_count 2 f)). cbn [fl_pos fl_set_open_count]. fold f2.
  set (s3 := set_f_file p fd f2 s2). assert (f_array s3 p fd = f2) as E3 by apply set_f_file_get.
  rewrite ?bind_assoc, bind_asserts by (apply bool_decide_eq_true_2; rewrite E3; by left).
  rewrite ?bind_assoc, bind_asserts by (by rewrite E3). msteps. rewrite E3.
  change (s32 (fl_open_count f2 - 1)) with 1. rewrite set_f_file_get. cbn [fl_open_count fl_set_open_count].
  change (1 =? 0) with false. cbn [when]. msteps. eexists _, _, _. split; [reflexivity|].
  set (f4 := fl_set_pos (s64 (fl_pos f + c)) f).
  assert (stored s (set_f_file p fd (fl_set_open_count 1 f2) s3) p fd f4) as Hsto.
  { replace f4 with (fl_set_open_count 1 f2) by (unfold f4, f2, fl_set_pos, fl_set_open_count; simpl; by rewrite Hoc).
    do 2 (eapply stored_set). intros q d. rewrite Ha. by apply (stored_set s s p fd _ _ (stored_refl s s p fd eq_refl)). }
  split; [|split; [unfold running_in; simpl; by rewrite Hcu, Hc|done]].
  eapply (files_ok_change s _ p fd f4); try done; fold f.
  - destruct (fo_fd _ _ _ _ Hi p fd Hp Ht) as [Hfd Hx]. fold f in Hfd, Hx.
    destruct Hx as [[? _]|Hx]; [congruence|]. by split; [|right].
  - intros m. simpl. rewrite Hio. simpl. rewrite !(opened_on_node m n) by done. lia.
  - intros m. simpl. rewrite Hir. simpl. rewrite !(opened_on_node m n) by done. lia.
  - intros m _ Hm. simpl in Hm. rewrite Hn in Hm. injection Hm as <-. eauto.
Qed.

(** The descriptor is open for the transfer, but the table of its inode has no such
    operation; the table of directories has neither reads nor writes. *)
Definition lacks_io (write : bool) s (p fd : Z) : Prop :=
  let f := f_array s p fd in
  testfd fd = true ∧ fl_status f = FD_OPENED ∧ (if write then fl_writable f else fl_readable f) = true ∧
  ∃ n k, fl_node f = Some n ∧ i_ops s n = Some k ∧ (if write then vop_write (ops k) else vop_read (ops k)) = None.

Definition file_rw (write : bool) (fd base len : Z) : M (vst F) (Z * Z) :=
  if write then file_write ops fd base len else file_read ops fd base len.

Lemma file_io_lacks sym s p fd base len n k :
  fl_status (f_array s p fd) = FD_OPENED → fl_node (f_array s p fd) = Some n → i_ops s n = Some k → sym (ops k) = None →
  file_io ops sym p fd base len s = Panic.
Proof.
  intros Hst Hn Hk Hop. unfold file_io, fd_array_acquire, fopen_count_inc, upd_file, the_file.
  rewrite bind_assoc, bind_asserts by (by apply bool_decide_eq_true_2). msteps. rewrite set_f_file_get.
  cbn [fl_node fl_set_open_count]. rewrite Hn. unfold vop_op. rewrite bind_assoc, bind_gets. cbn [i_ops set_f_file]. rewrite Hk. cbn [mbind option_bind]. by rewrite Hop.
Qed.

Lemma file_rw_spec (write : bool) s p fd base len :
  files_ok ops ps extra s → running_in ps s p →
  (lacks_io write s p fd ∧ file_rw write fd base len s = Panic) ∨
  ∃ r s', file_rw write fd base len s = Ok (r, s') ∧
    files_ok ops ps extra s' ∧ running_in ps s' p ∧
    let f := f_array s p fd in
    if (testfd fd && bool_decide (fl_status f = FD_OPENED) && (if write then fl_writable f else fl_readable f))%bool
    then stored s s' p fd (fl_set_pos (s64 (fl_pos f + r.2)) f) else r = (- E_INVAL, 0) ∧ s' = s.
Proof.
  intros Hi Hrun. pose proof (fd2file_spec s p fd Hi Hrun) as E2.
  destruct (testfd fd) eqn:Ht; cbn [andb] in *.
  2: { right. eexists _, s. split; [destruct write; unfold file_rw, file_write, file_read; by rewrite (bind_ok _ _ _ _ _ E2)|by split_and!]. }
  case_bool_decide as Hst; cbn [andb].
  2: { right. eexists _, s. split; [destruct write; unfold file_rw, file_write, file_read; by rewrite (bind_ok _ _ _ _ _ E2)|by split_and!]. }
  destruct (opened_node s p fd Hi ltac:(apply Hrun) Ht Hst) as (n & k & Hn & _ & Hk & _).
  destruct write; unfold file_rw, file_write, file_read; rewrite (bind_ok _ _ _ _ _ E2), bind_gets; unfold the_file.
  - destruct (fl_writable (f_array s p fd)) eqn:Ew; cbn [negb]; [|right; by eexists _, s; split_and!].
    destruct (vop_write (ops k)) as [op|] eqn:Eo.
    2: { left. split; [split_and!; eauto|by eapply file_io_lacks]. }
    destruct (file_io_spec vop_write s p fd base len n k op) as (ret & c & s' & E & ? & ? & ?); try done.
    { intros iob. by apply (law_write k op). }
    right. by exists (ret, c), s'.
  - destruct (fl_readable (f_array s p fd)) eqn:Er; cbn [negb]; [|right; by eexists _, s; split_and!].
    destruct (vop_read (ops k)) as [op|] eqn:Eo.
    2: { left. split; [split_and!; eauto|by eapply file_io_lacks]. }
    destruct (file_io_spec vop_read s p fd base len n k op) as (ret & c & s' & E & ? & ? & ?); try done.
    { intros iob. by apply (law_read k op). }
    right. by exists (ret, c), s'.
Qed.

(** *** Sequences of operations *)

Inductive fop :=
| FClose (fd : Z)
| FDup (fd1 fd2 : Z)
| FRead (fd base len : Z)
| FWrite (fd base len : Z).

Definition run_fop (o : fop) : M (vst F) Z :=
  match o with
  | FClose fd => file_close ops fd
  | FDup fd1 fd2 => file_dup fd1 fd2
  | FRead fd base len => r ← file_read ops fd base len; mret r.1
  | FWrite fd base len => r ← file_write ops fd base len; mret r.1
  end.

Fixpoint run_fops (l : list fop) : M (vst F) (list Z) :=
  match l with
  | [] => mret []
  | o :: l => r ← run_fop o; rs ← run_fops l; mret (r :: rs)
  end.

(** The operation is a read or write that the inode does not have. *)
Definition unsupported s (p : Z) (o : fop) : Prop :=
  match o with FRead fd _ _ => lacks_io false s p fd | FWrite fd _ _ => lacks_io true s p fd | _ => False end.

Lemma run_fop_ok o s p :
  files_ok ops ps extra s → running_in ps s p →
  (unsupported s p o ∧ run_fop o s = Panic) ∨ ∃ r s', run_fop o s = Ok (r, s') ∧ files_ok ops ps extra s' ∧ running_in ps s' p.
Proof.
  intros Hi Hrun. destruct o as [fd|fd1 fd2|fd base len|fd base len]; unfold run_fop.
  - right. destruct (file_close_spec s p fd Hi Hrun) as (r & s' & ? & ? & ? & _). eauto.
  - right. destruct (file_dup_spec s p fd1 fd2 Hi Hrun) as (r & s' & ? & ? & ? & _). eauto.
  - destruct (file_rw_spec false s p fd base len Hi Hrun) as [[? E]|(r & s' & E & ? & ? & _)]; unfold file_rw in E.
    + left. split; [done|]. by rewrite (bind_panic _ _ _ E).
    + right. rewrite (bind_ok _ _ _ _ _ E). eauto.
  - destruct (file_rw_spec true s p fd base len Hi Hrun) as [[? E]|(r & s' & E & ? & ? & _)]; unfold file_rw in E.
    + left. split; [done|]. by rewrite (bind_panic _ _ _ E).
    + right. rewrite (bind_ok _ _ _ _ _ E). eauto.
Qed.

Lemma run_fops_ok l s p :
  files_ok ops ps extra s → running_in ps s p →
  ∃ l1 l2 rs s', l = l1 ++ l2 ∧ run_fops l1 s = Ok (rs, s') ∧ length rs = length l1 ∧ files_ok ops ps extra s' ∧ running_in ps s' p ∧
    match l2 with [] => True | o :: _ => unsupported s' p o ∧ run_fops l s = Panic end.
Proof.
  revert s. induction l as [|o l IH]; intros s Hi Hrun; cbn [run_fops]; [by eexists [], [], [], s|].
  destruct (run_fop_ok o s p Hi Hrun) as [[Hu E1]|(r & s1 & E1 & Hi1 & Hr1)].
  { exists [], (o :: l), [], s. split_and!; try done. by rewrite (bind_panic _ _ _ E1). }
  destruct (IH s1 Hi1 Hr1) as (l1 & l2 & rs & s2 & -> & E2 & Hl & Hi2 & Hr2 & Hend).
  exists (o :: l1), l2, (r :: rs), s2. split; [done|]. cbn [run_fops].
  rewrite (bind_ok _ _ _ _ _ E1), (bind_ok _ _ _ _ _ E2). split_and!; [done|by simpl; rewrite Hl|done|done|].
  destruct l2 as [|o' l2]; [done|]. destruct Hend as [? E3]. split; [done|]. rewrite (bind_ok _ _ _ _ _ E1). by rewrite (bind_panic _ _ _ E3).
Qed.

(** *** Tearing a table down *)

(** Closing the descriptors from [fd] on. *)
Lemma close_range m fd s p :
  files_ok ops ps extra s → p ∈ ps → 0 ≤ fd → fd + Z.of_nat m ≤ FILES_STRUCT_NENTRY →
  ∃ s', for_range fd m (λ fd,
      status ← gets (λ s, fl_status (the_file s p fd));
      when (bool_decide (status = FD_OPENED)) (fd_array_close ops p fd);;
      asserts (λ s, bool_decide (fl_status (the_file s p fd) = FD_NONE))) s = Ok (tt, s') ∧
    files_ok ops ps extra s' ∧
    ∀ q d, f_array s' q d = (if decide (q = p ∧ fd ≤ d < fd + Z.of_nat m ∧ fl_status (f_array s q d) = FD_OPENED)
      then closed_file (f_array s q d) else f_array s q d).
Proof.
  revert fd s. induction m as [|m IH]; intros fd s Hi Hp H0 Hm; cbn [for_range].
  { exists s. split_and!; [done|done|]. intros q d. rewrite decide_False; [done|]. lia. }
  assert (testfd fd = true) as Ht by (unfold testfd; apply andb_true_iff; split; [apply Z.leb_le|apply Z.ltb_lt]; lia).
  assert (∃ s1, when (bool_decide (fl_status (the_file s p fd) = FD_OPENED)) (fd_array_close ops p fd) s = Ok (tt, s1) ∧
    files_ok ops ps extra s1 ∧ fl_status (f_array s1 p fd) = FD_NONE ∧
    stored s s1 p fd (if decide (fl_status (f_array s p fd) = FD_OPENED) then closed_file (f_array s p fd) else f_array s p fd))
    as (s1 & E1 & Hi1 & Hn & Hsto).
  { unfold the_file. case_bool_decide as Hst; cbn [when].
    - destruct (fd_array_close_spec s p fd Hi Hp Ht Hst) as (s1 & E & Hi1 & _ & Hsto). exists s1.
      split_and!; [done..| |by rewrite decide_True]. rewrite Hsto, decide_True by done. done.
    - exists s. split_and!; [done..| |rewrite decide_False by done; by apply stored_refl].
      destruct (fo_fd _ _ _ _ Hi p fd Hp Ht) as [_ [[? _]|[? _]]]; [done|congruence]. }
  rewrite bind_assoc, bind_gets, bind_assoc, (bind_ok _ _ _ _ _ E1).
  rewrite bind_asserts by (apply bool_decide_eq_true_2; done).
  destruct (IH (fd + 1) s1 Hi1 Hp ltac:(lia) ltac:(lia)) as (s' & E & Hi' & Hf). exists s'. split_and!; [done..|].
  intros q d. rewrite Hf, Hsto. destruct (decide (q = p ∧ d = fd)) as [[-> ->]|Hqd].
  - rewrite decide_False by lia. repeat case_decide; naive_solver lia.
  - repeat case_decide; try done; exfalso; naive_solver lia.
Qed.
End proofs.

(** ** Properties *)

(** C5. Safety of the open file tables: any sequence of [file_close],
    [file_dup], [file_read] and [file_write] calls, with arbitrary arguments, runs
    to its end, and afterwards the open count of every inode is again exactly the
    number of descriptors on it and its reference count exceeds that by the references
    held elsewhere.  There is one exception: a call that reads (writes) through an open
    descriptor whose inode has no such operation, as a directory, trips the assertion
    of [vop_read] ([vop_write]); the calls before it keep the counts as well.  The inode operations
    are any that return and keep to the interface [InodeOpsLaws]. *)
Theorem file_ops_are_safe {F} (ops : ops_kind → inode_ops (vst F)) `{!InodeOpsLaws ops} ps extra l s p :
  files_ok ops ps extra s → running_in ps s p →
  ∃ l1 l2 rs s', l = l1 ++ l2 ∧ run_fops ops l1 s = Ok (rs, s') ∧ length rs = length l1 ∧ files_ok ops ps extra s' ∧
    (∀ n, i_open s' n = opens s' ps n ∧ i_ref s' n = opens s' ps n + extra n) ∧
    match l2 with [] => True | o :: _ => unsupported ops s' p o ∧ run_fops ops l s = Panic end.
Proof.
  intros Hi Hrun. destruct (run_fops_ok ops ps extra l s p Hi Hrun) as (l1 & l2 & rs & s' & El & E & Hl & Hi' & _ & Hend).
  exists l1, l2, rs, s'. split_and!; try done. intros n. split; [apply (fo_open _ _ _ _ Hi')|apply (fo_ref _ _ _ _ Hi')].
Qed.

(** [file_dup] takes the lowest free descriptor (or the requested one), which
    then has the position, modes and inode of the original; the errors are
    [-E_INVAL] for a bad descriptor, [-E_BUSY] for a busy target and [-E_MAX_OPEN]
    only when all descriptors are in use; no other descriptor changes. *)
Theorem file_dup_correct {F} (ops : ops_kind → inode_ops (vst F)) `{!InodeOpsLaws ops} ps extra s p fd1 fd2 :
  files_ok ops ps extra s → running_in ps s p →
  ∃ r s', file_dup fd1 fd2 s = Ok (r, s') ∧ files_ok ops ps extra s' ∧
    if (testfd fd1 && bool_decide (fl_status (f_array s p fd1) = FD_OPENED))%bool then
      ∃ c, alloc_choice s p fd2 c ∧
        match c.2 with
        | Some d => r = d ∧ stored s s' p d (dup_file (f_array s p fd1) (f_array s p d))
        | None => r = c.1 ∧ s' = s
        end
    else r = - E_INVAL ∧ s' = s.
Proof.
  intros Hi Hrun. destruct (file_dup_spec ops ps extra s p fd1 fd2 Hi Hrun) as (r & s' & ? & ? & _ & ?). eauto.
Qed.

(** [files_destroy] of the last user of a table closes every descriptor: no
    assertion fails, every inode's open count drops to 0 and exactly the
    references held elsewhere remain. *)
Theorem files_destroy_releases_all {F} (ops : ops_kind → inode_ops (vst F)) `{!InodeOpsLaws ops} extra s p :
  files_ok ops [p] extra s → f_count s p = 0 → f_pwd s p = None →
  ∃ s', files_destroy ops p s = Ok (tt, s') ∧ (∀ n, i_open s' n = 0 ∧ i_ref s' n = extra n) ∧
    ∀ fd, testfd fd = true → fl_status (f_array s' p fd) = FD_NONE.
Proof.
  intros Hi Hc Hp. unfold files_destroy. rewrite bind_asserts by (by rewrite Hc). rewrite bind_gets, Hp. msteps.
  destruct (close_range ops [p] extra (Z.to_nat FILES_STRUCT_NENTRY) 0 s p Hi ltac:(set_solver) ltac:(done) ltac:(done))
    as (s' & E & Hi' & Hf).
  exists s'. split; [exact E|].
  assert (∀ fd, testfd fd = true → fl_status (f_array s' p fd) = FD_NONE) as Hnone.
  { intros fd Ht. rewrite Hf. case_decide as Hd; [done|].
    assert (p ∈ [p]) as Hin by by apply list_elem_of_singleton.
    destruct (fo_fd _ _ _ _ Hi p fd Hin Ht) as [_ [[? _]|[? _]]]; [assumption|]. exfalso. apply Hd.
    unfold testfd in Ht. b2p. change (Z.of_nat (Z.to_nat FILES_STRUCT_NENTRY)) with FILES_STRUCT_NENTRY.
    split_and!; [done|lia|lia|done]. }
  split; [|done]. intros n. rewrite (fo_open _ _ _ _ Hi'), (fo_ref _ _ _ _ Hi').
  assert (opens s' [p] n = 0) as ->; [|lia]. unfold opens. rewrite (sum_by_ext _ (λ _, 0)).
  - generalize (descriptors [p]). intros ks. induction ks as [|x ks IH]; simpl; lia.
  - intros [q fd] [->%list_elem_of_singleton Ht]%elem_of_descriptors. apply opened_on_not. simpl.
    rewrite Hnone by done. done.
Qed.

(** *** Instances: inodes that transfer nothing; directories that cannot be read or written *)

Definition null_ops (k : ops_kind) : inode_ops (vst unit) :=
  InodeOps _ (Some (λ _ _, mret 0)) (Some (λ _, mret 0)) (Some (λ _ iob, mret (0, iob))) (Some (λ _ iob, mret (0, iob)))
    None None None None (Some (λ _, mret 0)) None None None None None None.

Definition dir_ops (k : ops_kind) : inode_ops (vst unit) :=
  match k with
  | sfs_node_dirops =>
    InodeOps _ (Some (λ _ _, mret 0)) (Some (λ _, mret 0)) None None None None None None (Some (λ _, mret 0)) None None None None None None
  | _ => null_ops k
  end.

#[export] Instance null_ops_laws : InodeOpsLaws null_ops.
Proof.
  split.
  - intros k f n iob [= <-] s. by eexists _, s.
  - intros k f n iob [= <-] s. by eexists _, s.
  - intros k. eexists. split; [reflexivity|]. intros n s. by eexists _, s.
  - intros k f n [= <-] s. by eexists _, s.
Qed.

#[export] Instance dir_ops_laws : InodeOpsLaws dir_ops.
Proof.
  split.
  - intros [] f n iob [= <-] s; by eexists _, s.
  - intros [] f n iob [= <-] s; by eexists _, s.
  - intros []; (eexists; split; [reflexivity|]); intros n s; by eexists _, s.
  - intros [] f n [= <-] s; by eexists _, s.
Qed.

(** A process with an empty table, and with descriptor 0 on inode 5; inode 6 is a directory. *)
Definition no_files : vst unit :=
  Vst (λ _, 0) (λ _, 0) (λ _, inode_type_device_info) (λ n, Some (if n =? 6 then sfs_node_dirops else pipe_node_ops)) (λ _, None) (λ _, None)
    (λ _ fd, File FD_NONE false false fd 0 None 0) (λ _, 1) (Some 1) None [] None
    (Vmm.Vmm (λ e, ListEntry e e) (λ _, 0) (λ _, 0) (λ _, 0) (λ _, 0) (λ _, None) (λ _, 0) (λ _, 0)) (λ _, 0) tt.

Definition one_file : vst unit :=
  set_f_file 1 0 (File FD_OPENED true true 0 0 (Some 5) 1) (set_i_ref 5 1 (set_i_open 5 1 no_files)).

Lemma no_files_ok (ops : ops_kind → inode_ops (vst unit)) : files_ok ops [1] (λ _, 0) no_files.
Proof.
  assert (∀ n, opens no_files [1] n = 0) as H0.
  { intros n. unfold opens. rewrite (sum_by_ext _ (λ _, 0)).
    - generalize (descriptors [1]). intros ks. induction ks as [|x ks IH]; simpl; lia.
    - intros k _. by apply opened_on_not. }
  split; [apply NoDup_singleton| |intros n; by rewrite H0|intros n; by rewrite H0|intros n; split; [lia|vm_compute; done]|].
  - intros p fd _ _. split; [done|]. by left.
  - intros n. rewrite H0. lia.
Qed.

(** Descriptor 1 of the same process is opened on inode 6. *)
Definition two_files : vst unit :=
  set_f_file 1 1 (File FD_OPENED true false 1 0 (Some 6) 1) (set_i_ref 6 1 (set_i_open 6 1 one_file)).

Lemma one_more_file_ok (ops : ops_kind → inode_ops (vst unit)) s s' fd f n :
  (∀ k, vop_reclaim (ops k) ≠ None) → files_ok ops [1] (λ _, 0) s → testfd fd = true → fl_status (f_array s 1 fd) = FD_NONE → i_ops s n ≠ None →
  f = File FD_OPENED true (fl_writable f) fd 0 (Some n) 1 → i_ref s n = 0 → i_open s n = 0 →
  s' = set_f_file 1 fd f (set_i_ref n 1 (set_i_open n 1 s)) → files_ok ops [1] (λ _, 0) s'.
Proof.
  intros Hre Hi Ht Hst Hk Ef Hr Ho ->.
  assert (stored s (set_f_file 1 fd f (set_i_ref n 1 (set_i_open n 1 s))) 1 fd f) as Hsto.
  { eapply stored_set. by apply (stored_refl s). }
  apply (files_ok_change ops [1] (λ _, 0) s _ 1 fd f Hi); try done.
  - set_solver.
  - rewrite Ef. split; [done|]. right. done.
  - intros m. simpl. rewrite opened_on_not by congruence. rewrite (opened_on_node m n f) by (by rewrite Ef). unfold upd. case_decide; subst; lia.
  - intros m. simpl. rewrite opened_on_not by congruence. rewrite (opened_on_node m n f) by (by rewrite Ef). unfold upd. case_decide; subst; lia.
  - intros m _. rewrite Ef. intros [= <-]. destruct (i_ops s n) as [k|] eqn:E; [|done]. exists k. split; [done|]. left. apply Hre.
Qed.

Lemma one_file_ok (ops : ops_kind → inode_ops (vst unit)) : (∀ k, vop_reclaim (ops k) ≠ None) → files_ok ops [1] (λ _, 0) one_file.
Proof. intros Hre. by apply (one_more_file_ok ops no_files one_file 0 (File FD_OPENED true true 0 0 (Some 5) 1) 5 Hre (no_files_ok ops)). Qed.

Lemma two_files_ok (ops : ops_kind → inode_ops (vst unit)) : (∀ k, vop_reclaim (ops k) ≠ None) → files_ok ops [1] (λ _, 0) two_files.
Proof. intros Hre. by apply (one_more_file_ok ops one_file two_files 1 (File FD_OPENED true false 1 0 (Some 6) 1) 6 Hre (one_file_ok ops Hre)). Qed.

Lemma one_file_runs : running_in [1] one_file 1.
Proof. split; [done|]. split; [set_solver|]. by vm_compute. Qed.

(** The run on the pipe goes through; the read of the directory stops the kernel. *)
Lemma file_ops_are_safe_witness :
  (∃ rs s', run_fops dir_ops [FDup 0 NO_FD; FClose 0; FClose 0; FRead 2 0 10; FWrite 1 0 10; FDup 2 0] two_files = Ok (rs, s') ∧ length rs = 6%nat) ∧
  run_fops dir_ops [FClose 0; FRead 1 0 10; FClose 1] two_files = Panic.
Proof.
  split.
  - destruct (file_ops_are_safe dir_ops [1] (λ _, 0) [FDup 0 NO_FD; FClose 0; FClose 0; FRead 2 0 10; FWrite 1 0 10; FDup 2 0] two_files 1)
      as (l1 & l2 & rs & s' & El & E & Hl & _ & _ & Hend).
    + by apply two_files_ok; intros [].
    + apply one_file_runs.
    + destruct l2 as [|o l2]; [|destruct Hend as [_ Hp]; vm_compute in Hp; discriminate Hp].
      rewrite app_nil_r in El. subst l1. exists rs, s'. split; [exact E|exact Hl].
  - destruct (file_ops_are_safe dir_ops [1] (λ _, 0) [FClose 0; FRead 1 0 10; FClose 1] two_files 1)
      as (l1 & l2 & rs & s' & El & E & Hl & _ & _ & Hend).
    + by apply two_files_ok; intros [].
    + apply one_file_runs.
    + destruct l2 as [|o l2]; [|destruct Hend as [_ Hp]; exact Hp].
      rewrite app_nil_r in El. subst l1. vm_compute in E. discriminate E.
Defined.

Lemma file_dup_correct_witness : ∃ r s', file_dup 0 NO_FD one_file = Ok (r, s') ∧ files_ok null_ops [1] (λ _, 0) s' ∧ r = 1.
Proof.
  destruct (file_dup_correct null_ops [1] (λ _, 0) one_file 1 0 NO_FD) as (r & s' & E & Hi & _).
  - by apply one_file_ok.
  - apply one_file_runs.
  - exists r, s'. split_and!; [exact E|exact Hi|].
    apply (f_equal (λ x, match x with Ok (r', _) => r' | _ => 0 end)) in E. rewrite <-E. vm_compute. reflexivity.
Defined.

Lemma files_destroy_releases_all_witness : ∃ s',
  files_destroy null_ops 1 (set_f_count 1 0 one_file) = Ok (tt, s') ∧ i_open s' 5 = 0.
Proof.
  destruct (files_destroy_releases_all null_ops (λ _, 0) (set_f_count 1 0 one_file) 1) as (s' & E & Hc & _).
  - apply (files_ok_same null_ops [1] (λ _, 0) one_file); [reflexivity..|by apply one_file_ok].
  - by vm_compute.
  - reflexivity.
  - exists s'. split; [exact E|apply Hc].
Defined.
