(* ===== verification/Kernel.v ===== *)
(** * kern/process/proc.c: the life of a process

    Creation, exit and reaping of processes with all their resources: the
    descriptor and its place in the tables of [Proc], the kernel stack, the address
    space of [Addr] and the open files of [File].  The state joins those of the
    components; what a component reads of the current process ([current->mm],
    [current->filesp]) is filled in from the process table when the component runs.

    The results of [kmalloc] are arguments; [kfree] has no effect on the state.
    [lock_mm] and the semaphore of a [files_struct] protect sections that are
    executed at once here.  A process that calls [schedule] is a suspended
    [thread]. *)

From S2P Require Import Prelude ListH Pmm CString SkewHeap Sched Sync Vmm Pgtable Addr Kmalloc Proc Vfs File.

Definition KSTACKPAGE : Z := 2.
Definition KSTACKSIZE : Z := KSTACKPAGE * PGSIZE.
Definition CLONE_VM : Z := 0x00000100.
Definition CLONE_FS : Z := 0x00000800.

(** [struct trapframe]: the registers by number, and the control registers. *)
Record trapframe := Trapframe {
  gpr : Z → Z;
  tf_status : Z;
  tf_epc : Z;
  tf_tval : Z;
  tf_cause : Z;
}.
Definition TF_SIZE : Z := 36 * 8.
Definition reg_sp : Z := 2.
Definition reg_s0 : Z := 8.
Definition reg_s1 : Z := 9.
Definition reg_a0 : Z := 10.

Definition set_gpr (r v : Z) (tf : trapframe) : trapframe :=
  Trapframe (upd r v (gpr tf)) (tf_status tf) (tf_epc tf) (tf_tval tf) (tf_cause tf).

(** What a process resumes with: [context.ra] and [context.sp]. *)
Record context := Context { c_ra : Z; c_sp : Z }.

Record kern (F : Type) := Kern {
  k_pt : ptab;
  k_fs : vst F;
  k_vms : vms;
  k_pgdir : Z → Z;
  k_faults : Z;
  (** [proc->tf] as an address and its contents, and [proc->context] *)
  k_tf : Z → Z;
  k_frame : Z → trapframe;
  k_context : Z → context;
}.
Arguments Kern {F} _ _ _ _ _ _ _ _.
Arguments k_pt {F} _.
Arguments k_fs {F} _.
Arguments k_vms {F} _.
Arguments k_pgdir {F} _ _.
Arguments k_faults {F} _.
Arguments k_tf {F} _ _.
Arguments k_frame {F} _ _.
Arguments k_context {F} _ _.

Definition set_k_pt {F} (v : ptab) (s : kern F) : kern F :=
  Kern v (k_fs s) (k_vms s) (k_pgdir s) (k_faults s) (k_tf s) (k_frame s) (k_context s).
Definition set_k_fs {F} (v : vst F) (s : kern F) : kern F :=
  Kern (k_pt s) v (k_vms s) (k_pgdir s) (k_faults s) (k_tf s) (k_frame s) (k_context s).
Definition set_k_vms {F} (v : vms) (s : kern F) : kern F :=
  Kern (k_pt s) (k_fs s) v (k_pgdir s) (k_faults s) (k_tf s) (k_frame s) (k_context s).
Definition set_k_tf {F} (p a : Z) (s : kern F) : kern F :=
  Kern (k_pt s) (k_fs s) (k_vms s) (k_pgdir s) (k_faults s) (upd p a (k_tf s)) (k_frame s) (k_context s).
Definition set_k_frame {F} (p : Z) (tf : trapframe) (s : kern F) : kern F :=
  Kern (k_pt s) (k_fs s) (k_vms s) (k_pgdir s) (k_faults s) (k_tf s) (upd p tf (k_frame s)) (k_context s).
Definition set_k_context {F} (p : Z) (c : context) (s : kern F) : kern F :=
  Kern (k_pt s) (k_fs s) (k_vms s) (k_pgdir s) (k_faults s) (k_tf s) (k_frame s) (upd p c (k_context s)).

(** The parts of the state as the components see them. *)
Definition cur_proc {F} (s : kern F) : proc_struct := procs (psc (k_pt s)) (current (psc (k_pt s))).

Definition fs_view {F} (s : kern F) : vst F :=
  let v := k_fs s in
  Vst (i_ref v) (i_open v) (i_type v) (i_ops v) (i_fs v) (f_pwd v) (f_array v) (f_count v)
    (p_filesp (cur_proc s)) (bootfs_node v) (vdev_list v) (p_mm (cur_proc s)) (k_vmm v) (k_mem v) (fsd v).

Definition as_view {F} (s : kern F) : aspace := Aspace (k_vmm (k_fs s)) (k_vms s) (k_pgdir s) (k_faults s).
Definition as_put {F} (a : aspace) (s : kern F) : kern F :=
  Kern (k_pt s) (set_k_vm_mem (a_vmm a) (k_fs s)) (a_vms a) (a_pgdir a) (pgfault_num a)
    (k_tf s) (k_frame s) (k_context s).

Definition on_pt {F A} (m : M ptab A) : M (kern F) A := zoom k_pt set_k_pt m.
Definition on_files {F A} (m : M (vst F) A) : M (kern F) A := zoom fs_view set_k_fs m.
Definition on_as {F A} (m : M aspace A) : M (kern F) A := zoom as_view as_put m.
Definition on_pages {F A} (m : M vms A) : M (kern F) A := zoom k_vms set_k_vms m.

(** The results of [kmalloc] for a new process. *)
Record fork_allocs := ForkAllocs {
  got_proc : option Z;
  got_mm : option Z;
  got_vmas : list Z;
  got_files : option Z;
}.

Section kernel.
Context {F : Type} (ops : ops_kind → inode_ops (vst F)) (fsops : fs_ops (vst F)) (fuel : nat).
Context (swap_init_ok : bool) (swap_out : Z → M vms unit) (rounds : nat).
(** the kernel's page directory and its physical address, and the addresses of
    [forkret] and [kernel_thread_entry] *)
Context (boot_pgdir boot_cr3 forkret kernel_thread_entry : Z).

Notation k := (kern F).
Notation alloc_pages := (alloc_pages swap_init_ok swap_out rounds).

(** ** Kernel stacks *)

Definition setup_kstack (proc : Z) : M k Z :=
  page ← on_pages (alloc_pages KSTACKPAGE);
  match page with
  | Some page =>
    kva ← page2kva page;
    on_pt (pset proc (set_kstack kva));;
    mret 0
  | None => mret (- E_NO_MEM)
  end.

Definition put_kstack (proc : Z) : M k unit :=
  kstack ← on_pt (pget p_kstack proc);
  page ← kva2page kstack;
  on_pages (free_pages page KSTACKPAGE).

(** ** Address spaces *)

(** [exit_mmap; put_pgdir; mm_destroy] *)
Definition drop_mm (mm : Z) : M k unit :=
  on_as (exit_mmap swap_init_ok swap_out rounds mm);;
  on_as (put_pgdir mm);;
  on_as (on_areas (mm_destroy mm));;
  mret tt.

Definition share_mm (mm proc : Z) : M k Z :=
  on_as (on_areas (mm_count_inc mm));;
  on_pt (pset proc (set_mm (Some mm)));;
  pgdir ← gets (λ s : k, k_pgdir s mm);
  on_pt (pset proc (set_cr3 (page2pa pgdir)));;
  mret 0.

Definition copy_mm (a : fork_allocs) (clone_flags proc : Z) : M k Z :=
  oldmm ← gets (λ s : k, p_mm (cur_proc s));
  match oldmm with
  | None => mret 0
  | Some oldmm =>
    if truth (Z.land clone_flags CLONE_VM) then share_mm oldmm proc
    else
      mm ← on_as (on_areas (mm_create (got_mm a)));
      match mm with
      | None => mret (- E_NO_MEM)
      | Some mm =>
        r ← on_as (setup_pgdir swap_init_ok swap_out rounds boot_pgdir mm);
        if negb (r =? 0) then
          on_as (on_areas (mm_destroy mm));;
          mret (- E_NO_MEM)
        else
          ret ← on_as (dup_mmap swap_init_ok swap_out rounds (got_vmas a) mm oldmm);
          if negb (ret =? 0) then
            drop_mm mm;;
            mret ret
          else share_mm mm proc
      end
  end.

(** ** The first frame of a new process *)

Definition copy_thread (proc esp : Z) (tf : trapframe) : M k unit :=
  kstack ← on_pt (pget p_kstack proc);
  let addr := kstack + KSTACKSIZE - TF_SIZE in
  modify (set_k_tf proc addr);;
  modify (set_k_frame proc (set_gpr reg_sp (if esp =? 0 then addr else esp) (set_gpr reg_a0 0 tf)));;
  modify (set_k_context proc (Context forkret addr)).

(** ** Files *)

Definition copy_files (a : fork_allocs) (clone_flags proc : Z) : M k Z :=
  old ← gets (λ s : k, p_filesp (cur_proc s));
  match old with
  | None => panic
  | Some old =>
    let share filesp :=
      on_files (files_count_inc filesp);;
      on_pt (pset proc (set_filesp (Some filesp)));;
      mret 0 in
    if truth (Z.land clone_flags CLONE_FS) then share old
    else
      filesp ← on_files (files_create (got_files a));
      match filesp with
      | None => mret (- E_NO_MEM)
      | Some filesp =>
        ret ← on_files (dup_files filesp old);
        if negb (ret =? 0) then
          on_files (files_destroy ops filesp);;
          mret ret
        else share filesp
      end
  end.

Definition put_files (proc : Z) : M k unit :=
  filesp ← on_pt (pget p_filesp proc);
  match filesp with
  | Some filesp =>
    n ← on_files (files_count_dec filesp);
    when (n =? 0) (on_files (files_destroy ops filesp))
  | None => mret tt
  end.

(** ** do_fork *)

Definition do_fork (a : fork_allocs) (clone_flags stack : Z) (tf : trapframe) : M k Z :=
  nr ← on_pt (gets nr_process);
  if MAX_PROCESS <=? nr then mret (- E_NO_FREE_PROC)
  else
    proc ← on_pt (alloc_proc boot_cr3 (got_proc a));
    match proc with
    | None => mret (- E_NO_MEM)
    | Some proc =>
      cur ← on_pt get_cur;
      on_pt (pset proc (set_parent (Some cur)));;
      ws ← on_pt (pget p_wait_state cur);
      assert (ws =? 0);;
      r ← setup_kstack proc;
      if r =? - E_NO_MEM then mret (- E_NO_MEM)
      else
        r ← copy_mm a clone_flags proc;
        if negb (r =? 0) then put_kstack proc;; mret (- E_NO_MEM)
        else
          r ← copy_files a clone_flags proc;
          if negb (r =? 0) then put_kstack proc;; mret (- E_NO_MEM)
          else
            copy_thread proc stack tf;;
            on_pt (fork_link proc);;
            on_pt (on_psc (wakeup_proc proc));;
            on_pt (pget p_pid proc)
    end.

(** [sstatus] is the value of the register. *)
Definition kernel_thread (a : fork_allocs) (sstatus fn arg clone_flags : Z) : M k Z :=
  let SPP := 0x100 in let SPIE := 0x20 in let SIE := 0x2 in
  let zero := Trapframe (λ _, 0) 0 0 0 0 in
  let tf := set_gpr reg_s1 arg (set_gpr reg_s0 fn zero) in
  let status := Z.land (Z.lor (Z.lor sstatus SPP) SPIE) (u64 (Z.lnot SIE)) in
  do_fork a (Z.lor clone_flags CLONE_VM) 0 (Trapframe (gpr tf) status kernel_thread_entry 0 0).

(** ** do_exit *)

Definition on_sched {A} (m : M sched A) : M k A := on_pt (on_psc m).

(** Everything before [schedule]. *)
Definition exit_process (error_code : Z) : M k unit :=
  cur ← on_pt get_cur;
  asserts (λ s : k, negb (cur =? idleproc (psc (k_pt s))));;
  asserts (λ s : k, negb (cur =? initproc (k_pt s)));;
  mm ← gets (λ s : k, p_mm (cur_proc s));
  (match mm with
   | Some mm =>
     n ← on_as (on_areas (mm_count_dec mm));
     when (n =? 0) (drop_mm mm);;
     on_pt (pset cur (set_mm None));;
     put_files cur
   | None => mret tt
   end);;
  on_pt (exit_links error_code).

(** A process that has exited is never run again. *)
Definition do_exit (error_code : Z) : M k (thread k Z) :=
  exit_process error_code;;
  on_sched schedule;;
  mret (Suspended (λ _, Panic)).

(** ** do_wait *)

(** Reaping of the zombie [proc]: [store] is the store to [*code_store]. *)
Definition wait_found (code_store : bool) (store : Z → M k unit) (proc : Z) : M k (thread k Z) :=
  asserts (λ s : k, negb ((proc =? idleproc (psc (k_pt s))) || (proc =? initproc (k_pt s)))%bool);;
  code ← on_pt (pget p_exit_code proc);
  when code_store (store code);;
  on_pt (wait_unlink proc);;
  put_kstack proc;;
  tret 0.

(** [n] bounds how often the process is woken without finding a zombie. *)
Fixpoint wait_loop (n : nat) (code_store : bool) (store : Z → M k unit) (pid : Z) : M k (thread k Z) :=
  match n with
  | O => out_of_fuel
  | S n' =>
    '(proc, haskid) ← on_pt (wait_find pid);
    match proc with
    | Some proc => wait_found code_store store proc
    | None =>
      if haskid : bool then
        cur ← on_pt get_cur;
        on_pt (pset cur (set_state PROC_SLEEPING));;
        on_pt (pset cur (set_wait_state WT_CHILD));;
        on_sched schedule;;
        mret (Suspended (
          (flags ← gets (λ s : k, p_flags (cur_proc s));
           if truth (Z.land flags PF_EXITING) then
             _ ⇐ do_exit (- E_KILLED); wait_loop n' code_store store pid
           else wait_loop n' code_store store pid) : M k (thread k Z)))
      else tret (- E_BAD_PROC)
    end
  end.

(** [code_store] is the address, 0 for [NULL]. *)
Definition do_wait (n : nat) (store : Z → Z → M k unit) (pid code_store : Z) : M k (thread k Z) :=
  mm ← gets (λ s : k, p_mm (cur_proc s));
  ok ← (if negb (code_store =? 0) then on_as (on_areas (user_mem_check mm code_store 4 true)) else mret true);
  if negb ok then tret (- E_INVAL)
  else wait_loop n (negb (code_store =? 0)) (store code_store) pid.

(** ** Sleeping *)

(** [timer] is the timer on the kernel stack, [n] bounds the number of timers. *)
Definition do_sleep (n : nat) (timer time : Z) : M k (thread k Z) :=
  if time =? 0 then tret 0
  else
    cur ← on_pt get_cur;
    on_sched (timer_init timer cur time);;
    on_pt (pset cur (set_state PROC_SLEEPING));;
    on_pt (pset cur (set_wait_state WT_TIMER));;
    on_sched (add_timer n timer);;
    on_sched schedule;;
    mret (Suspended ((on_sched (del_timer timer);; tret 0) : M k (thread k Z))).

(** ** Start *)

(** [files] and [kproc] are the results of [kmalloc] for idleproc; [name_idle] and
    [name_init] the strings. *)
Definition proc_init (kproc files : option Z) (a : fork_allocs) (sstatus init_main bootstack : Z)
    (name_idle name_init : Z → Z) : M k unit :=
  on_pt (modify (set_proc_link (list_init Head)));;
  for_range 0 (Z.to_nat HASH_LIST_SIZE) (λ i, on_pt (modify (set_hash_link (list_init (HBucket i)))));;
  idle ← on_pt (alloc_proc boot_cr3 kproc);
  match idle with
  | None => panic
  | Some idle =>
    on_sched (modify (λ s, Sched (procs s) (run_list s) (proc_num s) (max_time_slice s) (run_pool s)
      (run_heap s) (current s) idle (t_expires s) (t_proc s) (timer_link s)));;
    on_pt (pset idle (set_pid 0));;
    on_pt (pset idle (set_state PROC_RUNNABLE));;
    on_pt (pset idle (set_kstack bootstack));;
    on_pt (pset idle (set_need_resched 1));;
    filesp ← on_files (files_create files);
    match filesp with
    | None => panic
    | Some filesp =>
      on_pt (pset idle (set_filesp (Some filesp)));;
      on_files (files_count_inc filesp);;
      on_pt (set_proc_name idle name_idle);;
      on_pt (modify (λ s, set_nr_process (s32 (nr_process s + 1)) s));;
      on_sched (modify (set_current idle));;
      pid ← kernel_thread a sstatus init_main 0 0;
      if pid <=? 0 then panic
      else
        init ← on_pt (find_proc pid);
        match init with
        | None => panic
        | Some init =>
          on_pt (modify (set_initproc init));;
          on_pt (set_proc_name init name_init);;
          ipid ← on_pt (pget p_pid idle);
          assert (ipid =? 0);;
          npid ← on_pt (pget p_pid init);
          assert (npid =? 1)
        end
    end
  end.

(** One round of [cpu_idle]. *)
Definition cpu_idle : M k unit :=
  need ← gets (λ s : k, p_need_resched (cur_proc s));
  when (negb (need =? 0)) (on_sched schedule).

(** [init_main] after the user processes have exited: the final checks. *)
Definition init_check : M k unit :=
  init ← on_pt (gets initproc);
  asserts (λ s : k, let p := procs (psc (k_pt s)) init in
    bool_decide (p_cptr p = None ∧ p_yptr p = None ∧ p_optr p = None));;
  asserts (λ s : k, nr_process (k_pt s) =? 2);;
  asserts (λ s : k, bool_decide (list_next (proc_link (k_pt s)) Head = Elem init));;
  asserts (λ s : k, bool_decide (list_prev (proc_link (k_pt s)) Head = Elem init)).

(** The loop of [init_main]: [n] bounds the number of children that are reaped. *)
Fixpoint reap_loop (n m : nat) : M k (thread k unit) :=
  match n with
  | O => out_of_fuel
  | S n' =>
    r ⇐ do_wait m (λ _ _, mret tt) 0 0;
    if r =? 0 then on_sched schedule;; mret (Suspended (reap_loop n' m))
    else tret tt
  end.

(** [bootfs] is ["disk0:"]; [fs_cleanup] unmounts the file systems. *)
Definition init_main (n m : nat) (a : fork_allocs) (sstatus user_main : Z) (bootfs : Z) : M k (thread k Z) :=
  ret ← on_files (vfs_set_bootfs ops fsops fuel (Some bootfs));
  if negb (ret =? 0) then panic
  else
    pid ← kernel_thread a sstatus user_main 0 0;
    if pid <=? 0 then panic
    else
      _ ⇐ reap_loop n m;
      (on_files (vfs_cleanup fsops);;
       init_check;;
       tret 0).

End kernel.
