(* ===== verification/KernelProofs.v ===== *)
(** * The life of a process: proofs

    [do_fork] of a thread, which shares the address space and the files of its
    parent: all components end up with the new process exactly once. *)

From S2P Require Import Prelude ListH Pmm CString SkewHeap Sched SchedProofs Timers Sync Vmm Pgtable Addr Kmalloc.
From S2P Require Import Proc ProcProofs Vfs File Kernel.

(** ** Stores to the descriptor of a process outside the table *)

(** Only the descriptor of [p] and its entry in the run pool change. *)
Definition only_proc (p : Z) (s s' : sched) : Prop :=
  (∃ f rl rh, s' = Sched f rl (proc_num s) (max_time_slice s) (run_pool s) rh (current s) (idleproc s)
    (t_expires s) (t_proc s) (timer_link s)) ∧
  (∀ x, x ≠ p → procs s' x = procs s x ∧ run_heap s' x = run_heap s x).

#[global] Instance only_proc_preorder p : PreOrder (only_proc p).
Proof.
  split.
  - intros s. split; [|done]. exists (procs s), (run_list s), (run_heap s). by destruct s.
  - intros s1 s2 s3 [(f & rl & rh & ->) H1] [(f' & rl' & rh' & ->) H2]. split; [by exists f', rl', rh'|].
    intros x Hx. simpl in *. destruct (H2 x Hx) as [-> ->]. by apply H1.
Qed.

Lemma only_proc_upd p f s : only_proc p s (upd_proc p f s).
Proof.
  split; [by eexists _, _, _|]. intros x Hx. simpl. by rewrite upd_ne.
Qed.

Lemma only_proc_rq p s s' base t : only_proc p s s' → p ∉ elems t → rq_inv s base t → rq_inv s' base t.
Proof.
  intros [(f & rl & rh & ->) Hx] Hp [[H1 H2 H3 H4] ? ? H5 H6 ?]. simpl in Hx.
  assert (∀ x, x ∈ elems t → f x = procs s x) as Hf by (intros x Hin; apply Hx; by intros ->).
  split; simpl; try done.
  - split; try done.
    + eapply tree_at_frame; [|exact H2]. intros x Hin. apply Hx. by intros ->.
    + eapply heap_ordered_ext; [|exact H4]. intros x y Hin1 Hin2. unfold srank. simpl. by rewrite !Hf.
  - intros x Hin. rewrite Hf by done. by apply H5.
  - intros x Hin. unfold srank. simpl. rewrite Hf by done. by apply H6.
Qed.

Lemma only_proc_ptab p s sc ps kids :
  only_proc p (psc s) sc → p ∉ idleproc (psc s) :: ps → ptab_inv None s ps kids → ptab_inv None (set_psc sc s) ps kids.
Proof.
  intros [(f & rl & rh & ->) Hx] Hp [H1 H2 H3 H4 H5 H6 H7 H8 H9]. simpl in Hx.
  assert (∀ x, x ∈ ps → f x = procs (psc s) x) as Hf by (intros x Hin; apply Hx; intros ->; set_solver).
  set (s' := set_psc _ s).
  assert (∀ x, x ∈ ps → pid_of s' x = pid_of s x) as Hpid by (intros x Hin; unfold pid_of; simpl; by rewrite Hf).
  assert (pids s' ps = pids s ps) as Epids by by apply pids_ext.
  split; rewrite ?Epids; try done.
  - intros i Hi. rewrite (bucket_ext s s') by done. by apply H2.
  - destruct H5. by split.
  - intros x Hin. rewrite Hpid by done. by apply H7.
  - destruct H9 as [F1 F2 F3 F4 F5]. simpl. split; try done.
    + intros q Hq. rewrite <-F1 by done. simpl. destruct (Hx q) as [-> _]; [by intros ->|done].
    + intros q. destruct (F2 q) as (y & Hy & Hr). exists y. split; [done|]. eapply sib_run_frame; [|exact Hr].
      intros x [Hin _]%F4. by rewrite Hf.
    + intros q x. rewrite F4. split; intros [Hin E]; (split; [done|]); by rewrite Hf in *.
    + intros x Hin. rewrite Hf by done. by apply F5.
Qed.

(** ** The steps of do_fork *)

(** The descriptor [alloc_proc] leaves: the name and the exit code are those of
    the memory it got, except for the first 15 bytes of the name. *)
Definition new_proc (cr3 : Z) (old : proc_struct) : proc_struct :=
  ProcStruct PROC_UNINIT (-1) 0 0 0 None None cr3 0 (clear_name (p_name old)) (p_exit_code old) 0
    None None None false 0 0 0 None.

(** A store to a descriptor, with the scheduler's part of the state in view. *)
Lemma bind_pset {B} p f (k : unit → M ptab B) sc s :
  (pset p f ≫= k) (set_psc sc s) = k tt (set_psc (upd_proc p f sc) s).
Proof. done. Qed.

Lemma bind_psc {B} (g : sched → sched) (k : unit → M ptab B) sc s :
  (modify (λ s, set_psc (g (psc s)) s) ≫= k) (set_psc sc s) = k tt (set_psc (g sc) s).
Proof. done. Qed.

Lemma set_psc_id s : set_psc (psc s) s = s.
Proof. by destruct s. Qed.

(** Stores to the descriptor of [p], and what the descriptor is then. *)
Definition at_proc (p : Z) (s sc : sched) (d : proc_struct) : Prop := only_proc p s sc ∧ procs sc p = d.

Lemma at_proc_upd p s sc d f : at_proc p s sc d → at_proc p s (upd_proc p f sc) (f d).
Proof.
  intros [Ho <-]. split; [etrans; [exact Ho|apply only_proc_upd]|]. simpl. by rewrite upd_eq.
Qed.

Lemma at_proc_run_list p s sc d g : at_proc p s sc d → at_proc p s (set_run_list g sc) d.
Proof.
  intros [Ho Hd]. split; [|done]. etrans; [exact Ho|]. split; [by eexists _, _, _|]. done.
Qed.

Lemma at_proc_run_heap p s sc d v : at_proc p s sc d → at_proc p s (set_run_heap (upd p v (run_heap sc)) sc) d.
Proof.
  intros [Ho Hd]. split; [|done]. etrans; [exact Ho|]. split; [by eexists _, _, _|]. intros x Hx. simpl. by rewrite upd_ne.
Qed.

Create HintDb at_proc.
#[local] Hint Resolve at_proc_upd at_proc_run_list at_proc_run_heap : at_proc.

Lemma alloc_proc_spec cr3 sc s p :
  ∃ sc', alloc_proc cr3 (Some p) (set_psc sc s) = Ok (Some p, set_psc sc' s) ∧
    at_proc p sc sc' (new_proc cr3 (procs sc p)).
Proof.
  unfold alloc_proc. repeat first [rewrite bind_pset | rewrite bind_psc].
  rewrite (bind_psc (λ sc, set_run_heap (upd p (SkewHeapEntry None None None) (run_heap sc)) sc)).
  repeat rewrite bind_pset. eexists. split; [reflexivity|].
  assert (at_proc p sc sc (procs sc p)) as H0 by (split; [reflexivity|done]).
  match goal with |- at_proc _ _ ?x ?d => set (x0 := x); assert (∃ d', at_proc p sc x d' ∧ d' = d) as (d' & H & <-); [|exact H] end.
  eexists. split.
  { repeat first [exact H0 | apply at_proc_upd | apply at_proc_run_list | apply at_proc_run_heap]. }
  reflexivity.
Qed.

(** The fields of a descriptor that the scheduler and the table do not touch. *)
Definition resources (p : proc_struct) : option Z * option Z * Z * Z * Z * Z * list Z :=
  (p_mm p, p_filesp p, p_kstack p, p_cr3 p, p_flags p, p_exit_code p, p_name p).

Definition same_resources (s s' : sched) : Prop := ∀ p, resources (procs s' p) = resources (procs s p).

#[global] Instance same_resources_preorder : PreOrder same_resources.
Proof. split; [done|]. intros s1 s2 s3 H1 H2 p. by rewrite H2. Qed.

Lemma same_resources_upd p f s : (∀ x, resources (f x) = resources x) → same_resources s (upd_proc p f s).
Proof. intros Hf q. simpl. unfold upd. destruct (decide (p = q)) as [<-|]; [apply Hf|done]. Qed.

Lemma wakeup_resources p : keeps same_resources (wakeup_proc p).
Proof.
  unfold wakeup_proc, sched_class_enqueue, stride_enqueue, field, store. simpl.
  unfold stride_enqueue, field, store. keeps_auto; try (by apply same_resources_upd); done.
Qed.

Section fork.
Context {F : Type} (ops : ops_kind → inode_ops (vst F)).
Context (swap_init_ok : bool) (swap_out : Z → M vms unit) (rounds : nat) (boot_pgdir boot_cr3 forkret : Z).
Notation k := (kern F).

(** From [s0] on, nothing of the process table changed but the descriptor of [p],
    which is [d] now. *)
Definition forking (s0 : k) (p : Z) (d : proc_struct) (s : k) : Prop :=
  ∃ sc, k_pt s = set_psc sc (k_pt s0) ∧ at_proc p (psc (k_pt s0)) sc d.

Lemma forking_pset s0 p d s f :
  forking s0 p d s → ∃ pt, on_pt (pset p f) s = Ok (tt, set_k_pt pt s) ∧ forking s0 p (f d) (set_k_pt pt s).
Proof.
  intros (sc & E & Ha). exists (set_psc (upd_proc p f sc) (k_pt s0)). split.
  - unfold on_pt, zoom. rewrite E. done.
  - exists (upd_proc p f sc). split; [done|]. by apply at_proc_upd.
Qed.

Lemma forking_pget {A} s0 p d s (g : proc_struct → A) : forking s0 p d s → on_pt (pget g p) s = Ok (g d, s).
Proof.
  intros (sc & E & _ & <-). unfold on_pt, zoom. rewrite E. unfold pget, gets. simpl. rewrite <-E. by destruct s.
Qed.

(** The current process is another one and stays as it was. *)
Lemma forking_cur s0 p d s :
  forking s0 p d s → p ≠ current (psc (k_pt s0)) →
  current (psc (k_pt s)) = current (psc (k_pt s0)) ∧ cur_proc s = cur_proc s0.
Proof.
  intros (sc & E & [(f & rl & rh & ->) Hx] & _) Hp. unfold cur_proc. rewrite E. simpl. split; [done|].
  by destruct (Hx (current (psc (k_pt s0)))) as [E' _].
Qed.

(** What a step leaves alone besides the process table: the address spaces and
    files unless they are named. *)
Lemma setup_kstack_spec s0 p d s bs b bs' :
  forking s0 p d s → free_inv (phys (k_vms s)) bs → first_fit 2 bs = Some (b, bs') → 0 ≤ b < npage - nbase →
  ∃ pt p', setup_kstack swap_init_ok swap_out rounds p s = Ok (0, set_k_pt pt (set_k_vms (set_phys p' (k_vms s)) s)) ∧
    forking s0 p (set_kstack (u64 (page2pa b + va_pa_offset)) d) (set_k_pt pt (set_k_vms (set_phys p' (k_vms s)) s)) ∧
    free_inv p' bs' ∧ allocated p' b 2.
Proof.
  intros Hf Hfr Hff Hb. pose proof (default_alloc_pages_first_fit (phys (k_vms s)) bs 2 Hfr ltac:(lia)) as H.
  rewrite Hff in H. destruct H as (p' & E & Hfr' & Ha & _).
  assert (on_pages (alloc_pages swap_init_ok swap_out rounds KSTACKPAGE) s =
    Ok (Some b, set_k_vms (set_phys p' (k_vms s)) s)) as E1.
  { apply zoom_ok. unfold alloc_pages. cbn [alloc_pages_loop]. unfold on_phys, KSTACKPAGE.
    by rewrite (bind_ok _ _ _ _ _ (zoom_ok phys set_phys _ _ _ _ E)). }
  assert (forking s0 p d (set_k_vms (set_phys p' (k_vms s)) s)) as Hf1.
  { destruct Hf as (sc & Ek & Hat). by exists sc. }
  destruct (forking_pset s0 p d _ (set_kstack (u64 (page2pa b + va_pa_offset))) Hf1) as (pt & E2 & Hf2).
  exists pt, p'. split_and!; [|done|done|done]. unfold setup_kstack. rewrite (bind_ok _ _ _ _ _ E1).
  unfold page2kva at 1. rewrite bind_assoc, bind_assert.
  2: { apply Z.ltb_lt. unfold page2pa, page2ppn, PPN, PTXSHIFT.
       rewrite Z.shiftr_shiftl_l by lia. change (12 - 12) with 0. rewrite Z.shiftl_0_r. unfold nbase, npage in *. lia. }
  rewrite bind_ret. by rewrite (bind_ok _ _ _ _ _ E2).
Qed.

(** The address space is shared, or there is none. *)
Definition shared_mm (s : k) (v : vmm) : vmm :=
  match p_mm (cur_proc s) with
  | None => v
  | Some mm => set_mm_count mm (s32 (mm_count v mm + 1)) v
  end.

Definition with_mm (s : k) (d : proc_struct) : proc_struct :=
  match p_mm (cur_proc s) with
  | None => d
  | Some mm => set_cr3 (page2pa (k_pgdir s mm)) (set_mm (Some mm) d)
  end.

Lemma copy_mm_shares s0 p d s a flags :
  forking s0 p d s → p ≠ current (psc (k_pt s0)) → k_pgdir s = k_pgdir s0 →
  p_mm (cur_proc s0) = None ∨ truth (Z.land flags CLONE_VM) = true →
  ∃ pt, let s' := set_k_pt pt (set_k_fs (set_k_vm_mem (shared_mm s0 (k_vmm (k_fs s))) (k_fs s)) s) in
    copy_mm swap_init_ok swap_out rounds boot_pgdir a flags p s = Ok (0, s') ∧ forking s0 p (with_mm s0 d) s'.
Proof.
  intros Hf Hp Hpg Hor. destruct (forking_cur _ _ _ _ Hf Hp) as [_ Ec].
  unfold copy_mm. rewrite bind_gets, Ec. unfold shared_mm, with_mm.
  destruct (p_mm (cur_proc s0)) as [mm|]; [|exists (k_pt s); split; [by destruct s as [? [] ? ? ? ? ? ?]|done]].
  destruct Hor as [Hn|Hor]; [done|]. rewrite Hor. unfold share_mm.
  assert (on_as (on_areas (mm_count_inc mm)) s = Ok (s32 (mm_count (k_vmm (k_fs s)) mm + 1),
    set_k_fs (set_k_vm_mem (set_mm_count mm (s32 (mm_count (k_vmm (k_fs s)) mm + 1)) (k_vmm (k_fs s))) (k_fs s)) s)) as E1.
  { unfold on_as, on_areas, zoom, mm_count_inc. msteps. cbn. by rewrite upd_eq. }
  rewrite (bind_ok _ _ _ _ _ E1). set (s1 := set_k_fs _ s).
  assert (forking s0 p d s1) as Hf1 by (destruct Hf as (sc & E & Ha); by exists sc).
  destruct (forking_pset s0 p d s1 (set_mm (Some mm)) Hf1) as (pt1 & E2 & Hf2).
  rewrite (bind_ok _ _ _ _ _ E2), bind_gets.
  replace (k_pgdir (set_k_pt pt1 s1) mm) with (k_pgdir s0 mm) by (simpl; by rewrite Hpg).
  destruct (forking_pset s0 p _ _ (set_cr3 (page2pa (k_pgdir s0 mm))) Hf2) as (pt2 & E3 & Hf3).
  rewrite (bind_ok _ _ _ _ _ E3). exists pt2. by split.
Qed.

Lemma copy_files_shares s0 p d s a flags fp :
  forking s0 p d s → p ≠ current (psc (k_pt s0)) → p_filesp (cur_proc s0) = Some fp →
  truth (Z.land flags CLONE_FS) = true →
  ∃ pt, let s' := set_k_pt pt (set_k_fs (set_f_count fp (s32 (f_count (k_fs s) fp + 1)) (fs_view s)) s) in
    copy_files ops a flags p s = Ok (0, s') ∧ forking s0 p (set_filesp (Some fp) d) s'.
Proof.
  intros Hf Hp Hfp Hfl. destruct (forking_cur _ _ _ _ Hf Hp) as [_ Ec].
  unfold copy_files. rewrite bind_gets, Ec, Hfp, Hfl.
  assert (on_files (files_count_inc fp) s = Ok (s32 (f_count (k_fs s) fp + 1),
    set_k_fs (set_f_count fp (s32 (f_count (k_fs s) fp + 1)) (fs_view s)) s)) as E1.
  { unfold on_files, zoom, files_count_inc. msteps. cbn. by rewrite upd_eq. }
  rewrite (bind_ok _ _ _ _ _ E1). set (s1 := set_k_fs _ s).
  assert (forking s0 p d s1) as Hf1 by (destruct Hf as (sc & E & Ha); by exists sc).
  destruct (forking_pset s0 p d s1 (set_filesp (Some fp)) Hf1) as (pt1 & E2 & Hf2).
  rewrite (bind_ok _ _ _ _ _ E2). exists pt1. by split.
Qed.

(** The frame the new process starts with. *)
Definition first_frame (addr esp : Z) (tf : trapframe) : trapframe :=
  set_gpr reg_sp (if esp =? 0 then addr else esp) (set_gpr reg_a0 0 tf).

Lemma copy_thread_spec s0 p d s esp tf :
  forking s0 p d s →
  let addr := p_kstack d + KSTACKSIZE - TF_SIZE in
  ∃ s', copy_thread forkret p esp tf s = Ok (tt, s') ∧ k_pt s' = k_pt s ∧ k_fs s' = k_fs s ∧ k_vms s' = k_vms s ∧
    k_frame s' p = first_frame addr esp tf ∧ k_context s' p = Context forkret addr ∧ k_tf s' p = addr.
Proof.
  intros Hf addr. unfold copy_thread. rewrite (bind_ok _ _ _ _ _ (forking_pget s0 p d s p_kstack Hf)).
  msteps. eexists. split; [reflexivity|]. split_and!; try done; simpl; by rewrite upd_eq.
Qed.

(** The descriptor is allocated and the current process made its parent. *)
Lemma fork_begin_spec s p (K : Z → M k Z) :
  let cur := current (psc (k_pt s)) in
  p ≠ cur → p_wait_state (cur_proc s) = 0 →
  ∃ pt, (proc ← on_pt (alloc_proc boot_cr3 (Some p));
         match proc with
         | None => mret (- E_NO_MEM)
         | Some proc =>
           cur ← on_pt get_cur;
           on_pt (pset proc (set_parent (Some cur)));;
           ws ← on_pt (pget p_wait_state cur);
           assert (ws =? 0);;
           K proc
         end) s = K p (set_k_pt pt s) ∧
    forking s p (set_parent (Some cur) (new_proc boot_cr3 (procs (psc (k_pt s)) p))) (set_k_pt pt s).
Proof.
  intros cur Hpc Hws. destruct (alloc_proc_spec boot_cr3 (psc (k_pt s)) (k_pt s) p) as (sc1 & E1 & Ha1). rewrite set_psc_id in E1.
  rewrite (bind_ok _ _ _ _ _ (zoom_ok k_pt set_k_pt _ s _ _ E1)). set (s1 := set_k_pt _ s).
  assert (forking s p (new_proc boot_cr3 (procs (psc (k_pt s)) p)) s1) as Hf1 by by exists sc1.
  destruct (forking_cur _ _ _ _ Hf1 Hpc) as [Ec1 _].
  assert (on_pt get_cur s1 = Ok (cur, s1)) as E2 by (unfold on_pt, zoom, get_cur, gets; rewrite Ec1; done).
  rewrite (bind_ok _ _ _ _ _ E2).
  destruct (forking_pset _ _ _ _ (set_parent (Some cur)) Hf1) as (pt2 & E3 & Hf2).
  rewrite (bind_ok _ _ _ _ _ E3). set (s2 := set_k_pt pt2 s1) in *.
  destruct (forking_cur _ _ _ _ Hf2 Hpc) as [Ec2 Ecp2].
  assert (on_pt (pget p_wait_state cur) s2 = Ok (0, s2)) as E4.
  { unfold cur_proc in Ecp2. rewrite Ec2 in Ecp2. fold cur in Ecp2.
    unfold on_pt, zoom, pget, gets. rewrite Ecp2. unfold cur_proc in Hws. fold cur in Hws. by rewrite Hws. }
  rewrite (bind_ok _ _ _ _ _ E4), bind_assert by done. by exists pt2.
Qed.

(** The process enters the tables and the run pool. *)
Lemma fork_start_spec s0 s ps kids base t p d q :
  forking s0 p d s → ptab_inv None (k_pt s0) ps kids → rq_inv (psc (k_pt s0)) base t →
  p ∉ idleproc (psc (k_pt s0)) :: ps → q ∈ idleproc (psc (k_pt s0)) :: ps → p ∉ elems t → p ≠ current (psc (k_pt s0)) →
  nr_process (k_pt s0) < MAX_PROCESS → Z.of_nat (length (elems t)) + 1 < 2 ^ 32 →
  p_parent d = Some q → p_cptr d = None → p_state d = PROC_UNINIT → p_time_slice d = 0 → p_stride d = 0 →
  stride_rank base 0 ≤ BIG_STRIDE →
  ∃ pid pt t', (on_pt (fork_link p);; on_pt (on_psc (wakeup_proc p));; on_pt (pget p_pid p)) s =
      Ok (pid, set_k_pt pt s) ∧
    1 ≤ pid < MAX_PID ∧ (pid ∉ pids (k_pt s0) ps) ∧ pid_of pt p = pid ∧
    ptab_inv None pt (p :: ps) (upd q (p :: kids q) kids) ∧
    rq_inv (psc pt) base t' ∧ elems t' ≡ₚ p :: elems t ∧
    resources (procs (psc pt) p) = resources d.
Proof.
  clear ops swap_out. intros (sc & Ek & Ho & Hd) Hi Hrq Hp Hq Hpt Hcur Hnr Hroom Hpar Hcp Hst Hts Hstr Hwin.
  pose proof (only_proc_ptab p (k_pt s0) sc ps kids Ho Hp Hi) as Hi1. rewrite <-Ek in Hi1.
  pose proof (only_proc_rq p _ _ base t Ho Hpt Hrq) as Hrq1.
  assert (psc (k_pt s) = sc) as Esc by by rewrite Ek.
  assert (idleproc sc = idleproc (psc (k_pt s0)) ∧ current sc = current (psc (k_pt s0))) as [Eid Ecur].
  { destruct Ho as [(f & rl & rh & ->) _]. done. }
  destruct (fork_link_spec (k_pt s) ps kids p q Hi1) as (pt1 & E1 & Hi2 & Hfresh & Hold & Hlo & _);
    rewrite ?Esc, ?Eid, ?Hd; try done.
  { by rewrite Ek. }
  rewrite Esc in Hlo.
  assert (rq_inv (psc pt1) base t) as Hrq2.
  { eapply rq_inv_links; [exact Hlo|]. eapply rq_inv_upd_out; done. }
  assert (resources (procs (psc pt1) p) = resources d ∧ same_sched_fields (procs (psc pt1) p) d ∧
    current (psc pt1) = current sc ∧ idleproc (psc pt1) = idleproc sc) as (Hres & Hsf & Hc1 & Hid1).
  { destruct Hlo as [[f ->] Hl]. destruct (Hl p) as (a & b & c & e & El). simpl in El |- *. rewrite El, upd_eq, Hd. done. }
  destruct Hsf as (_ & Es & Ets & Estr & _).
  destruct (wakeup_idle_spec (psc pt1) base t p Hrq2) as (t' & sc2 & E2 & Hrq3 & Hel & _ & _);
    rewrite ?Es, ?Ets, ?Hc1, ?Hid1, ?Hst, ?Hts, ?Eid, ?Ecur; try done.
  { intros ->. apply Hp. by left. }
  { unfold srank. by rewrite Estr, Hstr. }
  pose proof (wakeup_same_table p _ _ _ E2) as Hst2. pose proof (wakeup_resources p _ _ _ E2) as Hr2.
  assert (p_pid (procs sc2 p) = pid_of pt1 p) as Hpid2.
  { destruct Hst2 as [Hst2 _]. specialize (Hst2 p). unfold table_fields in Hst2. by simplify_eq. }
  exists (pid_of pt1 p), (set_psc sc2 pt1), t'. split_and!.
  - rewrite (bind_ok _ _ _ _ _ (zoom_ok k_pt set_k_pt _ s _ _ E1)).
    rewrite (bind_ok _ _ _ _ _ (zoom_ok k_pt set_k_pt _ (set_k_pt pt1 s) _ _ (zoom_ok psc set_psc _ pt1 _ _ E2))).
    rewrite <-Hpid2. reflexivity.
  - apply (pt_range _ _ _ _ Hi2). by left.
  - apply (pt_range _ _ _ _ Hi2). by left.
  - replace (pids (k_pt s0) ps) with (pids (k_pt s) ps); [done|]. apply pids_ext. intros x Hx. unfold pid_of.
    rewrite Esc. destruct Ho as [_ Ho]. destruct (Ho x) as [-> _]; [|done]. intros ->. set_solver.
  - done.
  - by apply ptab_inv_sched.
  - done.
  - done.
  - by rewrite <-Hres.
Qed.
End fork.

(** ** Theorems *)


(** The example table of [ProcProofs] with pages to allocate; process 2 runs, has
    the address space 1 and the files 7. *)
Definition example_vst : vst unit :=
  Vst (λ _, 0) (λ _, 0) (λ _, inode_type_device_info) (λ _, None) (λ _, None) (λ _, None)
    (λ _ fd, File FD_NONE false false fd 0 None 0) (λ _, 1) None None [] None
    (Vmm (λ e, ListEntry e e) (λ _, 0) (λ _, 0) (λ _, 0) (λ _, 0) (λ _, None) (λ _, 0) (λ _, 1)) (λ _, 0) tt.

Definition example_pt : ptab :=
  let s := forked [4; 3; 2; 1] in
  set_psc (upd_proc 2 (λ p, set_mm (Some 1) (set_filesp (Some 7) p)) (psc s)) s.

(** 20 free pages above the kernel's image. *)
Definition example_pages : pmm := Pmm.result (bring_up 0x400 20 boot) boot.

Lemma example_kern_pages_inv : free_inv example_pages [(0x400, 20)].
Proof.
  destruct (bring_up_inv boot 0x400 20) as (s1 & E & Hi); [lia..|done|].
  unfold example_pages. rewrite E. apply (ti_inv _ _ _ _ Hi).
Qed.

Definition example_kern : kern unit :=
  Kern example_pt example_vst (Vms example_pages (λ _ _, 0)) (λ _, 0) 0 (λ _, 0) (λ _, Trapframe (λ _, 0) 0 0 0 0)
    (λ _, Context 0 0).

Definition no_ops (k : ops_kind) : inode_ops (vst unit) := 
  InodeOps _ None None None None None None None None None None None None None None None.

Definition example_fork (files : option Z) (flags : Z) : M (kern unit) Z :=
  do_fork no_ops false (λ _, mret tt) 0 0 0 0 (ForkAllocs (Some 5) None [] files) flags 0 (Trapframe (λ _, 0) 0 0 0 0).

Lemma example_pt_inv : ptab_inv None example_pt [4; 3; 2; 1] example_kids.
Proof. apply ptab_inv_sched; [|apply forked_inv]. by apply same_table_upd. Qed.


(** The same system with process 2 a kernel thread. *)
Definition example_kthread : kern unit :=
  set_k_pt (set_psc (upd_proc 2 (set_mm None) (psc example_pt)) example_pt) example_kern.

(** Two paths lose references.  When [copy_files] fails, [do_fork] frees the
    stack and the descriptor but not the address space it has just taken a
    reference to; and [do_exit] of a process without an address space does not
    give back its files, whose count stays as it was. *)
Theorem process_paths_leak :
  (∃ s', example_fork None CLONE_VM example_kern = Ok (- E_NO_MEM, s') ∧
    mm_count (k_vmm (k_fs example_kern)) 1 = 1 ∧ mm_count (k_vmm (k_fs s')) 1 = 2) ∧
  (∃ s', exit_process no_ops false (λ _, mret tt) 0 7 example_kthread = Ok (tt, s') ∧
    p_state (cur_proc s') = PROC_ZOMBIE ∧ p_filesp (cur_proc s') = Some 7 ∧
    f_count (k_fs example_kthread) 7 = 1 ∧ f_count (k_fs s') 7 = 1).
Proof. split; eexists; split_and!; vm_compute; reflexivity. Qed.
