(* ===== verification/Sysfile.v ===== *)
(** * kern/fs/sysfile.c: the file system calls

    The layer between the system calls and file.c: it copies paths, buffers and
    structures between user and kernel memory.  Kernel buffers are arguments (the
    results of [kmalloc]); [lock_mm] and [unlock_mm] bracket the copies and are
    not part of the state. *)

From S2P Require Import Prelude ListH CString Vmm VmmProofs Vfs File FileProofs.

Definition IOBUF_SIZE : Z := 4096.

Section sysfile.
Context {F : Type} (ops : ops_kind → inode_ops (vst F)) (fsops : fs_ops (vst F)) (fuel : nat).

Notation st := (vst F).

(** Copies between user and kernel memory in the address space of the current
    process. *)
Definition on_um {A} (m : M vmm_mem A) : M st A :=
  zoom (λ s, (k_vmm s, k_mem s)) (λ x s, set_k_mem x.2 (set_k_vm_mem x.1 s)) m.

Definition copy_path (buffer : option Z) (from : Z) : M st (Z * option Z) :=
  mm ← gets cur_mm;
  match buffer with
  | None => mret (- E_NO_MEM, None)
  | Some buffer =>
    ok ← on_um (copy_string mm buffer from (FS_MAX_FPATH_LEN + 1));
    if (ok : bool) then mret (0, Some buffer) else mret (- E_INVAL, None)
  end.

Definition sysfile_open (buffer : option Z) (__path open_flags : Z) : M st Z :=
  '(ret, path) ← copy_path buffer __path;
  match path with
  | None => mret ret
  | Some path => file_open ops fsops fuel path open_flags
  end.

Definition sysfile_close (fd : Z) : M st Z := file_close ops fd.

(** The transfer loops.  A round that continues has moved at least one byte, so
    the length bounds the number of rounds. The results are [copied] and [ret]. *)
Fixpoint read_loop (n : nat) (mm : option Z) (fd buffer base len copied : Z) : M st (Z * Z) :=
  match n with
  | O => out_of_fuel
  | S n' =>
    if negb (len =? 0) then
      let alen := if len <? IOBUF_SIZE then len else IOBUF_SIZE in
      '(ret, alen) ← file_read ops fd buffer alen;
      '(ret, base, len, copied) ←
        (if negb (alen =? 0) then
           ok ← on_um (copy_to_user mm base buffer alen);
           if (ok : bool) then
             assert (alen <=? len);;
             mret (ret, base + alen, len - alen, copied + alen)
           else mret (if ret =? 0 then - E_INVAL else ret, base, len, copied)
         else mret (ret, base, len, copied));
      if (negb (ret =? 0) || (alen =? 0))%bool then mret (copied, ret)
      else read_loop n' mm fd buffer base len copied
    else mret (copied, 0)
  end.

Definition sysfile_read (buffer : option Z) (fd base len : Z) : M st Z :=
  mm ← gets cur_mm;
  if len =? 0 then mret 0
  else
    ok ← file_testfd fd true false;
    if negb ok then mret (- E_INVAL)
    else
      match buffer with
      | None => mret (- E_NO_MEM)
      | Some buffer =>
        '(copied, ret) ← read_loop (S (Z.to_nat len)) mm fd buffer base len 0;
        mret (if negb (copied =? 0) then s32 copied else ret)
      end.

Fixpoint write_loop (n : nat) (mm : option Z) (fd buffer base len copied : Z) : M st (Z * Z) :=
  match n with
  | O => out_of_fuel
  | S n' =>
    if negb (len =? 0) then
      let alen := if len <? IOBUF_SIZE then len else IOBUF_SIZE in
      ok ← on_um (copy_from_user mm buffer base alen false);
      '(ret, alen, base, len, copied) ←
        (if negb ok then mret (- E_INVAL, alen, base, len, copied)
         else
           '(ret, alen) ← file_write ops fd buffer alen;
           if negb (alen =? 0) then
             assert (alen <=? len);;
             mret (ret, alen, base + alen, len - alen, copied + alen)
           else mret (ret, alen, base, len, copied));
      if (negb (ret =? 0) || (alen =? 0))%bool then mret (copied, ret)
      else write_loop n' mm fd buffer base len copied
    else mret (copied, 0)
  end.

Definition sysfile_write (buffer : option Z) (fd base len : Z) : M st Z :=
  mm ← gets cur_mm;
  if len =? 0 then mret 0
  else
    ok ← file_testfd fd false true;
    if negb ok then mret (- E_INVAL)
    else
      match buffer with
      | None => mret (- E_NO_MEM)
      | Some buffer =>
        '(copied, ret) ← write_loop (S (Z.to_nat len)) mm fd buffer base len 0;
        mret (if negb (copied =? 0) then s32 copied else ret)
      end.

Definition sysfile_seek (fd pos whence : Z) : M st Z := file_seek ops fd pos whence.

(** [put_stat] writes a [struct stat] to the local variable at [stat]. *)
Definition sysfile_fstat (put_stat : Z → Vfs.stat → M mem unit) (stat fd __stat : Z) : M st Z :=
  mm ← gets cur_mm;
  '(ret, st) ← file_fstat ops fd;
  if negb (ret =? 0) then mret ret
  else
    (match st with Some v => on_mem_k (put_stat stat v) | None => mret tt end);;
    ok ← on_um (copy_to_user mm __stat stat 32);
    mret (if (ok : bool) then 0 else - E_INVAL).

Definition sysfile_fsync (fd : Z) : M st Z := file_fsync ops fd.

Definition sysfile_chdir (buffer : option Z) (__path : Z) : M st Z :=
  '(ret, path) ← copy_path buffer __path;
  match path with
  | None => mret ret
  | Some path => vfs_chdir ops fsops fuel path
  end.

Definition sysfile_link (buffer1 buffer2 : option Z) (__path1 __path2 : Z) : M st Z :=
  '(ret, old_path) ← copy_path buffer1 __path1;
  match old_path with
  | None => mret ret
  | Some old_path =>
    '(ret, new_path) ← copy_path buffer2 __path2;
    match new_path with
    | None => mret ret
    | Some new_path => vfs_link old_path new_path
    end
  end.

Definition sysfile_rename (buffer1 buffer2 : option Z) (__path1 __path2 : Z) : M st Z :=
  '(ret, old_path) ← copy_path buffer1 __path1;
  match old_path with
  | None => mret ret
  | Some old_path =>
    '(ret, new_path) ← copy_path buffer2 __path2;
    match new_path with
    | None => mret ret
    | Some new_path => vfs_rename old_path new_path
    end
  end.

Definition sysfile_unlink (buffer : option Z) (__path : Z) : M st Z :=
  '(ret, path) ← copy_path buffer __path;
  match path with
  | None => mret ret
  | Some path => vfs_unlink path
  end.

(** [colon] is the local variable of [vfs_getcwd]. *)
Definition sysfile_getcwd (colon buf len : Z) : M st Z :=
  mm ← gets cur_mm;
  if len =? 0 then mret (- E_INVAL)
  else
    ok ← on_um (on_vmm (user_mem_check mm buf len true));
    if (ok : bool) then '(ret, _) ← vfs_getcwd ops fuel colon (iobuf_init buf len 0); mret ret
    else mret (- E_INVAL).

(** [get_off] and [put_off] read and write the [offset] field of the kernel copy;
    [name] is at offset 8 of the structure of 264 bytes. *)
Definition sysfile_getdirentry (get_off : Z → M mem Z) (put_off : Z → Z → M mem unit)
    (buffer : option Z) (fd __direntp : Z) : M st Z :=
  mm ← gets cur_mm;
  match buffer with
  | None => mret (- E_NO_MEM)
  | Some direntp =>
    ok ← on_um (copy_from_user mm direntp __direntp 8 true);
    if negb ok then mret (- E_INVAL)
    else
      off ← on_mem_k (get_off direntp);
      '(ret, d) ← file_getdirentry ops fd (Dirent off (direntp + 8));
      if negb (ret =? 0) then mret ret
      else
        on_mem_k (put_off direntp (d_offset d));;
        ok ← on_um (copy_to_user mm __direntp direntp 264);
        mret (if (ok : bool) then 0 else - E_INVAL)
  end.

Definition sysfile_dup (fd1 fd2 : Z) : M st Z := file_dup fd1 fd2.

Definition sysfile_pipe (pipe_create : M st (option Z)) : M st (Z * option (Z * Z)) := file_pipe ops pipe_create.

End sysfile.

(** ** Bounds of the transfers *)

(** The address space of the process is not the file systems' business. *)
Definition same_vm {F} (s s' : vst F) : Prop := k_vmm s' = k_vmm s ∧ cur_mm s' = cur_mm s.

#[global] Instance same_vm_preorder {F} : PreOrder (@same_vm F).
Proof. split; [done|]. intros ??? [] []. split; by etrans. Qed.

(** What the inode operations promise about a transfer: they report 0 or a
    negative error, they move at most what is left of the buffer, and no operation
    changes the address space. *)
Class InodeIoLaws {F} (ops : ops_kind → inode_ops (vst F)) : Prop := {
  law_read_resid : ∀ k f n iob s ret iob' s', vop_read (ops k) = Some f → f n iob s = Ok ((ret, iob'), s') →
    0 ≤ io_resid iob → ret ≤ 0 ∧ io_len iob' = io_len iob ∧ 0 ≤ io_resid iob' ≤ io_resid iob;
  law_write_resid : ∀ k f n iob s ret iob' s', vop_write (ops k) = Some f → f n iob s = Ok ((ret, iob'), s') →
    0 ≤ io_resid iob → ret ≤ 0 ∧ io_len iob' = io_len iob ∧ 0 ≤ io_resid iob' ≤ io_resid iob;
  law_read_vm : ∀ k f n iob, vop_read (ops k) = Some f → keeps same_vm (f n iob);
  law_write_vm : ∀ k f n iob, vop_write (ops k) = Some f → keeps same_vm (f n iob);
  law_close_vm : ∀ k f n, vop_close (ops k) = Some f → keeps same_vm (f n);
  law_reclaim_vm : ∀ k f n, vop_reclaim (ops k) = Some f → keeps same_vm (f n);
}.

Section bounds.
Context {F : Type} (ops : ops_kind → inode_ops (vst F)) `{!InodeOpsLaws ops, !InodeIoLaws ops}.
Context (ps : list Z) (extra : Z → Z).

Implicit Types s : vst F.

Lemma vop_op_inv {A} (sym : inode_ops (vst F) → option A) n s op s' :
  vop_op ops sym n s = Ok (op, s') → s' = s ∧ ∃ k, sym (ops k) = Some op.
Proof.
  unfold vop_op. rewrite bind_gets. destruct (i_ops s n) as [k|]; [|done]. simpl.
  destruct (sym (ops k)) as [o|] eqn:E; [|done]. intros (u & s1 & E1 & E2)%bind_ok_inv. injection E2 as -> <-.
  split; [|by exists k]. revert E1. unfold inode_check.
  assert (keeps (λ s s', s' = s) (inode_check n : M (vst F) unit)) as Hk.
  { unfold inode_check. assert (PreOrder (λ s s' : vst F, s' = s)) by (split; [done|by intros ??? -> ->]). keeps_auto. }
  intros E1. by apply (Hk _ _ _ E1).
Qed.

(** An operation of the table keeps what all entries of that name keep. *)
Lemma keeps_vop {A B} (sym : inode_ops (vst F) → option A) n (k : A → M (vst F) B) :
  (∀ kd f, sym (ops kd) = Some f → keeps same_vm (k f)) → keeps same_vm (f ← vop_op ops sym n; k f).
Proof.
  intros Hk s b s' (f & s1 & E1 & E2)%bind_ok_inv. apply vop_op_inv in E1 as [-> [kd E]]. by eapply Hk.
Qed.

Ltac keeps_vfs := repeat first [apply keeps_vop; intros | keeps_step]; try done.

Lemma vfs_close_vm n : keeps same_vm (vfs_close ops n).
Proof.
  unfold vfs_close, inode_open_dec, inode_ref_dec. keeps_vfs; [by eapply law_close_vm|by eapply law_reclaim_vm].
Qed.

Lemma fd_array_release_vm p fd : keeps same_vm (fd_array_release ops p fd).
Proof.
  unfold fd_array_release, fopen_count_dec, fd_array_free, upd_file.
  keeps_vfs; [by eapply law_close_vm|by eapply law_reclaim_vm].
Qed.

(** A transfer moves at most [len] bytes. *)
Lemma file_io_copied (write : bool) p fd base len s ret c s' :
  0 ≤ len < 2 ^ 64 → file_io ops (if write then vop_write else vop_read) p fd base len s = Ok ((ret, c), s') →
  ret ≤ 0 ∧ 0 ≤ c ≤ len ∧ same_vm s s'.
Proof.
  intros Hl. unfold file_io. intros (u & s1 & E1 & E)%bind_ok_inv.
  assert (same_vm s s1) as H1.
  { revert s u s1 E1 E. intros s u s1 E1 _. revert s u s1 E1. change (keeps same_vm (fd_array_acquire p fd : M (vst F) unit)).
    unfold fd_array_acquire, fopen_count_inc, upd_file. keeps_vfs. }
  rewrite bind_gets in E. destruct (fl_node (the_file s1 p fd)) as [n|]; [|done].
  apply bind_ok_inv in E as (op & s2 & E2 & E). apply vop_op_inv in E2 as [-> [k Hop]].
  apply bind_ok_inv in E as ([ret' iob] & s3 & E3 & E). rewrite bind_gets in E.
  assert (same_vm s1 s3 ∧ ret' ≤ 0 ∧ io_len iob = len ∧ 0 ≤ io_resid iob ≤ len) as (H3 & Hneg & Hlen & Hres).
  { destruct write.
    - destruct (law_write_resid _ _ _ _ _ _ _ _ Hop E3) as [? ?]; [simpl; lia|]. by split; [eapply law_write_vm|].
    - destruct (law_read_resid _ _ _ _ _ _ _ _ Hop E3) as [? ?]; [simpl; lia|]. by split; [eapply law_read_vm|]. }
  apply bind_ok_inv in E as (u2 & s4 & E4 & E). apply bind_ok_inv in E as (u3 & s5 & E5 & E).
  injection E as <- <- <-. split; [done|]. split.
  - unfold iobuf_used. rewrite Hlen, u64_small by lia. lia.
  - etrans; [exact H1|]. etrans; [exact H3|]. etrans; [|by eapply fd_array_release_vm].
    assert (keeps (@same_vm F) (when (bool_decide (fl_status (the_file s3 p fd) = FD_OPENED))
      (upd_file p fd (λ f, fl_set_pos (s64 (fl_pos f + iobuf_used iob)) f)))) as Hk by (unfold upd_file; keeps_vfs).
    by apply (Hk _ _ _ E4).
Qed.

Lemma file_rw_copied (write : bool) fd base len s r s' :
  0 ≤ len < 2 ^ 64 → (if write then file_write ops fd base len else file_read ops fd base len) s = Ok (r, s') →
  r.1 ≤ 0 ∧ 0 ≤ r.2 ≤ len ∧ same_vm s s'.
Proof.
  intros Hl. destruct r as [ret c]. destruct write; unfold file_write, file_read;
    intros (o & s1 & E1 & E)%bind_ok_inv.
  - assert (same_vm s s1) as H1 by (revert s o s1 E1 E; intros s o s1 E1 _; revert s o s1 E1;
      change (keeps same_vm (fd2file fd : M (vst F) (option Z))); unfold fd2file, get_fd_array; keeps_vfs).
    destruct o as [p|]; [|injection E as <- <- <-; split_and!; [simpl; unfold E_INVAL; lia|simpl; lia..|done]]. rewrite bind_gets in E.
    destruct (negb _); [injection E as <- <- <-; split_and!; [simpl; unfold E_INVAL; lia|simpl; lia..|done]|].
    destruct (file_io_copied true p fd base len s1 ret c s' Hl E) as (? & ? & ?). split; [done|]. split; [done|by etrans].
  - assert (same_vm s s1) as H1 by (revert s o s1 E1 E; intros s o s1 E1 _; revert s o s1 E1;
      change (keeps same_vm (fd2file fd : M (vst F) (option Z))); unfold fd2file, get_fd_array; keeps_vfs).
    destruct o as [p|]; [|injection E as <- <- <-; split_and!; [simpl; unfold E_INVAL; lia|simpl; lia..|done]]. rewrite bind_gets in E.
    destruct (negb _); [injection E as <- <- <-; split_and!; [simpl; unfold E_INVAL; lia|simpl; lia..|done]|].
    destruct (file_io_copied false p fd base len s1 ret c s' Hl E) as (? & ? & ?). split; [done|]. split; [done|by etrans].
Qed.

(** *** The copies *)

Lemma copy_up_returns n d sp m : ∃ m', copy_up n d sp m = Ok (tt, m').
Proof. revert d sp m. induction n as [|n IH]; intros d sp m; [by eexists|]. apply IH. Qed.

(** The part of the state the copies may change. *)
Definition same_files (s s' : vst F) : Prop :=
  f_array s' = f_array s ∧ f_count s' = f_count s ∧ cur_filesp s' = cur_filesp s ∧ cur_mm s' = cur_mm s ∧
  i_ref s' = i_ref s ∧ i_open s' = i_open s ∧ i_ops s' = i_ops s.

Lemma on_um_copy (to : bool) s mm vs dst src len :
  mm_inv (k_vmm s) mm vs → 0 ≤ (if to then dst else src) → 0 ≤ len → (if to then dst else src) + len < 2 ^ 64 →
  ∃ b s', on_um (if to then copy_to_user (Some mm) dst src len else copy_from_user (Some mm) dst src len false) s = Ok (b, s') ∧
    mm_inv (k_vmm s') mm vs ∧ same_files s s'.
Proof.
  intros Hi Hd Hl Hb. unfold on_um, zoom.
  destruct (user_mem_check_spec (k_vmm s) mm vs (if to then dst else src) len to Hi Hd Hl Hb) as (b & v & E & _ & Hi' & _).
  destruct (copy_up_returns (Z.to_nat len) dst src (k_mem s)) as [m' Em].
  assert ((if to then copy_to_user (Some mm) dst src len else copy_from_user (Some mm) dst src len false) (k_vmm s, k_mem s)
    = Ok (b, (v, if b then m' else k_mem s))) as ->.
  { destruct to; unfold copy_to_user, copy_from_user, on_vmm;
      rewrite (bind_ok _ _ _ _ _ (zoom_ok fst _ _ (k_vmm s, k_mem s) b v E));
      (destruct b; cbn [negb]; [|done]); unfold on_mem; cbn beta; cbn [snd];
      assert (memcpy dst src len (k_mem s) = Ok (dst, m')) as Ec by (unfold memcpy; by rewrite (bind_ok _ _ _ _ _ Em));
      by rewrite (bind_ok _ _ _ _ _ (zoom_ok snd _ _ (v, k_mem s) dst m' Ec)). }
  eexists _, _. split; [reflexivity|]. by split.
Qed.

Lemma same_files_ok s s' p :
  same_files s s' → files_ok ops ps extra s → running_in ps s p → files_ok ops ps extra s' ∧ running_in ps s' p.
Proof.
  intros (Ha & Hc & Hcur & _ & Hr & Ho & Hk) Hi Hrun. split; [by eapply files_ok_same|].
  unfold running_in. by rewrite Hcur, Hc.
Qed.

(** The state between two rounds of a transfer. *)
Record io_ready (s : vst F) (p mm : Z) (vs : list Z) : Prop := IoReady {
  ir_files : files_ok ops ps extra s;
  ir_run : running_in ps s p;
  ir_mm : cur_mm s = Some mm;
  ir_inv : mm_inv (k_vmm s) mm vs;
}.

(** The position of a file has moved by [d] bytes. *)
Definition moved (s s' : vst F) (p fd d : Z) : Prop :=
  s64 (fl_pos (f_array s' p fd)) = s64 (fl_pos (f_array s p fd) + d).

Lemma moved_refl s p fd : moved s s p fd 0.
Proof. unfold moved. by rewrite Z.add_0_r. Qed.

Lemma moved_trans s s1 s2 p fd d e : moved s s1 p fd d → moved s1 s2 p fd e → moved s s2 p fd (d + e).
Proof. unfold moved. intros H1 H2. rewrite H2, s64_add_l, H1, <-s64_add_l. by rewrite Z.add_assoc. Qed.

Lemma io_ready_rw (write : bool) s p mm vs fd base len :
  io_ready s p mm vs → (∀ k, vop_read (ops k) ≠ None ∧ vop_write (ops k) ≠ None) → 0 ≤ len < 2 ^ 64 →
  ∃ r s', (if write then file_write ops fd base len else file_read ops fd base len) s = Ok (r, s') ∧
    io_ready s' p mm vs ∧ r.1 ≤ 0 ∧ 0 ≤ r.2 ≤ len ∧ moved s s' p fd r.2.
Proof.
  intros [Hf Hr Hm Hv] Hall Hl.
  destruct (file_rw_spec ops ps extra write s p fd base len Hf Hr) as [[(_ & _ & _ & n & k & _ & _ & Hk) _]|(r & s' & E & Hf' & Hr' & Hpos)].
  { destruct (Hall k) as [? ?]. by destruct write. }
  destruct (file_rw_copied write fd base len s r s' Hl E) as (Hneg & Hc & [Hvm Hmm]).
  exists r, s'. split; [done|]. split; [split; [done|done|congruence|by rewrite Hvm]|]. split_and!; [done|lia..|].
  revert Hpos. cbv zeta. destruct (testfd fd && _ && _)%bool; [intros Hst|intros [-> ->]; apply moved_refl].
  unfold moved. rewrite (Hst p fd), decide_True by done. cbn [fl_pos fl_set_pos]. apply s64_idem.
Qed.

Lemma io_ready_copy (to : bool) s p mm vs fd dst src len :
  io_ready s p mm vs → 0 ≤ (if to then dst else src) → 0 ≤ len → (if to then dst else src) + len < 2 ^ 64 →
  ∃ b s', on_um (if to then copy_to_user (Some mm) dst src len else copy_from_user (Some mm) dst src len false) s = Ok (b, s') ∧
    io_ready s' p mm vs ∧ moved s s' p fd 0.
Proof.
  intros [Hf Hr Hm Hv] H0 Hl Hb. destruct (on_um_copy to s mm vs dst src len Hv H0 Hl Hb) as (b & s' & E & Hv' & Hs).
  exists b, s'. split; [done|]. destruct (same_files_ok s s' p Hs Hf Hr) as [? ?].
  destruct Hs as (Ha & _ & _ & Hm' & _). split; [split; [done|done|by rewrite Hm'|done]|].
  unfold moved. rewrite Ha. by rewrite Z.add_0_r.
Qed.

(** The end of a transfer: [c] bytes counted, [d] bytes by which the file position
    moved. *)
Definition transferred (s s' : vst F) (p mm : Z) (vs : list Z) (fd len c d ret : Z) : Prop :=
  io_ready s' p mm vs ∧ ret ≤ 0 ∧ 0 ≤ c ≤ d ∧ d ≤ len ∧ (ret = 0 → d = c) ∧ moved s s' p fd d.

Lemma transferred_step s s1 s' p mm vs fd len a c d ret :
  moved s s1 p fd a → 0 ≤ a → transferred s1 s' p mm vs fd (len - a) c d ret →
  transferred s s' p mm vs fd len (a + c) (a + d) ret.
Proof.
  intros Hm Ha (Hr & Hret & Hc & Hd & Heq & Hmv). split_and!; [done|done|lia|lia|lia|lia|].
  by eapply moved_trans.
Qed.

Lemma moved_0_r s s1 s2 p fd d : moved s s1 p fd d → moved s1 s2 p fd 0 → moved s s2 p fd d.
Proof. intros H1 H2. rewrite <-(Z.add_0_r d). by eapply moved_trans. Qed.

Lemma read_loop_spec n s p mm vs fd buffer base len copied :
  io_ready s p mm vs → (∀ k, vop_read (ops k) ≠ None ∧ vop_write (ops k) ≠ None) →
  0 ≤ base → 0 ≤ len → base + len < 2 ^ 64 → (Z.to_nat len < n)%nat →
  ∃ c d ret s', read_loop ops n (Some mm) fd buffer base len copied s = Ok ((copied + c, ret), s') ∧
    transferred s s' p mm vs fd len c d ret.
Proof.
  intros Hr Hall. revert s base len copied Hr.
  induction n as [|n IH]; intros s base len copied Hr Hb Hl Hbl Hn; [lia|]. cbn [read_loop].
  destruct (Z.eqb_spec len 0) as [->|Hl0]; cbn [negb].
  { exists 0, 0, 0, s. rewrite Z.add_0_r. split; [done|]. split_and!; [done|lia..|done|apply moved_refl]. }
  set (a := if len <? IOBUF_SIZE then len else IOBUF_SIZE).
  assert (0 < a ≤ len) as Ha by (unfold a, IOBUF_SIZE; destruct (Z.ltb_spec len 4096); lia).
  destruct (io_ready_rw false s p mm vs fd buffer a Hr Hall ltac:(lia)) as ([ret al] & s1 & E1 & Hr1 & Hneg & Hal & Hm1).
  rewrite (bind_ok _ _ _ _ _ E1). cbn [fst snd] in *. destruct (Z.eqb_spec al 0) as [->|Hal0]; cbn [negb].
  { rewrite bind_ret, orb_true_r. exists 0, 0, ret, s1. rewrite Z.add_0_r. split; [done|].
    split_and!; [done|lia..|done|done]. }
  destruct (io_ready_copy true s1 p mm vs fd base buffer al Hr1) as (ok & s2 & E2 & Hr2 & Hm2); [lia|lia|lia|].
  pose proof (moved_0_r _ _ _ _ _ _ Hm1 Hm2) as Hm.
  rewrite bind_assoc, (bind_ok _ _ _ _ _ E2). destruct ok.
  - rewrite bind_assoc, bind_assert by (apply Z.leb_le; lia). rewrite bind_ret.
    destruct (Z.eqb_spec al 0) as [|_]; [done|]. rewrite orb_false_r. destruct (Z.eqb_spec ret 0); cbn [negb].
    + destruct (IH s2 (base + al) (len - al) (copied + al) Hr2) as (c & d & r' & s' & E & Ht); [lia..|].
      exists (al + c), (al + d), r', s'. split; [rewrite Z.add_assoc; exact E|]. eapply transferred_step; [done|lia|done].
    + exists al, al, ret, s2. split; [done|]. split_and!; [done|lia..|done|done].
  - rewrite bind_ret. set (ret' := if ret =? 0 then - E_INVAL else ret).
    assert (ret' < 0) as Hneg' by (unfold ret', E_INVAL; destruct (Z.eqb_spec ret 0); lia).
    destruct (Z.eqb_spec ret' 0); [lia|]. exists 0, al, ret', s2. rewrite Z.add_0_r. split; [done|].
    split_and!; [done|lia..|done].
Qed.

Lemma write_loop_spec n s p mm vs fd buffer base len copied :
  io_ready s p mm vs → (∀ k, vop_read (ops k) ≠ None ∧ vop_write (ops k) ≠ None) →
  0 ≤ base → 0 ≤ len → base + len < 2 ^ 64 → (Z.to_nat len < n)%nat →
  ∃ c ret s', write_loop ops n (Some mm) fd buffer base len copied s = Ok ((copied + c, ret), s') ∧
    transferred s s' p mm vs fd len c c ret.
Proof.
  intros Hr Hall. revert s base len copied Hr.
  induction n as [|n IH]; intros s base len copied Hr Hb Hl Hbl Hn; [lia|]. cbn [write_loop].
  destruct (Z.eqb_spec len 0) as [->|Hl0]; cbn [negb].
  { exists 0, 0, s. rewrite Z.add_0_r. split; [done|]. split_and!; [done|lia..|done|apply moved_refl]. }
  set (a := if len <? IOBUF_SIZE then len else IOBUF_SIZE).
  assert (0 < a ≤ len) as Ha by (unfold a, IOBUF_SIZE; destruct (Z.ltb_spec len 4096); lia).
  destruct (io_ready_copy false s p mm vs fd buffer base a Hr) as (ok & s1 & E1 & Hr1 & Hm1); [lia|lia|lia|].
  rewrite (bind_ok _ _ _ _ _ E1). destruct ok; cbn [negb].
  2: { rewrite bind_ret. exists 0, (- E_INVAL), s1. rewrite Z.add_0_r. split; [done|].
       split_and!; [done|unfold E_INVAL; lia|lia..|done|done]. }
  destruct (io_ready_rw true s1 p mm vs fd buffer a Hr1 Hall ltac:(lia)) as ([ret al] & s2 & E2 & Hr2 & Hneg & Hal & Hm2).
  pose proof (moved_trans _ _ _ _ _ _ _ Hm1 Hm2) as Hm. rewrite Z.add_0_l in Hm.
  rewrite bind_assoc, (bind_ok _ _ _ _ _ E2). cbn [fst snd] in *. destruct (Z.eqb_spec al 0) as [->|Hal0]; cbn [negb].
  { rewrite bind_ret, orb_true_r. exists 0, ret, s2. rewrite Z.add_0_r. split; [done|].
    split_and!; [done|lia..|done|done]. }
  rewrite bind_assoc, bind_assert by (apply Z.leb_le; lia). rewrite bind_ret.
  destruct (Z.eqb_spec al 0) as [|_]; [done|]. rewrite orb_false_r. destruct (Z.eqb_spec ret 0); cbn [negb].
  - destruct (IH s2 (base + al) (len - al) (copied + al) Hr2) as (c & r' & s' & E & Ht); [lia..|].
    exists (al + c), r', s'. split; [rewrite Z.add_assoc; exact E|]. eapply transferred_step; [done|lia|done].
  - exists al, ret, s2. split; [done|]. split_and!; [done|lia..|done|done].
Qed.
End bounds.

(** ** Properties *)

(** [sysfile_read] and [sysfile_write] return on every descriptor, user
    address and length, whatever partial transfers the inode operations make: no
    assertion fails, the loops end, and the tables and the address space stay well
    formed.  The result is the number of bytes moved, at most the length asked
    for, or, if there are none, 0 or the negative error.  A write advances the
    file position by exactly the bytes it counts; a read advances it by [d], which
    is more than it counts only if an error ended the transfer. *)
Theorem sysfile_transfer_bounded {F} (ops : ops_kind → inode_ops (vst F)) `{!InodeOpsLaws ops, !InodeIoLaws ops}
    ps extra s p mm vs buffer fd base len :
  io_ready ops ps extra s p mm vs → (∀ k, vop_read (ops k) ≠ None ∧ vop_write (ops k) ≠ None) →
  0 ≤ base → 0 ≤ len < 2 ^ 31 → base + len < 2 ^ 64 →
  (∃ s' c d ret, sysfile_read ops (Some buffer) fd base len s = Ok (if c =? 0 then ret else c, s') ∧
     transferred ops ps extra s s' p mm vs fd len c d ret) ∧
  (∃ s' c ret, sysfile_write ops (Some buffer) fd base len s = Ok (if c =? 0 then ret else c, s') ∧
     transferred ops ps extra s s' p mm vs fd len c c ret).
Proof.
  intros Hr Hall Hb Hl Hbl. pose proof (ir_files _ _ _ _ _ _ _ Hr) as Hf. pose proof (ir_run _ _ _ _ _ _ _ Hr) as Hrun.
  assert (∀ rd wr, ∃ b, file_testfd fd rd wr s = Ok (b, s)) as Ht.
  { intros rd wr. unfold file_testfd. rewrite (bind_ok _ _ _ _ _ (fd2file_spec ops ps extra s p fd Hf Hrun)).
    destruct (_ && _)%bool; eauto. }
  assert (∀ c ret, 0 ≤ c ≤ len → (if negb (c =? 0) then s32 c else ret) = if c =? 0 then ret else c) as Hres.
  { intros c ret Hc. destruct (c =? 0); cbn [negb]; [done|]. apply s32_small. lia. }
  assert (∀ ret, ret ≤ 0 → transferred ops ps extra s s p mm vs fd len 0 0 ret) as Hnone.
  { intros ret Hret. split_and!; [done|lia..|done|apply moved_refl]. }
  split.
  - unfold sysfile_read. rewrite bind_gets. destruct (Z.eqb_spec len 0) as [->|].
    { exists s, 0, 0, 0. split; [done|]. by apply Hnone. }
    destruct (Ht true false) as [b E]. rewrite (bind_ok _ _ _ _ _ E). destruct b; cbn [negb].
    2: { exists s, 0, 0, (- E_INVAL). split; [done|]. apply Hnone. unfold E_INVAL. lia. }
    rewrite (ir_mm _ _ _ _ _ _ _ Hr).
    destruct (read_loop_spec ops ps extra (S (Z.to_nat len)) s p mm vs fd buffer base len 0 Hr Hall)
      as (c & d & ret & s' & E' & Htr); [lia..|]. rewrite (bind_ok _ _ _ _ _ E'), Z.add_0_l. exists s', c, d, ret.
    split; [|done]. destruct Htr as (_ & _ & Hc & Hd & _). by rewrite <-(Hres c ret) by lia.
  - unfold sysfile_write. rewrite bind_gets. destruct (Z.eqb_spec len 0) as [->|].
    { exists s, 0, 0. split; [done|]. by apply Hnone. }
    destruct (Ht false true) as [b E]. rewrite (bind_ok _ _ _ _ _ E). destruct b; cbn [negb].
    2: { exists s, 0, (- E_INVAL). split; [done|]. apply Hnone. unfold E_INVAL. lia. }
    rewrite (ir_mm _ _ _ _ _ _ _ Hr).
    destruct (write_loop_spec ops ps extra (S (Z.to_nat len)) s p mm vs fd buffer base len 0 Hr Hall)
      as (c & ret & s' & E' & Htr); [lia..|]. rewrite (bind_ok _ _ _ _ _ E'), Z.add_0_l. exists s', c, ret.
    split; [|done]. destruct Htr as (_ & _ & Hc & Hd & _). by rewrite <-(Hres c ret) by lia.
Qed.

#[export] Instance null_io_laws : InodeIoLaws null_ops.
Proof.
  split.
  - intros k f n iob s ret iob' s' [= <-] [= <- <- <-]. lia.
  - intros k f n iob s ret iob' s' [= <-] [= <- <- <-]. lia.
  - intros k f n iob [= <-]. apply keeps_ret. exact _.
  - intros k f n iob [= <-]. apply keeps_ret. exact _.
  - intros k f n [= <-]. apply keeps_ret. exact _.
  - intros k f n [= <-]. apply keeps_ret. exact _.
Qed.

(** The state of the example of [FileProofs] in an address space with two areas. *)
Definition one_file_user : vst unit :=
  Vst (i_ref one_file) (i_open one_file) (i_type one_file) (i_ops one_file) (i_fs one_file) (f_pwd one_file)
    (f_array one_file) (f_count one_file) (cur_filesp one_file) (bootfs_node one_file) (vdev_list one_file)
    (Some 1) example_vmm (k_mem one_file) tt.

Lemma sysfile_transfer_bounded_witness : ∃ r s',
  sysfile_read null_ops (Some 0x400000) 0 0x200ff0 16 one_file_user = Ok (r, s') ∧ r ≤ 16.
Proof.
  destruct (sysfile_transfer_bounded null_ops [1] (λ _, 0) one_file_user 1 1 [10; 11] 0x400000 0 0x200ff0 16)
    as [(s' & c & d & ret & E & _ & Hret & Hc & Hd & _) _].
  - split.
    + apply (files_ok_same null_ops [1] (λ _, 0) one_file); [reflexivity..|by apply one_file_ok].
    + apply one_file_runs.
    + reflexivity.
    + apply example_vmm_inv.
  - intros k. split; discriminate.
  - lia.
  - lia.
  - lia.
  - exists (if c =? 0 then ret else c), s'. split; [exact E|]. destruct (c =? 0); lia.
Defined.
