(* ===== verification/Pipe.v ===== *)
(** * Pipes and the standard input

    kern/fs/pipe/pipe.c and kern/fs/devs/dev_stdin.c: two ring buffers whose
    readers (and for pipes, writers) block in wait queues.  Both are [thread]s of
    [Sync].  The bytes of a pipe form an abstract queue; reads and writes that need
    not block are shown to be its operations. *)

From S2P Require Import Prelude ListH SkewHeap Sched SchedProofs CString Sync SyncProofs.

Definition PIPE_BUFFER_SIZE : Z := 4096.
Definition STDIN_BUFSIZE : Z := 4096.
Definition WT_IPC : Z := Z.lor 0x00000008 WT_INTERRUPTED.

(** The fields of all pipes, the globals of dev_stdin.c, and memory. *)
Record pst := Pst {
  psync : sync;
  p_head : Z → Z;
  p_tail : Z → Z;
  p_buffer : Z → Z → Z;
  stdin_buffer : Z → Z;
  p_rpos : Z;
  p_wpos : Z;
  pmem : mem;
}.

Definition set_psync (v : sync) (s : pst) : pst :=
  Pst v (p_head s) (p_tail s) (p_buffer s) (stdin_buffer s) (p_rpos s) (p_wpos s) (pmem s).
Definition set_p_head (p v : Z) (s : pst) : pst :=
  Pst (psync s) (upd p v (p_head s)) (p_tail s) (p_buffer s) (stdin_buffer s) (p_rpos s) (p_wpos s) (pmem s).
Definition set_p_tail (p v : Z) (s : pst) : pst :=
  Pst (psync s) (p_head s) (upd p v (p_tail s)) (p_buffer s) (stdin_buffer s) (p_rpos s) (p_wpos s) (pmem s).
Definition set_p_buffer (p i v : Z) (s : pst) : pst :=
  Pst (psync s) (p_head s) (p_tail s) (upd p (upd i v (p_buffer s p)) (p_buffer s)) (stdin_buffer s) (p_rpos s) (p_wpos s) (pmem s).
Definition set_stdin_buffer (i v : Z) (s : pst) : pst :=
  Pst (psync s) (p_head s) (p_tail s) (p_buffer s) (upd i v (stdin_buffer s)) (p_rpos s) (p_wpos s) (pmem s).
Definition set_p_rpos (v : Z) (s : pst) : pst :=
  Pst (psync s) (p_head s) (p_tail s) (p_buffer s) (stdin_buffer s) v (p_wpos s) (pmem s).
Definition set_p_wpos (v : Z) (s : pst) : pst :=
  Pst (psync s) (p_head s) (p_tail s) (p_buffer s) (stdin_buffer s) (p_rpos s) v (pmem s).
Definition set_pmem (p v : Z) (s : pst) : pst :=
  Pst (psync s) (p_head s) (p_tail s) (p_buffer s) (stdin_buffer s) (p_rpos s) (p_wpos s) (upd p v (pmem s)).

Definition on_sync {A} (m : M sync A) : M pst A := zoom psync set_psync m.

(** The branch both loops take on an empty (or full) buffer: sleep in [q] and,
    when woken with [flags], go on with [again], else leave with [ret]. *)
Definition block_in {A} (q : queue) (flags : Z) (again : M pst (thread pst A)) (leave : A) : M pst (thread pst A) :=
  wait ← on_sync get_current;
  on_sync (wait_current_set q wait flags);;
  on_sync (on_sc schedule);;
  mret (Suspended (
    on_sync (wait_current_del q wait);;
    woken ← on_sync (gets (λ s, w_flags s wait));
    if woken =? flags then again else tret leave)).

(** Wakes everybody in [q]; [nw] bounds their number. *)
Definition wake_all (nw : nat) (q : queue) (flags : Z) : M pst unit :=
  empty ← on_sync (wait_queue_empty q);
  when (negb empty) (on_sync (wakeup_queue nw q flags true)).

(** ** kern/fs/pipe/pipe.c *)

Definition pipe_empty (pip : Z) (s : pst) : bool := p_head s pip =? p_tail s pip.
Definition pipe_full (pip : Z) (s : pst) : bool := p_head s pip =? (p_tail s pip + 1) mod PIPE_BUFFER_SIZE.

(** [fuel] bounds the bytes moved and the times the reader is woken. *)
Fixpoint pipe_read_loop (fuel nw : nat) (pip base resid ret : Z) : M pst (thread pst Z) :=
  match fuel with
  | O => out_of_fuel
  | S fuel' =>
    if ret <? resid then
      empty ← gets (pipe_empty pip);
      if negb empty then
        c ← gets (λ s, p_buffer s pip (p_head s pip));
        modify (set_pmem base c);;
        wake_all nw (QPipeWrite pip) WT_IPC;;
        modify (λ s, set_p_head pip ((p_head s pip + 1) mod PIPE_BUFFER_SIZE) s);;
        pipe_read_loop fuel' nw pip (base + 1) resid (ret + 1)
      else block_in (QPipeRead pip) WT_IPC (pipe_read_loop fuel' nw pip base resid ret) ret
    else tret ret
  end.

(** The result is also what is subtracted from [io_resid]. *)
Definition pipe_read (fuel nw : nat) (pip base resid : Z) : M pst (thread pst Z) :=
  pipe_read_loop fuel nw pip base resid 0.

Fixpoint pipe_write_loop (fuel nw : nat) (pip base resid ret : Z) : M pst (thread pst Z) :=
  match fuel with
  | O => out_of_fuel
  | S fuel' =>
    if ret <? resid then
      full ← gets (pipe_full pip);
      if negb full then
        c ← gets (λ s, pmem s base);
        modify (λ s, set_p_buffer pip (p_tail s pip) c s);;
        wake_all nw (QPipeRead pip) WT_IPC;;
        modify (λ s, set_p_tail pip ((p_tail s pip + 1) mod PIPE_BUFFER_SIZE) s);;
        pipe_write_loop fuel' nw pip (base + 1) resid (ret + 1)
      else block_in (QPipeWrite pip) WT_IPC (pipe_write_loop fuel' nw pip base resid ret) ret
    else tret ret
  end.

Definition pipe_write (fuel nw : nat) (pip base resid : Z) : M pst (thread pst Z) :=
  pipe_write_loop fuel nw pip base resid 0.

(** The part of [pipe_create_inode] that sets up the pipe. *)
Definition pipe_setup (pip : Z) : M pst unit :=
  modify (set_p_head pip 0);;
  modify (set_p_tail pip 0);;
  on_sync (wait_queue_init (QPipeRead pip));;
  on_sync (wait_queue_init (QPipeWrite pip)).

(** ** kern/fs/devs/dev_stdin.c *)

Definition dev_stdin_write (nw : nat) (c : Z) : M pst unit :=
  when (negb (c =? 0))
    (modify (λ s, set_stdin_buffer (p_wpos s mod STDIN_BUFSIZE) c s);;
     s ← gets id;
     when (p_wpos s - p_rpos s <? STDIN_BUFSIZE) (modify (λ s, set_p_wpos (p_wpos s + 1) s));;
     wake_all nw QStdin WT_KBD).

Fixpoint dev_stdin_read_loop (fuel : nat) (buf len ret : Z) : M pst (thread pst Z) :=
  match fuel with
  | O => out_of_fuel
  | S fuel' =>
    if ret <? len then
      s ← gets id;
      if p_rpos s <? p_wpos s then
        modify (λ s, set_pmem buf (stdin_buffer s (p_rpos s mod STDIN_BUFSIZE)) s);;
        modify (λ s, set_p_rpos (p_rpos s + 1) s);;
        dev_stdin_read_loop fuel' (buf + 1) len (ret + 1)
      else block_in QStdin WT_KBD (dev_stdin_read_loop fuel' buf len ret) ret
    else tret ret
  end.

Definition dev_stdin_read (fuel : nat) (buf len : Z) : M pst (thread pst Z) := dev_stdin_read_loop fuel buf len 0.

Definition stdin_device_init : M pst unit :=
  modify (λ s, set_p_rpos 0 (set_p_wpos 0 s));;
  on_sync (wait_queue_init QStdin).

(** ** The queue of a pipe *)

(** The number of bytes in the ring, and the bytes from the head on. *)
Definition pipe_count (s : pst) (pip : Z) : Z := (p_tail s pip - p_head s pip) mod PIPE_BUFFER_SIZE.

Definition pipe_bytes (s : pst) (pip : Z) : list Z :=
  (λ i, p_buffer s pip ((p_head s pip + i) mod PIPE_BUFFER_SIZE)) <$> seqZ 0 (pipe_count s pip).

(** A well-formed pipe that no process waits on. *)
Record quiet_pipe (s : pst) (pip : Z) : Prop := QuietPipe {
  pi_head : 0 ≤ p_head s pip < PIPE_BUFFER_SIZE;
  pi_tail : 0 ≤ p_tail s pip < PIPE_BUFFER_SIZE;
  pi_readers : dll (w_link (psync s)) (QHead (QPipeRead pip)) [];
  pi_writers : dll (w_link (psync s)) (QHead (QPipeWrite pip)) [];
}.

Lemma wake_none nw q flags s : dll (w_link (psync s)) (QHead q) [] → wake_all nw q flags s = Ok (tt, s).
Proof.
  intros Hd. unfold wake_all, on_sync, wait_queue_empty.
  rewrite (bind_ok _ _ _ _ _ (zoom_ok psync set_psync _ s (list_empty (w_link (psync s)) (QHead q)) (psync s) eq_refl)).
  rewrite (list_empty_dll _ _ _ Hd). destruct s. done.
Qed.

Lemma pipe_bytes_length s pip : Z.of_nat (length (pipe_bytes s pip)) = pipe_count s pip.
Proof.
  unfold pipe_bytes. rewrite length_fmap, length_seqZ. pose proof (Z.mod_pos_bound (p_tail s pip - p_head s pip) PIPE_BUFFER_SIZE ltac:(done)).
  unfold pipe_count in *. lia.
Qed.

(** The head leaves, the rest moves up. *)
Lemma pipe_bytes_head s s' pip :
  quiet_pipe s pip → p_head s pip ≠ p_tail s pip →
  p_head s' pip = (p_head s pip + 1) mod PIPE_BUFFER_SIZE → p_tail s' pip = p_tail s pip →
  p_buffer s' pip = p_buffer s pip →
  pipe_bytes s pip = p_buffer s pip (p_head s pip) :: pipe_bytes s' pip.
Proof.
  intros [Hh Ht _ _] Hne Eh Et Eb. unfold pipe_bytes, pipe_count. rewrite Eh, Et, Eb. unfold PIPE_BUFFER_SIZE in *.
  assert (((p_tail s pip - (p_head s pip + 1) mod 4096) mod 4096) = (p_tail s pip - p_head s pip) mod 4096 - 1) as ->.
  { rewrite Zminus_mod_idemp_r.
    destruct (Z.le_gt_cases (p_head s pip) (p_tail s pip)).
    - rewrite !Z.mod_small by lia. lia.
    - rewrite <-(Z.mod_add (p_tail s pip - (p_head s pip + 1)) 1), <-(Z.mod_add (p_tail s pip - p_head s pip) 1) by lia.
      rewrite !Z.mod_small by lia. lia. }
  assert (0 < (p_tail s pip - p_head s pip) mod 4096) as Hpos.
  { destruct (Z.le_gt_cases (p_head s pip) (p_tail s pip)).
    - rewrite Z.mod_small by lia. lia.
    - rewrite <-(Z.mod_add (p_tail s pip - p_head s pip) 1), Z.mod_small by lia. lia. }
  rewrite (seqZ_cons 0) by lia. rewrite fmap_cons. f_equal.
  - rewrite Z.add_0_r, Z.mod_small by lia. done.
  - rewrite <-(Z.sub_1_r). set (k := _ - 1). replace (seqZ (Z.succ 0) k) with (Z.add 1 <$> seqZ 0 k) by (by rewrite fmap_add_seqZ).
    rewrite <-list_fmap_compose. apply list_fmap_ext.
    intros i x _. simpl. f_equal. rewrite Zplus_mod_idemp_l. f_equal. lia.
Qed.

(** A byte is added at the tail. *)
Lemma pipe_bytes_tail s s' pip c :
  quiet_pipe s pip → p_head s pip ≠ (p_tail s pip + 1) mod PIPE_BUFFER_SIZE →
  p_head s' pip = p_head s pip → p_tail s' pip = (p_tail s pip + 1) mod PIPE_BUFFER_SIZE →
  p_buffer s' pip = upd (p_tail s pip) c (p_buffer s pip) →
  pipe_bytes s' pip = pipe_bytes s pip ++ [c] ∧ pipe_count s' pip = pipe_count s pip + 1.
Proof.
  intros [Hh Ht _ _] Hne Eh Et Eb. unfold pipe_bytes, pipe_count. rewrite Eh, Et, Eb. unfold PIPE_BUFFER_SIZE in *.
  set (n := (p_tail s pip - p_head s pip) mod 4096).
  assert (p_tail s pip = (p_head s pip + n) mod 4096) as Hn.
  { unfold n. rewrite Zplus_mod_idemp_r. replace (p_head s pip + (p_tail s pip - p_head s pip)) with (p_tail s pip) by lia.
    rewrite Z.mod_small; lia. }
  assert (0 ≤ n < 4096) as Hr by (apply Z.mod_pos_bound; lia).
  assert (n ≠ 4095) as Hn1.
  { intros E. apply Hne. rewrite Hn, E, Zplus_mod_idemp_l. replace (p_head s pip + 4095 + 1) with (p_head s pip + 1 * 4096) by lia.
    rewrite Z.mod_add, Z.mod_small by lia. done. }
  assert ((((p_tail s pip + 1) mod 4096 - p_head s pip) mod 4096) = n + 1) as ->.
  { rewrite Zminus_mod_idemp_l. replace (p_tail s pip + 1 - p_head s pip) with (p_tail s pip - p_head s pip + 1) by lia.
    rewrite <-Zplus_mod_idemp_l. fold n. rewrite Z.mod_small; lia. }
  split; [|done]. rewrite seqZ_app by lia. rewrite fmap_app. f_equal.
  - apply list_fmap_ext. intros i x Hx. apply lookup_seqZ in Hx as [-> Hi]. simpl.
    rewrite upd_ne; [done|]. rewrite Hn. intros E.
    apply (f_equal (λ z, (z - p_head s pip) mod 4096)) in E. rewrite !Zminus_mod_idemp_l in E.
    replace (p_head s pip + n - p_head s pip) with n in E by lia.
    replace (p_head s pip + (0 + Z.of_nat i) - p_head s pip) with (Z.of_nat i) in E by lia.
    rewrite !Z.mod_small in E by lia. lia.
  - rewrite Z.add_0_l. change (seqZ n 1) with [Z.of_nat 0 + n]. cbn [fmap list_fmap].
    replace (Z.of_nat 0 + n) with n by lia. by rewrite <-Hn, upd_eq.
Qed.

(** Reading [bs] off the front of the queue. *)
Lemma pipe_read_loop_spec fuel nw pip base resid ret s bs rest :
  quiet_pipe s pip → pipe_bytes s pip = bs ++ rest → Z.of_nat (length bs) = resid - ret → (length bs < fuel)%nat →
  ∃ s', pipe_read_loop fuel nw pip base resid ret s = Ok (Ret resid, s') ∧ quiet_pipe s' pip ∧
    pipe_bytes s' pip = rest ∧ bytes_at (pmem s') base bs ∧
    (∀ a, ¬ (base ≤ a < base + Z.of_nat (length bs)) → pmem s' a = pmem s a) ∧ psync s' = psync s.
Proof.
  revert base ret s bs. induction fuel as [|fuel IH]; intros base ret s bs Hi Hb Hl Hf; [lia|]. cbn [pipe_read_loop].
  destruct bs as [|c bs]; simpl in Hl, Hf.
  { replace ret with resid by lia. rewrite Z.ltb_irrefl. exists s. by split_and!. }
  destruct (Z.ltb_spec ret resid) as [Hlt|]; [|lia]. rewrite bind_gets. unfold pipe_empty.
  destruct (Z.eqb_spec (p_head s pip) (p_tail s pip)) as [He|Hne]; cbn [negb].
  { exfalso. pose proof (pipe_bytes_length s pip) as Hn. rewrite Hb in Hn. unfold pipe_count in Hn.
    rewrite He, Z.sub_diag in Hn. simpl in Hn. done. }
  rewrite bind_gets, bind_modify. set (s1 := set_pmem base _ s).
  rewrite (bind_ok _ _ _ _ _ (wake_none nw (QPipeWrite pip) WT_IPC s1 (pi_writers _ _ Hi))). rewrite bind_modify.
  set (s2 := set_p_head pip _ s1).
  assert (p_head s2 pip = (p_head s pip + 1) mod PIPE_BUFFER_SIZE) as Eh by (unfold s2; simpl; by rewrite upd_eq).
  pose proof (pipe_bytes_head s s2 pip Hi Hne Eh eq_refl eq_refl) as Hhd. rewrite Hb in Hhd. injection Hhd as Hc Hrest.
  destruct (IH (base + 1) (ret + 1) s2 bs) as (s' & E & Hi' & Hb' & Hm & Hfr & Hsy).
  - destruct Hi as [? ? ? ?]. split; [|done..]. rewrite Eh. by apply Z.mod_pos_bound.
  - done.
  - lia.
  - lia.
  - exists s'. split_and!; [done..| | |done].
    + split; [|done]. rewrite Hfr by lia. unfold s2, s1. simpl. by rewrite upd_eq, Hc.
    + intros a Ha. simpl in Ha. rewrite Hfr by lia. unfold s2, s1. simpl. by rewrite upd_ne by lia.
Qed.

(** Writing [bs] behind the queue. *)
Lemma pipe_write_loop_spec fuel nw pip base resid ret s bs :
  quiet_pipe s pip → bytes_at (pmem s) base bs → Z.of_nat (length bs) = resid - ret → (length bs < fuel)%nat →
  pipe_count s pip + Z.of_nat (length bs) < PIPE_BUFFER_SIZE →
  ∃ s', pipe_write_loop fuel nw pip base resid ret s = Ok (Ret resid, s') ∧ quiet_pipe s' pip ∧
    pipe_bytes s' pip = pipe_bytes s pip ++ bs ∧ pmem s' = pmem s ∧ psync s' = psync s.
Proof.
  revert base ret s bs. induction fuel as [|fuel IH]; intros base ret s bs Hi Hb Hl Hf Hroom; [lia|]. cbn [pipe_write_loop].
  destruct bs as [|c bs]; simpl in Hl, Hf, Hroom.
  { replace ret with resid by lia. rewrite Z.ltb_irrefl. exists s. rewrite app_nil_r. by split_and!. }
  destruct Hb as [Hc Hb]. destruct (Z.ltb_spec ret resid) as [Hlt|]; [|lia]. rewrite bind_gets. unfold pipe_full.
  destruct (Z.eqb_spec (p_head s pip) ((p_tail s pip + 1) mod PIPE_BUFFER_SIZE)) as [He|Hne]; cbn [negb].
  { exfalso. unfold pipe_count, PIPE_BUFFER_SIZE in *. rewrite He, Zminus_mod_idemp_r in Hroom.
    replace (p_tail s pip - (p_tail s pip + 1)) with (-1) in Hroom by lia. change (-1 mod 4096) with 4095 in Hroom. lia. }
  rewrite bind_gets, bind_modify. set (s1 := set_p_buffer pip _ _ s).
  rewrite (bind_ok _ _ _ _ _ (wake_none nw (QPipeRead pip) WT_IPC s1 (pi_readers _ _ Hi))). rewrite bind_modify.
  set (s2 := set_p_tail pip _ s1).
  assert (p_tail s2 pip = (p_tail s pip + 1) mod PIPE_BUFFER_SIZE) as Et by (unfold s2; simpl; by rewrite upd_eq).
  assert (p_buffer s2 pip = upd (p_tail s pip) c (p_buffer s pip)) as Eb by (unfold s2, s1; simpl; by rewrite upd_eq, Hc).
  destruct (pipe_bytes_tail s s2 pip c Hi Hne eq_refl Et Eb) as [Hby Hcn].
  destruct (IH (base + 1) (ret + 1) s2 bs) as (s' & E & Hi' & Hb' & Hm & Hsy).
  - destruct Hi as [? ? ? ?]. split; [done| |done|done]. rewrite Et. by apply Z.mod_pos_bound.
  - done.
  - lia.
  - lia.
  - lia.
  - exists s'. split_and!; [done..| |done|done]. by rewrite Hb', Hby, <-app_assoc.
Qed.

(** *** Going to sleep *)

Definition sleeping_in (q : queue) (flags w : Z) (s : sync) : sync :=
  set_w_link (list_add_before (QHead q) (WNode w)) (set_w_queue w (Some q)
    (set_sc (upd_proc w (set_wait_state flags) (upd_proc w (set_state PROC_SLEEPING) (sc s)))
      (set_w_link (list_init (WNode w)) (set_w_flags w WT_INTERRUPTED (set_w_proc w (Some w) s))))).

Lemma wait_current_set_spec q flags s :
  wait_current_set q (current (sc s)) flags s = Ok (tt, sleeping_in q flags (current (sc s)) s).
Proof.
  unfold wait_current_set, get_current, wait_init, on_sc, store, wait_queue_add. msteps.
  by rewrite bind_asserts by (simpl; by rewrite list_init_empty, upd_eq).
Qed.

(** When the running process has gone to sleep, the scheduler gives the processor to
    another one. *)
Lemma schedule_sleeping s base t flags :
  rq_inv s base t → current s ∉ elems t → idleproc s ≠ current s → 0 ≤ p_time_slice (procs s (current s)) →
  Z.of_nat (length (elems t)) + 1 < 2 ^ 32 → (∀ p, p ∈ elems t → 0 ≤ p_priority (procs s p)) →
  ∃ s', schedule (upd_proc (current s) (set_wait_state flags) (upd_proc (current s) (set_state PROC_SLEEPING) s)) = Ok (tt, s') ∧
    current s' ≠ current s ∧ (current s' ∈ elems t ∨ elems t = [] ∧ current s' = idleproc s).
Proof.
  intros Hrq Hout Hidle Hsl Hroom Hprio. set (w := current s) in *.
  set (s1 := upd_proc w (set_wait_state flags) (upd_proc w (set_state PROC_SLEEPING) s)).
  assert (∀ p, p ≠ w → procs s1 p = procs s p) as Hoth by (intros p Hp; unfold s1; simpl; by rewrite !upd_ne).
  assert (procs s1 w = set_wait_state flags (set_state PROC_SLEEPING (procs s w))) as Hw by (unfold s1; simpl; by rewrite !upd_eq).
  assert (rq_inv s1 base t) as Hrq1.
  { apply (rq_inv_frame s); [done..| |done]. intros p Hp. rewrite Hoth; [done|]. by intros ->. }
  assert (candidates s1 t = elems t) as Hc.
  { unfold candidates. change (current s1) with w. rewrite Hw. done. }
  destruct (schedule_spec s1 base t Hrq1) as (s' & t' & base' & E & _ & _ & Hnext).
  - split; change (current s1) with w; [done|by rewrite Hw|by rewrite Hw|done].
  - rewrite Hc. intros p Hp. rewrite Hoth; [by apply Hprio|]. by intros ->.
  - exists s'. split; [done|]. rewrite Hc in Hnext. destruct (elems t) as [|q l] eqn:Et.
    + destruct Hnext as [Hn _]. change (idleproc s1) with (idleproc s) in Hn. rewrite Hn. split; [done|by right].
    + assert (current s' ∈ q :: l) as Hin by (destruct Hnext as [<- _]; by left). split; [|by left]. by intros <-.
Qed.

(** What is left of a blocked reader or writer when it is resumed. *)
Definition resume_in {A} (q : queue) (wait flags : Z) (again : M pst (thread pst A)) (leave : A) : M pst (thread pst A) :=
  on_sync (wait_current_del q wait);;
  woken ← on_sync (gets (λ s, w_flags s wait));
  if woken =? flags then again else tret leave.

(** Woken by [wakeup_queue], which takes the waiter off the queue. *)
Lemma resume_woken {A} q w flags (again : M pst (thread pst A)) leave s :
  list_empty (w_link (psync s)) (WNode w) = true → w_flags (psync s) w = flags → resume_in q w flags again leave s = again s.
Proof.
  intros He Hf. unfold resume_in, on_sync. erewrite bind_ok by (apply zoom_ok; unfold wait_current_del, wait_in_queue; rewrite bind_gets, He; reflexivity).
  rewrite (bind_ok _ _ _ _ _ (zoom_ok _ _ _ _ _ _ eq_refl)). cbn [psync set_psync]. rewrite Hf, Z.eqb_refl. by destruct s.
Qed.

(** Woken for another reason: still queued. *)
Lemma resume_interrupted {A} q w flags (again : M pst (thread pst A)) leave s l1 l2 :
  dll (w_link (psync s)) (QHead q) (l1 ++ WNode w :: l2) → w_queue (psync s) w = Some q → w_flags (psync s) w ≠ flags →
  ∃ s', resume_in q w flags again leave s = Ok (Ret leave, s') ∧ s' = set_psync (set_w_link (list_del_init (WNode w)) (psync s)) s ∧
    dll (w_link (psync s')) (QHead q) (l1 ++ l2).
Proof.
  intros Hd Hq Hf. assert (list_empty (w_link (psync s)) (WNode w) = false) as He by (eapply list_empty_member; [exact Hd|set_solver]).
  eexists. split; [|split; [reflexivity|by apply list_del_init_dll in Hd as [? _]]]. unfold resume_in, on_sync.
  erewrite bind_ok; [|apply zoom_ok; unfold wait_current_del, wait_in_queue; rewrite bind_gets, He; cbn [negb when]; unfold wait_queue_del;
    rewrite bind_asserts; [reflexivity|unfold waits_in; by rewrite He, Hq, bool_decide_eq_true_2]].
  rewrite (bind_ok _ _ _ _ _ (zoom_ok _ _ _ _ _ _ eq_refl)). cbn [psync set_psync w_flags set_w_link]. rewrite (proj2 (Z.eqb_neq _ _)) by done. by destruct s.
Qed.

Lemma block_in_spec {A} q flags (again : M pst (thread pst A)) leave s sc' :
  let w := current (sc (psync s)) in
  schedule (upd_proc w (set_wait_state flags) (upd_proc w (set_state PROC_SLEEPING) (sc (psync s)))) = Ok (tt, sc') →
  block_in q flags again leave s = Ok (Suspended (resume_in q w flags again leave), set_psync (set_sc sc' (sleeping_in q flags w (psync s))) s).
Proof.
  intros w Esch. unfold block_in, on_sync, get_current. rewrite (bind_ok _ _ _ _ _ (zoom_ok psync set_psync _ s w (psync s) eq_refl)).
  rewrite (bind_ok _ _ _ _ _ (zoom_ok psync set_psync _ (set_psync (psync s) s) tt _ (wait_current_set_spec q flags (psync s)))).
  fold w. set (y := sleeping_in q flags w (psync s)).
  assert (on_sc schedule y = Ok (tt, set_sc sc' y)) as Ey by (unfold on_sc; by apply (zoom_ok sc set_sc)).
  by rewrite (bind_ok _ _ _ _ _ (zoom_ok psync set_psync _ (set_psync y (set_psync (psync s) s)) tt _ Ey)).
Qed.

(** ** Properties *)

(** C35. Pipes that nobody waits on are FIFO queues: a write that fits appends its bytes, and reading
    as many bytes as the pipe then holds returns the old contents followed by the
    written bytes, in order, and leaves the pipe empty; nothing outside the read
    buffer is stored to. *)
Theorem pipe_fifo s pip nw wbase rbase bs n :
  quiet_pipe s pip → bytes_at (pmem s) wbase bs →
  pipe_count s pip + Z.of_nat (length bs) < PIPE_BUFFER_SIZE → n = pipe_count s pip + Z.of_nat (length bs) →
  ∃ s1 s2, pipe_write (S (length bs)) nw pip wbase (Z.of_nat (length bs)) s = Ok (Ret (Z.of_nat (length bs)), s1) ∧
    pipe_bytes s1 pip = pipe_bytes s pip ++ bs ∧
    pipe_read (S (Z.to_nat n)) nw pip rbase n s1 = Ok (Ret n, s2) ∧
    bytes_at (pmem s2) rbase (pipe_bytes s pip ++ bs) ∧ pipe_bytes s2 pip = [] ∧ quiet_pipe s2 pip ∧
    ∀ a, ¬ (rbase ≤ a < rbase + n) → pmem s2 a = pmem s a.
Proof.
  intros Hi Hb Hroom ->.
  destruct (pipe_write_loop_spec (S (length bs)) nw pip wbase (Z.of_nat (length bs)) 0 s bs)
    as (s1 & E1 & Hi1 & Hby1 & Hm1 & _); [done|done|lia|lia|done|].
  assert (Z.of_nat (length (pipe_bytes s pip ++ bs)) = pipe_count s pip + Z.of_nat (length bs)) as Hlen
    by (rewrite length_app, Nat2Z.inj_add, pipe_bytes_length; done).
  destruct (pipe_read_loop_spec (S (Z.to_nat (pipe_count s pip + Z.of_nat (length bs)))) nw pip rbase
    (pipe_count s pip + Z.of_nat (length bs)) 0 s1 (pipe_bytes s pip ++ bs) [])
    as (s2 & E2 & Hi2 & Hby2 & Hm2 & Hfr & _); [done|by rewrite app_nil_r|lia|lia|].
  exists s1, s2. split_and!; [done..|by rewrite Hlen, Hm1 in Hfr].
Qed.

(** C37. A reader of an empty pipe that nobody waits on goes to sleep in the pipe's
    read queue, to be resumed by [WT_IPC], and another process gets the processor: one
    of the run pool, or the idle process when the pool is empty.  The call has not
    returned and nothing was stored.  When a writer wakes it, it reads as if it had
    just been called, so that with enough bytes in the pipe it returns the first of
    them; when it is woken for another reason (the process is killed), it leaves the
    queue and returns 0 without a byte.  The run pool keeps to the window of strides. *)
Theorem pipe_read_blocks s pip fuel nw base resid sb t :
  let w := current (sc (psync s)) in let q := QPipeRead pip in
  quiet_pipe s pip → pipe_bytes s pip = [] → 0 < resid →
  rq_inv (sc (psync s)) sb t → w ∉ elems t → idleproc (sc (psync s)) ≠ w →
  0 ≤ p_time_slice (procs (sc (psync s)) w) → Z.of_nat (length (elems t)) + 1 < 2 ^ 32 →
  (∀ p, p ∈ elems t → 0 ≤ p_priority (procs (sc (psync s)) p)) →
  ∃ k s', pipe_read (S fuel) nw pip base resid s = Ok (Suspended k, s') ∧
    p_state (procs (sc (psync s')) w) = PROC_SLEEPING ∧ p_wait_state (procs (sc (psync s')) w) = WT_IPC ∧
    dll (w_link (psync s')) (QHead q) [WNode w] ∧ w_queue (psync s') w = Some q ∧ w_flags (psync s') w = WT_INTERRUPTED ∧
    current (sc (psync s')) ≠ w ∧
    (current (sc (psync s')) ∈ elems t ∨ elems t = [] ∧ current (sc (psync s')) = idleproc (sc (psync s))) ∧
    pipe_bytes s' pip = [] ∧ pmem s' = pmem s ∧
    (∀ s2, list_empty (w_link (psync s2)) (WNode w) = true → w_flags (psync s2) w = WT_IPC →
      k s2 = pipe_read fuel nw pip base resid s2 ∧
      ∀ bs rest, quiet_pipe s2 pip → pipe_bytes s2 pip = bs ++ rest → Z.of_nat (length bs) = resid → (length bs < fuel)%nat →
        ∃ s3, k s2 = Ok (Ret resid, s3) ∧ bytes_at (pmem s3) base bs ∧ pipe_bytes s3 pip = rest) ∧
    (∀ s2 l1 l2, dll (w_link (psync s2)) (QHead q) (l1 ++ WNode w :: l2) → w_queue (psync s2) w = Some q → w_flags (psync s2) w ≠ WT_IPC →
      ∃ s3, k s2 = Ok (Ret 0, s3) ∧ dll (w_link (psync s3)) (QHead q) (l1 ++ l2) ∧ pmem s3 = pmem s2).
Proof.
  intros w q Hi Hb Hr Hrq Hout Hidle Hsl Hroom Hprio. unfold pipe_read. cbn [pipe_read_loop]. destruct (Z.ltb_spec 0 resid); [|lia].
  rewrite bind_gets. unfold pipe_empty. destruct (Z.eqb_spec (p_head s pip) (p_tail s pip)) as [He|Hne]; cbn [negb].
  2: { pose proof (pipe_bytes_head s (set_p_head pip ((p_head s pip + 1) mod PIPE_BUFFER_SIZE) s) pip Hi Hne) as Hx.
       rewrite Hb in Hx. discriminate Hx; simpl; [by rewrite upd_eq|done|done]. }
  destruct (schedule_sleeping (sc (psync s)) sb t WT_IPC Hrq Hout Hidle Hsl Hroom Hprio) as (sc' & Esch & Hnext).
  pose proof (block_in_spec q WT_IPC (pipe_read_loop fuel nw pip base resid 0) 0 s sc' Esch) as E. cbv zeta in E. fold w in E.
  apply (schedule_keeps []) in Esch. destruct (Esch w ltac:(set_solver)) as [E3 E4].
  eexists _, _. split; [exact E|]. cbn [psync set_psync sc set_sc w_link]. rewrite E3, E4. cbn [upd_proc procs]. rewrite !upd_eq.
  split_and!; [done|done| | | | | |exact Hb|done| |].
  - apply (list_add_before_head _ _ []); [|set_solver].
    eapply dll_frame; [|apply (pi_readers _ _ Hi)]. intros x ->%list_elem_of_singleton. by apply list_init_other.
  - simpl. by rewrite upd_eq.
  - simpl. by rewrite upd_eq.
  - apply Hnext.
  - apply Hnext.
  - intros s2 Hl Hf. pose proof (resume_woken q w WT_IPC (pipe_read_loop fuel nw pip base resid 0) 0 s2 Hl Hf) as Ek.
    split; [exact Ek|]. intros bs rest Hi2 Hb2 Hlen Hfu. rewrite Ek.
    destruct (pipe_read_loop_spec fuel nw pip base resid 0 s2 bs rest) as (s3 & ? & _ & ? & ? & _); [done..|lia|done|]. by exists s3.
  - intros s2 l1 l2 Hd Hwq Hf. destruct (resume_interrupted q w WT_IPC (pipe_read_loop fuel nw pip base resid 0) 0 s2 l1 l2 Hd Hwq Hf) as (s3 & Ek & -> & Hd3).
    eexists. by split; [exact Ek|].
Qed.

(** The standard input loses characters: when the buffer is full, the next
    character overwrites the oldest unread one although it is not counted. *)
Theorem stdin_overrun s nw c :
  0 ≤ p_rpos s → p_wpos s = p_rpos s + STDIN_BUFSIZE → dll (w_link (psync s)) (QHead QStdin) [] → c ≠ 0 →
  ∃ s', dev_stdin_write nw c s = Ok (tt, s') ∧
    p_wpos s' = p_wpos s ∧ p_rpos s' = p_rpos s ∧ stdin_buffer s' (p_rpos s' mod STDIN_BUFSIZE) = c.
Proof.
  intros H0 Hw Hd Hc. unfold dev_stdin_write. destruct (Z.eqb_spec c 0) as [|_]; [done|]. cbn [negb when]. msteps.
  cbn [p_wpos p_rpos set_stdin_buffer id]. destruct (Z.ltb_spec (p_wpos s - p_rpos s) STDIN_BUFSIZE); [lia|].
  rewrite (wake_none nw QStdin WT_KBD) by done. eexists. split; [reflexivity|]. split_and!; [done..|]. simpl.
  rewrite Hw. unfold STDIN_BUFSIZE. replace (p_rpos s + 4096) with (p_rpos s + 1 * 4096) by lia.
  rewrite Z.mod_add by lia. by rewrite upd_eq.
Qed.

(** An empty pipe 3; memory holds "hi" at 100; process 1 runs. *)
Definition example_pipe : pst :=
  Pst (set_w_link (λ _ e, ListEntry e e) example_sync) (λ _, 4095) (λ _, 4095) (λ _ _, 0) (λ _, 0) 7 (7 + STDIN_BUFSIZE)
    (λ a, if a =? 100 then 104 else if a =? 101 then 105 else 0).

Lemma example_quiet_pipe : quiet_pipe example_pipe 3.
Proof.
  split; [by vm_compute|by vm_compute|..]; (split; [apply NoDup_singleton|by simpl]).
Qed.

Lemma pipe_fifo_witness : ∃ s1 s2,
  pipe_write 3 0 3 100 2 example_pipe = Ok (Ret 2, s1) ∧ pipe_read 3 0 3 200 2 s1 = Ok (Ret 2, s2) ∧
  bytes_at (pmem s2) 200 [104; 105].
Proof.
  destruct (pipe_fifo example_pipe 3 0 100 200 [104; 105] 2) as (s1 & s2 & E1 & _ & E2 & Hb & _).
  - apply example_quiet_pipe.
  - done.
  - vm_compute. reflexivity.
  - vm_compute. reflexivity.
  - exists s1, s2. split_and!; [exact E1|exact E2|apply Hb..].
Defined.

(** The same pipe when "hi" has been written and the reader, process 1, was woken. *)
Definition filled_pipe : pst :=
  Pst (set_w_flags 1 WT_IPC (set_w_link (λ _ e, ListEntry e e) example_sync)) (λ _, 4095) (λ _, 1)
    (λ _ i, if i =? 4095 then 104 else if i =? 0 then 105 else 0) (λ _, 0) 7 7 (λ _, 0).

Lemma filled_quiet_pipe : quiet_pipe filled_pipe 3.
Proof.
  split; [by vm_compute|by vm_compute|..]; (split; [apply NoDup_singleton|by simpl]).
Qed.

Lemma pipe_read_blocks_witness : ∃ k s' s3, pipe_read 4 0 3 200 2 example_pipe = Ok (Suspended k, s') ∧
  p_state (procs (sc (psync s')) 1) = PROC_SLEEPING ∧ current (sc (psync s')) = 0 ∧
  k filled_pipe = Ok (Ret 2, s3) ∧ bytes_at (pmem s3) 200 [104; 105].
Proof.
  destruct (pipe_read_blocks example_pipe 3 3 0 200 2 0 Leaf) as (k & s' & E & Hst & _ & _ & _ & _ & _ & Hcur & _ & _ & Hwake & _).
  - apply example_quiet_pipe.
  - vm_compute. reflexivity.
  - lia.
  - apply (example_sched_inv (λ _, 0) 0).
  - simpl. apply not_elem_of_nil.
  - by vm_compute.
  - vm_compute. discriminate.
  - simpl. lia.
  - intros p Hp. by apply not_elem_of_nil in Hp.
  - destruct (Hwake filled_pipe eq_refl eq_refl) as [_ Hk].
    destruct (Hk [104; 105] [] filled_quiet_pipe eq_refl eq_refl ltac:(simpl; lia)) as (s3 & Ek & Hbs & _).
    exists k, s', s3. split; [exact E|]. split; [exact Hst|]. split; [|by split].
    destruct Hcur as [[]%not_elem_of_nil|[_ Hc]]. exact Hc.
Defined.

Lemma stdin_overrun_witness : ∃ s', dev_stdin_write 0 65 example_pipe = Ok (tt, s') ∧ p_rpos s' = 7 ∧ stdin_buffer s' 7 = 65.
Proof.
  destruct (stdin_overrun example_pipe 0 65) as (s' & E & _ & Hr & Hb).
  - vm_compute. discriminate.
  - reflexivity.
  - split; [apply NoDup_singleton|]. simpl. done.
  - discriminate.
  - exists s'. change (p_rpos example_pipe) with 7 in Hr. rewrite Hr in Hb. split; [exact E|]. split; [exact Hr|exact Hb].
Defined.
