(* ===== verification/Console.v ===== *)
(** * The console

    kern/driver/console.c, kern/libs/stdio.c and kern/libs/readline.c: the ring of
    input characters, output through the firmware, formatted output and the line
    editor of the kernel monitor.  The firmware is the serial line: [pending] are the
    results that the next calls of [sbi_console_getchar] give (-1 when there are none)
    and [screen] is what [sbi_console_putchar] has put out.  Interrupts are off in the
    functions that save and restore them, which are executed at once. *)

From S2P Require Import Prelude CString Printf.

Definition CONSBUFSIZE : Z := 512.

Record console := Console {
  cons_buf : Z → Z;
  cons_rpos : Z;
  cons_wpos : Z;
  pending : list Z;
  screen : list Z;
  (** [buf] of readline.c, and memory *)
  line : Z → Z;
  cmem : mem;
}.

Definition set_cons_buf (i v : Z) (s : console) : console :=
  Console (upd i v (cons_buf s)) (cons_rpos s) (cons_wpos s) (pending s) (screen s) (line s) (cmem s).
Definition set_cons_rpos (v : Z) (s : console) : console :=
  Console (cons_buf s) v (cons_wpos s) (pending s) (screen s) (line s) (cmem s).
Definition set_cons_wpos (v : Z) (s : console) : console :=
  Console (cons_buf s) (cons_rpos s) v (pending s) (screen s) (line s) (cmem s).
Definition set_pending (l : list Z) (s : console) : console :=
  Console (cons_buf s) (cons_rpos s) (cons_wpos s) l (screen s) (line s) (cmem s).
Definition put_screen (c : Z) (s : console) : console :=
  Console (cons_buf s) (cons_rpos s) (cons_wpos s) (pending s) (screen s ++ [c]) (line s) (cmem s).
Definition set_line (i v : Z) (s : console) : console :=
  Console (cons_buf s) (cons_rpos s) (cons_wpos s) (pending s) (screen s) (upd i v (line s)) (cmem s).

(** ** The serial line *)

Definition sbi_console_getchar : M console Z :=
  l ← gets pending;
  match l with
  | [] => mret (-1)
  | c :: l => modify (set_pending l);; mret c
  end.

Definition sbi_console_putchar (c : Z) : M console unit := modify (put_screen c).

(** ** kern/driver/console.c *)

Definition serial_proc_data : M console Z :=
  c ← sbi_console_getchar;
  mret (if c <? 0 then -1 else if c =? 127 then 8 else c).

Fixpoint cons_intr_loop (fuel : nat) (proc : M console Z) : M console unit :=
  match fuel with
  | O => out_of_fuel
  | S fuel' =>
    c ← proc;
    if c =? -1 then mret tt
    else
      when (negb (c =? 0))
        (w ← gets cons_wpos;
         modify (set_cons_buf w (u8 c));;
         modify (set_cons_wpos (w + 1));;
         when (w + 1 =? CONSBUFSIZE) (modify (set_cons_wpos 0)));;
      cons_intr_loop fuel' proc
  end.

(** Every round but the last takes one pending character. *)
Definition cons_intr (proc : M console Z) : M console unit :=
  n ← gets (λ s, length (pending s));
  cons_intr_loop (S n) proc.

Definition serial_intr : M console unit := cons_intr serial_proc_data.

Definition kbd_intr : M console unit := serial_intr.

Definition serial_putc (c : Z) : M console unit :=
  if negb (c =? 8) then sbi_console_putchar c
  else
    sbi_console_putchar 8;;
    sbi_console_putchar 32;;
    sbi_console_putchar 8.

Definition cons_init : M console unit := sbi_console_getchar;; mret tt.

Definition cons_putc (c : Z) : M console unit := serial_putc c.

Definition cons_getc : M console Z :=
  serial_intr;;
  s ← gets id;
  if negb (cons_rpos s =? cons_wpos s) then
    let c := cons_buf s (cons_rpos s) in
    modify (set_cons_rpos (cons_rpos s + 1));;
    when (cons_rpos s + 1 =? CONSBUFSIZE) (modify (set_cons_rpos 0));;
    mret c
  else mret 0.

(** ** kern/libs/stdio.c *)

(** [cnt] is next to the console while a string is formatted. *)
Definition cputch (c : Z) : M (console * Z) unit := λ s,
  match cons_putc c s.1 with
  | Ok (_, t) => Ok (tt, (t, s32 (s.2 + 1)))
  | Panic => Panic
  | Fuel => Fuel
  end.

Definition with_count (m : M (console * Z) unit) : M console Z := λ s,
  match m (s, 0) with
  | Ok (_, (t, cnt)) => Ok (cnt, t)
  | Panic => Panic
  | Fuel => Fuel
  end.

Definition vcprintf (fuel : nat) (fmt : cptr) (va : Z → Z) : M console Z :=
  with_count (vprintfmt (λ p, gets (λ s : console * Z, cmem s.1 p)) cputch fuel fmt va).

Definition cprintf (fuel : nat) (fmt : cptr) (va : Z → Z) : M console Z := vcprintf fuel fmt va.

Definition cputchar (c : Z) : M console unit := cons_putc c.

Fixpoint cputs_loop (fuel : nat) (str : Z) : M (console * Z) unit :=
  match fuel with
  | O => out_of_fuel
  | S fuel' =>
    c ← gets (λ s : console * Z, cmem s.1 str);
    if negb (c =? 0) then cputch c;; cputs_loop fuel' (str + 1) else mret tt
  end.

Definition cputs (fuel : nat) (str : Z) : M console Z := with_count (cputs_loop fuel str;; cputch 10).

(** The processor spins until a character arrives. *)
Fixpoint getchar (fuel : nat) : M console Z :=
  match fuel with
  | O => out_of_fuel
  | S fuel' => c ← cons_getc; if c =? 0 then getchar fuel' else mret c
  end.

(** ** kern/libs/readline.c *)

Definition BUFSIZE : Z := 1024.

(** The result is whether [buf] is returned; [n] bounds the characters of the line. *)
Fixpoint readline_loop (fuel n : nat) (i : Z) : M console bool :=
  match n with
  | O => out_of_fuel
  | S n' =>
    c ← getchar fuel;
    if c <? 0 then mret false
    else if ((32 <=? c) && (i <? BUFSIZE - 1))%bool then
      cputchar c;;
      modify (set_line i c);;
      readline_loop fuel n' (i + 1)
    else if ((c =? 8) && (0 <? i))%bool then
      cputchar c;;
      readline_loop fuel n' (i - 1)
    else if ((c =? 10) || (c =? 13))%bool then
      cputchar c;;
      modify (set_line i 0);;
      mret true
    else readline_loop fuel n' i
  end.

Definition readline (fuel n : nat) (prompt : Z) : M console bool :=
  when (negb (prompt =? 0)) (cprintf fuel (lit "%s") (λ _, prompt);; mret tt);;
  readline_loop fuel n 0.

(** ** The queue of input *)

(** What a serial character becomes. *)
Definition cooked (c : Z) : Z := if c =? 127 then 8 else u8 c.

(** The characters that [cons_getc] still delivers: those in the ring, then the pending
    ones. *)
Definition ring_count (s : console) : Z := (cons_wpos s - cons_rpos s) mod CONSBUFSIZE.
Definition ring (s : console) : list Z :=
  map (λ k, cons_buf s ((cons_rpos s + Z.of_nat k) mod CONSBUFSIZE)) (seq 0 (Z.to_nat (ring_count s))).
Definition arriving (l : list Z) : list Z := cooked <$> filter (λ c, c ≠ 0) l.
Definition input (s : console) : list Z := ring s ++ arriving (pending s).

Record cons_inv (s : console) : Prop := ConsInv {
  ci_rpos : 0 ≤ cons_rpos s < CONSBUFSIZE;
  ci_wpos : 0 ≤ cons_wpos s < CONSBUFSIZE;
  ci_pending : Forall (λ c, 0 ≤ c < 256) (pending s);
  ci_room : Z.of_nat (length (input s)) < CONSBUFSIZE;
}.

(** Nothing but the ring and the serial input has changed. *)
Definition same_output (s s' : console) : Prop := screen s' = screen s ∧ line s' = line s ∧ cmem s' = cmem s.

Lemma ring_length s : Z.of_nat (length (ring s)) = ring_count s.
Proof. unfold ring. rewrite length_map, length_seq. apply Z2Nat.id, Z.mod_pos_bound. unfold CONSBUFSIZE. lia. Qed.

(** Storing one character at the write position. *)
Definition stored (c : Z) (s : console) : console :=
  set_cons_wpos (if cons_wpos s + 1 =? CONSBUFSIZE then 0 else cons_wpos s + 1) (set_cons_buf (cons_wpos s) c s).

Lemma stored_ring c s :
  0 ≤ cons_rpos s < CONSBUFSIZE → 0 ≤ cons_wpos s < CONSBUFSIZE → Z.of_nat (length (ring s)) + 1 < CONSBUFSIZE →
  ring (stored c s) = ring s ++ [c].
Proof.
  intros Hr Hw. rewrite ring_length. intros Hl. unfold CONSBUFSIZE in *.
  assert (ring_count (stored c s) = ring_count s + 1 ∧ (cons_rpos s + ring_count s) mod 512 = cons_wpos s) as [Ec Ew].
  { unfold ring_count, stored, CONSBUFSIZE in *. cbn [cons_wpos cons_rpos set_cons_wpos set_cons_buf].
    destruct (Z.eqb_spec (cons_wpos s + 1) 512); Z.to_euclidean_division_equations; lia. }
  assert (0 ≤ ring_count s) as H0 by (apply Z.mod_pos_bound; done).
  unfold ring. rewrite Ec. replace (Z.to_nat (ring_count s + 1)) with (S (Z.to_nat (ring_count s))) by lia.
  rewrite seq_S, map_app. f_equal.
  - apply map_ext_in. intros k Hk%in_seq. unfold stored. cbn [cons_buf cons_rpos set_cons_wpos set_cons_buf]. rewrite upd_ne; [done|].
    rewrite <-Ew. unfold CONSBUFSIZE. intros E. clear -E Hk Hl H0 Hr. Z.to_euclidean_division_equations. lia.
  - cbn [map]. f_equal. unfold stored. cbn [cons_buf cons_rpos set_cons_wpos set_cons_buf]. unfold CONSBUFSIZE.
    replace (cons_rpos s + Z.of_nat (0 + Z.to_nat (ring_count s))) with (cons_rpos s + ring_count s) by lia. rewrite Ew. by rewrite upd_eq.
Qed.

Lemma serial_proc_data_nil s : pending s = [] → serial_proc_data s = Ok (-1, s).
Proof. intros H. unfold serial_proc_data, sbi_console_getchar. by rewrite !bind_assoc, bind_gets, H. Qed.

Lemma serial_proc_data_cons s c l :
  pending s = c :: l → 0 ≤ c → serial_proc_data s = Ok (if c =? 127 then 8 else c, set_pending l s).
Proof.
  intros H Hc. unfold serial_proc_data, sbi_console_getchar. rewrite !bind_assoc, bind_gets, H, bind_assoc, bind_modify, bind_ret.
  by rewrite (proj2 (Z.ltb_ge c 0)).
Qed.

Lemma arriving_cons c l : arriving (c :: l) = if c =? 0 then arriving l else cooked c :: arriving l.
Proof.
  unfold arriving. destruct (Z.eqb_spec c 0) as [->|Hc]; [by rewrite filter_cons_False by (intros H; by apply H)|].
  by rewrite filter_cons_True.
Qed.

Lemma cons_intr_spec l s :
  pending s = l → 0 ≤ cons_rpos s < CONSBUFSIZE → 0 ≤ cons_wpos s < CONSBUFSIZE → Forall (λ c, 0 ≤ c < 256) l →
  Z.of_nat (length (ring s ++ arriving l)) < CONSBUFSIZE →
  ∃ s', cons_intr_loop (S (length l)) serial_proc_data s = Ok (tt, s') ∧ pending s' = [] ∧ ring s' = ring s ++ arriving l ∧
    cons_rpos s' = cons_rpos s ∧ 0 ≤ cons_wpos s' < CONSBUFSIZE ∧ same_output s s'.
Proof.
  revert s. induction l as [|c l IH]; intros s Hp Hr Hw Hc Hroom.
  { exists s. cbn [cons_intr_loop length]. rewrite (bind_ok _ _ _ _ _ (serial_proc_data_nil s Hp)). split; [done|]. rewrite app_nil_r. done. }
  apply Forall_cons in Hc as [Hc Hl]. cbn [length]. cbn [cons_intr_loop].
  rewrite (bind_ok _ _ _ _ _ (serial_proc_data_cons s c l Hp ltac:(lia))).
  set (d := if c =? 127 then 8 else c). assert (0 ≤ d < 256 ∧ (d = 0 ↔ c = 0) ∧ u8 d = cooked c) as (Hd & Hd0 & Hdc).
  { unfold d, cooked. destruct (Z.eqb_spec c 127); split_and!; try lia; done. }
  rewrite (proj2 (Z.eqb_neq d (-1))) by lia. rewrite arriving_cons in Hroom |- *.
  destruct (Z.eqb_spec d 0) as [H0|H0]; cbn [negb when].
  - rewrite bind_ret. rewrite (proj2 (Z.eqb_eq c 0)) in Hroom |- * by tauto. apply (IH (set_pending l s)); done.
  - rewrite (proj2 (Z.eqb_neq c 0)) in Hroom |- * by tauto. rewrite !bind_assoc, bind_gets.
    rewrite !bind_assoc, bind_modify, !bind_assoc, bind_modify. rewrite bind_when_modify. cbn [cons_wpos set_pending].
    rewrite Hdc. set (s1 := set_pending l s).
    assert (stored (cooked c) s1 = if cons_wpos s + 1 =? CONSBUFSIZE then set_cons_wpos 0 (set_cons_wpos (cons_wpos s + 1) (set_cons_buf (cons_wpos s) (cooked c) s1))
      else set_cons_wpos (cons_wpos s + 1) (set_cons_buf (cons_wpos s) (cooked c) s1)) as <- by (unfold stored, s1; cbn [cons_wpos set_pending]; by destruct (cons_wpos s + 1 =? CONSBUFSIZE)).
    assert (ring (stored (cooked c) s1) = ring s ++ [cooked c]) as Er.
    { apply (stored_ring (cooked c) s1); [done..|]. rewrite length_app in Hroom. cbn [length] in Hroom. change (ring s1) with (ring s). lia. }
    destruct (IH (stored (cooked c) s1)) as (s' & E & Hp' & Hr' & Hrp & Hwp & Ho); try done.
    + unfold stored, CONSBUFSIZE in *. cbn. destruct (Z.eqb_spec (cons_wpos s + 1) 512); lia.
    + rewrite Er, <-app_assoc. done.
    + exists s'. split; [exact E|]. split_and!; try done; try apply Hwp; try apply Ho. rewrite Hr', Er, <-app_assoc. done.
Qed.

(** Taking the first character of the ring. *)
Lemma ring_take s c q :
  0 ≤ cons_rpos s < CONSBUFSIZE → 0 ≤ cons_wpos s < CONSBUFSIZE → ring s = c :: q →
  cons_rpos s ≠ cons_wpos s ∧ cons_buf s (cons_rpos s) = c ∧
  ring (set_cons_rpos (if cons_rpos s + 1 =? CONSBUFSIZE then 0 else cons_rpos s + 1) s) = q.
Proof.
  intros Hr Hw Eq. pose proof (ring_length s) as Hl. rewrite Eq in Hl. cbn [length] in Hl. unfold CONSBUFSIZE in *.
  set (r := if cons_rpos s + 1 =? 512 then 0 else cons_rpos s + 1).
  assert (0 ≤ r < 512 ∧ (cons_rpos s + 1) mod 512 = r) as [Hr' Em].
  { unfold r. destruct (Z.eqb_spec (cons_rpos s + 1) 512) as [->|]; [done|]. rewrite Z.mod_small; lia. }
  assert (ring_count (set_cons_rpos r s) = ring_count s - 1) as Ec.
  { unfold ring_count, CONSBUFSIZE in *. cbn [cons_wpos cons_rpos set_cons_rpos]. clear -Hl Em Hr Hw Hr'. Z.to_euclidean_division_equations. lia. }
  unfold ring in Eq. replace (Z.to_nat (ring_count s)) with (S (Z.to_nat (ring_count s - 1))) in Eq by lia. cbn [seq map] in Eq.
  injection Eq as Ec0 Eq. unfold CONSBUFSIZE in *. rewrite Z.add_0_r, Z.mod_small in Ec0 by lia. split_and!; [|done|].
  - intros E. unfold ring_count, CONSBUFSIZE in Hl. rewrite E, Z.sub_diag, Z.mod_0_l in Hl by lia. lia.
  - rewrite <-Eq. unfold ring. rewrite Ec, <-seq_shift, map_map. apply map_ext. intros k. cbn [cons_buf cons_rpos set_cons_rpos]. f_equal.
    unfold CONSBUFSIZE. rewrite <-Em, Zplus_mod_idemp_l. f_equal. lia.
Qed.

Lemma ring_nil s : 0 ≤ cons_rpos s < CONSBUFSIZE → 0 ≤ cons_wpos s < CONSBUFSIZE → ring s = [] → cons_rpos s = cons_wpos s.
Proof.
  intros Hr Hw E. pose proof (ring_length s) as Hl. rewrite E in Hl. unfold ring_count, CONSBUFSIZE in *. cbn [length] in Hl.
  clear E. Z.to_euclidean_division_equations. lia.
Qed.

(** [cons_getc] delivers the next character of the input, or 0 when there is none. *)
Lemma cons_getc_spec s :
  cons_inv s → ∃ s', cons_getc s = Ok (hd 0 (input s), s') ∧ cons_inv s' ∧ input s' = tl (input s) ∧ same_output s s'.
Proof.
  intros [Hr Hw Hp Hroom]. unfold cons_getc, serial_intr, cons_intr. rewrite !bind_assoc, bind_gets.
  destruct (cons_intr_spec (pending s) s eq_refl Hr Hw Hp Hroom) as (s1 & E1 & Hp1 & Er1 & Hr1 & Hw1 & Ho1). fold (input s) in Er1.
  rewrite (bind_ok _ _ _ _ _ E1), bind_gets. rewrite <-Hr1 in Hr. cbn [id].
  destruct (input s) as [|c q] eqn:Ei.
  - rewrite (ring_nil s1 Hr Hw1 Er1), Z.eqb_refl. cbn [negb]. exists s1. split; [done|].
    assert (input s1 = []) as Ei1 by (unfold input; by rewrite Er1, Hp1). split; [|done]. split; rewrite ?Hp1, ?Ei1; done.
  - destruct (ring_take s1 c q Hr Hw1 Er1) as (Hne & Hc & Hq). rewrite (proj2 (Z.eqb_neq _ _)) by done. cbn [negb].
    rewrite bind_modify, bind_when_modify. eexists. split; [unfold mret, M_ret; rewrite Hc; reflexivity|].
    set (r := if cons_rpos s1 + 1 =? CONSBUFSIZE then 0 else cons_rpos s1 + 1) in *.
    assert ((if cons_rpos s1 + 1 =? CONSBUFSIZE then set_cons_rpos 0 (set_cons_rpos (cons_rpos s1 + 1) s1) else set_cons_rpos (cons_rpos s1 + 1) s1)
      = set_cons_rpos r s1) as -> by (unfold r; by destruct (_ =? _)).
    assert (input (set_cons_rpos r s1) = q) as Ei1 by (unfold input; cbn [pending set_cons_rpos]; by rewrite Hq, Hp1, app_nil_r).
    split; [|done]. split; rewrite ?Ei1; try done.
    + cbn. unfold r. unfold CONSBUFSIZE in *. destruct (Z.eqb_spec (cons_rpos s1 + 1) 512); lia.
    + cbn. by rewrite Hp1.
    + cbn [length] in Hroom. lia.
Qed.

(** ** The line editor *)

(** The reference: a line is the characters typed, a backspace takes the last one back, a
    full line and control characters ignore what is typed.  The results are the line, what
    is echoed and the input behind the line. *)
Definition echo (c : Z) : list Z := if c =? 8 then [8; 32; 8] else [c].

Fixpoint edit (l q : list Z) : option (list Z * list Z * list Z) :=
  match q with
  | [] => None
  | c :: q =>
    if bool_decide (32 ≤ c ∧ (length l < 1023)%nat) then '(r, e, rest) ← edit (l ++ [c]) q; Some (r, echo c ++ e, rest)
    else if bool_decide (c = 8 ∧ l ≠ []) then '(r, e, rest) ← edit (removelast l) q; Some (r, echo c ++ e, rest)
    else if bool_decide (c = 10 ∨ c = 13) then Some (l, echo c, q)
    else edit l q
  end.

Definition holds (f : Z → Z) (l : list Z) : Prop := ∀ i c, l !! i = Some c → f (Z.of_nat i) = c.

Lemma cons_putc_spec c s : ∃ s', cons_putc c s = Ok (tt, s') ∧ screen s' = screen s ++ echo c ∧ input s' = input s ∧
  line s' = line s ∧ (cons_inv s → cons_inv s').
Proof.
  unfold cons_putc, serial_putc, echo, sbi_console_putchar. destruct (Z.eqb_spec c 8); cbn [negb].
  - rewrite !bind_modify. eexists. split; [reflexivity|]. cbn [screen put_screen]. rewrite <-!app_assoc. split_and!; [done..|]. by intros [].
  - eexists. split; [reflexivity|]. split_and!; [done..|]. by intros [].
Qed.

Lemma set_line_inv i v s : cons_inv s → cons_inv (set_line i v s).
Proof. by intros []. Qed.

Lemma getchar_spec n s c q :
  cons_inv s → input s = c :: q → c ≠ 0 →
  ∃ s', getchar (S n) s = Ok (c, s') ∧ cons_inv s' ∧ input s' = q ∧ same_output s s'.
Proof.
  intros Hi Eq Hc. destruct (cons_getc_spec s Hi) as (s' & E & Hi' & Ei & Ho). rewrite Eq in E, Ei. cbn [hd tl] in E, Ei.
  exists s'. cbn [getchar]. rewrite (bind_ok _ _ _ _ _ E), (proj2 (Z.eqb_neq c 0)) by done. done.
Qed.

Lemma holds_snoc f l c : holds f l → holds (upd (Z.of_nat (length l)) c f) (l ++ [c]).
Proof.
  intros H i d Hi. apply lookup_app_Some in Hi as [Hi|[Hl Hi]].
  - pose proof (lookup_lt_Some _ _ _ Hi). rewrite upd_ne by lia. by apply H.
  - apply list_lookup_singleton_Some in Hi as [Hi ->]. replace (Z.of_nat i) with (Z.of_nat (length l)) by lia. apply upd_eq.
Qed.

Lemma holds_removelast f (l : list Z) : holds f l → holds f (removelast l).
Proof.
  intros H i c Hi. apply H. destruct l as [|x l] using rev_ind; [done|]. rewrite removelast_last in Hi. by apply lookup_app_l_Some.
Qed.

Lemma length_removelast (l : list Z) : l ≠ [] → Z.of_nat (length (removelast l)) = Z.of_nat (length l) - 1.
Proof. destruct l as [|x l] using rev_ind; [done|]. intros _. rewrite removelast_last, length_app. cbn. lia. Qed.

(** Stores outside of the buffer do not happen. *)
Definition in_bounds (f f' : Z → Z) : Prop := ∀ i, ¬ (0 ≤ i < BUFSIZE) → f' i = f i.

Lemma readline_loop_spec fuel n s l q r e rest :
  cons_inv s → input s = q → Forall (λ c, 0 < c) q → holds (line s) l → (length l ≤ 1023)%nat → edit l q = Some (r, e, rest) → (length q < n)%nat →
  ∃ s', readline_loop (S fuel) n (Z.of_nat (length l)) s = Ok (true, s') ∧ holds (line s') (r ++ [0]) ∧ (length r ≤ 1023)%nat ∧
    screen s' = screen s ++ e ∧ input s' = rest ∧ cons_inv s' ∧ in_bounds (line s) (line s').
Proof.
  revert n s l e. induction q as [|c q IH]; intros n s l e Hi Eq Hq Hl Hll He Hn; [done|]. destruct n as [|n]; [cbn in Hn; lia|].
  apply Forall_cons in Hq as [Hc Hq]. cbn [length] in Hn. cbn [readline_loop edit] in *.
  destruct (getchar_spec fuel s c q Hi Eq ltac:(lia)) as (s1 & E1 & Hi1 & Ei1 & (Hsc1 & Hln1 & _)). rewrite (bind_ok _ _ _ _ _ E1).
  rewrite (proj2 (Z.ltb_ge c 0)) by lia.
  destruct (cons_putc_spec c s1) as (s2 & E2 & Hsc2 & Ei2 & Hln2 & Hi2). specialize (Hi2 Hi1). unfold cputchar.
  case_bool_decide as H1.
  { rewrite (proj2 (Z.leb_le 32 c)), (proj2 (Z.ltb_lt _ _)) by (unfold BUFSIZE; lia). cbn [andb]. rewrite (bind_ok _ _ _ _ _ E2), bind_modify.
    destruct (edit (l ++ [c]) q) as [[[r' e'] rest']|] eqn:Ee; [|done]. cbn in He. injection He as <- <- <-.
    destruct (IH n (set_line (Z.of_nat (length l)) c s2) (l ++ [c]) e') as (s' & E' & Hh & Hlr & Hsc & Hir & Hi' & Hb); try done.
    - by apply set_line_inv.
    - change (input s2 = q). by rewrite Ei2.
    - cbn [line set_line]. apply holds_snoc. by rewrite Hln2, Hln1.
    - rewrite length_app. cbn. lia.
    - lia.
    - exists s'. rewrite length_app in E'. cbn [length] in E'. replace (Z.of_nat (length l + 1)) with (Z.of_nat (length l) + 1) in E' by lia. split; [done|].
      split_and!; try done.
      + rewrite Hsc. cbn [screen set_line]. by rewrite Hsc2, Hsc1, app_assoc.
      + intros i Hni. rewrite Hb by done. cbn [line set_line]. unfold BUFSIZE in *. rewrite upd_ne by lia. by rewrite Hln2, Hln1. }
  assert (((32 <=? c) && (Z.of_nat (length l) <? BUFSIZE - 1))%bool = false) as ->.
  { unfold BUFSIZE. destruct (Z.leb_spec 32 c), (Z.ltb_spec (Z.of_nat (length l)) (1024 - 1)); try done. exfalso. apply H1. lia. }
  case_bool_decide as H2.
  { destruct H2 as [-> Hne]. pose proof (length_removelast l Hne) as Hrl. rewrite Z.eqb_refl, (proj2 (Z.ltb_lt 0 _)) by lia. cbn [andb].
    rewrite (bind_ok _ _ _ _ _ E2). destruct (edit (removelast l) q) as [[[r' e'] rest']|] eqn:Ee; [|done]. cbn in He. injection He as <- <- <-.
    destruct (IH n s2 (removelast l) e') as (s' & E' & Hh & Hlr & Hsc & Hir & Hi' & Hb); try done.
    - by rewrite Ei2.
    - apply holds_removelast. by rewrite Hln2, Hln1.
    - lia.
    - lia.
    - exists s'. rewrite Hrl in E'. split; [done|]. split_and!; try done.
      + rewrite Hsc. by rewrite Hsc2, Hsc1, <-app_assoc.
      + intros i Hni. rewrite Hb by done. by rewrite Hln2, Hln1. }
  assert (((c =? 8) && (0 <? Z.of_nat (length l)))%bool = false) as ->.
  { destruct (Z.eqb_spec c 8), (Z.ltb_spec 0 (Z.of_nat (length l))); try done. exfalso. apply H2. split; [done|]. intros ->. done. }
  case_bool_decide as H3.
  { assert (((c =? 10) || (c =? 13))%bool = true) as -> by (destruct (Z.eqb_spec c 10), (Z.eqb_spec c 13); lia || done).
    rewrite (bind_ok _ _ _ _ _ E2), bind_modify. injection He as <- <- <-. eexists. split; [reflexivity|]. split_and!; try done.
    - cbn [line set_line]. apply holds_snoc. by rewrite Hln2, Hln1.
    - cbn [screen set_line]. by rewrite Hsc2, Hsc1.
    - by rewrite <-Ei1, <-Ei2.
    - by apply set_line_inv.
    - intros i Hni. cbn [line set_line]. unfold BUFSIZE in *. rewrite upd_ne by lia. by rewrite Hln2, Hln1. }
  assert (((c =? 10) || (c =? 13))%bool = false) as -> by (destruct (Z.eqb_spec c 10), (Z.eqb_spec c 13); try done; exfalso; apply H3; lia).
  destruct (IH n s1 l e) as (s' & E' & Hh & Hlr & Hsc & Hir & Hi' & Hb); try done; [by rewrite Hln1|lia|].
  exists s'. split; [done|]. split_and!; try done; [by rewrite Hsc, Hsc1|]. intros i Hni. by rewrite Hb, Hln1.
Qed.

(** C26. [readline] without a prompt, once the input holds a line of fewer than 512
    unread characters: it returns, [buf] holds the line that the reference editor makes of
    the input, ended by a zero, no store falls outside the 1024 bytes of [buf], the
    echo is what the reference says, and what was typed behind the line is still
    there to be read.  The rounds of the loop are bounded by the length of the input. *)
Theorem readline_equivalent fuel n s r e rest :
  cons_inv s → Forall (λ c, 0 < c) (input s) → edit [] (input s) = Some (r, e, rest) → (length (input s) < n)%nat →
  ∃ s', readline (S fuel) n 0 s = Ok (true, s') ∧ holds (line s') (r ++ [0]) ∧ (length r ≤ 1023)%nat ∧
    screen s' = screen s ++ e ∧ input s' = rest ∧ cons_inv s' ∧ in_bounds (line s) (line s').
Proof.
  intros Hi Hq He Hn. unfold readline. cbn [Z.eqb negb when]. rewrite bind_ret.
  apply (readline_loop_spec fuel n s [] (input s) r e rest); try done. cbn. lia.
Qed.

(** Typing "ax", backspace, "b", return, and one more character. *)
Definition typed : console := Console (λ _, 0) 500 500 [97; 120; 127; 98; 13; 99] [] (λ _, 0) (λ _, 0).

Lemma readline_equivalent_witness : ∃ s', readline 1 10 0 typed = Ok (true, s') ∧ holds (line s') [97; 98; 0] ∧ input s' = [99].
Proof.
  destruct (readline_equivalent 0 10 typed [97; 98] [97; 120; 8; 32; 8; 98; 13] [99]) as (s' & E & H & _ & _ & Hin & _).
  - split; [vm_compute; split; done|vm_compute; split; done| |vm_compute; done]. cbn. repeat (constructor; [lia|]). constructor.
  - vm_compute. repeat (constructor; [done|]). constructor.
  - vm_compute. reflexivity.
  - vm_compute. lia.
  - exists s'. split; [exact E|]. split; [exact H|exact Hin].
Defined.

(** The ring is not protected against overrun: 512 characters that arrive between two
    calls make it look empty, and all of them are lost. *)
Theorem cons_overrun : ∃ s', cons_getc (Console (λ _, 0) 0 0 (repeat 65 512) [] (λ _, 0) (λ _, 0)) = Ok (0, s') ∧ input s' = [].
Proof. eexists. split; vm_compute; reflexivity. Qed.
