(* ===== verification/Disk.v ===== *)
(** * Devices and the disk

    kern/fs/devs/dev.c (the inode operations of devices), dev_stdout.c,
    dev_disk0.c, and below it kern/driver/ide.c and ramdisk.c; also
    kern/fs/swap/swapfs.c and the block I/O of kern/fs/sfs/sfs_io.c.  The disk is a
    RAM disk: an image in memory at [ide_iobase].  Blocks move through
    [disk0_buffer]; the semaphores around them have no state here. *)

From S2P Require Import Prelude ListH CString Vmm Vfs File.

(** ** State *)

Inductive dev_kind := stdin_dev | stdout_dev | disk0_dev.

(** [ide_devices], the devices of the inodes, and the console output. *)
Record devs := Devs {
  ide_valid : Z → bool;
  ide_size : Z → Z;
  ide_iobase : Z → Z;
  disk0_buffer : Z;
  d_kind : Z → dev_kind;
  d_blocks : Z → Z;
  d_blocksize : Z → Z;
  console : list Z;
  max_swap_offset : Z;
}.

Definition set_ide (ideno : Z) (valid : bool) (size iobase : Z) (d : devs) : devs :=
  Devs (upd ideno valid (ide_valid d)) (upd ideno size (ide_size d)) (upd ideno iobase (ide_iobase d))
    (disk0_buffer d) (d_kind d) (d_blocks d) (d_blocksize d) (console d) (max_swap_offset d).
Definition set_disk0_buffer (v : Z) (d : devs) : devs :=
  Devs (ide_valid d) (ide_size d) (ide_iobase d) v (d_kind d) (d_blocks d) (d_blocksize d) (console d) (max_swap_offset d).
Definition set_device (n : Z) (k : dev_kind) (blocks blocksize : Z) (d : devs) : devs :=
  Devs (ide_valid d) (ide_size d) (ide_iobase d) (disk0_buffer d) (upd n k (d_kind d)) (upd n blocks (d_blocks d))
    (upd n blocksize (d_blocksize d)) (console d) (max_swap_offset d).
Definition put_console (c : Z) (d : devs) : devs :=
  Devs (ide_valid d) (ide_size d) (ide_iobase d) (disk0_buffer d) (d_kind d) (d_blocks d) (d_blocksize d) (console d ++ [c]) (max_swap_offset d).
Definition set_max_swap_offset (v : Z) (d : devs) : devs :=
  Devs (ide_valid d) (ide_size d) (ide_iobase d) (disk0_buffer d) (d_kind d) (d_blocks d) (d_blocksize d) (console d) v.

(** File system data that contains the devices. *)
Class HasDevs (F : Type) := { devs_of : F → devs; put_devs : devs → F → F }.

#[global] Instance devs_has_devs : HasDevs devs := {| devs_of := λ d, d; put_devs := λ d _, d |}.

Definition SECTSIZE : Z := 512.
Definition PAGE_NSECT : Z := PGSIZE / SECTSIZE.
Definition SWAP_DEV_NO : Z := 1.
Definition DISK0_DEV_NO : Z := 2.
Definition MAX_IDE : Z := 4.
Definition MAX_NSECS : Z := 128.
Definition MAX_DISK_NSECS : Z := 0x10000000.
Definition DISK0_BLKSIZE : Z := PGSIZE.
Definition DISK0_BUFSIZE : Z := 4 * DISK0_BLKSIZE.
Definition DISK0_BLK_NSECT : Z := DISK0_BLKSIZE / SECTSIZE.

Section disk.
Context {F : Type} `{!HasDevs F}.

Notation st := (vst F).

Definition dv {A} (f : devs → A) (s : st) : A := f (devs_of (fsd s)).
Definition upd_devs (f : devs → devs) : M st unit := modify (λ s, set_fsd (put_devs (f (devs_of (fsd s))) (fsd s)) s).

(** ** kern/driver/ramdisk.c *)

(** [dev] is [&ide_devices[ideno]]; [size_t] arithmetic, so the difference wraps
    and the result is never negative. *)
Definition ramdisk_read (ideno secno dst nsecs : Z) : M st Z :=
  size ← gets (dv (λ d, ide_size d ideno));
  base ← gets (dv (λ d, ide_iobase d ideno));
  let nsecs := Z.min nsecs (u64 (size - secno)) in
  on_mem_k (memcpy dst (base + secno * SECTSIZE) (nsecs * SECTSIZE));;
  mret 0.

Definition ramdisk_write (ideno secno src nsecs : Z) : M st Z :=
  size ← gets (dv (λ d, ide_size d ideno));
  base ← gets (dv (λ d, ide_iobase d ideno));
  let nsecs := Z.min nsecs (u64 (size - secno)) in
  on_mem_k (memcpy (base + secno * SECTSIZE) src (nsecs * SECTSIZE));;
  mret 0.

(** The image of the device is linked into the kernel at [begin, end). *)
Definition ramdisk_init (ideno begin' end' : Z) : M st unit :=
  upd_devs (set_ide ideno false 0 0);;
  when (negb (begin' =? end')) (upd_devs (set_ide ideno true (u32 (end' - begin') / SECTSIZE) begin')).

(** ** kern/driver/ide.c *)

Definition VALID_IDE (ideno : Z) (s : st) : bool :=
  ((0 <=? ideno) && (ideno <? MAX_IDE) && dv (λ d, ide_valid d ideno) s)%bool.

Definition ide_device_size (ideno : Z) : M st Z :=
  ok ← gets (VALID_IDE ideno);
  if (ok : bool) then gets (dv (λ d, ide_size d ideno)) else mret 0.

Definition ide_read_secs (ideno secno dst nsecs : Z) : M st Z :=
  asserts (λ s, ((nsecs <=? MAX_NSECS) && VALID_IDE ideno s)%bool);;
  assert ((secno <? MAX_DISK_NSECS) && (secno + nsecs <=? MAX_DISK_NSECS))%bool;;
  ramdisk_read ideno secno dst nsecs.

Definition ide_write_secs (ideno secno src nsecs : Z) : M st Z :=
  asserts (λ s, ((nsecs <=? MAX_NSECS) && VALID_IDE ideno s)%bool);;
  assert ((secno <? MAX_DISK_NSECS) && (secno + nsecs <=? MAX_DISK_NSECS))%bool;;
  ramdisk_write ideno secno src nsecs.

Definition ide_init (swap_begin swap_end sfs_begin sfs_end : Z) : M st unit :=
  for_range 0 (Z.to_nat MAX_IDE) (λ ideno, upd_devs (λ d, set_ide ideno false (ide_size d ideno) (ide_iobase d ideno) d));;
  ramdisk_init SWAP_DEV_NO swap_begin swap_end;;
  asserts (VALID_IDE SWAP_DEV_NO);;
  ramdisk_init DISK0_DEV_NO sfs_begin sfs_end;;
  asserts (VALID_IDE DISK0_DEV_NO).

(** ** kern/fs/swap/swapfs.c *)

(** [frame] is the kernel address of the page. *)
Definition swapfs_init : M st unit :=
  asserts (VALID_IDE SWAP_DEV_NO);;
  size ← ide_device_size SWAP_DEV_NO;
  upd_devs (set_max_swap_offset (size / (PGSIZE / SECTSIZE))).

(** kern/mm/swap.h: [swap_offset] asserts that the offset of an entry is in the swap
    area. *)
Definition swap_offset (entry : Z) : M st Z :=
  let offset := Z.shiftr entry 8 in
  asserts (λ s, ((0 <? offset) && (offset <? dv max_swap_offset s))%bool);;
  mret offset.

Definition swapfs_read (entry frame : Z) : M st Z :=
  offset ← swap_offset entry;
  ide_read_secs SWAP_DEV_NO (u32 (offset * PAGE_NSECT)) frame PAGE_NSECT.

Definition swapfs_write (entry frame : Z) : M st Z :=
  offset ← swap_offset entry;
  ide_write_secs SWAP_DEV_NO (u32 (offset * PAGE_NSECT)) frame PAGE_NSECT.

(** ** kern/fs/devs/dev_disk0.c *)

Definition disk0_read_blks_nolock (blkno nblks : Z) : M st unit :=
  buf ← gets (dv disk0_buffer);
  ret ← ide_read_secs DISK0_DEV_NO (u32 (blkno * DISK0_BLK_NSECT)) buf (u32 (nblks * DISK0_BLK_NSECT));
  if negb (ret =? 0) then panic else mret tt.

Definition disk0_write_blks_nolock (blkno nblks : Z) : M st unit :=
  buf ← gets (dv disk0_buffer);
  ret ← ide_write_secs DISK0_DEV_NO (u32 (blkno * DISK0_BLK_NSECT)) buf (u32 (nblks * DISK0_BLK_NSECT));
  if negb (ret =? 0) then panic else mret tt.

(** [while (resid != 0)]; every round moves at least one block. *)
Fixpoint disk0_loop (fuel : nat) (iob : iobuf) (write : bool) (resid blkno : Z) : M st iobuf :=
  match fuel with
  | O => out_of_fuel
  | S fuel' =>
    if negb (resid =? 0) then
      buf ← gets (dv disk0_buffer);
      '(iob, copied, nblks) ←
        (if write then
           '(_, copied, iob) ← iobuf_move iob buf DISK0_BUFSIZE false;
           assert (negb (copied =? 0) && (copied <=? resid) && (copied mod DISK0_BLKSIZE =? 0))%bool;;
           disk0_write_blks_nolock blkno (copied / DISK0_BLKSIZE);;
           mret (iob, copied, copied / DISK0_BLKSIZE)
         else
           let alen := if resid <? DISK0_BUFSIZE then resid else DISK0_BUFSIZE in
           disk0_read_blks_nolock blkno (alen / DISK0_BLKSIZE);;
           '(_, copied, iob) ← iobuf_move iob buf alen true;
           assert ((copied =? alen) && (copied mod DISK0_BLKSIZE =? 0))%bool;;
           mret (iob, copied, alen / DISK0_BLKSIZE));
      disk0_loop fuel' iob write (resid - copied) (u32 (blkno + nblks))
    else mret iob
  end.

Definition disk0_io (dev : Z) (iob : iobuf) (write : bool) : M st (Z * iobuf) :=
  let offset := io_offset iob in
  let resid := io_resid iob in
  let blkno := u32 (Z.quot offset DISK0_BLKSIZE) in
  let nblks := u32 (resid / DISK0_BLKSIZE) in
  if (negb (Z.rem offset DISK0_BLKSIZE =? 0) || negb (resid mod DISK0_BLKSIZE =? 0))%bool then mret (- E_INVAL, iob)
  else
    blocks ← gets (dv (λ d, d_blocks d dev));
    if blocks <? u32 (blkno + nblks) then mret (- E_INVAL, iob)
    else if nblks =? 0 then mret (0, iob)
    else iob ← disk0_loop (S (Z.to_nat (resid / DISK0_BLKSIZE))) iob write resid blkno; mret (0, iob).

(** [buffer] is the result of [kmalloc]. *)
Definition disk0_device_init (dev : Z) (buffer : option Z) : M st unit :=
  asserts (VALID_IDE DISK0_DEV_NO);;
  size ← ide_device_size DISK0_DEV_NO;
  upd_devs (set_device dev disk0_dev (size / DISK0_BLK_NSECT) DISK0_BLKSIZE);;
  match buffer with
  | None => panic
  | Some b => upd_devs (set_disk0_buffer b)
  end.

(** ** kern/fs/devs/dev_stdout.c *)

Definition stdout_open (open_flags : Z) : Z := if negb (open_flags =? O_WRONLY) then - E_INVAL else 0.

Fixpoint stdout_loop (n : nat) (data : Z) : M st unit :=
  match n with
  | O => mret tt
  | S n' => c ← on_mem_k (load data); upd_devs (put_console c);; stdout_loop n' (data + 1)
  end.

Definition stdout_io (iob : iobuf) (write : bool) : M st (Z * iobuf) :=
  if write then
    stdout_loop (Z.to_nat (io_resid iob)) (io_base iob);;
    mret (0, Iobuf (io_base iob) (io_offset iob) (io_len iob) 0)
  else mret (- E_INVAL, iob).

Definition stdout_device_init (dev : Z) : M st unit := upd_devs (set_device dev stdout_dev 0 1).

(** ** kern/fs/devs/dev.c

    [stdin_read buf len] is [dev_stdin_read] run to its end. *)

Context (ops : ops_kind → inode_ops (vst F)) (stdin_read : Z → Z → M st Z).

(** kern/fs/devs/dev_stdin.c *)
Definition stdin_open (open_flags : Z) : Z := if negb (open_flags =? O_RDONLY) then - E_INVAL else 0.

Definition stdin_io (iob : iobuf) (write : bool) : M st (Z * iobuf) :=
  if negb write then
    ret ← stdin_read (io_base iob) (io_resid iob);
    mret (ret, if 0 <? ret then Iobuf (io_base iob) (io_offset iob) (io_len iob) (io_resid iob - ret) else iob)
  else mret (- E_INVAL, iob).

(** [vop_info(node, device)] *)
Definition device_info (node : Z) : M st dev_kind :=
  asserts (λ s, bool_decide (i_type s node = inode_type_device_info));;
  gets (dv (λ d, d_kind d node)).

Definition dev_open (node open_flags : Z) : M st Z :=
  if truth (Z.land open_flags (Z.lor (Z.lor (Z.lor O_CREAT O_TRUNC) O_EXCL) O_APPEND)) then mret (- E_INVAL)
  else
    k ← device_info node;
    mret (match k with stdin_dev => stdin_open open_flags | stdout_dev => stdout_open open_flags | disk0_dev => 0 end).

Definition dev_close (node : Z) : M st Z := device_info node;; mret 0.

Definition dop_io (node : Z) (iob : iobuf) (write : bool) : M st (Z * iobuf) :=
  k ← device_info node;
  match k with
  | stdin_dev => stdin_io iob write
  | stdout_dev => stdout_io iob write
  | disk0_dev => disk0_io node iob write
  end.

Definition dev_read (node : Z) (iob : iobuf) : M st (Z * iobuf) := dop_io node iob false.
Definition dev_write (node : Z) (iob : iobuf) : M st (Z * iobuf) := dop_io node iob true.

Definition dev_ioctl (node op data : Z) : M st Z :=
  k ← device_info node;
  mret (match k with disk0_dev => - E_UNIMP | _ => - E_INVAL end).

Definition dev_gettype (node : Z) : M st (Z * Z) :=
  device_info node;;
  blocks ← gets (dv (λ d, d_blocks d node));
  mret (0, if 0 <? blocks then S_IFBLK else S_IFCHR).

Definition dev_fstat (node : Z) : M st (Z * stat) :=
  op ← vop_op ops vop_gettype node;
  '(ret, type) ← op node;
  if negb (ret =? 0) then mret (ret, Stat type 0 0 0)
  else
    device_info node;;
    blocks ← gets (dv (λ d, d_blocks d node));
    blocksize ← gets (dv (λ d, d_blocksize d node));
    mret (0, Stat type 1 blocks (u64 (blocks * blocksize))).

(** [pos % d_blocksize] is computed in [size_t]. *)
Definition dev_tryseek (node pos : Z) : M st Z :=
  device_info node;;
  blocks ← gets (dv (λ d, d_blocks d node));
  blocksize ← gets (dv (λ d, d_blocksize d node));
  mret (if ((0 <? blocks) && (u64 pos mod blocksize =? 0) && (0 <=? pos) && (u64 pos <? u64 (blocks * blocksize)))%bool
        then 0 else - E_INVAL).

Definition dev_lookup (node path : Z) : M st (Z * option Z) :=
  c ← on_mem_k (load path);
  if negb (c =? 0) then mret (- E_NOENT, None)
  else inode_ref_inc node;; mret (0, Some node).

(** The table [dev_node_ops]. *)
Definition dev_ops : inode_ops st :=
  InodeOps st (Some dev_open) (Some dev_close) (Some dev_read) (Some dev_write) (Some dev_fstat) None None None None
    (Some dev_gettype) (Some dev_tryseek) None None (Some dev_lookup) (Some dev_ioctl).

Definition dev_create_inode (got : option Z) : M st (option Z) :=
  node ← __alloc_inode got inode_type_device_info;
  match node with
  | Some n => inode_init n dev_node_ops None;; mret (Some n)
  | None => mret None
  end.

End disk.

(** ** kern/fs/sfs/sfs_io.c *)

(** The parts of [struct sfs_fs] that block I/O uses. *)
Record sfs_dev := SfsDev { sfs_blocks : Z; sfs_node : Z; sfs_buffer : Z }.

Definition SFS_BLKSIZE : Z := PGSIZE.
Definition SFS_BLKN_SUPER : Z := 0.
Definition SFS_BLKN_FREEMAP : Z := 2.

Section sfs_io.
Context {F : Type} `{!HasDevs F} (stdin_read : Z → Z → M (vst F) Z) (sfs : sfs_dev).

Notation st := (vst F).

Definition sfs_rwblock_nolock (buf blkno : Z) (write check : bool) : M st Z :=
  assert ((negb (blkno =? 0) || negb check) && (blkno <? sfs_blocks sfs))%bool;;
  '(ret, _) ← dop_io stdin_read (sfs_node sfs) (iobuf_init buf SFS_BLKSIZE (u32 (blkno * SFS_BLKSIZE))) write;
  mret ret.

(** [while (nblks != 0)] *)
Fixpoint sfs_rwblock (n : nat) (buf blkno : Z) (write : bool) : M st Z :=
  match n with
  | O => mret 0
  | S n' =>
    ret ← sfs_rwblock_nolock buf blkno write true;
    if negb (ret =? 0) then mret ret else sfs_rwblock n' (buf + SFS_BLKSIZE) (u32 (blkno + 1)) write
  end.

Definition sfs_rblock (buf blkno nblks : Z) : M st Z := sfs_rwblock (Z.to_nat nblks) buf blkno false.
Definition sfs_wblock (buf blkno nblks : Z) : M st Z := sfs_rwblock (Z.to_nat nblks) buf blkno true.

Definition in_block_range (len offset : Z) : bool :=
  ((0 <=? offset) && (offset <? SFS_BLKSIZE) && (u64 (offset + len) <=? SFS_BLKSIZE))%bool.

Definition sfs_rbuf (buf len blkno offset : Z) : M st Z :=
  assert (in_block_range len offset);;
  ret ← sfs_rwblock_nolock (sfs_buffer sfs) blkno false true;
  if ret =? 0 then on_mem_k (memcpy buf (sfs_buffer sfs + offset) len);; mret 0 else mret ret.

Definition sfs_wbuf (buf len blkno offset : Z) : M st Z :=
  assert (in_block_range len offset);;
  ret ← sfs_rwblock_nolock (sfs_buffer sfs) blkno false true;
  if ret =? 0 then
    on_mem_k (memcpy (sfs_buffer sfs + offset) buf len);;
    sfs_rwblock_nolock (sfs_buffer sfs) blkno true true
  else mret ret.

(** [super] is the address of the super block in memory, 44 bytes. *)
Definition sfs_sync_super (super : Z) : M st Z :=
  on_mem_k (memset (sfs_buffer sfs) 0 SFS_BLKSIZE);;
  on_mem_k (memcpy (sfs_buffer sfs) super 44);;
  sfs_rwblock_nolock (sfs_buffer sfs) SFS_BLKN_SUPER true false.

(** [data] is [bitmap_getdata]; the freemap has one bit for every block. *)
Definition sfs_sync_freemap (data : Z) : M st Z :=
  sfs_wblock data SFS_BLKN_FREEMAP (ROUNDUP_DIV (sfs_blocks sfs) (SFS_BLKSIZE * 8)).

Fixpoint sfs_clear_loop (n : nat) (blkno : Z) : M st Z :=
  match n with
  | O => mret 0
  | S n' =>
    ret ← sfs_rwblock_nolock (sfs_buffer sfs) blkno true true;
    if negb (ret =? 0) then mret ret else sfs_clear_loop n' (u32 (blkno + 1))
  end.

Definition sfs_clear_block (blkno nblks : Z) : M st Z :=
  on_mem_k (memset (sfs_buffer sfs) 0 SFS_BLKSIZE);;
  sfs_clear_loop (Z.to_nat nblks) blkno.

End sfs_io.
