(* ===== verification/DiskProofs.v ===== *)
(** * Devices and the disk: proofs

    One block of I/O through [disk0_io], the IDE layer and the RAM disk is a copy
    between the caller's buffer and the block's bytes in the image; partial writes
    of SFS change exactly the bytes they name. *)

From S2P Require Import Prelude ListH CString Vmm Vfs File Disk.

(** Two address ranges do not meet. *)
Definition disjoint_from (a n b m : Z) : Prop := a + n ≤ b ∨ b + m ≤ a.

Section proofs.
Context {F : Type} `{!HasDevs F}.

Implicit Types s : vst F.

(** The disk is up, its image and its buffer do not overlap. *)
Record disk_ok s (node : Z) : Prop := DiskOk {
  dk_valid : dv (λ d, ide_valid d DISK0_DEV_NO) s = true;
  dk_size : 0 < dv (λ d, ide_size d DISK0_DEV_NO) s ≤ MAX_DISK_NSECS;
  dk_blocks : dv (λ d, d_blocks d node) s = dv (λ d, ide_size d DISK0_DEV_NO) s / DISK0_BLK_NSECT;
  dk_kind : dv (λ d, d_kind d node) s = disk0_dev;
  dk_type : i_type s node = inode_type_device_info;
  dk_apart : disjoint_from (dv (λ d, ide_iobase d DISK0_DEV_NO) s) (dv (λ d, ide_size d DISK0_DEV_NO) s * SECTSIZE)
    (dv disk0_buffer s) DISK0_BUFSIZE;
}.

(** The address of byte 0 of a block in the image. *)
Definition block_at s (b : Z) : Z := dv (λ d, ide_iobase d DISK0_DEV_NO) s + b * DISK0_BLKSIZE.

(** Memory only. *)
Lemma disk_ok_mem s node m : disk_ok s node → disk_ok (set_k_mem m s) node.
Proof. intros [? ? ? ? ? ?]. by split. Qed.

Lemma on_mem_k_ok {A} (f : M mem A) s a m' : f (k_mem s) = Ok (a, m') → on_mem_k f s = Ok (a, set_k_mem m' s).
Proof. apply (zoom_ok k_mem set_k_mem). Qed.

(** The range of a transfer of one block. *)
Lemma block_range s node b :
  disk_ok s node → 0 ≤ b < dv (λ d, d_blocks d node) s →
  u32 (b * DISK0_BLK_NSECT) = b * 8 ∧ b * 8 < MAX_DISK_NSECS ∧ b * 8 + 8 ≤ dv (λ d, ide_size d DISK0_DEV_NO) s.
Proof.
  intros Hd Hb. rewrite (dk_blocks _ _ Hd) in Hb. pose proof (dk_size _ _ Hd). unfold MAX_DISK_NSECS in *.
  change DISK0_BLK_NSECT with 8 in *.
  assert (b * 8 + 8 ≤ dv (λ d, ide_size d DISK0_DEV_NO) s).
  { pose proof (Z.mul_div_le (dv (λ d, ide_size d DISK0_DEV_NO) s) 8 ltac:(lia)). lia. }
  rewrite u32_small by lia. lia.
Qed.

Lemma ide_read_spec s node b dst :
  disk_ok s node → 0 ≤ b < dv (λ d, d_blocks d node) s →
  disjoint_from (dv (λ d, ide_iobase d DISK0_DEV_NO) s) (dv (λ d, ide_size d DISK0_DEV_NO) s * SECTSIZE) dst DISK0_BLKSIZE →
  ∃ m', ide_read_secs DISK0_DEV_NO (b * 8) dst 8 s = Ok (0, set_k_mem m' s) ∧
    ∀ p, m' p = if decide (dst ≤ p < dst + DISK0_BLKSIZE) then k_mem s (block_at s b + (p - dst)) else k_mem s p.
Proof.
  intros Hd Hb Ha. destruct (block_range s node b Hd Hb) as (_ & Hs & Hn). pose proof (dk_size _ _ Hd) as Hsz.
  set (size := dv (λ d, ide_size d DISK0_DEV_NO) s) in *. set (base := dv (λ d, ide_iobase d DISK0_DEV_NO) s) in *.
  unfold disjoint_from, MAX_DISK_NSECS in *.
  destruct (memcpy_spec (k_mem s) dst (base + b * 8 * SECTSIZE) DISK0_BLKSIZE ltac:(done)) as (m' & Em & Hm).
  { unfold DISK0_BLKSIZE, PGSIZE, SECTSIZE in *. lia. }
  exists m'. split.
  - unfold ide_read_secs. rewrite bind_asserts by (unfold VALID_IDE; by rewrite (dk_valid _ _ Hd)).
    rewrite bind_assert by (apply andb_true_iff; split; [apply Z.ltb_lt|apply Z.leb_le]; unfold MAX_DISK_NSECS; lia).
    unfold ramdisk_read. rewrite !bind_gets. fold size base. rewrite u64_small by lia.
    rewrite Z.min_l by lia. change (8 * SECTSIZE) with DISK0_BLKSIZE. by rewrite (bind_ok _ _ _ _ _ (on_mem_k_ok _ s _ _ Em)).
  - intros p. rewrite Hm. case_decide; [|done]. unfold block_at. fold base. f_equal. unfold SECTSIZE, DISK0_BLKSIZE, PGSIZE. lia.
Qed.

Lemma ide_write_spec s node b src :
  disk_ok s node → 0 ≤ b < dv (λ d, d_blocks d node) s →
  disjoint_from (dv (λ d, ide_iobase d DISK0_DEV_NO) s) (dv (λ d, ide_size d DISK0_DEV_NO) s * SECTSIZE) src DISK0_BLKSIZE →
  ∃ m', ide_write_secs DISK0_DEV_NO (b * 8) src 8 s = Ok (0, set_k_mem m' s) ∧
    ∀ p, m' p = if decide (block_at s b ≤ p < block_at s b + DISK0_BLKSIZE) then k_mem s (src + (p - block_at s b)) else k_mem s p.
Proof.
  intros Hd Hb Ha. destruct (block_range s node b Hd Hb) as (_ & Hs & Hn). pose proof (dk_size _ _ Hd) as Hsz.
  unfold block_at.
  set (size := dv (λ d, ide_size d DISK0_DEV_NO) s) in *. set (base := dv (λ d, ide_iobase d DISK0_DEV_NO) s) in *.
  unfold disjoint_from, MAX_DISK_NSECS in *.
  destruct (memcpy_spec (k_mem s) (base + b * 8 * SECTSIZE) src DISK0_BLKSIZE ltac:(done)) as (m' & Em & Hm).
  { unfold DISK0_BLKSIZE, PGSIZE, SECTSIZE in *. lia. }
  exists m'. split.
  - unfold ide_write_secs. rewrite bind_asserts by (unfold VALID_IDE; by rewrite (dk_valid _ _ Hd)).
    rewrite bind_assert by (apply andb_true_iff; split; [apply Z.ltb_lt|apply Z.leb_le]; unfold MAX_DISK_NSECS; lia).
    unfold ramdisk_write. rewrite !bind_gets. fold size base. rewrite u64_small by lia.
    rewrite Z.min_l by lia. change (8 * SECTSIZE) with DISK0_BLKSIZE. by rewrite (bind_ok _ _ _ _ _ (on_mem_k_ok _ s _ _ Em)).
  - intros p. rewrite Hm. replace (base + b * 8 * SECTSIZE) with (base + b * DISK0_BLKSIZE); [done|].
    unfold SECTSIZE, DISK0_BLKSIZE, PGSIZE. lia.
Qed.

Lemma buffer_apart s node : disk_ok s node →
  disjoint_from (dv (λ d, ide_iobase d DISK0_DEV_NO) s) (dv (λ d, ide_size d DISK0_DEV_NO) s * SECTSIZE)
    (dv disk0_buffer s) DISK0_BLKSIZE.
Proof.
  intros Hd. pose proof (dk_apart _ _ Hd) as Ha. unfold disjoint_from, DISK0_BUFSIZE, DISK0_BLKSIZE, PGSIZE in *. lia.
Qed.

(** *** One block through [disk0_io] *)

Lemma iobuf_move_block (to : bool) s iob data len :
  io_resid iob = DISK0_BLKSIZE → DISK0_BLKSIZE ≤ len →
  ∃ r iob' m', iobuf_move iob data len to s = Ok ((r, DISK0_BLKSIZE, iob'), set_k_mem m' s) ∧
    ∀ p, let dst := if to then io_base iob else data in let src := if to then data else io_base iob in
      m' p = if decide (dst ≤ p < dst + DISK0_BLKSIZE) then k_mem s (src + (p - dst)) else k_mem s p.
Proof.
  intros Hr Hl. unfold iobuf_move. rewrite Hr.
  assert ((if len <? DISK0_BLKSIZE then len else DISK0_BLKSIZE) = DISK0_BLKSIZE) as ->.
  { destruct (Z.ltb_spec len DISK0_BLKSIZE); lia. }
  change (0 <? DISK0_BLKSIZE) with true. cbn beta iota. set (dst := if to then io_base iob else data). set (src := if to then data else io_base iob).
  destruct (memmove_spec (k_mem s) dst src DISK0_BLKSIZE ltac:(done)) as (m' & Em & Hm).
  assert ((if to then on_mem_k (memmove (io_base iob) data DISK0_BLKSIZE)
    else on_mem_k (memmove data (io_base iob) DISK0_BLKSIZE)) s = Ok (dst, set_k_mem m' s)) as E1.
  { destruct to; by apply on_mem_k_ok. }
  eexists _, _, m'. split; [|exact Hm]. rewrite bind_assoc, (bind_ok _ _ _ _ _ E1). unfold iobuf_skip. rewrite bind_assoc, Hr.
  rewrite bind_assert by done. rewrite !bind_ret. reflexivity.
Qed.

(** The transfer of one block in either direction. *)
Lemma disk0_io_block (write : bool) s node buf b :
  disk_ok s node → 0 ≤ b < dv (λ d, d_blocks d node) s → b * DISK0_BLKSIZE < 2 ^ 32 →
  ∃ iob m', disk0_io node (iobuf_init buf DISK0_BLKSIZE (b * DISK0_BLKSIZE)) write s = Ok ((0, iob), set_k_mem m' s) ∧
    (∀ p, ¬ (dv disk0_buffer s ≤ p < dv disk0_buffer s + DISK0_BLKSIZE) →
      m' p = if decide ((if write then block_at s b else buf) ≤ p < (if write then block_at s b else buf) + DISK0_BLKSIZE)
        then (if write then k_mem s (buf + (p - block_at s b)) else k_mem s (block_at s b + (p - buf))) else k_mem s p).
Proof.
  intros Hd Hb Hsm. destruct (block_range s node b Hd Hb) as (Hu & Hs & Hn). pose proof (buffer_apart s node Hd) as Hap.
  unfold disk0_io. cbn [io_offset io_resid iobuf_init]. change (u32 (DISK0_BLKSIZE / DISK0_BLKSIZE)) with 1.
  change (Z.to_nat (DISK0_BLKSIZE / DISK0_BLKSIZE)) with 1%nat. change (DISK0_BLKSIZE mod DISK0_BLKSIZE) with 0.
  rewrite Z.rem_mul, Z.quot_mul by done. cbn [Z.eqb negb orb]. rewrite bind_gets.
  assert (u32 b = b) as -> by (apply u32_small; unfold DISK0_BLKSIZE, PGSIZE in *; lia).
  rewrite (u32_small (b + 1)) by (unfold DISK0_BLKSIZE, PGSIZE in *; lia).
  destruct (Z.ltb_spec (dv (λ d, d_blocks d node) s) (b + 1)); [lia|].
  cbn [Z.eqb disk0_loop]. change (DISK0_BLKSIZE =? 0) with false. cbn [negb].
  set (bf := dv disk0_buffer s) in *. set (iob0 := iobuf_init buf DISK0_BLKSIZE (b * DISK0_BLKSIZE)).
  rewrite bind_assoc, bind_gets. fold bf. destruct write.
  - destruct (iobuf_move_block false s iob0 bf DISK0_BUFSIZE eq_refl ltac:(done)) as (r & iob & m1 & E1 & H1).
    rewrite !bind_assoc, (bind_ok _ _ _ _ _ E1). rewrite bind_assoc, bind_assert by done.
    change (DISK0_BLKSIZE / DISK0_BLKSIZE) with 1. set (s1 := set_k_mem m1 s).
    destruct (ide_write_spec s1 node b bf (disk_ok_mem s node m1 Hd) Hb Hap) as (m2 & E2 & H2).
    assert (disk0_write_blks_nolock b 1 s1 = Ok (tt, set_k_mem m2 s1)) as E3.
    { unfold disk0_write_blks_nolock. rewrite bind_gets, Hu. change (u32 (1 * DISK0_BLK_NSECT)) with 8.
      by rewrite (bind_ok _ _ _ _ _ E2). }
    rewrite bind_assoc, (bind_ok _ _ _ _ _ E3), bind_ret. change (DISK0_BLKSIZE - DISK0_BLKSIZE) with 0. cbn [Z.eqb negb].
    eexists _, m2. split; [reflexivity|]. intros p Hp. rewrite H2. change (block_at s1 b) with (block_at s b).
    change (k_mem s1) with m1. cbn beta zeta iota in H1. case_decide as Hin.
    + rewrite H1, decide_True by (unfold disjoint_from, block_at in *; lia). f_equal. cbn [io_base iob0 iobuf_init]. lia.
    + by rewrite H1, decide_False.
  - change (DISK0_BLKSIZE <? DISK0_BUFSIZE) with true. cbn beta iota. change (DISK0_BLKSIZE / DISK0_BLKSIZE) with 1.
    destruct (ide_read_spec s node b bf Hd Hb Hap) as (m1 & E1 & H1). set (s1 := set_k_mem m1 s).
    assert (disk0_read_blks_nolock b 1 s = Ok (tt, s1)) as E2.
    { unfold disk0_read_blks_nolock. rewrite bind_gets, Hu. change (u32 (1 * DISK0_BLK_NSECT)) with 8. fold bf.
      by rewrite (bind_ok _ _ _ _ _ E1). }
    rewrite !bind_assoc, (bind_ok _ _ _ _ _ E2).
    destruct (iobuf_move_block true s1 iob0 bf DISK0_BLKSIZE eq_refl ltac:(done)) as (r & iob & m2 & E3 & H2).
    rewrite !bind_assoc, (bind_ok _ _ _ _ _ E3). rewrite bind_assoc, bind_assert by done.
    rewrite bind_ret. change (DISK0_BLKSIZE - DISK0_BLKSIZE) with 0. cbn [Z.eqb negb].
    eexists _, m2. split; [reflexivity|]. intros p Hp. cbn beta zeta iota in H2. rewrite H2. cbn [io_base iob0 iobuf_init].
    change (k_mem s1) with m1. case_decide as Hin.
    + rewrite H1, decide_True by lia. f_equal. lia.
    + by rewrite H1, decide_False.
Qed.

(** ** SFS block I/O *)

Context (stdin_read : Z → Z → M (vst F) Z) (sfs : sfs_dev).

Definition img_size s : Z := dv (λ d, ide_size d DISK0_DEV_NO) s * SECTSIZE.

(** The volume lies on the disk; its block buffer is apart from the image and
    from the buffer of the driver. *)
Record sfs_ok s : Prop := SfsOk {
  so_disk : disk_ok s (sfs_node sfs);
  so_blocks : sfs_blocks sfs ≤ dv (λ d, d_blocks d (sfs_node sfs)) s;
  so_small : sfs_blocks sfs ≤ 2 ^ 20;
  so_img : disjoint_from (dv (λ d, ide_iobase d DISK0_DEV_NO) s) (img_size s) (sfs_buffer sfs) SFS_BLKSIZE;
  so_buf : disjoint_from (dv disk0_buffer s) DISK0_BUFSIZE (sfs_buffer sfs) SFS_BLKSIZE;
}.

Lemma sfs_ok_mem s m : sfs_ok s → sfs_ok (set_k_mem m s).
Proof. intros [? ? ? ? ?]. split; [by apply disk_ok_mem|done..]. Qed.

(** Outside the driver's buffer. *)
Definition outside s (p : Z) : Prop := ¬ (dv disk0_buffer s ≤ p < dv disk0_buffer s + DISK0_BLKSIZE).

Lemma sfs_rwblock_spec (write check : bool) s buf b :
  sfs_ok s → 0 ≤ b < sfs_blocks sfs → (check = true → b ≠ 0) →
  ∃ m', sfs_rwblock_nolock stdin_read sfs buf b write check s = Ok (0, set_k_mem m' s) ∧
    ∀ p, outside s p →
      m' p = if decide ((if write then block_at s b else buf) ≤ p < (if write then block_at s b else buf) + DISK0_BLKSIZE)
        then (if write then k_mem s (buf + (p - block_at s b)) else k_mem s (block_at s b + (p - buf))) else k_mem s p.
Proof.
  intros [Hd Hbl Hsm _ _] Hb Hc. unfold sfs_rwblock_nolock. rewrite bind_assert.
  2: { apply andb_true_iff. split; [|apply Z.ltb_lt; lia]. destruct check; [|by rewrite orb_true_r].
       rewrite orb_false_r. apply negb_true_iff, Z.eqb_neq. by apply Hc. }
  unfold dop_io, device_info. change SFS_BLKSIZE with DISK0_BLKSIZE.
  rewrite u32_small by (unfold DISK0_BLKSIZE, PGSIZE; lia).
  destruct (disk0_io_block write s (sfs_node sfs) buf b Hd ltac:(lia) ltac:(unfold DISK0_BLKSIZE, PGSIZE; lia))
    as (iob & m' & E & Hm).
  exists m'. split; [|exact Hm]. rewrite bind_assoc, bind_assoc, bind_asserts by (apply bool_decide_eq_true_2, Hd).
  rewrite bind_gets, (dk_kind _ _ Hd). by rewrite (bind_ok _ _ _ _ _ E).
Qed.

Lemma block_img s b p : sfs_ok s → 0 ≤ b < sfs_blocks sfs → block_at s b ≤ p < block_at s b + DISK0_BLKSIZE →
  dv (λ d, ide_iobase d DISK0_DEV_NO) s ≤ p < dv (λ d, ide_iobase d DISK0_DEV_NO) s + img_size s.
Proof.
  intros [Hd Hbl _ _ _] Hb. destruct (block_range s (sfs_node sfs) b Hd ltac:(lia)) as (_ & _ & Hn).
  unfold block_at, img_size, DISK0_BLKSIZE, PGSIZE, SECTSIZE. lia.
Qed.

(** [sfs_rbuf] copies the bytes of the block. *)
Lemma sfs_rbuf_spec s buf len b off :
  sfs_ok s → 0 < b < sfs_blocks sfs → 0 ≤ off < SFS_BLKSIZE → 0 ≤ len → off + len ≤ SFS_BLKSIZE →
  disjoint_from buf len (sfs_buffer sfs) SFS_BLKSIZE →
  ∃ m', sfs_rbuf stdin_read sfs buf len b off s = Ok (0, set_k_mem m' s) ∧
    ∀ p, outside s p → ¬ (sfs_buffer sfs ≤ p < sfs_buffer sfs + SFS_BLKSIZE) →
      m' p = if decide (buf ≤ p < buf + len) then k_mem s (block_at s b + off + (p - buf)) else k_mem s p.
Proof.
  intros Ho Hb Hoff Hlen Hsum Hdis. pose proof Ho as [Hd Hbl Hsm Himg Hbuf].
  destruct (sfs_rwblock_spec false true s (sfs_buffer sfs) b Ho ltac:(lia) ltac:(lia)) as (m1 & E1 & H1).
  unfold SFS_BLKSIZE, PGSIZE in *.
  destruct (memcpy_spec m1 buf (sfs_buffer sfs + off) len Hlen) as (m2 & E2 & H2); [unfold disjoint_from in *; lia|].
  exists m2. split.
  - unfold sfs_rbuf. rewrite bind_assert.
    2: { unfold in_block_range, SFS_BLKSIZE, PGSIZE. rewrite u64_small by lia.
         repeat (apply andb_true_iff; split); [apply Z.leb_le|apply Z.ltb_lt|apply Z.leb_le]; lia. }
    rewrite (bind_ok _ _ _ _ _ E1). cbn [Z.eqb]. by rewrite (bind_ok _ _ _ _ _ (on_mem_k_ok _ (set_k_mem m1 s) _ m2 E2)).
  - intros p Hp Hps. rewrite H2. cbn beta iota in H1. case_decide as Hin.
    + rewrite H1.
      * rewrite decide_True by (unfold DISK0_BLKSIZE, PGSIZE; lia). f_equal. lia.
      * unfold outside, disjoint_from, DISK0_BUFSIZE, DISK0_BLKSIZE, PGSIZE in *. lia.
    + rewrite H1, decide_False by done. done.
Qed.

(** [sfs_wbuf] stores to exactly the named bytes of the block. *)
Lemma sfs_wbuf_spec s buf len b off :
  sfs_ok s → 0 < b < sfs_blocks sfs → 0 ≤ off < SFS_BLKSIZE → 0 ≤ len → off + len ≤ SFS_BLKSIZE →
  disjoint_from buf len (sfs_buffer sfs) SFS_BLKSIZE → disjoint_from buf len (dv disk0_buffer s) DISK0_BUFSIZE →
  ∃ m', sfs_wbuf stdin_read sfs buf len b off s = Ok (0, set_k_mem m' s) ∧
    ∀ p, outside s p → ¬ (sfs_buffer sfs ≤ p < sfs_buffer sfs + SFS_BLKSIZE) →
      m' p = if decide (block_at s b + off ≤ p < block_at s b + off + len)
        then k_mem s (buf + (p - (block_at s b + off))) else k_mem s p.
Proof.
  intros Ho Hb Hoff Hlen Hsum Hdis Hdb. pose proof Ho as [Hd Hbl Hsm Himg Hbuf].
  destruct (sfs_rwblock_spec false true s (sfs_buffer sfs) b Ho ltac:(lia) ltac:(lia)) as (m1 & E1 & H1).
  unfold SFS_BLKSIZE, PGSIZE in *.
  destruct (memcpy_spec m1 (sfs_buffer sfs + off) buf len Hlen) as (m2 & E2 & H2); [unfold disjoint_from in *; lia|].
  destruct (sfs_rwblock_spec true true (set_k_mem m2 s) (sfs_buffer sfs) b (sfs_ok_mem s m2 Ho) ltac:(lia) ltac:(lia)) as (m3 & E3 & H3).
  exists m3. split.
  - unfold sfs_wbuf. rewrite bind_assert.
    2: { unfold in_block_range, SFS_BLKSIZE, PGSIZE. rewrite u64_small by lia.
         repeat (apply andb_true_iff; split); [apply Z.leb_le|apply Z.ltb_lt|apply Z.leb_le]; lia. }
    rewrite (bind_ok _ _ _ _ _ E1). cbn [Z.eqb]. by rewrite (bind_ok _ _ _ _ _ (on_mem_k_ok _ (set_k_mem m1 s) _ m2 E2)).
  - intros p Hp Hps. cbn beta iota in H1, H3. rewrite (H3 p Hp). change (block_at (set_k_mem m2 s) b) with (block_at s b).
    change (k_mem (set_k_mem m2 s)) with m2. unfold DISK0_BLKSIZE, PGSIZE in *.
    assert (∀ q, block_at s b ≤ q < block_at s b + 4096 → outside s (sfs_buffer sfs + (q - block_at s b))) as Hout.
    { intros q Hq. unfold outside, disjoint_from, DISK0_BUFSIZE, DISK0_BLKSIZE, PGSIZE in *. lia. }
    destruct (decide (block_at s b ≤ p < block_at s b + 4096)) as [Hin|Hin].
    + rewrite H2. destruct (decide (block_at s b + off ≤ p < block_at s b + off + len)) as [Hin2|Hin2].
      * rewrite decide_True by lia.
        replace (buf + (sfs_buffer sfs + (p - block_at s b) - (sfs_buffer sfs + off))) with (buf + (p - (block_at s b + off))) by lia.
        rewrite H1; [|unfold outside, disjoint_from, DISK0_BUFSIZE, DISK0_BLKSIZE, PGSIZE in *; lia].
        rewrite decide_False by (unfold disjoint_from in *; lia). done.
      * rewrite decide_False by lia. rewrite H1 by by apply Hout. rewrite decide_True by lia. f_equal. lia.
    + rewrite (decide_False (P := block_at s b + off ≤ p < _)) by lia. rewrite H2, decide_False by lia.
      rewrite H1 by done. by rewrite decide_False.
Qed.
End proofs.

(** ** Properties *)

(** Block I/O is faithful: writing one block through [disk0_io], the IDE
    layer and the RAM disk stores the caller's 4096 bytes at exactly that block of
    the image, and reading it returns those bytes; no other memory changes except
    the driver's own buffer. *)
Theorem disk0_block_io {F} `{!HasDevs F} (s : vst F) node buf b :
  disk_ok s node → 0 ≤ b < dv (λ d, d_blocks d node) s → b * DISK0_BLKSIZE < 2 ^ 32 →
  (∃ iob m', disk0_io node (iobuf_init buf DISK0_BLKSIZE (b * DISK0_BLKSIZE)) true s = Ok ((0, iob), set_k_mem m' s) ∧
     ∀ p, outside s p → m' p =
       if decide (block_at s b ≤ p < block_at s b + DISK0_BLKSIZE) then k_mem s (buf + (p - block_at s b)) else k_mem s p) ∧
  (∃ iob m', disk0_io node (iobuf_init buf DISK0_BLKSIZE (b * DISK0_BLKSIZE)) false s = Ok ((0, iob), set_k_mem m' s) ∧
     ∀ p, outside s p → m' p =
       if decide (buf ≤ p < buf + DISK0_BLKSIZE) then k_mem s (block_at s b + (p - buf)) else k_mem s p).
Proof.
  intros Hd Hb Hs. split.
  - apply (disk0_io_block true s node buf b Hd Hb Hs).
  - apply (disk0_io_block false s node buf b Hd Hb Hs).
Qed.

(** Partial block I/O of SFS round-trips: after [sfs_wbuf] of [len] bytes at
    an offset of a block, [sfs_rbuf] of the same range returns them, and no byte
    of the image outside the range has changed (nor any memory but the two block
    buffers). *)
Theorem sfs_buf_roundtrip {F} `{!HasDevs F} (stdin_read : Z → Z → M (vst F) Z) sfs (s : vst F) buf buf' len b off :
  sfs_ok sfs s → 0 < b < sfs_blocks sfs → 0 ≤ off < SFS_BLKSIZE → 0 ≤ len → off + len ≤ SFS_BLKSIZE →
  disjoint_from buf len (sfs_buffer sfs) SFS_BLKSIZE → disjoint_from buf len (dv disk0_buffer s) DISK0_BUFSIZE →
  disjoint_from buf' len (sfs_buffer sfs) SFS_BLKSIZE → disjoint_from buf' len (dv disk0_buffer s) DISK0_BUFSIZE →
  ∃ m1 m2, sfs_wbuf stdin_read sfs buf len b off s = Ok (0, set_k_mem m1 s) ∧
    sfs_rbuf stdin_read sfs buf' len b off (set_k_mem m1 s) = Ok (0, set_k_mem m2 (set_k_mem m1 s)) ∧
    (∀ i, 0 ≤ i < len → m2 (buf' + i) = k_mem s (buf + i)) ∧
    (∀ p, outside s p → ¬ (sfs_buffer sfs ≤ p < sfs_buffer sfs + SFS_BLKSIZE) →
      ¬ (block_at s b + off ≤ p < block_at s b + off + len) → m1 p = k_mem s p).
Proof.
  intros Ho Hb Hoff Hlen Hsum Hd1 Hd2 Hd3 Hd4.
  destruct (sfs_wbuf_spec stdin_read sfs s buf len b off Ho Hb Hoff Hlen Hsum Hd1 Hd2) as (m1 & E1 & H1).
  destruct (sfs_rbuf_spec stdin_read sfs (set_k_mem m1 s) buf' len b off (sfs_ok_mem sfs s m1 Ho) Hb Hoff Hlen Hsum Hd3) as (m2 & E2 & H2).
  exists m1, m2. split_and!; [done..| |].
  - intros i Hi. pose proof Ho as [Hdk Hbl Hsm Himg Hbuf].
    change (block_at (set_k_mem m1 s) b) with (block_at s b) in H2. change (k_mem (set_k_mem m1 s)) with m1 in H2.
    assert (block_at s b ≤ block_at s b + off + i < block_at s b + DISK0_BLKSIZE) as Hin
      by (unfold SFS_BLKSIZE, DISK0_BLKSIZE, PGSIZE in *; lia).
    pose proof (block_img sfs s b _ Ho ltac:(lia) Hin) as Himgp. pose proof (dk_apart _ _ Hdk) as Hap.
    unfold img_size, outside, disjoint_from, SFS_BLKSIZE, DISK0_BUFSIZE, DISK0_BLKSIZE, PGSIZE in *.
    change (dv disk0_buffer (set_k_mem m1 s)) with (dv disk0_buffer s) in *.
    rewrite H2 by lia. rewrite decide_True by lia. rewrite H1 by lia. rewrite decide_True by lia. f_equal. lia.
  - intros p Hp Hps Hpr. rewrite H1 by done. by rewrite decide_False.
Qed.

(** A volume of four blocks: the image at 0x10000, the driver's buffer at 0x40000,
    the block buffer of SFS at 0x50000. *)
Definition example_devs : devs :=
  Devs (λ i, i =? 2) (λ _, 32) (λ _, 0x10000) 0x40000 (λ _, disk0_dev) (λ _, 4) (λ _, 4096) [] 0.
Definition example_disk : vst devs :=
  Vst (λ _, 1) (λ _, 0) (λ _, inode_type_device_info) (λ _, Some dev_node_ops) (λ _, None) (λ _, None)
    (λ _ fd, File FD_NONE false false fd 0 None 0) (λ _, 1) (Some 1) None [] None
    (Vmm.Vmm (λ e, ListEntry e e) (λ _, 0) (λ _, 0) (λ _, 0) (λ _, 0) (λ _, None) (λ _, 0) (λ _, 0))
    (λ p, if p =? 0x60000 then 7 else 0) example_devs.
Definition example_sfs : sfs_dev := SfsDev 4 9 0x50000.

Lemma example_disk_ok : disk_ok example_disk 9.
Proof. split; try (vm_compute; done). left. vm_compute. discriminate. Qed.

Lemma example_sfs_ok : sfs_ok example_sfs example_disk.
Proof.
  split; [apply example_disk_ok|vm_compute; done|vm_compute; done|..]; left; vm_compute; discriminate.
Qed.

Lemma disk0_block_io_witness : ∃ iob m',
  disk0_io 9 (iobuf_init 0x60000 DISK0_BLKSIZE (3 * DISK0_BLKSIZE)) true example_disk = Ok ((0, iob), set_k_mem m' example_disk) ∧
  m' 0x13000 = 7.
Proof.
  destruct (disk0_block_io example_disk 9 0x60000 3) as [(iob & m' & E & H) _].
  - apply example_disk_ok.
  - vm_compute. split; [discriminate|reflexivity].
  - vm_compute. reflexivity.
  - exists iob, m'. split; [exact E|]. rewrite H; [vm_compute; reflexivity|].
    unfold outside. vm_compute. intros [[] _]. reflexivity.
Defined.

Lemma sfs_buf_roundtrip_witness : ∃ m1 m2,
  sfs_wbuf (λ _ _, mret 0) example_sfs 0x60000 2 3 5 example_disk = Ok (0, set_k_mem m1 example_disk) ∧
  sfs_rbuf (λ _ _, mret 0) example_sfs 0x61000 2 3 5 (set_k_mem m1 example_disk) = Ok (0, set_k_mem m2 (set_k_mem m1 example_disk)) ∧
  m2 0x61000 = 7.
Proof.
  destruct (sfs_buf_roundtrip (λ _ _, mret 0) example_sfs example_disk 0x60000 0x61000 2 3 5) as (m1 & m2 & E1 & E2 & H & _).
  - apply example_sfs_ok.
  - vm_compute. split; reflexivity.
  - vm_compute. split; [discriminate|reflexivity].
  - lia.
  - vm_compute. discriminate.
  - right. vm_compute. discriminate.
  - right. vm_compute. discriminate.
  - right. vm_compute. discriminate.
  - right. vm_compute. discriminate.
  - exists m1, m2. split; [exact E1|]. split; [exact E2|]. apply (H 0). lia.
Defined.
