(* ===== verification/Sfs.v ===== *)
(** * The simple file system: blocks

    The part of kern/fs/sfs/sfs_inode.c that works on one mounted volume: free
    blocks, the block map of an inode, directory entries, reading and writing a
    file.  A disk block is a function from offsets to bytes; [struct sfs_inode] and
    its [struct sfs_disk_inode] are named by the inode they belong to.  What a
    block transfer reports is the argument [dev_ret]: the device of this kernel
    reports 0 for every block of the volume, the error paths are kept.  The
    semaphores have no state here. *)

From S2P Require Import Prelude ListH CString Bitmap Vmm Vfs Disk Proc.

(** ** kern/fs/sfs/sfs.h *)

Definition SFS_NDIRECT : Z := 12.
Definition SFS_MAX_FNAME_LEN : Z := 255.
Definition SFS_MAX_FILE_SIZE : Z := 1024 * 1024 * 128.
Definition SFS_BLKN_ROOT : Z := 1.
Definition SFS_BLK_NENTRY : Z := SFS_BLKSIZE / 4.
Definition SFS_TYPE_FILE : Z := 1.
Definition SFS_TYPE_DIR : Z := 2.
Definition SFS_TYPE_LINK : Z := 3.
Definition SFS_HLIST_SHIFT : Z := 10.
Definition sin_hashfn (x : Z) : Z := hash32 x SFS_HLIST_SHIFT.
(** The sizes of [struct sfs_disk_inode] and [struct sfs_disk_entry]. *)
Definition din_bytes : Z := 64.
Definition entry_bytes : Z := 260.
Definition sfs_dentry_size : Z := SFS_MAX_FNAME_LEN + 1.

(** Memory, the blocks on disk, the super block and the free map, and the fields of
    the inodes in memory. *)
Record sfst := Sfst {
  s_mem : mem;
  disk : Z → Z → Z;
  sb_blocks : Z;
  sb_unused : Z;
  super_dirty : bool;
  freemap : bitmap;
  sb_magic : Z;
  sb_info : Z → Z;
  sfs_ptrs : list Z;
  din_size : Z → Z;
  din_type : Z → Z;
  din_nlinks : Z → Z;
  din_blocks : Z → Z;
  din_direct : Z → Z → Z;
  din_indirect : Z → Z;
  sin_din : Z → Z;
  sin_ino : Z → Z;
  sin_dirty : Z → bool;
  reclaim_count : Z → Z;
  inode_link : lheap (entry Z);
  sin_hash : lheap hentry;
}.

Definition set_s_mem (v : mem) (s : sfst) : sfst :=
  Sfst v (disk s) (sb_blocks s) (sb_unused s) (super_dirty s) (freemap s) (sb_magic s) (sb_info s) (sfs_ptrs s) (din_size s) (din_type s) (din_nlinks s)
    (din_blocks s) (din_direct s) (din_indirect s) (sin_din s) (sin_ino s) (sin_dirty s) (reclaim_count s) (inode_link s) (sin_hash s).
Definition set_block (b : Z) (v : Z → Z) (s : sfst) : sfst :=
  Sfst (s_mem s) (upd b v (disk s)) (sb_blocks s) (sb_unused s) (super_dirty s) (freemap s) (sb_magic s) (sb_info s) (sfs_ptrs s) (din_size s) (din_type s) (din_nlinks s)
    (din_blocks s) (din_direct s) (din_indirect s) (sin_din s) (sin_ino s) (sin_dirty s) (reclaim_count s) (inode_link s) (sin_hash s).
Definition set_unused (v : Z) (s : sfst) : sfst :=
  Sfst (s_mem s) (disk s) (sb_blocks s) v true (freemap s) (sb_magic s) (sb_info s) (sfs_ptrs s) (din_size s) (din_type s) (din_nlinks s)
    (din_blocks s) (din_direct s) (din_indirect s) (sin_din s) (sin_ino s) (sin_dirty s) (reclaim_count s) (inode_link s) (sin_hash s).
Definition set_freemap (v : bitmap) (s : sfst) : sfst :=
  Sfst (s_mem s) (disk s) (sb_blocks s) (sb_unused s) (super_dirty s) v (sb_magic s) (sb_info s) (sfs_ptrs s) (din_size s) (din_type s) (din_nlinks s)
    (din_blocks s) (din_direct s) (din_indirect s) (sin_din s) (sin_ino s) (sin_dirty s) (reclaim_count s) (inode_link s) (sin_hash s).
Definition set_din_size (n v : Z) (s : sfst) : sfst :=
  Sfst (s_mem s) (disk s) (sb_blocks s) (sb_unused s) (super_dirty s) (freemap s) (sb_magic s) (sb_info s) (sfs_ptrs s) (upd n v (din_size s)) (din_type s) (din_nlinks s)
    (din_blocks s) (din_direct s) (din_indirect s) (sin_din s) (sin_ino s) (sin_dirty s) (reclaim_count s) (inode_link s) (sin_hash s).
Definition set_din_blocks (n v : Z) (s : sfst) : sfst :=
  Sfst (s_mem s) (disk s) (sb_blocks s) (sb_unused s) (super_dirty s) (freemap s) (sb_magic s) (sb_info s) (sfs_ptrs s) (din_size s) (din_type s) (din_nlinks s)
    (upd n v (din_blocks s)) (din_direct s) (din_indirect s) (sin_din s) (sin_ino s) (sin_dirty s) (reclaim_count s) (inode_link s) (sin_hash s).
Definition set_din_direct (n i v : Z) (s : sfst) : sfst :=
  Sfst (s_mem s) (disk s) (sb_blocks s) (sb_unused s) (super_dirty s) (freemap s) (sb_magic s) (sb_info s) (sfs_ptrs s) (din_size s) (din_type s) (din_nlinks s)
    (din_blocks s) (upd n (upd i v (din_direct s n)) (din_direct s)) (din_indirect s) (sin_din s) (sin_ino s) (sin_dirty s)
    (reclaim_count s) (inode_link s) (sin_hash s).
Definition set_din_indirect (n v : Z) (s : sfst) : sfst :=
  Sfst (s_mem s) (disk s) (sb_blocks s) (sb_unused s) (super_dirty s) (freemap s) (sb_magic s) (sb_info s) (sfs_ptrs s) (din_size s) (din_type s) (din_nlinks s)
    (din_blocks s) (din_direct s) (upd n v (din_indirect s)) (sin_din s) (sin_ino s) (sin_dirty s) (reclaim_count s) (inode_link s) (sin_hash s).
Definition set_sin_dirty (n : Z) (v : bool) (s : sfst) : sfst :=
  Sfst (s_mem s) (disk s) (sb_blocks s) (sb_unused s) (super_dirty s) (freemap s) (sb_magic s) (sb_info s) (sfs_ptrs s) (din_size s) (din_type s) (din_nlinks s)
    (din_blocks s) (din_direct s) (din_indirect s) (sin_din s) (sin_ino s) (upd n v (sin_dirty s)) (reclaim_count s) (inode_link s) (sin_hash s).

Definition on_freemap {A} (m : M bitmap A) : M sfst A := zoom freemap set_freemap m.
Definition on_s_mem {A} (m : M mem A) : M sfst A := zoom s_mem set_s_mem m.

(** ** Bytes *)

(** [len] bytes of [from] at [src] stored to [to] at [dst]. *)
Definition blit (dst src len : Z) (from to : Z → Z) : Z → Z :=
  λ p, if ((dst <=? p) && (p <? dst + len))%bool then from (src + (p - dst)) else to p.

(** Little-endian integers. *)
Definition le32 (f : Z → Z) (off : Z) : Z := f off + 256 * f (off + 1) + 65536 * f (off + 2) + 16777216 * f (off + 3).
Definition byte32 (v i : Z) : Z := v / 256 ^ i mod 256.

Section sfs.
Context (dev_ret : Z → bool → Z).

(** *** Block transfers, as sfs_io.c offers them *)

Definition rw_check (blkno : Z) : M sfst unit := asserts (λ s, (negb (blkno =? 0) && (blkno <? sb_blocks s))%bool).
Definition buf_check (len offset : Z) : M sfst unit :=
  assert ((0 <=? offset) && (offset <? SFS_BLKSIZE) && (offset + len <=? SFS_BLKSIZE))%bool.

(** [sfs_rbuf(sfs, buf, len, blkno, offset)] to memory, and to a local [uint32_t]. *)
Definition rbuf (buf len blkno offset : Z) : M sfst Z :=
  buf_check len offset;;
  rw_check blkno;;
  let ret := dev_ret blkno false in
  when (ret =? 0) (modify (λ s, set_s_mem (blit buf offset len (disk s blkno) (s_mem s)) s));;
  mret ret.

Definition rbuf32 (blkno offset : Z) : M sfst (Z * Z) :=
  buf_check 4 offset;;
  rw_check blkno;;
  v ← gets (λ s, le32 (disk s blkno) offset);
  mret (dev_ret blkno false, v).

(** [sfs_wbuf] reads the block, changes it and writes it back. *)
Definition wbuf_from (from : sfst → Z → Z) (buf len blkno offset : Z) : M sfst Z :=
  buf_check len offset;;
  rw_check blkno;;
  let ret := dev_ret blkno false in
  if ret =? 0 then
    let ret := dev_ret blkno true in
    when (ret =? 0) (modify (λ s, set_block blkno (blit offset buf len (from s) (disk s blkno)) s));;
    mret ret
  else mret ret.

Definition wbuf : Z → Z → Z → Z → M sfst Z := wbuf_from s_mem.
Definition wbuf32 (v blkno offset : Z) : M sfst Z := wbuf_from (λ _, byte32 v) 0 4 blkno offset.

(** [sfs_rblock] and [sfs_wblock] *)
Fixpoint rwblock (n : nat) (buf blkno : Z) (write : bool) : M sfst Z :=
  match n with
  | O => mret 0
  | S n' =>
    rw_check blkno;;
    let ret := dev_ret blkno write in
    if negb (ret =? 0) then mret ret
    else
      modify (λ s, if write then set_block blkno (blit 0 buf SFS_BLKSIZE (s_mem s) (disk s blkno)) s
                   else set_s_mem (blit buf 0 SFS_BLKSIZE (disk s blkno) (s_mem s)) s);;
      rwblock n' (buf + SFS_BLKSIZE) (u32 (blkno + 1)) write
  end.

Definition clear_block (blkno : Z) : M sfst Z :=
  rw_check blkno;;
  let ret := dev_ret blkno true in
  when (ret =? 0) (modify (set_block blkno (λ _, 0)));;
  mret ret.

(** *** Free blocks *)

Definition sfs_block_inuse (ino : Z) : M sfst bool :=
  asserts (λ s, (negb (ino =? 0) && (ino <? sb_blocks s))%bool);;
  t ← on_freemap (bitmap_test ino);
  mret (negb t).

Definition assert_inuse (ino : Z) : M sfst unit := b ← sfs_block_inuse ino; assert b.

(** The result and [*ino_store], which is [old] if no block is found. *)
Definition sfs_block_alloc (old : Z) : M sfst (Z * Z) :=
  r ← on_freemap bitmap_alloc;
  match r with
  | None => mret (- E_NO_MEM, old)
  | Some ino =>
    asserts (λ s, 0 <? sb_unused s);;
    modify (λ s, set_unused (u32 (sb_unused s - 1)) s);;
    assert_inuse ino;;
    ret ← clear_block ino;
    mret (ret, ino)
  end.

Definition sfs_block_free (ino : Z) : M sfst unit :=
  assert_inuse ino;;
  on_freemap (bitmap_free ino);;
  modify (λ s, set_unused (u32 (sb_unused s + 1)) s).

(** *** The block map of an inode *)

(** [failed_cleanup] *)
Definition free_new_entry (entp ent ret : Z) : M sfst (Z * Z * Z) :=
  (if negb (ent =? entp) then sfs_block_free ent else mret tt);;
  mret (ret, entp, 0).

(** A new block for the entry at [offset] of the block [ent]. *)
Definition fill_entry (entp ent offset : Z) : M sfst (Z * Z * Z) :=
  '(ret, ino) ← sfs_block_alloc 0;
  if negb (ret =? 0) then free_new_entry entp ent ret
  else
    ret ← wbuf32 ino ent offset;
    if negb (ret =? 0) then sfs_block_free ino;; free_new_entry entp ent ret
    else mret (0, ent, ino).

(** Results: the return value, [*entp] and [*ino_store]. *)
Definition sfs_bmap_get_sub_nolock (entp index : Z) (create : bool) : M sfst (Z * Z * Z) :=
  assert (index <? SFS_BLK_NENTRY);;
  let offset := index * 4 in
  if negb (entp =? 0) then
    '(ret, ino) ← rbuf32 entp offset;
    if negb (ret =? 0) then mret (ret, entp, 0)
    else if (negb (ino =? 0) || negb create)%bool then mret (0, entp, ino)
    else fill_entry entp entp offset
  else if negb create then mret (0, entp, 0)
  else
    '(ret, ent) ← sfs_block_alloc 0;
    if negb (ret =? 0) then mret (ret, entp, 0) else fill_entry entp ent offset.

(** [sfs_bmap_get_nolock] up to its label [out]: the direct blocks and the entries of
    the indirect block. *)
Definition bmap_find (sin index : Z) (create : bool) : M sfst (Z * Z) :=
  if index <? SFS_NDIRECT then
    ino ← gets (λ s, din_direct s sin index);
    if ((ino =? 0) && create)%bool then
      '(ret, ino) ← sfs_block_alloc ino;
      if negb (ret =? 0) then mret (ret, 0)
      else
        modify (set_din_direct sin index ino);;
        modify (set_sin_dirty sin true);;
        mret (0, ino)
    else mret (0, ino)
  else
    let index := index - SFS_NDIRECT in
    if index <? SFS_BLK_NENTRY then
      indirect ← gets (λ s, din_indirect s sin);
      '(ret, ent, ino) ← sfs_bmap_get_sub_nolock indirect index create;
      if negb (ret =? 0) then mret (ret, 0)
      else
        (if negb (ent =? indirect) then
           assert (indirect =? 0);;
           modify (set_din_indirect sin ent);;
           modify (set_sin_dirty sin true)
         else mret tt);;
        mret (0, ino)
    else panic.

(** The result and [*ino_store]. *)
Definition sfs_bmap_get_nolock (sin index : Z) (create : bool) : M sfst (Z * Z) :=
  '(ret, ino) ← bmap_find sin index create;
  if negb (ret =? 0) then mret (ret, 0)
  else
    (if ino =? 0 then mret tt else assert_inuse ino);;
    mret (0, ino).

Definition sfs_bmap_free_sub_nolock (ent index : Z) : M sfst Z :=
  b ← sfs_block_inuse ent;
  assert (b && (index <? SFS_BLK_NENTRY))%bool;;
  let offset := index * 4 in
  '(ret, ino) ← rbuf32 ent offset;
  if negb (ret =? 0) then mret ret
  else if negb (ino =? 0) then
    ret ← wbuf32 0 ent offset;
    if negb (ret =? 0) then mret ret else sfs_block_free ino;; mret 0
  else mret 0.

Definition sfs_bmap_free_nolock (sin index : Z) : M sfst Z :=
  if index <? SFS_NDIRECT then
    ino ← gets (λ s, din_direct s sin index);
    (if negb (ino =? 0) then
       sfs_block_free ino;;
       modify (set_din_direct sin index 0);;
       modify (set_sin_dirty sin true)
     else mret tt);;
    mret 0
  else
    let index := index - SFS_NDIRECT in
    if index <? SFS_BLK_NENTRY then
      ent ← gets (λ s, din_indirect s sin);
      if negb (ent =? 0) then sfs_bmap_free_sub_nolock ent index else mret 0
    else mret 0.

Definition sfs_bmap_load_nolock (sin index : Z) : M sfst (Z * Z) :=
  blocks ← gets (λ s, din_blocks s sin);
  assert (index <=? blocks);;
  let create := index =? blocks in
  '(ret, ino) ← sfs_bmap_get_nolock sin index create;
  if negb (ret =? 0) then mret (ret, 0)
  else
    assert_inuse ino;;
    when create (modify (λ s, set_din_blocks sin (u32 (din_blocks s sin + 1)) s));;
    mret (0, ino).

Definition sfs_bmap_truncate_nolock (sin : Z) : M sfst Z :=
  blocks ← gets (λ s, din_blocks s sin);
  assert (negb (blocks =? 0));;
  ret ← sfs_bmap_free_nolock sin (blocks - 1);
  if negb (ret =? 0) then mret ret
  else
    modify (λ s, set_din_blocks sin (din_blocks s sin - 1) s);;
    modify (set_sin_dirty sin true);;
    mret 0.

(** *** Directory entries *)

(** [entry] is the address of a [struct sfs_disk_entry]: the number of the inode and
    the name behind it. *)
Definition e_ino (entry : Z) (s : sfst) : Z := le32 (s_mem s) entry.
Definition e_name (entry : Z) : Z := entry + 4.

Definition sfs_dirent_read_nolock (sin slot entry : Z) : M sfst Z :=
  asserts (λ s, ((din_type s sin =? SFS_TYPE_DIR) && (0 <=? slot) && (slot <? din_blocks s sin))%bool);;
  '(ret, ino) ← sfs_bmap_load_nolock sin slot;
  if negb (ret =? 0) then mret ret
  else
    assert_inuse ino;;
    ret ← rbuf entry entry_bytes ino 0;
    if negb (ret =? 0) then mret ret
    else on_s_mem (put (e_name entry + SFS_MAX_FNAME_LEN) 0);; mret 0.

(** The [for] loop of [sfs_dirent_search_nolock]: [n] slots from [i] on; the results
    are the return value, the inode number, the slot and the empty slot. *)
Fixpoint search_loop (fuel n : nat) (sin name entry i empty : Z) : M sfst (Z * Z * Z * Z) :=
  match n with
  | O => mret (- E_NOENT, 0, 0, empty)
  | S n' =>
    ret ← sfs_dirent_read_nolock sin i entry;
    if negb (ret =? 0) then mret (ret, 0, 0, empty)
    else
      ino ← gets (e_ino entry);
      if ino =? 0 then search_loop fuel n' sin name entry (i + 1) i
      else
        c ← on_s_mem (strcmp fuel name (e_name entry));
        if c =? 0 then mret (0, ino, i, empty) else search_loop fuel n' sin name entry (i + 1) empty
  end.

(** [got] is the result of [kmalloc]. *)
Definition sfs_dirent_search_nolock (fuel : nat) (got : option Z) (sin name : Z) : M sfst (Z * Z * Z * Z) :=
  len ← on_s_mem (strlen fuel name);
  assert (len <=? SFS_MAX_FNAME_LEN);;
  match got with
  | None => mret (- E_NO_MEM, 0, 0, 0)
  | Some entry =>
    nslots ← gets (λ s, din_blocks s sin);
    search_loop fuel (Z.to_nat nslots) sin name entry 0 nslots
  end.

Fixpoint findino_loop (n : nat) (sin ino entry i : Z) : M sfst Z :=
  match n with
  | O => mret (- E_NOENT)
  | S n' =>
    ret ← sfs_dirent_read_nolock sin i entry;
    if negb (ret =? 0) then mret ret
    else
      e ← gets (e_ino entry);
      if e =? ino then mret 0 else findino_loop n' sin ino entry (i + 1)
  end.

Definition sfs_dirent_findino_nolock (sin ino entry : Z) : M sfst Z :=
  nslots ← gets (λ s, din_blocks s sin);
  findino_loop (Z.to_nat nslots) sin ino entry 0.

Fixpoint getdirentry_loop (n : nat) (sin slot entry i : Z) : M sfst Z :=
  match n with
  | O => mret (- E_NOENT)
  | S n' =>
    ret ← sfs_dirent_read_nolock sin i entry;
    if negb (ret =? 0) then mret ret
    else
      e ← gets (e_ino entry);
      if negb (e =? 0) then
        if slot =? 0 then mret 0 else getdirentry_loop n' sin (slot - 1) entry (i + 1)
      else getdirentry_loop n' sin slot entry (i + 1)
  end.

Definition sfs_getdirentry_sub_nolock (sin slot entry : Z) : M sfst Z :=
  nslots ← gets (λ s, din_blocks s sin);
  getdirentry_loop (Z.to_nat nslots) sin slot entry 0.

(** *** Reading and writing a file *)

Definition buf_op (write : bool) : Z → Z → Z → Z → M sfst Z := if write then wbuf else rbuf.
Definition block_op (write : bool) (buf blkno nblks : Z) : M sfst Z := rwblock (Z.to_nat nblks) buf blkno write.

(** [out]: the size grows to the end of the transfer. *)
Definition io_out (sin offset ret alen : Z) : M sfst (Z * Z) :=
  size ← gets (λ s, din_size s sin);
  (if size <? u64 (offset + alen) then
     modify (set_din_size sin (u32 (offset + alen)));;
     modify (set_sin_dirty sin true)
   else mret tt);;
  mret (ret, alen).

(** The last, partial block. *)
Definition io_tail (sin buf blkno endpos alen : Z) (write : bool) : M sfst (Z * Z) :=
  let size := endpos mod SFS_BLKSIZE in
  if negb (size =? 0) then
    '(ret, ino) ← sfs_bmap_load_nolock sin blkno;
    if negb (ret =? 0) then mret (ret, alen)
    else
      ret ← buf_op write buf size ino 0;
      if negb (ret =? 0) then mret (ret, alen) else mret (0, alen + size)
  else mret (0, alen).

(** The aligned blocks, all in one transfer, and the rest. *)
Definition io_blocks (sin buf blkno nblks endpos alen : Z) (write : bool) : M sfst (Z * Z) :=
  if 0 <? nblks then
    '(ret, ino) ← sfs_bmap_load_nolock sin blkno;
    if negb (ret =? 0) then mret (ret, alen)
    else
      ret ← block_op write buf ino nblks;
      if negb (ret =? 0) then mret (ret, alen)
      else
        io_tail sin (buf + nblks * SFS_BLKSIZE) (u32 (blkno + nblks)) endpos (alen + nblks * SFS_BLKSIZE) write
  else io_tail sin buf blkno endpos alen write.

(** Everything from the first, partial block on. *)
Definition io_from (sin buf offset blkno nblks endpos : Z) (write : bool) : M sfst (Z * Z) :=
  let blkoff := offset mod SFS_BLKSIZE in
  if negb (blkoff =? 0) then
    let size := if negb (nblks =? 0) then SFS_BLKSIZE - blkoff else endpos - offset in
    '(ret, ino) ← sfs_bmap_load_nolock sin blkno;
    if negb (ret =? 0) then mret (ret, 0)
    else
      ret ← buf_op write buf size ino blkoff;
      if negb (ret =? 0) then mret (ret, 0)
      else if nblks =? 0 then mret (0, size)
      else io_blocks sin (buf + size) (blkno + 1) (nblks - 1) endpos size write
  else io_blocks sin buf blkno nblks endpos 0 write.

(** Results: the return value and [*alenp]. *)
Definition sfs_io_nolock (sin buf offset alen : Z) (write : bool) : M sfst (Z * Z) :=
  asserts (λ s, negb (din_type s sin =? SFS_TYPE_DIR));;
  let endpos := s64 (offset + alen) in
  if ((offset <? 0) || (SFS_MAX_FILE_SIZE <=? offset) || (endpos <? offset))%bool then mret (- E_INVAL, 0)
  else if offset =? endpos then mret (0, 0)
  else
    let endpos := if SFS_MAX_FILE_SIZE <? endpos then SFS_MAX_FILE_SIZE else endpos in
    size ← gets (λ s, din_size s sin);
    if (negb write && (size <=? offset))%bool then mret (0, 0)
    else
      let endpos := if (negb write && (size <? endpos))%bool then size else endpos in
      let blkno := offset / SFS_BLKSIZE in
      let nblks := endpos / SFS_BLKSIZE - blkno in
      '(ret, alen) ← io_from sin buf offset blkno nblks endpos write;
      io_out sin offset ret alen.

(** *** Changing the size of a file *)

(** [while (nblks != tblks)], growing; then shrinking. *)
Fixpoint grow_loop (n : nat) (sin nblks : Z) : M sfst Z :=
  match n with
  | O => mret 0
  | S n' =>
    '(ret, _) ← sfs_bmap_load_nolock sin nblks;
    if negb (ret =? 0) then mret ret else grow_loop n' sin (nblks + 1)
  end.

Fixpoint shrink_loop (n : nat) (sin : Z) : M sfst Z :=
  match n with
  | O => mret 0
  | S n' =>
    ret ← sfs_bmap_truncate_nolock sin;
    if negb (ret =? 0) then mret ret else shrink_loop n' sin
  end.

Definition sfs_truncfile (sin len : Z) : M sfst Z :=
  if ((len <? 0) || (SFS_MAX_FILE_SIZE <? len))%bool then mret (- E_INVAL)
  else
    let tblks := u32 (ROUNDUP_DIV len SFS_BLKSIZE) in
    size ← gets (λ s, din_size s sin);
    nblks ← gets (λ s, din_blocks s sin);
    if size =? len then assert (tblks =? nblks);; mret 0
    else
      ret ← (if nblks <? tblks then grow_loop (Z.to_nat (tblks - nblks)) sin nblks
             else shrink_loop (Z.to_nat (nblks - tblks)) sin);
      if negb (ret =? 0) then mret ret
      else
        asserts (λ s, din_blocks s sin =? tblks);;
        modify (set_din_size sin (u32 len));;
        modify (set_sin_dirty sin true);;
        mret 0.

Definition sfs_tryseek (sin pos : Z) : M sfst Z :=
  if ((pos <? 0) || (SFS_MAX_FILE_SIZE <=? pos))%bool then mret (- E_INVAL)
  else
    size ← gets (λ s, din_size s sin);
    if size <? pos then sfs_truncfile sin pos else mret 0.

End sfs.
