(* ===== verification/SfsProofs.v ===== *)
(** * The simple file system: proofs

    The free map and the block map of a file.  [vol_ok] is the invariant of the free
    map, [file_ok] that of one inode: its blocks are in use, distinct, and end at
    [din_blocks].  The contents of a file are the bytes of its blocks in order. *)

From S2P Require Import Prelude ListH CString Bitmap Vmm Vfs Disk Proc Sfs.

(** ** Counting *)

Lemma filter_flip {A} (P Q : A → Prop) `{!∀ x, Decision (P x), !∀ x, Decision (Q x)} (l : list A) x :
  NoDup l → x ∈ l → P x → (¬ Q x) → (∀ y, y ≠ x → P y ↔ Q y) → length (filter P l) = S (length (filter Q l)).
Proof.
  intros Hnd Hx HP HQ Heq. apply list_elem_of_split in Hx as (l1 & l2 & ->).
  apply NoDup_app in Hnd as (_ & Hd & Hnd). apply NoDup_cons in Hnd as [Hx2 _].
  assert (∀ l : list A, x ∉ l → filter P l = filter Q l) as Hext.
  { clear - Heq. induction l as [|y l IH]; intros Hn; [done|]. apply not_elem_of_cons in Hn as [Hy Hn].
    destruct (decide (P y)) as [Hp|Hp].
    - rewrite !filter_cons_True by naive_solver. by rewrite IH.
    - rewrite !filter_cons_False by naive_solver. by rewrite IH. }
  rewrite !filter_app, filter_cons_True, (filter_cons_False Q) by done.
  rewrite (Hext l2), (Hext l1) by (done || (intros Hin; by apply (Hd x Hin); left)).
  rewrite !length_app. simpl. lia.
Qed.

Definition count_free (b : bitmap) : Z := Z.of_nat (length (filter (λ i, is_free b i = true) (seqZ 0 (nbits b)))).

Lemma count_free_range b : 0 ≤ nbits b → 0 ≤ count_free b ≤ nbits b.
Proof.
  intros Hn. unfold count_free. pose proof (length_filter (λ i, is_free b i = true) (seqZ 0 (nbits b))) as H.
  rewrite length_seqZ in H. lia.
Qed.

Lemma count_free_take b b' i :
  0 ≤ i < nbits b → nbits b' = nbits b → is_free b i = true →
  (∀ j, is_free b' j = (negb (bool_decide (j = i)) && is_free b j)%bool) → count_free b = count_free b' + 1.
Proof.
  intros Hi Hn Hf Hb. unfold count_free. rewrite Hn.
  rewrite (filter_flip (λ j, is_free b j = true) (λ j, is_free b' j = true) _ i).
  - lia.
  - apply NoDup_seqZ.
  - apply elem_of_seqZ. lia.
  - done.
  - by rewrite Hb, bool_decide_eq_true_2.
  - intros j Hj. by rewrite Hb, bool_decide_eq_false_2.
Qed.

(** ** Free blocks *)

Record vol_ok (s : sfst) : Prop := VolOk {
  vo_map : bitmap_wf (freemap s);
  vo_blocks : 0 < sb_blocks s ≤ nbits (freemap s);
  vo_free : ∀ i, 0 ≤ i < nbits (freemap s) → is_free (freemap s) i = true → 0 < i < sb_blocks s;
  vo_unused : sb_unused s = count_free (freemap s);
}.

(** A block of the volume that is in use. *)
Definition used (s : sfst) (b : Z) : Prop := 0 < b < sb_blocks s ∧ is_free (freemap s) b = false.
Definition unused (s : sfst) (b : Z) : Prop := 0 < b < sb_blocks s ∧ is_free (freemap s) b = true.

Lemma set_freemap_id s : set_freemap (freemap s) s = s.
Proof. by destruct s. Qed.

Lemma set_s_mem_id s : set_s_mem (s_mem s) s = s.
Proof. by destruct s. Qed.

Lemma inuse_spec s b : vol_ok s → used s b → sfs_block_inuse b s = Ok (true, s).
Proof.
  intros [Hw Hb _ _] [Hr Hf]. unfold sfs_block_inuse.
  rewrite bind_asserts by (destruct (Z.eqb_spec b 0), (Z.ltb_spec b (sb_blocks s)); simpl; lia || done).
  unfold on_freemap.
  rewrite (bind_ok _ _ _ _ _ (zoom_ok freemap set_freemap _ s _ _ (bitmap_test_spec _ b Hw ltac:(lia)))).
  by rewrite Hf, set_freemap_id.
Qed.

Lemma assert_inuse_spec s b : vol_ok s → used s b → assert_inuse b s = Ok (tt, s).
Proof. intros Hv Hu. unfold assert_inuse. by rewrite (bind_ok _ _ _ _ _ (inuse_spec s b Hv Hu)). Qed.

Section sfs.
Context (dev_ret : Z → bool → Z).
Hypothesis Hdev : ∀ b w, dev_ret b w = 0.

Lemma rw_check_spec s b : 0 < b < sb_blocks s → rw_check b s = Ok (tt, s).
Proof.
  intros Hb. unfold rw_check, asserts.
  destruct (Z.eqb_spec b 0); [lia|]. destruct (Z.ltb_spec b (sb_blocks s)); [done|lia].
Qed.

(** The state after block [b] has been taken: [fm] is the new free map. *)
Definition taken (b : Z) (fm : bitmap) (s : sfst) : sfst :=
  set_block b (λ _, 0) (set_unused (sb_unused s - 1) (set_freemap fm s)).

Lemma sfs_block_alloc_spec s old :
  vol_ok s →
  (∃ b fm, sfs_block_alloc dev_ret old s = Ok ((0, b), taken b fm s) ∧ vol_ok (taken b fm s) ∧ unused s b ∧
     ∀ j, is_free fm j = (negb (bool_decide (j = b)) && is_free (freemap s) j)%bool) ∨
  (sfs_block_alloc dev_ret old s = Ok ((- E_NO_MEM, old), s) ∧ count_free (freemap s) = 0).
Proof.
  intros Hv. pose proof Hv as [Hw Hb Hf Hu]. unfold sfs_block_alloc, on_freemap.
  destruct (bitmap_alloc_spec (freemap s) Hw) as [(b & fm & E & Hwf & Hr & Hfb & _ & Hn & Hfm)|[E Hno]];
    rewrite (bind_ok _ _ _ _ _ (zoom_ok freemap set_freemap _ s _ _ E)).
  - left. exists b, fm. pose proof (count_free_take _ _ b Hr Hn Hfb Hfm) as Hcnt.
    pose proof (count_free_range fm ltac:(rewrite Hn; lia)). destruct Hw as [Hnb _ _ _].
    pose proof (Hf b Hr Hfb) as Hbr.
    assert (vol_ok (taken b fm s)) as Hv'.
    { split; cbn; [done|by rewrite Hn| |lia]. intros i Hi. rewrite Hfm, Hn in *. intros [_ Hif]%andb_prop. by apply Hf. }
    assert (used (set_unused (sb_unused s - 1) (set_freemap fm s)) b) as Hub.
    { split; [done|]. cbn. by rewrite Hfm, bool_decide_eq_true_2. }
    rewrite bind_asserts by (cbn; apply Z.ltb_lt; lia). rewrite bind_modify. cbn [sb_unused set_freemap].
    rewrite u32_small by lia. set (s1 := set_unused _ _) in *.
    assert (vol_ok s1) as Hv1 by (destruct Hv'; by split).
    rewrite (bind_ok _ _ _ _ _ (assert_inuse_spec s1 b Hv1 Hub)). unfold clear_block.
    rewrite bind_assoc, (bind_ok _ _ _ _ _ (rw_check_spec s1 b Hbr)). cbn beta. rewrite Hdev. cbn [Z.eqb].
    split; [done|]. split; [done|]. split; [by split|done].
  - right. split; [by rewrite set_freemap_id|]. unfold count_free.
    assert (filter (λ i, is_free (freemap s) i = true) (seqZ 0 (nbits (freemap s))) = []) as ->; [|done].
    destruct (filter _ _) as [|x l] eqn:Ef; [done|]. exfalso.
    assert (x ∈ filter (λ i, is_free (freemap s) i = true) (seqZ 0 (nbits (freemap s)))) as Hx by (rewrite Ef; by left).
    apply list_elem_of_filter in Hx as [H1 H2%elem_of_seqZ]. rewrite Hno in H1 by lia. done.
Qed.

Definition freed (fm : bitmap) (s : sfst) : sfst := set_unused (sb_unused s + 1) (set_freemap fm s).

Lemma sfs_block_free_spec s b :
  vol_ok s → used s b →
  ∃ fm, sfs_block_free b s = Ok (tt, freed fm s) ∧ vol_ok (freed fm s) ∧
    ∀ j, is_free fm j = (bool_decide (j = b) || is_free (freemap s) j)%bool.
Proof.
  intros Hv Hub. pose proof Hub as [Hr Hf]. pose proof Hv as [Hw Hb Hfr Hu]. unfold sfs_block_free.
  rewrite (bind_ok _ _ _ _ _ (assert_inuse_spec s b Hv Hub)).
  destruct (bitmap_free_spec (freemap s) b Hw) as (fm & E & Hwf & Hn & Hfm); [lia|done|].
  exists fm. unfold on_freemap. rewrite (bind_ok _ _ _ _ _ (zoom_ok freemap set_freemap _ s _ _ E)).
  assert (count_free fm = count_free (freemap s) + 1) as Hcnt.
  { apply (count_free_take fm (freemap s) b); [rewrite Hn; lia|done|by rewrite Hfm, bool_decide_eq_true_2|].
    intros j. rewrite Hfm. case_bool_decide; subst; simpl; [by rewrite Hf|done]. }
  pose proof (count_free_range fm ltac:(rewrite Hn; lia)). destruct Hw as [Hnb _ _ _].
  unfold modify, freed. cbn [sb_unused set_freemap]. rewrite u32_small by lia. split; [done|]. split; [|done].
  split; cbn; [done|by rewrite Hn| |lia]. intros i Hi. rewrite Hfm, Hn in *. case_bool_decide; subst; simpl; [done|by apply Hfr].
Qed.

(** ** The block map of a file *)

Definition max_blocks : Z := SFS_NDIRECT + SFS_BLK_NENTRY.

Lemma max_blocks_val : max_blocks = 1036.
Proof. done. Qed.

(** The block of a file with index [i], 0 if there is none. *)
Definition bmap (s : sfst) (n i : Z) : Z :=
  if i <? SFS_NDIRECT then din_direct s n i
  else if din_indirect s n =? 0 then 0 else le32 (disk s (din_indirect s n)) ((i - SFS_NDIRECT) * 4).

Record file_ok (s : sfst) (n : Z) : Prop := FileOk {
  fo_blocks : 0 ≤ din_blocks s n ≤ max_blocks;
  fo_used : ∀ i, 0 ≤ i < din_blocks s n → used s (bmap s n i);
  fo_end : ∀ i, din_blocks s n ≤ i < max_blocks → bmap s n i = 0;
  fo_ind : din_indirect s n ≠ 0 → used s (din_indirect s n);
  fo_inj : ∀ i j, 0 ≤ i < din_blocks s n → 0 ≤ j < din_blocks s n → bmap s n i = bmap s n j → i = j;
  fo_not_ind : ∀ i, 0 ≤ i < din_blocks s n → bmap s n i ≠ din_indirect s n;
}.

Lemma le32_byte32 off v f : 0 ≤ v < 2 ^ 32 → le32 (blit off 0 4 (byte32 v) f) off = v.
Proof.
  intros Hv. unfold le32, blit, byte32.
  repeat match goal with |- context [Z.leb ?a ?b] => destruct (Z.leb_spec a b); [|lia] end.
  repeat match goal with |- context [Z.ltb ?a ?b] => destruct (Z.ltb_spec a b); [|lia] end. cbn [andb].
  replace (0 + (off - off)) with 0 by lia. replace (0 + (off + 1 - off)) with 1 by lia.
  replace (0 + (off + 2 - off)) with 2 by lia. replace (0 + (off + 3 - off)) with 3 by lia.
  change (256 ^ 0) with 1. change (256 ^ 1) with 256. change (256 ^ 2) with 65536. change (256 ^ 3) with 16777216.
  Z.to_euclidean_division_equations. lia.
Qed.

Lemma le32_other off off' from f : off' + 4 ≤ off ∨ off + 4 ≤ off' → le32 (blit off 0 4 from f) off' = le32 f off'.
Proof.
  intros H. unfold le32, blit.
  assert (∀ p, off' ≤ p < off' + 4 → ((off <=? p) && (p <? off + 4))%bool = false) as E.
  { intros p Hp. destruct (Z.leb_spec off p), (Z.ltb_spec p (off + 4)); simpl; lia || done. }
  by rewrite !E by lia.
Qed.

(** [out] of [sfs_bmap_get_nolock] and the rest of [sfs_bmap_load_nolock]. *)
Lemma load_out s s' n i create ino :
  i ≤ din_blocks s n → create = (i =? din_blocks s n) →
  bmap_find dev_ret n i create s = Ok ((0, ino), s') → vol_ok s' → used s' ino →
  sfs_bmap_load_nolock dev_ret n i s =
    Ok ((0, ino), if create then set_din_blocks n (u32 (din_blocks s' n + 1)) s' else s').
Proof.
  intros Hi -> E Hv Hu. pose proof Hu as [Hr _]. unfold sfs_bmap_load_nolock, sfs_bmap_get_nolock.
  rewrite bind_gets, bind_assert by lia. rewrite bind_assoc, (bind_ok _ _ _ _ _ E). cbn [Z.eqb negb].
  destruct (Z.eqb_spec ino 0); [lia|].
  rewrite bind_assoc, (bind_ok _ _ _ _ _ (assert_inuse_spec s' ino Hv Hu)), bind_ret. cbn [Z.eqb negb].
  rewrite (bind_ok _ _ _ _ _ (assert_inuse_spec s' ino Hv Hu)). by destruct (i =? din_blocks s n).
Qed.

Lemma rbuf32_spec s b off :
  0 < b < sb_blocks s → 0 ≤ off → off + 4 ≤ 4096 → rbuf32 dev_ret b off s = Ok ((0, le32 (disk s b) off), s).
Proof.
  intros Hb Ho He. unfold rbuf32, buf_check, SFS_BLKSIZE, PGSIZE.
  rewrite bind_assert by (destruct (Z.leb_spec 0 off), (Z.ltb_spec off 4096), (Z.leb_spec (off + 4) 4096); lia || done).
  rewrite (bind_ok _ _ _ _ _ (rw_check_spec s b Hb)), bind_gets. by rewrite Hdev.
Qed.

Lemma wbuf_from_spec s from buf len b off :
  0 < b < sb_blocks s → 0 ≤ off < 4096 → off + len ≤ 4096 →
  wbuf_from dev_ret from buf len b off s = Ok (0, set_block b (blit off buf len (from s) (disk s b)) s).
Proof.
  intros Hb Ho He. unfold wbuf_from, buf_check, SFS_BLKSIZE, PGSIZE.
  rewrite bind_assert by (destruct (Z.leb_spec 0 off), (Z.ltb_spec off 4096), (Z.leb_spec (off + len) 4096); lia || done).
  rewrite (bind_ok _ _ _ _ _ (rw_check_spec s b Hb)). cbv zeta. rewrite !Hdev. cbn [Z.eqb]. done.
Qed.

Lemma rbuf_spec s buf len b off :
  0 < b < sb_blocks s → 0 ≤ off < 4096 → off + len ≤ 4096 →
  rbuf dev_ret buf len b off s = Ok (0, set_s_mem (blit buf off len (disk s b) (s_mem s)) s).
Proof.
  intros Hb Ho He. unfold rbuf, buf_check, SFS_BLKSIZE, PGSIZE.
  rewrite bind_assert by (destruct (Z.leb_spec 0 off), (Z.ltb_spec off 4096), (Z.leb_spec (off + len) 4096); lia || done).
  rewrite (bind_ok _ _ _ _ _ (rw_check_spec s b Hb)). cbv zeta. by rewrite Hdev.
Qed.

Lemma load_existing s n i :
  vol_ok s → file_ok s n → 0 ≤ i < din_blocks s n → sfs_bmap_load_nolock dev_ret n i s = Ok ((0, bmap s n i), s).
Proof.
  intros Hv [Hb Hu He Hi Hinj Hni] Hr. pose proof (Hu i Hr) as Hui. pose proof Hui as [Hrange _].
  rewrite (load_out s s n i false (bmap s n i)); [done|lia|symmetry; apply Z.eqb_neq; lia| |done|done].
  unfold bmap_find, bmap in *. rewrite max_blocks_val in Hb. destruct (Z.ltb_spec i SFS_NDIRECT) as [Hlt|Hge].
  - by rewrite bind_gets, andb_false_r.
  - change SFS_NDIRECT with 12 in *. change SFS_BLK_NENTRY with 1024.
    destruct (Z.ltb_spec (i - 12) 1024) as [Hlt|]; [|lia].
    destruct (Z.eqb_spec (din_indirect s n) 0) as [Hz|Hz]; [lia|]. destruct (Hi Hz) as [Hir _].
    rewrite bind_gets. unfold sfs_bmap_get_sub_nolock. change SFS_BLK_NENTRY with 1024.
    rewrite bind_assoc, bind_assert by lia. destruct (Z.eqb_spec (din_indirect s n) 0); [lia|]. cbn [negb].
    rewrite bind_assoc, (bind_ok _ _ _ _ _ (rbuf32_spec s _ ((i - 12) * 4) Hir ltac:(lia) ltac:(lia))).
    rewrite orb_true_r. cbn [Z.eqb negb]. rewrite bind_ret. cbn [Z.eqb negb]. by rewrite Z.eqb_refl.
Qed.

(** *** A file gets a block *)

(** [s'] is [s] after block [b] has been appended to the file [n]. *)
Record grown (s s' : sfst) (n b : Z) : Prop := Grown {
  gr_vol : vol_ok s';
  gr_sb : sb_blocks s' = sb_blocks s;
  gr_free : ∀ j, is_free (freemap s') j = true → is_free (freemap s) j = true;
  gr_new : unused s b;
  gr_used : used s' b;
  gr_blocks : din_blocks s' n = din_blocks s n + 1;
  gr_map : ∀ i, 0 ≤ i < max_blocks → bmap s' n i = if decide (i = din_blocks s n) then b else bmap s n i;
  gr_ind : din_indirect s' n = din_indirect s n ∨
    (din_indirect s n = 0 ∧ unused s (din_indirect s' n) ∧ used s' (din_indirect s' n) ∧ din_indirect s' n ≠ b);
  gr_zero : ∀ o, disk s' b o = 0;
  gr_disk : ∀ c, used s c → c ≠ din_indirect s n → disk s' c = disk s c;
  gr_mem : s_mem s' = s_mem s;
  gr_size : din_size s' = din_size s;
  gr_type : din_type s' = din_type s;
  gr_nlinks : din_nlinks s' = din_nlinks s;
  gr_other : ∀ m, m ≠ n → din_blocks s' m = din_blocks s m ∧ din_direct s' m = din_direct s m ∧
    din_indirect s' m = din_indirect s m;
}.

Lemma used_mono s s' c :
  sb_blocks s' = sb_blocks s → (∀ j, is_free (freemap s') j = true → is_free (freemap s) j = true) → used s c → used s' c.
Proof.
  intros Hsb Hf [Hr Hc]. split; [by rewrite Hsb|]. destruct (is_free (freemap s') c) eqn:E; [|done]. by rewrite Hf in Hc.
Qed.

Lemma used_unused_ne s b c : used s b → unused s c → b ≠ c.
Proof. intros [_ H1] [_ H2] ->. congruence. Qed.

Lemma grown_file_ok s s' n b : file_ok s n → din_blocks s n < max_blocks → grown s s' n b → file_ok s' n.
Proof.
  intros [Hb Hu He Hi Hinj Hni] Hlt [Hv Hsb Hf Hnew Hb' HB Hm Hind Hz Hd _ _ _ _ _].
  assert (∀ c, used s c → used s' c) as Hmono by (intros c; by apply used_mono).
  split; rewrite ?HB.
  - lia.
  - intros i Hr. rewrite Hm by lia. case_decide; [done|]. apply Hmono, Hu. lia.
  - intros i Hr. rewrite Hm by lia. rewrite decide_False by lia. apply He. lia.
  - intros Hne. destruct Hind as [Hind|(_ & _ & ? & _)]; [|done]. rewrite Hind in *. by apply Hmono, Hi.
  - intros i j Hri Hrj. rewrite !Hm by lia. repeat case_decide; subst; [done| | |by apply Hinj; lia].
    + intros Hbj. exfalso. by apply (used_unused_ne s (bmap s n j) b); [apply Hu; lia|done|].
    + intros Hbj. exfalso. by apply (used_unused_ne s (bmap s n i) b); [apply Hu; lia|done|].
  - intros i Hr. rewrite Hm by lia. destruct Hind as [->|(H0 & Hun & _ & Hne)].
    + case_decide; [|by apply Hni; lia]. intros Hbi. destruct (decide (din_indirect s n = 0)) as [H0|H0].
      * destruct Hnew as [? _]. lia.
      * by apply (used_unused_ne s (din_indirect s n) b); [apply Hi|done|].
    + case_decide; [done|]. apply (used_unused_ne s); [apply Hu; lia|done].
Qed.

Lemma vol_ok_same s s' :
  freemap s' = freemap s → sb_blocks s' = sb_blocks s → sb_unused s' = sb_unused s → vol_ok s → vol_ok s'.
Proof. intros E1 E2 E3 [H1 H2 H3 H4]. split; by rewrite ?E1, ?E2, ?E3. Qed.

(** The free map after block [b] has been taken. *)
Definition takes (fm fm' : bitmap) (b : Z) : Prop := ∀ j, is_free fm' j = (negb (bool_decide (j = b)) && is_free fm j)%bool.

Lemma takes_mono fm fm' b j : takes fm fm' b → is_free fm' j = true → is_free fm j = true.
Proof. intros H. rewrite H. by intros [_ ?]%andb_prop. Qed.

Lemma takes_used s fm b : unused s b → takes (freemap s) fm b → used (taken b fm s) b.
Proof. intros [Hr _] H. split; [done|]. cbn. by rewrite H, bool_decide_eq_true_2. Qed.

Lemma find_direct s n :
  vol_ok s → file_ok s n → din_blocks s n < SFS_NDIRECT →
  (∃ b fm, let s1 := set_sin_dirty n true (set_din_direct n (din_blocks s n) b (taken b fm s)) in
     bmap_find dev_ret n (din_blocks s n) true s = Ok ((0, b), s1) ∧
     grown s (set_din_blocks n (din_blocks s n + 1) s1) n b) ∨
  (bmap_find dev_ret n (din_blocks s n) true s = Ok ((- E_NO_MEM, 0), s) ∧ count_free (freemap s) = 0).
Proof.
  intros Hv Hf Hlt. pose proof Hf as [Hb Hu He Hi Hinj Hni]. unfold bmap_find. destruct (Z.ltb_spec (din_blocks s n) SFS_NDIRECT); [|lia].
  pose proof max_blocks_val. change SFS_NDIRECT with 12 in *.
  assert (din_direct s n (din_blocks s n) = 0) as Hz.
  { rewrite <-(He (din_blocks s n)) by lia. unfold bmap. change SFS_NDIRECT with 12. destruct (Z.ltb_spec (din_blocks s n) 12); [done|lia]. }
  rewrite bind_gets, Hz. cbn [Z.eqb andb].
  destruct (sfs_block_alloc_spec s 0 Hv) as [(b & fm & E & Hv' & Hun & Hfm)|[E Hc]]; rewrite (bind_ok _ _ _ _ _ E); [left|by right].
  exists b, fm. cbv zeta. split; [done|]. pose proof (takes_used s fm b Hun Hfm) as Hub.
  split; try done.
  - by apply (vol_ok_same (taken b fm s)).
  - intros j. cbn. by apply takes_mono with (b := b).
  - cbn. by rewrite upd_eq.
  - intros i Hr. unfold bmap. change SFS_NDIRECT with 12. cbn [din_direct din_indirect disk set_din_blocks set_sin_dirty set_din_direct taken set_block set_unused set_freemap].
    rewrite upd_eq. destruct (Z.ltb_spec i 12).
    + case_decide; [by subst; rewrite upd_eq|by rewrite upd_ne].
    + rewrite decide_False by lia. destruct (Z.eqb_spec (din_indirect s n) 0) as [|Hnz]; [done|].
      rewrite upd_ne; [done|]. apply not_eq_sym. by apply (used_unused_ne s); [apply Hi|].
  - by left.
  - intros o. cbn. by rewrite upd_eq.
  - intros c Hc _. cbn. rewrite upd_ne; [done|]. apply not_eq_sym. by apply (used_unused_ne s).
  - intros m Hm. cbn. by rewrite !upd_ne.
Qed.

(** A new block behind the entry at [off] of the indirect block [ent]. *)
Definition entered (ent off b : Z) (fm : bitmap) (s : sfst) : sfst :=
  set_block ent (blit off 0 4 (byte32 b) (disk (taken b fm s) ent)) (taken b fm s).

Lemma fill_entry_spec s entp ent off :
  vol_ok s → used s ent → 0 ≤ off → off + 4 ≤ 4096 →
  (∃ b fm, fill_entry dev_ret entp ent off s = Ok ((0, ent, b), entered ent off b fm s) ∧
     vol_ok (entered ent off b fm s) ∧ unused s b ∧ takes (freemap s) fm b) ∨
  (fill_entry dev_ret entp ent off s = free_new_entry entp ent (- E_NO_MEM) s ∧ count_free (freemap s) = 0).
Proof.
  intros Hv Hent Ho He. unfold fill_entry.
  destruct (sfs_block_alloc_spec s 0 Hv) as [(b & fm & E & Hv' & Hun & Hfm)|[E Hc]]; rewrite (bind_ok _ _ _ _ _ E); [left|by right].
  exists b, fm. cbn [Z.eqb negb]. destruct Hent as [Her _]. unfold wbuf32.
  rewrite (bind_ok _ _ _ _ _ (wbuf_from_spec (taken b fm s) _ _ _ ent off Her ltac:(lia) He)). cbn [Z.eqb negb].
  split; [done|]. split; [by apply (vol_ok_same (taken b fm s))|done].
Qed.

(** The entries of an indirect block after one has been stored. *)
Lemma le32_entry f i j b :
  0 ≤ b < 2 ^ 32 → le32 (blit (i * 4) 0 4 (byte32 b) f) (j * 4) = if decide (j = i) then b else le32 f (j * 4).
Proof. intros Hb. case_decide; [subst; by apply le32_byte32|]. apply le32_other. lia. Qed.

Lemma unused_u32 s b : vol_ok s → unused s b → 0 ≤ b < 2 ^ 32.
Proof. intros [[Hn _ _ _] Hb _ _] [Hr _]. lia. Qed.

(** Nothing but the contents of free blocks has changed. *)
Record unchanged (s s' : sfst) : Prop := Unchanged {
  un_vol : vol_ok s';
  un_sb : sb_blocks s' = sb_blocks s;
  un_free : ∀ j, is_free (freemap s') j = is_free (freemap s) j;
  un_unused : sb_unused s' = sb_unused s;
  un_disk : ∀ c, used s c → disk s' c = disk s c;
  un_mem : s_mem s' = s_mem s;
  un_size : din_size s' = din_size s;
  un_type : din_type s' = din_type s;
  un_blocks : din_blocks s' = din_blocks s;
  un_direct : din_direct s' = din_direct s;
  un_indirect : din_indirect s' = din_indirect s;
}.

Lemma unchanged_refl s : vol_ok s → unchanged s s.
Proof. done. Qed.

Lemma find_entry s n :
  vol_ok s → file_ok s n → SFS_NDIRECT ≤ din_blocks s n < max_blocks → din_indirect s n ≠ 0 →
  let off := (din_blocks s n - SFS_NDIRECT) * 4 in
  (∃ b fm, let s1 := entered (din_indirect s n) off b fm s in
     bmap_find dev_ret n (din_blocks s n) true s = Ok ((0, b), s1) ∧
     grown s (set_din_blocks n (din_blocks s n + 1) s1) n b) ∨
  (bmap_find dev_ret n (din_blocks s n) true s = Ok ((- E_NO_MEM, 0), s) ∧ count_free (freemap s) = 0).
Proof.
  intros Hv Hf Hlt Hnz off. pose proof Hf as [Hb Hu He Hi Hinj Hni]. pose proof (Hi Hnz) as Hui. pose proof Hui as [Hir _].
  pose proof max_blocks_val as Hmax. unfold bmap_find. change SFS_NDIRECT with 12 in *. change SFS_BLK_NENTRY with 1024.
  destruct (Z.ltb_spec (din_blocks s n) 12); [lia|]. destruct (Z.ltb_spec (din_blocks s n - 12) 1024); [|lia].
  rewrite bind_gets. unfold sfs_bmap_get_sub_nolock. change SFS_BLK_NENTRY with 1024.
  rewrite bind_assoc, bind_assert by lia. destruct (Z.eqb_spec (din_indirect s n) 0); [lia|]. cbn [negb].
  rewrite bind_assoc, (bind_ok _ _ _ _ _ (rbuf32_spec s _ off Hir ltac:(lia) ltac:(lia))).
  assert (le32 (disk s (din_indirect s n)) off = 0) as Hz.
  { rewrite <-(He (din_blocks s n)) by lia. unfold bmap. change SFS_NDIRECT with 12.
    destruct (Z.ltb_spec (din_blocks s n) 12); [lia|]. by destruct (Z.eqb_spec (din_indirect s n) 0). }
  rewrite Hz. cbn [Z.eqb negb orb]. fold off.
  destruct (fill_entry_spec s (din_indirect s n) (din_indirect s n) off Hv Hui ltac:(lia) ltac:(lia))
    as [(b & fm & E & Hv' & Hun & Hfm)|[E Hc]].
  - left. exists b, fm. cbv zeta. rewrite (bind_ok _ _ _ _ _ E). cbn [Z.eqb negb]. rewrite Z.eqb_refl. cbn [negb].
    split; [done|]. pose proof (used_unused_ne s _ b Hui Hun) as Hne.
    split; try done.
    + by apply (vol_ok_same (entered (din_indirect s n) off b fm s)).
    + intros j. cbn. by apply takes_mono with (b := b).
    + by apply (takes_used s fm b Hun Hfm).
    + cbn. by rewrite upd_eq.
    + intros i Hr. unfold bmap. change SFS_NDIRECT with 12.
      cbn [din_direct din_indirect disk set_din_blocks entered taken set_block set_unused set_freemap].
      rewrite upd_eq, (upd_ne b) by done. destruct (Z.ltb_spec i 12); [by rewrite decide_False by lia|].
      destruct (Z.eqb_spec (din_indirect s n) 0); [done|]. unfold off. rewrite le32_entry by by apply (unused_u32 s).
      by repeat case_decide; subst; try lia.
    + by left.
    + intros o. cbn. by rewrite upd_ne, upd_eq by done.
    + intros c Hc Hci. cbn. rewrite !upd_ne; [done| |congruence]. apply not_eq_sym. by apply (used_unused_ne s).
    + intros m Hm. cbn. by rewrite !upd_ne.
  - right. unfold free_new_entry in E. rewrite Z.eqb_refl in E. cbn [negb] in E. rewrite bind_ret in E.
    by rewrite (bind_ok _ _ _ _ _ E).
Qed.

Lemma find_new_entry s n :
  vol_ok s → file_ok s n → SFS_NDIRECT ≤ din_blocks s n < max_blocks → din_indirect s n = 0 →
  let off := (din_blocks s n - SFS_NDIRECT) * 4 in
  (∃ ent b fm1 fm2,
     let s1 := set_sin_dirty n true (set_din_indirect n ent (entered ent off b fm2 (taken ent fm1 s))) in
     bmap_find dev_ret n (din_blocks s n) true s = Ok ((0, b), s1) ∧
     grown s (set_din_blocks n (din_blocks s n + 1) s1) n b) ∨
  (∃ s', bmap_find dev_ret n (din_blocks s n) true s = Ok ((- E_NO_MEM, 0), s') ∧ unchanged s s' ∧
     count_free (freemap s) ≤ 1).
Proof.
  intros Hv Hf Hlt Hz off. pose proof Hf as [Hb Hu He Hi Hinj Hni].
  pose proof max_blocks_val as Hmax. unfold bmap_find. change SFS_NDIRECT with 12 in *. change SFS_BLK_NENTRY with 1024.
  destruct (Z.ltb_spec (din_blocks s n) 12); [lia|]. destruct (Z.ltb_spec (din_blocks s n - 12) 1024); [|lia].
  rewrite bind_gets, Hz. unfold sfs_bmap_get_sub_nolock. change SFS_BLK_NENTRY with 1024.
  rewrite bind_assoc, bind_assert by lia. cbn [Z.eqb negb].
  destruct (sfs_block_alloc_spec s 0 Hv) as [(ent & fm1 & E1 & Hv1 & Hun1 & Hfm1)|[E1 Hc]];
    rewrite bind_assoc, (bind_ok _ _ _ _ _ E1); cbn [Z.eqb negb]; fold off.
  2: { right. exists s. split; [done|]. split; [done|lia]. }
  pose proof (takes_used s fm1 ent Hun1 Hfm1) as Hu1. set (s1 := taken ent fm1 s) in *.
  destruct (fill_entry_spec s1 0 ent off Hv1 Hu1 ltac:(lia) ltac:(lia)) as [(b & fm2 & E2 & Hv2 & Hun2 & Hfm2)|[E2 Hc]].
  - left. exists ent, b, fm1, fm2. cbv zeta. rewrite (bind_ok _ _ _ _ _ E2). cbn [Z.eqb negb].
    pose proof Hun1 as [Hr1 _]. destruct (Z.eqb_spec ent 0); [lia|]. cbn [negb]. fold s1.
    rewrite bind_assoc, bind_assert by done. split; [done|].
    pose proof (used_unused_ne s1 _ b Hu1 Hun2) as Hne.
    assert (unused s b) as Hun.
    { destruct Hun2 as [? Hb2]. split; [done|]. by apply (takes_mono _ fm1 ent). }
    split; try done.
    + by apply (vol_ok_same (entered ent off b fm2 s1)).
    + intros j Hj. apply (takes_mono _ fm1 ent j Hfm1). by apply (takes_mono _ fm2 b j Hfm2).
    + by apply (takes_used s1 fm2 b Hun2 Hfm2).
    + cbn. by rewrite upd_eq.
    + intros i Hr. unfold bmap. change SFS_NDIRECT with 12. rewrite Hz.
      cbn [din_direct din_indirect disk set_din_blocks set_sin_dirty set_din_indirect entered taken set_block set_unused set_freemap s1].
      rewrite !upd_eq, (upd_ne b), upd_eq by done. destruct (Z.ltb_spec i 12); [by rewrite decide_False by lia|].
      destruct (Z.eqb_spec ent 0); [done|]. unfold off. rewrite le32_entry by by apply (unused_u32 s).
      by repeat case_decide; subst; try lia.
    + right. cbn [din_indirect set_din_blocks set_sin_dirty set_din_indirect]. rewrite upd_eq. split_and!; try done.
      split; [done|]. cbn. rewrite Hfm2. destruct Hu1 as [_ Hu1]. cbn in Hu1 |- *. by rewrite Hu1, andb_false_r.
    + intros o. cbn. by rewrite upd_ne, upd_eq by done.
    + intros c Hc _. pose proof (used_unused_ne s c ent Hc Hun1). pose proof (used_unused_ne s c b Hc Hun).
      cbn. by rewrite !upd_ne by congruence.
    + intros m Hm. cbn. by rewrite !upd_ne.
  - right. unfold free_new_entry in E2. pose proof Hun1 as [Hr1 Hf1]. destruct (Z.eqb_spec ent 0); [lia|]. cbn [negb] in E2.
    destruct (sfs_block_free_spec s1 ent Hv1 Hu1) as (fm2 & E3 & Hv3 & Hfm2). rewrite (bind_ok _ _ _ _ _ E3) in E2.
    rewrite (bind_ok _ _ _ _ _ E2). cbn [Z.eqb negb]. exists (freed fm2 s1). split; [done|].
    pose proof Hv as [_ Hb0 Hfr _].
    assert (∀ j, is_free fm2 j = is_free (freemap s) j) as Hsame.
    { intros j. rewrite Hfm2. cbn. rewrite Hfm1. case_bool_decide; subst; simpl; [by rewrite Hf1|done]. }
    split.
    + split; try done; [cbn; lia|]. intros c Hcu. cbn. rewrite upd_ne; [done|]. apply not_eq_sym. by apply (used_unused_ne s).
    + destruct Hv1 as [_ _ _ Hcnt]. destruct Hv as [_ _ _ Hcnt0]. cbn in Hcnt, Hc. lia.
Qed.

(** [sfs_bmap_load_nolock] at the end of the file: the file gets a fresh block of
    zeros, or the disk is full and nothing changes. *)
Lemma load_new s n :
  vol_ok s → file_ok s n → din_blocks s n < max_blocks →
  (∃ b s', sfs_bmap_load_nolock dev_ret n (din_blocks s n) s = Ok ((0, b), s') ∧ grown s s' n b) ∨
  (∃ s', sfs_bmap_load_nolock dev_ret n (din_blocks s n) s = Ok ((- E_NO_MEM, 0), s') ∧ unchanged s s' ∧
     count_free (freemap s) ≤ 1).
Proof.
  intros Hv Hf Hlt. pose proof Hf as [Hb _ _ _ _ _]. pose proof max_blocks_val.
  assert (∀ b s1, bmap_find dev_ret n (din_blocks s n) true s = Ok ((0, b), s1) → din_blocks s1 n = din_blocks s n →
    grown s (set_din_blocks n (din_blocks s n + 1) s1) n b →
    ∃ b s', sfs_bmap_load_nolock dev_ret n (din_blocks s n) s = Ok ((0, b), s') ∧ grown s s' n b) as Hyes.
  { intros b s1 E HB Hg. exists b, (set_din_blocks n (din_blocks s n + 1) s1). split; [|done].
    destruct Hg as [Hgv _ _ _ Hgu _ _ _ _ _ _ _ _ _ _].
    rewrite (load_out s s1 n _ true b); [by rewrite HB, u32_small by lia|lia|symmetry; apply Z.eqb_refl|done| |done].
    by apply (vol_ok_same (set_din_blocks n (din_blocks s n + 1) s1)). }
  assert (∀ s1, bmap_find dev_ret n (din_blocks s n) true s = Ok ((- E_NO_MEM, 0), s1) →
    sfs_bmap_load_nolock dev_ret n (din_blocks s n) s = Ok ((- E_NO_MEM, 0), s1)) as Hno.
  { intros s1 E. unfold sfs_bmap_load_nolock, sfs_bmap_get_nolock. rewrite bind_gets, bind_assert by lia.
    rewrite Z.eqb_refl, bind_assoc, (bind_ok _ _ _ _ _ E). done. }
  destruct (decide (din_blocks s n < SFS_NDIRECT)) as [Hd|Hd].
  { destruct (find_direct s n Hv Hf Hd) as [(b & fm & E & Hg)|[E Hc]].
    - left. by eapply Hyes.
    - right. exists s. split; [by apply Hno|]. split; [done|lia]. }
  destruct (decide (din_indirect s n = 0)) as [Hz|Hz].
  - destruct (find_new_entry s n Hv Hf ltac:(lia) Hz) as [(ent & b & fm1 & fm2 & E & Hg)|(s' & E & Hu & Hc)].
    + left. by eapply Hyes.
    + right. exists s'. split; [by apply Hno|done].
  - destruct (find_entry s n Hv Hf ltac:(lia) Hz) as [(b & fm & E & Hg)|[E Hc]].
    + left. by eapply Hyes.
    + right. exists s. split; [by apply Hno|]. split; [done|lia].
Qed.

(** ** The contents of a file *)

Definition fbyte (s : sfst) (n p : Z) : Z := disk s (bmap s n (p / 4096)) (p mod 4096).

Lemma bmap_same s s' n i :
  din_direct s' n = din_direct s n → din_indirect s' n = din_indirect s n →
  (din_indirect s n ≠ 0 → disk s' (din_indirect s n) = disk s (din_indirect s n)) → bmap s' n i = bmap s n i.
Proof.
  intros E1 E2 E3. unfold bmap. rewrite E1, E2. destruct (i <? SFS_NDIRECT); [done|].
  destruct (Z.eqb_spec (din_indirect s n) 0); [done|]. by rewrite E3.
Qed.

(** The blocks of a file. *)
Definition owns (s : sfst) (n c : Z) : Prop :=
  (din_indirect s n ≠ 0 ∧ c = din_indirect s n) ∨ (∃ i, 0 ≤ i < din_blocks s n ∧ c = bmap s n i).

Lemma owns_used s n c : file_ok s n → owns s n c → used s c.
Proof. intros Hf [[Hz ->]|(i & Hi & ->)]; [by apply (fo_ind _ _ Hf)|by apply (fo_used _ _ Hf)]. Qed.

Lemma file_ok_owned s s' n :
  (∀ i, bmap s' n i = bmap s n i) → din_blocks s' n = din_blocks s n → din_indirect s' n = din_indirect s n →
  (∀ c, owns s n c → used s' c) → file_ok s n → file_ok s' n.
Proof.
  intros Hm HB HI Hu [H1 H2 H3 H4 H5 H6]. split; rewrite ?HB, ?HI.
  - done.
  - intros i Hi. rewrite Hm. apply Hu. right. by exists i.
  - intros i Hi. rewrite Hm. by apply H3.
  - intros Hi. apply Hu. by left.
  - intros i j Hi Hj. rewrite !Hm. by apply H5.
  - intros i Hi. rewrite Hm. by apply H6.
Qed.

Lemma file_ok_same s s' n :
  (∀ i, bmap s' n i = bmap s n i) → din_blocks s' n = din_blocks s n → din_indirect s' n = din_indirect s n →
  (∀ c, used s c → used s' c) → file_ok s n → file_ok s' n.
Proof. intros Hm HB HI Hu Hf. apply (file_ok_owned s); try done. intros c Hc. by apply Hu, (owns_used s n). Qed.

Lemma unchanged_bmap s s' n i : file_ok s n → unchanged s s' → bmap s' n i = bmap s n i.
Proof. intros Hf [_ _ _ _ Hd _ _ _ _ E1 E2]. apply bmap_same; rewrite ?E1, ?E2; [done|done|]. intros. by apply Hd, (fo_ind _ _ Hf). Qed.

Lemma unchanged_used s s' c : unchanged s s' → used s c → used s' c.
Proof. intros [_ Hsb Hf _ _ _ _ _ _ _ _]. unfold used. by rewrite Hsb, Hf. Qed.

Lemma unchanged_file_ok s s' n : file_ok s n → unchanged s s' → file_ok s' n.
Proof.
  intros Hf Hu. apply (file_ok_same s); [by intros; apply unchanged_bmap| | | |done].
  - by rewrite (un_blocks _ _ Hu).
  - by rewrite (un_indirect _ _ Hu).
  - intros c. by apply unchanged_used.
Qed.

(** *** Reading *)

Record read_into (s s' : sfst) (n buf pos len : Z) : Prop := ReadInto {
  ri_state : s' = set_s_mem (s_mem s') s;
  ri_mem : ∀ p, s_mem s' p = if decide (buf ≤ p < buf + len) then fbyte s n (pos + (p - buf)) else s_mem s p;
}.

Lemma read_into_trans s s1 s2 n buf pos l1 l2 :
  0 ≤ l1 → 0 ≤ l2 → read_into s s1 n buf pos l1 → read_into s1 s2 n (buf + l1) (pos + l1) l2 →
  read_into s s2 n buf pos (l1 + l2).
Proof.
  intros H1 H2 [E1 M1] [E2 M2]. split; [by rewrite E2, E1 at 1|]. intros p. rewrite M2, M1.
  assert (∀ q, fbyte s1 n q = fbyte s n q) as Hb by (intros q; by rewrite E1).
  rewrite Hb. repeat case_decide; try lia; try done. f_equal. lia.
Qed.

Lemma blit_range dst src len from to p :
  blit dst src len from to p = if decide (dst ≤ p < dst + len) then from (src + (p - dst)) else to p.
Proof. unfold blit. destruct (Z.leb_spec dst p), (Z.ltb_spec p (dst + len)); simpl; case_decide; lia || done. Qed.

(** Positions within one block. *)
Lemma same_block pos len q :
  0 ≤ pos → pos mod 4096 + len ≤ 4096 → pos ≤ q < pos + len → q / 4096 = pos / 4096 ∧ q mod 4096 = pos mod 4096 + (q - pos).
Proof.
  intros Hp Hl Hq. assert (q = 4096 * (pos / 4096) + (pos mod 4096 + (q - pos))) as Eq.
  { pose proof (Z.div_mod pos 4096 ltac:(lia)). lia. }
  pose proof (Z.mod_pos_bound pos 4096 ltac:(lia)).
  split; [symmetry; eapply Z.div_unique_pos; [|exact Eq]; lia|symmetry; eapply Z.mod_unique_pos; [|exact Eq]; lia].
Qed.

Lemma read_block s n buf pos len :
  0 ≤ pos → pos mod 4096 + len ≤ 4096 →
  read_into s (set_s_mem (blit buf (pos mod 4096) len (disk s (bmap s n (pos / 4096))) (s_mem s)) s) n buf pos len.
Proof.
  intros Hp Hl. split; [done|]. intros p. cbn [s_mem set_s_mem]. rewrite blit_range. case_decide as Hq; [|done].
  destruct (same_block pos len (pos + (p - buf))) as [E1 E2]; [done|done|lia|]. unfold fbyte. rewrite E1, E2. f_equal. lia.
Qed.

Lemma read_into_ok s s' n buf pos len : read_into s s' n buf pos len → (vol_ok s → vol_ok s') ∧ (file_ok s n → file_ok s' n).
Proof.
  intros [E _]. rewrite E. split; [by apply vol_ok_same|]. intros Hf. by apply (file_ok_same s).
Qed.

Lemma read_tail s n buf e alen :
  vol_ok s → file_ok s n → 0 ≤ e ≤ 4096 * din_blocks s n →
  ∃ s', io_tail dev_ret n buf (e / 4096) e alen false s = Ok ((0, alen + e mod 4096), s') ∧
    read_into s s' n buf (e - e mod 4096) (e mod 4096).
Proof.
  intros Hv Hf He. unfold io_tail. change SFS_BLKSIZE with 4096.
  pose proof (Z.mod_pos_bound e 4096 ltac:(lia)) as Hm. pose proof (Z.div_mod e 4096 ltac:(lia)) as Hd.
  destruct (Z.eqb_spec (e mod 4096) 0) as [Hz|Hz]; cbn [negb].
  - exists s. rewrite Hz, Z.add_0_r. split; [done|]. split; [by rewrite set_s_mem_id|]. intros p. by rewrite decide_False by lia.
  - assert (0 ≤ e / 4096 < din_blocks s n) as Hi.
    { split; [apply Z.div_pos; lia|lia]. }
    rewrite (bind_ok _ _ _ _ _ (load_existing s n _ Hv Hf Hi)). cbn [Z.eqb negb buf_op].
    pose proof (fo_used _ _ Hf _ Hi) as [Hr _].
    rewrite (bind_ok _ _ _ _ _ (rbuf_spec s buf (e mod 4096) _ 0 Hr ltac:(lia) ltac:(lia))). cbn [Z.eqb negb].
    eexists. split; [done|].
    pose proof (read_block s n buf (e - e mod 4096) (e mod 4096)) as Hb.
    replace ((e - e mod 4096) mod 4096) with 0 in Hb by (replace (e - e mod 4096) with (e / 4096 * 4096) by lia; by rewrite Z.mod_mul).
    replace ((e - e mod 4096) / 4096) with (e / 4096) in Hb by (replace (e - e mod 4096) with (e / 4096 * 4096) by lia; by rewrite Z.div_mul).
    apply Hb; lia.
Qed.

(** One aligned block, or none, and the tail. *)
Lemma read_blocks s n buf pos e alen :
  vol_ok s → file_ok s n → 0 ≤ pos → pos mod 4096 = 0 → pos ≤ e ≤ pos + 4096 → e ≤ 4096 * din_blocks s n →
  ∃ s', io_blocks dev_ret n buf (pos / 4096) (e / 4096 - pos / 4096) e alen false s = Ok ((0, alen + (e - pos)), s') ∧
    read_into s s' n buf pos (e - pos).
Proof.
  intros Hv Hf Hp Ha He Hsz. pose proof (Z.div_mod e 4096 ltac:(lia)). pose proof (Z.mod_pos_bound e 4096 ltac:(lia)).
  pose proof (Z.div_mod pos 4096 ltac:(lia)). unfold io_blocks. change SFS_BLKSIZE with 4096.
  destruct (Z.ltb_spec 0 (e / 4096 - pos / 4096)) as [Hn|Hn].
  - assert (e / 4096 - pos / 4096 = 1 ∧ e mod 4096 = 0) as [En Em] by lia.
    assert (0 ≤ pos / 4096 < din_blocks s n) as Hi by (split; [apply Z.div_pos; lia|lia]).
    rewrite (bind_ok _ _ _ _ _ (load_existing s n _ Hv Hf Hi)), En. cbn [Z.eqb negb].
    pose proof (fo_used _ _ Hf _ Hi) as [Hr _]. unfold block_op. change (Z.to_nat 1) with 1%nat. cbn [rwblock].
    rewrite bind_assoc, (bind_ok _ _ _ _ _ (rw_check_spec s _ Hr)), Hdev. cbn [Z.eqb negb]. rewrite bind_assoc, bind_modify, bind_ret.
    cbn [Z.eqb negb]. rewrite Z.mul_1_l. set (s1 := set_s_mem _ s).
    assert (read_into s s1 n buf pos 4096) as Hri.
    { pose proof (read_block s n buf pos 4096 Hp ltac:(lia)) as Hb. by rewrite Ha in Hb. }
    destruct (read_into_ok _ _ _ _ _ _ Hri) as [Hv1 Hf1].
    rewrite u32_small by (pose proof max_blocks_val; pose proof (fo_blocks _ _ Hf); lia).
    replace (pos / 4096 + 1) with (e / 4096) by lia.
    destruct (read_tail s1 n (buf + 4096) e (alen + 4096) (Hv1 Hv) (Hf1 Hf)) as (s2 & E2 & Hri2); [cbn; lia|].
    exists s2. rewrite E2, Em. split; [do 3 f_equal; lia|]. rewrite Em in Hri2.
    replace (e - pos) with (4096 + 0) by lia. apply (read_into_trans s s1 s2); [lia|lia|done|].
    by replace (pos + 4096) with (e - 0) by lia.
  - assert (e / 4096 = pos / 4096) as Eq by lia. rewrite <-Eq.
    destruct (read_tail s n buf e alen Hv Hf ltac:(lia)) as (s2 & E2 & Hri2). exists s2. rewrite E2.
    replace (e mod 4096) with (e - pos) in * by lia. by replace (e - (e - pos)) with pos in Hri2 by lia.
Qed.

Lemma read_from s n buf pos e :
  vol_ok s → file_ok s n → 0 ≤ pos < e → e ≤ pos + 4096 → e ≤ 4096 * din_blocks s n →
  ∃ s', io_from dev_ret n buf pos (pos / 4096) (e / 4096 - pos / 4096) e false s = Ok ((0, e - pos), s') ∧
    read_into s s' n buf pos (e - pos).
Proof.
  intros Hv Hf Hp He Hsz. pose proof (Z.div_mod e 4096 ltac:(lia)). pose proof (Z.mod_pos_bound e 4096 ltac:(lia)).
  pose proof (Z.div_mod pos 4096 ltac:(lia)). pose proof (Z.mod_pos_bound pos 4096 ltac:(lia)).
  unfold io_from. change SFS_BLKSIZE with 4096. destruct (Z.eqb_spec (pos mod 4096) 0) as [Hz|Hz]; cbn [negb].
  { destruct (read_blocks s n buf pos e 0 Hv Hf) as (s' & E & Hr); [lia..|]. exists s'. by rewrite E. }
  assert (0 ≤ pos / 4096 < din_blocks s n) as Hi by (split; [apply Z.div_pos; lia|lia]).
  rewrite (bind_ok _ _ _ _ _ (load_existing s n _ Hv Hf Hi)). cbn [Z.eqb negb buf_op].
  pose proof (fo_used _ _ Hf _ Hi) as [Hr _].
  destruct (Z.eqb_spec (e / 4096 - pos / 4096) 0) as [Hn|Hn]; cbn [negb].
  - rewrite (bind_ok _ _ _ _ _ (rbuf_spec s buf (e - pos) _ (pos mod 4096) Hr ltac:(lia) ltac:(lia))). cbn [Z.eqb negb].
    eexists. split; [done|]. apply read_block; lia.
  - rewrite (bind_ok _ _ _ _ _ (rbuf_spec s buf (4096 - pos mod 4096) _ (pos mod 4096) Hr ltac:(lia) ltac:(lia))). cbn [Z.eqb negb].
    set (l1 := 4096 - pos mod 4096). set (s1 := set_s_mem _ s).
    assert (read_into s s1 n buf pos l1) as Hri by (apply read_block; unfold l1; lia).
    destruct (read_into_ok _ _ _ _ _ _ Hri) as [Hv1 Hf1].
    assert (pos + l1 = 4096 * (pos / 4096 + 1)) as Ep by (unfold l1; lia).
    assert ((pos + l1) / 4096 = pos / 4096 + 1 ∧ (pos + l1) mod 4096 = 0) as [Ed Em].
    { rewrite Ep, Z.mul_comm. by rewrite Z.div_mul, Z.mod_mul by lia. }
    destruct (read_blocks s1 n (buf + l1) (pos + l1) e l1 (Hv1 Hv) (Hf1 Hf)) as (s2 & E2 & Hri2); [lia|done|lia|cbn; lia|].
    rewrite Ed in E2. replace (e / 4096 - (pos / 4096 + 1)) with (e / 4096 - pos / 4096 - 1) in E2 by lia.
    exists s2. rewrite E2. split; [do 3 f_equal; lia|].
    replace (e - pos) with (l1 + (e - (pos + l1))) by lia. apply (read_into_trans s s1 s2); [lia|lia|done|done].
Qed.

Lemma read_file s n buf off alen :
  vol_ok s → file_ok s n → din_type s n ≠ SFS_TYPE_DIR → 0 ≤ din_size s n ≤ 4096 * din_blocks s n →
  0 ≤ off < SFS_MAX_FILE_SIZE → 0 ≤ alen ≤ 4096 →
  let l := Z.max 0 (Z.min (off + alen) (din_size s n) - off) in
  ∃ s', sfs_io_nolock dev_ret n buf off alen false s = Ok ((0, l), s') ∧ read_into s s' n buf off l.
Proof.
  intros Hv Hf Ht Hsz Ho Ha l. pose proof (fo_blocks _ _ Hf) as Hb. rewrite max_blocks_val in Hb.
  assert (read_into s s n buf off 0) as H0.
  { split; [by rewrite set_s_mem_id|]. intros p. by rewrite decide_False by lia. }
  unfold sfs_io_nolock. change SFS_MAX_FILE_SIZE with 134217728 in *. change SFS_BLKSIZE with 4096.
  rewrite bind_asserts by (destruct (Z.eqb_spec (din_type s n) SFS_TYPE_DIR); done). rewrite s64_small by lia.
  destruct (Z.ltb_spec off 0), (Z.leb_spec 134217728 off), (Z.ltb_spec (off + alen) off); try lia. cbn [orb].
  destruct (Z.eqb_spec off (off + alen)) as [He|He].
  { exists s. replace l with 0 by lia. done. }
  rewrite bind_gets. cbn [negb andb].
  destruct (Z.leb_spec (din_size s n) off) as [Hs|Hs].
  { exists s. replace l with 0 by lia. done. }
  set (e := if _ <? _ then _ else _).
  assert (e = Z.min (off + alen) (din_size s n)) as -> by (unfold e; repeat case_match; lia).
  set (e' := Z.min _ _) in *.
  destruct (read_from s n buf off e' Hv Hf) as (s' & E & Hr); [lia..|].
  rewrite (bind_ok _ _ _ _ _ E). exists s'. replace l with (e' - off) by lia. split; [|done].
  unfold io_out. rewrite bind_gets, u64_small by lia. replace (off + (e' - off)) with e' by lia.
  rewrite (ri_state _ _ _ _ _ _ Hr). cbn [din_size set_s_mem]. destruct (Z.ltb_spec (din_size s n) e'); [lia|done].
Qed.

(** *** Writing *)

(** [s'] is [s] after [len] bytes from [buf] have been stored at [pos] of the file [n],
    whose new blocks come from the free ones. *)
Record wrote (s s' : sfst) (n buf pos len : Z) : Prop := Wrote {
  wr_vol : vol_ok s';
  wr_file : file_ok s' n;
  wr_sb : sb_blocks s' = sb_blocks s;
  wr_free : ∀ j, is_free (freemap s') j = true → is_free (freemap s) j = true;
  wr_mem : s_mem s' = s_mem s;
  wr_size : din_size s' = din_size s;
  wr_type : din_type s' = din_type s;
  wr_blocks : din_blocks s n ≤ din_blocks s' n;
  wr_end : 0 < len → pos + len ≤ 4096 * din_blocks s' n;
  wr_map : ∀ i, 0 ≤ i < din_blocks s n → bmap s' n i = bmap s n i;
  wr_new : ∀ i, din_blocks s n ≤ i < din_blocks s' n → unused s (bmap s' n i);
  wr_ind : din_indirect s' n = din_indirect s n ∨ (din_indirect s n = 0 ∧ unused s (din_indirect s' n));
  wr_byte : ∀ p, 0 ≤ p < 4096 * din_blocks s' n →
    fbyte s' n p = if decide (pos ≤ p < pos + len) then s_mem s (buf + (p - pos))
                   else if decide (p < 4096 * din_blocks s n) then fbyte s n p else 0;
  wr_disk : ∀ c, used s c → c ≠ din_indirect s n → (∀ i, 0 ≤ i < din_blocks s n → bmap s n i ≠ c) → disk s' c = disk s c;
  wr_other : ∀ m, m ≠ n → din_blocks s' m = din_blocks s m ∧ din_direct s' m = din_direct s m ∧
    din_indirect s' m = din_indirect s m;
}.

Lemma wrote_used s s' n buf pos len c : wrote s s' n buf pos len → used s c → used s' c.
Proof. intros [_ _ Hsb Hf _ _ _ _ _ _ _ _ _ _ _]. by apply used_mono. Qed.

Lemma wrote_unused s s' n buf pos len c : wrote s s' n buf pos len → unused s' c → unused s c.
Proof. intros [_ _ Hsb Hf _ _ _ _ _ _ _ _ _ _ _] [Hr Hc]. split; [by rewrite <-Hsb|by apply Hf]. Qed.

Lemma wrote_trans s s1 s2 n buf pos l1 l2 :
  0 ≤ l1 → 0 ≤ l2 → 0 ≤ pos → file_ok s n →
  wrote s s1 n buf pos l1 → wrote s1 s2 n (buf + l1) (pos + l1) l2 → wrote s s2 n buf pos (l1 + l2).
Proof.
  intros H1 H2 Hp Hf W1 W2. pose proof W1 as [Hv1 Hf1 Hsb1 Hfr1 Hm1 Hs1 Ht1 Hb1 He1 Hmap1 Hn1 Hi1 Hby1 Hd1 Ho1].
  pose proof W2 as [Hv2 Hf2 Hsb2 Hfr2 Hm2 Hs2 Ht2 Hb2 He2 Hmap2 Hn2 Hi2 Hby2 Hd2 Ho2].
  pose proof (fo_blocks _ _ Hf) as HB. split; try congruence; try lia.
  - intros j Hj. by apply Hfr1, Hfr2.
  - intros i Hi. rewrite Hmap2, Hmap1 by lia. done.
  - intros i Hi. destruct (decide (i < din_blocks s1 n)).
    + rewrite Hmap2 by lia. apply Hn1. lia.
    + eapply wrote_unused; [exact W1|]. apply Hn2. lia.
  - destruct Hi2 as [->|[Hz Hu]]; [done|]. right. split; [|by eapply wrote_unused].
    destruct Hi1 as [<-|[_ [Hc _]]]; [done|lia].
  - intros p Hr. rewrite Hby2, Hm1 by done. case_decide as Hd.
    { rewrite decide_True by lia. f_equal. lia. }
    destruct (decide (p < 4096 * din_blocks s1 n)) as [Hlt|Hge].
    + rewrite Hby1 by lia. repeat case_decide; lia || done.
    + rewrite !decide_False; [done|lia|]. destruct (decide (l1 = 0)) as [->|]; [lia|]. specialize (He1 ltac:(lia)). lia.
  - intros c Hc Hci Hcb. rewrite Hd2; [by apply Hd1| | |].
    + by eapply wrote_used.
    + destruct Hi1 as [->|[_ Hu]]; [done|]. by apply (used_unused_ne s).
    + intros i Hi. destruct (decide (i < din_blocks s n)); [rewrite Hmap1 by lia; apply Hcb; lia|].
      apply not_eq_sym. apply (used_unused_ne s); [done|]. apply Hn1. lia.
  - intros m Hm. destruct (Ho1 m Hm) as (<- & <- & <-). by apply Ho2.
Qed.

Lemma unchanged_wrote s s' n buf pos :
  file_ok s n → unchanged s s' → wrote s s' n buf pos 0 ∧ din_blocks s' n = din_blocks s n.
Proof.
  intros Hf Hu. pose proof (unchanged_file_ok _ _ _ Hf Hu) as Hf'. pose proof (λ i, unchanged_bmap s s' n i Hf Hu) as Hm.
  destruct Hu as [H1 H2 H3 _ H4 H5 H6 H7 H8 H9 H10]. pose proof (fo_blocks _ _ Hf) as HB.
  split; [|by rewrite H8]. split; try done; rewrite ?H8, ?H9, ?H10; try lia.
  - intros j. by rewrite H3.
  - intros p Hp. rewrite decide_False, decide_True by lia. unfold fbyte. rewrite Hm, H4; [done|].
    apply (fo_used _ _ Hf). split; [apply Z.div_pos; lia|]. apply Z.div_lt_upper_bound; lia.
  - intros c Hc _ _. by apply H4.
  - done.
Qed.

Lemma grown_wrote s s' n b buf pos : file_ok s n → din_blocks s n < max_blocks → grown s s' n b → wrote s s' n buf pos 0.
Proof.
  intros Hf Hlt Hg. pose proof (grown_file_ok _ _ _ _ Hf Hlt Hg) as Hf'.
  destruct Hg as [Hv Hsb Hfr Hnew Hb' HB Hm Hind Hz Hd Hmem Hs Ht _ Ho]. pose proof (fo_blocks _ _ Hf) as Hbl.
  split; try done; try lia.
  - intros i Hi. rewrite Hm by lia. by rewrite decide_False by lia.
  - intros i Hi. rewrite Hm by lia. by rewrite decide_True by lia.
  - destruct Hind as [|(? & ? & _)]; [by left|by right].
  - intros p Hp. rewrite decide_False by lia. rewrite HB in Hp.
    assert (0 ≤ p / 4096 < din_blocks s n + 1) by (split; [apply Z.div_pos; lia|apply Z.div_lt_upper_bound; lia]).
    unfold fbyte. rewrite Hm by lia. pose proof (Z.div_mod p 4096 ltac:(lia)). pose proof (Z.mod_pos_bound p 4096 ltac:(lia)).
    case_decide as Hq; case_decide; try lia; [by rewrite Hz|]. rewrite Hd; [done|apply (fo_used _ _ Hf); lia|].
    apply (fo_not_ind _ _ Hf). lia.
  - intros c Hc Hci _. by apply Hd.
Qed.

(** Bytes stored in one block of the file. *)
Lemma write_block s n buf pos len :
  vol_ok s → file_ok s n → 0 ≤ pos → 0 ≤ len → pos mod 4096 + len ≤ 4096 → pos / 4096 < din_blocks s n →
  let b := bmap s n (pos / 4096) in
  wrote s (set_block b (blit (pos mod 4096) buf len (s_mem s) (disk s b)) s) n buf pos len.
Proof.
  intros Hv Hf Hp Hl Hin Hi b. set (s' := set_block _ _ _). assert (0 ≤ pos / 4096) as Hi0 by (apply Z.div_pos; lia).
  pose proof (fo_not_ind _ _ Hf (pos / 4096) ltac:(lia)) as Hni. fold b in Hni.
  assert (∀ i, bmap s' n i = bmap s n i) as Hm.
  { intros i. apply bmap_same; [done|done|]. intros _. cbn. by rewrite upd_ne by done. }
  pose proof (Z.div_mod pos 4096 ltac:(lia)). pose proof (Z.mod_pos_bound pos 4096 ltac:(lia)).
  split; try done; try lia.
  - by apply (vol_ok_same s).
  - by apply (file_ok_same s).
  - cbn. lia.
  - cbn. lia.
  - by left.
  - intros p Hpr. cbn in Hpr. pose proof (Z.div_mod p 4096 ltac:(lia)). pose proof (Z.mod_pos_bound p 4096 ltac:(lia)).
    change (din_blocks s' n) with (din_blocks s n). rewrite (decide_True (P := p < _)) by lia.
    unfold fbyte. rewrite Hm. cbn [disk s' set_block].
    destruct (decide (p / 4096 = pos / 4096)) as [E|E].
    + rewrite E. fold b. rewrite upd_eq, blit_range. repeat case_decide; try lia; f_equal; lia.
    + rewrite upd_ne by (intros Hc; apply E; symmetry; apply (fo_inj _ _ Hf) in Hc; lia). by rewrite decide_False by lia.
  - intros c Hc _ Hcb. cbn. rewrite upd_ne; [done|]. apply Hcb. lia.
Qed.

Definition cdiv (e : Z) : Z := (e + 4095) / 4096.

(** [sfs_bmap_load_nolock] and the transfer behind it. *)
Lemma write_piece s n buf pos len :
  vol_ok s → file_ok s n → 0 ≤ pos ≤ 4096 * din_blocks s n → 0 < len → pos mod 4096 + len ≤ 4096 → pos / 4096 < max_blocks →
  (∃ b s1, sfs_bmap_load_nolock dev_ret n (pos / 4096) s = Ok ((0, b), s1) ∧ 0 < b < sb_blocks s1 ∧ s_mem s1 = s_mem s ∧
     let s2 := set_block b (blit (pos mod 4096) buf len (s_mem s1) (disk s1 b)) s1 in
     wrote s s2 n buf pos len ∧ din_blocks s2 n = Z.max (din_blocks s n) (cdiv (pos + len))) ∨
  (∃ s1, sfs_bmap_load_nolock dev_ret n (pos / 4096) s = Ok ((- E_NO_MEM, 0), s1) ∧ unchanged s s1 ∧
     count_free (freemap s) ≤ 1).
Proof.
  intros Hv Hf Hp Hl Hin Hi. pose proof (Z.div_mod pos 4096 ltac:(lia)). pose proof (Z.mod_pos_bound pos 4096 ltac:(lia)).
  assert (cdiv (pos + len) = pos / 4096 + 1) as ->.
  { unfold cdiv. symmetry. apply Z.div_unique_pos with (pos mod 4096 + len - 1); lia. }
  destruct (decide (pos / 4096 < din_blocks s n)) as [Hlt|Hge].
  - left. assert (0 ≤ pos / 4096 < din_blocks s n) as Hr by (split; [apply Z.div_pos; lia|done]).
    exists (bmap s n (pos / 4096)), s. rewrite load_existing by done. split; [done|].
    destruct (fo_used _ _ Hf _ Hr) as [Hbr _]. split; [done|]. split; [done|].
    split; [apply write_block; done || lia|]. cbn. lia.
  - assert (pos / 4096 = din_blocks s n) as E by lia. rewrite E.
    destruct (load_new s n Hv Hf ltac:(lia)) as [(b & s1 & El & Hg)|(s1 & El & Hu)]; [left|right; by exists s1].
    exists b, s1. split; [done|]. pose proof (gr_used _ _ _ _ Hg) as [Hbr _]. split; [done|].
    split; [by apply (gr_mem _ _ _ _ Hg)|]. pose proof (grown_wrote _ _ _ _ buf pos Hf ltac:(lia) Hg) as W1.
    pose proof (gr_map _ _ _ _ Hg (din_blocks s n) ltac:(pose proof (fo_blocks _ _ Hf); lia)) as Hb. rewrite decide_True in Hb by done.
    pose proof (gr_blocks _ _ _ _ Hg) as HB. split; [|cbn; lia].
    pose proof (write_block s1 n buf pos len (wr_vol _ _ _ _ _ _ W1) (wr_file _ _ _ _ _ _ W1)) as W2.
    rewrite E, Hb in W2. replace len with (0 + len) by lia. eapply wrote_trans; [lia|lia|lia|done|exact W1|].
    rewrite !Z.add_0_r, Z.add_0_l. apply W2; lia.
Qed.

(** What a transfer of [len] bytes to [pos] of the file reports, [alen] bytes having
    been moved before: all of it, or what went in before the disk was full. *)
Definition io_wrote (s : sfst) (n buf pos len alen : Z) (r : res ((Z * Z) * sfst)) : Prop :=
  ∃ ret l s', r = Ok ((ret, alen + l), s') ∧ wrote s s' n buf pos l ∧ din_blocks s' n = Z.max (din_blocks s n) (cdiv (pos + l)) ∧
    ((ret = 0 ∧ l = len) ∨ (ret = - E_NO_MEM ∧ 0 ≤ l < len ∧ sb_unused s' ≤ 1)).

Lemma cdiv_le e b : e ≤ 4096 * b → cdiv e ≤ b.
Proof. intros H. unfold cdiv. enough ((e + 4095) / 4096 < b + 1) by lia. apply Z.div_lt_upper_bound; lia. Qed.

Lemma io_wrote_none s s' n buf pos len alen :
  file_ok s n → vol_ok s → unchanged s s' → pos ≤ 4096 * din_blocks s n → 0 < len → count_free (freemap s) ≤ 1 →
  io_wrote s n buf pos len alen (Ok ((- E_NO_MEM, alen), s')).
Proof.
  intros Hf Hv Hu Hp Hl Hc. exists (- E_NO_MEM), 0, s'. rewrite !Z.add_0_r. split; [done|].
  destruct (unchanged_wrote s s' n buf pos Hf Hu) as [W ->]. split; [done|].
  pose proof (cdiv_le _ _ Hp). split; [lia|]. right. split; [done|]. split; [lia|].
  rewrite (un_unused _ _ Hu), (vo_unused _ Hv). done.
Qed.

(** Nothing to transfer. *)
Lemma io_wrote_nil s n buf pos alen :
  file_ok s n → vol_ok s → pos ≤ 4096 * din_blocks s n → io_wrote s n buf pos 0 alen (Ok ((0, alen), s)).
Proof.
  intros Hf Hv Hp. exists 0, 0, s. rewrite !Z.add_0_r. split; [done|].
  destruct (unchanged_wrote s s n buf pos Hf (unchanged_refl s Hv)) as [W _]. split; [done|].
  pose proof (cdiv_le _ _ Hp). split; [lia|]. by left.
Qed.

(** A first piece, and the rest. *)
Lemma io_wrote_trans s s1 n buf pos l1 l2 alen r :
  0 ≤ l1 → 0 ≤ pos → file_ok s n → wrote s s1 n buf pos l1 → din_blocks s1 n = Z.max (din_blocks s n) (cdiv (pos + l1)) →
  io_wrote s1 n (buf + l1) (pos + l1) l2 (alen + l1) r → 0 ≤ l2 → io_wrote s n buf pos (l1 + l2) alen r.
Proof.
  intros H1 Hp Hf W1 B1 (ret & l & s2 & -> & W2 & B2 & Hret) H2. exists ret, (l1 + l), s2.
  split; [by rewrite Z.add_assoc|]. split; [apply (wrote_trans s s1 s2); (done || lia)|].
  assert (cdiv (pos + l1) ≤ cdiv (pos + l1 + l)) by (unfold cdiv; apply Z.div_le_mono; lia).
  rewrite Z.add_assoc. split; [lia|]. destruct Hret as [[-> ->]|(-> & Hl & Hu)]; [by left|right]. split_and!; done || lia.
Qed.

Lemma write_tail s n buf e alen :
  vol_ok s → file_ok s n → 0 ≤ e → e - e mod 4096 ≤ 4096 * din_blocks s n → e ≤ 4096 * max_blocks →
  io_wrote s n buf (e - e mod 4096) (e mod 4096) alen (io_tail dev_ret n buf (e / 4096) e alen true s).
Proof.
  intros Hv Hf He Hd Hm. unfold io_tail. change SFS_BLKSIZE with 4096.
  pose proof (Z.div_mod e 4096 ltac:(lia)). pose proof (Z.mod_pos_bound e 4096 ltac:(lia)).
  destruct (Z.eqb_spec (e mod 4096) 0) as [Hz|Hz]; cbn [negb].
  { rewrite Hz. apply io_wrote_nil; done || lia. }
  set (pos := e - e mod 4096) in *. assert (pos mod 4096 = 0 ∧ pos / 4096 = e / 4096) as [Em Ed].
  { replace pos with (e / 4096 * 4096) by lia. by rewrite Z.mod_mul, Z.div_mul. }
  destruct (write_piece s n buf pos (e mod 4096) Hv Hf) as [(b & s1 & E & Hb & Hmem & W & HB)|(s1 & E & Hu & Hc)]; [lia..| |];
    rewrite Ed in E; rewrite (bind_ok _ _ _ _ _ E); cbn [Z.eqb negb buf_op].
  - unfold wbuf. rewrite (bind_ok _ _ _ _ _ (wbuf_from_spec s1 s_mem buf (e mod 4096) b 0 Hb ltac:(lia) ltac:(lia))).
    cbn [Z.eqb negb]. rewrite Em in W, HB. eexists 0, (e mod 4096), _. split; [done|]. split; [exact W|]. split; [done|]. by left.
  - by apply io_wrote_none; try lia.
Qed.

Lemma write_blocks s n buf pos e alen :
  vol_ok s → file_ok s n → 0 ≤ pos ≤ 4096 * din_blocks s n → pos mod 4096 = 0 → pos ≤ e ≤ pos + 4096 → e ≤ 4096 * max_blocks →
  io_wrote s n buf pos (e - pos) alen (io_blocks dev_ret n buf (pos / 4096) (e / 4096 - pos / 4096) e alen true s).
Proof.
  intros Hv Hf Hp Ha He Hm. pose proof (Z.div_mod e 4096 ltac:(lia)). pose proof (Z.mod_pos_bound e 4096 ltac:(lia)).
  pose proof (Z.div_mod pos 4096 ltac:(lia)). unfold io_blocks. change SFS_BLKSIZE with 4096.
  destruct (Z.ltb_spec 0 (e / 4096 - pos / 4096)) as [Hn|Hn].
  - assert (e / 4096 - pos / 4096 = 1 ∧ e mod 4096 = 0) as [En Em] by lia. rewrite En.
    destruct (write_piece s n buf pos 4096 Hv Hf) as [(b & s1 & E & Hb & Hmem & W & HB)|(s1 & E & Hu & Hc)]; [lia..| |];
      rewrite (bind_ok _ _ _ _ _ E); cbn [Z.eqb negb].
    + unfold block_op. change (Z.to_nat 1) with 1%nat. cbn [rwblock].
      rewrite bind_assoc, (bind_ok _ _ _ _ _ (rw_check_spec s1 _ Hb)), Hdev. cbn [Z.eqb negb]. rewrite bind_assoc, bind_modify, bind_ret.
      cbn [Z.eqb negb]. rewrite Z.mul_1_l. change SFS_BLKSIZE with 4096. rewrite Ha in W, HB. set (s2 := set_block _ _ s1) in *.
      rewrite u32_small by (pose proof max_blocks_val; pose proof (fo_blocks _ _ Hf); lia).
      replace (pos / 4096 + 1) with (e / 4096) by lia. replace (e - pos) with (4096 + 0) by lia.
      eapply io_wrote_trans; [lia|lia|done|exact W|exact HB| |lia].
      pose proof (write_tail s2 n (buf + 4096) e (alen + 4096) (wr_vol _ _ _ _ _ _ W) (wr_file _ _ _ _ _ _ W)) as T.
      rewrite Em, Z.sub_0_r in T. replace (pos + 4096) with e by lia. apply T; [lia| |done].
      pose proof (wr_end _ _ _ _ _ _ W ltac:(lia)). lia.
    + apply io_wrote_none; done || lia.
  - assert (e / 4096 = pos / 4096) as Eq by lia. rewrite <-Eq.
    pose proof (write_tail s n buf e alen Hv Hf ltac:(lia) ltac:(lia) Hm) as T.
    replace (e mod 4096) with (e - pos) in T by lia. by replace (e - (e - pos)) with pos in T by lia.
Qed.

Lemma write_from s n buf pos e :
  vol_ok s → file_ok s n → 0 ≤ pos ≤ 4096 * din_blocks s n → pos < e ≤ pos + 4096 → e ≤ 4096 * max_blocks →
  io_wrote s n buf pos (e - pos) 0 (io_from dev_ret n buf pos (pos / 4096) (e / 4096 - pos / 4096) e true s).
Proof.
  intros Hv Hf Hp He Hm. pose proof (Z.div_mod e 4096 ltac:(lia)). pose proof (Z.mod_pos_bound e 4096 ltac:(lia)).
  pose proof (Z.div_mod pos 4096 ltac:(lia)). pose proof (Z.mod_pos_bound pos 4096 ltac:(lia)).
  unfold io_from. change SFS_BLKSIZE with 4096. destruct (Z.eqb_spec (pos mod 4096) 0) as [Hz|Hz]; cbn [negb].
  { apply write_blocks; done || lia. }
  set (l1 := if negb _ then _ else _).
  assert (0 < l1 ≤ e - pos ∧ pos mod 4096 + l1 ≤ 4096) as [Hl1 Hin].
  { unfold l1. destruct (Z.eqb_spec (e / 4096 - pos / 4096) 0); cbn [negb]; lia. }
  destruct (write_piece s n buf pos l1 Hv Hf) as [(b & s1 & E & Hb & Hmem & W & HB)|(s1 & E & Hu & Hc)]; [lia..| |];
    rewrite (bind_ok _ _ _ _ _ E); cbn [Z.eqb negb].
  2: { apply (io_wrote_none s s1 n buf pos (e - pos) 0); done || lia. }
  unfold buf_op, wbuf. rewrite (bind_ok _ _ _ _ _ (wbuf_from_spec s1 s_mem buf l1 b (pos mod 4096) Hb ltac:(lia) Hin)). cbn [Z.eqb negb].
  set (s2 := set_block _ _ s1) in *.
  destruct (Z.eqb_spec (e / 4096 - pos / 4096) 0) as [Hn|Hn]; cbn [negb].
  - assert (l1 = e - pos) as E1 by done. rewrite E1 in *. eexists 0, (e - pos), s2. split; [done|]. split; [done|]. split; [done|by left].
  - assert (l1 = 4096 - pos mod 4096) as E1 by done. assert (pos + l1 = 4096 * (pos / 4096 + 1)) as Ep by lia.
    assert ((pos + l1) / 4096 = pos / 4096 + 1 ∧ (pos + l1) mod 4096 = 0) as [Ed Em].
    { rewrite Ep, Z.mul_comm. by rewrite Z.div_mul, Z.mod_mul by lia. }
    replace (e - pos) with (l1 + (e - (pos + l1))) by lia.
    eapply io_wrote_trans; [lia|lia|done|exact W|exact HB| |lia]. rewrite <-Ed.
    replace (e / 4096 - pos / 4096 - 1) with (e / 4096 - (pos + l1) / 4096) by lia.
    apply write_blocks; [apply W|apply W| |done|lia|done]. pose proof (wr_end _ _ _ _ _ _ W ltac:(lia)). lia.
Qed.

(** ** A volume of files *)

(** The files [F] of a volume: each has the blocks its size needs, and no block of
    another file. *)
Record volume (F : Z → Prop) (s : sfst) : Prop := Volume {
  vl_vol : vol_ok s;
  vl_file : ∀ n, F n → file_ok s n;
  vl_size : ∀ n, F n → 0 ≤ din_size s n ∧ din_blocks s n = cdiv (din_size s n);
  vl_apart : ∀ m n c, F m → F n → m ≠ n → owns s m c → ¬ owns s n c;
}.

Definition contents (s : sfst) (n : Z) : list Z := fbyte s n <$> seqZ 0 (din_size s n).
Definition membytes (m : mem) (buf len : Z) : list Z := m <$> seqZ buf len.

(** [new] over [old] from [pos] on. *)
Definition splice (pos : Z) (new old : list Z) : list Z :=
  take (Z.to_nat pos) old ++ new ++ drop (Z.to_nat pos + length new) old.

Lemma fbyte_owned s n p : 0 ≤ p < 4096 * din_blocks s n → owns s n (bmap s n (p / 4096)).
Proof. intros Hp. right. exists (p / 4096). split; [|done]. split; [apply Z.div_pos; lia|apply Z.div_lt_upper_bound; lia]. Qed.

Lemma lookup_contents s n (i : nat) : contents s n !! i = if decide (Z.of_nat i < din_size s n) then Some (fbyte s n (Z.of_nat i)) else None.
Proof.
  unfold contents. rewrite list_lookup_fmap. case_decide.
  - by rewrite lookup_seqZ_lt by lia.
  - by rewrite lookup_seqZ_ge by lia.
Qed.

Lemma contents_length s n : length (contents s n) = Z.to_nat (din_size s n).
Proof. unfold contents. by rewrite length_fmap, length_seqZ. Qed.

(** The file [m] keeps its blocks and their contents. *)
Record framed (s s' : sfst) (m : Z) : Prop := Framed {
  fr_file : file_ok s' m;
  fr_blocks : din_blocks s' m = din_blocks s m;
  fr_owns : ∀ c, owns s' m c ↔ owns s m c;
  fr_byte : ∀ p, 0 ≤ p < 4096 * din_blocks s m → fbyte s' m p = fbyte s m p;
}.

Lemma file_frame s s' m :
  file_ok s m → (∀ c, owns s m c → used s' c) → din_blocks s' m = din_blocks s m → din_direct s' m = din_direct s m →
  din_indirect s' m = din_indirect s m → (∀ c, owns s m c → disk s' c = disk s c) → framed s s' m.
Proof.
  intros Hf Hu E1 E2 E3 Hd.
  assert (∀ i, bmap s' m i = bmap s m i) as Hm.
  { intros i. apply bmap_same; [done|done|]. intros Hz. apply Hd. by left. }
  split; [by apply (file_ok_owned s)|done| |].
  - intros c. unfold owns. rewrite E1, E3. by setoid_rewrite Hm.
  - intros p Hp. unfold fbyte. rewrite Hm, Hd; [done|]. by apply fbyte_owned.
Qed.

(** Blocks, free map and block maps agree. *)
Record same_blocks (s s' : sfst) : Prop := SameBlocks {
  sm_disk : disk s' = disk s;
  sm_sb : sb_blocks s' = sb_blocks s;
  sm_unused : sb_unused s' = sb_unused s;
  sm_free : freemap s' = freemap s;
  sm_blocks : din_blocks s' = din_blocks s;
  sm_direct : din_direct s' = din_direct s;
  sm_indirect : din_indirect s' = din_indirect s;
}.

Lemma same_blocks_file s s' :
  same_blocks s s' → (vol_ok s → vol_ok s') ∧ (∀ n, file_ok s n → file_ok s' n) ∧ (∀ n i, bmap s' n i = bmap s n i) ∧
    (∀ n p, fbyte s' n p = fbyte s n p) ∧ (∀ n c, owns s' n c ↔ owns s n c).
Proof.
  intros [H1 H2 H3 H4 H5 H6 H7].
  assert (∀ n i, bmap s' n i = bmap s n i) as Hm by (intros; unfold bmap; by rewrite H1, H6, H7).
  split; [by apply vol_ok_same|]. split; [|split; [done|split]].
  - intros n. apply file_ok_same; [by intros|by rewrite H5|by rewrite H7|]. intros c. unfold used. by rewrite H2, H4.
  - intros n p. unfold fbyte. by rewrite Hm, H1.
  - intros n c. unfold owns. rewrite H5, H7. by setoid_rewrite Hm.
Qed.

Lemma wrote_owns s s' n buf pos len c : wrote s s' n buf pos len → owns s' n c → owns s n c ∨ unused s c.
Proof.
  intros W [[Hz ->]|(i & Hi & ->)].
  - destruct (wr_ind _ _ _ _ _ _ W) as [E|[_ Hu]]; [rewrite E in *; left; by left|by right].
  - destruct (decide (i < din_blocks s n)).
    + left. right. exists i. split; [lia|]. apply (wr_map _ _ _ _ _ _ W). lia.
    + right. apply (wr_new _ _ _ _ _ _ W). lia.
Qed.

Lemma wrote_frame s s' n m buf pos len :
  wrote s s' n buf pos len → m ≠ n → file_ok s m → (∀ c, owns s m c → ¬ owns s n c) →
  framed s s' m.
Proof.
  intros W Hmn Hf Hap. destruct (wr_other _ _ _ _ _ _ W m Hmn) as (E1 & E2 & E3).
  apply file_frame; [done| |done|done|done|].
  - intros c Hc. apply (wrote_used _ _ _ _ _ _ _ W). by apply (owns_used s m).
  - intros c Hc. pose proof (owns_used _ _ _ Hf Hc) as Hu. apply (wr_disk _ _ _ _ _ _ W); [done| |].
    + intros ->. apply (Hap _ Hc). left. split; [|done]. destruct Hu as [? _]. lia.
    + intros i Hi <-. apply (Hap _ Hc). right. by exists i.
Qed.

Lemma cdiv_ge e : e ≤ 4096 * cdiv e.
Proof. unfold cdiv. pose proof (Z.div_mod (e + 4095) 4096 ltac:(lia)). pose proof (Z.mod_pos_bound (e + 4095) 4096 ltac:(lia)). lia. Qed.

Lemma cdiv_mono e e' : e ≤ e' → cdiv e ≤ cdiv e'.
Proof. intros. unfold cdiv. apply Z.div_le_mono; lia. Qed.

Lemma splice_contents s s' n buf off l :
  0 ≤ off ≤ din_size s n → 0 ≤ l → din_size s' n = Z.max (din_size s n) (off + l) →
  (∀ p, 0 ≤ p < Z.max (din_size s n) (off + l) →
     fbyte s' n p = if decide (off ≤ p < off + l) then s_mem s (buf + (p - off)) else fbyte s n p) →
  contents s' n = splice off (membytes (s_mem s) buf l) (contents s n).
Proof.
  intros Ho Hl Hsz Hb. unfold splice. set (new := membytes _ _ _).
  assert (length new = Z.to_nat l) as Hn by (unfold new, membytes; by rewrite length_fmap, length_seqZ).
  apply list_eq. intros i. rewrite lookup_contents, Hsz. pose proof (contents_length s n) as Hc.
  destruct (decide (Z.of_nat i < off)).
  { rewrite lookup_app_l, lookup_take_lt, lookup_contents by (rewrite ?length_take; lia).
    rewrite !decide_True by lia. rewrite Hb by lia. by rewrite decide_False by lia. }
  rewrite lookup_app_r by (rewrite length_take; lia). rewrite length_take, Hc.
  replace (i - Z.to_nat off `min` Z.to_nat (din_size s n))%nat with (i - Z.to_nat off)%nat by lia.
  destruct (decide (Z.of_nat i < off + l)).
  - rewrite lookup_app_l by lia. unfold new, membytes. rewrite list_lookup_fmap, lookup_seqZ_lt by lia.
    rewrite decide_True, Hb, decide_True by lia. simpl. do 2 f_equal. lia.
  - rewrite lookup_app_r by lia. rewrite lookup_drop, lookup_contents.
    replace (Z.to_nat off + length new + (i - Z.to_nat off - length new))%nat with i by lia.
    case_decide; [|by rewrite decide_False by lia]. rewrite decide_True, Hb, decide_False by lia. done.
Qed.

Lemma framed_same s s1 s' m : framed s s1 m → same_blocks s1 s' → framed s s' m.
Proof.
  intros [H1 H2 H3 H4] Hsm. destruct (same_blocks_file _ _ Hsm) as (_ & Hf' & _ & Hb' & Ho').
  split; [by apply Hf'|by rewrite (sm_blocks _ _ Hsm)| |].
  - intros c. by rewrite Ho'.
  - intros p Hp. rewrite Hb'. by apply H4.
Qed.

Lemma framed_contents F s s' m :
  volume F s → F m → framed s s' m → din_size s' m = din_size s m → contents s' m = contents s m.
Proof.
  intros [_ _ Hs _] Hm [_ _ _ Hb] Hsz. unfold contents. rewrite Hsz. apply list_fmap_ext. intros i x Hx.
  apply lookup_seqZ in Hx as [-> Hi]. apply Hb. destruct (Hs m Hm) as [? ->]. pose proof (cdiv_ge (din_size s m)). lia.
Qed.

(** The files of the volume when one of them has changed: the others, and all of
    them. *)
Lemma volume_others F s s' n :
  volume F s → vol_ok s' → (∀ m, F m → m ≠ n → framed s s' m ∧ din_size s' m = din_size s m) →
  volume (λ m, F m ∧ m ≠ n) s'.
Proof.
  intros [Hv Hf Hs Ha] Hv' Hfr. split; [done| | |].
  - intros m [Hm Hne]. by apply Hfr.
  - intros m [Hm Hne]. destruct (Hfr m Hm Hne) as [Hm' ->]. rewrite (fr_blocks _ _ _ Hm'). by apply Hs.
  - intros m m' c [Hm Hne] [Hm' Hne'] Hd. rewrite (fr_owns _ _ _ (proj1 (Hfr m Hm Hne))), (fr_owns _ _ _ (proj1 (Hfr m' Hm' Hne'))).
    by apply Ha.
Qed.

Lemma volume_all F s s' n :
  volume F s → F n → vol_ok s' → (∀ m, F m → m ≠ n → framed s s' m ∧ din_size s' m = din_size s m) →
  file_ok s' n → 0 ≤ din_size s' n → din_blocks s' n = cdiv (din_size s' n) →
  (∀ c, owns s' n c → owns s n c ∨ unused s c) → volume F s'.
Proof.
  intros Hvl HF Hv' Hfr Hf' Hs0 Hs' Ho. destruct (volume_others _ _ _ n Hvl Hv' Hfr) as [_ Gf Gs Ga].
  destruct Hvl as [Hv Hf Hs Ha].
  assert (∀ m c, F m → m ≠ n → owns s' m c → ¬ owns s' n c) as Hx.
  { intros m c Hm Hmn Hc Hcn. rewrite (fr_owns _ _ _ (proj1 (Hfr m Hm Hmn))) in Hc.
    destruct (Ho c Hcn) as [Hcn'|Hu]; [by apply (Ha m n c)|].
    apply (used_unused_ne s c c); [|done|done]. apply (owns_used s m); [by apply Hf|done]. }
  split; [done| | |].
  - intros m Hm. destruct (decide (m = n)) as [->|]; [done|by apply Gf].
  - intros m Hm. destruct (decide (m = n)) as [->|]; [done|by apply Gs].
  - intros m m' c Hm Hm' Hne Hc Hc'. destruct (decide (m = n)) as [->|]; [by apply (Hx m' c)|].
    destruct (decide (m' = n)) as [->|]; [by apply (Hx m c)|by apply (Ga m m' c)].
Qed.

Lemma wrote_contents F s s1 s' n buf off l :
  volume F s → F n → 0 ≤ off ≤ din_size s n → 0 ≤ l → wrote s s1 n buf off l →
  din_blocks s1 n = Z.max (din_blocks s n) (cdiv (off + l)) → same_blocks s1 s' →
  (∀ m, din_size s' m = if decide (m = n) then Z.max (din_size s n) (off + l) else din_size s m) →
  volume F s' ∧ contents s' n = splice off (membytes (s_mem s) buf l) (contents s n) ∧
  ∀ m, F m → m ≠ n → contents s' m = contents s m.
Proof.
  intros Hvl HF Ho Hl W HB Hsm Hsz. destruct (same_blocks_file _ _ Hsm) as (Hv' & Hf' & Hm' & Hb' & Ho').
  pose proof (Hsz n) as Hsn. rewrite decide_True in Hsn by done.
  assert (∀ m, F m → m ≠ n → framed s s' m ∧ din_size s' m = din_size s m) as Hfr.
  { intros m Hm Hmn. split; [|by rewrite Hsz, decide_False]. eapply framed_same; [|done].
    eapply wrote_frame; [done|done|by apply (vl_file _ _ Hvl)|]. intros c. by apply (vl_apart _ _ Hvl). }
  destruct (vl_size _ _ Hvl n HF) as [Hs0 HsB]. pose proof (cdiv_ge (din_size s n)) as Hge. pose proof (cdiv_ge (off + l)) as Hge2.
  split; [|split].
  - apply (volume_all F s s' n); try done; [by apply Hv', W|by apply Hf', W|lia| |].
    + rewrite (sm_blocks _ _ Hsm), Hsn, HB, HsB. destruct (Z.max_spec (din_size s n) (off + l)) as [[? ->]|[? ->]].
      * pose proof (cdiv_mono (din_size s n) (off + l)). lia.
      * pose proof (cdiv_mono (off + l) (din_size s n)). lia.
    + intros c. rewrite Ho'. by apply (wrote_owns _ _ _ _ _ _ _ W).
  - apply splice_contents; [done|done|done|]. intros p Hp. rewrite Hb'.
    rewrite (wr_byte _ _ _ _ _ _ W) by lia. case_decide; [done|]. by rewrite decide_True by lia.
  - intros m Hm Hmn. destruct (Hfr m Hm Hmn). by eapply framed_contents.
Qed.

Lemma volume_max F s n : volume F s → F n → 0 ≤ din_size s n ≤ 4096 * din_blocks s n ∧ din_blocks s n ≤ max_blocks.
Proof.
  intros [_ Hf Hs _] HF. destruct (Hs n HF) as [? ->]. pose proof (cdiv_ge (din_size s n)).
  pose proof (fo_blocks _ _ (Hf n HF)) as Hb. rewrite (proj2 (Hs n HF)) in Hb. lia.
Qed.

(** A write to a file of the volume, as [wrote_contents] needs it. *)
Lemma write_file s n buf off alen :
  vol_ok s → file_ok s n → din_type s n ≠ SFS_TYPE_DIR → 0 ≤ din_size s n ≤ 4096 * din_blocks s n →
  0 ≤ off ≤ din_size s n → 0 < alen ≤ 4096 → off + alen ≤ 4096 * max_blocks →
  ∃ ret l s1 s', sfs_io_nolock dev_ret n buf off alen true s = Ok ((ret, l), s') ∧
    wrote s s1 n buf off l ∧ din_blocks s1 n = Z.max (din_blocks s n) (cdiv (off + l)) ∧ 0 ≤ l ∧
    same_blocks s1 s' ∧ s_mem s' = s_mem s ∧ din_type s' = din_type s ∧
    (∀ m, din_size s' m = if decide (m = n) then Z.max (din_size s n) (off + l) else din_size s m) ∧
    ((ret = 0 ∧ l = alen) ∨ (ret = - E_NO_MEM ∧ l < alen ∧ sb_unused s' ≤ 1)).
Proof.
  intros Hv Hf Ht Hsz Ho Ha Hm. pose proof (fo_blocks _ _ Hf) as Hb. rewrite max_blocks_val in *.
  unfold sfs_io_nolock. change SFS_MAX_FILE_SIZE with 134217728 in *. change SFS_BLKSIZE with 4096.
  rewrite bind_asserts by (destruct (Z.eqb_spec (din_type s n) SFS_TYPE_DIR); done). rewrite s64_small by lia.
  destruct (Z.ltb_spec off 0), (Z.leb_spec 134217728 off), (Z.ltb_spec (off + alen) off); try lia. cbn [orb].
  destruct (Z.eqb_spec off (off + alen)) as [He|He]; [lia|]. rewrite bind_gets. cbn [negb andb].
  destruct (Z.ltb_spec 134217728 (off + alen)); [lia|].
  destruct (write_from s n buf off (off + alen) Hv Hf) as (ret & l & s1 & E & W & HB & Hret);
    [lia|lia|by rewrite max_blocks_val|].
  rewrite (bind_ok _ _ _ _ _ E). assert (0 ≤ l ≤ alen) as Hl by (destruct Hret as [[? ->]|(? & ? & ?)]; lia).
  unfold io_out. rewrite bind_gets, Z.add_0_l, !u64_small by lia. pose proof (wr_size _ _ _ _ _ _ W) as Es.
  rewrite Es. replace (off + alen - off) with alen in Hret by lia.
  assert (∀ s', sb_unused s' = sb_unused s1 → (ret = 0 ∧ l = alen) ∨ (ret = - E_NO_MEM ∧ l < alen ∧ sb_unused s' ≤ 1)) as Hfin.
  { intros s' ->. destruct Hret as [?|(? & ? & ?)]; [by left|right; split_and!; done || lia]. }
  assert (same_blocks s1 s1) as Hself by done.
  destruct (Z.ltb_spec (din_size s n) (off + l)) as [Hlt|Hge].
  - rewrite bind_assoc, bind_modify, bind_modify, u32_small by lia. eexists ret, l, s1, _. split; [done|].
    split_and!; try done; try lia; try apply W; [|by apply Hfin]. intros m. cbn. unfold upd.
    rewrite Es. repeat case_decide; subst; try done. lia.
  - exists ret, l, s1, s1. split; [done|]. split_and!; try done; try lia; try apply W.
    intros m. rewrite Es. case_decide; [subst; lia|done].
Qed.

Lemma io_nothing s n buf off w :
  din_type s n ≠ SFS_TYPE_DIR → 0 ≤ off ≤ 4096 * 1036 → sfs_io_nolock dev_ret n buf off 0 w s = Ok ((0, 0), s).
Proof.
  intros Ht Ho. unfold sfs_io_nolock. change SFS_MAX_FILE_SIZE with 134217728.
  rewrite bind_asserts by (destruct (Z.eqb_spec (din_type s n) SFS_TYPE_DIR); done). rewrite s64_small by lia.
  rewrite Z.add_0_r, Z.eqb_refl. destruct (Z.ltb_spec off 0), (Z.leb_spec 134217728 off), (Z.ltb_spec off off); lia || done.
Qed.


Lemma membytes_length m buf len : length (membytes m buf len) = Z.to_nat len.
Proof. unfold membytes. by rewrite length_fmap, length_seqZ. Qed.

Lemma read_into_bytes s s' n buf off l :
  0 ≤ off → 0 ≤ l → off + l ≤ din_size s n → read_into s s' n buf off l →
  membytes (s_mem s') buf l = take (Z.to_nat l) (drop (Z.to_nat off) (contents s n)).
Proof.
  intros Ho Hl Hsz [_ Hr]. apply list_eq. intros i. unfold membytes. rewrite list_lookup_fmap.
  destruct (decide (Z.of_nat i < l)).
  - rewrite lookup_seqZ_lt, lookup_take_lt, lookup_drop, lookup_contents by lia. rewrite decide_True by lia. simpl.
    rewrite Hr, decide_True by lia. do 2 f_equal. lia.
  - rewrite lookup_seqZ_ge, lookup_take_ge by lia. done.
Qed.

(** C32. [sfs_io_nolock] with a length [alen] of at most 4096, which is what [sysfile_read] asks
    for at a time, reads the bytes of the file from [off] on that the file has, at most
    [alen], into the buffer, and changes nothing else.  (Longer reads go through the loop
    over whole blocks, which looks up the first block only.)  The offset is below the largest file size. *)
Theorem sfs_read_refines F s n buf off alen :
  volume F s → F n → din_type s n ≠ SFS_TYPE_DIR → 0 ≤ off < SFS_MAX_FILE_SIZE → 0 ≤ alen ≤ 4096 →
  let bytes := take (Z.to_nat alen) (drop (Z.to_nat off) (contents s n)) in
  let l := Z.of_nat (length bytes) in
  ∃ m', sfs_io_nolock dev_ret n buf off alen false s = Ok ((0, l), set_s_mem m' s) ∧
    membytes m' buf l = bytes ∧ ∀ p, ¬ buf ≤ p < buf + l → m' p = s_mem s p.
Proof.
  intros Hvl HF Ht Ho Ha bytes l. destruct (volume_max _ _ _ Hvl HF) as [Hsz Hmx].
  destruct (read_file s n buf off alen (vl_vol _ _ Hvl) (vl_file _ _ Hvl n HF) Ht Hsz Ho Ha) as (s' & E & Hr).
  assert (l = Z.max 0 (Z.min (off + alen) (din_size s n) - off)) as El.
  { unfold l, bytes. rewrite length_take, length_drop, contents_length. lia. }
  rewrite <-El in *. exists (s_mem s'). rewrite <-(ri_state _ _ _ _ _ _ Hr). split; [done|]. split.
  - destruct (decide (l = 0)) as [Hz|Hz].
    + assert (bytes = []) as -> by (apply length_zero_iff_nil; lia). by rewrite Hz.
    + rewrite (read_into_bytes s s' n buf off l) by (done || lia). unfold bytes.
      destruct (decide (l = alen)) as [->|]; [done|]. rewrite !take_ge; [done|..]; rewrite length_drop, contents_length; lia.
  - intros p Hp. rewrite (ri_mem _ _ _ _ _ _ Hr). by rewrite decide_False by lia.
Qed.

(** C7. What has been written to a file is read back from the same position: for every length of at
    most 4096 bytes, across a block border or not, and every position inside the file or at
    its end such that the write ends within the 12 + 1024 blocks of a block map. *)
Theorem sfs_io_roundtrip F s s1 n buf buf' off alen :
  volume F s → F n → din_type s n ≠ SFS_TYPE_DIR →
  0 ≤ off ≤ din_size s n → 0 ≤ alen ≤ 4096 → off + alen ≤ 4096 * max_blocks →
  sfs_io_nolock dev_ret n buf off alen true s = Ok ((0, alen), s1) →
  ∃ m', sfs_io_nolock dev_ret n buf' off alen false s1 = Ok ((0, alen), set_s_mem m' s1) ∧
    membytes m' buf' alen = membytes (s_mem s) buf alen.
Proof.
  intros Hvl HF Ht Ho Ha Hm E. destruct (volume_max _ _ _ Hvl HF) as [Hsz Hmx]. pose proof max_blocks_val as Emx.
  destruct (decide (alen = 0)) as [->|Hnz].
  { rewrite io_nothing in E by (done || lia). injection E as <-. exists (s_mem s).
    by rewrite set_s_mem_id, io_nothing by (done || lia). }
  destruct (write_file s n buf off alen (vl_vol _ _ Hvl) (vl_file _ _ Hvl n HF) Ht Hsz Ho ltac:(lia) Hm)
    as (ret & l & s2 & s' & E' & W & HB & Hl & Hsm & Hmem & Htp & Hs' & Hret).
  rewrite E in E'. injection E' as <- <- <-.
  destruct (wrote_contents F s s2 s1 n buf off alen Hvl HF Ho Hl W HB Hsm Hs') as (Hvl' & Hc & _).
  pose proof (Hs' n) as Esz. rewrite decide_True in Esz by done. destruct (volume_max _ _ _ Hvl' HF) as [Hsz' _].
  destruct (read_file s1 n buf' off alen (vl_vol _ _ Hvl') (vl_file _ _ Hvl' n HF)) as (s3 & E3 & Hr);
    [by rewrite Htp|done|change SFS_MAX_FILE_SIZE with 134217728; lia|done|].
  replace (Z.max 0 (Z.min (off + alen) (din_size s1 n) - off)) with alen in * by lia.
  exists (s_mem s3). rewrite <-(ri_state _ _ _ _ _ _ Hr). split; [done|].
  rewrite (read_into_bytes s1 s3 n buf' off alen), Hc by (done || lia). unfold splice.
  rewrite drop_app_length' by (rewrite length_take, contents_length; lia).
  by rewrite take_app_length' by (rewrite membytes_length; lia).
Qed.
End sfs.

(** ** An example *)

(** A volume of 8 blocks: block 3 belongs to the file 200, the file 100 is empty,
    and the word [w] says which of the other blocks are free. *)
Definition example_map (w : Z) : bitmap := Bitmap 32 1 (λ ix, if ix =? 0 then w else 0).
Definition example_sfs (w : Z) : sfst :=
  Sfst (λ p, p mod 256) (λ b o, if b =? 3 then o + 7 else 0) 8 (count_free (example_map w)) false (example_map w) 0 (λ _, 0) []
    (λ n, if n =? 200 then 2 else 0) (λ _, SFS_TYPE_FILE) (λ _, 1) (λ n, if n =? 200 then 1 else 0)
    (λ n i, if ((n =? 200) && (i =? 0))%bool then 3 else 0) (λ _, 0) (λ _, 0) (λ n, n) (λ _, false) (λ _, 1)
    (λ e, ListEntry e e) (λ e, ListEntry e e).
Definition example_files (n : Z) : Prop := n = 100 ∨ n = 200.
Definition no_errors (b : Z) (w : bool) : Z := 0.

(** The free blocks of [w] are among 4, 5, 6 and 7. *)
Definition map_check (w : Z) : bool :=
  ((0 <=? w) && (w <? 2 ^ 32) && negb (is_free (example_map w) 3) &&
   forallb (λ i, implb (is_free (example_map w) i) ((0 <? i) && (i <? 8))) (seqZ 0 32))%bool.

Lemma example_volume w : map_check w = true → volume example_files (example_sfs w).
Proof.
  unfold map_check. intros [[[H1%Z.leb_le H2%Z.ltb_lt]%andb_prop H3]%andb_prop H4]%andb_prop. apply negb_true_iff in H3.
  rewrite forallb_forall in H4.
  assert (vol_ok (example_sfs w)) as Hv.
  { split; [split|..]; cbn [freemap example_sfs nbits nwords sb_blocks sb_unused example_map]; try lia; try done.
    - intros ix. cbn. case_match; lia.
    - intros i Hi Hf. specialize (H4 i). rewrite Hf in H4. cbn [implb] in H4.
      destruct (Z.ltb_spec 0 i), (Z.ltb_spec i 8); try lia; discriminate H4; apply list_elem_of_In, elem_of_seqZ; lia. }
  assert (∀ i, 0 ≤ i < max_blocks → bmap (example_sfs w) 100 i = 0) as Hb1.
  { intros i Hi. unfold bmap. by destruct (i <? SFS_NDIRECT). }
  assert (∀ i, 0 ≤ i < max_blocks → bmap (example_sfs w) 200 i = if i =? 0 then 3 else 0) as Hb2.
  { intros i Hi. unfold bmap. cbn. destruct (Z.ltb_spec i SFS_NDIRECT); [done|]. change SFS_NDIRECT with 12 in *. by destruct (Z.eqb_spec i 0); [lia|]. }
  pose proof max_blocks_val as Hmx. split; [done| | |].
  - intros n [->| ->]; split; cbn [din_blocks din_indirect example_sfs Z.eqb Pos.eqb]; try lia; try done.
    + intros i Hi. rewrite Hb2 by lia. destruct (Z.eqb_spec i 0); [|lia]. split; [done|exact H3].
    + intros i Hi. rewrite Hb2 by lia. by destruct (Z.eqb_spec i 0); [lia|].
    + intros i Hi. rewrite Hb2 by lia. by destruct (Z.eqb_spec i 0); [|lia].
  - intros n [->| ->]; by split.
  - intros m n c [->| ->] [->| ->] Hne; try done; intros [[? _]|(i & Hi & ->)] [[? _]|(j & Hj & E)]; try done; cbn in Hi, Hj; lia.
Qed.


Lemma sfs_read_refines_witness :
  ∃ m', sfs_io_nolock no_errors 200 1000 0 100 false (example_sfs 240) = Ok ((0, 2), set_s_mem m' (example_sfs 240)) ∧
    membytes m' 1000 2 = [7; 8].
Proof.
  destruct (sfs_read_refines no_errors (λ _ _, eq_refl) example_files (example_sfs 240) 200 1000 0 100)
    as (m' & E & Hc & _); [by apply example_volume|by right|done|done|done|].
  exists m'. split; [exact E|exact Hc].
Defined.

(** The new end of the file and its first block are in different blocks. *)
Lemma sfs_io_roundtrip_witness :
  ∃ s1 m', sfs_io_nolock no_errors 200 1000 1 4096 true (example_sfs 240) = Ok ((0, 4096), s1) ∧
    sfs_io_nolock no_errors 200 9000 1 4096 false s1 = Ok ((0, 4096), set_s_mem m' s1) ∧
    membytes m' 9000 4096 = membytes (s_mem (example_sfs 240)) 1000 4096.
Proof.
  destruct (sfs_io_nolock no_errors 200 1000 1 4096 true (example_sfs 240)) as [[[ret l] s1]| |] eqn:E.
  2-3: by (exfalso; vm_compute in E; discriminate E).
  assert (ret = 0 ∧ l = 4096) as [-> ->] by (vm_compute in E; by simplify_eq).
  destruct (sfs_io_roundtrip no_errors (λ _ _, eq_refl) example_files (example_sfs 240) s1 200 1000 9000 1 4096)
    as (m' & E' & Hc); [by apply example_volume|by right|done|done|done|done|done|].
  exists s1, m'. by split.
Defined.
