(* ===== verification/SfsTrunc.v ===== *)
(** * The simple file system: changing the size of a file

    [sfs_truncfile] and [sfs_tryseek] of kern/fs/sfs/sfs_inode.c on a [volume]: the
    file keeps the bytes both sizes have, other files keep everything, freed blocks
    return to the free map. *)

From S2P Require Import Prelude ListH CString Bitmap Vmm Vfs Disk Proc Sfs SfsProofs.

(** [s'] is [s] after the last blocks of the file [n] have been freed. *)
Record cut (s s' : sfst) (n : Z) : Prop := Cut {
  ct_vol : vol_ok s';
  ct_file : file_ok s' n;
  ct_sb : sb_blocks s' = sb_blocks s;
  ct_unused : sb_unused s' = sb_unused s + (din_blocks s n - din_blocks s' n);
  ct_blocks : din_blocks s' n ≤ din_blocks s n;
  ct_map : ∀ i, 0 ≤ i < din_blocks s' n → bmap s' n i = bmap s n i;
  ct_ind : din_indirect s' = din_indirect s;
  ct_disk : ∀ c, c ≠ din_indirect s n → disk s' c = disk s c;
  ct_used : ∀ c, used s c → (∀ i, din_blocks s' n ≤ i < din_blocks s n → bmap s n i ≠ c) → used s' c;
  ct_mem : s_mem s' = s_mem s;
  ct_size : din_size s' = din_size s;
  ct_type : din_type s' = din_type s;
  ct_other : ∀ m, m ≠ n → din_blocks s' m = din_blocks s m ∧ din_direct s' m = din_direct s m;
}.

Lemma cut_refl s n : vol_ok s → file_ok s n → cut s s n.
Proof. intros. split; try done; lia. Qed.

Lemma cut_trans s s1 s2 n : cut s s1 n → cut s1 s2 n → cut s s2 n.
Proof.
  intros [V1 F1 S1 U1 B1 M1 I1 D1 R1 E1 Z1 T1 O1] [V2 F2 S2 U2 B2 M2 I2 D2 R2 E2 Z2 T2 O2].
  pose proof (fo_blocks _ _ F2) as HB. split; try congruence; try lia.
  - intros i Hi. rewrite M2, M1 by lia. done.
  - intros c Hc. rewrite D2, D1 by congruence. done.
  - intros c Hc Hne. apply R2; [apply R1; [done|]; intros i Hi; apply Hne; lia|].
    intros i Hi. rewrite M1 by lia. apply Hne. lia.
  - intros m Hm. destruct (O1 m Hm) as [<- <-]. by apply O2.
Qed.

Section sfs.
Context (dev_ret : Z → bool → Z).
Hypothesis Hdev : ∀ b w, dev_ret b w = 0.

(** The last block of a file has been freed: [s1] differs from [s] in the free map
    and in the pointer to that block. *)
Lemma cut_last s s1 n b fm :
  file_ok s n → 0 < din_blocks s n → b = bmap s n (din_blocks s n - 1) →
  vol_ok (freed fm s) → (∀ j, is_free fm j = (bool_decide (j = b) || is_free (freemap s) j)%bool) →
  freemap s1 = fm → sb_blocks s1 = sb_blocks s → sb_unused s1 = sb_unused s + 1 →
  s_mem s1 = s_mem s → din_size s1 = din_size s → din_type s1 = din_type s →
  din_blocks s1 = upd n (din_blocks s n - 1) (din_blocks s) → din_indirect s1 = din_indirect s →
  (∀ m, m ≠ n → din_direct s1 m = din_direct s m) → (∀ c, c ≠ din_indirect s n → disk s1 c = disk s c) →
  (∀ i, 0 ≤ i < max_blocks → bmap s1 n i = if decide (i = din_blocks s n - 1) then 0 else bmap s n i) →
  cut s s1 n.
Proof.
  intros Hf HB Hb Hv Hfm E1 E2 E3 E4 E5 E6 E7 E8 E9 E10 Hm. pose proof Hf as [B U En In Inj Ni].
  assert (din_blocks s1 n = din_blocks s n - 1) as EB by (by rewrite E7, upd_eq).
  assert (∀ c, used s c → c ≠ b → used s1 c) as Hu.
  { intros c [Hr Hc] Hne. split; [by rewrite E2|]. by rewrite E1, Hfm, bool_decide_eq_false_2. }
  assert (∀ i, 0 ≤ i < din_blocks s n - 1 → bmap s n i ≠ b) as Hnb.
  { intros i Hi Hib. subst b. apply Inj in Hib; lia. }
  split; try done; try lia.
  - apply (vol_ok_same (freed fm s)); try done.
  - split; rewrite ?EB, ?E8.
    + lia.
    + intros i Hi. rewrite Hm, decide_False by lia. apply Hu; [apply U; lia|by apply Hnb].
    + intros i Hi. rewrite Hm by lia. case_decide; [done|]. apply En. lia.
    + intros Hz. apply Hu; [by apply In|]. subst b. apply not_eq_sym, Ni. lia.
    + intros i j Hi Hj. rewrite !Hm, !decide_False by lia. apply Inj; lia.
    + intros i Hi. rewrite Hm, decide_False by lia. apply Ni. lia.
  - intros i Hi. rewrite Hm, decide_False by lia. done.
  - intros c Hc Hne. apply Hu; [done|]. intros ->. apply (Hne (din_blocks s n - 1)); [lia|done].
  - intros m Hm'. rewrite E7, upd_ne by done. split; [done|by apply E9].
Qed.

(** A block behind the indirect block. *)
Lemma indirect_entry s n i :
  file_ok s n → SFS_NDIRECT ≤ i < din_blocks s n →
  din_indirect s n ≠ 0 ∧ used s (din_indirect s n) ∧ bmap s n i = le32 (disk s (din_indirect s n)) ((i - SFS_NDIRECT) * 4).
Proof.
  intros Hf Hi. pose proof (fo_used _ _ Hf i) as Hu. unfold bmap in *. change SFS_NDIRECT with 12 in *.
  destruct (Z.ltb_spec i 12); [lia|]. destruct (Z.eqb_spec (din_indirect s n) 0) as [Hz|Hz].
  - destruct (Hu ltac:(lia)) as [? _]. lia.
  - split; [done|]. split; [by apply (fo_ind _ _ Hf)|done].
Qed.

Lemma free_sub_spec s n i b :
  vol_ok s → file_ok s n → SFS_NDIRECT ≤ i < din_blocks s n → b = bmap s n i →
  let ent := din_indirect s n in
  let s1 := set_block ent (blit ((i - SFS_NDIRECT) * 4) 0 4 (byte32 0) (disk s ent)) s in
  ∃ fm, sfs_bmap_free_sub_nolock dev_ret ent (i - SFS_NDIRECT) s = Ok (0, freed fm s1) ∧ vol_ok (freed fm s) ∧
    ∀ j, is_free fm j = (bool_decide (j = b) || is_free (freemap s) j)%bool.
Proof.
  intros Hv Hf Hi Eb ent s1. destruct (indirect_entry s n i Hf Hi) as (Hz & Hent & El). fold ent in Hz, Hent, El.
  pose proof (fo_blocks _ _ Hf) as HB. rewrite max_blocks_val in HB. change SFS_NDIRECT with 12 in *.
  pose proof (fo_used _ _ Hf i ltac:(lia)) as Hu. rewrite <-Eb in *. pose proof Hent as [Hr _]. pose proof Hu as [Hbr _].
  unfold sfs_bmap_free_sub_nolock. change SFS_BLK_NENTRY with 1024.
  rewrite (bind_ok _ _ _ _ _ (inuse_spec s ent Hv Hent)), bind_assert by (destruct (Z.ltb_spec (i - 12) 1024); lia || done).
  rewrite (bind_ok _ _ _ _ _ (rbuf32_spec dev_ret Hdev s ent ((i - 12) * 4) Hr ltac:(lia) ltac:(lia))), <-El. cbn [Z.eqb negb].
  destruct (Z.eqb_spec b 0); [lia|]. cbn [negb]. unfold wbuf32.
  rewrite (bind_ok _ _ _ _ _ (wbuf_from_spec dev_ret Hdev s (λ _, byte32 0) 0 4 ent ((i - 12) * 4) Hr ltac:(lia) ltac:(lia))).
  cbn [Z.eqb negb]. change (set_block _ _ s) with s1.
  destruct (sfs_block_free_spec s1 b) as (fm & Ef & Hv' & Hfm); [by apply (vol_ok_same s)|done|].
  exists fm. rewrite (bind_ok _ _ _ _ _ Ef). split; [done|]. split; [|done]. by apply (vol_ok_same (freed fm s1)).
Qed.

Lemma truncate_spec s n :
  vol_ok s → file_ok s n → 0 < din_blocks s n →
  ∃ s', sfs_bmap_truncate_nolock dev_ret n s = Ok (0, s') ∧ cut s s' n ∧ din_blocks s' n = din_blocks s n - 1.
Proof.
  intros Hv Hf HB. pose proof Hf as [B U En In Inj Ni]. pose proof max_blocks_val as Hmx.
  set (i := din_blocks s n - 1). pose proof (U i ltac:(lia)) as Hu. set (b := bmap s n i) in *. pose proof Hu as [Hbr _].
  destruct (sfs_block_free_spec s b Hv Hu) as (fm & Ef & Hv' & Hfm).
  unfold sfs_bmap_truncate_nolock. rewrite bind_gets, bind_assert by (destruct (Z.eqb_spec (din_blocks s n) 0); lia || done).
  unfold sfs_bmap_free_nolock. change SFS_NDIRECT with 12 in *. change SFS_BLK_NENTRY with 1024. fold i.
  destruct (Z.ltb_spec i 12) as [Hlt|Hge].
  - assert (din_direct s n i = b) as Ed.
    { unfold b, bmap. change SFS_NDIRECT with 12. destruct (Z.ltb_spec i 12); [done|lia]. }
    rewrite bind_assoc, bind_gets, Ed. destruct (Z.eqb_spec b 0); [lia|]. cbn [negb].
    rewrite !bind_assoc, (bind_ok _ _ _ _ _ Ef). rewrite !bind_assoc, bind_modify, bind_modify, bind_ret. cbn [Z.eqb negb].
    rewrite bind_modify, bind_modify. eexists. split; [done|]. split; [|cbn; by rewrite upd_eq].
    apply (cut_last s _ n b fm); try done.
    + intros m Hm. cbn. by rewrite upd_ne.
    + intros j Hj. unfold bmap. change SFS_NDIRECT with 12.
      cbn [din_direct din_indirect disk set_din_blocks set_sin_dirty set_din_direct freed set_unused set_freemap].
      rewrite upd_eq. fold i. destruct (Z.ltb_spec j 12); [case_decide; [by subst; rewrite upd_eq|by rewrite upd_ne]|].
      by rewrite decide_False by lia.
  - destruct (indirect_entry s n i Hf) as (Hz & Hent & El); [change SFS_NDIRECT with 12; lia|].
    destruct (free_sub_spec s n i b Hv Hf) as (fm' & Ef' & Hv'' & Hfm'); [change SFS_NDIRECT with 12; lia|done|].
    change SFS_NDIRECT with 12 in *. destruct (Z.ltb_spec (i - 12) 1024); [|lia]. rewrite bind_assoc, bind_gets.
    destruct (Z.eqb_spec (din_indirect s n) 0); [done|]. cbn [negb]. rewrite (bind_ok _ _ _ _ _ Ef'). cbn [Z.eqb negb].
    rewrite bind_modify, bind_modify. eexists. split; [done|]. split; [|cbn; by rewrite upd_eq].
    apply (cut_last s _ n b fm'); try done.
    + intros c Hc. cbn. by rewrite upd_ne.
    + intros j Hj. unfold bmap. change SFS_NDIRECT with 12.
      cbn [din_direct din_indirect disk set_din_blocks set_sin_dirty set_block freed set_unused set_freemap].
      rewrite upd_eq. fold i. destruct (Z.ltb_spec j 12); [by rewrite decide_False by lia|].
      destruct (Z.eqb_spec (din_indirect s n) 0); [done|]. rewrite le32_entry by lia. by repeat case_decide; try lia.
Qed.

Lemma tblks_cdiv len : 0 ≤ len ≤ 4096 * 1036 → u32 (ROUNDUP_DIV len SFS_BLKSIZE) = cdiv len.
Proof.
  intros Hl. unfold ROUNDUP_DIV. change (u64 SFS_BLKSIZE) with 4096. rewrite u64_small by lia.
  replace (len + 4096 - 1) with (len + 4095) by lia. fold (cdiv len). pose proof (cdiv_le len 1036 ltac:(lia)).
  apply u32_small. split; [apply Z.div_pos|]; lia.
Qed.

Lemma shrink_spec k s n :
  vol_ok s → file_ok s n → Z.of_nat k ≤ din_blocks s n →
  ∃ s', shrink_loop dev_ret k n s = Ok (0, s') ∧ cut s s' n ∧ din_blocks s' n = din_blocks s n - Z.of_nat k.
Proof.
  revert s. induction k as [|k IH]; intros s Hv Hf Hk; cbn [shrink_loop].
  { exists s. split; [done|]. split; [by apply cut_refl|lia]. }
  destruct (truncate_spec s n Hv Hf ltac:(lia)) as (s1 & E & Hc & HB). rewrite (bind_ok _ _ _ _ _ E). cbn [Z.eqb negb].
  destruct (IH s1 (ct_vol _ _ _ Hc) (ct_file _ _ _ Hc) ltac:(lia)) as (s2 & E2 & Hc2 & HB2).
  exists s2. split; [done|]. split; [by eapply cut_trans|lia].
Qed.

Lemma grow_spec k s n :
  vol_ok s → file_ok s n → din_blocks s n + Z.of_nat k ≤ max_blocks →
  ∃ ret s', grow_loop dev_ret k n (din_blocks s n) s = Ok (ret, s') ∧ wrote s s' n 0 0 0 ∧
    ((ret = 0 ∧ din_blocks s' n = din_blocks s n + Z.of_nat k) ∨
     (ret = - E_NO_MEM ∧ din_blocks s' n < din_blocks s n + Z.of_nat k ∧ sb_unused s' ≤ 1)).
Proof.
  revert s. induction k as [|k IH]; intros s Hv Hf Hk; cbn [grow_loop].
  { exists 0, s. split; [done|]. split; [by apply (unchanged_wrote s s)|left; lia]. }
  destruct (load_new dev_ret Hdev s n Hv Hf ltac:(lia)) as [(b & s1 & E & Hg)|(s1 & E & Hu & Hc)];
    rewrite (bind_ok _ _ _ _ _ E); cbn [Z.eqb negb].
  - pose proof (grown_wrote s s1 n b 0 0 Hf ltac:(lia) Hg) as W. pose proof (gr_blocks _ _ _ _ Hg) as HB. rewrite <-HB.
    destruct (IH s1 (wr_vol _ _ _ _ _ _ W) (wr_file _ _ _ _ _ _ W) ltac:(lia)) as (ret & s2 & E2 & W2 & Hret).
    exists ret, s2. split; [done|]. split; [by apply (wrote_trans s s1 s2 n 0 0 0 0)|]. destruct Hret as [[-> ?]|(-> & ? & ?)]; [left|right]; lia.
  - exists (- E_NO_MEM), s1. split; [done|]. destruct (unchanged_wrote s s1 n 0 0 Hf Hu) as [W HB]. split; [done|]. right.
    rewrite (un_unused _ _ Hu), (vo_unused _ Hv). lia.
Qed.

(** [new] is [old] at the length [len]. *)
Definition resized (old new : list Z) (len : Z) : Prop :=
  Z.of_nat (length new) = len ∧ ∀ i, (i < length old)%nat → (i < length new)%nat → new !! i = old !! i.

Lemma resized_contents s s' n :
  0 ≤ din_size s' n → (∀ p, 0 ≤ p < Z.min (din_size s n) (din_size s' n) → fbyte s' n p = fbyte s n p) →
  resized (contents s n) (contents s' n) (din_size s' n).
Proof.
  intros H0 Hb. split; [rewrite contents_length; lia|]. intros i. rewrite !contents_length. intros Hi Hi'.
  rewrite !lookup_contents, !decide_True by lia. f_equal. apply Hb. lia.
Qed.

Lemma cut_frame s s' n m :
  cut s s' n → m ≠ n → file_ok s m → (∀ c, owns s m c → ¬ owns s n c) → framed s s' m.
Proof.
  intros Hc Hmn Hf Hap. destruct (ct_other _ _ _ Hc m Hmn) as [E1 E2]. pose proof (fo_blocks _ _ (ct_file _ _ _ Hc)) as HB.
  apply file_frame; [done| |done|done|by rewrite (ct_ind _ _ _ Hc)|].
  - intros c Ho. apply (ct_used _ _ _ Hc); [by apply (owns_used s m)|]. intros i Hi <-. apply (Hap _ Ho). right. exists i. split; [lia|done].
  - intros c Ho. apply (ct_disk _ _ _ Hc). intros ->. apply (Hap _ Ho). left. split; [|done].
    destruct (owns_used s m _ Hf Ho) as [? _]. lia.
Qed.

Lemma cut_owns s s' n c : cut s s' n → owns s' n c → owns s n c.
Proof.
  intros Hc. pose proof (ct_blocks _ _ _ Hc). intros [[Hz ->]|(i & Hi & ->)].
  - left. by rewrite (ct_ind _ _ _ Hc) in *.
  - right. exists i. split; [lia|]. by apply (ct_map _ _ _ Hc).
Qed.

Lemma cut_byte s s' n p : file_ok s n → cut s s' n → 0 ≤ p < 4096 * din_blocks s' n → fbyte s' n p = fbyte s n p.
Proof.
  intros Hf Hc Hp. pose proof (ct_blocks _ _ _ Hc). unfold fbyte.
  assert (0 ≤ p / 4096 < din_blocks s' n) by (split; [apply Z.div_pos; lia|apply Z.div_lt_upper_bound; lia]).
  rewrite (ct_map _ _ _ Hc), (ct_disk _ _ _ Hc); [done| |done]. apply (fo_not_ind _ _ Hf). lia.
Qed.

(** What the loops of [sfs_truncfile] leave: block maps of the right length, the
    size still to be stored. *)
Record reblocked (F : Z → Prop) (s s1 : sfst) (n : Z) : Prop := Reblocked {
  rb_vol : vol_ok s1;
  rb_file : file_ok s1 n;
  rb_mem : s_mem s1 = s_mem s;
  rb_size : din_size s1 = din_size s;
  rb_type : din_type s1 = din_type s;
  rb_frame : ∀ m, F m → m ≠ n → framed s s1 m;
  rb_owns : ∀ c, owns s1 n c → owns s n c ∨ unused s c;
  rb_byte : ∀ p, 0 ≤ p < 4096 * Z.min (din_blocks s n) (din_blocks s1 n) → fbyte s1 n p = fbyte s n p;
}.

Lemma reblock_spec F s n t :
  volume F s → F n → 0 ≤ t ≤ max_blocks →
  let nblks := din_blocks s n in
  ∃ ret s1, (if nblks <? t then grow_loop dev_ret (Z.to_nat (t - nblks)) n nblks
             else shrink_loop dev_ret (Z.to_nat (nblks - t)) n) s = Ok (ret, s1) ∧
    reblocked F s s1 n ∧
    ((ret = 0 ∧ din_blocks s1 n = t ∧ (t ≤ nblks → sb_unused s1 = sb_unused s + (nblks - t))) ∨
     (ret = - E_NO_MEM ∧ nblks ≤ din_blocks s1 n < t ∧ sb_unused s1 ≤ 1)).
Proof.
  intros Hvl HF Ht nblks. pose proof (vl_vol _ _ Hvl) as Hv. pose proof (vl_file _ _ Hvl n HF) as Hf.
  pose proof (fo_blocks _ _ Hf) as HB. destruct (Z.ltb_spec nblks t) as [Hlt|Hge].
  - destruct (grow_spec (Z.to_nat (t - nblks)) s n Hv Hf ltac:(lia)) as (ret & s1 & E & W & Hret).
    exists ret, s1. split; [done|]. pose proof (wr_blocks _ _ _ _ _ _ W) as Hle. split.
    + split; try apply W.
      * intros m Hm Hmn. eapply wrote_frame; [done|done|by apply (vl_file _ _ Hvl)|]. intros c. by apply (vl_apart _ _ Hvl).
      * intros c. by apply (wrote_owns _ _ _ _ _ _ _ W).
      * intros p Hp. rewrite (wr_byte _ _ _ _ _ _ W) by lia. by rewrite decide_False, decide_True by lia.
    + destruct Hret as [(-> & Hb)|(-> & Hb & Hu)]; [left|right]; split_and!; done || lia.
  - destruct (shrink_spec (Z.to_nat (nblks - t)) s n Hv Hf ltac:(lia)) as (s1 & E & Hc & Hb).
    exists 0, s1. split; [done|]. split.
    + split; try apply Hc.
      * intros m Hm Hmn. eapply cut_frame; [done|done|by apply (vl_file _ _ Hvl)|]. intros c. by apply (vl_apart _ _ Hvl).
      * intros c Ho. left. by eapply cut_owns.
      * intros p Hp. apply cut_byte; [done|done|lia].
    + left. split; [done|]. split; [lia|]. intros _. rewrite (ct_unused _ _ _ Hc). lia.
Qed.

(** C10. [sfs_truncfile] gives a file of the volume the length [len], keeping the bytes
    that both lengths have and every other file, and returns the blocks it no longer
    needs; if the disk is full it returns [-E_NO_MEM] and the file keeps its length and
    contents.  The length is at most what the 12 + 1024 blocks of a block map hold: the code
    accepts lengths up to 128 MB, but beyond these blocks it panics. *)
Theorem sfs_truncfile_resizes F s n len :
  volume F s → F n → 0 ≤ len ≤ 4096 * max_blocks →
  ∃ ret s', sfs_truncfile dev_ret n len s = Ok (ret, s') ∧ s_mem s' = s_mem s ∧ din_type s' = din_type s ∧
    (∀ m, F m → m ≠ n → contents s' m = contents s m) ∧
    ((ret = 0 ∧ volume F s' ∧ resized (contents s n) (contents s' n) len ∧
      (len ≤ din_size s n → sb_unused s' = sb_unused s + (cdiv (din_size s n) - cdiv len))) ∨
     (ret = - E_NO_MEM ∧ din_size s n < len ∧ sb_unused s' ≤ 1 ∧
      volume (λ m, F m ∧ m ≠ n) s' ∧ file_ok s' n ∧ contents s' n = contents s n)).
Proof.
  intros Hvl HF Hlen. destruct (volume_max _ _ _ Hvl HF) as [Hsz Hmx]. pose proof max_blocks_val as Emx.
  destruct (vl_size _ _ Hvl n HF) as [_ HB]. pose proof (cdiv_le len max_blocks ltac:(lia)) as Hc. pose proof (cdiv_ge len) as Hcg.
  assert (0 ≤ cdiv len) as Hc0 by (unfold cdiv; apply Z.div_pos; lia).
  unfold sfs_truncfile. change SFS_MAX_FILE_SIZE with 134217728.
  destruct (Z.ltb_spec len 0), (Z.ltb_spec 134217728 len); try lia. cbn [orb].
  rewrite tblks_cdiv by lia.
  rewrite !bind_gets. destruct (Z.eqb_spec (din_size s n) len) as [El|Hne].
  { rewrite bind_assert by (apply Z.eqb_eq; congruence). exists 0, s. split_and!; try done. left. split; [done|]. split; [done|].
    split; [split; [rewrite contents_length; lia|done]|]. rewrite El. lia. }
  destruct (reblock_spec F s n (cdiv len) Hvl HF ltac:(lia)) as (ret & s1 & E & R & Hret). rewrite (bind_ok _ _ _ _ _ E).
  pose proof R as [Rv Rf Rm Rs Rt Rfr Ro Rb].
  destruct Hret as [(-> & Hb & Hun)|(-> & Hb & Hun)]; cbn [Z.eqb negb].
  - rewrite bind_asserts by (apply Z.eqb_eq; done). rewrite bind_modify, bind_modify. eexists 0, _. split; [done|].
    rewrite u32_small by lia. set (s' := set_sin_dirty _ _ _). assert (same_blocks s1 s') as Hsm by done.
    destruct (same_blocks_file _ _ Hsm) as (Hv' & Hf' & _ & Hb' & Ho').
    assert (din_size s' n = len) as Hsn by (cbn; by rewrite upd_eq).
    assert (∀ m, F m → m ≠ n → framed s s' m ∧ din_size s' m = din_size s m) as Hfr.
    { intros m Hm Hmn. split; [eapply framed_same; [by apply Rfr|done]|]. cbn. by rewrite upd_ne, Rs. }
    split_and!; [done|done| |left]. { intros m Hm Hmn. destruct (Hfr m Hm Hmn). by eapply framed_contents. }
    split; [done|]. split.
    { apply (volume_all F s s' n); [done|done|by apply Hv'|done|by apply Hf'|lia|by rewrite Hsn|]. intros c. rewrite Ho'. apply Ro. }
    split; [pose proof (resized_contents s s' n) as Hres; rewrite Hsn in Hres; apply Hres; [lia|]; intros p Hp; rewrite Hb'; apply Rb; lia|].
    intros Hle. cbn. rewrite Hun, HB; [done|]. rewrite HB. by apply cdiv_mono.
  - change (- E_NO_MEM =? 0) with false. cbn [negb]. exists (- E_NO_MEM), s1. split_and!; try done.
    { intros m Hm Hmn. eapply framed_contents; [done|done|by apply Rfr|by rewrite Rs]. }
    right. split_and!; try done.
    + apply Z.nle_gt. intros Hle. pose proof (cdiv_mono _ _ Hle). lia.
    + apply (volume_others F s); [done|done|]. intros m Hm Hmn. split; [by apply Rfr|by rewrite Rs].
    + unfold contents. rewrite Rs. apply list_fmap_ext. intros i x Hx. apply lookup_seqZ in Hx as [-> Hi]. apply Rb. lia.
Qed.

(** The number of blocks does not change. *)
Lemma truncfile_same_blocks s n len :
  0 ≤ len ≤ 4096 * max_blocks → din_blocks s n = cdiv len → din_size s n ≠ len →
  sfs_truncfile dev_ret n len s = Ok (0, set_sin_dirty n true (set_din_size n len s)).
Proof.
  intros Hlen HB Hne. rewrite max_blocks_val in Hlen. pose proof (cdiv_le len 1036 ltac:(lia)).
  assert (0 ≤ cdiv len) by (unfold cdiv; apply Z.div_pos; lia).
  unfold sfs_truncfile. change SFS_MAX_FILE_SIZE with 134217728.
  destruct (Z.ltb_spec len 0), (Z.ltb_spec 134217728 len); try lia. cbn [orb]. rewrite tblks_cdiv by lia.
  rewrite !bind_gets, HB. destruct (Z.eqb_spec (din_size s n) len); [done|].
  rewrite Z.ltb_irrefl, Z.sub_diag. change (Z.to_nat 0) with 0%nat. cbn [shrink_loop]. rewrite bind_ret. cbn [Z.eqb negb].
  rewrite bind_asserts by (by apply Z.eqb_eq). by rewrite u32_small by lia.
Qed.

(** Bytes cut off a file come back when it grows again within its last block:
    [sfs_truncfile] changes the size only, and clears nothing. *)
Theorem truncation_keeps_old_bytes F s n len :
  volume F s → F n → 0 ≤ len < din_size s n → cdiv len = cdiv (din_size s n) →
  ∃ s1 s2, sfs_truncfile dev_ret n len s = Ok (0, s1) ∧ contents s1 n = take (Z.to_nat len) (contents s n) ∧
    sfs_truncfile dev_ret n (din_size s n) s1 = Ok (0, s2) ∧ resized (contents s1 n) (contents s2 n) (din_size s n) ∧
    contents s2 n = contents s n.
Proof.
  intros Hvl HF Hlen Hc. destruct (volume_max _ _ _ Hvl HF) as [Hsz Hmx]. destruct (vl_size _ _ Hvl n HF) as [_ HB].
  exists (set_sin_dirty n true (set_din_size n len s)).
  exists (set_sin_dirty n true (set_din_size n (din_size s n) (set_sin_dirty n true (set_din_size n len s)))).
  assert (∀ v s, contents (set_sin_dirty n true (set_din_size n v s)) n = fbyte s n <$> seqZ 0 v) as Hcont.
  { intros v s0. unfold contents. cbn [din_size set_sin_dirty set_din_size]. by rewrite upd_eq. }
  assert (contents (set_sin_dirty n true (set_din_size n len s)) n = take (Z.to_nat len) (contents s n)) as H1.
  { rewrite Hcont. unfold contents. rewrite <-fmap_take. f_equal. apply list_eq. intros i. destruct (decide (i < Z.to_nat len)%nat).
    - by rewrite lookup_take_lt, !lookup_seqZ_lt by lia.
    - by rewrite lookup_take_ge, lookup_seqZ_ge by lia. }
  split; [apply truncfile_same_blocks; [lia|congruence|lia]|]. split; [done|].
  split; [apply truncfile_same_blocks; [lia|by cbn|cbn; rewrite upd_eq; lia]|]. rewrite H1, Hcont. change (fbyte _ n <$> seqZ 0 (din_size s n)) with (contents s n). split; [|done].
  split; [rewrite contents_length; lia|]. intros i Hi _. rewrite length_take in Hi. by rewrite lookup_take_lt by lia.
Qed.

(** A file whose number of blocks is not the one its size needs. *)
Definition misfit (s : sfst) (n : Z) : Prop := din_blocks s n ≠ cdiv (din_size s n).

(** After [sfs_truncfile] has failed for want of blocks the file may have more blocks than
    its size needs; setting it to the size it has then panics. *)
Theorem failed_resize_panics F s s' n len :
  volume F s → F n → 0 ≤ len ≤ 4096 * max_blocks →
  sfs_truncfile dev_ret n len s = Ok (- E_NO_MEM, s') → din_blocks s' n ≠ din_blocks s n →
  din_size s' n = din_size s n ∧ misfit s' n ∧ sfs_truncfile dev_ret n (din_size s' n) s' = Panic.
Proof.
  intros Hvl HF Hlen E Hne. destruct (volume_max _ _ _ Hvl HF) as [Hsz Hmx]. destruct (vl_size _ _ Hvl n HF) as [_ HB].
  pose proof max_blocks_val as Emx. pose proof (cdiv_le len max_blocks ltac:(lia)). assert (0 ≤ cdiv len) by (unfold cdiv; apply Z.div_pos; lia).
  assert (din_size s' n = din_size s n) as Hs'.
  { revert E. unfold sfs_truncfile. change SFS_MAX_FILE_SIZE with 134217728.
    destruct (Z.ltb_spec len 0), (Z.ltb_spec 134217728 len); try lia. cbn [orb]. rewrite tblks_cdiv by lia.
    rewrite !bind_gets. destruct (Z.eqb_spec (din_size s n) len) as [El|_].
    { rewrite bind_assert by (apply Z.eqb_eq; congruence). intros [=]. }
    destruct (reblock_spec F s n (cdiv len) Hvl HF ltac:(lia)) as (ret & s1 & E & R & Hret). rewrite (bind_ok _ _ _ _ _ E).
    destruct Hret as [(-> & Hb & Hun)|(-> & Hb & Hun)]; cbn [Z.eqb negb].
    - rewrite bind_asserts by (apply Z.eqb_eq; done). rewrite bind_modify, bind_modify. intros [=].
    - change (- E_NO_MEM =? 0) with false. cbn [negb]. intros [= <-]. by rewrite (rb_size _ _ _ _ R). }
  split; [done|]. split; [unfold misfit; rewrite Hs'; congruence|].
  unfold sfs_truncfile. change SFS_MAX_FILE_SIZE with 134217728. rewrite Hs'.
  destruct (Z.ltb_spec (din_size s n) 0), (Z.ltb_spec 134217728 (din_size s n)); try lia. cbn [orb]. rewrite tblks_cdiv by lia.
  rewrite !bind_gets, Hs', Z.eqb_refl. unfold assert. destruct (Z.eqb_spec (cdiv (din_size s n)) (din_blocks s' n)); [congruence|done].
Qed.

(** ** Limits of the transfer *)

(** Every entry of the block map is in use. *)
Definition map_full (s : sfst) (n : Z) : Prop := din_blocks s n = max_blocks.

(** A file can have 1036 blocks, but [sfs_io_nolock] only checks the position against
    [SFS_MAX_FILE_SIZE], 128 megabytes: writing at the end of a file of 1036 blocks
    panics. *)
Theorem full_file_write_panics s n buf alen :
  din_type s n ≠ SFS_TYPE_DIR → map_full s n → 0 < alen ≤ 4096 →
  4096 * max_blocks + alen < SFS_MAX_FILE_SIZE ∧ sfs_io_nolock dev_ret n buf (4096 * max_blocks) alen true s = Panic.
Proof.
  unfold map_full. intros Ht HB Ha. split; [rewrite max_blocks_val; change SFS_MAX_FILE_SIZE with 134217728; lia|]. rewrite max_blocks_val in *.
  assert (sfs_bmap_load_nolock dev_ret n 1036 s = Panic) as Hload.
  { unfold sfs_bmap_load_nolock, sfs_bmap_get_nolock. by rewrite bind_gets, HB, bind_assert by done. }
  set (off := 4096 * 1036). assert (off mod 4096 = 0 ∧ off / 4096 = 1036) as [Em Ed] by done.
  assert (off = 4243456) as Eo by done. clearbody off. pose proof (Z.div_mod (off + alen) 4096 ltac:(lia)) as Hdm.
  pose proof (Z.mod_pos_bound (off + alen) 4096 ltac:(lia)).
  unfold sfs_io_nolock. change SFS_MAX_FILE_SIZE with 134217728. change SFS_BLKSIZE with 4096.
  rewrite bind_asserts by (destruct (Z.eqb_spec (din_type s n) SFS_TYPE_DIR); done). rewrite s64_small by lia.
  destruct (Z.ltb_spec off 0), (Z.leb_spec 134217728 off), (Z.ltb_spec (off + alen) off), (Z.eqb_spec off (off + alen)); try lia.
  cbn [orb]. rewrite bind_gets. cbn [negb andb]. destruct (Z.ltb_spec 134217728 (off + alen)); [lia|]. rewrite Ed.
  unfold io_from, io_blocks, io_tail. change SFS_BLKSIZE with 4096. rewrite Em. cbn [Z.eqb negb].
  destruct (Z.ltb_spec 0 ((off + alen) / 4096 - 1036)) as [Hn|Hn].
  - by rewrite bind_assoc, (bind_panic _ _ _ Hload).
  - destruct (Z.eqb_spec ((off + alen) mod 4096) 0); [lia|]. cbn [negb]. by rewrite bind_assoc, (bind_panic _ _ _ Hload).
Qed.

(** The first block of [m] comes right after the first block of [n] on the disk. *)
Definition neighbours (s : sfst) (n m : Z) : Prop :=
  0 < din_blocks s n ∧ 0 < din_blocks s m ∧ bmap s m 0 = bmap s n 0 + 1.

(** A transfer of several whole blocks looks up the first block only and takes the disk
    blocks behind it for the rest: two blocks written to a file go over the file that
    owns the next disk block. *)
Theorem whole_blocks_overrun F s n m buf :
  volume F s → F n → F m → m ≠ n → din_type s n ≠ SFS_TYPE_DIR → neighbours s n m →
  ∃ s', sfs_io_nolock dev_ret n buf 0 8192 true s = Ok ((0, 8192), s') ∧ din_blocks s' n = din_blocks s n ∧
    ∀ p, 0 ≤ p < 4096 → fbyte s' m p = s_mem s (buf + 4096 + p).
Proof.
  intros Hvl Hn Hm Hne Ht (HBn & HBm & Hmap). pose proof (vl_vol _ _ Hvl) as Hv. pose proof (vl_file _ _ Hvl n Hn) as Hf.
  pose proof (vl_file _ _ Hvl m Hm) as Hfm. pose proof (fo_used _ _ Hf 0 ltac:(lia)) as [Hr _].
  pose proof (fo_used _ _ Hfm 0 ltac:(lia)) as [Hrm _]. rewrite Hmap in Hrm. set (b := bmap s n 0) in *.
  pose proof (vo_blocks _ Hv) as Hsb. pose proof (wf_nbits _ (vo_map _ Hv)) as Hnb.
  unfold sfs_io_nolock. rewrite bind_asserts by (destruct (Z.eqb_spec (din_type s n) SFS_TYPE_DIR); done).
  change (s64 (0 + 8192)) with 8192. cbn [Z.ltb Z.compare Z.eqb orb]. change (SFS_MAX_FILE_SIZE <=? 0) with false.
  change (SFS_MAX_FILE_SIZE <? 8192) with false. cbn [orb]. rewrite bind_gets. cbn [negb andb].
  unfold io_from. change (0 mod SFS_BLKSIZE =? 0) with true. change (0 / SFS_BLKSIZE) with 0. change (8192 / SFS_BLKSIZE - 0) with 2.
  cbn [negb]. unfold io_blocks. cbn [Z.ltb Z.compare]. rewrite bind_assoc, (bind_ok _ _ _ _ _ (load_existing dev_ret Hdev s n 0 Hv Hf ltac:(lia))).
  cbn [Z.eqb negb]. fold b. unfold block_op. change (Z.to_nat 2) with 2%nat. cbn [rwblock]. change SFS_BLKSIZE with 4096.
  rewrite !bind_assoc, (bind_ok _ _ _ _ _ (rw_check_spec s b Hr)), Hdev. cbn [Z.eqb negb]. rewrite bind_assoc, bind_modify.
  rewrite (u32_small (b + 1)) by lia. set (s1 := set_block _ _ s).
  rewrite bind_assoc, (bind_ok _ _ _ _ _ (rw_check_spec s1 (b + 1) Hrm)), Hdev. cbn [Z.eqb negb]. rewrite bind_assoc, bind_modify.
  set (s2 := set_block _ _ s1). rewrite bind_ret. cbn [Z.eqb negb]. unfold io_tail.
  change (8192 mod SFS_BLKSIZE =? 0) with true. cbn [negb]. rewrite bind_ret. change (0 + 2 * 4096) with 8192. unfold io_out. rewrite bind_gets.
  change (u64 (0 + 8192)) with 8192. change (u32 (0 + 8192)) with 8192.
  assert (∀ p, 0 ≤ p < 4096 → fbyte s2 m p = s_mem s (buf + 4096 + p)) as Hb.
  { intros p Hp. unfold fbyte. rewrite Z.div_small, Z.mod_small by lia.
    assert (bmap s2 m 0 = b + 1) as -> by (rewrite <-Hmap; unfold bmap; by change (0 <? SFS_NDIRECT) with true).
    cbn [disk s2 set_block]. rewrite upd_eq, blit_range, decide_True by lia. cbn. f_equal. lia. }
  destruct (din_size s2 n <? 8192).
  - rewrite bind_assoc, bind_modify, bind_modify. eexists. split; [reflexivity|]. split; [done|]. exact Hb.
  - exists s2. by split.
Qed.
End sfs.

(** ** Examples *)

(** From 2 bytes to 1, and to three blocks. *)
Lemma sfs_truncfile_resizes_witness :
  ∃ s1 s2, sfs_truncfile no_errors 200 1 (example_sfs 240) = Ok (0, s1) ∧ contents s1 200 = [7] ∧
    sfs_truncfile no_errors 200 10000 (example_sfs 240) = Ok (0, s2) ∧ resized [7; 8] (contents s2 200) 10000 ∧
    volume example_files s2.
Proof.
  destruct (sfs_truncfile_resizes no_errors (λ _ _, eq_refl) example_files (example_sfs 240) 200 1)
    as (r1 & s1 & E1 & _ & _ & _ & H1); [by apply example_volume|by right|done|].
  destruct (sfs_truncfile_resizes no_errors (λ _ _, eq_refl) example_files (example_sfs 240) 200 10000)
    as (r2 & s2 & E2 & _ & _ & _ & H2); [by apply example_volume|by right|done|].
  exists s1, s2. destruct H1 as [(-> & _ & _)|(_ & [=] & _)]. rewrite E1.
  destruct H2 as [(-> & Hv & Hr & _)|(-> & _)]; [|exfalso; vm_compute in E2; discriminate E2].
  split_and!; try done. injection E1 as <-. done.
Defined.

Lemma truncation_keeps_old_bytes_witness :
  ∃ s1 s2, sfs_truncfile no_errors 200 1 (example_sfs 240) = Ok (0, s1) ∧ contents s1 200 = [7] ∧
    sfs_truncfile no_errors 200 2 s1 = Ok (0, s2) ∧ contents s2 200 = [7; 8].
Proof.
  destruct (truncation_keeps_old_bytes no_errors example_files (example_sfs 240) 200 1)
    as (s1 & s2 & E1 & C1 & E2 & _ & C2); [by apply example_volume|by right|done|done|].
  exists s1, s2. split_and!; [exact E1|exact C1|exact E2|exact C2].
Defined.

(** One free block is left, two are needed. *)
Lemma failed_resize_panics_witness :
  ∃ s', sfs_truncfile no_errors 100 8192 (example_sfs 128) = Ok (- E_NO_MEM, s') ∧
    sfs_truncfile no_errors 100 0 s' = Panic.
Proof.
  destruct (sfs_truncfile no_errors 100 8192 (example_sfs 128)) as [[ret s']| |] eqn:E.
  2-3: by (exfalso; vm_compute in E; discriminate E).
  assert (ret = - E_NO_MEM) as -> by (vm_compute in E; by injection E as <- _).
  destruct (failed_resize_panics no_errors (λ _ _, eq_refl) example_files (example_sfs 128) s' 100 8192)
    as (Hs & _ & Hp); [by apply example_volume|by left|done|done| |].
  { vm_compute in E. injection E as <-. vm_compute. discriminate. }
  rewrite Hs in Hp. by exists s'.
Defined.

Lemma full_file_write_panics_witness :
  4096 * 1036 + 1 < SFS_MAX_FILE_SIZE ∧
  sfs_io_nolock no_errors 100 1000 (4096 * 1036) 1 true (set_din_blocks 100 1036 (example_sfs 240)) = Panic.
Proof. exact (full_file_write_panics no_errors (set_din_blocks 100 1036 (example_sfs 240)) 100 1000 1 ltac:(done) eq_refl ltac:(done)). Defined.

(** The file 200 has block 3; the file 100 is given block 4. *)
Lemma whole_blocks_overrun_witness :
  ∃ s s', contents s 100 = [0] ∧ sfs_io_nolock no_errors 200 1000 0 8192 true s = Ok ((0, 8192), s') ∧
    fbyte s' 100 0 = s_mem s 5096.
Proof.
  destruct (write_file no_errors (λ _ _, eq_refl) (example_sfs 240) 100 0 0 1)
    as (ret & l & s1 & s & E & W & HB & Hl & Hsm & _ & Ht & Hsz & _); [apply (example_volume 240 eq_refl)..|done|done|done|done|done|]; [by left|].
  destruct (wrote_contents example_files _ s1 s 100 0 0 l (example_volume 240 eq_refl)) as (Hv & _ & _); [by left|done|done|done|done|done|done|].
  assert (bmap s 100 0 = bmap s 200 0 + 1 ∧ contents s 100 = [0] ∧ din_blocks s 100 = 1 ∧ din_blocks s 200 = 1) as (Hmap & Hc & B1 & B2).
  { clear - E. vm_compute in E. by simplify_eq. }
  destruct (whole_blocks_overrun no_errors (λ _ _, eq_refl) example_files s 200 100 1000 Hv)
    as (s' & E' & _ & Hb); [by right|by left|done|by rewrite Ht|by split; [rewrite B2|split; [rewrite B1|]]|].
  exists s, s'. split; [done|]. split; [done|]. by apply (Hb 0).
Defined.
