(* ===== verification/SfsDir.v ===== *)
(** * The simple file system: directories

    A directory is a file with one entry per block: the number of an inode, 0 for an
    empty slot, and a name.  [sfs_dirent_search_nolock], [sfs_dirent_findino_nolock]
    and [sfs_getdirentry_sub_nolock] of kern/fs/sfs/sfs_inode.c find what a search of
    the list of entries finds. *)

From S2P Require Import Prelude ListH CString Bitmap Vmm Vfs Disk Proc Sfs SfsProofs.

(** The entries [ents] of the directory [n]. *)
Record dir_ok (s : sfst) (n : Z) (ents : list (Z * list Z)) : Prop := DirOk {
  do_vol : vol_ok s;
  do_file : file_ok s n;
  do_type : din_type s n = SFS_TYPE_DIR;
  do_slots : din_blocks s n = Z.of_nat (length ents);
  do_entry : ∀ i ino nm, ents !! i = Some (ino, nm) →
    le32 (disk s (bmap s n (Z.of_nat i))) 0 = ino ∧ cstr (disk s (bmap s n (Z.of_nat i))) 4 nm ∧
    Z.of_nat (length nm) ≤ SFS_MAX_FNAME_LEN;
}.

(** [s] with other contents of the entry buffer. *)
Definition scratch (entry : Z) (s s' : sfst) : Prop :=
  ∃ m, s' = set_s_mem m s ∧ ∀ p, ¬ entry ≤ p < entry + entry_bytes → m p = s_mem s p.

Lemma scratch_refl entry s : scratch entry s s.
Proof. exists (s_mem s). by rewrite set_s_mem_id. Qed.

Lemma scratch_trans entry s s1 s2 : scratch entry s s1 → scratch entry s1 s2 → scratch entry s s2.
Proof.
  intros (m1 & -> & H1) (m2 & -> & H2). exists m2. split; [done|]. intros p Hp. rewrite H2 by done. by apply H1.
Qed.

Lemma dir_ok_scratch entry s s' n ents : scratch entry s s' → dir_ok s n ents → dir_ok s' n ents.
Proof.
  intros (m & -> & _) [H1 H2 H3 H4 H5]. split; try done; [by apply (vol_ok_same s)|by apply (file_ok_same s)].
Qed.

Lemma cstr_frame m m' a l : (∀ p, a ≤ p ≤ a + Z.of_nat (length l) → m' p = m p) → cstr m a l → cstr m' a l.
Proof.
  intros Hm [Hb Hl]. split; [|done]. eapply bytes_at_frame; [|done]. intros p Hp. apply Hm. rewrite length_app in Hp. simpl in Hp. lia.
Qed.

Lemma bytes_at_copy m m' a a' l :
  (∀ k, 0 ≤ k < Z.of_nat (length l) → m' (a' + k) = m (a + k)) → bytes_at m a l → bytes_at m' a' l.
Proof.
  revert a a'. induction l as [|c l IH]; intros a a' Hk; [done|]. simpl in Hk |- *. intros [Hc Hl]. split.
  - rewrite <-Hc. specialize (Hk 0 ltac:(lia)). by rewrite !Z.add_0_r in Hk.
  - apply (IH (a + 1)); [|done]. intros k Hr. specialize (Hk (k + 1) ltac:(lia)).
    by replace (a' + 1 + k) with (a' + (k + 1)) by lia; replace (a + 1 + k) with (a + (k + 1)) by lia.
Qed.

Section sfs.
Context (dev_ret : Z → bool → Z).
Hypothesis Hdev : ∀ b w, dev_ret b w = 0.

Lemma dirent_read_spec s n ents i ino nm entry :
  dir_ok s n ents → ents !! i = Some (ino, nm) →
  ∃ s', sfs_dirent_read_nolock dev_ret n (Z.of_nat i) entry s = Ok (0, s') ∧ scratch entry s s' ∧
    e_ino entry s' = ino ∧ cstr (s_mem s') (e_name entry) nm.
Proof.
  intros [Hv Hf Ht Hn He] Hi. destruct (He i ino nm Hi) as (Hino & Hnm & Hlen). pose proof (lookup_lt_Some _ _ _ Hi) as Hlt.
  unfold sfs_dirent_read_nolock. rewrite bind_asserts.
  2: { rewrite Ht, Hn. destruct (Z.leb_spec 0 (Z.of_nat i)), (Z.ltb_spec (Z.of_nat i) (Z.of_nat (length ents))); lia || done. }
  assert (0 ≤ Z.of_nat i < din_blocks s n) as Hr by lia.
  rewrite (bind_ok _ _ _ _ _ (load_existing dev_ret Hdev s n _ Hv Hf Hr)). cbn [Z.eqb negb].
  pose proof (fo_used _ _ Hf _ Hr) as Hu. pose proof Hu as [Hbr _]. set (b := bmap s n (Z.of_nat i)) in *.
  rewrite (bind_ok _ _ _ _ _ (assert_inuse_spec s b Hv Hu)).
  rewrite (bind_ok _ _ _ _ _ (rbuf_spec dev_ret Hdev s entry 260 b 0 Hbr ltac:(lia) ltac:(lia))). cbn [Z.eqb negb].
  unfold on_s_mem, e_name. change SFS_MAX_FNAME_LEN with 255 in *.
  erewrite bind_ok by (apply zoom_ok; unfold put; reflexivity).
  set (m1 := blit entry 0 260 (disk s b) (s_mem s)). set (m2 := upd (entry + 4 + 255) 0 m1).
  assert (∀ k, 0 ≤ k < 259 → m2 (entry + k) = disk s b k) as Hcopy.
  { intros k Hk. unfold m2. rewrite upd_ne by lia. unfold m1. rewrite blit_range, decide_True by lia. f_equal. lia. }
  eexists. split; [reflexivity|]. split; [|split].
  - exists m2. split; [done|]. intros p Hp. unfold m2. change entry_bytes with 260 in Hp. rewrite upd_ne by lia.
    unfold m1. by rewrite blit_range, decide_False by lia.
  - unfold e_ino. rewrite <-Hino. change (le32 m2 entry = le32 (disk s b) 0). unfold le32.
    rewrite <-(Z.add_0_r entry) at 1. by rewrite !Hcopy by lia.
  - destruct Hnm as [Hb Hl]. split; [|done]. change (bytes_at m2 (entry + 4) (nm ++ [0])).
    apply bytes_at_app in Hb as [Hb1 Hb2]. apply bytes_at_app. split.
    + eapply bytes_at_copy; [|exact Hb1]. intros k Hk. replace (entry + 4 + k) with (entry + (4 + k)) by lia. apply Hcopy. lia.
    + cbn in Hb2 |- *. split; [|done]. destruct Hb2 as [Hb2 _]. destruct (decide (Z.of_nat (length nm) = 255)) as [->|].
      * unfold m2. by rewrite upd_eq.
      * replace (entry + 4 + Z.of_nat (length nm)) with (entry + (4 + Z.of_nat (length nm))) by lia. by rewrite Hcopy by lia.
Qed.

(** Searching the slots from [i] on is searching the entries from [i] on. *)
Lemma search_loop_spec k fuel s n ents i nm name entry empty :
  dir_ok s n ents → cstr (s_mem s) name nm → (name + Z.of_nat (length nm) < entry ∨ entry + entry_bytes ≤ name) →
  (length nm < fuel)%nat → (i + k = length ents)%nat →
  ∃ empty' s', scratch entry s s' ∧
    search_loop dev_ret fuel k n name entry (Z.of_nat i) empty s =
      Ok (match list_find (λ e, e.1 ≠ 0 ∧ nm = e.2) (drop i ents) with
          | Some (j, (ino, _)) => (0, ino, Z.of_nat (i + j), empty')
          | None => (- E_NOENT, 0, 0, empty')
          end, s').
Proof.
  revert s i empty. induction k as [|k IH]; intros s i empty Hd Hc Hap Hfu Hk; cbn [search_loop].
  { exists empty, s. split; [apply scratch_refl|]. by rewrite drop_ge by lia. }
  destruct (lookup_lt_is_Some_2 ents i ltac:(lia)) as [[ino nm'] Hi]. rewrite (drop_S _ _ _ Hi).
  destruct (dirent_read_spec s n ents i ino nm' entry Hd Hi) as (s1 & E & Hs & Hino & Hnm').
  rewrite (bind_ok _ _ _ _ _ E). cbn [Z.eqb negb]. rewrite bind_gets, Hino.
  pose proof (dir_ok_scratch _ _ _ _ _ Hs Hd) as Hd1.
  assert (cstr (s_mem s1) name nm) as Hc1.
  { destruct Hs as (m & -> & Hm). eapply cstr_frame; [|done]. intros p Hp. apply Hm. change entry_bytes with 260 in *. lia. }
  assert (∀ empty, ∃ empty' s', scratch entry s s' ∧
    search_loop dev_ret fuel k n name entry (Z.of_nat i + 1) empty s1 =
      Ok (match prod_map S id <$> list_find (λ e, e.1 ≠ 0 ∧ nm = e.2) (drop (S i) ents) with
          | Some (j, (ino, _)) => (0, ino, Z.of_nat (i + j), empty')
          | None => (- E_NOENT, 0, 0, empty')
          end, s')) as Hrest.
  { intros empty0. destruct (IH s1 (S i) empty0 Hd1 Hc1 Hap Hfu ltac:(lia)) as (e' & s' & Hs' & E').
    exists e', s'. split; [by eapply scratch_trans|]. replace (Z.of_nat i + 1) with (Z.of_nat (S i)) by lia. rewrite E'.
    destruct (list_find _ (drop (S i) ents)) as [[j [ino' ?]]|]; [|done]. by replace (S i + j)%nat with (i + S j)%nat by lia. }
  cbn [list_find fst snd]. destruct (Z.eqb_spec ino 0) as [->|Hnz].
  { rewrite decide_False by (by intros [? _]). apply Hrest. }
  destruct (strcmp_spec (s_mem s1) name (e_name entry) nm nm' fuel Hc1 Hnm' Hfu) as (r & Er & Hr).
  unfold on_s_mem. rewrite (bind_ok _ _ _ _ _ (zoom_ok s_mem set_s_mem _ s1 _ _ Er)), set_s_mem_id.
  destruct (Z.eqb_spec r 0) as [->|Hne].
  - rewrite decide_True by (split; [done|by apply Hr]). exists empty, s1. split; [done|]. by rewrite Nat.add_0_r.
  - rewrite decide_False by (intros [_ ?]; by apply Hne, Hr). apply Hrest.
Qed.

(** The length of the name is checked first. *)
Lemma search_start s n nm name got fuel :
  cstr (s_mem s) name nm → Z.of_nat (length nm) ≤ SFS_MAX_FNAME_LEN → (length nm < fuel)%nat →
  sfs_dirent_search_nolock dev_ret fuel got n name s =
    match got with
    | None => Ok ((- E_NO_MEM, 0, 0, 0), s)
    | Some entry => search_loop dev_ret fuel (Z.to_nat (din_blocks s n)) n name entry 0 (din_blocks s n) s
    end.
Proof.
  intros Hc Hl Hfu. unfold sfs_dirent_search_nolock, on_s_mem, strlen. change SFS_MAX_FNAME_LEN with 255 in *.
  rewrite (bind_ok _ _ _ _ _ (zoom_ok s_mem set_s_mem _ s _ _ (strlen_loop_spec _ _ nm fuel 0 Hc Hfu ltac:(lia) ltac:(lia)))).
  rewrite set_s_mem_id, bind_assert by (apply Z.leb_le; lia). by destruct got.
Qed.

(** C33. [sfs_dirent_search_nolock] finds the first used entry of the directory with the name, and
    returns its inode and slot, or [-E_NOENT] if there is none; only its buffer changes. *)
Theorem sfs_dirent_search_finds s n ents nm name entry fuel :
  dir_ok s n ents → cstr (s_mem s) name nm → Z.of_nat (length nm) ≤ SFS_MAX_FNAME_LEN →
  (name + Z.of_nat (length nm) < entry ∨ entry + entry_bytes ≤ name) → (length nm < fuel)%nat →
  ∃ empty s', scratch entry s s' ∧
    sfs_dirent_search_nolock dev_ret fuel (Some entry) n name s =
      Ok (match list_find (λ e, e.1 ≠ 0 ∧ nm = e.2) ents with
          | Some (j, (ino, _)) => (0, ino, Z.of_nat j, empty)
          | None => (- E_NOENT, 0, 0, empty)
          end, s').
Proof.
  intros Hd Hc Hl Hap Hfu. rewrite (search_start s n nm) by done. rewrite (do_slots _ _ _ Hd), Nat2Z.id.
  destruct (search_loop_spec (length ents) fuel s n ents 0 nm name entry (Z.of_nat (length ents)) Hd Hc Hap Hfu eq_refl)
    as (e' & s' & Hs & E). rewrite drop_0 in E. by exists e', s'.
Qed.

Lemma findino_loop_spec k s n ents i ino entry :
  dir_ok s n ents → (i + k = length ents)%nat →
  ∃ s', scratch entry s s' ∧
    match list_find (λ e, e.1 = ino) (drop i ents) with
    | Some (j, (_, nm)) => findino_loop dev_ret k n ino entry (Z.of_nat i) s = Ok (0, s') ∧ cstr (s_mem s') (e_name entry) nm
    | None => findino_loop dev_ret k n ino entry (Z.of_nat i) s = Ok (- E_NOENT, s')
    end.
Proof.
  revert s i. induction k as [|k IH]; intros s i Hd Hk; cbn [findino_loop].
  { exists s. split; [apply scratch_refl|]. by rewrite drop_ge by lia. }
  destruct (lookup_lt_is_Some_2 ents i ltac:(lia)) as [[ino' nm'] Hi]. rewrite (drop_S _ _ _ Hi).
  destruct (dirent_read_spec s n ents i ino' nm' entry Hd Hi) as (s1 & E & Hs & Hino & Hnm').
  rewrite (bind_ok _ _ _ _ _ E). cbn [Z.eqb negb]. rewrite bind_gets, Hino. cbn [list_find fst snd].
  destruct (Z.eqb_spec ino' ino) as [->|Hne].
  - rewrite decide_True by done. by exists s1.
  - rewrite decide_False by done. destruct (IH s1 (S i) (dir_ok_scratch _ _ _ _ _ Hs Hd) ltac:(lia)) as (s' & Hs' & E').
    exists s'. split; [by eapply scratch_trans|]. replace (Z.of_nat i + 1) with (Z.of_nat (S i)) by lia.
    by destruct (list_find _ (drop (S i) ents)) as [[j [ino'' ?]]|].
Qed.

(** [sfs_dirent_findino_nolock] leaves the name of the inode in its buffer. *)
Lemma sfs_dirent_findino_finds s n ents ino entry :
  dir_ok s n ents →
  ∃ s', scratch entry s s' ∧
    match list_find (λ e, e.1 = ino) ents with
    | Some (j, (_, nm)) => sfs_dirent_findino_nolock dev_ret n ino entry s = Ok (0, s') ∧ cstr (s_mem s') (e_name entry) nm
    | None => sfs_dirent_findino_nolock dev_ret n ino entry s = Ok (- E_NOENT, s')
    end.
Proof.
  intros Hd. unfold sfs_dirent_findino_nolock. rewrite bind_gets, (do_slots _ _ _ Hd), Nat2Z.id.
  apply (findino_loop_spec (length ents) s n ents 0); [done|lia].
Qed.

(** The names of a directory in order, empty slots left out. *)
Definition dir_names (ents : list (Z * list Z)) : list (list Z) := snd <$> filter (λ e, e.1 ≠ 0) ents.

Lemma getdirentry_loop_spec k s n ents i (slot : nat) entry :
  dir_ok s n ents → (i + k = length ents)%nat →
  ∃ s', scratch entry s s' ∧
    match dir_names (drop i ents) !! slot with
    | Some nm => getdirentry_loop dev_ret k n (Z.of_nat slot) entry (Z.of_nat i) s = Ok (0, s') ∧ cstr (s_mem s') (e_name entry) nm
    | None => getdirentry_loop dev_ret k n (Z.of_nat slot) entry (Z.of_nat i) s = Ok (- E_NOENT, s')
    end.
Proof.
  revert s i slot. induction k as [|k IH]; intros s i slot Hd Hk; cbn [getdirentry_loop].
  { exists s. split; [apply scratch_refl|]. by rewrite drop_ge by lia. }
  destruct (lookup_lt_is_Some_2 ents i ltac:(lia)) as [[ino' nm'] Hi]. rewrite (drop_S _ _ _ Hi).
  destruct (dirent_read_spec s n ents i ino' nm' entry Hd Hi) as (s1 & E & Hs & Hino & Hnm').
  rewrite (bind_ok _ _ _ _ _ E). cbn [Z.eqb negb]. rewrite bind_gets, Hino. unfold dir_names. rewrite filter_cons.
  assert (∀ slot : nat, ∃ s', scratch entry s s' ∧
    match dir_names (drop (S i) ents) !! slot with
    | Some nm => getdirentry_loop dev_ret k n (Z.of_nat slot) entry (Z.of_nat i + 1) s1 = Ok (0, s') ∧ cstr (s_mem s') (e_name entry) nm
    | None => getdirentry_loop dev_ret k n (Z.of_nat slot) entry (Z.of_nat i + 1) s1 = Ok (- E_NOENT, s')
    end) as Hrest.
  { intros sl. destruct (IH s1 (S i) sl (dir_ok_scratch _ _ _ _ _ Hs Hd) ltac:(lia)) as (s' & Hs' & E').
    exists s'. split; [by eapply scratch_trans|]. by replace (Z.of_nat i + 1) with (Z.of_nat (S i)) by lia. }
  destruct (Z.eqb_spec ino' 0) as [->|Hnz]; cbn [negb].
  - rewrite decide_False by (by intros ?). apply Hrest.
  - rewrite decide_True by done. destruct slot as [|slot]; cbn [lookup]; [by exists s1|].
    rewrite (proj2 (Z.eqb_neq _ _)) by lia. replace (Z.of_nat (S slot) - 1) with (Z.of_nat slot) by lia. apply Hrest.
Qed.

(** C34. [sfs_getdirentry_sub_nolock] at [slot] reads the entry that comes [slot]-th among the used
    ones, so successive slots enumerate the names of the directory, and [-E_NOENT] ends
    the enumeration. *)
Theorem sfs_getdirentry_enumerates s n ents (slot : nat) entry :
  dir_ok s n ents →
  ∃ s', scratch entry s s' ∧
    match dir_names ents !! slot with
    | Some nm => sfs_getdirentry_sub_nolock dev_ret n (Z.of_nat slot) entry s = Ok (0, s') ∧ cstr (s_mem s') (e_name entry) nm
    | None => sfs_getdirentry_sub_nolock dev_ret n (Z.of_nat slot) entry s = Ok (- E_NOENT, s')
    end.
Proof.
  intros Hd. unfold sfs_getdirentry_sub_nolock. rewrite bind_gets, (do_slots _ _ _ Hd), Nat2Z.id.
  apply (getdirentry_loop_spec (length ents) s n ents 0); [done|lia].
Qed.
End sfs.

(** ** An example *)

(** The directory 200 with the file 5 under the name "a"; "a" is also at 1000 and "b" at 1002. *)
Definition example_dir : sfst :=
  Sfst (λ p, if p =? 1000 then 97 else if p =? 1002 then 98 else 0)
    (λ b o, if b =? 3 then (if o =? 0 then 5 else if o =? 4 then 97 else 0) else 0) 8 (count_free (example_map 240)) false
    (example_map 240) 0 (λ _, 0) [] (λ _, 0) (λ _, SFS_TYPE_DIR) (λ _, 1) (λ n, if n =? 200 then 1 else 0)
    (λ n i, if ((n =? 200) && (i =? 0))%bool then 3 else 0) (λ _, 0) (λ _, 0) (λ n, n) (λ _, false) (λ _, 1)
    (λ e, ListEntry e e) (λ e, ListEntry e e).

Lemma example_dir_ok : dir_ok example_dir 200 [(5, [97])].
Proof.
  destruct (example_volume 240 eq_refl) as [Hv Hf _ _]. split; try done.
  - by apply (vol_ok_same (example_sfs 240)).
  - apply (file_ok_same (example_sfs 240)); try done. apply Hf. by right.
  - intros [|i] ino nm [= <- <-]. split; [done|]. split; [|done]. split; [done|]. by repeat constructor.
Qed.

Lemma sfs_dirent_search_finds_witness :
  ∃ e1 e2 s1 s2, sfs_dirent_search_nolock no_errors 10 (Some 5000) 200 1000 example_dir = Ok ((0, 5, 0, e1), s1) ∧
    sfs_dirent_search_nolock no_errors 10 (Some 5000) 200 1002 example_dir = Ok ((- E_NOENT, 0, 0, e2), s2).
Proof.
  destruct (sfs_dirent_search_finds no_errors (λ _ _, eq_refl) example_dir 200 _ [97] 1000 5000 10 example_dir_ok)
    as (e1 & s1 & _ & E1); [split; [done|by repeat constructor]|done|by left|simpl; lia|].
  destruct (sfs_dirent_search_finds no_errors (λ _ _, eq_refl) example_dir 200 _ [98] 1002 5000 10 example_dir_ok)
    as (e2 & s2 & _ & E2); [split; [done|by repeat constructor]|done|by left|simpl; lia|].
  exists e1, e2, s1, s2. by split.
Defined.

Lemma sfs_getdirentry_enumerates_witness :
  ∃ s1 s2, sfs_getdirentry_sub_nolock no_errors 200 0 5000 example_dir = Ok (0, s1) ∧ cstr (s_mem s1) 5004 [97] ∧
    sfs_getdirentry_sub_nolock no_errors 200 1 5000 example_dir = Ok (- E_NOENT, s2).
Proof.
  destruct (sfs_getdirentry_enumerates no_errors (λ _ _, eq_refl) example_dir 200 _ 0 5000 example_dir_ok) as (s1 & _ & E1 & C1).
  destruct (sfs_getdirentry_enumerates no_errors (λ _ _, eq_refl) example_dir 200 _ 1 5000 example_dir_ok) as (s2 & _ & E2).
  exists s1, s2. by split_and!.
Defined.
