(* ===== verification/SfsNode.v ===== *)
(** * The simple file system: inodes

    The rest of kern/fs/sfs/sfs_inode.c, over the state of the VFS layer: the cache of
    inodes ([inode_link] and [sin_hash] are the lists the inodes are linked in), the
    operations of directories and files, and their tables.  The file system data
    [fsd] is the volume of Sfs.v; its memory is the kernel memory.  [kmalloc] and
    [kfree] are arguments, and the table [ops] of the kernel that the [vop_]
    macros look operations up in.  [sfs] is the address of the [struct fs]. *)

From S2P Require Import Prelude ListH CString Bitmap Vmm Vfs Disk Proc Sfs.

Notation node_st := (vst sfst).

(** An operation on the volume. *)
Definition on_sfs {A} (m : M sfst A) : M node_st A :=
  zoom (λ s, set_s_mem (k_mem s) (fsd s)) (λ v s, set_k_mem (s_mem v) (set_fsd v s)) m.

Definition vol {A} (f : sfst → A) (s : node_st) : A := f (fsd s).
Definition upd_vol (f : sfst → sfst) : M node_st unit := modify (λ s, set_fsd (f (fsd s)) s).

Definition set_sin_ino (n v : Z) (s : sfst) : sfst :=
  Sfst (s_mem s) (disk s) (sb_blocks s) (sb_unused s) (super_dirty s) (freemap s) (sb_magic s) (sb_info s) (sfs_ptrs s) (din_size s) (din_type s) (din_nlinks s)
    (din_blocks s) (din_direct s) (din_indirect s) (sin_din s) (upd n v (sin_ino s)) (sin_dirty s) (reclaim_count s) (inode_link s) (sin_hash s).
Definition set_sin_din (n v : Z) (s : sfst) : sfst :=
  Sfst (s_mem s) (disk s) (sb_blocks s) (sb_unused s) (super_dirty s) (freemap s) (sb_magic s) (sb_info s) (sfs_ptrs s) (din_size s) (din_type s) (din_nlinks s)
    (din_blocks s) (din_direct s) (din_indirect s) (upd n v (sin_din s)) (sin_ino s) (sin_dirty s) (reclaim_count s) (inode_link s) (sin_hash s).
Definition set_reclaim_count (n v : Z) (s : sfst) : sfst :=
  Sfst (s_mem s) (disk s) (sb_blocks s) (sb_unused s) (super_dirty s) (freemap s) (sb_magic s) (sb_info s) (sfs_ptrs s) (din_size s) (din_type s) (din_nlinks s)
    (din_blocks s) (din_direct s) (din_indirect s) (sin_din s) (sin_ino s) (sin_dirty s) (upd n v (reclaim_count s)) (inode_link s) (sin_hash s).
Definition set_inode_link (v : lheap (entry Z)) (s : sfst) : sfst :=
  Sfst (s_mem s) (disk s) (sb_blocks s) (sb_unused s) (super_dirty s) (freemap s) (sb_magic s) (sb_info s) (sfs_ptrs s) (din_size s) (din_type s) (din_nlinks s)
    (din_blocks s) (din_direct s) (din_indirect s) (sin_din s) (sin_ino s) (sin_dirty s) (reclaim_count s) v (sin_hash s).
Definition set_sin_hash (v : lheap hentry) (s : sfst) : sfst :=
  Sfst (s_mem s) (disk s) (sb_blocks s) (sb_unused s) (super_dirty s) (freemap s) (sb_magic s) (sb_info s) (sfs_ptrs s) (din_size s) (din_type s) (din_nlinks s)
    (din_blocks s) (din_direct s) (din_indirect s) (sin_din s) (sin_ino s) (sin_dirty s) (reclaim_count s) (inode_link s) v.

(** ** [struct sfs_disk_inode] as bytes *)

Definition le16 (f : Z → Z) (off : Z) : Z := f off + 256 * f (off + 1).

(** [din] gets the fields the bytes [f] hold. *)
Definition din_decode (n : Z) (f : Z → Z) (s : sfst) : sfst :=
  Sfst (s_mem s) (disk s) (sb_blocks s) (sb_unused s) (super_dirty s) (freemap s) (sb_magic s) (sb_info s) (sfs_ptrs s)
    (upd n (le32 f 0) (din_size s)) (upd n (le16 f 4) (din_type s)) (upd n (le16 f 6) (din_nlinks s))
    (upd n (le32 f 8) (din_blocks s)) (upd n (λ i, if ((0 <=? i) && (i <? SFS_NDIRECT))%bool then le32 f (12 + 4 * i) else 0) (din_direct s))
    (upd n (le32 f 60) (din_indirect s))
    (sin_din s) (sin_ino s) (sin_dirty s) (reclaim_count s) (inode_link s) (sin_hash s).

(** The byte of the structure at [o]. *)
Definition din_encode (n : Z) (s : sfst) (o : Z) : Z :=
  if o <? 4 then byte32 (din_size s n) o
  else if o <? 6 then byte32 (din_type s n) (o - 4)
  else if o <? 8 then byte32 (din_nlinks s n) (o - 6)
  else if o <? 12 then byte32 (din_blocks s n) (o - 8)
  else if o <? 60 then byte32 (din_direct s n ((o - 12) / 4)) ((o - 12) mod 4)
  else byte32 (din_indirect s n) (o - 60).

Section node.
Context (dev_ret : Z → bool → Z).
Context (kmalloc : Z → M node_st (option Z)) (kfree : Z → M node_st unit).
Context (ops : ops_kind → inode_ops node_st).
(** [fuel] bounds the walks along strings and lists, [dotdot] is the address of the
    string "..". *)
Context (fuel : nat) (sfs dotdot : Z).

(** The sizes of [struct inode] and of the other structures that are allocated. *)
Definition inode_bytes : Z := 120.

(** [vop_info(node, sfs_inode)] *)
Definition sfs_info (node : Z) : M node_st Z :=
  asserts (λ s, bool_decide (i_type s node = inode_type_sfs_inode_info));; mret node.

(** ** The cache *)

Definition sfs_get_ops (type : Z) : M node_st ops_kind :=
  if type =? SFS_TYPE_DIR then mret sfs_node_dirops
  else if type =? SFS_TYPE_FILE then mret sfs_node_fileops
  else panic.

Definition sfs_hash_list (ino : Z) : hentry := HBucket (sin_hashfn ino).

Definition sfs_set_links (sin : Z) : M node_st unit :=
  upd_vol (λ v, set_inode_link (list_add Head (Elem sin) (inode_link v)) v);;
  upd_vol (λ v, set_sin_hash (list_add (sfs_hash_list (sin_ino v sin)) (HProc sin) (sin_hash v)) v).

Definition sfs_remove_links (sin : Z) : M node_st unit :=
  upd_vol (λ v, set_inode_link (list_del (Elem sin) (inode_link v)) v);;
  upd_vol (λ v, set_sin_hash (list_del (HProc sin) (sin_hash v)) v).

(** [din] holds the bytes [f]; the result and [*node_store]. *)
Definition sfs_create_inode (din : Z) (f : Z → Z) (ino : Z) : M node_st (Z * option Z) :=
  got ← kmalloc inode_bytes;
  node ← __alloc_inode got inode_type_sfs_inode_info;
  match node with
  | Some node =>
    k ← sfs_get_ops (le16 f 4);
    inode_init node k (Some sfs);;
    sin ← sfs_info node;
    upd_vol (din_decode sin f);;
    upd_vol (set_sin_din sin din);;
    upd_vol (set_sin_ino sin ino);;
    upd_vol (set_sin_dirty sin false);;
    upd_vol (set_reclaim_count sin 1);;
    mret (0, Some node)
  | None => mret (- E_NO_MEM, None)
  end.

(** The [while] loop of [lookup_sfs_nolock]. *)
Fixpoint cache_walk (fuel : nat) (ino : Z) (le : hentry) : M node_st (option Z) :=
  match fuel with
  | O => out_of_fuel
  | S fuel' =>
    le ← gets (vol (λ v, list_next (sin_hash v) le));
    match le with
    | HBucket _ => mret None
    | HProc sin =>
      i ← gets (vol (λ v, sin_ino v sin));
      if i =? ino then
        r ← inode_ref_inc sin;
        when (r =? 1) (upd_vol (λ v, set_reclaim_count sin (s32 (reclaim_count v sin + 1)) v));;
        mret (Some sin)
      else cache_walk fuel' ino le
    end
  end.

Definition lookup_sfs_nolock (ino : Z) : M node_st (option Z) := cache_walk fuel ino (sfs_hash_list ino).

(** The result and [*node_store]. *)
Definition sfs_load_inode (ino : Z) : M node_st (Z * option Z) :=
  node ← lookup_sfs_nolock ino;
  match node with
  | Some node => mret (0, Some node)
  | None =>
    din ← kmalloc din_bytes;
    match din with
    | None => mret (- E_NO_MEM, None)
    | Some din =>
      on_sfs (assert_inuse ino);;
      on_sfs (buf_check din_bytes 0;; rw_check ino);;
      let ret := dev_ret ino false in
      if negb (ret =? 0) then kfree din;; mret (ret, None)
      else
        f ← gets (vol (λ v, disk v ino));
        assert (negb (le16 f 6 =? 0));;
        '(ret, node) ← sfs_create_inode din f ino;
        match node with
        | Some node =>
          sin ← sfs_info node;
          sfs_set_links sin;;
          mret (0, Some node)
        | None => kfree din;; mret (ret, None)
        end
    end
  end.

(** ** Directories *)

(** The search, with its buffer from [kmalloc]. *)
Definition dirent_search (sin name : Z) : M node_st (Z * Z * Z * Z) :=
  entry ← kmalloc entry_bytes;
  r ← on_sfs (sfs_dirent_search_nolock dev_ret fuel entry sin name);
  (match entry with Some e => kfree e | None => mret tt end);;
  mret r.

(** The result and [*node_store]. *)
Definition sfs_lookup_once (sin name : Z) : M node_st (Z * option Z) :=
  '(ret, ino, _, _) ← dirent_search sin name;
  if ret =? 0 then sfs_load_inode ino else mret (ret, None).

Definition sfs_opendir (node open_flags : Z) : M node_st Z :=
  if negb (Z.land open_flags O_ACCMODE =? O_RDONLY) then mret (- E_ISDIR)
  else if truth (Z.land open_flags O_APPEND) then mret (- E_ISDIR)
  else mret 0.

(** One turn of the [while] loop of [sfs_namefile] after another: [ptr] and [resid]
    when the root has been reached, or the error and the inode to let go. *)
Fixpoint name_walk (turns : nat) (entry node ptr resid : Z) : M node_st (Z * Z * (Z * Z)) :=
  match turns with
  | O => out_of_fuel
  | S turns' =>
    sin ← sfs_info node;
    '(ret, parent) ← sfs_lookup_once sin dotdot;
    match parent with
    | None => mret (ret, node, (ptr, resid))
    | Some parent =>
      ino ← gets (vol (λ v, sin_ino v sin));
      inode_ref_dec ops node;;
      if node =? parent then
        inode_ref_dec ops node;;
        mret (0, node, (ptr, resid))
      else
        sin ← sfs_info parent;
        asserts (vol (λ v, (negb (ino =? sin_ino v sin) && (din_type v sin =? SFS_TYPE_DIR))%bool));;
        ret ← on_sfs (sfs_dirent_findino_nolock dev_ret sin ino entry);
        if negb (ret =? 0) then mret (ret, parent, (ptr, resid))
        else
          len ← on_mem_k (strlen fuel (e_name entry));
          let alen := len + 1 in
          if resid <? alen then mret (- E_NO_MEM, parent, (ptr, resid))
          else
            let ptr := ptr - alen in
            on_mem_k (memcpy ptr (e_name entry) (alen - 1));;
            on_mem_k (put (ptr + (alen - 1)) 47);;
            name_walk turns' entry parent ptr (resid - alen)
    end
  end.

Definition sfs_namefile (node : Z) (iob : iobuf) : M node_st (Z * iobuf) :=
  if io_resid iob <=? 2 then mret (- E_NO_MEM, iob)
  else
    entry ← kmalloc entry_bytes;
    match entry with
    | None => mret (- E_NO_MEM, iob)
    | Some entry =>
      sfs_info node;;
      inode_ref_inc node;;
      '(ret, node, (ptr, resid)) ← name_walk fuel entry node (io_base iob + io_resid iob) (io_resid iob - 2);
      if negb (ret =? 0) then
        inode_ref_dec ops node;;
        kfree entry;;
        mret (ret, iob)
      else
        let alen := io_resid iob - resid - 2 in
        ptr ← on_mem_k (memmove (io_base iob + 1) ptr alen);
        on_mem_k (put (ptr - 1) 47);;
        on_mem_k (put (ptr + alen) 0);;
        iob ← iobuf_skip iob alen;
        kfree entry;;
        mret (0, iob)
    end.

Definition sfs_getdirentry (node : Z) (iob : iobuf) : M node_st (Z * iobuf) :=
  entry ← kmalloc entry_bytes;
  match entry with
  | None => mret (- E_NO_MEM, iob)
  | Some entry =>
    sin ← sfs_info node;
    let offset := io_offset iob in
    if ((offset <? 0) || negb (u64 offset mod sfs_dentry_size =? 0))%bool then kfree entry;; mret (- E_INVAL, iob)
    else
      let slot := s32 (u64 offset / sfs_dentry_size) in
      blocks ← gets (vol (λ v, din_blocks v sin));
      if blocks <? u32 slot then kfree entry;; mret (- E_NOENT, iob)
      else
        ret ← on_sfs (sfs_getdirentry_sub_nolock dev_ret sin slot entry);
        if negb (ret =? 0) then kfree entry;; mret (ret, iob)
        else
          '(ret, _, iob) ← iobuf_move iob (e_name entry) sfs_dentry_size true;
          kfree entry;;
          mret (ret, iob)
  end.

(** [path] is a single name. *)
Definition sfs_lookup (node path : Z) : M node_st (Z * option Z) :=
  c ← on_mem_k (load path);
  assert (negb (c =? 0) && negb (c =? 47))%bool;;
  inode_ref_inc node;;
  sin ← sfs_info node;
  type ← gets (vol (λ v, din_type v sin));
  if negb (type =? SFS_TYPE_DIR) then
    inode_ref_dec ops node;;
    mret (- E_NOTDIR, None)
  else
    '(ret, subnode) ← sfs_lookup_once sin path;
    inode_ref_dec ops node;;
    if negb (ret =? 0) then mret (ret, None) else mret (0, subnode).

(** ** Files *)

Definition sfs_openfile (node open_flags : Z) : M node_st Z := mret 0.

Definition sfs_io (node : Z) (iob : iobuf) (write : bool) : M node_st (Z * iobuf) :=
  sin ← sfs_info node;
  '(ret, alen) ← on_sfs (sfs_io_nolock dev_ret sin (io_base iob) (io_offset iob) (io_resid iob) write);
  iob ← (if negb (alen =? 0) then iobuf_skip iob alen else mret iob);
  mret (ret, iob).

Definition sfs_read (node : Z) (iob : iobuf) : M node_st (Z * iobuf) := sfs_io node iob false.
Definition sfs_write (node : Z) (iob : iobuf) : M node_st (Z * iobuf) := sfs_io node iob true.

(** [vop_tryseek] and [vop_truncate] of the table of files. *)
Definition node_tryseek (node pos : Z) : M node_st Z := sin ← sfs_info node; on_sfs (sfs_tryseek dev_ret sin pos).
Definition node_truncate (node len : Z) : M node_st Z := sin ← sfs_info node; on_sfs (sfs_truncfile dev_ret sin len).

(** ** Both *)

Definition S_IFLNK : Z := 0x3000.

Definition sfs_gettype (node : Z) : M node_st (Z * Z) :=
  sin ← sfs_info node;
  type ← gets (vol (λ v, din_type v sin));
  if type =? SFS_TYPE_DIR then mret (0, S_IFDIR)
  else if type =? SFS_TYPE_FILE then mret (0, S_IFREG)
  else if type =? SFS_TYPE_LINK then mret (0, S_IFLNK)
  else panic.

Definition sfs_fstat (node : Z) : M node_st (Z * stat) :=
  op ← vop_op ops vop_gettype node;
  '(ret, mode) ← op node;
  if negb (ret =? 0) then mret (ret, Stat mode 0 0 0)
  else
    sin ← sfs_info node;
    v ← gets fsd;
    mret (0, Stat mode (din_nlinks v sin) (din_blocks v sin) (din_size v sin)).

Definition sfs_fsync (node : Z) : M node_st Z :=
  sin ← sfs_info node;
  dirty ← gets (vol (λ v, sin_dirty v sin));
  if (dirty : bool) then
    upd_vol (set_sin_dirty sin false);;
    ino ← gets (vol (λ v, sin_ino v sin));
    ret ← on_sfs (wbuf_from dev_ret (din_encode sin) 0 din_bytes ino 0);
    when (negb (ret =? 0)) (upd_vol (set_sin_dirty sin true));;
    mret ret
  else mret 0.

Definition sfs_close (node : Z) : M node_st Z := op ← vop_op ops vop_fsync node; op node.

(** Everything after the inode has been truncated and written back. *)
Definition reclaim_free (node sin : Z) : M node_st Z :=
  sfs_remove_links sin;;
  v ← gets fsd;
  (if din_nlinks v sin =? 0 then
     on_sfs (sfs_block_free (sin_ino v sin));;
     ent ← gets (vol (λ v, din_indirect v sin));
     if negb (ent =? 0) then on_sfs (sfs_block_free ent) else mret tt
   else mret tt);;
  kfree (sin_din v sin);;
  inode_kill node;;
  kfree node;;
  mret 0.

Definition sfs_reclaim (node : Z) : M node_st Z :=
  sin ← sfs_info node;
  asserts (vol (λ v, 0 <? reclaim_count v sin));;
  upd_vol (λ v, set_reclaim_count sin (reclaim_count v sin - 1) v);;
  count ← gets (vol (λ v, reclaim_count v sin));
  ref ← gets (λ s, i_ref s node);
  if (negb (count =? 0) || negb (ref =? 0))%bool then mret (- E_BUSY)
  else
    nlinks ← gets (vol (λ v, din_nlinks v sin));
    ret ← (if nlinks =? 0 then op ← vop_op ops vop_truncate node; op node 0 else mret 0);
    if negb (ret =? 0) then mret ret
    else
      dirty ← gets (vol (λ v, sin_dirty v sin));
      ret ← (if (dirty : bool) then op ← vop_op ops vop_fsync node; op node else mret 0);
      if negb (ret =? 0) then mret ret else reclaim_free node sin.

(** The tables [sfs_node_dirops] and [sfs_node_fileops]. *)
Definition sfs_dirops : inode_ops node_st :=
  InodeOps node_st (Some sfs_opendir) (Some sfs_close) None None (Some sfs_fstat) (Some sfs_fsync) (Some sfs_namefile)
    (Some sfs_getdirentry) (Some sfs_reclaim) (Some sfs_gettype) None None None (Some sfs_lookup) None.
Definition sfs_fileops : inode_ops node_st :=
  InodeOps node_st (Some sfs_openfile) (Some sfs_close) (Some sfs_read) (Some sfs_write) (Some sfs_fstat) (Some sfs_fsync) None
    None (Some sfs_reclaim) (Some sfs_gettype) (Some node_tryseek) (Some node_truncate) None None None.
End node.
