(* ===== verification/SfsNodeProofs.v ===== *)
(** * The simple file system: the cache of inodes, proofs

    [cache_ok] is the invariant of the cache: the inodes in memory are on the list of
    the file system and in the hash list of their number, no number twice, and each
    has the operation table of its type.  [sfs_load_inode] keeps it, and gives the
    same inode for the same number; what [sfs_fsync] writes is what it reads. *)

From S2P Require Import Prelude ListH CString Bitmap Vmm Vfs Disk Proc HashList Sfs SfsProofs SfsNode.

(** ** The allocator, as the cache relies on it *)

(** [kmalloc], for the sizes it serves, and [kfree] return; they change memory only; the
    address that [kmalloc] returns is not that of an inode in use.  [kmalloc] returns
    NULL ([None]) when it has no memory; it panics for the sizes from 4064 to 4079, and
    the length of a large block is an [int]. *)
Definition mem_only (s s' : node_st) : Prop :=
  fsd s' = set_s_mem (s_mem (fsd s')) (fsd s) ∧ s' = set_k_mem (k_mem s') (set_fsd (fsd s') s).

Definition served (sz : Z) : Prop := 0 < sz < 2 ^ 31 ∧ ¬ 4064 ≤ sz < 4080.

Ltac served_size :=
  match goal with |- served ?x => let v := eval vm_compute in x in change (served v); unfold served; lia end.

Class AllocLaws (kmalloc : Z → M node_st (option Z)) (kfree : Z → M node_st unit) : Prop := {
  law_kmalloc : ∀ sz s, served sz → ∃ r s', kmalloc sz s = Ok (r, s') ∧ mem_only s s';
  law_fresh : ∀ sz s p s', kmalloc sz s = Ok (Some p, s') → i_ref s p ≤ 0;
  law_kfree : ∀ p s, ∃ s', kfree p s = Ok (tt, s') ∧ mem_only s s';
}.

(** The same allocator, but a request that it refuses stops the kernel: a run that
    returns with [kmalloc] and panics with [must kmalloc] is one in which an allocation was
    refused. *)
Definition must (kmalloc : Z → M node_st (option Z)) (sz : Z) : M node_st (option Z) :=
  r ← kmalloc sz;
  match r with Some p => mret (Some p) | None => panic end.

Lemma must_some kmalloc sz s p s' : kmalloc sz s = Ok (Some p, s') → must kmalloc sz s = Ok (Some p, s').
Proof. intros E. unfold must. by rewrite (bind_ok _ _ _ _ _ E). Qed.

Lemma must_none kmalloc sz s s' : kmalloc sz s = Ok (None, s') → must kmalloc sz s = Panic.
Proof. intros E. unfold must. by rewrite (bind_ok _ _ _ _ _ E). Qed.

(** ** The cache *)

(** The operation table for a type of inode. *)
Definition table_of (type : Z) : option ops_kind :=
  if type =? SFS_TYPE_DIR then Some sfs_node_dirops
  else if type =? SFS_TYPE_FILE then Some sfs_node_fileops
  else None.

Record cache_ok (s : node_st) (l : list Z) : Prop := CacheOk {
  ca_list : dll (inode_link (fsd s)) Head (Elem <$> l);
  ca_hash : hash_table 1024 (λ n, sin_hashfn (sin_ino (fsd s) n)) (sin_hash (fsd s)) l;
  ca_ino : NoDup (sin_ino (fsd s) <$> l);
  ca_type : ∀ n, n ∈ l → i_type s n = inode_type_sfs_inode_info;
  ca_ops : ∀ n, n ∈ l → table_of (din_type (fsd s) n) = i_ops s n ∧ i_ops s n ≠ None;
  ca_ref : ∀ n, n ∈ l → 0 < i_ref s n < MAX_INODE_COUNT;
  ca_reclaim : ∀ n, n ∈ l → reclaim_count (fsd s) n = 1;
}.

Definition cached (s : node_st) (l : list Z) (ino : Z) : option Z := head (filter (λ n, sin_ino (fsd s) n = ino) l).

Lemma cached_Some s l ino n : cached s l ino = Some n → n ∈ l ∧ sin_ino (fsd s) n = ino.
Proof.
  unfold cached. intros E. assert (n ∈ filter (λ n, sin_ino (fsd s) n = ino) l) as [??]%list_elem_of_filter by (by destruct (filter _ l) as [|x r]; simplify_eq/=; left).
  done.
Qed.

Lemma cached_None s l ino : cached s l ino = None → ino ∉ sin_ino (fsd s) <$> l.
Proof.
  unfold cached. intros E (n & -> & Hn)%list_elem_of_fmap.
  assert (n ∈ filter (λ m, sin_ino (fsd s) m = sin_ino (fsd s) n) l) as H by (by apply list_elem_of_filter).
  destruct (filter _ l) as [|x r]; [|done]. set_solver.
Qed.

Lemma sin_hashfn_range x : 0 ≤ sin_hashfn x < 1024.
Proof. apply (CString.hash32_range x SFS_HLIST_SHIFT). done. Qed.

(** A change that the cache does not notice. *)
Lemma cache_ok_same s s' l :
  inode_link (fsd s') = inode_link (fsd s) → sin_hash (fsd s') = sin_hash (fsd s) → sin_ino (fsd s') = sin_ino (fsd s) →
  din_type (fsd s') = din_type (fsd s) → reclaim_count (fsd s') = reclaim_count (fsd s) →
  i_type s' = i_type s → i_ops s' = i_ops s → (∀ n, n ∈ l → 0 < i_ref s' n < MAX_INODE_COUNT) → cache_ok s l → cache_ok s' l.
Proof. intros E1 E2 E3 E4 E5 E6 E7 Hr [H1 H2 H3 H4 H5 H6 H7]. split; by rewrite ?E1, ?E2, ?E3, ?E4, ?E5, ?E6, ?E7. Qed.

(** [mem_only] steps keep everything but memory. *)
Lemma mem_only_refl s : mem_only s s.
Proof. destruct s. split; cbn; [by rewrite set_s_mem_id|done]. Qed.

Lemma mem_only_fields s s' :
  mem_only s s' → i_ref s' = i_ref s ∧ i_type s' = i_type s ∧ i_ops s' = i_ops s ∧ i_open s' = i_open s.
Proof. intros [_ E]. rewrite E. done. Qed.

Lemma mem_only_fsd s s' : mem_only s s' → ∃ m, fsd s' = set_s_mem m (fsd s).
Proof. intros [E _]. by eexists. Qed.

Lemma mem_only_trans s s1 s2 : mem_only s s1 → mem_only s1 s2 → mem_only s s2.
Proof.
  intros [E1 E2] [E3 E4]. split; [by rewrite E3, E1 at 1|]. rewrite E4 at 1. by rewrite E2 at 1.
Qed.

Lemma cache_ok_mem s s' l : mem_only s s' → cache_ok s l → cache_ok s' l.
Proof.
  intros Hm Hc. destruct (mem_only_fields _ _ Hm) as (E1 & E2 & E3 & _). destruct (mem_only_fsd _ _ Hm) as [m E4].
  apply (cache_ok_same s); rewrite ?E1, ?E2, ?E3, ?E4; try done. apply Hc.
Qed.

Lemma vol_ok_mem s s' : mem_only s s' → vol_ok (fsd s) → vol_ok (fsd s').
Proof. intros [m ->]%mem_only_fsd. by apply vol_ok_same. Qed.

Lemma used_mem s s' b : mem_only s s' → used (fsd s) b → used (fsd s') b.
Proof. by intros [m ->]%mem_only_fsd. Qed.

(** An operation on the volume that changes nothing. *)
Lemma on_sfs_ro {A} (m : M sfst A) s a :
  (∀ v, mem_only s (set_fsd v s) → m v = Ok (a, v)) → ∃ s', on_sfs m s = Ok (a, s') ∧ mem_only s s'.
Proof.
  intros H. unfold on_sfs. eexists. split; [apply zoom_ok, H|].
  - by split.
  - split; [done|]. by destruct s.
Qed.

Section cache.
Context (dev_ret : Z → bool → Z).
Hypothesis Hdev : ∀ b w, dev_ret b w = 0.
Context (kmalloc : Z → M node_st (option Z)) (kfree : Z → M node_st unit) `{!AllocLaws kmalloc kfree}.
Context (fuel : nat) (sfs : Z).

(** The walk along a hash list. *)
Lemma cache_walk_spec s ino i l1 l2 k :
  dll (sin_hash (fsd s)) (HBucket i) (HProc <$> l1 ++ l2) → (length l2 < k)%nat → (∀ n, n ∈ l2 → 0 < i_ref s n < MAX_INODE_COUNT) →
  cache_walk k ino (default (HBucket i) (last (HProc <$> l1))) s =
    Ok (match cached s l2 ino with
        | Some n => (Some n, set_i_ref n (i_ref s n + 1) s)
        | None => (None, s)
        end).
Proof.
  revert l1 k. induction l2 as [|n l2 IH]; intros l1 k Hd Hk Href;
    (destruct k as [|k]; [simpl in Hk; lia|]); cbn [cache_walk]; rewrite bind_gets; rewrite fmap_app in Hd; unfold vol.
  - by rewrite (list_next_cut _ _ _ _ Hd).
  - rewrite (list_next_cut _ _ _ _ Hd). simpl. rewrite bind_gets. unfold cached. rewrite filter_cons.
    destruct (Z.eqb_spec (sin_ino (fsd s) n) ino) as [E|E].
    + rewrite decide_True by done. simpl. pose proof (Href n ltac:(by left)) as Hr. unfold MAX_INODE_COUNT in Hr.
      unfold inode_ref_inc. rewrite bind_assoc, bind_modify, bind_gets. rewrite s32_small by lia.
      cbn [i_ref set_i_ref]. rewrite upd_eq. rewrite (proj2 (Z.eqb_neq _ _)) by lia. done.
    + rewrite decide_False by done.
      replace (HProc n) with (default (HBucket i) (last (HProc <$> l1 ++ [n]))) by by rewrite last_fmap_snoc.
      apply IH; [|simpl in Hk; lia|intros m Hm; apply Href; by right]. by rewrite <-app_assoc, fmap_app.
Qed.

Lemma lookup_spec s l ino :
  cache_ok s l → (length l < fuel)%nat →
  lookup_sfs_nolock fuel ino s =
    Ok (match cached s l ino with
        | Some n => (Some n, set_i_ref n (i_ref s n + 1) s)
        | None => (None, s)
        end).
Proof.
  intros Hc Hf. unfold lookup_sfs_nolock, sfs_hash_list.
  set (b := bucket_of (λ n, sin_hashfn (sin_ino (fsd s) n)) l (sin_hashfn ino)).
  pose proof (cache_walk_spec s ino (sin_hashfn ino) [] b fuel) as Hw.
  change (default _ _) with (HBucket (sin_hashfn ino)) in Hw. rewrite Hw.
  - assert (cached s b ino = cached s l ino) as ->; [|done]. unfold cached, b, bucket_of.
    rewrite list_filter_filter_l; [done|]. by intros x ->.
  - apply (ca_hash _ _ Hc), sin_hashfn_range.
  - unfold b, bucket_of. pose proof (length_filter (λ n, sin_hashfn (sin_ino (fsd s) n) = sin_hashfn ino) l). lia.
  - intros n [_ Hn]%elem_of_bucket_of. by apply (ca_ref _ _ Hc).
Qed.

(** [n] is the inode with the number [ino] as the disk has it, newly read. *)
Record loaded (s s' : node_st) (n ino : Z) : Prop := Loaded {
  ld_ino : sin_ino (fsd s') n = ino;
  ld_size : din_size (fsd s') n = le32 (disk (fsd s) ino) 0;
  ld_type : din_type (fsd s') n = le16 (disk (fsd s) ino) 4;
  ld_nlinks : din_nlinks (fsd s') n = le16 (disk (fsd s) ino) 6;
  ld_blocks : din_blocks (fsd s') n = le32 (disk (fsd s) ino) 8;
  ld_direct : ∀ i, 0 ≤ i < SFS_NDIRECT → din_direct (fsd s') n i = le32 (disk (fsd s) ino) (12 + 4 * i);
  ld_indirect : din_indirect (fsd s') n = le32 (disk (fsd s) ino) 60;
  ld_dirty : sin_dirty (fsd s') n = false;
  ld_ref : i_ref s' n = 1 ∧ i_open s' n = 0;
  ld_ops : i_ops s' n = table_of (din_type (fsd s') n);
  ld_disk : disk (fsd s') = disk (fsd s);
  ld_free : freemap (fsd s') = freemap (fsd s) ∧ sb_blocks (fsd s') = sb_blocks (fsd s) ∧ sb_unused (fsd s') = sb_unused (fsd s);
  ld_other : ∀ m, m ≠ n → i_ref s' m = i_ref s m ∧ i_open s' m = i_open s m ∧
    din_size (fsd s') m = din_size (fsd s) m ∧ din_blocks (fsd s') m = din_blocks (fsd s) m ∧
    din_direct (fsd s') m = din_direct (fsd s) m ∧ din_indirect (fsd s') m = din_indirect (fsd s) m;
}.

(** The disk inode at [ino] can be loaded. *)
Definition inode_block (s : node_st) (ino : Z) : Prop :=
  used (fsd s) ino ∧ le16 (disk (fsd s) ino) 6 ≠ 0 ∧ table_of (le16 (disk (fsd s) ino) 4) ≠ None.

Lemma get_ops_spec type k s : table_of type = Some k → sfs_get_ops type s = Ok (k, s).
Proof.
  unfold table_of, sfs_get_ops. destruct (type =? SFS_TYPE_DIR); [by intros [= ->]|].
  destruct (type =? SFS_TYPE_FILE); [by intros [= ->]|done].
Qed.

Lemma cache_add s l n din f ino k :
  cache_ok s l → n ∉ l → ino ∉ sin_ino (fsd s) <$> l → table_of (le16 f 4) = Some k →
  ∃ s', (sfs_set_links n (set_fsd (set_reclaim_count n 1 (set_sin_dirty n false (set_sin_ino n ino (set_sin_din n din
      (din_decode n f (fsd s)))))) (set_i_ref n (s32 (upd n 0 (i_ref s) n + 1)) (set_i_fs n (Some sfs) (set_i_ops n (Some k)
      (set_i_open n 0 (set_i_ref n 0 (set_i_type n inode_type_sfs_inode_info s)))))))) = Ok (tt, s') ∧
    cache_ok s' (n :: l) ∧ (disk (fsd s) ino = f → loaded s s' n ino).
Proof.
  intros Hc Hn Hino Hk. pose proof Hc as [H1 H2 H3 H4 H5 H6 H7].
  rewrite upd_eq. change (s32 (0 + 1)) with 1.
  unfold sfs_set_links, upd_vol. rewrite bind_modify. eexists. split; [reflexivity|]. split.
  - split; cbn.
    + apply list_add_head; [done|]. intros [|Hx]%elem_of_cons; [done|]. by apply Hn, elem_of_elems.
    + rewrite upd_eq. assert (sfs_hash_list ino = HBucket (sin_hashfn (upd n ino (sin_ino (fsd s)) n))) as -> by (by rewrite upd_eq).
      apply (hash_table_add 1024 (λ m, sin_hashfn (sin_ino (fsd s) m)) (λ m, sin_hashfn (upd n ino (sin_ino (fsd s)) m))); [done|done| |apply sin_hashfn_range].
      intros x Hx. by rewrite upd_ne by (intros ->; done).
    + rewrite upd_eq. apply NoDup_cons. split.
      * intros (m & Em & Hm)%list_elem_of_fmap. apply Hino. rewrite Em, upd_ne by (intros ->; done). apply list_elem_of_fmap. by exists m.
      * erewrite (list_fmap_ext _ (sin_ino (fsd s))); [done|]. intros i x Hx. rewrite upd_ne; [done|]. intros ->. apply Hn. by eapply list_elem_of_lookup_2.
    + intros m [->|Hm]%elem_of_cons; [by rewrite upd_eq|]. rewrite upd_ne by (intros ->; done). by apply H4.
    + intros m [->|Hm]%elem_of_cons; [by rewrite !upd_eq|]. rewrite !upd_ne by (intros ->; done). by apply H5.
    + intros m [->|Hm]%elem_of_cons; [by rewrite upd_eq|]. rewrite !upd_ne by (intros ->; done). by apply H6.
    + intros m [->|Hm]%elem_of_cons; [by rewrite upd_eq|]. rewrite !upd_ne by (intros ->; done). by apply H7.
  - intros <-. split; cbn; rewrite ?upd_eq; try done.
    + intros i Hi. destruct (Z.leb_spec 0 i), (Z.ltb_spec i SFS_NDIRECT); try lia. done.
    + intros m Hm. by rewrite !upd_ne by done.
Qed.

Lemma loaded_mem s s1 s' n ino : mem_only s s1 → loaded s1 s' n ino → loaded s s' n ino.
Proof.
  intros Hm. destruct (mem_only_fields _ _ Hm) as (E1 & E2 & E3 & E4). destruct (mem_only_fsd _ _ Hm) as [m E5].
  intros [H1 H2 H3 H4 H5 H6 H7 H8 H9 H10 H11 H12 H13]. rewrite E5, ?E1, ?E2, ?E3, ?E4 in *. by split.
Qed.

(** [sfs_load_inode] on a well-formed cache: the inode in memory with that number gets one
    more reference, or a new inode is made of the disk block and put into the cache,
    with the operation table of its type; when an allocation is refused it returns
    [-E_NO_MEM] and the cache is as before. *)
Lemma sfs_load_inode_correct s l ino :
  cache_ok s l → (length l < fuel)%nat → vol_ok (fsd s) → inode_block s ino →
  ∃ ret r s', sfs_load_inode dev_ret kmalloc kfree fuel sfs ino s = Ok ((ret, r), s') ∧
    match cached s l ino with
    | Some n => ret = 0 ∧ r = Some n ∧ s' = set_i_ref n (i_ref s n + 1) s
    | None =>
      (ret = 0 ∧ ∃ n, r = Some n ∧ n ∉ l ∧ cache_ok s' (n :: l) ∧ loaded s s' n ino) ∨
      (ret = - E_NO_MEM ∧ r = None ∧ cache_ok s' l ∧ mem_only s s' ∧ sfs_load_inode dev_ret (must kmalloc) kfree fuel sfs ino s = Panic)
    end.
Proof.
  intros Hc Hf Hv (Hu & Hnl & Hty). pose proof (lookup_spec s l ino Hc Hf) as El.
  destruct (cached s l ino) as [n|] eqn:Ec; [unfold sfs_load_inode; rewrite (bind_ok _ _ _ _ _ El); by eexists _, _, _|].
  destruct (law_kmalloc (kfree := kfree) din_bytes s) as ([d|] & s1 & E1 & M1); [served_size| |].
  2: { unfold sfs_load_inode at 1. rewrite (bind_ok _ _ _ _ _ El), (bind_ok _ _ _ _ _ E1). eexists _, _, _. split; [reflexivity|]. right.
    split_and!; try done; [by eapply cache_ok_mem|]. unfold sfs_load_inode. rewrite (bind_ok _ _ _ _ _ El). apply bind_panic. by eapply must_none. }
  destruct (on_sfs_ro (assert_inuse ino) s1 tt) as (s2 & E2 & M2).
  { intros v Hm. apply assert_inuse_spec; [eapply (vol_ok_mem s1 (set_fsd v s1)); [done|]|eapply (used_mem s1 (set_fsd v s1)); [done|]].
    - by eapply vol_ok_mem.
    - by eapply used_mem. }
  pose proof (mem_only_trans _ _ _ M1 M2) as M12.
  destruct (on_sfs_ro (buf_check din_bytes 0;; rw_check ino) s2 tt) as (s3 & E3 & M3).
  { intros v Hm. unfold buf_check. rewrite bind_assert by done. apply rw_check_spec.
    destruct (used_mem s2 (set_fsd v s2) ino Hm) as [Hr _]; [by eapply used_mem|done]. }
  pose proof (mem_only_trans _ _ _ M12 M3) as M. destruct (mem_only_fsd _ _ M) as [m Efs]. set (f := disk (fsd s) ino) in *.
  assert (∀ km, km din_bytes s = Ok (Some d, s1) → sfs_load_inode dev_ret km kfree fuel sfs ino s =
    ('(ret, node) ← sfs_create_inode km sfs d f ino;
     match node with
     | Some node => sin ← sfs_info node; sfs_set_links sin;; mret (0, Some node)
     | None => kfree d;; mret (ret, None)
     end) s3) as Hrun.
  { intros km E. unfold sfs_load_inode. rewrite (bind_ok _ _ _ _ _ El), (bind_ok _ _ _ _ _ E), (bind_ok _ _ _ _ _ E2), (bind_ok _ _ _ _ _ E3), Hdev.
    cbn [Z.eqb negb]. rewrite bind_gets. unfold vol. replace (disk (fsd s3) ino) with f by (unfold f; by rewrite Efs).
    by rewrite bind_assert by (destruct (Z.eqb_spec (le16 f 6) 0); done). }
  rewrite (Hrun _ E1).
  unfold sfs_create_inode. destruct (law_kmalloc (kfree := kfree) inode_bytes s3) as ([n|] & s4 & E4 & M4); [served_size| |].
  2: { rewrite bind_assoc, (bind_ok _ _ _ _ _ E4). cbn [__alloc_inode]. rewrite bind_assoc, bind_ret, bind_ret.
    destruct (law_kfree (kmalloc := kmalloc) d s4) as (s5 & E5 & M5). rewrite (bind_ok _ _ _ _ _ E5). eexists _, _, _. split; [reflexivity|].
    pose proof (mem_only_trans _ _ _ (mem_only_trans _ _ _ M M4) M5) as M'. right. split_and!; try done; [by eapply cache_ok_mem|].
    rewrite (Hrun _ (must_some _ _ _ _ _ E1)). apply bind_panic, bind_panic. by eapply must_none. }
  pose proof (law_fresh (kfree := kfree) _ _ _ _ E4) as Hfresh. pose proof (mem_only_trans _ _ _ M M4) as M'.
  destruct (mem_only_fields _ _ M) as (Eref & _). rewrite Eref in Hfresh.
  assert (n ∉ l) as Hn by (intros Hn; pose proof (ca_ref _ _ Hc n Hn); lia).
  destruct (table_of (le16 f 4)) as [k|] eqn:Ek; [|done]. destruct (mem_only_fsd _ _ M') as [m' Efs'].
  rewrite bind_assoc, (bind_ok _ _ _ _ _ E4). cbn [__alloc_inode]. rewrite !bind_assoc, bind_modify, bind_ret.
  rewrite bind_assoc, (bind_ok _ _ _ _ _ (get_ops_spec _ _ _ Ek)). unfold inode_init, inode_ref_inc, sfs_info, upd_vol.
  msteps. rewrite bind_asserts by (apply bool_decide_eq_true_2; cbn; by rewrite upd_eq).
  msteps. rewrite bind_asserts by (apply bool_decide_eq_true_2; cbn; by rewrite upd_eq). msteps.
  destruct (cache_add s4 l n d f ino k) as (s' & E & Hc' & Hld); [by eapply cache_ok_mem|done| |done|].
  { rewrite Efs'. by apply cached_None. }
  eexists _, _, _. split; [erewrite bind_ok by exact E; reflexivity|]. left. split; [done|]. exists n. split_and!; try done.
  apply (loaded_mem s s4); [done|]. apply Hld. by rewrite Efs'.
Qed.

(** ** Writing an inode back *)

(** The fields fit the on-disk structure. *)
Record din_range (v : sfst) (n : Z) : Prop := DinRange {
  dr_size : 0 ≤ din_size v n < 2 ^ 32;
  dr_type : 0 ≤ din_type v n < 2 ^ 16;
  dr_nlinks : 0 ≤ din_nlinks v n < 2 ^ 16;
  dr_blocks : 0 ≤ din_blocks v n < 2 ^ 32;
  dr_direct : ∀ i, 0 ≤ din_direct v n i < 2 ^ 32;
  dr_indirect : 0 ≤ din_indirect v n < 2 ^ 32;
}.

(** The bytes [f] are the disk inode of [n]. *)
Record stored (f : Z → Z) (v : sfst) (n : Z) : Prop := Stored {
  so_size : le32 f 0 = din_size v n;
  so_type : le16 f 4 = din_type v n;
  so_nlinks : le16 f 6 = din_nlinks v n;
  so_blocks : le32 f 8 = din_blocks v n;
  so_direct : ∀ i, 0 ≤ i < SFS_NDIRECT → le32 f (12 + 4 * i) = din_direct v n i;
  so_indirect : le32 f 60 = din_indirect v n;
}.

Lemma le32_bytes f off v :
  0 ≤ v < 2 ^ 32 → (∀ j, 0 ≤ j < 4 → f (off + j) = byte32 v j) → le32 f off = v.
Proof.
  intros Hv Hf. unfold le32. rewrite <-(Z.add_0_r off) at 1. rewrite !Hf by lia. unfold byte32.
  change (256 ^ 0) with 1. change (256 ^ 1) with 256. change (256 ^ 2) with 65536. change (256 ^ 3) with 16777216.
  Z.to_euclidean_division_equations. lia.
Qed.

Lemma le16_bytes f off v : 0 ≤ v < 2 ^ 16 → (∀ j, 0 ≤ j < 2 → f (off + j) = byte32 v j) → le16 f off = v.
Proof.
  intros Hv Hf. unfold le16. rewrite <-(Z.add_0_r off) at 1. rewrite !Hf by lia. unfold byte32.
  change (256 ^ 0) with 1. change (256 ^ 1) with 256. Z.to_euclidean_division_equations. lia.
Qed.

(** Chooses the branch of [din_encode] for a position. *)
Ltac encode_at :=
  unfold din_encode;
  repeat match goal with |- context [Z.ltb ?a ?b] => destruct (Z.ltb_spec a b); try lia end.

Lemma din_encode_stored f v n :
  din_range v n → (∀ o, 0 ≤ o < din_bytes → f o = din_encode n v o) → stored f v n.
Proof.
  intros [H1 H2 H3 H4 H5 H6] Hf. change din_bytes with 64 in Hf. split.
  - apply le32_bytes; [done|]. intros j Hj. rewrite Hf by lia. encode_at; f_equal; lia.
  - apply le16_bytes; [done|]. intros j Hj. rewrite Hf by lia. encode_at; f_equal; lia.
  - apply le16_bytes; [done|]. intros j Hj. rewrite Hf by lia. encode_at; f_equal; lia.
  - apply le32_bytes; [done|]. intros j Hj. rewrite Hf by lia. encode_at; f_equal; lia.
  - change SFS_NDIRECT with 12. intros i Hi. apply le32_bytes; [done|]. intros j Hj. rewrite Hf by lia. encode_at.
    replace (12 + 4 * i + j - 12) with (j + i * 4) by lia. rewrite Z.div_add, Z.mod_add, Z.div_small, Z.mod_small by lia. done.
  - apply le32_bytes; [done|]. intros j Hj. rewrite Hf by lia. encode_at; f_equal; lia.
Qed.

Lemma on_sfs_ok {A} (m : M sfst A) s a v :
  m (set_s_mem (k_mem s) (fsd s)) = Ok (a, v) → on_sfs m s = Ok (a, set_k_mem (s_mem v) (set_fsd v s)).
Proof. intros H. unfold on_sfs, zoom. by rewrite H. Qed.

(** C13. [sfs_fsync] makes the disk block of an inode say what the inode in memory says, and
    clears its dirty mark; an inode loaded from that block later has the same size,
    type, links and block map.  An inode that is not marked dirty is one whose block says
    that already. *)
Theorem sfs_fsync_roundtrip s n :
  i_type s n = inode_type_sfs_inode_info → used (fsd s) (sin_ino (fsd s) n) → din_range (fsd s) n →
  (sin_dirty (fsd s) n = false → stored (disk (fsd s) (sin_ino (fsd s) n)) (fsd s) n) →
  ∃ s', sfs_fsync dev_ret n s = Ok (0, s') ∧ sin_dirty (fsd s') n = false ∧
    stored (disk (fsd s') (sin_ino (fsd s) n)) (fsd s) n ∧
    (∀ b, b ≠ sin_ino (fsd s) n → disk (fsd s') b = disk (fsd s) b) ∧
    (∀ s'' m, loaded s' s'' m (sin_ino (fsd s) n) →
       din_size (fsd s'') m = din_size (fsd s) n ∧ din_type (fsd s'') m = din_type (fsd s) n ∧
       din_nlinks (fsd s'') m = din_nlinks (fsd s) n ∧ din_blocks (fsd s'') m = din_blocks (fsd s) n ∧
       din_indirect (fsd s'') m = din_indirect (fsd s) n ∧
       ∀ i, 0 ≤ i < SFS_NDIRECT → din_direct (fsd s'') m i = din_direct (fsd s) n i).
Proof.
  intros Ht Hu Hr Hclean. set (ino := sin_ino (fsd s) n) in *.
  assert (∃ s', sfs_fsync dev_ret n s = Ok (0, s') ∧ sin_dirty (fsd s') n = false ∧ stored (disk (fsd s') ino) (fsd s) n ∧
    ∀ b, b ≠ ino → disk (fsd s') b = disk (fsd s) b) as (s' & E & Hd & Hst & Hb).
  { unfold sfs_fsync, sfs_info. rewrite bind_assoc, bind_asserts by (by apply bool_decide_eq_true_2).
    rewrite bind_ret, bind_gets. unfold vol. destruct (sin_dirty (fsd s) n) eqn:Ed; [|by exists s; auto].
    unfold upd_vol. rewrite bind_modify, bind_gets. cbn [fsd set_fsd sin_ino set_sin_dirty]. fold ino.
    erewrite bind_ok by (apply on_sfs_ok, wbuf_from_spec; [done|destruct Hu; done|done|done]).
    cbn [Z.eqb negb when]. eexists. split; [reflexivity|]. split; [cbn; by rewrite upd_eq|]. split.
    - cbn [fsd set_k_mem set_fsd disk set_block set_s_mem set_sin_dirty]. rewrite upd_eq. apply din_encode_stored; [done|].
      intros o Ho. rewrite blit_range, decide_True by (change din_bytes with 64 in *; lia). change din_bytes with 64 in *.
      replace (0 + (o - 0)) with o by lia. done.
    - intros b Hb. cbn. by rewrite upd_ne by done. }
  exists s'. split_and!; try done. intros s'' m [L1 L2 L3 L4 L5 L6 L7 _ _ _ _ _ _]. destruct Hst as [S1 S2 S3 S4 S5 S6].
  split_and!; try congruence. intros i Hi. by rewrite L6, S5.
Qed.
End cache.

(** ** An example *)

(** An allocator that hands out memory from 5000 on, one block after the other, and
    keeps its break at [-1]. *)
Definition brk (s : node_st) : Z := Z.max 0 (k_mem s (-1)).
Definition bump_kmalloc (sz : Z) : M node_st (option Z) :=
  p ← gets (λ s, 5000 + brk s);
  r ← gets (λ s, i_ref s p);
  if r <=? 0 then modify (λ s, set_k_mem (upd (-1) (brk s + sz) (k_mem s)) s);; mret (Some p)
  else mret None.
Definition bump_kfree (p : Z) : M node_st unit := mret tt.

Lemma bump_kmalloc_run sz s r s' : bump_kmalloc sz s = Ok (r, s') →
  (r = Some (5000 + brk s) ∧ i_ref s (5000 + brk s) ≤ 0 ∧ s' = set_k_mem (upd (-1) (brk s + sz) (k_mem s)) s) ∨ (r = None ∧ s' = s).
Proof.
  unfold bump_kmalloc. rewrite !bind_gets. destruct (Z.leb_spec (i_ref s (5000 + brk s)) 0).
  - rewrite bind_modify. intros [= <- <-]. by left.
  - intros [= <- <-]. by right.
Qed.

#[global] Instance bump_alloc_laws : AllocLaws bump_kmalloc bump_kfree.
Proof.
  split.
  - intros sz s _. unfold bump_kmalloc. rewrite !bind_gets. destruct (_ <=? 0); [rewrite bind_modify|]; (eexists _, _; split; [reflexivity|]).
    + by split; destruct s as [? ? ? ? ? ? ? ? ? ? ? ? ? ? []].
    + apply mem_only_refl.
  - intros sz s p s' E. apply bump_kmalloc_run in E as [([= ->] & ? & _)|[[=] _]]. done.
  - intros p s. exists s. split; [done|apply mem_only_refl].
Qed.

(** No inode is in memory; block 3 is the inode of a file of 77 bytes in block 2. *)
Definition example_inode (o : Z) : Z :=
  if o =? 0 then 77 else if o =? 4 then 1 else if o =? 6 then 1 else if o =? 8 then 1 else if o =? 12 then 2 else 0.
Definition example_node (v : sfst) : node_st :=
  Vst (λ _, 0) (λ _, 0) (λ _, inode_type_device_info) (λ _, None) (λ _, None) (λ _, None)
    (λ _ fd, File FD_NONE false false fd 0 None 0) (λ _, 1) (Some 1) None [] None
    (Vmm.Vmm (λ e, ListEntry e e) (λ _, 0) (λ _, 0) (λ _, 0) (λ _, 0) (λ _, None) (λ _, 0) (λ _, 0)) (λ _, 0) v.
Definition example_cache : node_st := example_node (set_block 3 example_inode (example_sfs 240)).

Lemma example_cache_ok v :
  inode_link v = (λ e, ListEntry e e) → sin_hash v = (λ e, ListEntry e e) → cache_ok (example_node v) [].
Proof.
  intros E1 E2. split; cbn; rewrite ?E1, ?E2; try (intros n Hn; by apply not_elem_of_nil in Hn).
  - split; [by repeat constructor; set_solver|done].
  - intros i Hi. split; [by repeat constructor; set_solver|done].
  - apply NoDup_nil_2.
Qed.

Lemma example_cache_vol : vol_ok (fsd example_cache) ∧ inode_block example_cache 3.
Proof.
  split; [by apply (vol_ok_same (example_sfs 240)); [..|apply (example_volume 240 eq_refl)]|]. by vm_compute.
Qed.

Lemma sfs_load_inode_example :
  ∃ s' n, sfs_load_inode no_errors bump_kmalloc bump_kfree 5 1 3 example_cache = Ok ((0, Some n), s') ∧ loaded example_cache s' n 3 ∧
    cache_ok s' [n].
Proof.
  destruct example_cache_vol as [Hv Hb].
  destruct (sfs_load_inode_correct no_errors (λ _ _, eq_refl) bump_kmalloc bump_kfree 5 1 example_cache [] 3)
    as (ret & r & s' & E & H); [by apply example_cache_ok|simpl; lia|done|done|].
  destruct H as [(-> & n & -> & _ & Hc & Hl)|(-> & _ & _ & _ & Hp)]; [by exists s', n|vm_compute in Hp; discriminate Hp].
Qed.

(** The inode 200, changed in memory. *)
Definition example_dirty : node_st :=
  set_i_type 200 inode_type_sfs_inode_info (example_node (set_sin_ino 200 3 (set_sin_dirty 200 true (example_sfs 240)))).

Lemma sfs_fsync_roundtrip_witness :
  ∃ s', sfs_fsync no_errors 200 example_dirty = Ok (0, s') ∧ stored (disk (fsd s') 3) (fsd example_dirty) 200.
Proof.
  destruct (sfs_fsync_roundtrip no_errors (λ _ _, eq_refl) example_dirty 200) as (s' & E & _ & Hs & _).
  - done.
  - by vm_compute.
  - split; cbn; try (unfold SFS_TYPE_FILE; lia). intros i. destruct (i =? 0); cbn; lia.
  - done.
  - by exists s'.
Defined.
