(* ===== verification/SfsLookup.v ===== *)
(** * The simple file system: looking up a name

    [sfs_lookup] of kern/fs/sfs/sfs_inode.c put together from the directory search and
    the cache of inodes: the inode of the entry with the name, with one more
    reference, and the directory as it was. *)

From S2P Require Import Prelude ListH CString Bitmap Vmm Vfs Disk Proc HashList Sfs SfsProofs SfsDir SfsNode SfsNodeProofs.

(** ** Memory that the allocator leaves alone *)

(** [live] addresses hold what others use: [kmalloc] and [kfree] do not store there
    and [kmalloc] does not return them. *)
Class LiveLaws (kmalloc : Z → M node_st (option Z)) (kfree : Z → M node_st unit) (live : Z → Prop) : Prop := {
  live_alloc :: AllocLaws kmalloc kfree;
  law_kmalloc_live : ∀ sz s r s', kmalloc sz s = Ok (r, s') → ∀ p, live p → k_mem s' p = k_mem s p;
  law_apart : ∀ sz s a s', kmalloc sz s = Ok (Some a, s') → ∀ p, a ≤ p < a + sz → ¬ live p;
  law_kfree_live : ∀ a s s', kfree a s = Ok (tt, s') → ∀ p, live p → k_mem s' p = k_mem s p;
}.

(** Nothing but memory that is not live has changed. *)
Definition live_only (live : Z → Prop) (s s' : node_st) : Prop :=
  mem_only s s' ∧ ∀ p, live p → k_mem s' p = k_mem s p.

Lemma live_only_trans live s s1 s2 : live_only live s s1 → live_only live s1 s2 → live_only live s s2.
Proof. intros [M1 L1] [M2 L2]. split; [by eapply mem_only_trans|]. intros p Hp. rewrite L2, L1; done. Qed.

(** The string [nm] at [a] is live. *)
Definition live_cstr (live : Z → Prop) (s : node_st) (a : Z) (nm : list Z) : Prop :=
  cstr (k_mem s) a nm ∧ ∀ p, a ≤ p ≤ a + Z.of_nat (length nm) → live p.

Lemma live_cstr_only live s s' a nm : live_only live s s' → live_cstr live s a nm → live_cstr live s' a nm.
Proof. intros [_ L] [Hc Hl]. split; [|done]. eapply cstr_frame; [|done]. intros p Hp. by apply L, Hl. Qed.

Lemma dir_ok_mem v m n ents : dir_ok v n ents → dir_ok (set_s_mem m v) n ents.
Proof. intros [H1 H2 H3 H4 H5]. split; try done; [by apply (vol_ok_same v)|by apply (file_ok_same v)]. Qed.

(** Entries of the directory, as the search compares them. *)
Definition named (nm : list Z) (ents : list (Z * list Z)) : option Z :=
  (λ x, x.2.1) <$> list_find (λ e : Z * list Z, e.1 ≠ 0 ∧ nm = e.2) ents.

Section lookup.
Context (dev_ret : Z → bool → Z).
Hypothesis Hdev : ∀ b w, dev_ret b w = 0.
Context (kmalloc : Z → M node_st (option Z)) (kfree : Z → M node_st unit) (live : Z → Prop) `{!LiveLaws kmalloc kfree live}.
Context (ops : ops_kind → inode_ops node_st).
Context (fuel : nat) (sfs : Z).

Lemma dirent_search_spec s n ents nm name :
  dir_ok (fsd s) n ents → live_cstr live s name nm → Z.of_nat (length nm) ≤ SFS_MAX_FNAME_LEN → (length nm < fuel)%nat →
  ∃ ret ino x y s', dirent_search dev_ret kmalloc kfree fuel n name s = Ok ((ret, ino, x, y), s') ∧ live_only live s s' ∧
    ((match named nm ents with Some i => ret = 0 ∧ ino = i | None => ret = - E_NOENT end ∧
      dirent_search dev_ret (must kmalloc) kfree fuel n name s = Ok ((ret, ino, x, y), s')) ∨
     (ret = - E_NO_MEM ∧ dirent_search dev_ret (must kmalloc) kfree fuel n name s = Panic)).
Proof.
  intros Hd Hc Hl Hfu. unfold dirent_search.
  destruct (law_kmalloc (kfree := kfree) entry_bytes s) as (r & s1 & E1 & M1); [served_size|]. rewrite (bind_ok _ _ _ _ _ E1).
  assert (live_only live s s1) as L1 by (split; [done|by eapply law_kmalloc_live]).
  pose proof (live_cstr_only _ _ _ _ _ L1 Hc) as [Hc1 Hlive]. destruct (mem_only_fsd _ _ M1) as [m1 Em1].
  set (v := set_s_mem (k_mem s1) (fsd s1)).
  assert (dir_ok v n ents) as Hdv by (unfold v; rewrite Em1; by apply dir_ok_mem, dir_ok_mem).
  pose proof (search_start dev_ret v n nm name r fuel Hc1 Hl Hfu) as Es. destruct r as [entry|].
  - rewrite (do_slots _ _ _ Hdv), Nat2Z.id in Es.
    assert (name + Z.of_nat (length nm) < entry ∨ entry + entry_bytes ≤ name) as Hap.
    { destruct (decide (name + Z.of_nat (length nm) < entry)) as [|H1]; [by left|right]. apply Z.nlt_ge. intros H2.
      pose proof (law_apart _ _ _ _ E1 (Z.max entry name)) as Hn. apply Hn; [change entry_bytes with 260 in *; lia|]. apply Hlive. lia. }
    destruct (search_loop_spec dev_ret Hdev (length ents) fuel v n ents 0 nm name entry (Z.of_nat (length ents)) Hdv Hc1 Hap Hfu eq_refl)
      as (y & v' & (mv & Ev & Hmv) & E). rewrite drop_0 in E. change (Z.of_nat 0) with 0 in E. rewrite E in Es.
    rewrite (bind_ok _ _ _ _ _ (must_some _ _ _ _ _ E1)), !(bind_ok _ _ _ _ _ (on_sfs_ok _ _ _ _ Es)). set (s2 := set_k_mem _ _).
    assert (live_only live s1 s2) as L2.
    { split; [subst v'; split; [done|by destruct s1]|]. intros p Hp. cbn. subst v'. cbn. apply Hmv. intros Hr. by apply (law_apart _ _ _ _ E1 p). }
    destruct (law_kfree (kmalloc := kmalloc) entry s2) as (s3 & E3 & M3). rewrite !(bind_ok _ _ _ _ _ E3).
    assert (live_only live s2 s3) as L3 by (split; [done|by eapply law_kfree_live]).
    assert (live_only live s s3) as L by (eapply live_only_trans; [|done]; by eapply live_only_trans).
    unfold named. destruct (list_find _ ents) as [[j [ino nm']]|]; eexists _, _, _, _, _; split_and!; try done; by left.
  - rewrite (bind_ok _ _ _ _ _ (on_sfs_ok _ _ _ _ Es)), bind_ret. eexists _, _, _, _, _. split; [reflexivity|]. split.
    + eapply live_only_trans; [done|]. split; [split; [done|by destruct s1]|done].
    + right. split; [done|]. apply bind_panic. by eapply must_none.
Qed.

(** Dropping a reference that is not the last. *)
Lemma ref_dec_more s n : 1 < i_ref s n → inode_ref_dec ops n s = Ok (i_ref s n - 1, set_i_ref n (i_ref s n - 1) s).
Proof.
  intros Hr. unfold inode_ref_dec. rewrite bind_asserts by (apply Z.ltb_lt; lia). rewrite bind_modify, bind_gets.
  cbn [i_ref set_i_ref]. rewrite upd_eq, (proj2 (Z.eqb_neq _ _)) by lia. done.
Qed.

(** What a lookup of the inode [ino] leaves: one more reference to it, and the cache
    with it. *)
Record found (s s' : node_st) (l : list Z) (ino n : Z) : Prop := Found {
  fd_ino : sin_ino (fsd s') n = ino;
  fd_cache : ∃ l', cache_ok s' l' ∧ n ∈ l' ∧ (l' = l ∨ l' = n :: l);
  fd_ref : i_ref s' n = (if decide (n ∈ l) then i_ref s n + 1 else 1);
  fd_other : ∀ m, m ≠ n → i_ref s' m = i_ref s m;
}.

Lemma cache_ok_refs s s' l :
  fsd s' = fsd s → i_type s' = i_type s → i_ops s' = i_ops s → (∀ n, n ∈ l → 0 < i_ref s' n < MAX_INODE_COUNT) →
  cache_ok s l → cache_ok s' l.
Proof. intros E1 E2 E3 Hr. apply cache_ok_same; rewrite ?E1; done. Qed.

(** [s1] is [s] with one more reference to [node], and other memory. *)
Record held (s s1 : node_st) (node : Z) : Prop := Held {
  he_fsd : ∃ m, fsd s1 = set_s_mem m (fsd s);
  he_type : i_type s1 = i_type s;
  he_ops : i_ops s1 = i_ops s;
  he_ref : ∀ m, i_ref s1 m = i_ref s m + (if decide (m = node) then 1 else 0);
}.

Lemma held_cache s s1 node l :
  held s s1 node → cache_ok s l → (∀ n, n ∈ l → i_ref s n + 2 < MAX_INODE_COUNT) → cache_ok s1 l.
Proof.
  intros [[m Em] E2 E3 Hr] Hc Hmax. apply (cache_ok_same s); rewrite ?Em, ?E2, ?E3; try done. intros n Hn. rewrite Hr.
  pose proof (ca_ref _ _ Hc n Hn). pose proof (Hmax n Hn). case_decide; lia.
Qed.

(** The references when [node] is let go again. *)
Lemma held_release s s1 node : held s s1 node → ∀ m, i_ref (set_i_ref node (i_ref s1 node - 1) s1) m = i_ref s m.
Proof.
  intros [_ _ _ Hr] m. cbn. destruct (decide (node = m)) as [->|Hne].
  - rewrite upd_eq, Hr, decide_True by done. lia.
  - rewrite upd_ne, Hr, decide_False by congruence. lia.
Qed.

(** Loading the inode while the directory is held. *)
Lemma load_found s s1 l node ino :
  cache_ok s l → (length l < fuel)%nat → (∀ n, n ∈ l → i_ref s n + 2 < MAX_INODE_COUNT) → node ∈ l → vol_ok (fsd s) → inode_block s ino →
  held s s1 node →
  ∃ ret r s', sfs_load_inode dev_ret kmalloc kfree fuel sfs ino s1 = Ok ((ret, r), s') ∧
    let s'' := set_i_ref node (i_ref s' node - 1) s' in
    1 < i_ref s' node ∧
    ((ret = 0 ∧ ∃ n, r = Some n ∧ found s s'' l ino n) ∨
     (ret = - E_NO_MEM ∧ r = None ∧ sfs_load_inode dev_ret (must kmalloc) kfree fuel sfs ino s1 = Panic ∧
      cache_ok s'' l ∧ ∀ m, i_ref s'' m = i_ref s m)).
Proof.
  intros Hc Hf Hmax Hnode Hv Hb Hh. pose proof (held_cache _ _ _ _ Hh Hc Hmax) as Hc1. pose proof Hh as [[m1 Em] E2 E3 Hr1].
  pose proof (ca_ref _ _ Hc node Hnode) as Hrn. pose proof (Hmax node Hnode) as Hmn.
  assert (i_ref s1 node = i_ref s node + 1) as Er1 by (by rewrite Hr1, decide_True).
  destruct (sfs_load_inode_correct dev_ret Hdev kmalloc kfree fuel sfs s1 l ino Hc1 Hf) as (ret & r & s' & E & H).
  { rewrite Em. by apply (vol_ok_same (fsd s)). }
  { unfold inode_block. by rewrite Em. }
  assert (cached s1 l ino = cached s l ino) as Ecs by (unfold cached; by rewrite Em). rewrite Ecs in H.
  exists ret, r, s'. split; [done|].
  destruct (cached s l ino) as [n|] eqn:Ec.
  - apply cached_Some in Ec as [Hn Hino]. destruct H as (-> & -> & ->).
    assert (∀ m, i_ref (set_i_ref n (i_ref s1 n + 1) s1) m = i_ref s1 m + (if decide (m = n) then 1 else 0)) as Href.
    { intros m. cbn. unfold upd. repeat case_decide; subst; try done; lia. }
    split; [rewrite Href, Er1; case_decide; lia|]. left. split; [done|]. exists n. split; [done|].
    set (s2 := set_i_ref n _ s1) in *. set (s3 := set_i_ref node _ s2).
    assert (∀ m, i_ref s3 m = i_ref s m + (if decide (m = n) then 1 else 0)) as Href3.
    { intros m. cbn [i_ref s3 set_i_ref]. destruct (decide (node = m)) as [<-|Hne].
      - rewrite upd_eq, Href, Er1. lia.
      - rewrite upd_ne by done. rewrite Href, Hr1, (decide_False (P := m = node)) by congruence. lia. }
    split.
    + change (fsd s3) with (fsd s1). by rewrite Em.
    + exists l. split; [|by split; [|left]]. apply (cache_ok_refs s1); try done. intros m Hm. rewrite Href3.
      pose proof (ca_ref _ _ Hc m Hm). pose proof (Hmax m Hm). case_decide; lia.
    + by rewrite Href3, !decide_True.
    + intros m Hm. rewrite Href3, decide_False by done. lia.
  - destruct H as [(-> & n & -> & Hn & Hc' & Hld)|(-> & -> & Hc' & M & Hno)].
    + assert (node ≠ n) as Hne by (intros ->; done).
      destruct (ld_other _ _ _ _ Hld node Hne) as (Ern & _). rewrite Ern, Er1. split; [lia|]. left. split; [done|]. exists n. split; [done|].
      split; [by apply (ld_ino _ _ _ _ Hld)| | |].
      * exists (n :: l). split; [|split; [by left|by right]]. apply (cache_ok_refs s'); try done. intros m Hm. cbn.
        pose proof (ca_ref _ _ Hc' m Hm) as Hrm. destruct (decide (node = m)) as [->|]; [rewrite upd_eq; lia|by rewrite upd_ne].
      * rewrite decide_False by done. cbn. rewrite upd_ne by done. apply (ld_ref _ _ _ _ Hld).
      * intros m Hm. cbn. destruct (decide (node = m)) as [->|]; [rewrite upd_eq; lia|]. rewrite upd_ne by done.
        destruct (ld_other _ _ _ _ Hld m Hm) as (-> & _). rewrite Hr1, decide_False by congruence. lia.
    + destruct (mem_only_fields _ _ M) as (Er & Et & Eo & _). destruct (mem_only_fsd _ _ M) as [m' Em'].
      assert (held s s' node) as Hh' by (split; [by eexists; rewrite Em', Em|by rewrite Et|by rewrite Eo|by rewrite Er]).
      rewrite Er, Er1. split; [lia|]. right. split_and!; try done.
      * apply (cache_ok_refs s'); try done. intros m Hm. rewrite <-Er1, <-Er, (held_release _ _ _ Hh'). by apply (ca_ref _ _ Hc).
      * intros m. rewrite <-Er1, <-Er. by apply held_release.
Qed.

(** [sfs_lookup] up to the search, for any allocator. *)
Lemma sfs_lookup_run km s l node ents c nm path :
  cache_ok s l → node ∈ l → i_ref s node + 2 < MAX_INODE_COUNT → dir_ok (fsd s) node ents → live_cstr live s path (c :: nm) → c ≠ 47 →
  sfs_lookup dev_ret km kfree ops fuel sfs node path s =
    ('(ret, ino, _, _) ← dirent_search dev_ret km kfree fuel node path;
     '(ret, subnode) ← (if ret =? 0 then sfs_load_inode dev_ret km kfree fuel sfs ino else mret (ret, None));
     inode_ref_dec ops node;;
     if negb (ret =? 0) then mret (ret, None) else mret (0, subnode)) (set_i_ref node (i_ref s node + 1) s).
Proof.
  intros Hc Hnode Hmn Hd Hlc Hc47. pose proof (ca_ref _ _ Hc node Hnode) as Hrn.
  pose proof Hlc as [[[Hc0 _] Hpos] _]. cbn [app] in Hc0. apply Forall_cons in Hpos as [Hpos _].
  unfold sfs_lookup, on_mem_k. erewrite bind_ok by (apply zoom_ok; unfold load; reflexivity).
  replace (set_k_mem (k_mem s) s) with s by (by destruct s). rewrite Hc0.
  rewrite bind_assert by (destruct (Z.eqb_spec c 0), (Z.eqb_spec c 47); lia || done).
  unfold inode_ref_inc. rewrite bind_assoc, bind_modify, bind_gets. unfold MAX_INODE_COUNT in *. rewrite s32_small by lia.
  set (s1 := set_i_ref node (i_ref s node + 1) s). unfold sfs_info.
  rewrite bind_assoc, bind_asserts by (apply bool_decide_eq_true_2; by apply (ca_type _ _ Hc)). rewrite bind_ret, bind_gets. unfold vol.
  change (fsd s1) with (fsd s). rewrite (do_type _ _ _ Hd), Z.eqb_refl. cbn [negb]. unfold sfs_lookup_once. rewrite bind_assoc.
  unfold mbind, M_bind. by destruct (dirent_search _ _ _ _ _ _ _) as [[[[[? ?] ?] ?] ?]| |].
Qed.

(** C11. [sfs_lookup] of a name of at most 255 bytes in a directory: the inode of the first entry
    with that name, from the cache or newly loaded, with one more reference;
    [-E_NOENT] if there is none; [-E_NO_MEM] only when the allocator refused a request
    in this very call, which then panics with the allocator that may not refuse.
    The reference to the directory that is taken for the search is given back, no other
    reference changes, and the cache stays well-formed: each inode in it has the
    operation table of its type. *)
Theorem sfs_lookup_correct s l node ents c nm path :
  cache_ok s l → (length l < fuel)%nat → (∀ n, n ∈ l → i_ref s n + 2 < MAX_INODE_COUNT) → node ∈ l →
  dir_ok (fsd s) node ents → (∀ ino nm', (ino, nm') ∈ ents → ino ≠ 0 → inode_block s ino) →
  live_cstr live s path (c :: nm) → c ≠ 47 → Z.of_nat (length (c :: nm)) ≤ SFS_MAX_FNAME_LEN → (length (c :: nm) < fuel)%nat →
  ∃ ret r s', sfs_lookup dev_ret kmalloc kfree ops fuel sfs node path s = Ok ((ret, r), s') ∧
    (match named (c :: nm) ents with
     | Some ino => ret = 0 ∧ ∃ n, r = Some n ∧ found s s' l ino n
     | None => ret = - E_NOENT ∧ r = None ∧ cache_ok s' l ∧ ∀ m, i_ref s' m = i_ref s m
     end ∨
     (ret = - E_NO_MEM ∧ r = None ∧ sfs_lookup dev_ret (must kmalloc) kfree ops fuel sfs node path s = Panic ∧
      cache_ok s' l ∧ ∀ m, i_ref s' m = i_ref s m)).
Proof.
  intros Hc Hf Hmax Hnode Hd Hents Hlc Hc47 Hlen Hfu. pose proof (ca_ref _ _ Hc node Hnode) as Hrn. pose proof (Hmax node Hnode) as Hmn.
  rewrite (sfs_lookup_run kmalloc s l node ents c nm path), (sfs_lookup_run (must kmalloc) s l node ents c nm path) by done.
  set (s1 := set_i_ref node (i_ref s node + 1) s).
  destruct (dirent_search_spec s1 node ents (c :: nm) path Hd Hlc Hlen Hfu) as (ret & ino & x & y & s2 & E & [M L] & Hret).
  rewrite (bind_ok _ _ _ _ _ E). destruct (mem_only_fields _ _ M) as (Er & Et & Eo & _).
  assert (held s s2 node) as Hh.
  { split; [by apply (mem_only_fsd s1 s2)|done|done|]. intros m. rewrite Er. cbn. unfold upd. repeat case_decide; subst; try done; lia. }
  assert (i_ref s2 node = i_ref s node + 1) as Er2 by (by rewrite (he_ref _ _ _ Hh), decide_True).
  destruct (Z.eqb_spec ret 0) as [->|Hne].
  - destruct (named (c :: nm) ents) as [i|] eqn:En; [|destruct Hret as [[? _]|[? _]]; done]. destruct Hret as [[[_ ->] Em]|[? _]]; [|done].
    assert (inode_block s i) as Hb.
    { unfold named in En. destruct (list_find _ ents) as [[j [i' nm']]|] eqn:El; [|done]. simpl in En. simplify_eq.
      apply list_find_Some in El as (Hl & [Hz _] & _). apply (Hents _ nm'); [by eapply list_elem_of_lookup_2|done]. }
    destruct (load_found s s2 l node i Hc Hf Hmax Hnode (do_vol _ _ _ Hd) Hb Hh) as (ret & r & s3 & E3 & Hr3 & H).
    rewrite (bind_ok _ _ _ _ _ E3), (bind_ok _ _ _ _ _ (ref_dec_more s3 node Hr3)).
    destruct H as [(-> & n & -> & Hfd)|(-> & -> & Hno & Hc' & Href)]; (eexists _, _, _; split; [reflexivity|]).
    + left. split; [done|]. by exists n.
    + right. split_and!; try done. rewrite (bind_ok _ _ _ _ _ Em). by apply bind_panic.
  - rewrite bind_ret, (bind_ok _ _ _ _ _ (ref_dec_more s2 node ltac:(lia))). cbn beta iota. rewrite (proj2 (Z.eqb_neq _ _) Hne). cbn [negb].
    eexists _, _, _. split; [reflexivity|]. pose proof (held_release _ _ _ Hh) as Hrel.
    assert (cache_ok (set_i_ref node (i_ref s2 node - 1) s2) l) as Hc'.
    { apply (cache_ok_refs s2); try done; [|by apply (held_cache s s2 node)]. intros m Hm. rewrite Hrel. by apply (ca_ref _ _ Hc). }
    destruct Hret as [[H _]|[-> Hno]].
    + left. destruct (named (c :: nm) ents); [by destruct H|]. subst ret. done.
    + right. split_and!; try done. by apply bind_panic.
Qed.
End lookup.

(** ** An example *)

#[global] Instance bump_live_laws : LiveLaws bump_kmalloc bump_kfree (λ p, 0 ≤ p < 2000).
Proof.
  split; [apply _| | |].
  - intros sz s r s' [(_ & _ & ->)|[_ ->]]%bump_kmalloc_run p Hp; [|done]. cbn. by rewrite upd_ne by lia.
  - intros sz s a s' [([= ->] & _)|[[=] _]]%bump_kmalloc_run p Hp. unfold brk in Hp. lia.
  - intros a s s' [= <-]. done.
Qed.

(** The directory 200 is in the cache as inode 1; its entry "a" is the inode in block 5. *)
Definition lookup_vol : sfst :=
  Sfst (λ _, 0) (λ b o, if b =? 3 then (if o =? 0 then 5 else if o =? 4 then 97 else 0) else if b =? 5 then example_inode o else 0)
    8 (count_free (example_map 208)) false (example_map 208) 0 (λ _, 0) [] (λ _, 0) (λ _, SFS_TYPE_DIR) (λ _, 1) (λ n, if n =? 200 then 1 else 0)
    (λ n i, if ((n =? 200) && (i =? 0))%bool then 3 else 0) (λ _, 0) (λ _, 0) (λ n, 1) (λ _, false) (λ _, 1)
    (list_add Head (Elem 200) (λ e, ListEntry e e)) (list_add (HBucket (sin_hashfn 1)) (HProc 200) (λ e, ListEntry e e)).
Definition lookup_node : node_st :=
  Vst (λ n, if n =? 200 then 1 else 0) (λ _, 0) (λ _, inode_type_sfs_inode_info) (λ _, Some sfs_node_dirops) (λ _, None) (λ _, None)
    (λ _ fd, File FD_NONE false false fd 0 None 0) (λ _, 1) (Some 1) None [] None
    (Vmm.Vmm (λ e, ListEntry e e) (λ _, 0) (λ _, 0) (λ _, 0) (λ _, 0) (λ _, None) (λ _, 0) (λ _, 0)) (λ p, if p =? 1000 then 97 else 0) lookup_vol.

Lemma lookup_cache_ok : cache_ok lookup_node [200].
Proof.
  split; try (intros n [->|Hn%not_elem_of_nil]%elem_of_cons; [|done]; by vm_compute).
  - apply (list_add_head _ Head []); [|set_solver]. split; [by repeat constructor; set_solver|done].
  - apply (hash_table_add 1024 (λ _, sin_hashfn 1) (λ n, sin_hashfn (sin_ino lookup_vol n)) _ []); [|set_solver|done|apply sin_hashfn_range].
    intros i Hi. split; [by repeat constructor; set_solver|done].
  - by repeat constructor; set_solver.
Qed.

Lemma lookup_dir_ok : dir_ok lookup_vol 200 [(5, [97])].
Proof.
  destruct (example_volume 208 eq_refl) as [Hv Hf _ _]. split; try done.
  - by apply (vol_ok_same (example_sfs 208)).
  - apply (file_ok_same (example_sfs 208)); try done. apply Hf. by right.
  - intros [|i] ino nm [= <- <-]. split; [done|]. split; [|done]. split; [done|]. by repeat constructor.
Qed.

Lemma sfs_lookup_correct_witness :
  ∃ s' n, sfs_lookup no_errors bump_kmalloc bump_kfree (λ _, InodeOps _ None None None None None None None None None None None None None None None)
      5 1 200 1000 lookup_node = Ok ((0, Some n), s') ∧ found lookup_node s' [200] 5 n.
Proof.
  set (ops := λ _ : ops_kind, InodeOps node_st None None None None None None None None None None None None None None None).
  destruct (sfs_lookup_correct no_errors (λ _ _, eq_refl) bump_kmalloc bump_kfree (λ p, 0 ≤ p < 2000) ops 5 1 lookup_node [200] 200 [(5, [97])] 97 [] 1000)
    as (ret & r & s' & E & H).
  - apply lookup_cache_ok.
  - simpl. lia.
  - intros n [->|Hn%not_elem_of_nil]%elem_of_cons; [|done]. done.
  - by left.
  - apply lookup_dir_ok.
  - intros ino nm' [[= -> ->]|Hn%not_elem_of_nil]%elem_of_cons; [|done]. by vm_compute.
  - split; [split; [done|by repeat constructor]|]. intros p Hp. simpl in Hp. lia.
  - done.
  - done.
  - simpl. lia.
  - destruct H as [(-> & n & -> & Hf)|(_ & _ & Hp & _)]; [exists s', n; by split|]. vm_compute in Hp. discriminate Hp.
Defined.
