(* ===== verification/SfsMount.v ===== *)
(** * The simple file system: mounting and writing back

    kern/fs/sfs/sfs_fs.c and kern/fs/sfs/sfs.c over the state of SfsNode.v.  The super
    block is block 0, the free map starts at block 2; [sfs_ptrs] are the allocations
    of a mounted file system, in the order [sfs_unmount] frees them.  [d_blocks] and
    [d_blocksize] are the fields of the device.  Messages on the console are left
    out. *)

From S2P Require Import Prelude ListH CString Bitmap Vmm Vfs Disk Proc Sfs SfsNode.

Definition SFS_MAGIC : Z := 0x2f8dbe2a.
Definition SFS_MAX_INFO_LEN : Z := 31.
Definition SFS_BLKBITS : Z := SFS_BLKSIZE * 8.
Definition SFS_HLIST_SIZE : Z := 1024.
Definition sfs_freemap_bits (blocks : Z) : Z := u32 (ROUNDUP blocks SFS_BLKBITS).
Definition sfs_freemap_blocks (blocks : Z) : Z := u32 (ROUNDUP_DIV blocks SFS_BLKBITS).
(** The sizes of [struct fs], [struct bitmap] and [list_entry_t]. *)
Definition fs_bytes : Z := 216.
Definition bitmap_bytes : Z := 16.
Definition list_entry_bytes : Z := 16.

Definition set_super (magic blocks unused : Z) (info : Z → Z) (s : sfst) : sfst :=
  Sfst (s_mem s) (disk s) blocks unused (super_dirty s) (freemap s) magic info (sfs_ptrs s) (din_size s) (din_type s) (din_nlinks s)
    (din_blocks s) (din_direct s) (din_indirect s) (sin_din s) (sin_ino s) (sin_dirty s) (reclaim_count s) (inode_link s) (sin_hash s).
Definition set_super_dirty (v : bool) (s : sfst) : sfst :=
  Sfst (s_mem s) (disk s) (sb_blocks s) (sb_unused s) v (freemap s) (sb_magic s) (sb_info s) (sfs_ptrs s) (din_size s) (din_type s) (din_nlinks s)
    (din_blocks s) (din_direct s) (din_indirect s) (sin_din s) (sin_ino s) (sin_dirty s) (reclaim_count s) (inode_link s) (sin_hash s).
Definition set_sfs_ptrs (v : list Z) (s : sfst) : sfst :=
  Sfst (s_mem s) (disk s) (sb_blocks s) (sb_unused s) (super_dirty s) (freemap s) (sb_magic s) (sb_info s) v (din_size s) (din_type s) (din_nlinks s)
    (din_blocks s) (din_direct s) (din_indirect s) (sin_din s) (sin_ino s) (sin_dirty s) (reclaim_count s) (inode_link s) (sin_hash s).

(** ** The super block and the free map as bytes *)

(** [struct sfs_super]: magic, blocks, unused_blocks, info; the rest of the block is
    cleared. *)
Definition super_encode (s : sfst) (o : Z) : Z :=
  if o <? 4 then byte32 (sb_magic s) o
  else if o <? 8 then byte32 (sb_blocks s) (o - 4)
  else if o <? 12 then byte32 (sb_unused s) (o - 8)
  else if o <? 44 then sb_info s (o - 12)
  else 0.

(** The block of the map whose first word is [ix]. *)
Definition words_encode (ix : Z) (b : bitmap) (o : Z) : Z := byte32 (map b (ix + o / 4)) (o mod 4).

Definition load_words (ix : Z) (f : Z → Z) (b : bitmap) : bitmap :=
  Bitmap (nbits b) (nwords b) (λ w, if ((ix <=? w) && (w <? ix + 1024))%bool then le32 f ((w - ix) * 4) else map b w).

Section mount.
Context (dev_ret : Z → bool → Z) (d_blocks d_blocksize : Z).
Context (kmalloc : Z → M node_st (option Z)) (kfree : Z → M node_st unit).
Context (ops : ops_kind → inode_ops node_st).
Context (fuel : nat).

(** ** sfs_io.c: writing back *)

Definition sync_super : M node_st Z :=
  asserts (vol (λ v, 0 <? sb_blocks v));;
  let ret := dev_ret SFS_BLKN_SUPER true in
  when (ret =? 0) (upd_vol (λ v, set_block SFS_BLKN_SUPER (super_encode v) v));;
  mret ret.

Fixpoint write_map (n : nat) (blkno ix : Z) : M node_st Z :=
  match n with
  | O => mret 0
  | S n' =>
    on_sfs (rw_check blkno);;
    let ret := dev_ret blkno true in
    if negb (ret =? 0) then mret ret
    else
      upd_vol (λ v, set_block blkno (words_encode ix (freemap v)) v);;
      write_map n' (u32 (blkno + 1)) (ix + 1024)
  end.

Definition sync_freemap : M node_st Z :=
  blocks ← gets (vol sb_blocks);
  write_map (Z.to_nat (sfs_freemap_blocks blocks)) SFS_BLKN_FREEMAP 0.

(** The walk over the inodes of [sfs_sync]. *)
Fixpoint sync_walk (fuel : nat) (le : entry Z) : M node_st unit :=
  match fuel with
  | O => out_of_fuel
  | S fuel' =>
    le ← gets (vol (λ v, list_next (inode_link v) le));
    match le with
    | Head => mret tt
    | Elem node => op ← vop_op ops vop_fsync node; op node;; sync_walk fuel' (Elem node)
    end
  end.

Definition sfs_sync : M node_st Z :=
  sync_walk fuel Head;;
  dirty ← gets (vol super_dirty);
  if (dirty : bool) then
    upd_vol (set_super_dirty false);;
    ret ← sync_super;
    if negb (ret =? 0) then upd_vol (set_super_dirty true);; mret ret
    else
      ret ← sync_freemap;
      if negb (ret =? 0) then upd_vol (set_super_dirty true);; mret ret
      else mret 0
  else mret 0.

Definition sfs_get_root (sfs : Z) : M node_st (option Z) :=
  '(ret, node) ← sfs_load_inode dev_ret kmalloc kfree fuel sfs SFS_BLKN_ROOT;
  if negb (ret =? 0) then panic else mret node.

Fixpoint kfree_all (l : list Z) : M node_st unit :=
  match l with
  | [] => mret tt
  | p :: l' => kfree p;; kfree_all l'
  end.

Definition sfs_unmount : M node_st Z :=
  empty ← gets (vol (λ v, list_empty (inode_link v) Head));
  if negb empty then mret (- E_BUSY)
  else
    asserts (vol (λ v, negb (super_dirty v)));;
    l ← gets (vol sfs_ptrs);
    kfree_all l;;
    mret 0.

(** At most 32 attempts to write everything back. *)
Fixpoint cleanup_loop (n : nat) : M node_st unit :=
  match n with
  | O => mret tt
  | S n' => ret ← sfs_sync; if ret =? 0 then mret tt else cleanup_loop n'
  end.

Definition sfs_cleanup : M node_st unit := cleanup_loop 32.

(** ** Mounting *)

(** The return value and the block read. *)
Definition sfs_init_read (blkno : Z) : M node_st (Z * (Z → Z)) :=
  f ← gets (vol (λ v, disk v blkno));
  mret (dev_ret blkno false, f).

(** [nblks] blocks from [blkno] on into the words from [ix] on. *)
Fixpoint init_freemap_loop (nblks : nat) (blkno ix : Z) : M node_st Z :=
  match nblks with
  | O => mret 0
  | S n' =>
    '(ret, f) ← sfs_init_read blkno;
    if negb (ret =? 0) then mret ret
    else
      upd_vol (λ v, set_freemap (load_words ix f (freemap v)) v);;
      init_freemap_loop n' (u32 (blkno + 1)) (ix + 1024)
  end.

Definition sfs_init_freemap (blkno nblks : Z) : M node_st Z :=
  asserts (vol (λ v, 4 * nwords (freemap v) =? nblks * SFS_BLKSIZE));;
  init_freemap_loop (Z.to_nat nblks) blkno 0.

(** [bitmap_create] with its two allocations: the map, the structure and their
    addresses. *)
Definition new_bitmap (nbits : Z) : M node_st (option (bitmap * list Z)) :=
  assert (negb (nbits =? 0) && (nbits <? u64 (nbits + WORD_BITS)))%bool;;
  b ← kmalloc bitmap_bytes;
  match b with
  | None => mret None
  | Some b =>
    w ← kmalloc (u64 (4 * u32 (ROUNDUP_DIV nbits WORD_BITS)));
    match w with
    | None => kfree b;; mret None
    | Some w =>
      match bitmap_create true true nbits with
      | Ok (Some bm) => mret (Some (bm, [w; b]))
      | _ => panic
      end
    end
  end.

Fixpoint hash_init (n : nat) (h : lheap hentry) : lheap hentry :=
  match n with
  | O => h
  | S n' => list_init (HBucket (Z.of_nat n')) (hash_init n' h)
  end.

(** How many of the [n] bits from [i] on are set. *)
Fixpoint count_unused (n : nat) (i unused : Z) : M node_st Z :=
  match n with
  | O => mret unused
  | S n' =>
    t ← on_sfs (on_freemap (bitmap_test i));
    count_unused n' (u32 (i + 1)) (if t : bool then u32 (unused + 1) else unused)
  end.

(** From the allocation of the free map on. *)
Definition mount_freemap (fs buf hash : Z) : M node_st (Z * option Z) :=
  blocks ← gets (vol sb_blocks);
  let freemap_size_nbits := sfs_freemap_bits blocks in
  r ← new_bitmap freemap_size_nbits;
  match r with
  | None => kfree_all [hash; buf; fs];; mret (- E_NO_MEM, None)
  | Some (bm, mine) =>
    upd_vol (set_freemap bm);;
    ret ← sfs_init_freemap SFS_BLKN_FREEMAP (sfs_freemap_blocks blocks);
    if negb (ret =? 0) then kfree_all (mine ++ [hash; buf; fs]);; mret (ret, None)
    else
      unused_blocks ← count_unused (Z.to_nat freemap_size_nbits) 0 0;
      asserts (vol (λ v, unused_blocks =? sb_unused v));;
      upd_vol (set_super_dirty false);;
      upd_vol (λ v, set_inode_link (list_init Head (inode_link v)) v);;
      upd_vol (set_sfs_ptrs (mine ++ [buf; hash; fs]));;
      mret (0, Some fs)
  end.

(** The result and [*fs_store]. *)
Definition sfs_do_mount (dev : Z) : M node_st (Z * option Z) :=
  if negb (d_blocksize =? SFS_BLKSIZE) then mret (- E_NA_DEV, None)
  else
    fs ← kmalloc fs_bytes;
    match fs with
    | None => mret (- E_NO_MEM, None)
    | Some fs =>
      buf ← kmalloc SFS_BLKSIZE;
      match buf with
      | None => kfree fs;; mret (- E_NO_MEM, None)
      | Some buf =>
        '(ret, f) ← sfs_init_read SFS_BLKN_SUPER;
        if negb (ret =? 0) then kfree_all [buf; fs];; mret (ret, None)
        else if negb (le32 f 0 =? SFS_MAGIC) then kfree_all [buf; fs];; mret (- E_INVAL, None)
        else if d_blocks <? le32 f 4 then kfree_all [buf; fs];; mret (- E_INVAL, None)
        else
          upd_vol (set_super (le32 f 0) (le32 f 4) (le32 f 8) (λ o, if o =? SFS_MAX_INFO_LEN then 0 else f (12 + o)));;
          hash ← kmalloc (list_entry_bytes * SFS_HLIST_SIZE);
          match hash with
          | None => kfree_all [buf; fs];; mret (- E_NO_MEM, None)
          | Some hash =>
            upd_vol (λ v, set_sin_hash (hash_init (Z.to_nat SFS_HLIST_SIZE) (sin_hash v)) v);;
            mount_freemap fs buf hash
          end
      end
    end.

Definition sfs_mount (devname : Z) : M node_st Z := vfs_mount fuel devname sfs_do_mount.

(** [disk0] is the address of the string "disk0". *)
Definition sfs_init (disk0 : Z) : M node_st unit :=
  ret ← sfs_mount disk0;
  if negb (ret =? 0) then panic else mret tt.

Definition sfs_fsops : fs_ops node_st := FsOps node_st (λ _, sfs_sync) sfs_get_root (λ _, sfs_unmount) (λ _, sfs_cleanup).
End mount.
