(* ===== verification/SfsMountProofs.v ===== *)
(** * The simple file system: mounting, proofs

    [image] says that the blocks of a disk hold a super block and a free map.
    [sfs_sync] writes such an image of the mounted volume, and [sfs_do_mount] reads
    it: what is mounted is what was written back, and the invariants of the free map
    and of the cache hold. *)

From S2P Require Import Prelude ListH CString Bitmap Vmm Vfs Disk Proc HashList Sfs SfsProofs SfsNode SfsNodeProofs SfsMount.

(** The blocks of the free map of a volume of [blocks] blocks. *)
Definition map_blocks (blocks : Z) : Z := (blocks + 32767) / 32768.

(** The disk [d] holds a volume with this super block and free map. *)
Record image (d : Z → Z → Z) (blocks unused : Z) (info : Z → Z) (fm : bitmap) : Prop := Image {
  im_magic : le32 (d 0) 0 = SFS_MAGIC;
  im_blocks : le32 (d 0) 4 = blocks;
  im_unused : le32 (d 0) 8 = unused;
  im_info : ∀ o, 0 ≤ o < 31 → d 0 (12 + o) = info o;
  im_map : ∀ k w, 0 ≤ k < map_blocks blocks → 0 ≤ w < 1024 → le32 (d (2 + k)) (w * 4) = map fm (1024 * k + w);
}.

(** The free map fits the volume: block 0 and what is beyond the volume are in use,
    and the number of free blocks is the one of the super block. *)
Record map_fits (blocks unused : Z) (fm : bitmap) : Prop := MapFits {
  mf_blocks : 0 < blocks < 2 ^ 32 - 65536;
  mf_words : ∀ ix, 0 ≤ map fm ix < 2 ^ 32;
  mf_nbits : nbits fm = 32768 * map_blocks blocks;
  mf_nwords : nwords fm = 1024 * map_blocks blocks;
  mf_free : ∀ i, 0 ≤ i < nbits fm → is_free fm i = true → 0 < i < blocks;
  mf_unused : count_free fm = unused;
}.

Lemma map_blocks_bounds blocks : 0 < blocks < 2 ^ 32 - 65536 →
  blocks ≤ 32768 * map_blocks blocks < blocks + 32768 ∧ 0 < map_blocks blocks.
Proof.
  intros Hb. unfold map_blocks. pose proof (Z.div_mod (blocks + 32767) 32768 ltac:(lia)).
  pose proof (Z.mod_pos_bound (blocks + 32767) 32768 ltac:(lia)). lia.
Qed.

Lemma freemap_blocks_val blocks : 0 < blocks < 2 ^ 32 - 65536 → sfs_freemap_blocks blocks = map_blocks blocks.
Proof.
  intros Hb. pose proof (map_blocks_bounds blocks Hb). unfold sfs_freemap_blocks, ROUNDUP_DIV.
  change (u64 SFS_BLKBITS) with 32768. rewrite u64_small by lia. replace (blocks + 32768 - 1) with (blocks + 32767) by lia.
  fold (map_blocks blocks). apply u32_small. lia.
Qed.

Lemma freemap_bits_val blocks : 0 < blocks < 2 ^ 32 - 65536 → sfs_freemap_bits blocks = 32768 * map_blocks blocks.
Proof.
  intros Hb. pose proof (map_blocks_bounds blocks Hb). unfold sfs_freemap_bits. change SFS_BLKBITS with 32768.
  rewrite ROUNDUP_spec by lia. replace (blocks + 32768 - 1) with (blocks + 32767) by lia. fold (map_blocks blocks).
  rewrite u32_small by lia. lia.
Qed.

Lemma map_fits_vol v :
  map_fits (sb_blocks v) (sb_unused v) (freemap v) → vol_ok v.
Proof.
  intros [Hb Hw Hn Hnw Hf Hu]. pose proof (map_blocks_bounds _ Hb). split; [split|..].
  - lia.
  - rewrite Hnw, Hn. apply Z.div_unique_pos with 31; lia.
  - done.
  - intros i Hi. lia.
  - lia.
  - done.
  - done.
Qed.

(** ** Writing back *)

(** Only blocks of the disk and memory have changed. *)
Record blocks_only (v v' : sfst) : Prop := BlocksOnly {
  bo_blocks : sb_blocks v' = sb_blocks v;
  bo_unused : sb_unused v' = sb_unused v;
  bo_magic : sb_magic v' = sb_magic v;
  bo_info : sb_info v' = sb_info v;
  bo_free : freemap v' = freemap v;
}.

Lemma blocks_only_trans v v1 v2 : blocks_only v v1 → blocks_only v1 v2 → blocks_only v v2.
Proof. intros [] []. split; congruence. Qed.

Lemma le32_words ix b w :
  0 ≤ w < 1024 → (∀ i, 0 ≤ map b i < 2 ^ 32) → le32 (words_encode ix b) (w * 4) = map b (ix + w).
Proof.
  intros Hw Hm. apply le32_bytes; [done|]. intros j Hj. unfold words_encode.
  replace (w * 4 + j) with (j + w * 4) by lia. by rewrite Z.div_add, Z.mod_add, Z.div_small, Z.mod_small by lia.
Qed.

Section mount.
Context (dev_ret : Z → bool → Z) (d_blocks d_blocksize : Z).
Hypothesis Hdev : ∀ b w, dev_ret b w = 0.
Context (kmalloc : Z → M node_st (option Z)) (kfree : Z → M node_st unit) `{!AllocLaws kmalloc kfree}.
Context (ops : ops_kind → inode_ops node_st).
Context (fuel : nat).

Lemma write_map_spec k blkno ix s :
  0 < blkno → blkno + Z.of_nat k ≤ sb_blocks (fsd s) → sb_blocks (fsd s) < 2 ^ 32 →
  ∃ s', write_map dev_ret k blkno ix s = Ok (0, s') ∧ blocks_only (fsd s) (fsd s') ∧
    ∀ b, disk (fsd s') b = if decide (blkno ≤ b < blkno + Z.of_nat k)
                           then words_encode (ix + 1024 * (b - blkno)) (freemap (fsd s)) else disk (fsd s) b.
Proof.
  revert blkno ix s. induction k as [|k IH]; intros blkno ix s Hb Hle Hlt; cbn [write_map].
  { exists s. split; [done|]. split; [done|]. intros b. by rewrite decide_False by lia. }
  erewrite bind_ok by (apply on_sfs_ok, rw_check_spec; cbn; lia).
  rewrite Hdev. cbn [Z.eqb negb]. unfold upd_vol. rewrite bind_modify. rewrite u32_small by lia.
  set (s1 := set_fsd _ _).
  destruct (IH (blkno + 1) (ix + 1024) s1) as (s' & E & Hbo & Hd); [lia|cbn; lia|cbn; lia|].
  exists s'. split; [done|]. split; [by apply (blocks_only_trans _ (fsd s1))|]. intros b. rewrite Hd. cbn [freemap disk fsd s1 set_fsd set_block set_k_mem set_s_mem].
  destruct (decide (b = blkno)) as [->|Hne].
  - rewrite decide_False, decide_True, upd_eq by lia. f_equal. lia.
  - rewrite upd_ne by done. repeat case_decide; try lia; [|done]. f_equal. lia.
Qed.

Lemma sync_super_spec s :
  0 < sb_blocks (fsd s) →
  ∃ s', sync_super dev_ret s = Ok (0, s') ∧ blocks_only (fsd s) (fsd s') ∧
    disk (fsd s') = upd 0 (super_encode (fsd s)) (disk (fsd s)).
Proof.
  intros Hb. unfold sync_super. rewrite bind_asserts by (unfold vol; apply Z.ltb_lt; done). cbv zeta. rewrite Hdev.
  eexists. split; [reflexivity|]. by split.
Qed.

(** The super block and the map that the two calls write are an image. *)
Lemma encoded_image v d :
  map_fits (sb_blocks v) (sb_unused v) (freemap v) → sb_magic v = SFS_MAGIC → 0 ≤ sb_unused v < 2 ^ 32 →
  d 0 = super_encode v → (∀ k, 0 ≤ k < map_blocks (sb_blocks v) → d (2 + k) = words_encode (1024 * k) (freemap v)) →
  image d (sb_blocks v) (sb_unused v) (sb_info v) (freemap v).
Proof.
  intros [Hb Hw Hn Hnw Hf Hu] Hmag Hun H0 Hmap.
  assert (∀ off x, (∀ j, 0 ≤ j < 4 → super_encode v (off + j) = byte32 x j) → 0 ≤ x < 2 ^ 32 → le32 (d 0) off = x) as Hle.
  { intros off x Hx Hr. rewrite H0. by apply le32_bytes. }
  split.
  - rewrite <-Hmag. apply Hle; [|by rewrite Hmag]. intros j Hj. unfold super_encode. destruct (Z.ltb_spec (0 + j) 4); [f_equal; lia|lia].
  - apply Hle; [|lia]. intros j Hj. unfold super_encode. destruct (Z.ltb_spec (4 + j) 4), (Z.ltb_spec (4 + j) 8); try lia. f_equal. lia.
  - apply Hle; [|lia]. intros j Hj. unfold super_encode.
    destruct (Z.ltb_spec (8 + j) 4), (Z.ltb_spec (8 + j) 8), (Z.ltb_spec (8 + j) 12); try lia. f_equal. lia.
  - intros o Ho. rewrite H0. unfold super_encode.
    destruct (Z.ltb_spec (12 + o) 4), (Z.ltb_spec (12 + o) 8), (Z.ltb_spec (12 + o) 12), (Z.ltb_spec (12 + o) 44); try lia. f_equal. lia.
  - intros k w Hk Hwr. rewrite Hmap by done. by apply le32_words.
Qed.

(** [sfs_sync] once the inodes have been written back. *)
Lemma sync_image s :
  super_dirty (fsd s) = true → map_fits (sb_blocks (fsd s)) (sb_unused (fsd s)) (freemap (fsd s)) →
  sb_magic (fsd s) = SFS_MAGIC → 2 + map_blocks (sb_blocks (fsd s)) ≤ sb_blocks (fsd s) →
  list_next (inode_link (fsd s)) Head = Head → (0 < fuel)%nat →
  ∃ s', sfs_sync dev_ret ops fuel s = Ok (0, s') ∧ blocks_only (fsd s) (fsd s') ∧
    image (disk (fsd s')) (sb_blocks (fsd s)) (sb_unused (fsd s)) (sb_info (fsd s)) (freemap (fsd s)) ∧
    ∀ b, 2 + map_blocks (sb_blocks (fsd s)) ≤ b ∨ b = 1 → disk (fsd s') b = disk (fsd s) b.
Proof.
  intros Hd Hfit Hmag Hroom Hempty Hfu. unfold sfs_sync. destruct fuel as [|fu]; [lia|]. cbn [sync_walk].
  rewrite bind_assoc, bind_gets. unfold vol. rewrite Hempty, bind_ret, bind_gets, Hd.
  unfold upd_vol. rewrite bind_modify. set (s0 := set_fsd _ s).
  pose proof (mf_blocks _ _ _ Hfit) as Hbl. pose proof (map_blocks_bounds _ Hbl) as Hmb.
  destruct (sync_super_spec s0) as (s1 & E1 & B1 & D1); [cbn; lia|]. rewrite (bind_ok _ _ _ _ _ E1). cbn [Z.eqb negb].
  unfold sync_freemap. rewrite bind_assoc, bind_gets. unfold vol.
  assert (blocks_only (fsd s) (fsd s1)) as B1' by (by apply (blocks_only_trans _ (fsd s0))).
  rewrite (bo_blocks _ _ B1'), freemap_blocks_val by done. change SFS_BLKN_FREEMAP with 2.
  destruct (write_map_spec (Z.to_nat (map_blocks (sb_blocks (fsd s)))) 2 0 s1) as (s2 & E2 & B2 & D2);
    [lia|rewrite (bo_blocks _ _ B1'); lia|rewrite (bo_blocks _ _ B1'); lia|].
  rewrite (bind_ok _ _ _ _ _ E2). cbn [Z.eqb negb]. exists s2. split; [done|]. split; [by apply (blocks_only_trans _ (fsd s1))|].
  split.
  - apply encoded_image; try done.
    + destruct Hfit as [_ _ Hn _ _ <-]. pose proof (count_free_range (freemap (fsd s)) ltac:(lia)). lia.
    + rewrite D2, decide_False, D1, upd_eq by lia. done.
    + intros k Hk. rewrite D2, decide_True by lia. rewrite (bo_free _ _ B1'). f_equal. lia.
  - intros b Hb. rewrite D2, decide_False, D1, upd_ne by lia. done.
Qed.

(** ** Mounting *)

(** Loading the map from the disk. *)
Lemma init_freemap_spec k blkno ix s :
  0 ≤ blkno → blkno + Z.of_nat k < 2 ^ 32 →
  ∃ s', init_freemap_loop dev_ret k blkno ix s = Ok (0, s') ∧ disk (fsd s') = disk (fsd s) ∧
    sb_blocks (fsd s') = sb_blocks (fsd s) ∧ sb_unused (fsd s') = sb_unused (fsd s) ∧ sb_magic (fsd s') = sb_magic (fsd s) ∧
    sb_info (fsd s') = sb_info (fsd s) ∧ sin_hash (fsd s') = sin_hash (fsd s) ∧
    nbits (freemap (fsd s')) = nbits (freemap (fsd s)) ∧ nwords (freemap (fsd s')) = nwords (freemap (fsd s)) ∧
    (∀ j w, 0 ≤ j < Z.of_nat k → 0 ≤ w < 1024 →
       map (freemap (fsd s')) (ix + 1024 * j + w) = le32 (disk (fsd s) (blkno + j)) (w * 4)) ∧
    (∀ w, w < ix ∨ ix + 1024 * Z.of_nat k ≤ w → map (freemap (fsd s')) w = map (freemap (fsd s)) w).
Proof.
  revert blkno ix s. induction k as [|k IH]; intros blkno ix s Hb Hle; cbn [init_freemap_loop].
  { exists s. split_and!; try done. lia. }
  unfold sfs_init_read. rewrite bind_assoc, bind_gets, bind_ret. rewrite Hdev. cbn [Z.eqb negb]. unfold upd_vol. rewrite bind_modify.
  rewrite u32_small by lia. set (s1 := set_fsd _ s). unfold vol in s1.
  destruct (IH (blkno + 1) (ix + 1024) s1) as (s' & E & H1 & H2 & H3 & H4 & H5 & H6 & H7 & H8 & H9 & H10); [lia|lia|].
  exists s'. split; [done|]. split_and!; try done.
  - intros j w Hj Hw. destruct (decide (j = 0)) as [->|Hne].
    + rewrite H10 by lia. cbn [fsd s1 set_fsd freemap set_freemap load_words map].
      destruct (Z.leb_spec ix (ix + 1024 * 0 + w)), (Z.ltb_spec (ix + 1024 * 0 + w) (ix + 1024)); try lia. cbn [andb].
      replace (blkno + 0) with blkno by lia. f_equal. lia.
    + specialize (H9 (j - 1) w ltac:(lia) Hw). replace (ix + 1024 + 1024 * (j - 1) + w) with (ix + 1024 * j + w) in H9 by lia.
      rewrite H9. replace (blkno + 1 + (j - 1)) with (blkno + j) by lia. done.
  - intros w Hw. rewrite H10 by lia. cbn [fsd s1 set_fsd freemap set_freemap load_words map].
    destruct (Z.leb_spec ix w), (Z.ltb_spec w (ix + 1024)); try lia; done.
Qed.

(** Counting the free blocks. *)
Lemma count_unused_spec k i u s :
  bitmap_wf (freemap (fsd s)) → 0 ≤ i → i + Z.of_nat k ≤ nbits (freemap (fsd s)) → 0 ≤ u → u + Z.of_nat k < 2 ^ 32 →
  ∃ s', count_unused k i u s =
      Ok (u + Z.of_nat (length (filter (λ j, is_free (freemap (fsd s)) j = true) (seqZ i (Z.of_nat k)))), s') ∧ mem_only s s'.
Proof.
  revert i u s. induction k as [|k IH]; intros i u s Hw Hi Hle Hu Hlt; cbn [count_unused].
  { exists s. split; [|apply mem_only_refl]. by rewrite Z.add_0_r. }
  destruct (on_sfs_ro (on_freemap (bitmap_test i)) s (is_free (freemap (fsd s)) i)) as (s1 & E & M).
  { intros v [m Ev]%mem_only_fsd. cbn in Ev. subst v. unfold on_freemap.
    rewrite (zoom_ok freemap set_freemap _ _ _ _ (bitmap_test_spec (freemap (set_s_mem m (fsd s))) i Hw ltac:(cbn; lia))).
    by rewrite set_freemap_id. }
  rewrite (bind_ok _ _ _ _ _ E). destruct (mem_only_fsd _ _ M) as [m Em].
  rewrite (seqZ_cons i) by lia. rewrite filter_cons.
  replace (Z.pred (Z.of_nat (S k))) with (Z.of_nat k) by lia. replace (Z.succ i) with (i + 1) by lia.
  pose proof (wf_nbits _ Hw). rewrite u32_small by lia.
  set (u' := if is_free (freemap (fsd s)) i then _ else _).
  assert (u' = u + (if decide (is_free (freemap (fsd s)) i = true) then 1 else 0)) as Eu.
  { unfold u'. destruct (is_free (freemap (fsd s)) i); [rewrite u32_small by lia|]; case_decide; lia || done. }
  destruct (IH (i + 1) u' s1) as (s' & E' & M'); [by rewrite Em|lia|rewrite Em; cbn; lia|rewrite Eu; case_decide; lia..|].
  exists s'. split; [|by eapply mem_only_trans]. rewrite E', Em. cbn [freemap set_s_mem]. rewrite Eu.
  case_decide; cbn [length]; do 2 f_equal; lia.
Qed.

Lemma hash_init_spec key h : hash_table 1024 key (hash_init (Z.to_nat SFS_HLIST_SIZE) h) [].
Proof.
  intros i Hi. cbn [bucket_of filter list_filter fmap list_fmap].
  assert (∀ k h, (Z.to_nat i < k)%nat → dll (hash_init k h) (HBucket i) []) as Hk.
  { clear h. intros k h. induction k as [|k IH]; intros Hlt; [lia|]. cbn [hash_init].
    destruct (decide (Z.of_nat k = i)) as [->|Hne]; [apply list_init_dll|].
    eapply dll_frame; [|apply IH; lia]. intros x [->|?]%elem_of_cons; [|set_solver]. apply list_init_other. congruence. }
  apply Hk. change SFS_HLIST_SIZE with 1024. lia.
Qed.

Lemma kfree_all_spec l s : ∃ s', kfree_all kfree l s = Ok (tt, s') ∧ mem_only s s'.
Proof.
  revert s. induction l as [|p l IH]; intros s; cbn [kfree_all].
  { exists s. split; [done|apply mem_only_refl]. }
  destruct (law_kfree (kmalloc := kmalloc) p s) as (s1 & E & M). rewrite (bind_ok _ _ _ _ _ E).
  destruct (IH s1) as (s2 & E2 & M2). exists s2. split; [done|by eapply mem_only_trans].
Qed.

Lemma mem_only_disk s s' : mem_only s s' → disk (fsd s') = disk (fsd s).
Proof. by intros [m ->]%mem_only_fsd. Qed.

(** The volume of the image [d] is mounted. *)
Record mounted (d : Z → Z → Z) (blocks unused : Z) (info : Z → Z) (fm : bitmap) (r : option Z) (s' : node_st) : Prop := Mounted {
  mo_fs : r ≠ None;
  mo_disk : disk (fsd s') = d;
  mo_vol : vol_ok (fsd s');
  mo_cache : cache_ok s' [];
  mo_clean : super_dirty (fsd s') = false;
  mo_blocks : sb_blocks (fsd s') = blocks;
  mo_unused : sb_unused (fsd s') = unused;
  mo_info : ∀ o, 0 ≤ o < 31 → sb_info (fsd s') o = info o;
  mo_map : ∀ i, 0 ≤ i < nbits fm → is_free (freemap (fsd s')) i = is_free fm i;
}.

(** The outcome of a mount: the volume, or [-E_NO_MEM] and the disk as it was, and then
    the same run with the allocator that may not refuse, [strict], panics. *)
Definition mount_outcome {A} (strict : res A) (d : Z → Z → Z) (blocks unused : Z) (info : Z → Z) (fm : bitmap) (ret : Z) (r : option Z) (s' : node_st) : Prop :=
  (ret = 0 ∧ mounted d blocks unused info fm r s') ∨
  (ret = - E_NO_MEM ∧ r = None ∧ disk (fsd s') = d ∧ strict = Panic).

Lemma new_bitmap_spec n s :
  0 < n < 2 ^ 32 - 32 → n mod 32768 = 0 →
  (∃ s', new_bitmap kmalloc kfree n s = Ok (None, s') ∧ mem_only s s' ∧ new_bitmap (must kmalloc) kfree n s = Panic) ∨
  (∃ bm mine s', new_bitmap kmalloc kfree n s = Ok (Some (bm, mine), s') ∧ mem_only s s' ∧
     bitmap_wf bm ∧ nbits bm = n ∧ nwords bm = (n + 31) / 32).
Proof.
  intros Hn Hd. unfold new_bitmap. change WORD_BITS with 32.
  rewrite !bind_assert by (rewrite u64_small by lia; destruct (Z.eqb_spec n 0), (Z.ltb_spec n (n + 32)); lia || done).
  destruct (law_kmalloc (kfree := kfree) bitmap_bytes s) as ([b|] & s1 & E1 & M1); [served_size| |]; rewrite (bind_ok _ _ _ _ _ E1).
  2: { left. exists s1. split_and!; [done|done|]. apply bind_panic. by eapply must_none. }
  assert (served (u64 (4 * u32 (ROUNDUP_DIV n 32)))) as Hs.
  { unfold ROUNDUP_DIV. change (u64 32) with 32. pose proof (Z.div_mod n 32768 ltac:(lia)). rewrite (u64_small (_ + _ - _)) by lia.
    replace ((n + 32 - 1) / 32) with (1024 * (n / 32768)) by (apply Z.div_unique_pos with 31; lia). rewrite u32_small, u64_small by lia. unfold served. lia. }
  destruct (law_kmalloc (kfree := kfree) _ s1 Hs) as ([w|] & s2 & E2 & M2); rewrite (bind_ok _ _ _ _ _ E2).
  - right. destruct (bitmap_create_spec n Hn) as (bm & E & Hw & Hnb & _). rewrite E. exists bm, [w; b], s2. split_and!; try done.
    + by eapply mem_only_trans.
    + by rewrite <-Hnb, (wf_nwords _ Hw).
  - left. destruct (law_kfree (kmalloc := kmalloc) b s2) as (s3 & E3 & M3). rewrite (bind_ok _ _ _ _ _ E3). exists s3. split; [done|]. split.
    + eapply mem_only_trans; [|done]. by eapply mem_only_trans.
    + rewrite (bind_ok _ _ _ _ _ (must_some _ _ _ _ _ E1)). apply bind_panic. by eapply must_none.
Qed.

(** Two maps with the same words. *)
Lemma same_words b b' :
  nbits b' = nbits b → nbits b = 32 * nwords b → (∀ ix, 0 ≤ ix < nwords b → map b' ix = map b ix) →
  (∀ i, 0 ≤ i < nbits b → is_free b' i = is_free b i) ∧ count_free b' = count_free b.
Proof.
  intros Hn Hnw Hm. assert (∀ i, 0 ≤ i < nbits b → is_free b' i = is_free b i) as Hf.
  { intros i Hi. unfold is_free. rewrite Hm; [done|]. split; [apply Z.div_pos; lia|apply Z.div_lt_upper_bound; lia]. }
  split; [done|]. unfold count_free. rewrite Hn.
  assert (∀ l : list Z, (∀ i, i ∈ l → 0 ≤ i < nbits b) →
    filter (λ i, is_free b' i = true) l = filter (λ i, is_free b i = true) l) as ->; [|done|].
  - induction l as [|i l IH]; intros Hl; [done|]. rewrite !filter_cons, (Hf i), IH by set_solver. done.
  - intros i Hi%elem_of_seqZ. lia.
Qed.

(** From the free map on. *)
Lemma mount_freemap_spec s fs buf hash blocks unused info fm :
  image (disk (fsd s)) blocks unused info fm → map_fits blocks unused fm →
  sb_blocks (fsd s) = blocks → sb_unused (fsd s) = unused → (∀ o, 0 ≤ o < 31 → sb_info (fsd s) o = info o) →
  hash_table 1024 (λ n, sin_hashfn (sin_ino (fsd s) n)) (sin_hash (fsd s)) [] →
  ∃ ret r s', mount_freemap dev_ret kmalloc kfree fs buf hash s = Ok ((ret, r), s') ∧
    mount_outcome (mount_freemap dev_ret (must kmalloc) kfree fs buf hash s) (disk (fsd s)) blocks unused info fm ret r s'.
Proof.
  intros Him Hfit Eb Eu Einfo Hh. pose proof (mf_blocks _ _ _ Hfit) as Hbl. pose proof (map_blocks_bounds _ Hbl) as Hmb.
  unfold mount_freemap. rewrite !bind_gets. unfold vol. rewrite Eb, freemap_bits_val, freemap_blocks_val by done.
  destruct (new_bitmap_spec (32768 * map_blocks blocks) s ltac:(lia) ltac:(rewrite Z.mul_comm; apply Z.mod_mul; lia)) as [(s1 & E1 & M1 & Hno)|(bm & mine & s1 & E1 & M1 & Hw & Hnb & Hnw)];
    rewrite (bind_ok _ _ _ _ _ E1).
  { destruct (kfree_all_spec [hash; buf; fs] s1) as (s2 & E2 & M2). rewrite (bind_ok _ _ _ _ _ E2). eexists _, _, _. split; [reflexivity|].
    right. split_and!; [done|done| |by apply bind_panic]. apply mem_only_disk. by eapply mem_only_trans. }
  destruct (mem_only_fsd _ _ M1) as [m1 Em1].
  assert (nwords bm = 1024 * map_blocks blocks) as Hnw' by (rewrite Hnw; symmetry; apply Z.div_unique_pos with 31; lia).
  unfold upd_vol. rewrite bind_modify, Em1. set (s2 := set_fsd _ s1).
  unfold sfs_init_freemap. rewrite bind_assoc, bind_asserts by (unfold vol; cbn; apply Z.eqb_eq; change SFS_BLKSIZE with 4096; lia).
  change SFS_BLKN_FREEMAP with 2.
  destruct (init_freemap_spec (Z.to_nat (map_blocks blocks)) 2 0 s2) as (s3 & E3 & D3 & B3 & U3 & G3 & I3 & H3 & N3 & W3 & L3 & X3); [lia|lia|].
  rewrite (bind_ok _ _ _ _ _ E3). cbn [Z.eqb negb]. cbn [fsd s2 set_fsd nbits nwords freemap set_freemap] in N3, W3.
  assert (∀ ix, 0 ≤ ix < nwords fm → map (freemap (fsd s3)) ix = map fm ix) as Hmap.
  { intros ix Hix. rewrite (mf_nwords _ _ _ Hfit) in Hix. pose proof (Z.div_mod ix 1024 ltac:(lia)). pose proof (Z.mod_pos_bound ix 1024 ltac:(lia)).
    specialize (L3 (ix / 1024) (ix mod 1024) ltac:(lia) ltac:(lia)). rewrite Z.add_0_l, <-H in L3. rewrite L3.
    rewrite H at 3. apply (im_map _ _ _ _ _ Him); lia. }
  destruct (same_words fm (freemap (fsd s3))) as [Hfree Hcnt]; [|rewrite (mf_nbits _ _ _ Hfit), (mf_nwords _ _ _ Hfit); lia|done|].
  { rewrite N3, Hnb, (mf_nbits _ _ _ Hfit). done. }
  assert (bitmap_wf (freemap (fsd s3))) as Hw3.
  { destruct Hw as [Hw1 Hw2 Hw3 Hw4]. split; rewrite ?N3, ?W3; [done|done| |].
    - intros ix. destruct (decide (0 ≤ ix < nwords fm)) as [Hix|Hix]; [rewrite Hmap by done; apply Hfit|].
      rewrite (mf_nwords _ _ _ Hfit) in Hix. rewrite X3 by lia. apply Hw3.
    - intros i Hi. lia. }
  destruct (count_unused_spec (Z.to_nat (32768 * map_blocks blocks)) 0 0 s3 Hw3) as (s4 & E4 & M4); [lia|lia|lia|lia|].
  destruct (mem_only_fsd _ _ M4) as [m4 Em4]. rewrite (bind_ok _ _ _ _ _ E4).
  assert (count_free (freemap (fsd s3)) = unused) as Hc3 by (rewrite Hcnt; apply Hfit).
  unfold count_free in Hc3. rewrite N3, Hnb in Hc3. rewrite Z2Nat.id by lia. rewrite Z.add_0_l, Hc3.
  rewrite bind_asserts by (unfold vol; rewrite Em4; cbn [sb_unused set_s_mem]; rewrite U3; cbn [sb_unused fsd s2 set_fsd set_freemap set_s_mem]; rewrite Eu; apply Z.eqb_refl).
  rewrite !bind_modify. eexists _, _, _. split; [reflexivity|]. cbn [fsd set_fsd]. rewrite Em4.
  assert (∀ i, 0 ≤ i < 32768 * map_blocks blocks → is_free (freemap (fsd s3)) i = is_free fm i) as Hfree'.
  { intros i Hi. apply Hfree. by rewrite (mf_nbits _ _ _ Hfit). }
  left. split; [done|]. split; [done|exact D3| | |done|by cbn; rewrite B3|by cbn; rewrite U3|intros o Ho; cbn; rewrite I3; by apply Einfo|exact Hfree].
  - split; cbn; rewrite ?N3, ?B3, ?U3; cbn.
    + exact Hw3.
    + rewrite Eb, Hnb. lia.
    + rewrite Hnb, Eb. intros i Hi. rewrite Hfree' by done. apply Hfit. by rewrite (mf_nbits _ _ _ Hfit).
    + rewrite Eu, Hcnt. symmetry. apply Hfit.
  - split; cbn; try (intros n Hn; by apply not_elem_of_nil in Hn).
    + apply list_init_dll.
    + intros i Hi. rewrite H3. exact (Hh i Hi).
    + apply NoDup_nil_2.
Qed.

(** Mounting a disk that holds a volume: [sfs_do_mount] succeeds, unless an allocation is refused, with
    the super block and the free map of the disk; then the invariant of the free map
    holds and the cache is empty and well-formed. *)
Lemma sfs_do_mount_correct s dev blocks unused info fm :
  d_blocksize = SFS_BLKSIZE → blocks ≤ d_blocks →
  image (disk (fsd s)) blocks unused info fm → map_fits blocks unused fm →
  ∃ ret r s', sfs_do_mount dev_ret d_blocks d_blocksize kmalloc kfree dev s = Ok ((ret, r), s') ∧
    mount_outcome (sfs_do_mount dev_ret d_blocks d_blocksize (must kmalloc) kfree dev s) (disk (fsd s)) blocks unused info fm ret r s'.
Proof.
  intros Hbs Hbl Him Hfit. pose proof Him as [Hm Hb Hu Hi _]. unfold sfs_do_mount. rewrite Hbs, Z.eqb_refl. cbn [negb].
  destruct (law_kmalloc (kfree := kfree) fs_bytes s) as ([fs|] & s1 & E1 & M1); [served_size| |]; rewrite (bind_ok _ _ _ _ _ E1).
  2: { eexists _, _, _. split; [reflexivity|]. right. split_and!; [done|done|by apply mem_only_disk|]. apply bind_panic. by eapply must_none. }
  rewrite (bind_ok _ _ _ _ _ (must_some _ _ _ _ _ E1)).
  destruct (law_kmalloc (kfree := kfree) SFS_BLKSIZE s1) as ([buf|] & s2 & E2 & M2); [served_size| |]; rewrite (bind_ok _ _ _ _ _ E2);
    pose proof (mem_only_trans _ _ _ M1 M2) as M12.
  2: { destruct (law_kfree (kmalloc := kmalloc) fs s2) as (s3 & E3 & M3). rewrite (bind_ok _ _ _ _ _ E3). eexists _, _, _.
    split; [reflexivity|]. right. split_and!; [done|done|apply mem_only_disk; by eapply mem_only_trans|]. apply bind_panic. by eapply must_none. }
  rewrite (bind_ok _ _ _ _ _ (must_some _ _ _ _ _ E2)).
  unfold sfs_init_read. rewrite !bind_assoc, !bind_gets, !bind_ret. unfold vol. rewrite Hdev, (mem_only_disk _ _ M12). cbn [Z.eqb negb].
  change SFS_BLKN_SUPER with 0. rewrite Hm, Z.eqb_refl, Hb, Hu. cbn [negb]. destruct (Z.ltb_spec d_blocks blocks); [lia|].
  unfold upd_vol. rewrite !bind_modify. destruct (mem_only_fsd _ _ M12) as [m2 Em2]. rewrite Em2. set (s3 := set_fsd _ s2).
  assert (disk (fsd s3) = disk (fsd s)) as D3 by done.
  destruct (law_kmalloc (kfree := kfree) (list_entry_bytes * SFS_HLIST_SIZE) s3) as ([hash|] & s4 & E4 & M4); [served_size| |]; rewrite (bind_ok _ _ _ _ _ E4);
    destruct (mem_only_fsd _ _ M4) as [m4 Em4].
  2: { destruct (kfree_all_spec [buf; fs] s4) as (s5 & E5 & M5). rewrite (bind_ok _ _ _ _ _ E5). eexists _, _, _. split; [reflexivity|].
    right. split_and!; [done|done|by rewrite (mem_only_disk _ _ M5), (mem_only_disk _ _ M4)|]. apply bind_panic. by eapply must_none. }
  rewrite (bind_ok _ _ _ _ _ (must_some _ _ _ _ _ E4)), !bind_modify, Em4. set (s5 := set_fsd _ s4).
  assert (disk (fsd s5) = disk (fsd s)) as D5 by done. rewrite <-D5.
  apply (mount_freemap_spec s5); [by rewrite D5|done|done|done| |apply hash_init_spec].
  intros o Ho. cbn [sb_info fsd s5 set_fsd set_sin_hash set_s_mem s3 set_super]. change SFS_MAX_INFO_LEN with 31. rewrite (proj2 (Z.eqb_neq o 31)) by lia.
  by apply Hi.
Qed.

(** C12. What [sfs_sync] writes back is what a later mount finds.  On a volume of which no inode
    is in memory and whose super block is marked dirty, [sfs_sync] writes the super block
    and the free map and leaves the other blocks alone; [sfs_do_mount] on a disk with
    these blocks mounts a volume with that super block and that free map, which satisfies the
    invariant of the free map, with an empty cache.  It returns [-E_NO_MEM] only if
    the allocator refuses a request in this very call, which then panics with
    the allocator that may not refuse. *)
Theorem sfs_sync_mount_roundtrip s dev :
  super_dirty (fsd s) = true → map_fits (sb_blocks (fsd s)) (sb_unused (fsd s)) (freemap (fsd s)) →
  sb_magic (fsd s) = SFS_MAGIC → 2 + map_blocks (sb_blocks (fsd s)) ≤ sb_blocks (fsd s) ≤ d_blocks →
  cache_ok s [] → (0 < fuel)%nat → d_blocksize = SFS_BLKSIZE →
  ∃ s1, sfs_sync dev_ret ops fuel s = Ok (0, s1) ∧
    (∀ b, 2 + map_blocks (sb_blocks (fsd s)) ≤ b ∨ b = 1 → disk (fsd s1) b = disk (fsd s) b) ∧
    ∀ t, disk (fsd t) = disk (fsd s1) →
      ∃ ret r s', sfs_do_mount dev_ret d_blocks d_blocksize kmalloc kfree dev t = Ok ((ret, r), s') ∧
        mount_outcome (sfs_do_mount dev_ret d_blocks d_blocksize (must kmalloc) kfree dev t)
          (disk (fsd s1)) (sb_blocks (fsd s)) (sb_unused (fsd s)) (sb_info (fsd s)) (freemap (fsd s)) ret r s'.
Proof.
  intros Hd Hfit Hmag Hroom Hc Hfu Hbs. destruct (sync_image s Hd Hfit Hmag ltac:(lia)) as (s1 & E & _ & Him & Hb); [|done|].
  { by rewrite (list_next_head _ _ _ (ca_list _ _ Hc)). }
  exists s1. split; [done|]. split; [done|]. intros t Ht. rewrite <-Ht in Him |- *. apply sfs_do_mount_correct; try done. lia.
Qed.

(** [sfs_do_mount] refuses a device with another block size, a block 0 without the magic number
    and a volume larger than the device, and reads nothing else from it. *)
Theorem sfs_do_mount_rejects s dev :
  (d_blocksize ≠ SFS_BLKSIZE → sfs_do_mount dev_ret d_blocks d_blocksize kmalloc kfree dev s = Ok ((- E_NA_DEV, None), s)) ∧
  (d_blocksize = SFS_BLKSIZE → le32 (disk (fsd s) 0) 0 ≠ SFS_MAGIC ∨ d_blocks < le32 (disk (fsd s) 0) 4 →
   ∃ ret s', sfs_do_mount dev_ret d_blocks d_blocksize kmalloc kfree dev s = Ok ((ret, None), s') ∧ mem_only s s' ∧
     (ret = - E_INVAL ∨ ret = - E_NO_MEM ∧ sfs_do_mount dev_ret d_blocks d_blocksize (must kmalloc) kfree dev s = Panic)).
Proof.
  unfold sfs_do_mount. split.
  { intros Hne. by rewrite (proj2 (Z.eqb_neq _ _) Hne). }
  intros -> Hbad. rewrite Z.eqb_refl. cbn [negb].
  destruct (law_kmalloc (kfree := kfree) fs_bytes s) as ([fs|] & s1 & E1 & M1); [served_size| |]; rewrite (bind_ok _ _ _ _ _ E1).
  2: { eexists _, _. split; [reflexivity|]. split; [done|]. right. split; [done|]. apply bind_panic. by eapply must_none. }
  destruct (law_kmalloc (kfree := kfree) SFS_BLKSIZE s1) as ([buf|] & s2 & E2 & M2); [served_size| |]; rewrite (bind_ok _ _ _ _ _ E2);
    pose proof (mem_only_trans _ _ _ M1 M2) as M12.
  2: { destruct (law_kfree (kmalloc := kmalloc) fs s2) as (s3 & E3 & M3). rewrite (bind_ok _ _ _ _ _ E3). eexists _, _.
    split; [reflexivity|]. split; [by eapply mem_only_trans|]. right. split; [done|]. rewrite (bind_ok _ _ _ _ _ (must_some _ _ _ _ _ E1)).
    apply bind_panic. by eapply must_none. }
  unfold sfs_init_read. rewrite bind_assoc, bind_gets, bind_ret. unfold vol. rewrite Hdev, (mem_only_disk _ _ M12). cbn [Z.eqb negb].
  change SFS_BLKN_SUPER with 0. destruct (kfree_all_spec [buf; fs] s2) as (s3 & E3 & M3).
  assert (mem_only s s3) as M by (by eapply mem_only_trans).
  destruct (Z.eqb_spec (le32 (disk (fsd s) 0) 0) SFS_MAGIC) as [Em|Em]; cbn [negb].
  - destruct Hbad as [?|Hbad]; [done|]. rewrite (proj2 (Z.ltb_lt _ _) Hbad), (bind_ok _ _ _ _ _ E3).
    eexists _, _. split; [reflexivity|]. split; [done|by left].
  - rewrite (bind_ok _ _ _ _ _ E3). eexists _, _. split; [reflexivity|]. split; [done|by left].
Qed.
End mount.

(** ** An example *)

(** A volume of 8 blocks of which 4 to 7 are free. *)
Definition small_map : bitmap := Bitmap 32768 1024 (λ ix, if ix =? 0 then 240 else 0).
Definition small_volume : node_st :=
  example_node (set_super_dirty true (set_super SFS_MAGIC 8 4 (λ _, 0) (set_freemap small_map (example_sfs 240)))).

Lemma small_map_free i : 0 ≤ i → is_free small_map i = ((i <? 32) && Z.testbit 240 i)%bool.
Proof.
  intros Hi. unfold is_free. cbn [map small_map]. pose proof (Z.div_mod i 32 ltac:(lia)). pose proof (Z.mod_pos_bound i 32 ltac:(lia)).
  destruct (Z.eqb_spec (i / 32) 0), (Z.ltb_spec i 32); try lia; [by rewrite Z.mod_small by lia|by rewrite Z.bits_0].
Qed.

Lemma small_map_fits : map_fits 8 4 small_map.
Proof.
  split; [lia| |done|done| |].
  - intros ix. cbn. destruct (ix =? 0); lia.
  - intros i Hi. rewrite small_map_free by lia. intros [H%Z.ltb_lt Ht]%andb_prop.
    assert (forallb (λ i, implb (Z.testbit 240 i) ((0 <? i) && (i <? 8))) (seqZ 0 32) = true) as Hall by done.
    rewrite forallb_forall in Hall. specialize (Hall i). rewrite Ht in Hall.
    destruct (Z.ltb_spec 0 i), (Z.ltb_spec i 8); try lia; discriminate Hall; apply list_elem_of_In, elem_of_seqZ; lia.
  - unfold count_free. change (nbits small_map) with (32 + 32736). rewrite seqZ_app, filter_app, length_app by lia.
    assert (∀ a b : nat, a = 4%nat → b = 0%nat → Z.of_nat (a + b) = 4) as Hab by lia.
    apply Hab; [vm_compute; reflexivity|]. rewrite filter_none; [done|].
    intros i Hi%elem_of_seqZ. rewrite small_map_free by lia. destruct (Z.ltb_spec i 32); [lia|done].
Qed.

Lemma sfs_sync_mount_roundtrip_witness :
  ∃ s1, sfs_sync no_errors (λ _, InodeOps _ None None None None None None None None None None None None None None None) 2 small_volume = Ok (0, s1) ∧
    ∃ r s', sfs_do_mount no_errors 8 4096 bump_kmalloc bump_kfree 9 s1 = Ok ((0, r), s') ∧
      mounted (disk (fsd s1)) 8 4 (λ _, 0) small_map r s'.
Proof.
  set (ops := λ _ : ops_kind, InodeOps node_st None None None None None None None None None None None None None None None).
  destruct (sfs_sync_mount_roundtrip no_errors 8 4096 (λ _ _, eq_refl) bump_kmalloc bump_kfree ops 2 small_volume 9)
    as (s1 & E & _ & H); [done|apply small_map_fits|done|done|by apply example_cache_ok|lia|done|].
  exists s1. split; [exact E|]. destruct (H s1 eq_refl) as (ret & r & s' & Em & Hout).
  destruct Hout as [[-> Hm]|(_ & _ & _ & Hp)]; [by exists r, s'|exfalso].
  assert (match sfs_sync no_errors ops 2 small_volume with
          | Ok (_, s1) => match sfs_do_mount no_errors 8 4096 (must bump_kmalloc) bump_kfree 9 s1 with Panic => true | _ => false end
          | _ => true end = false) as Hx by (vm_compute; reflexivity).
  rewrite E, Hp in Hx. discriminate Hx.
Defined.

Lemma sfs_do_mount_rejects_witness :
  sfs_do_mount no_errors 8 512 bump_kmalloc bump_kfree 9 small_volume = Ok ((- E_NA_DEV, None), small_volume) ∧
  ∃ s', sfs_do_mount no_errors 8 4096 bump_kmalloc bump_kfree 9 small_volume = Ok ((- E_INVAL, None), s').
Proof.
  split; [by apply (sfs_do_mount_rejects no_errors 8 512 (λ _ _, eq_refl) bump_kmalloc bump_kfree small_volume 9)|].
  destruct (sfs_do_mount_rejects no_errors 8 4096 (λ _ _, eq_refl) bump_kmalloc bump_kfree small_volume 9) as [_ H].
  destruct H as (ret & s' & E & _ & Hr); [done|left; by vm_compute|]. exists s'.
  destruct Hr as [->|[_ Hp]]; [exact E|]. vm_compute in Hp. discriminate Hp.
Defined.
