(* ===== verification/Mksfs.v ===== *)
(** * tools/mksfs.c: the program that makes the disk image

    [mksfs] runs on the host and writes a directory of the host as a simple file
    system into an image file, which the kernel mounts as its disk.  The state is
    [struct sfs_fs] with the caches it points to and the blocks of the image.  The
    directory is given as a tree, what [readdir], [lstat], [read] and [readlink] deliver for
    it; calls of the host that fail, and [bug], which ends the program, are panics.
    Messages are left out.

    The theorem composes this program with the kernel: every image it makes is mounted
    by [sfs_do_mount]. *)

From S2P Require Import Prelude ListH CString Bitmap Vmm Vfs Disk Proc HashList Sfs SfsProofs SfsNode SfsNodeProofs SfsMount SfsMountProofs.

Definition SFS_MAX_NBLKS : Z := 1024 * 512.
Definition SFS_L0_NBLKS : Z := SFS_NDIRECT.
Definition SFS_L1_NBLKS : Z := SFS_BLK_NENTRY + SFS_L0_NBLKS.
Definition SFS_L2_NBLKS : Z := SFS_BLK_NENTRY * SFS_BLK_NENTRY + SFS_L1_NBLKS.
Definition SFS_LN_NBLKS : Z := SFS_MAX_FILE_SIZE / SFS_BLKSIZE.

(** ** State *)

(** The contents of a cached block are words. *)
Record cache_block := CacheBlock {
  cb_ino : Z;
  cb_cache : Z → Z;
}.

Record cache_inode := CacheInode {
  ci_size : Z;
  ci_type : Z;
  ci_nlinks : Z;
  ci_blocks : Z;
  ci_direct : Z → Z;
  ci_indirect : Z;
  ci_db_indirect : Z;
  ci_real : Z;
  ci_ino : Z;
  ci_nblks : Z;
  ci_l1 : option Z;
  ci_l2 : option Z;
}.

(** Cached objects are named by integers; [mk_ptr] is the next free one.  The hash chains are
    lists, the newest object first; [entry_name] is the name in the static variable
    [__entry]. *)
Record mksfs := Mksfs {
  mk_blocks : Z;
  mk_unused : Z;
  mk_info : Z → Z;
  ninos : Z;
  next_ino : Z;
  subpath : list (list Z);
  cis : Z → cache_inode;
  cbs : Z → cache_block;
  inodes : Z → list Z;
  blocks : Z → list Z;
  mk_ptr : Z;
  entry_name : Z → Z;
  img : Z → Z → Z;
}.

Definition set_unused_blocks (v : Z) (s : mksfs) : mksfs :=
  Mksfs (mk_blocks s) v (mk_info s) (ninos s) (next_ino s) (subpath s) (cis s) (cbs s) (inodes s) (blocks s) (mk_ptr s) (entry_name s) (img s).
Definition set_next_ino (v : Z) (s : mksfs) : mksfs :=
  Mksfs (mk_blocks s) (mk_unused s) (mk_info s) (ninos s) v (subpath s) (cis s) (cbs s) (inodes s) (blocks s) (mk_ptr s) (entry_name s) (img s).
Definition set_subpath (v : list (list Z)) (s : mksfs) : mksfs :=
  Mksfs (mk_blocks s) (mk_unused s) (mk_info s) (ninos s) (next_ino s) v (cis s) (cbs s) (inodes s) (blocks s) (mk_ptr s) (entry_name s) (img s).
Definition upd_ci (p : Z) (f : cache_inode → cache_inode) (s : mksfs) : mksfs :=
  Mksfs (mk_blocks s) (mk_unused s) (mk_info s) (ninos s) (next_ino s) (subpath s) (upd p (f (cis s p)) (cis s)) (cbs s) (inodes s) (blocks s) (mk_ptr s) (entry_name s) (img s).
Definition upd_cb (p : Z) (f : cache_block → cache_block) (s : mksfs) : mksfs :=
  Mksfs (mk_blocks s) (mk_unused s) (mk_info s) (ninos s) (next_ino s) (subpath s) (cis s) (upd p (f (cbs s p)) (cbs s)) (inodes s) (blocks s) (mk_ptr s) (entry_name s) (img s).
Definition push_inode (h p : Z) (s : mksfs) : mksfs :=
  Mksfs (mk_blocks s) (mk_unused s) (mk_info s) (ninos s) (next_ino s) (subpath s) (cis s) (cbs s) (upd h (p :: inodes s h) (inodes s)) (blocks s) (mk_ptr s) (entry_name s) (img s).
Definition push_block (h p : Z) (s : mksfs) : mksfs :=
  Mksfs (mk_blocks s) (mk_unused s) (mk_info s) (ninos s) (next_ino s) (subpath s) (cis s) (cbs s) (inodes s) (upd h (p :: blocks s h) (blocks s)) (mk_ptr s) (entry_name s) (img s).
Definition set_mk_ptr (v : Z) (s : mksfs) : mksfs :=
  Mksfs (mk_blocks s) (mk_unused s) (mk_info s) (ninos s) (next_ino s) (subpath s) (cis s) (cbs s) (inodes s) (blocks s) v (entry_name s) (img s).
Definition set_entry_name (v : Z → Z) (s : mksfs) : mksfs :=
  Mksfs (mk_blocks s) (mk_unused s) (mk_info s) (ninos s) (next_ino s) (subpath s) (cis s) (cbs s) (inodes s) (blocks s) (mk_ptr s) v (img s).
Definition set_img (b : Z) (v : Z → Z) (s : mksfs) : mksfs :=
  Mksfs (mk_blocks s) (mk_unused s) (mk_info s) (ninos s) (next_ino s) (subpath s) (cis s) (cbs s) (inodes s) (blocks s) (mk_ptr s) (entry_name s) (upd b v (img s)).

(** A new object. *)
Definition safe_malloc : M mksfs Z := p ← gets mk_ptr; modify (set_mk_ptr (p + 1));; mret p.

Definition mk_hash (val : Z) : Z := hash32 (u32 val) 10.

(** ** Caches *)

Definition sfs_alloc_ino : M mksfs Z :=
  s ← gets id;
  if next_ino s <? ninos s then
    modify (set_unused_blocks (u32 (mk_unused s - 1)));;
    modify (set_next_ino (u32 (next_ino s + 1)));;
    mret (next_ino s)
  else panic.

(** The chain is the one of [ino], also when it is 0 and a block has been taken. *)
Definition alloc_cache_block (ino : Z) : M mksfs Z :=
  cb ← safe_malloc;
  n ← (if negb (ino =? 0) then mret ino else sfs_alloc_ino);
  modify (upd_cb cb (λ _, CacheBlock n (λ _, 0)));;
  modify (push_block (mk_hash ino) cb);;
  mret cb.

Definition search_cache_block (ino : Z) : M mksfs (option Z) :=
  gets (λ s, List.find (λ cb, cb_ino (cbs s cb) =? ino) (blocks s (mk_hash ino))).

Definition alloc_cache_inode (real ino type : Z) : M mksfs Z :=
  ci ← safe_malloc;
  n ← (if negb (ino =? 0) then mret ino else sfs_alloc_ino);
  modify (upd_ci ci (λ _, CacheInode 0 type 0 0 (λ _, 0) 0 0 real n 0 None None));;
  modify (push_inode (mk_hash real) ci);;
  mret ci.

Definition search_cache_inode (real : Z) : M mksfs (option Z) :=
  gets (λ s, List.find (λ ci, ci_real (cis s ci) =? real) (inodes s (mk_hash real))).

Definition info_text : list Z := [115; 105; 109; 112; 108; 101; 32; 102; 105; 108; 101; 32; 115; 121; 115; 116; 101; 109; 0].

(** [size] is the size of the image file, [file] its contents and [junk] the bytes of
    [info] that [malloc] left there. *)
Definition create_sfs (size : Z) (file : Z → Z → Z) (junk : Z → Z) : res (Z * mksfs) :=
  let n := u32 (size / SFS_BLKSIZE) in
  let n := if SFS_MAX_NBLKS <? n then SFS_MAX_NBLKS else n in
  let next := SFS_BLKN_FREEMAP + u32 (n + SFS_BLKBITS - 1) / SFS_BLKBITS in
  if n <=? next then Panic
  else
    alloc_cache_inode 0 SFS_BLKN_ROOT SFS_TYPE_DIR
      (Mksfs n (n - next) (λ o, default (junk o) (info_text !! Z.to_nat o)) n next []
        (λ _, CacheInode 0 0 0 0 (λ _, 0) 0 0 0 0 0 None None) (λ _, CacheBlock 0 (λ _, 0)) (λ _, []) (λ _, []) 1 (λ _, 0) file).

Definition subpath_push (subname : list Z) : M mksfs unit := modify (λ s, set_subpath (subname :: subpath s) s).
Definition subpath_pop : M mksfs unit :=
  l ← gets subpath;
  match l with [] => panic | _ :: l => modify (set_subpath l) end.

(** ** Writing blocks *)

Definition mk_write_block (data : Z → Z) (len ino : Z) : M mksfs unit :=
  asserts (λ s, (len <=? SFS_BLKSIZE) && (ino <? ninos s))%bool;;
  modify (set_img ino (λ o, if o <? len then data o else 0)).

Definition flush_cache_block (cb : Z) : M mksfs unit :=
  c ← gets (λ s, cbs s cb);
  mk_write_block (λ o, byte32 (cb_cache c (o / 4)) (o mod 4)) SFS_BLKSIZE (cb_ino c).

(** [struct inode] as bytes. *)
Definition inode_bytes_of (c : cache_inode) (o : Z) : Z :=
  if o <? 4 then byte32 (ci_size c) o
  else if o <? 6 then byte32 (ci_type c) (o - 4)
  else if o <? 8 then byte32 (ci_nlinks c) (o - 6)
  else if o <? 12 then byte32 (ci_blocks c) (o - 8)
  else if o <? 60 then byte32 (ci_direct c ((o - 12) / 4)) ((o - 12) mod 4)
  else if o <? 64 then byte32 (ci_indirect c) (o - 60)
  else byte32 (ci_db_indirect c) (o - 64).

Definition flush_cache_inode (ci : Z) : M mksfs unit :=
  c ← gets (λ s, cis s ci);
  mk_write_block (inode_bytes_of c) 68 (ci_ino c).

(** [data[j / bits] |= 1 << (j % bits)] for [n] values of [j]. *)
Fixpoint set_bits (n : nat) (j : Z) (data : Z → Z) : Z → Z :=
  match n with
  | O => data
  | S n' => set_bits n' (j + 1) (upd (j / 32) (Z.lor (data (j / 32)) (u32 (Z.shiftl 1 (j mod 32)))) data)
  end.

(** The words of the block of the free map for the blocks from [i] on. *)
Definition map_words (ninos next_ino i : Z) : Z → Z :=
  if next_ino <? i + SFS_BLKBITS then
    let start := if i <? next_ino then next_ino - i else 0 in
    let stop := if ninos <? i + SFS_BLKBITS then ninos - i else SFS_BLKBITS in
    set_bits (Z.to_nat (stop - start)) start (λ _, 0)
  else λ _, 0.

Fixpoint write_freemap (n : nat) (i ino : Z) : M mksfs unit :=
  match n with
  | O => mret tt
  | S n' =>
    s ← gets id;
    if i <? ninos s then
      let w := map_words (ninos s) (next_ino s) i in
      mk_write_block (λ o, byte32 (w (o / 4)) (o mod 4)) SFS_BLKSIZE ino;;
      write_freemap n' (i + SFS_BLKBITS) (ino + 1)
    else mret tt
  end.

Definition super_bytes (s : mksfs) (o : Z) : Z :=
  if o <? 4 then byte32 SFS_MAGIC o
  else if o <? 8 then byte32 (mk_blocks s) (o - 4)
  else if o <? 12 then byte32 (mk_unused s) (o - 8)
  else mk_info s (o - 12).

Fixpoint flush_all (flush : Z → M mksfs unit) (l : list Z) : M mksfs unit :=
  match l with [] => mret tt | p :: l => flush p;; flush_all flush l end.

Definition close_sfs : M mksfs unit :=
  n ← gets ninos;
  write_freemap (S (Z.to_nat (n / SFS_BLKBITS))) 0 SFS_BLKN_FREEMAP;;
  s ← gets id;
  mk_write_block (super_bytes s) 44 SFS_BLKN_SUPER;;
  for_range 0 1024 (λ i,
    l ← gets (λ s, blocks s i);
    flush_all flush_cache_block l;;
    l ← gets (λ s, inodes s i);
    flush_all flush_cache_inode l).

(** ** Files *)

(** [*cbp] and [*inop] are given and returned. *)
Definition update_cache (cb : option Z) (ino : Z) : M mksfs (Z * Z) :=
  if ino =? 0 then
    cb ← alloc_cache_block 0;
    ino ← gets (λ s, cb_ino (cbs s cb));
    mret (cb, ino)
  else
    same ← gets (λ s, match cb with Some cb => cb_ino (cbs s cb) =? ino | None => false end);
    match cb, same with
    | Some cb, true => mret (cb, ino)
    | _, _ =>
      cb ← search_cache_block ino;
      match cb with
      | Some cb => asserts (λ s, cb_ino (cbs s cb) =? ino);; mret (cb, ino)
      | None => panic
      end
    end.

Definition cb_set_word (k v : Z) (c : cache_block) : cache_block := CacheBlock (cb_ino c) (upd k v (cb_cache c)).
Definition set_direct (k v : Z) (c : cache_inode) : cache_inode :=
  CacheInode (ci_size c) (ci_type c) (ci_nlinks c) (ci_blocks c) (upd k v (ci_direct c)) (ci_indirect c) (ci_db_indirect c) (ci_real c)
    (ci_ino c) (ci_nblks c) (ci_l1 c) (ci_l2 c).
Definition set_indirect (cb ino : Z) (c : cache_inode) : cache_inode :=
  CacheInode (ci_size c) (ci_type c) (ci_nlinks c) (ci_blocks c) (ci_direct c) ino (ci_db_indirect c) (ci_real c)
    (ci_ino c) (ci_nblks c) (Some cb) (ci_l2 c).
Definition set_db_indirect (cb ino : Z) (c : cache_inode) : cache_inode :=
  CacheInode (ci_size c) (ci_type c) (ci_nlinks c) (ci_blocks c) (ci_direct c) (ci_indirect c) ino (ci_real c)
    (ci_ino c) (ci_nblks c) (ci_l1 c) (Some cb).
Definition set_l1 (cb : Z) (c : cache_inode) : cache_inode :=
  CacheInode (ci_size c) (ci_type c) (ci_nlinks c) (ci_blocks c) (ci_direct c) (ci_indirect c) (ci_db_indirect c) (ci_real c)
    (ci_ino c) (ci_nblks c) (Some cb) (ci_l2 c).
Definition count_block (size : Z) (c : cache_inode) : cache_inode :=
  CacheInode (u32 (ci_size c + size)) (ci_type c) (ci_nlinks c) (u32 (ci_blocks c + 1)) (ci_direct c) (ci_indirect c) (ci_db_indirect c)
    (ci_real c) (ci_ino c) (u32 (ci_nblks c + 1)) (ci_l1 c) (ci_l2 c).
Definition link_inode (c : cache_inode) : cache_inode :=
  CacheInode (ci_size c) (ci_type c) (u16 (ci_nlinks c + 1)) (ci_blocks c) (ci_direct c) (ci_indirect c) (ci_db_indirect c)
    (ci_real c) (ci_ino c) (ci_nblks c) (ci_l1 c) (ci_l2 c).

Definition append_block (file size ino : Z) : M mksfs unit :=
  assert (size <=? SFS_BLKSIZE);;
  c ← gets (λ s, cis s file);
  let nblks := ci_nblks c in
  if SFS_LN_NBLKS <=? nblks then panic
  else
    (if nblks <? SFS_L0_NBLKS then modify (upd_ci file (set_direct nblks ino))
     else if nblks <? SFS_L1_NBLKS then
       '(cb, ind) ← update_cache (ci_l1 c) (ci_indirect c);
       modify (upd_ci file (set_indirect cb ind));;
       modify (upd_cb cb (cb_set_word (nblks - SFS_L0_NBLKS) ino))
     else if nblks <? SFS_L2_NBLKS then
       let k := nblks - SFS_L1_NBLKS in
       '(cb2, db) ← update_cache (ci_l2 c) (ci_db_indirect c);
       modify (upd_ci file (set_db_indirect cb2 db));;
       ent ← gets (λ s, cb_cache (cbs s cb2) (k / SFS_BLK_NENTRY));
       l1 ← gets (λ s, ci_l1 (cis s file));
       '(cb1, ent) ← update_cache l1 ent;
       modify (upd_ci file (set_l1 cb1));;
       modify (upd_cb cb2 (cb_set_word (k / SFS_BLK_NENTRY) ent));;
       modify (upd_cb cb1 (cb_set_word (k mod SFS_BLK_NENTRY) ino))
     else mret tt);;
    modify (upd_ci file (count_block size)).

(** [strcpy] into the static entry leaves what is behind the string. *)
Definition strcpy_name (name : list Z) (f : Z → Z) (o : Z) : Z :=
  if ((0 <=? o) && (o <=? Z.of_nat (length name)))%bool then default 0 (name !! Z.to_nat o) else f o.

(** [sizeof(entry->name)] bytes from the start of the entry are written. *)
Definition entry_bytes_of (ino : Z) (name : Z → Z) (o : Z) : Z := if o <? 4 then byte32 ino o else name (o - 4).

Definition add_entry (current file : Z) (name : list Z) : M mksfs unit :=
  asserts (λ s, (ci_type (cis s current) =? SFS_TYPE_DIR) && (Z.of_nat (length name) <=? SFS_MAX_FNAME_LEN))%bool;;
  ino ← gets (λ s, ci_ino (cis s file));
  modify (λ s, set_entry_name (strcpy_name name (entry_name s)) s);;
  entry_ino ← sfs_alloc_ino;
  ename ← gets entry_name;
  mk_write_block (entry_bytes_of ino ename) (SFS_MAX_FNAME_LEN + 1) entry_ino;;
  append_block current (SFS_MAX_FNAME_LEN + 1) entry_ino;;
  modify (upd_ci file link_inode).

(** ** The directory of the host *)

(** [real] is the inode number on the host. *)
Inductive hnode :=
| HLink (real : Z) (target : list Z)
| HDir (real : Z) (entries : list (list Z * hnode))
| HFile (real : Z) (data : list Z)
| HOther.

Definition bytes_of (l : list Z) (o : Z) : Z := default 0 (l !! Z.to_nat o).

(** [read] delivers whole blocks until the last; [n] bounds the number of blocks. *)
Fixpoint open_file (n : nat) (file : Z) (data : list Z) : M mksfs unit :=
  match n with
  | O => out_of_fuel
  | S n' =>
    match data with
    | [] => mret tt
    | _ =>
      let part := take 4096 data in
      let ret := Z.of_nat (length part) in
      ino ← sfs_alloc_ino;
      mk_write_block (bytes_of part) ret ino;;
      append_block file ret ino;;
      open_file n' file (drop 4096 data)
    end
  end.

Definition open_link (file : Z) (target : list Z) : M mksfs unit :=
  ino ← sfs_alloc_ino;
  let ret := Z.of_nat (length (take 4096 target)) in
  if ret =? SFS_BLKSIZE then panic
  else mk_write_block (bytes_of target) ret ino;; append_block file ret ino.

Definition add_file (current : Z) (filename : list Z) (real : Z) (data : list Z) : M mksfs unit :=
  file ← search_cache_inode real;
  file ← (match file with
          | Some file => mret file
          | None =>
            file ← alloc_cache_inode real 0 SFS_TYPE_FILE;
            open_file (S (length data)) file data;;
            mret file
          end);
  add_entry current file filename.

Definition add_link (current : Z) (filename : list Z) (real : Z) (target : list Z) : M mksfs unit :=
  file ← alloc_cache_inode real 0 SFS_TYPE_LINK;
  open_link file target;;
  add_entry current file filename.

(** The loop of [open_dir]: names that start with a dot are left out. *)
Definition dir_loop (add : hnode → list Z → M mksfs unit) : list (list Z * hnode) → M mksfs unit :=
  fix loop es :=
    match es with
    | [] => mret tt
    | (name, n) :: es =>
      if bool_decide (head name = Some 46) then loop es
      else if SFS_MAX_FNAME_LEN <? Z.of_nat (length name) then panic
      else add n name;; loop es
    end.

Definition open_dir (add : hnode → Z → list Z → M mksfs unit) (current parent : Z) (es : list (list Z * hnode)) : M mksfs unit :=
  add_entry current current [46];;
  add_entry current parent [46; 46];;
  dir_loop (λ n name, add n current name) es.

(** The body of the loop; for a directory this is [add_dir]. *)
Fixpoint add_node (n : hnode) (current : Z) (name : list Z) : M mksfs unit :=
  match n with
  | HLink real target => add_link current name real target
  | HDir real es =>
    old ← search_cache_inode real;
    assert (bool_decide (old = None));;
    dir ← alloc_cache_inode real 0 SFS_TYPE_DIR;
    subpath_push name;;
    open_dir add_node dir current es;;
    subpath_pop;;
    add_entry current dir name
  | HFile real data => add_file current name real data
  | HOther => mret tt
  end.

(** [root] is the inode that [create_sfs] has made. *)
Definition create_img (root : Z) (home : list (list Z * hnode)) : M mksfs unit :=
  open_dir add_node root root home;;
  close_sfs.

(** ** The invariant of the program *)

(** The blocks of an image of [n] blocks are used in order: the super block, the root, the
    free map and then whatever is taken; cached objects belong to block 1 or lie behind
    the free map. *)
Definition own_block (n ino : Z) : Prop := ino = 1 ∨ (1 < ino ∧ 2 + map_blocks n ≤ ino).

Record mk_ok (n : Z) (info : Z → Z) (s : mksfs) : Prop := MkOk {
  ok_n : ninos s = n ∧ mk_blocks s = n;
  ok_info : mk_info s = info;
  ok_next : 2 + map_blocks n ≤ next_ino s ≤ n;
  ok_unused : mk_unused s = n - next_ino s;
  ok_inodes : ∀ h p, p ∈ inodes s h → own_block n (ci_ino (cis s p));
  ok_blocks : ∀ h p, p ∈ blocks s h → own_block n (cb_ino (cbs s p));
}.

Section mksfs.
Context (n : Z) (info : Z → Z).
Hypothesis n_range : 0 < n ≤ SFS_MAX_NBLKS.

Definition stays (s s' : mksfs) : Prop := mk_ok n info s → mk_ok n info s'.

#[local] Instance stays_preorder : PreOrder stays.
Proof. split; [intros s H; exact H|]. intros s1 s2 s3 H1 H2 H. apply H2, H1, H. Qed.

Lemma map_blocks_pos : 0 < map_blocks n.
Proof. unfold SFS_MAX_NBLKS in n_range. apply map_blocks_bounds. lia. Qed.

Lemma sfs_alloc_ino_ok s x s' : sfs_alloc_ino s = Ok (x, s') → mk_ok n info s → mk_ok n info s' ∧ own_block n x.
Proof.
  unfold sfs_alloc_ino. rewrite bind_gets. cbn [id]. destruct (Z.ltb_spec (next_ino s) (ninos s)) as [Hlt|]; [|done].
  rewrite !bind_modify. intros [= <- <-] [[Hn Hb] Hi Hx Hu Hc1 Hc2]. pose proof map_blocks_pos. unfold SFS_MAX_NBLKS in n_range.
  split; [|right; lia]. rewrite Hn in *. split; cbn; try done.
  - rewrite u32_small by lia. lia.
  - rewrite !u32_small by lia. lia.
Qed.

Lemma sfs_alloc_ino_keeps : keeps stays sfs_alloc_ino.
Proof. intros s x s' E H. by eapply sfs_alloc_ino_ok. Qed.

Lemma upd_ci_stays p f s : (∀ c, ci_ino (f c) = ci_ino c) → stays s (upd_ci p f s).
Proof.
  intros Hf [Hn Hi Hx Hu Hc1 Hc2]. split; cbn; try done. intros h q Hq.
  destruct (decide (p = q)) as [<-|]; [rewrite upd_eq, Hf; eauto|rewrite upd_ne by done; eauto].
Qed.

Lemma upd_cb_stays p f s : (∀ c, cb_ino (f c) = cb_ino c) → stays s (upd_cb p f s).
Proof.
  intros Hf [Hn Hi Hx Hu Hc1 Hc2]. split; cbn; try done. intros h q Hq.
  destruct (decide (p = q)) as [<-|]; [rewrite upd_eq, Hf; eauto|rewrite upd_ne by done; eauto].
Qed.

(** The block of a new object: the one that is asked for or a fresh one. *)
Lemma pick_ok ino s x s' :
  own_block n ino ∨ ino = 0 → (if negb (ino =? 0) then mret ino else sfs_alloc_ino) s = Ok (x, s') → mk_ok n info s →
  mk_ok n info s' ∧ own_block n x.
Proof.
  intros Ho. destruct (Z.eqb_spec ino 0) as [->|Hne]; [apply sfs_alloc_ino_ok|]. intros [= <- <-] H. split; [done|]. by destruct Ho.
Qed.

Lemma alloc_cache_block_keeps : keeps stays (alloc_cache_block 0).
Proof.
  intros s p s' E H. unfold alloc_cache_block, safe_malloc in E. rewrite bind_assoc, bind_gets, bind_assoc, bind_modify, bind_ret in E.
  apply bind_ok_inv in E as (x & s1 & E1 & E). apply pick_ok in E1 as [[Hn Hi Hx Hu Hc1 Hc2] Ho]; [|by right|by destruct H].
  rewrite !bind_modify in E. injection E as <- <-. split; cbn; try done. intros h q. unfold upd at 1. intros Hq.
  destruct (decide (mk_ptr s = q)) as [<-|Hne]; [by rewrite upd_eq|]. rewrite upd_ne by done. case_decide; [|by eapply Hc2].
  apply elem_of_cons in Hq as [->|Hq]; [done|by eapply Hc2].
Qed.

Lemma alloc_cache_inode_keeps real ino type : own_block n ino ∨ ino = 0 → keeps stays (alloc_cache_inode real ino type).
Proof.
  intros Hown s p s' E H. unfold alloc_cache_inode, safe_malloc in E. rewrite bind_assoc, bind_gets, bind_assoc, bind_modify, bind_ret in E.
  apply bind_ok_inv in E as (x & s1 & E1 & E). apply pick_ok in E1 as [[Hn Hi Hx Hu Hc1 Hc2] Ho]; [|done|by destruct H].
  rewrite !bind_modify in E. injection E as <- <-. split; cbn; try done. intros h q. unfold upd at 1. intros Hq.
  destruct (decide (mk_ptr s = q)) as [<-|Hne]; [by rewrite upd_eq|]. rewrite upd_ne by done. case_decide; [|by eapply Hc1].
  apply elem_of_cons in Hq as [->|Hq]; [done|by eapply Hc1].
Qed.

Lemma mk_write_block_keeps data len ino : keeps stays (mk_write_block data len ino).
Proof. unfold mk_write_block. keeps_auto. by intros [? ? ? ? ? ?]. Qed.

#[local] Hint Resolve sfs_alloc_ino_keeps alloc_cache_block_keeps mk_write_block_keeps : mksfs.

(** As [keeps_auto], with the operations above as steps of their own. *)
Ltac keeps_mk :=
  repeat first
    [ solve [auto 2 with mksfs nocore]
    | apply upd_ci_stays; done | apply upd_cb_stays; done
    | keeps_step ];
  try by intros [? ? ? ? ? ?].

Lemma update_cache_keeps cb ino : keeps stays (update_cache cb ino).
Proof. unfold update_cache, search_cache_block. keeps_mk. Qed.
#[local] Hint Resolve update_cache_keeps : mksfs.

Lemma append_block_keeps file size ino : keeps stays (append_block file size ino).
Proof. unfold append_block. keeps_mk. Qed.
#[local] Hint Resolve append_block_keeps : mksfs.

Lemma add_entry_keeps current file name : keeps stays (add_entry current file name).
Proof. unfold add_entry. keeps_mk. Qed.
#[local] Hint Resolve add_entry_keeps : mksfs.

Lemma open_file_keeps k file data : keeps stays (open_file k file data).
Proof. revert data. induction k as [|k IH]; intros data; cbn [open_file]; keeps_mk; apply IH. Qed.

Lemma open_link_keeps file target : keeps stays (open_link file target).
Proof. unfold open_link. keeps_mk. Qed.

Lemma new_inode_keeps real type : keeps stays (alloc_cache_inode real 0 type).
Proof. apply alloc_cache_inode_keeps. by right. Qed.
#[local] Hint Resolve open_file_keeps open_link_keeps new_inode_keeps : mksfs.

Lemma dir_loop_keeps add es : Forall (λ x, ∀ name, keeps stays (add x.2 name)) es → keeps stays (dir_loop add es).
Proof.
  induction 1 as [|[name x] es Hx _ IH]; cbn [dir_loop]; [keeps_mk|]. keeps_mk.
Qed.

Lemma open_dir_keeps add current parent es :
  Forall (λ x, ∀ name, keeps stays (add x.2 current name)) es → keeps stays (open_dir add current parent es).
Proof. intros H. unfold open_dir. keeps_mk. by apply dir_loop_keeps. Qed.

Lemma add_node_keeps x : ∀ current name, keeps stays (add_node x current name).
Proof.
  revert x. fix IH 1. intros [real target|real es|real data|] current name; cbn [add_node].
  - unfold add_link. keeps_mk.
  - assert (∀ d, keeps stays (open_dir add_node d current es)) as Hd.
    { intros d. apply open_dir_keeps. induction es as [|[nm x] es IHes]; constructor; [|done]. intros nm'. apply IH. }
    clear IH. unfold search_cache_inode, subpath_push, subpath_pop. keeps_mk.
  - unfold add_file, search_cache_inode. keeps_mk.
  - keeps_mk.
Qed.

End mksfs.

(** ** The free map *)

Lemma lor_mask_range w o : 0 ≤ w < 2 ^ 32 → 0 ≤ o < 32 → 0 ≤ Z.lor w (mask o) < 2 ^ 32.
Proof.
  intros Hw Ho. assert (0 ≤ Z.lor w (mask o)) as H0 by (apply Z.lor_nonneg; split; [lia|apply u32_range]).
  apply range_testbit; [done|]. intros k Hk. rewrite Z.lor_spec, mask_testbit, (testbit_range w) by lia. by rewrite bool_decide_eq_false_2 by lia.
Qed.

Lemma set_bits_spec k j data :
  0 ≤ j → (∀ w, 0 ≤ data w < 2 ^ 32) →
  (∀ w, 0 ≤ set_bits k j data w < 2 ^ 32) ∧
  ∀ i, 0 ≤ i → Z.testbit (set_bits k j data (i / 32)) (i mod 32) =
    (Z.testbit (data (i / 32)) (i mod 32) || bool_decide (j ≤ i < j + Z.of_nat k))%bool.
Proof.
  revert j data. induction k as [|k IH]; intros j data Hj Hd; cbn [set_bits].
  { split; [done|]. intros i Hi. rewrite bool_decide_eq_false_2 by lia. by rewrite orb_false_r. }
  fold (mask (j mod 32)). pose proof (index_split j) as [Hj1 Hj2]. destruct (IH (j + 1) (upd (j / 32) (Z.lor (data (j / 32)) (mask (j mod 32))) data)) as [H1 H2].
  { lia. }
  { intros w. destruct (decide (j / 32 = w)) as [<-|]; [rewrite upd_eq; by apply lor_mask_range|by rewrite upd_ne]. }
  split; [done|]. intros i Hi. rewrite H2 by done. pose proof (index_split i) as [Hi1 Hi2]. destruct (decide (j / 32 = i / 32)) as [E|E].
  - rewrite E, upd_eq, Z.lor_spec, mask_testbit by lia. rewrite <-orb_assoc. f_equal.
    rewrite (bool_decide_ext (j ≤ i < j + Z.of_nat (S k)) (i mod 32 = j mod 32 ∨ j + 1 ≤ i < j + 1 + Z.of_nat k)) by lia.
    by rewrite bool_decide_or.
  - rewrite upd_ne by done. f_equal. apply bool_decide_ext. lia.
Qed.

(** The map the program writes: the blocks from [next] on are free. *)
Definition mk_map (n next : Z) : bitmap :=
  Bitmap (32768 * map_blocks n) (1024 * map_blocks n) (λ ix, map_words n next (32768 * (ix / 1024)) (ix mod 1024)).

Lemma map_words_spec n next i :
  (∀ w, 0 ≤ map_words n next i w < 2 ^ 32) ∧
  ∀ j, 0 ≤ j < 32768 → Z.testbit (map_words n next i (j / 32)) (j mod 32) = bool_decide (next ≤ i + j < n).
Proof.
  unfold map_words. change SFS_BLKBITS with 32768. destruct (Z.ltb_spec next (i + 32768)).
  - set (start := if i <? next then next - i else 0). set (stop := if n <? i + 32768 then n - i else 32768).
    assert (0 ≤ start ∧ ∀ j, 0 ≤ j < 32768 → (start ≤ j < stop ↔ next ≤ i + j < n)) as [Hs Hj].
    { unfold start, stop. destruct (Z.ltb_spec i next), (Z.ltb_spec n (i + 32768)); split; intros; lia. }
    destruct (set_bits_spec (Z.to_nat (stop - start)) start (λ _, 0) Hs) as [H1 H2]; [lia|]. split; [exact H1|]. intros j Hj'. rewrite H2 by lia.
    rewrite Z.testbit_0_l. apply bool_decide_ext. rewrite <-Hj by done. lia.
  - split; [lia|]. intros j Hj. rewrite Z.testbit_0_l, bool_decide_eq_false_2 by lia. done.
Qed.

Lemma mk_map_free n next i : is_free (mk_map n next) i = bool_decide (next ≤ i < n).
Proof.
  unfold is_free. cbn [map mk_map]. destruct (map_words_spec n next (32768 * (i / 32 / 1024))) as [_ H].
  assert (i = 32768 * (i / 32 / 1024) + i mod 32768 ∧ 0 ≤ i mod 32768 < 32768) as [E1 E2].
  { rewrite Z.div_div by lia. split; [apply Z.div_mod; lia|apply Z.mod_pos_bound; lia]. }
  assert ((i / 32) mod 1024 = i mod 32768 / 32 ∧ i mod 32 = (i mod 32768) mod 32) as [-> ->].
  { clear. Z.to_euclidean_division_equations. lia. }
  rewrite H by done. apply bool_decide_ext. lia.
Qed.

Lemma filter_keeps_all {A} (P : A → Prop) `{!∀ x, Decision (P x)} (l : list A) : (∀ x, x ∈ l → P x) → filter P l = l.
Proof.
  intros Hl. induction l as [|x l IH]; [done|]. rewrite filter_cons_True by (apply Hl; set_solver). f_equal. apply IH. set_solver.
Qed.

Lemma mk_map_fits n next : 0 < n ≤ SFS_MAX_NBLKS → 0 < next ≤ n → map_fits n (n - next) (mk_map n next).
Proof.
  unfold SFS_MAX_NBLKS. intros Hn Hx. pose proof (map_blocks_bounds n ltac:(lia)) as [Hb Hp]. split; try done; try lia.
  - intros ix. apply map_words_spec.
  - intros i Hi. rewrite mk_map_free. intros ?%bool_decide_eq_true. lia.
  - unfold count_free. cbn [nbits mk_map].
    replace (32768 * map_blocks n) with (next + ((n - next) + (32768 * map_blocks n - n))) by lia.
    rewrite !seqZ_app, !filter_app, !length_app by lia.
    rewrite (filter_keeps_all _ (seqZ (0 + next) (n - next))), length_seqZ.
    2: { intros i Hi%elem_of_seqZ. rewrite mk_map_free. apply bool_decide_eq_true. lia. }
    rewrite !filter_none; [cbn; lia|..]; intros i Hi%elem_of_seqZ; rewrite mk_map_free; intros ?%bool_decide_eq_true; lia.
Qed.

(** ** Closing the image *)

(** The super block and the free map: the blocks that no cached object belongs to. *)
Definition meta (n b : Z) : Prop := b = 0 ∨ 2 ≤ b < 2 + map_blocks n.

(** Blocks of files have been written. *)
Definition flushed (n : Z) (s s' : mksfs) : Prop :=
  cis s' = cis s ∧ cbs s' = cbs s ∧ inodes s' = inodes s ∧ blocks s' = blocks s ∧ next_ino s' = next_ino s ∧ ninos s' = ninos s ∧
  mk_info s' = mk_info s ∧ ∀ b, meta n b → img s' b = img s b.

#[global] Instance flushed_preorder n : PreOrder (flushed n).
Proof.
  split; [done|]. intros s1 s2 s3 (A1 & A2 & A3 & A4 & A5 & A6 & A7 & A8) (B1 & B2 & B3 & B4 & B5 & B6 & B7 & B8). unfold flushed.
  split_and!; try congruence. intros b Hb. by rewrite B8, A8.
Qed.

Lemma mk_write_block_inv data len ino s s' : mk_write_block data len ino s = Ok (tt, s') →
  len ≤ SFS_BLKSIZE ∧ ino < ninos s ∧ s' = set_img ino (λ o, if o <? len then data o else 0) s.
Proof.
  unfold mk_write_block. intros ([] & s1 & E1 & E2)%bind_ok_inv. injection E2 as <-. unfold asserts in E1.
  destruct ((len <=? SFS_BLKSIZE) && (ino <? ninos s))%bool eqn:E; [|done]. injection E1 as <-. b2p. done.
Qed.

Lemma write_own data len ino n s s' : mk_write_block data len ino s = Ok (tt, s') → own_block n ino → flushed n s s'.
Proof.
  intros (_ & _ & ->)%mk_write_block_inv Ho. unfold flushed. split_and!; try done. intros b Hb. cbn. rewrite upd_ne; [done|].
  unfold own_block, meta in *. lia.
Qed.

Lemma flush_all_flushed n (flush : Z → M mksfs unit) (ok : mksfs → Z → Prop) l s s' :
  (∀ s1 s2 p, flushed n s1 s2 → ok s1 p → ok s2 p) → (∀ p s1 s2, ok s1 p → flush p s1 = Ok (tt, s2) → flushed n s1 s2) →
  (∀ p, p ∈ l → ok s p) → flush_all flush l s = Ok (tt, s') → flushed n s s'.
Proof.
  intros Hok Hf. revert s. induction l as [|p l IH]; intros s Hl E; [by injection E as <-|].
  apply bind_ok_inv in E as ([] & s1 & E1 & E). apply Hf in E1; [|apply Hl; set_solver]. etrans; [exact E1|]. apply IH; [|done].
  intros q Hq. eapply Hok; [exact E1|]. apply Hl. set_solver.
Qed.

Definition chains_ok (n : Z) (s : mksfs) : Prop :=
  (∀ h p, p ∈ inodes s h → own_block n (ci_ino (cis s p))) ∧ (∀ h p, p ∈ blocks s h → own_block n (cb_ino (cbs s p))).

Lemma chains_flushed n s s' : flushed n s s' → chains_ok n s → chains_ok n s'.
Proof. intros (E1 & E2 & E3 & E4 & _) [H1 H2]. split; intros h p; rewrite ?E1, ?E2, ?E3, ?E4; eauto. Qed.

Lemma flush_chain n i s s' : chains_ok n s →
  (l ← gets (λ s, blocks s i); flush_all flush_cache_block l;; l ← gets (λ s, inodes s i); flush_all flush_cache_inode l) s = Ok (tt, s') →
  flushed n s s'.
Proof.
  intros Hc E. rewrite bind_gets in E. apply bind_ok_inv in E as ([] & s1 & E1 & E). rewrite bind_gets in E.
  assert (flushed n s s1) as F1.
  { eapply (flush_all_flushed n flush_cache_block (λ s p, own_block n (cb_ino (cbs s p)))); [| | |exact E1].
    - by intros s2 s3 p (_ & -> & _).
    - intros p s2 s3 Ho E2. unfold flush_cache_block in E2. rewrite bind_gets in E2. by eapply write_own.
    - intros p Hp. by eapply Hc. }
  etrans; [exact F1|]. apply (chains_flushed _ _ _ F1) in Hc.
  eapply (flush_all_flushed n flush_cache_inode (λ s p, own_block n (ci_ino (cis s p)))); [| | |exact E].
  - by intros s2 s3 p (-> & _).
  - intros p s2 s3 Ho E2. unfold flush_cache_inode in E2. rewrite bind_gets in E2. by eapply write_own.
  - intros p Hp. by eapply Hc.
Qed.

Lemma flush_chains n k i s s' : chains_ok n s →
  for_range i k (λ i, l ← gets (λ s, blocks s i); flush_all flush_cache_block l;; l ← gets (λ s, inodes s i); flush_all flush_cache_inode l) s = Ok (tt, s') →
  flushed n s s'.
Proof.
  revert i s. induction k as [|k IH]; intros i s Hc E; [by injection E as <-|]. cbn [for_range] in E.
  apply bind_ok_inv in E as ([] & s1 & E1 & E). apply (flush_chain n) in E1; [|done]. etrans; [exact E1|].
  eapply IH; [by eapply chains_flushed|exact E].
Qed.

(** The blocks of the map from the [k]-th on. *)
Lemma write_freemap_spec m k s s' :
  0 < ninos s ≤ SFS_MAX_NBLKS → 0 ≤ k → map_blocks (ninos s) ≤ k + Z.of_nat m → write_freemap m (32768 * k) (2 + k) s = Ok (tt, s') →
  ∃ g, s' = Mksfs (mk_blocks s) (mk_unused s) (mk_info s) (ninos s) (next_ino s) (subpath s) (cis s) (cbs s) (inodes s) (blocks s) (mk_ptr s) (entry_name s) g ∧
    (∀ b, b < 2 + k ∨ 2 + map_blocks (ninos s) ≤ b → g b = img s b) ∧
    ∀ b, 2 + k ≤ b < 2 + map_blocks (ninos s) → ∀ o, 0 ≤ o < 4096 → g b o = words_encode (1024 * (b - 2)) (mk_map (ninos s) (next_ino s)) o.
Proof.
  revert k s. induction m as [|m IH]; intros k s Hn Hk Hm E.
  { injection E as <-. exists (img s). split; [by destruct s|]. split; [done|]. lia. }
  pose proof Hn as Hn'. unfold SFS_MAX_NBLKS in Hn'. pose proof (map_blocks_bounds (ninos s) ltac:(lia)) as [Hb Hp].
  cbn [write_freemap] in E. rewrite bind_gets in E. cbn [id] in E. destruct (Z.ltb_spec (32768 * k) (ninos s)) as [Hlt|Hge].
  2: { injection E as <-. exists (img s). split; [by destruct s|]. split; [done|]. lia. }
  apply bind_ok_inv in E as ([] & s1 & (_ & _ & ->)%mk_write_block_inv & E). change SFS_BLKBITS with 32768 in E.
  replace (32768 * k + 32768) with (32768 * (k + 1)) in E by lia. replace (2 + k + 1) with (2 + (k + 1)) in E by lia.
  apply IH in E as (g & -> & H1 & H2); [|done|lia|cbn; lia]. cbn in H1, H2. exists g. split; [done|]. split.
  - intros b Hb'. rewrite H1 by lia. by rewrite upd_ne by lia.
  - intros b Hb' o Ho. destruct (decide (b = 2 + k)) as [->|]; [|apply H2; [lia|done]]. rewrite H1, upd_eq by lia.
    change SFS_BLKSIZE with 4096. rewrite (proj2 (Z.ltb_lt o 4096)) by lia. unfold words_encode. cbn [map mk_map]. f_equal.
    assert (0 ≤ o / 4 < 1024) as Hq by (split; [apply Z.div_pos; lia|apply Z.div_lt_upper_bound; lia]).
    replace ((1024 * (2 + k - 2) + o / 4) / 1024) with k; [replace ((1024 * (2 + k - 2) + o / 4) mod 1024) with (o / 4); [done|]|].
    + rewrite Z.add_comm, Z.mul_comm, Z.mod_add by lia. by rewrite Z.mod_small by lia.
    + rewrite Z.add_comm, Z.mul_comm, Z.div_add by lia. rewrite Z.div_small by lia. lia.
Qed.

Lemma le32_ext f g off : (∀ j, 0 ≤ j < 4 → f (off + j) = g (off + j)) → le32 f off = le32 g off.
Proof. intros H. unfold le32. pose proof (H 0 ltac:(lia)) as H0. rewrite !Z.add_0_r in H0. by rewrite H0, !H by lia. Qed.

(** What is in the image when the program is done. *)
Lemma close_sfs_image n info s s' :
  0 < n ≤ SFS_MAX_NBLKS → mk_ok n info s → close_sfs s = Ok (tt, s') →
  image (img s') n (n - next_ino s) info (mk_map n (next_ino s)) ∧ next_ino s' = next_ino s ∧ ninos s' = n ∧ mk_info s' = info.
Proof.
  intros Hn [[En Enb] Ei Hx Hu Hc1 Hc2] E. unfold close_sfs in E. rewrite bind_gets in E. apply bind_ok_inv in E as ([] & s1 & E1 & E).
  pose proof Hn as Hn'. unfold SFS_MAX_NBLKS in Hn'. pose proof (map_blocks_bounds n ltac:(lia)) as [Hb Hp]. rewrite bind_gets in E. cbn [id] in E.
  apply (write_freemap_spec _ 0) in E1 as (g & -> & _ & Hg); [|by rewrite En|done|].
  2: { rewrite En. change SFS_BLKBITS with 32768. unfold map_blocks in *. Z.to_euclidean_division_equations. lia. }
  rewrite En in Hg. apply bind_ok_inv in E as ([] & s2 & (_ & _ & ->)%mk_write_block_inv & E). cbn in E.
  apply (flush_chains n 1024) in E as (_ & _ & _ & _ & F1 & F2 & F3 & F4); [|by split].
  cbn in F1, F2, F3, F4. split; [|rewrite F1, F2, F3; by split_and!].
  assert (∀ o, img s' 0 o = if o <? 44 then super_bytes s o else 0) as H0 by (intros o; rewrite F4 by (by left); by rewrite upd_eq).
  assert (∀ off x, 0 ≤ off → off + 4 ≤ 44 → 0 ≤ x < 2 ^ 32 → (∀ j, 0 ≤ j < 4 → super_bytes s (off + j) = byte32 x j) → le32 (img s' 0) off = x) as Hle.
  { intros off x Ho1 Ho2 Hr Hx'. apply le32_bytes; [done|]. intros j Hj. rewrite H0, (proj2 (Z.ltb_lt _ _)) by lia. by apply Hx'. }
  split.
  - apply Hle; [lia|lia|done|]. intros j Hj. unfold super_bytes. rewrite (proj2 (Z.ltb_lt (0 + j) 4)) by lia. f_equal; lia.
  - apply Hle; [lia|lia|lia|]. intros j Hj. unfold super_bytes. rewrite (proj2 (Z.ltb_ge (4 + j) 4)), (proj2 (Z.ltb_lt (4 + j) 8)) by lia.
    rewrite Enb. f_equal; lia.
  - apply Hle; [lia|lia|lia|]. intros j Hj. unfold super_bytes.
    rewrite (proj2 (Z.ltb_ge (8 + j) 4)), (proj2 (Z.ltb_ge (8 + j) 8)), (proj2 (Z.ltb_lt (8 + j) 12)) by lia. rewrite Hu. f_equal; lia.
  - intros o Ho. rewrite H0, (proj2 (Z.ltb_lt _ _)) by lia. unfold super_bytes.
    rewrite (proj2 (Z.ltb_ge (12 + o) 4)), (proj2 (Z.ltb_ge (12 + o) 8)), (proj2 (Z.ltb_ge (12 + o) 12)) by lia. rewrite Ei. f_equal; lia.
  - intros k w Hk Hw. rewrite F4, upd_ne by (unfold meta, SFS_BLKN_SUPER; lia).
    rewrite (le32_ext _ (words_encode (1024 * k) (mk_map n (next_ino s)))).
    + apply le32_words; [done|]. intros ix. apply map_words_spec.
    + intros j Hj. rewrite Hg by lia. f_equal; lia.
Qed.

(** The state of [create_sfs]. *)
Lemma create_sfs_ok size file junk root s :
  create_sfs size file junk = Ok (root, s) →
  ninos s = Z.min (u32 (size / SFS_BLKSIZE)) SFS_MAX_NBLKS ∧ 0 < ninos s ≤ SFS_MAX_NBLKS ∧ mk_ok (ninos s) (mk_info s) s.
Proof.
  unfold create_sfs. set (k := if SFS_MAX_NBLKS <? u32 (size / SFS_BLKSIZE) then SFS_MAX_NBLKS else u32 (size / SFS_BLKSIZE)).
  assert (k = Z.min (u32 (size / SFS_BLKSIZE)) SFS_MAX_NBLKS ∧ 0 ≤ k ≤ SFS_MAX_NBLKS) as [Hmin Hk].
  { unfold k, SFS_MAX_NBLKS. pose proof (u32_range (size / SFS_BLKSIZE)). destruct (Z.ltb_spec (1024 * 512) (u32 (size / SFS_BLKSIZE))); lia. }
  unfold SFS_MAX_NBLKS in Hk. change SFS_BLKBITS with 32768. change SFS_BLKN_FREEMAP with 2. rewrite (u32_small (k + 32768 - 1)) by lia.
  replace ((k + 32768 - 1) / 32768) with (map_blocks k) by (unfold map_blocks; f_equal; lia).
  destruct (Z.leb_spec k (2 + map_blocks k)) as [|Hgt]; [done|]. intros E.
  assert (0 ≤ map_blocks k) as Hp by (unfold map_blocks; apply Z.div_pos; lia).
  assert (0 < k ≤ SFS_MAX_NBLKS) as Hk' by (unfold SFS_MAX_NBLKS; lia).
  set (s0 := Mksfs k _ _ _ _ _ _ _ _ _ _ _ _) in E. pose proof (alloc_cache_inode_keeps k (mk_info s0) Hk' 0 1 SFS_TYPE_DIR (or_introl (or_introl eq_refl)) _ _ _ E) as Hst.
  assert (mk_ok k (mk_info s0) s) as Hok by (apply Hst; split; cbn; try done; [lia|set_solver|set_solver]).
  pose proof (ok_n _ _ _ Hok) as [-> _]. rewrite (ok_info _ _ _ Hok). done.
Qed.

(** ** The program comes to its end

    The only loop with a bound is the one of [open_file]; one block more than the file
    has bytes is enough. *)

Definition ends {A} (m : M mksfs A) : Prop := ∀ s, m s ≠ Fuel.

Lemma ends_bind {A B} (m : M mksfs A) (k : A → M mksfs B) : ends m → (∀ a, ends (k a)) → ends (m ≫= k).
Proof. intros Hm Hk s. unfold mbind, M_bind. destruct (m s) as [[a s1]| |] eqn:E; [apply Hk|done|by destruct (Hm s)]. Qed.

Lemma ends_assert b : ends (assert b).
Proof. intros s. unfold assert. by destruct b. Qed.

Lemma ends_asserts f : ends (asserts f).
Proof. intros s. unfold asserts. by destruct (f s). Qed.

Create HintDb ends.
#[local] Hint Resolve ends_assert ends_asserts : ends.

Ltac ends_auto :=
  repeat match goal with
    | |- ends (_ ≫= _) => apply ends_bind; [|intros ?]
    | |- ends (match ?x with _ => _ end) => destruct x
    | |- ends (let _ := _ in _) => intros ?
    | |- ends _ => solve [auto 2 with ends nocore | done]
    end.

Lemma sfs_alloc_ino_ends : ends sfs_alloc_ino.
Proof. unfold sfs_alloc_ino. ends_auto. Qed.

Lemma mk_write_block_ends data len ino : ends (mk_write_block data len ino).
Proof. unfold mk_write_block. ends_auto. Qed.
#[local] Hint Resolve sfs_alloc_ino_ends mk_write_block_ends : ends.

Lemma alloc_cache_block_ends ino : ends (alloc_cache_block ino).
Proof. unfold alloc_cache_block, safe_malloc. ends_auto. Qed.

Lemma alloc_cache_inode_ends real ino type : ends (alloc_cache_inode real ino type).
Proof. unfold alloc_cache_inode, safe_malloc. ends_auto. Qed.
#[local] Hint Resolve alloc_cache_block_ends alloc_cache_inode_ends : ends.

Lemma update_cache_ends cb ino : ends (update_cache cb ino).
Proof. unfold update_cache. ends_auto. Qed.
#[local] Hint Resolve update_cache_ends : ends.

Lemma append_block_ends file size ino : ends (append_block file size ino).
Proof. unfold append_block. ends_auto. Qed.
#[local] Hint Resolve append_block_ends : ends.

Lemma add_entry_ends current file name : ends (add_entry current file name).
Proof. unfold add_entry. ends_auto. Qed.

Lemma open_file_ends k file data : (length data < k)%nat → ends (open_file k file data).
Proof.
  revert data. induction k as [|k IH]; intros data Hk; [lia|]. cbn [open_file]. destruct data as [|x data]; [done|].
  ends_auto. apply IH. rewrite length_drop. cbn in *. lia.
Qed.

Lemma open_link_ends file target : ends (open_link file target).
Proof. unfold open_link. ends_auto. Qed.
#[local] Hint Resolve add_entry_ends open_link_ends : ends.

Lemma dir_loop_ends add es : Forall (λ x, ∀ name, ends (add x.2 name)) es → ends (dir_loop add es).
Proof. induction 1 as [|[name x] es Hx _ IH]; cbn [dir_loop]; [done|]. ends_auto. Qed.

Lemma add_node_ends x : ∀ current name, ends (add_node x current name).
Proof.
  revert x. fix IH 1. intros [real target|real es|real data|] current name; cbn [add_node].
  - unfold add_link. ends_auto.
  - assert (∀ d, ends (open_dir add_node d current es)) as Hd.
    { intros d. unfold open_dir. ends_auto. apply dir_loop_ends.
      induction es as [|[nm x] es IHes]; constructor; [|done]. intros nm'. apply IH. }
    clear IH. unfold subpath_pop. ends_auto.
  - unfold add_file. clear IH. ends_auto. apply open_file_ends. lia.
  - done.
Qed.

Lemma write_freemap_ends k i ino : ends (write_freemap k i ino).
Proof. revert i ino. induction k as [|k IH]; intros i ino; cbn [write_freemap]; [done|]. ends_auto. Qed.

Lemma flush_all_ends flush l : (∀ p, ends (flush p)) → ends (flush_all flush l).
Proof. intros H. induction l as [|p l IH]; cbn [flush_all]; [done|]. ends_auto. Qed.

Lemma for_range_ends i k body : (∀ i, ends (body i)) → ends (for_range i k body).
Proof. intros H. revert i. induction k as [|k IH]; intros i; cbn [for_range]; [done|]. ends_auto. Qed.

Lemma create_img_ends root home : ends (create_img root home).
Proof.
  unfold create_img, open_dir, close_sfs. ends_auto.
  - apply dir_loop_ends, Forall_forall. intros x _ name. apply add_node_ends.
  - apply write_freemap_ends.
  - apply for_range_ends. intros i. ends_auto; apply flush_all_ends; intros p; unfold flush_cache_block, flush_cache_inode; ends_auto.
Qed.

(** ** Properties *)

(** C14. What [mksfs] makes, the kernel mounts: [mksfs] comes to its end on every directory tree
    (in a [bug] or a failed assertion where the tree does not fit), and when it has made an
    image, [sfs_do_mount] on a disk with the image succeeds with the super block and the free
    map of the image, unless the allocator refuses a request in this very call: then it
    returns [-E_NO_MEM], and panics with the allocator that may not refuse.  The volume has as many blocks as fit
    into the image file, at most [SFS_MAX_NBLKS]; exactly the blocks behind the last one
    taken are free, and their number is the one in the super block, as [sfs_do_mount] asserts. *)
Theorem mksfs_image_mounts dev_ret d_blocks (kmalloc : Z → M node_st (option Z)) kfree `{!AllocLaws kmalloc kfree}
    size file junk home root s dev :
  (∀ b w, dev_ret b w = 0) → create_sfs size file junk = Ok (root, s) → ninos s ≤ d_blocks →
  let n := Z.min (u32 (size / SFS_BLKSIZE)) SFS_MAX_NBLKS in
  create_img root home s ≠ Fuel ∧
  ∀ s', create_img root home s = Ok (tt, s') →
  let next := next_ino s' in
  2 + map_blocks n ≤ next ≤ n ∧
  (∀ i, is_free (mk_map n next) i = true ↔ next ≤ i < n) ∧
  ∀ t, disk (fsd t) = img s' →
  ∃ ret r t', sfs_do_mount dev_ret d_blocks SFS_BLKSIZE kmalloc kfree dev t = Ok ((ret, r), t') ∧
    mount_outcome (sfs_do_mount dev_ret d_blocks SFS_BLKSIZE (must kmalloc) kfree dev t)
      (img s') n (n - next) (mk_info s) (mk_map n next) ret r t'.
Proof.
  intros Hdev Ec Hdb n. split; [apply create_img_ends|]. intros s' Ei next. destruct (create_sfs_ok _ _ _ _ _ Ec) as (Hmin & Hn & Hok).
  fold n in Hmin. rewrite Hmin in Hn, Hok, Hdb. apply bind_ok_inv in Ei as ([] & s1 & E1 & E2).
  assert (mk_ok n (mk_info s) s1) as Hok1.
  { eapply open_dir_keeps; [exact Hn| |exact E1|exact Hok]. apply Forall_forall. intros x _ name. by apply add_node_keeps. }
  destruct (close_sfs_image _ _ _ _ Hn Hok1 E2) as (Him & Hnx & _). unfold next. rewrite Hnx. pose proof (ok_next _ _ _ Hok1) as Hr.
  split; [done|]. pose proof (map_blocks_bounds n) as Hmb. unfold SFS_MAX_NBLKS in Hn. split.
  { intros i. rewrite mk_map_free. apply bool_decide_eq_true. }
  intros t Hd. rewrite <-Hd in Him |- *. apply (sfs_do_mount_correct dev_ret d_blocks SFS_BLKSIZE Hdev kmalloc kfree); try done.
  apply mk_map_fits; [done|lia].
Qed.

(** A directory with a file [a] and a directory [b] that has a link [c] to it. *)
Definition example_home : list (list Z * hnode) := [([97], HFile 5 [104; 105]); ([98], HDir 6 [([99], HLink 7 [97])])].
Definition made {A S} (d : A * S) (r : res (A * S)) : A * S := match r with Ok x => x | _ => d end.
Definition example_start : Z * mksfs :=
  made (0, Mksfs 0 0 (λ _, 0) 0 0 [] (λ _, CacheInode 0 0 0 0 (λ _, 0) 0 0 0 0 0 None None) (λ _, CacheBlock 0 (λ _, 0)) (λ _, []) (λ _, []) 0 (λ _, 0) (λ _ _, 0))
    (create_sfs 65536 (λ _ _, 0) (λ _, 0)).
Definition example_end : unit * mksfs := made (tt, example_start.2) (create_img example_start.1 example_home example_start.2).

Lemma made_ok {A S} (d : A * S) r : match r with Ok _ => true | _ => false end = true → r = Ok (made d r).
Proof. by destruct r. Qed.

Lemma example_start_ok : create_sfs 65536 (λ _ _, 0) (λ _, 0) = Ok example_start.
Proof. apply made_ok. by vm_compute. Qed.

Lemma example_end_ok : create_img example_start.1 example_home example_start.2 = Ok example_end.
Proof. apply made_ok. by vm_compute. Qed.

(** A disk with the blocks [d]. *)
Definition example_disk_with (d : Z → Z → Z) : sfst :=
  Sfst (λ p, p mod 256) d 8 4 false small_map 0 (λ _, 0) [] (λ _, 0) (λ _, SFS_TYPE_FILE) (λ _, 1) (λ _, 0) (λ _ _, 0) (λ _, 0) (λ _, 0) (λ n, n)
    (λ _, false) (λ _, 1) (λ e, ListEntry e e) (λ e, ListEntry e e).

Lemma example_disk_read d : disk (fsd (example_node (example_disk_with d))) = d.
Proof. done. Qed.

Lemma mksfs_image_mounts_witness :
  next_ino example_end.2 = 15 ∧
  ∃ r t', sfs_do_mount no_errors 16 4096 bump_kmalloc bump_kfree 9 (example_node (example_disk_with (img example_end.2))) = Ok ((0, r), t') ∧
    mounted (img example_end.2) 16 1 (mk_info example_start.2) (mk_map 16 15) r t'.
Proof.
  destruct (mksfs_image_mounts no_errors 16 bump_kmalloc bump_kfree 65536 (λ _ _, 0) (λ _, 0) example_home example_start.1 example_start.2 9) as [_ H];
    [done|by rewrite example_start_ok; destruct example_start|by vm_compute|].
  destruct (H example_end.2) as (_ & _ & Hm); [rewrite example_end_ok; by destruct example_end as [[] ?]|].
  assert (next_ino example_end.2 = 15) as E by by vm_compute. split; [exact E|]. rewrite E in Hm.
  destruct (Hm (example_node (example_disk_with (img example_end.2))) (example_disk_read _)) as (ret & r & t' & Em & Hout). clear Hm H.
  destruct Hout as [[Hret Hout]|(_ & _ & _ & Hp)].
  - rewrite Hret in Em. exists r, t'. split; [exact Em|exact Hout].
  - exfalso. assert (match sfs_do_mount no_errors 16 SFS_BLKSIZE (must bump_kmalloc) bump_kfree 9 (example_node (example_disk_with (img example_end.2))) with
      | Panic => true | _ => false end = false) as Hx by (vm_compute; reflexivity).
    rewrite Hp in Hx. discriminate Hx.
Defined.
