(* ===== verification/FileData.v ===== *)
(** * Reading of files: the data

    What a read of an open file delivers, from the inode operation up to
    [sysfile_read] into kernel memory: the bytes of the file at the position of the
    descriptor.  A file system promises [FileData] for an inode; the layers above
    are proved against it. *)

From S2P Require Import Prelude ListH CString Vmm VmmProofs Vfs File Sysfile.

(** [s] with the open files, memory and the file systems' own data replaced: all
    that input and output may change. *)
Definition io_parts {F} (a : Z → Z → file) (m : mem) (d : F) (s : vst F) : vst F :=
  Vst (i_ref s) (i_open s) (i_type s) (i_ops s) (i_fs s) (f_pwd s) a (f_count s) (cur_filesp s)
    (bootfs_node s) (vdev_list s) (cur_mm s) (k_vmm s) m d.

Definition io_only {F} (s s' : vst F) : Prop := s' = io_parts (f_array s') (k_mem s') (fsd s') s.

#[global] Instance io_only_preorder {F} : PreOrder (@io_only F).
Proof. split; [by intros []|]. intros s1 s2 s3 H1 H2. red in H1, H2 |- *. rewrite H2 at 1. by rewrite H1. Qed.

(** The content of an inode and how its operations deliver it: a transfer of at most
    [IOBUF_SIZE] bytes inside the file fills the buffer and changes no other memory. *)
Class FileData {F} (op : inode_ops (vst F)) (node : Z) (content : list Z) (good : vst F → Prop) : Prop := {
  data_bytes : Forall (λ b, 0 ≤ b < 256) content;
  data_stable : ∀ s s', good s → fsd s' = fsd s → i_type s' = i_type s → good s';
  data_seek : ∀ s pos, good s → 0 ≤ pos ≤ Z.of_nat (length content) →
    ∃ f s', vop_tryseek op = Some f ∧ f node pos s = Ok (0, s') ∧ s' = set_fsd (fsd s') s ∧ good s';
  data_read : ∀ s iob, good s → 0 ≤ io_offset iob → 0 ≤ io_resid iob ≤ IOBUF_SIZE →
    io_resid iob ≤ io_len iob < 2 ^ 64 → io_offset iob + io_resid iob ≤ Z.of_nat (length content) →
    ∃ f s', vop_read op = Some f ∧
      f node iob s = Ok ((0, Iobuf (io_base iob + io_resid iob) (io_offset iob + io_resid iob) (io_len iob) 0), s') ∧
      s' = set_k_mem (k_mem s') (set_fsd (fsd s') s) ∧ good s' ∧
      (∀ i, 0 ≤ i < io_resid iob → content !! Z.to_nat (io_offset iob + i) = Some (k_mem s' (io_base iob + i))) ∧
      (∀ a, ¬ io_base iob ≤ a < io_base iob + io_resid iob → k_mem s' a = k_mem s a);
}.

Section file_data.
Context {F : Type} (ops : ops_kind → inode_ops (vst F)) (kd : ops_kind) (node : Z) (content : list Z).
Context (good : vst F → Prop) `{!FileData (ops kd) node content good}.

Implicit Types s : vst F.

(** Descriptor [fd] of the table [p] of the current process is open for reading on the
    inode. *)
Record readable (s : vst F) (p fd : Z) : Prop := Readable {
  rd_cur : cur_filesp s = Some p;
  rd_count : 0 < f_count s p;
  rd_fd : testfd fd = true;
  rd_status : fl_status (f_array s p fd) = FD_OPENED;
  rd_self : fl_fd (f_array s p fd) = fd;
  rd_mode : fl_readable (f_array s p fd) = true;
  rd_node : fl_node (f_array s p fd) = Some node;
  rd_opens : 0 < fl_open_count (f_array s p fd) < 2 ^ 31 - 1;
  rd_ops : i_ops s node = Some kd;
  rd_inode : 0 ≤ i_open s node ≤ i_ref s node;
  rd_refs : i_ref s node < MAX_INODE_COUNT;
  rd_good : good s;
}.

(** Only the position of the descriptor has changed in the tables. *)
Definition seeked (s s' : vst F) (p fd pos : Z) : Prop :=
  io_only s s' ∧
  ∀ p' fd', f_array s' p' fd' = if decide (p' = p ∧ fd' = fd) then fl_set_pos pos (f_array s p fd) else f_array s p' fd'.

Lemma seeked_pos s s' p fd pos : seeked s s' p fd pos → fl_pos (f_array s' p fd) = pos.
Proof. intros [_ H]. by rewrite H, decide_True. Qed.

Lemma seeked_trans s s1 s2 p fd pos pos' : seeked s s1 p fd pos → seeked s1 s2 p fd pos' → seeked s s2 p fd pos'.
Proof.
  intros [O1 H1] [O2 H2]. split; [by etrans|]. intros p' fd'. rewrite H2. case_decide as E; [|by rewrite H1, decide_False].
  by rewrite H1, decide_True.
Qed.

Lemma readable_seeked s s' p fd pos : seeked s s' p fd pos → good s' → readable s p fd → readable s' p fd.
Proof.
  intros [O H] Hg R. pose proof (H p fd) as Hf. rewrite decide_True in Hf by done. destruct R.
  red in O. split; try done; rewrite O; cbn; rewrite ?Hf; done.
Qed.

(** Only the tables and memory have changed. *)
Lemma good_io s s' : io_only s s' → fsd s' = fsd s → good s → good s'.
Proof. intros O Ed Hg. eapply (data_stable s); [done..|]. red in O. by rewrite O. Qed.

(** *** The operation between [fd_array_acquire] and [fd_array_release] *)

Lemma vop_op_data {A} (sym : inode_ops (vst F) → option A) f s :
  i_ops s node = Some kd → 0 ≤ i_open s node ≤ i_ref s node → i_ref s node < MAX_INODE_COUNT →
  sym (ops kd) = Some f → vop_op ops sym node s = Ok (f, s).
Proof.
  intros Ho Hi Hr Hf. unfold vop_op. rewrite bind_gets, Ho. simpl. rewrite Hf. unfold inode_check. rewrite !bind_assoc.
  rewrite bind_asserts by (by apply bool_decide_eq_true_2; rewrite Ho).
  rewrite !bind_assoc, bind_asserts by lia. by rewrite bind_asserts by lia.
Qed.

Lemma fd2file_readable s p fd : readable s p fd → fd2file fd s = Ok (Some p, s).
Proof.
  intros []. unfold fd2file, get_fd_array. rewrite rd_fd0, bind_assoc, bind_gets, rd_cur0. rewrite bind_assoc, bind_asserts by lia.
  rewrite bind_ret, bind_gets. unfold the_file. by rewrite bool_decide_eq_true_2.
Qed.

(** The table while the file is acquired. *)
Lemma acquire_spec s p fd :
  readable s p fd → ∃ s1, fd_array_acquire p fd s = Ok (tt, s1) ∧ io_only s s1 ∧ k_mem s1 = k_mem s ∧ fsd s1 = fsd s ∧
    ∀ p' fd', f_array s1 p' fd' = if decide (p' = p ∧ fd' = fd)
      then fl_set_open_count (fl_open_count (f_array s p fd) + 1) (f_array s p fd) else f_array s p' fd'.
Proof.
  intros []. unfold fd_array_acquire, fopen_count_inc, upd_file. rewrite bind_asserts by (by apply bool_decide_eq_true_2).
  rewrite bind_assoc, bind_modify, bind_gets. eexists. split; [reflexivity|]. split; [done|]. split_and!; [done..|].
  intros p' fd'. cbn. unfold upd. repeat (case_decide; subst; try done); rewrite ?s32_small by lia; try done; naive_solver.
Qed.

Lemma release_spec s p fd :
  fl_status (f_array s p fd) = FD_OPENED → 1 < fl_open_count (f_array s p fd) < 2 ^ 31 →
  ∃ s1, fd_array_release ops p fd s = Ok (tt, s1) ∧ io_only s s1 ∧ k_mem s1 = k_mem s ∧ fsd s1 = fsd s ∧
    ∀ p' fd', f_array s1 p' fd' = if decide (p' = p ∧ fd' = fd)
      then fl_set_open_count (fl_open_count (f_array s p fd) - 1) (f_array s p fd) else f_array s p' fd'.
Proof.
  intros Hst Hc. unfold fd_array_release, fopen_count_dec, upd_file, the_file.
  rewrite bind_asserts by (apply bool_decide_eq_true_2; by left). rewrite bind_asserts by lia.
  rewrite bind_assoc, bind_modify, bind_gets. cbn. rewrite !upd_eq. cbn. rewrite s32_small by lia.
  replace (_ - 1 =? 0) with false by lia. eexists. split; [reflexivity|]. split; [done|]. split_and!; [done..|].
  intros p' fd'. cbn. unfold upd. repeat (case_decide; subst; try done); naive_solver.
Qed.

(** A computation on an acquired file that leaves the descriptor at [pos]. *)
Lemma acquired_spec s s1 s2 p fd pos :
  readable s p fd → io_only s s1 →
  (∀ p' fd', f_array s1 p' fd' = if decide (p' = p ∧ fd' = fd)
      then fl_set_open_count (fl_open_count (f_array s p fd) + 1) (f_array s p fd) else f_array s p' fd') →
  seeked s1 s2 p fd pos →
  ∃ s3, fd_array_release ops p fd s2 = Ok (tt, s3) ∧ seeked s s3 p fd pos ∧ k_mem s3 = k_mem s2 ∧ fsd s3 = fsd s2.
Proof.
  intros R O1 H1 [O2 H2]. pose proof (H1 p fd) as Hf1. pose proof (H2 p fd) as Hf2. rewrite decide_True in Hf1, Hf2 by done.
  rewrite Hf1 in Hf2. pose proof (rd_opens _ _ _ R) as Ho. pose proof (rd_status _ _ _ R) as Hs.
  destruct (release_spec s2 p fd) as (s3 & E & O3 & Em & Ed & H3); [by rewrite Hf2|rewrite Hf2; cbn; lia|].
  exists s3. split; [done|]. split_and!; [|done..]. split; [etrans; [exact O1|]; by etrans|].
  intros p' fd'. rewrite H3, Hf2. case_decide as E1.
  - cbn. unfold fl_set_open_count, fl_set_pos. cbn. f_equal. lia.
  - by rewrite H2, decide_False, H1, decide_False.
Qed.

Lemma readable_acquired s s1 p fd :
  readable s p fd → io_only s s1 → fsd s1 = fsd s →
  (∀ p' fd', f_array s1 p' fd' = if decide (p' = p ∧ fd' = fd)
      then fl_set_open_count (fl_open_count (f_array s p fd) + 1) (f_array s p fd) else f_array s p' fd') →
  i_ops s1 node = Some kd ∧ (0 ≤ i_open s1 node ≤ i_ref s1 node) ∧ i_ref s1 node < MAX_INODE_COUNT ∧
  f_array s1 p fd = fl_set_open_count (fl_open_count (f_array s p fd) + 1) (f_array s p fd) ∧ good s1.
Proof.
  intros [] O1 Ed H1. rewrite H1, decide_True by done. split_and!; try done; try (by eapply good_io); red in O1; rewrite O1; cbn; tauto.
Qed.

(** *** kern/fs/file.c *)

Lemma file_seek_data s p fd pos :
  readable s p fd → 0 ≤ pos ≤ Z.of_nat (length content) →
  ∃ s', file_seek ops fd pos LSEEK_SET s = Ok (0, s') ∧ seeked s s' p fd pos ∧ k_mem s' = k_mem s ∧ readable s' p fd.
Proof.
  intros R Hp. unfold file_seek. rewrite (bind_ok _ _ _ _ _ (fd2file_readable _ _ _ R)). unfold with_node.
  destruct (acquire_spec s p fd R) as (s1 & E1 & O1 & Em1 & Ed1 & H1). rewrite (bind_ok _ _ _ _ _ E1).
  destruct (readable_acquired s s1 p fd R O1 Ed1 H1) as (Ho & Hi & Hr & Hf & Hg). unfold the_file. rewrite bind_gets, Hf. cbn [fl_node fl_set_open_count].
  rewrite (rd_node _ _ _ R). cbn [Z.eqb LSEEK_SET].
  destruct (data_seek s1 pos Hg Hp) as (f & s2 & Ef & E2 & O2 & Hg2).
  rewrite !bind_assoc, bind_ret, Z.eqb_refl. rewrite !bind_assoc, (bind_ok _ _ _ _ _ (vop_op_data _ _ _ Ho Hi Hr Ef)).
  rewrite !bind_assoc, (bind_ok _ _ _ _ _ E2). unfold upd_file. cbn [Z.eqb when]. rewrite !bind_assoc, bind_modify, bind_ret.
  destruct (acquired_spec s s1 (set_f_file p fd (fl_set_pos pos (f_array s2 p fd)) s2) p fd pos R O1 H1) as (s3 & E3 & S3 & Em3 & Ed3).
  { rewrite O2. split; [done|]. intros p' fd'. cbn. unfold upd. repeat (case_decide; subst; try done); naive_solver. }
  rewrite (bind_ok _ _ _ _ _ E3). exists s3. split; [done|]. split; [done|].
  split; [rewrite Em3, O2; cbn; by rewrite Em1|]. eapply readable_seeked; [done| |done].
  eapply (data_stable s2); [done|by rewrite Ed3|]. destruct S3 as [O3 _]. red in O3. rewrite O3, O2. cbn. red in O1. by rewrite O1.
Qed.

Lemma file_read_data s p fd base len pos :
  readable s p fd → fl_pos (f_array s p fd) = pos → 0 ≤ pos → 0 ≤ len ≤ IOBUF_SIZE → pos + len ≤ Z.of_nat (length content) →
  Z.of_nat (length content) < 2 ^ 63 →
  ∃ s', file_read ops fd base len s = Ok ((0, len), s') ∧ seeked s s' p fd (pos + len) ∧ readable s' p fd ∧
    (∀ i, 0 ≤ i < len → content !! Z.to_nat (pos + i) = Some (k_mem s' (base + i))) ∧ (∀ a, ¬ base ≤ a < base + len → k_mem s' a = k_mem s a).
Proof.
  intros R Hpos Hp Hl Hpl Hsz. unfold file_read. rewrite (bind_ok _ _ _ _ _ (fd2file_readable _ _ _ R)). unfold the_file.
  rewrite bind_gets, (rd_mode _ _ _ R). cbn [negb]. unfold file_io.
  destruct (acquire_spec s p fd R) as (s1 & E1 & O1 & Em1 & Ed1 & H1). rewrite (bind_ok _ _ _ _ _ E1).
  destruct (readable_acquired s s1 p fd R O1 Ed1 H1) as (Ho & Hi & Hr & Hf & Hg). unfold the_file. rewrite bind_gets, Hf. cbn [fl_node fl_pos fl_set_open_count].
  rewrite (rd_node _ _ _ R), Hpos.
  destruct (data_read s1 (iobuf_init base len pos) Hg Hp Hl ltac:(cbn; unfold IOBUF_SIZE in Hl; lia) Hpl) as (f & s2 & Ef & E2 & O2 & Hg2 & Hby & Hlv).
  cbn [iobuf_init io_base io_offset io_len io_resid] in *.
  rewrite (bind_ok _ _ _ _ _ (vop_op_data _ _ _ Ho Hi Hr Ef)), (bind_ok _ _ _ _ _ E2), bind_gets.
  assert (f_array s2 = f_array s1) as Efa by (by rewrite O2). rewrite Efa, Hf. cbn [fl_status fl_set_open_count].
  rewrite bool_decide_eq_true_2 by apply R. unfold iobuf_used, upd_file. cbn [io_len io_resid when]. rewrite Z.sub_0_r, u64_small by (unfold IOBUF_SIZE in Hl; lia).
  rewrite bind_modify, Efa, Hf. cbn [fl_pos fl_set_open_count]. rewrite Hpos, s64_small by lia.
  destruct (acquired_spec s s1 (set_f_file p fd (fl_set_pos (pos + len) (f_array s1 p fd)) s2) p fd (pos + len) R O1 H1) as (s3 & E3 & S3 & Em3 & Ed3).
  { rewrite O2. split; [done|]. intros p' fd'. cbn. unfold upd. repeat (case_decide; subst; try done); naive_solver. }
  rewrite <-Hf, (bind_ok _ _ _ _ _ E3). exists s3. split; [done|]. split; [done|].
  split.
  { eapply readable_seeked; [done| |done]. eapply (data_stable s2); [done|by rewrite Ed3|]. destruct S3 as [O3 _]. red in O3. rewrite O3, O2. cbn. red in O1. by rewrite O1. }
  rewrite Em3. cbn. split; [done|]. intros a Ha. by rewrite Hlv, Em1.
Qed.

(** *** kern/fs/sysfile.c, into kernel memory *)

Lemma copy_to_kernel s dst src n :
  KERNBASE ≤ dst → 0 < n → dst + n ≤ KERNTOP → dst ≤ src ∨ src + n ≤ dst →
  ∃ m, on_um (copy_to_user None dst src n) s = Ok (true, set_k_mem m s) ∧
    ∀ a, m a = if decide (dst ≤ a < dst + n) then k_mem s (src + (a - dst)) else k_mem s a.
Proof.
  intros H1 H2 H3 Hov. destruct (memcpy_spec (k_mem s) dst src n ltac:(lia) Hov) as (m & Em & Hm). exists m. split; [|done].
  assert (copy_to_user None dst src n (k_vmm s, k_mem s) = Ok (true, (k_vmm s, m))) as E.
  { unfold copy_to_user, user_mem_check, on_vmm. unfold KERNTOP, KERNBASE, KMEMSIZE in *.
    erewrite bind_ok by (apply zoom_ok; reflexivity).
    assert (KERN_ACCESS dst (u64 (dst + n)) = true) as ->.
    { rewrite u64_small by lia. unfold KERN_ACCESS, KERNTOP, KERNBASE, KMEMSIZE. lia. }
    cbn [negb fst snd]. unfold on_mem. by erewrite bind_ok by (apply zoom_ok; exact Em). }
  unfold on_um. rewrite (zoom_ok (λ s, (k_vmm s, k_mem s)) _ _ s _ _ E). cbn. by destruct s.
Qed.

(** What a read of [len] bytes at [pos] into memory at [base], through a buffer, does. *)
Record delivered (buffer : Z) (s s' : vst F) (p fd pos base len : Z) : Prop := Delivered {
  de_seeked : seeked s s' p fd (pos + len);
  de_readable : readable s' p fd;
  de_bytes : ∀ i, 0 ≤ i < len → content !! Z.to_nat (pos + i) = Some (k_mem s' (base + i));
  de_other : ∀ a, ¬ (base ≤ a < base + len) → ¬ (buffer ≤ a < buffer + IOBUF_SIZE) → k_mem s' a = k_mem s a;
}.

Lemma delivered_step buffer s s1 s2 p fd pos base n len :
  0 ≤ n ≤ len → (∀ a, base ≤ a < base + len → ¬ (buffer ≤ a < buffer + IOBUF_SIZE)) →
  delivered buffer s s1 p fd pos base n → delivered buffer s1 s2 p fd (pos + n) (base + n) (len - n) → delivered buffer s s2 p fd pos base len.
Proof.
  intros Hn Hl [S1 R1 B1 L1] [S2 R2 B2 L2]. replace (pos + n + (len - n)) with (pos + len) in S2 by lia.
  split; [by eapply seeked_trans|done| |].
  - intros i Hi. destruct (decide (i < n)).
    + rewrite L2; [apply B1; lia|lia|apply Hl; lia].
    + replace (base + i) with (base + n + (i - n)) by lia. rewrite <-B2 by lia. do 2 f_equal. lia.
  - intros a Ha Hna. rewrite L2, L1; [done|lia|done|lia|done].
Qed.

(** One round of the loop. *)
Lemma read_round s p fd pos buffer base n :
  readable s p fd → fl_pos (f_array s p fd) = pos → 0 ≤ pos → 0 < n ≤ IOBUF_SIZE →
  pos + n ≤ Z.of_nat (length content) → Z.of_nat (length content) < 2 ^ 63 →
  KERNBASE ≤ base → base + n ≤ KERNTOP →
  (∀ a, base ≤ a < base + n → ¬ (buffer ≤ a < buffer + IOBUF_SIZE)) →
  ∃ s1 m, file_read ops fd buffer n s = Ok ((0, n), s1) ∧
    on_um (copy_to_user None base buffer n) s1 = Ok (true, set_k_mem m s1) ∧
    delivered buffer s (set_k_mem m s1) p fd pos base n.
Proof.
  intros R Hpos Hp Hn Hpn Hsz Hb1 Hb2 Hbuf.
  destruct (file_read_data s p fd buffer n pos R Hpos Hp ltac:(lia) Hpn Hsz) as (s1 & E1 & S1 & R1 & B1 & L1).
  destruct (copy_to_kernel s1 base buffer n Hb1 ltac:(lia) Hb2) as (m & E2 & Hm).
  { destruct (decide (base ≤ buffer)); [by left|]. destruct (decide (buffer + n ≤ base)); [by right|]. exfalso.
    apply (Hbuf (Z.max base buffer)); unfold IOBUF_SIZE in *; lia. }
  exists s1, m. split; [done|]. split; [done|]. destruct S1 as [O1 F1]. split.
  - split; [|done]. red in O1 |- *. rewrite O1 at 1. done.
  - pose proof (rd_good _ _ _ R1) as Hg. destruct R1. split; try done. by eapply (data_stable s1).
  - intros i Hi. rewrite B1 by lia. cbn. rewrite Hm, decide_True by lia. do 2 f_equal. lia.
  - intros a Ha Hna. cbn. rewrite Hm, decide_False by lia. apply L1. unfold IOBUF_SIZE in *. lia.
Qed.

Lemma read_loop_data n s p fd pos buffer base len copied :
  readable s p fd → fl_pos (f_array s p fd) = pos → 0 ≤ pos → 0 ≤ len →
  pos + len ≤ Z.of_nat (length content) → Z.of_nat (length content) < 2 ^ 63 →
  KERNBASE ≤ base → base + len ≤ KERNTOP →
  (∀ a, base ≤ a < base + len → ¬ (buffer ≤ a < buffer + IOBUF_SIZE)) → (Z.to_nat len < n)%nat →
  ∃ s', read_loop ops n None fd buffer base len copied s = Ok ((copied + len, 0), s') ∧ delivered buffer s s' p fd pos base len.
Proof.
  intros R Hpos Hp Hl Hpl Hsz Hb1 Hb2 Hlive Hfuel. revert s pos base len copied R Hpos Hp Hl Hpl Hb1 Hb2 Hlive Hfuel.
  induction n as [|n IH]; intros s pos base len copied R Hpos Hp Hl Hpl Hb1 Hb2 Hlive Hfuel; [lia|]. cbn [read_loop].
  destruct (Z.eqb_spec len 0) as [->|Hl0]; cbn [negb].
  - exists s. rewrite Z.add_0_r. split; [done|]. split; [|done|lia|done]. split; [reflexivity|]. rewrite Z.add_0_r.
    intros p' fd'. case_decide as E; [|done]. destruct E as [-> ->]. rewrite <-Hpos. by destruct (f_array s p fd).
  - set (n0 := if len <? IOBUF_SIZE then len else IOBUF_SIZE). assert (0 < n0 ≤ IOBUF_SIZE ∧ n0 ≤ len) as [Hn0 Hn1] by (unfold n0, IOBUF_SIZE; destruct (Z.ltb_spec len 4096); lia).
    destruct (read_round s p fd pos buffer base n0 R Hpos Hp Hn0 ltac:(lia) Hsz Hb1 ltac:(lia)) as (s1 & m & E1 & E2 & D);
      [intros; apply Hlive; lia|].
    rewrite (bind_ok _ _ _ _ _ E1). replace (n0 =? 0) with false by lia. cbn [negb].
    rewrite bind_assoc, (bind_ok _ _ _ _ _ E2), bind_assoc, bind_assert, bind_ret by lia. cbn [Z.eqb negb orb].
    destruct (IH (set_k_mem m s1) (pos + n0) (base + n0) (len - n0) (copied + n0)) as (s' & E & D'); try lia.
    + apply D.
    + by eapply seeked_pos, D.
    + intros; apply Hlive; lia.
    + exists s'. rewrite E. replace (copied + n0 + (len - n0)) with (copied + len) by lia. split; [done|].
      eapply (delivered_step buffer s (set_k_mem m s1)); [| |done..]; [lia|done].
Qed.

(** [sysfile_read] by a process without an address space: the bytes of the file at
    the position, or no memory for the buffer. *)
Lemma sysfile_read_data s p fd pos buffer base len :
  readable s p fd → cur_mm s = None → fl_pos (f_array s p fd) = pos → 0 ≤ pos → 0 < len < 2 ^ 31 →
  pos + len ≤ Z.of_nat (length content) → Z.of_nat (length content) < 2 ^ 63 →
  KERNBASE ≤ base → base + len ≤ KERNTOP →
  match buffer with
  | None => sysfile_read ops None fd base len s = Ok (- E_NO_MEM, s)
  | Some b => (∀ a, base ≤ a < base + len → ¬ (b ≤ a < b + IOBUF_SIZE)) →
    ∃ s', sysfile_read ops (Some b) fd base len s = Ok (len, s') ∧ delivered b s s' p fd pos base len
  end.
Proof.
  intros R Hmm Hpos Hp Hl Hpl Hsz Hb1 Hb2.
  assert (file_testfd fd true false s = Ok (true, s)) as Et.
  { unfold file_testfd. rewrite (bind_ok _ _ _ _ _ (fd2file_readable _ _ _ R)). unfold the_file. rewrite bind_gets, (rd_mode _ _ _ R). done. }
  unfold sysfile_read. destruct buffer as [b|]; [intros Hbuf|]; rewrite bind_gets, (proj2 (Z.eqb_neq len 0)) by lia;
    rewrite (bind_ok _ _ _ _ _ Et); cbn [negb]; [|done].
  rewrite Hmm. destruct (read_loop_data (S (Z.to_nat len)) s p fd pos b base len 0) as (s' & E & D); try done; try lia.
  rewrite Z.add_0_l in E. rewrite (bind_ok _ _ _ _ _ E). exists s'. split; [|done]. cbv beta iota.
  rewrite (proj2 (Z.eqb_neq len 0)) by lia. cbn [negb]. by rewrite s32_small by lia.
Qed.

End file_data.
