(* ===== verification/Exec.v ===== *)
(** * kern/process/proc.c: loading of programs

    [load_icode] builds the address space of a program from an ELF file,
    [do_execve] replaces the address space of the current process with it.  The
    state is that of [Kernel].

    Contents of pages.  A frame holds 512 words ([tab] of [Pgtable]).  The kernel
    reaches it byte by byte through its direct map: [in_frame] shows a range of the
    frame at its kernel address while a computation runs and stores the range back.
    A store of the kernel to a user address goes through the page tables like the
    processor does it, with a page fault where the page is missing.

    The heap is a parameter ([kmalloc], [kfree]).  A function of sysfile.c that
    takes a heap buffer gets it before the call and gives it back after it.
    [lcr3] selects the translation of user addresses; the functions below name the
    address space they access instead. *)

From S2P Require Import Prelude ListH Pmm CString Printf SkewHeap Sched Sync Vmm VmmProofs Pgtable Addr Kmalloc Proc Vfs File Kernel Sysfile.

Definition EXEC_MAX_ARG_NUM : Z := 32.
Definition EXEC_MAX_ARG_LEN : Z := 4095.
Definition USTACKTOP : Z := USERTOP.
Definition USTACKPAGE : Z := 256.
Definition USTACKSIZE : Z := USTACKPAGE * PGSIZE.
Definition SSTATUS_SPIE : Z := 0x20.
Definition SSTATUS_SPP : Z := 0x100.

(** ** Little-endian words *)

Fixpoint le (n : nat) (f : Z → Z) (off : Z) : Z :=
  match n with
  | O => 0
  | S n' => f off + 256 * le n' f (off + 1)
  end.

Definition byte_of (v i : Z) : Z := v / 256 ^ i mod 256.

(** The bytes of a frame of 512 words, and the frame with [n] bytes from [off] on
    replaced by those of [g]. *)
Definition frame_byte (f : Z → Z) (o : Z) : Z := byte_of (f (o / 8)) (o mod 8).

Definition set_frame_bytes (off n : Z) (g f : Z → Z) (i : Z) : Z :=
  le 8 (λ o, if ((off <=? o) && (o <? off + n))%bool then g (o - off) else frame_byte f o) (8 * i).

(** ** libs/elf.h *)

Definition ELF_MAGIC : Z := 0x464C457F.
Definition ELF_PT_LOAD : Z := 1.
Definition ELF_PF_X : Z := 1.
Definition ELF_PF_W : Z := 2.
Definition ELF_PF_R : Z := 4.

(** The fields that are read, of the structures at an address. *)
Record elfhdr := Elfhdr { e_magic : Z; e_entry : Z; e_phoff : Z; e_phnum : Z }.
Definition sizeof_elfhdr : Z := 64.
Definition get_elfhdr (m : mem) (a : Z) : elfhdr :=
  Elfhdr (le 4 m a) (le 8 m (a + 24)) (le 8 m (a + 32)) (le 2 m (a + 56)).

Record proghdr := Proghdr { p_type : Z; ph_flags : Z; p_offset : Z; p_va : Z; p_filesz : Z; p_memsz : Z }.
Definition sizeof_proghdr : Z := 56.
Definition get_proghdr (m : mem) (a : Z) : proghdr :=
  Proghdr (le 4 m a) (le 4 m (a + 4)) (le 8 m (a + 8)) (le 8 m (a + 16)) (le 8 m (a + 32)) (le 8 m (a + 40)).

(** The flags of an area and the permissions of its pages. *)
Definition seg_flags (p_flags : Z) : Z :=
  let f := if truth (Z.land p_flags ELF_PF_X) then VM_EXEC else 0 in
  let f := if truth (Z.land p_flags ELF_PF_W) then Z.lor f VM_WRITE else f in
  if truth (Z.land p_flags ELF_PF_R) then Z.lor f VM_READ else f.

Definition seg_perm (vm_flags : Z) : Z :=
  let p := Z.lor PTE_U PTE_V in
  let p := if truth (Z.land vm_flags VM_READ) then Z.lor p PTE_R else p in
  let p := if truth (Z.land vm_flags VM_WRITE) then Z.lor p (Z.lor PTE_W PTE_R) else p in
  if truth (Z.land vm_flags VM_EXEC) then Z.lor p PTE_X else p.

Section exec.
Context {F : Type} (ops : ops_kind → inode_ops (vst F)) (fsops : fs_ops (vst F)) (fuel : nat).
Context (swap_init_ok : bool) (swap_out : Z → M vms unit) (rounds : nat).
Context (have_check_mm : bool) (swap_map_swappable : Z → Z → M vms unit).
Context (swap_in : Z → Z → M aspace (Z * Z)) (map_swappable : Z → Z → M aspace unit).
Context (boot_pgdir : Z).

Notation k := (kern F).

Context (kmalloc : Z → M k (option Z)) (kfree : Z → M k unit).
(** the addresses of local variables: the ELF header, the program header, the name *)
Context (elf ph local_name : Z).

Notation get_pte := (get_pte swap_init_ok swap_out rounds).
Notation pgdir_alloc_page := (pgdir_alloc_page swap_init_ok swap_out rounds have_check_mm swap_map_swappable).
Notation do_pgfault := (do_pgfault swap_init_ok swap_out rounds have_check_mm swap_map_swappable swap_in map_swappable).

(** ** Memory *)

Definition kmem (s : k) : mem := k_mem (k_fs s).
Definition set_kmem (m : mem) (s : k) : k := set_k_fs (set_k_mem m (k_fs s)) s.
Definition on_kmem {A} (m : M mem A) : M k A := zoom kmem set_kmem m.

Definition show_frame (page off n kva : Z) (s : k) : k :=
  set_kmem (λ a, if ((kva + off <=? a) && (a <? kva + off + n))%bool
                 then frame_byte (tab (k_vms s) page) (a - kva) else kmem s a) s.

Definition store_frame (page off n kva : Z) (s : k) : k :=
  set_k_vms (set_frame page (set_frame_bytes off n (λ i, kmem s (kva + off + i)) (tab (k_vms s) page)) (k_vms s)) s.

Definition in_frame {A} (page off n : Z) (m : Z → M k A) : M k A :=
  kva ← page2kva page;
  modify (show_frame page off n kva);;
  r ← m (kva + off);
  modify (store_frame page off n kva);;
  mret r.

(** A store of one byte at the user address [la]; [n] bounds the page faults of
    one access. *)
Fixpoint user_store (n : nat) (mm la v : Z) : M k unit :=
  match n with
  | O => out_of_fuel
  | S n' =>
    pgdir ← gets (λ s : k, k_pgdir s mm);
    ptep ← on_pages (get_pte pgdir la false);
    pte ← match ptep with Some p => on_pages (load_pte p) | None => mret 0 end;
    if (valid pte && truth (Z.land pte PTE_W))%bool then
      page ← on_pages (pte2page pte);
      modify (λ s : k, set_k_vms (set_frame page
        (set_frame_bytes (PGOFF la) 1 (λ _, u8 v) (tab (k_vms s) page)) (k_vms s)) s)
    else
      ret ← on_as (do_pgfault (Some mm) la);
      if negb (ret =? 0) then panic else user_store n' mm la v
  end.

(** A word of [n] bytes, stored byte by byte. *)
Definition user_store_word (n : nat) (mm la v : Z) : M k unit :=
  for_range 0 n (λ i, user_store fuel mm (la + i) (byte_of v i)).

(** [strcpy] to a user address. *)
Fixpoint user_strcpy (n : nat) (mm dst src : Z) : M k unit :=
  match n with
  | O => out_of_fuel
  | S n' =>
    c ← on_kmem (load src);
    user_store fuel mm dst c;;
    if negb (c =? 0) then user_strcpy n' mm (dst + 1) (src + 1) else mret tt
  end.

(** ** Address spaces *)

Fixpoint kfree_list (l : list Z) : M k unit :=
  match l with
  | [] => mret tt
  | x :: l => kfree x;; kfree_list l
  end.

Definition free_areas (mm : Z) : M k unit :=
  vmas ← on_as (on_areas (mm_destroy mm));
  kfree_list vmas;;
  kfree mm.

(** [exit_mmap(mm); put_pgdir(mm); mm_destroy(mm);] *)
Definition free_mm (mm : Z) : M k unit :=
  on_as (exit_mmap swap_init_ok swap_out rounds mm);;
  on_as (put_pgdir mm);;
  free_areas mm.

Definition sizeof_vma : Z := 48.
Definition sizeof_mm : Z := 88.

(** [mm_map]: the area is taken from the heap before, and given back if it is not
    used. *)
Definition map_area (mm addr len flags : Z) : M k Z :=
  got ← kmalloc sizeof_vma;
  '(ret, vma) ← on_as (on_areas (mm_map got mm addr len flags));
  match got, vma with
  | Some v, None => kfree v;; mret ret
  | _, _ => mret ret
  end.

(** ** load_icode *)

Definition load_icode_read (fd buf len offset : Z) : M k Z :=
  ret ← on_files (sysfile_seek ops fd offset LSEEK_SET);
  if negb (ret =? 0) then mret ret
  else
    buffer ← kmalloc IOBUF_SIZE;
    ret ← on_files (sysfile_read ops buffer fd buf len);
    match buffer with Some b => kfree b | None => mret tt end;;
    if negb (u64 ret =? len) then mret (if ret <? 0 then ret else -1)
    else mret 0.

(** The pages with data of the file: the results are the error code, [start],
    [la] and the last page.  Every round moves at least one byte. *)
Fixpoint load_pages (n : nat) (fd pgdir perm start end' la offset : Z) (page : option Z) : M k (Z * (Z * Z * option Z)) :=
  match n with
  | O => out_of_fuel
  | S n' =>
    if start <? end' then
      page ← on_pages (pgdir_alloc_page pgdir la perm);
      match page with
      | None => mret (- E_NO_MEM, (start, la, None))
      | Some p =>
        let off := u64 (start - la) in
        let size := u64 (PGSIZE - off) in
        let la := u64 (la + PGSIZE) in
        let size := if end' <? la then u64 (size - (la - end')) else size in
        ret ← in_frame p off size (λ kva, load_icode_read fd kva size offset);
        if negb (ret =? 0) then mret (ret, (start, la, page))
        else load_pages n' fd pgdir perm (u64 (start + size)) end' la (s64 (offset + size)) page
      end
    else mret (0, (start, la, page))
  end.

Definition zero_frame (page off size : Z) : M k unit :=
  in_frame page off size (λ kva, on_kmem (memset kva 0 size));; mret tt.

(** The rest of the last page. *)
Definition zero_rest (start end' la : Z) (page : option Z) : M k Z :=
  match page with
  | None => panic
  | Some p =>
    let off := u64 (start + PGSIZE - la) in
    let size := u64 (PGSIZE - off) in
    let size := if end' <? la then u64 (size - (la - end')) else size in
    zero_frame p off size;;
    let start := u64 (start + size) in
    assert ((((end' <? la) && (start =? end')) || ((la <=? end') && (start =? la))))%bool;;
    mret start
  end.

Fixpoint zero_pages (n : nat) (pgdir perm start end' la : Z) : M k Z :=
  match n with
  | O => out_of_fuel
  | S n' =>
    if start <? end' then
      page ← on_pages (pgdir_alloc_page pgdir la perm);
      match page with
      | None => mret (- E_NO_MEM)
      | Some p =>
        let off := u64 (start - la) in
        let size := u64 (PGSIZE - off) in
        let la := u64 (la + PGSIZE) in
        let size := if end' <? la then u64 (size - (la - end')) else size in
        zero_frame p off size;;
        zero_pages n' pgdir perm (u64 (start + size)) end' la
      end
    else mret 0
  end.

(** One loadable segment. *)
Definition load_segment (mm fd : Z) (h : proghdr) : M k Z :=
  if p_memsz h <? p_filesz h then mret (- E_INVAL_ELF)
  else
    let vm_flags := seg_flags (ph_flags h) in
    let perm := seg_perm vm_flags in
    ret ← map_area mm (p_va h) (p_memsz h) vm_flags;
    if negb (ret =? 0) then mret ret
    else
      pgdir ← gets (λ s : k, k_pgdir s mm);
      let start := p_va h in
      let end' := u64 (p_va h + p_filesz h) in
      '(ret, (start, la, page)) ←
        load_pages (S (Z.to_nat (end' - start))) fd pgdir perm start end' (ROUNDDOWN start PGSIZE) (s64 (p_offset h)) None;
      if negb (ret =? 0) then mret ret
      else
        let end' := u64 (p_va h + p_memsz h) in
        if start <? la then
          if start =? end' then mret 0
          else
            start ← zero_rest start end' la page;
            zero_pages (S (Z.to_nat (end' - start))) pgdir perm start end' la
        else zero_pages (S (Z.to_nat (end' - start))) pgdir perm start end' la.

Fixpoint load_segments (n : nat) (mm fd phoff phnum : Z) : M k Z :=
  match n with
  | O => mret 0
  | S n' =>
    let off := s64 (phoff + sizeof_proghdr * phnum) in
    ret ← load_icode_read fd ph sizeof_proghdr off;
    if negb (ret =? 0) then mret ret
    else
      h ← gets (λ s : k, get_proghdr (kmem s) ph);
      if negb (p_type h =? ELF_PT_LOAD) then load_segments n' mm fd phoff (phnum + 1)
      else
        ret ← load_segment mm fd h;
        if negb (ret =? 0) then mret ret
        else load_segments n' mm fd phoff (phnum + 1)
  end.

(** The user stack. *)
Definition stack_page (mm i : Z) : M k unit :=
  pgdir ← gets (λ s : k, k_pgdir s mm);
  page ← on_pages (pgdir_alloc_page pgdir (USTACKTOP - i * PGSIZE) PTE_USER);
  assert (bool_decide (page ≠ None)).

Fixpoint args_size (kargv : list Z) (argv_size : Z) : M k Z :=
  match kargv with
  | [] => mret argv_size
  | a :: kargv =>
    n ← on_kmem (strnlen a (EXEC_MAX_ARG_LEN + 1));
    args_size kargv (u32 (argv_size + n + 1))
  end.

Fixpoint put_args (mm stacktop uargv : Z) (kargv : list Z) (i argv_size : Z) : M k unit :=
  match kargv with
  | [] => mret tt
  | a :: kargv =>
    user_strcpy fuel mm (stacktop + argv_size) a;;
    user_store_word 8 mm (uargv + 8 * i) (stacktop + argv_size);;
    n ← on_kmem (strnlen a (EXEC_MAX_ARG_LEN + 1));
    put_args mm stacktop uargv kargv (i + 1) (u32 (argv_size + n + 1))
  end.

(** [argc] and the arguments above the stack pointer, which is returned. *)
Definition setup_args (mm argc : Z) (kargv : list Z) : M k Z :=
  argv_size ← args_size kargv 0;
  let stacktop := USTACKTOP - (argv_size / 8 + 1) * 8 in
  let uargv := stacktop - argc * 8 in
  put_args mm stacktop uargv kargv 0 0;;
  let stacktop := uargv - 4 in
  user_store_word 4 mm stacktop argc;;
  mret stacktop.

(** [current->mm] and [current->cr3]. *)
Definition install_mm (mm : Z) : M k unit :=
  on_as (on_areas (mm_count_inc mm));;
  cur ← on_pt get_cur;
  on_pt (pset cur (set_mm (Some mm)));;
  pgdir ← gets (λ s : k, k_pgdir s mm);
  on_pt (pset cur (set_cr3 (page2pa pgdir))).

Definition setup_trapframe (sp entry : Z) : M k unit :=
  cur ← on_pt get_cur;
  sstatus ← gets (λ s : k, tf_status (k_frame s cur));
  modify (set_k_frame cur (set_gpr reg_sp sp (Trapframe (λ _, 0)
    (Z.land sstatus (u64 (Z.lnot (Z.lor SSTATUS_SPP SSTATUS_SPIE)))) entry 0 0))).

Definition load_icode (fd argc : Z) (kargv : list Z) : M k Z :=
  assert ((0 <=? argc) && (argc <=? EXEC_MAX_ARG_NUM))%bool;;
  asserts (λ s : k, bool_decide (p_mm (cur_proc s) = None));;
  got ← kmalloc sizeof_mm;
  mm ← on_as (on_areas (mm_create got));
  match mm with
  | None => mret (- E_NO_MEM)
  | Some mm =>
    r ← on_as (setup_pgdir swap_init_ok swap_out rounds boot_pgdir mm);
    if negb (r =? 0) then free_areas mm;; mret (- E_NO_MEM)
    else
      ret ← load_icode_read fd elf sizeof_elfhdr 0;
      if negb (ret =? 0) then on_as (put_pgdir mm);; free_areas mm;; mret ret
      else
        e ← gets (λ s : k, get_elfhdr (kmem s) elf);
        if negb (e_magic e =? ELF_MAGIC) then on_as (put_pgdir mm);; free_areas mm;; mret (- E_INVAL_ELF)
        else
          ret ← load_segments (Z.to_nat (e_phnum e)) mm fd (e_phoff e) 0;
          if negb (ret =? 0) then free_mm mm;; mret ret
          else
            on_files (sysfile_close ops fd);;
            ret ← map_area mm (USTACKTOP - USTACKSIZE) USTACKSIZE (Z.lor (Z.lor VM_READ VM_WRITE) VM_STACK);
            if negb (ret =? 0) then free_mm mm;; mret ret
            else
              stack_page mm 1;;
              stack_page mm 2;;
              stack_page mm 3;;
              stack_page mm 4;;
              install_mm mm;;
              sp ← setup_args mm argc kargv;
              setup_trapframe sp (e_entry e);;
              mret 0
  end.

(** ** do_execve *)

(** The buffers are freed from the last to the first. *)
Definition put_kargv (kargv : list Z) : M k unit := kfree_list (rev kargv).

Definition load_ptr (a : Z) : M k Z := gets (λ s : k, le 8 (kmem s) a).

Definition copy_user_string (mm : option Z) (dst src maxn : Z) : M k bool :=
  on_files (on_um (copy_string mm dst src maxn)).

(** The arguments from the [i]-th on; [kargv] are the buffers so far. *)
Fixpoint copy_args (n : nat) (mm : option Z) (argv i : Z) (kargv : list Z) : M k (Z * list Z) :=
  match n with
  | O => mret (0, kargv)
  | S n' =>
    buffer ← kmalloc (EXEC_MAX_ARG_LEN + 1);
    match buffer with
    | None => put_kargv kargv;; mret (- E_NO_MEM, [])
    | Some buffer =>
      arg ← load_ptr (argv + 8 * i);
      ok ← copy_user_string mm buffer arg (EXEC_MAX_ARG_LEN + 1);
      if negb ok then kfree buffer;; put_kargv kargv;; mret (- E_INVAL, [])
      else copy_args n' mm argv (i + 1) (kargv ++ [buffer])
    end
  end.

Definition copy_kargv (mm : option Z) (argc argv : Z) : M k (Z * list Z) :=
  ok ← on_as (on_areas (user_mem_check mm argv (u64 (8 * argc)) false));
  if negb ok then mret (- E_INVAL, [])
  else copy_args (Z.to_nat argc) mm argv 0 [].

Definition exec_name (mm : option Z) (name : Z) : M k bool :=
  on_kmem (memset local_name 0 (PROC_NAME_LEN + 1));;
  if name =? 0 then
    pid ← gets (λ s : k, p_pid (cur_proc s));
    on_kmem (snprintf fuel local_name (PROC_NAME_LEN + 1) (lit "<null> %d") (λ _, pid));;
    mret true
  else copy_user_string mm local_name name (PROC_NAME_LEN + 1).

Definition exec_fail (ret : Z) (kargv : list Z) : M k (thread k Z) :=
  put_kargv kargv;;
  do_exit ops swap_init_ok swap_out rounds ret.

(** The address space of the calling program is given back. *)
Definition release_mm (mm : option Z) : M k unit :=
  match mm with
  | Some mm =>
    n ← on_as (on_areas (mm_count_dec mm));
    when (n =? 0) (free_mm mm);;
    cur ← on_pt get_cur;
    on_pt (pset cur (set_mm None))
  | None => mret tt
  end.

Definition do_execve (name argc argv : Z) : M k (thread k Z) :=
  mm ← gets (λ s : k, p_mm (cur_proc s));
  if negb ((1 <=? argc) && (argc <=? EXEC_MAX_ARG_NUM))%bool then tret (- E_INVAL)
  else
    ok ← exec_name mm name;
    if negb ok then tret (- E_INVAL)
    else
      '(ret, kargv) ← copy_kargv mm argc argv;
      if negb (ret =? 0) then tret ret
      else
        path ← load_ptr argv;
        filesp ← gets (λ s : k, p_filesp (cur_proc s));
        match filesp with
        | None => panic
        | Some filesp =>
          on_files (files_closeall ops filesp);;
          buffer ← kmalloc (FS_MAX_FPATH_LEN + 1);
          fd ← on_files (sysfile_open ops fsops fuel buffer path O_RDONLY);
          match buffer with Some b => kfree b | None => mret tt end;;
          if fd <? 0 then exec_fail fd kargv
          else
            release_mm mm;;
            ret ← load_icode fd argc kargv;
            if negb (ret =? 0) then exec_fail ret kargv
            else
              put_kargv kargv;;
              cur ← on_pt get_cur;
              name ← gets (λ s : k, λ i, kmem s (local_name + i));
              on_pt (set_proc_name cur name);;
              tret 0
        end.

End exec.
