(* ===== verification/Syscall.v ===== *)
(** * kern/syscall/syscall.c: system calls

    The handlers, the table of system calls and the dispatcher.  The state [machine]
    joins the kernel of [Kernel] with the console, the buffer of standard input and
    the clock; the components share one scheduler, that of the process table.  A
    handler that sleeps is a suspended [thread].

    Arguments are the 64-bit registers, cut to the type of the parameter.  The lines
    that are only logged ([infof], [errorf]) are compiled out without a log level and are
    not part of the model. *)

From S2P Require Import Prelude ListH Pmm CString Printf SkewHeap Sched Sync Vmm VmmProofs Pgtable Addr Kmalloc Proc Vfs File Kernel Sysfile Exec Pipe Console.

(** ** The parts the kernel is put together from *)

Record kenv (F : Type) := Kenv {
  ke_ops : ops_kind → inode_ops (vst F);
  ke_fsops : fs_ops (vst F);
  ke_fuel : nat;
  (** page replacement *)
  swap_init_ok : bool;
  ke_swap_out : Z → M vms unit;
  ke_rounds : nat;
  ke_map_swappable : Z → Z → M vms unit;
  ke_swap_in : Z → Z → M aspace (Z * Z);
  ke_as_swappable : Z → Z → M aspace unit;
  (** addresses *)
  ke_boot_pgdir : Z;
  ke_boot_cr3 : Z;
  ke_forkret : Z;
  (** local variables of handlers *)
  at_elf : Z; at_ph : Z; at_name : Z; at_stat : Z; at_colon : Z;
  (** the heap, the objects of a new process and the inode of a new pipe *)
  ke_kmalloc : Z → M (kern F) (option Z);
  ke_kfree : Z → M (kern F) unit;
  ke_fork_allocs : M (kern F) fork_allocs;
  ke_pipe_create : M (vst F) (option Z);
}.
Arguments ke_ops {F}. Arguments ke_fsops {F}. Arguments ke_fuel {F}.
Arguments swap_init_ok {F}. Arguments ke_swap_out {F}. Arguments ke_rounds {F}.
Arguments ke_map_swappable {F}. Arguments ke_swap_in {F}. Arguments ke_as_swappable {F}.
Arguments ke_boot_pgdir {F}. Arguments ke_boot_cr3 {F}. Arguments ke_forkret {F}.
Arguments at_elf {F}. Arguments at_ph {F}. Arguments at_name {F}. Arguments at_stat {F}. Arguments at_colon {F}.
Arguments ke_kmalloc {F}. Arguments ke_kfree {F}. Arguments ke_fork_allocs {F}. Arguments ke_pipe_create {F}.

Record machine (F : Type) := Machine {
  m_kern : kern F;
  m_io : pst;
  m_cons : console;
  ticks : Z;
  (** [check_mm_struct], and whether [current] is set *)
  check_mm_struct : option Z;
  has_current : bool;
}.
Arguments Machine {F}. Arguments m_kern {F}. Arguments m_io {F}. Arguments m_cons {F}.
Arguments ticks {F}. Arguments check_mm_struct {F}. Arguments has_current {F}.

Definition set_m_kern {F} (v : kern F) (s : machine F) : machine F := Machine v (m_io s) (m_cons s) (ticks s) (check_mm_struct s) (has_current s).
Definition set_m_cons {F} (v : console) (s : machine F) : machine F := Machine (m_kern s) (m_io s) v (ticks s) (check_mm_struct s) (has_current s).
Definition set_ticks {F} (v : Z) (s : machine F) : machine F := Machine (m_kern s) (m_io s) (m_cons s) v (check_mm_struct s) (has_current s).

(** Standard input works with the scheduler of the process table. *)
Definition io_view {F} (s : machine F) : pst := set_psync (set_sc (psc (k_pt (m_kern s))) (psync (m_io s))) (m_io s).
Definition io_put {F} (p : pst) (s : machine F) : machine F :=
  Machine (set_k_pt (set_psc (sc (psync p)) (k_pt (m_kern s))) (m_kern s)) p (m_cons s) (ticks s) (check_mm_struct s) (has_current s).

Definition on_kern {F A} (m : M (kern F) A) : M (machine F) A := zoom m_kern set_m_kern m.
Definition on_cons {F A} (m : M console A) : M (machine F) A := zoom m_cons set_m_cons m.
Definition on_io {F A} (m : M pst A) : M (machine F) A := zoom io_view io_put m.

(** A thread of the kernel as a thread of the machine. *)
Fixpoint lift_thread {F A} (t : thread (kern F) A) : thread (machine F) A :=
  match t with
  | Ret a => Ret a
  | Suspended m => Suspended (λ s,
      match m (m_kern s) with
      | Ok (t', k') => Ok (lift_thread t', set_m_kern k' s)
      | Panic => Panic
      | Fuel => Fuel
      end)
  end.

Definition on_thread {F A} (m : M (kern F) (thread (kern F) A)) : M (machine F) (thread (machine F) A) :=
  t ← on_kern m; mret (lift_thread t).

(** ** libs/unistd.h *)

Definition SYS_exit : Z := 1.
Definition SYS_fork : Z := 2.
Definition SYS_wait : Z := 3.
Definition SYS_exec : Z := 4.
Definition SYS_yield : Z := 6.
Definition SYS_sleep : Z := 7.
Definition SYS_kill : Z := 8.
Definition SYS_ps : Z := 9.
Definition SYS_gettime : Z := 10.
Definition SYS_getpid : Z := 11.
Definition SYS_putc : Z := 15.
Definition SYS_pgdir : Z := 16.
Definition SYS_unlink : Z := 17.
Definition SYS_open : Z := 18.
Definition SYS_close : Z := 19.
Definition SYS_read : Z := 20.
Definition SYS_write : Z := 21.
Definition SYS_seek : Z := 22.
Definition SYS_fstat : Z := 23.
Definition SYS_fsync : Z := 24.
Definition SYS_getcwd : Z := 25.
Definition SYS_getdirentry : Z := 26.
Definition SYS_dup : Z := 27.
Definition SYS_pipe : Z := 28.
Definition SYS_lab6_set_priority : Z := 255.
Definition NUM_SYSCALLS : Z := 256.

Section syscall.
Context {F : Type} (e : kenv F).

Notation k := (kern F).
Notation m := (machine F).
Notation handler := ((Z → Z) → M m (thread m Z)).

(** ** Memory of structures *)

Definition store_bytes (n : nat) (a v : Z) : M mem unit := for_range 0 n (λ i, put (a + i) (byte_of v i)).

Definition put_stat (a : Z) (st : Vfs.stat) : M mem unit :=
  store_bytes 4 a (st_mode st);;
  store_bytes 8 (a + 8) (st_nlinks st);;
  store_bytes 8 (a + 16) (st_blocks st);;
  store_bytes 8 (a + 24) (st_size st).

Definition get_off (a : Z) : M mem Z := gets (λ mm, s64 (le 8 mm a)).
Definition put_off (a v : Z) : M mem unit := store_bytes 8 a v.

Definition store_int (a v : Z) : M k unit := on_kmem (store_bytes 4 a v).

(** A function of sysfile.c with its heap buffer. *)
Definition with_buffer {A} (size : Z) (f : option Z → M (vst F) A) : M k A :=
  b ← ke_kmalloc e size;
  r ← on_files (f b);
  (match b with Some b => ke_kfree e b | None => mret tt end);;
  mret r.

(** A handler that does not sleep. *)
Definition plain (r : M k Z) : M m (thread m Z) := v ← on_kern r; tret v.

(** ** The handlers *)

Definition sys_exit : handler := λ arg,
  let error_code := s32 (arg 0) in
  on_thread (do_exit (ke_ops e) (swap_init_ok e) (ke_swap_out e) (ke_rounds e) error_code).

Definition sys_fork : handler := λ arg, plain (
  cur ← on_pt get_cur;
  tf ← gets (λ s : k, k_frame s cur);
  let stack := gpr tf reg_sp in
  a ← ke_fork_allocs e;
  do_fork (ke_ops e) (swap_init_ok e) (ke_swap_out e) (ke_rounds e) (ke_boot_pgdir e) (ke_boot_cr3 e) (ke_forkret e) a 0 stack tf).

Definition sys_wait : handler := λ arg,
  let pid := s32 (arg 0) in
  let store := arg 1 in
  on_thread (do_wait (ke_ops e) (swap_init_ok e) (ke_swap_out e) (ke_rounds e) (ke_fuel e) store_int pid store).

Definition exec (check : bool) (name argc argv : Z) : M k (thread k Z) :=
  do_execve (ke_ops e) (ke_fsops e) (ke_fuel e) (swap_init_ok e) (ke_swap_out e) (ke_rounds e) check (ke_map_swappable e)
    (ke_swap_in e) (ke_as_swappable e) (ke_boot_pgdir e) (ke_kmalloc e) (ke_kfree e) (at_elf e) (at_ph e) (at_name e) name argc argv.

Definition sys_exec : handler := λ arg,
  let name := arg 0 in
  let argc := s32 (arg 1) in
  let argv := arg 2 in
  check ← gets (λ s : m, bool_decide (check_mm_struct s ≠ None));
  on_thread (exec check name argc argv).

Definition sys_yield : handler := λ arg, plain (on_pt do_yield).

Definition sys_kill : handler := λ arg,
  let pid := s32 (arg 0) in
  plain (on_pt (do_kill pid)).

(** The lines that [do_ps] prints are its result in [Proc]. *)
Definition sys_ps : handler := λ arg, plain (on_pt (do_ps (ke_fuel e) Head);; mret 0).

Definition sys_getpid : handler := λ arg, plain (gets (λ s : k, p_pid (cur_proc s))).

Definition sys_putc : handler := λ arg,
  let c := s32 (arg 0) in
  on_cons (cputchar c);;
  tret 0.

Definition sys_unlink : handler := λ arg,
  let path := arg 0 in
  plain (with_buffer (FS_MAX_FPATH_LEN + 1) (λ b, sysfile_unlink b path)).

Definition sys_pgdir : handler := λ arg, tret 0.

Definition sys_gettime : handler := λ arg,
  t ← gets (@ticks F);
  tret (s32 (s32 t * 10)).

Definition sys_lab6_set_priority : handler := λ arg,
  let priority := arg 0 in
  plain (on_pt (lab6_set_priority (u32 priority));; mret 0).

(** The timer is a local variable of the process that sleeps and has its name. *)
Definition sys_sleep : handler := λ arg,
  let time := u32 (arg 0) in
  on_thread (cur ← on_pt get_cur; do_sleep (ke_fuel e) cur time).

Definition sys_open : handler := λ arg,
  let path := arg 0 in
  let open_flags := u32 (arg 1) in
  plain (with_buffer (FS_MAX_FPATH_LEN + 1) (λ b, sysfile_open (ke_ops e) (ke_fsops e) (ke_fuel e) b path open_flags)).

Definition sys_close : handler := λ arg,
  let fd := s32 (arg 0) in
  plain (on_files (sysfile_close (ke_ops e) fd)).

Definition sys_read : handler := λ arg,
  let fd := s32 (arg 0) in
  let base := arg 1 in
  let len := arg 2 in
  plain (with_buffer IOBUF_SIZE (λ b, sysfile_read (ke_ops e) b fd base len)).

Definition sys_write : handler := λ arg,
  let fd := s32 (arg 0) in
  let base := arg 1 in
  let len := arg 2 in
  plain (with_buffer IOBUF_SIZE (λ b, sysfile_write (ke_ops e) b fd base len)).

Definition sys_seek : handler := λ arg,
  let fd := s32 (arg 0) in
  let pos := s64 (arg 1) in
  let whence := s32 (arg 2) in
  plain (on_files (sysfile_seek (ke_ops e) fd pos whence)).

Definition sys_fstat : handler := λ arg,
  let fd := s32 (arg 0) in
  let stat := arg 1 in
  plain (on_files (sysfile_fstat (ke_ops e) put_stat (at_stat e) fd stat)).

Definition sys_fsync : handler := λ arg,
  let fd := s32 (arg 0) in
  plain (on_files (sysfile_fsync (ke_ops e) fd)).

Definition sys_getcwd : handler := λ arg,
  let buf := arg 0 in
  let len := arg 1 in
  plain (on_files (sysfile_getcwd (ke_ops e) (ke_fuel e) (at_colon e) buf len)).

Definition sizeof_dirent : Z := 264.

Definition sys_getdirentry : handler := λ arg,
  let fd := s32 (arg 0) in
  let direntp := arg 1 in
  plain (with_buffer sizeof_dirent (λ b, sysfile_getdirentry (ke_ops e) get_off put_off b fd direntp)).

Definition sys_dup : handler := λ arg,
  let fd1 := s32 (arg 0) in
  let fd2 := s32 (arg 1) in
  plain (on_files (sysfile_dup fd1 fd2)).

(** The descriptors are stored where the caller says. *)
Definition sys_pipe : handler := λ arg,
  let fd_store := arg 0 in
  plain (
    '(ret, fds) ← on_files (sysfile_pipe (ke_ops e) (ke_pipe_create e));
    (match fds with
     | Some (fd0, fd1) => store_int fd_store fd0;; store_int (fd_store + 4) fd1
     | None => mret tt
     end);;
    mret ret).

(** ** The table *)

Definition syscalls : list (Z * handler) :=
  [(SYS_exit, sys_exit); (SYS_fork, sys_fork); (SYS_wait, sys_wait); (SYS_exec, sys_exec); (SYS_yield, sys_yield);
   (SYS_kill, sys_kill); (SYS_ps, sys_ps); (SYS_getpid, sys_getpid); (SYS_putc, sys_putc); (SYS_unlink, sys_unlink);
   (SYS_pgdir, sys_pgdir); (SYS_gettime, sys_gettime); (SYS_lab6_set_priority, sys_lab6_set_priority);
   (SYS_sleep, sys_sleep); (SYS_open, sys_open); (SYS_close, sys_close); (SYS_read, sys_read); (SYS_write, sys_write);
   (SYS_seek, sys_seek); (SYS_fstat, sys_fstat); (SYS_fsync, sys_fsync); (SYS_getcwd, sys_getcwd);
   (SYS_getdirentry, sys_getdirentry); (SYS_dup, sys_dup); (SYS_pipe, sys_pipe)].

(** The entry of a number, [None] for a null pointer. *)
Definition syscall_entry (num : Z) : option handler := snd <$> List.find (λ x, x.1 =? num) syscalls.

Definition reg_a (i : Z) : Z := reg_a0 + i.

(** Stores to the trap frame of the current process. *)
Definition upd_frame (f : trapframe → trapframe) : M k unit :=
  cur ← on_pt get_cur;
  modify (λ s : k, set_k_frame cur (f (k_frame s cur)) s).

Definition cur_frame : M m trapframe := on_kern (cur ← on_pt get_cur; gets (λ s : k, k_frame s cur)).

Definition syscall : M m (thread m unit) :=
  tf ← cur_frame;
  let num := s32 (gpr tf reg_a0) in
  if ((0 <=? num) && (num <? NUM_SYSCALLS))%bool then
    match syscall_entry num with
    | Some h =>
      r ⇐ h (λ i, gpr tf (reg_a (i + 1)));
      (on_kern (upd_frame (set_gpr reg_a0 (u64 r)));; tret tt)
    | None => panic
    end
  else panic.

End syscall.
