(* ===== verification/Trap.v ===== *)
(** * kern/trap/trap.c: traps and interrupts

    The handlers of interrupts and exceptions and the way back to the interrupted
    program.  [trap] gets the frame that the entry code has saved and returns the
    frame that the exit code restores; a process that sleeps or is switched away on the
    way is a suspended [thread].  Reading the cycle counter and programming the
    timer ([clock_set_next_event]) have no effect on the state. *)

From S2P Require Import Prelude ListH Pmm CString Printf SkewHeap Sched Sync Vmm VmmProofs Pgtable PgtableProofs Addr AddrProofs Kmalloc Proc Vfs File Kernel Sysfile Exec Pipe Console Syscall.

(** ** libs/riscv.h *)

Definition IRQ_U_SOFT : Z := 0.
Definition IRQ_S_SOFT : Z := 1.
Definition IRQ_H_SOFT : Z := 2.
Definition IRQ_M_SOFT : Z := 3.
Definition IRQ_U_TIMER : Z := 4.
Definition IRQ_S_TIMER : Z := 5.
Definition IRQ_H_TIMER : Z := 6.
Definition IRQ_M_TIMER : Z := 7.
Definition IRQ_U_EXT : Z := 8.
Definition IRQ_S_EXT : Z := 9.
Definition IRQ_H_EXT : Z := 10.
Definition IRQ_M_EXT : Z := 11.
Definition CAUSE_MISALIGNED_FETCH : Z := 0x0.
Definition CAUSE_FETCH_ACCESS : Z := 0x1.
Definition CAUSE_ILLEGAL_INSTRUCTION : Z := 0x2.
Definition CAUSE_BREAKPOINT : Z := 0x3.
Definition CAUSE_MISALIGNED_LOAD : Z := 0x4.
Definition CAUSE_LOAD_ACCESS : Z := 0x5.
Definition CAUSE_MISALIGNED_STORE : Z := 0x6.
Definition CAUSE_STORE_ACCESS : Z := 0x7.
Definition CAUSE_USER_ECALL : Z := 0x8.
Definition CAUSE_SUPERVISOR_ECALL : Z := 0x9.
Definition CAUSE_HYPERVISOR_ECALL : Z := 0xa.
Definition CAUSE_MACHINE_ECALL : Z := 0xb.
Definition CAUSE_FETCH_PAGE_FAULT : Z := 0xc.
Definition CAUSE_LOAD_PAGE_FAULT : Z := 0xd.
Definition CAUSE_STORE_PAGE_FAULT : Z := 0xf.
Definition reg_a7 : Z := 17.

Section trap.
Context {F : Type} (e : kenv F).

Notation k := (kern F).
Notation m := (machine F).

(** Output of one format. *)
Definition say (fmt : string) (va : Z → Z) : M m unit := on_cons (cprintf (ke_fuel e) (lit fmt) va);; mret tt.

Definition newline : string := String (Ascii.ascii_of_nat 10) EmptyString.

Definition trap_in_kernel (tf : trapframe) : bool := negb (Z.land (tf_status tf) SSTATUS_SPP =? 0).

(** ** Printing *)

Definition reg_names : list string :=
  ["  zero     "; "  ra       "; "  sp       "; "  gp       "; "  tp       "; "  t0       "; "  t1       "; "  t2       ";
   "  s0       "; "  s1       "; "  a0       "; "  a1       "; "  a2       "; "  a3       "; "  a4       "; "  a5       ";
   "  a6       "; "  a7       "; "  s2       "; "  s3       "; "  s4       "; "  s5       "; "  s6       "; "  s7       ";
   "  s8       "; "  s9       "; "  s10      "; "  s11      "; "  t3       "; "  t4       "; "  t5       "; "  t6       "].

Fixpoint print_names (l : list string) (r : Z) (gpr : Z → Z) : M m unit :=
  match l with
  | [] => mret tt
  | name :: l =>
    say (name +:+ "0x%08x" +:+ newline) (λ _, gpr r);;
    print_names l (r + 1) gpr
  end.

Definition print_regs (gpr : Z → Z) : M m unit := print_names reg_names 0 gpr.

(** [addr] is the address of the frame. *)
Definition print_trapframe (addr : Z) (tf : trapframe) : M m unit :=
  say ("trapframe at %p" +:+ newline) (λ _, addr);;
  print_regs (gpr tf);;
  say ("  status   0x%08x" +:+ newline) (λ _, tf_status tf);;
  say ("  epc      0x%08x" +:+ newline) (λ _, tf_epc tf);;
  say ("  tval 0x%08x" +:+ newline) (λ _, tf_tval tf);;
  say ("  cause    0x%08x" +:+ newline) (λ _, tf_cause tf).

Definition print_pgfault (tf : trapframe) : M m unit :=
  say ("page fault at 0x%08x: %c/%c" +:+ newline) (λ i,
    if i =? 0 then tf_tval tf
    else if i =? 1 then if trap_in_kernel tf then 75 else 85
    else if tf_cause tf =? CAUSE_STORE_PAGE_FAULT then 87 else 82).

(** ** Page faults *)

Definition pgfault_handler (addr : Z) (tf : trapframe) : M m Z :=
  check ← gets (@check_mm_struct F);
  when (bool_decide (check ≠ None)) (print_pgfault tf);;
  mm ← (match check with
        | Some mm =>
          asserts (λ s : m, current (psc (k_pt (m_kern s))) =? idleproc (psc (k_pt (m_kern s))));;
          mret (Some mm)
        | None =>
          cur ← gets (@has_current F);
          if negb cur then print_trapframe addr tf;; print_pgfault tf;; panic
          else gets (λ s : m, p_mm (cur_proc (m_kern s)))
        end);
  on_kern (on_as (do_pgfault (swap_init_ok e) (ke_swap_out e) (ke_rounds e) (bool_decide (check ≠ None)) (ke_map_swappable e)
    (ke_swap_in e) (ke_as_swappable e) mm (tf_tval tf))).

(** A fault that cannot be handled stops the kernel. *)
Definition handle_pgfault (addr : Z) (tf : trapframe) : M m unit :=
  ret ← pgfault_handler addr tf;
  if negb (ret =? 0) then print_trapframe addr tf;; panic else mret tt.

(** ** Interrupts *)

Definition interrupt_text (cause : Z) : option string :=
  if cause =? IRQ_U_SOFT then Some "User software interrupt"
  else if cause =? IRQ_S_SOFT then Some "Supervisor software interrupt"
  else if cause =? IRQ_H_SOFT then Some "Hypervisor software interrupt"
  else if cause =? IRQ_M_SOFT then Some "Machine software interrupt"
  else if cause =? IRQ_U_TIMER then Some "User software interrupt"
  else if cause =? IRQ_H_TIMER then Some "Hypervisor software interrupt"
  else if cause =? IRQ_M_TIMER then Some "Machine software interrupt"
  else if cause =? IRQ_U_EXT then Some "User software interrupt"
  else if cause =? IRQ_S_EXT then Some "Supervisor external interrupt"
  else if cause =? IRQ_H_EXT then Some "Hypervisor software interrupt"
  else if cause =? IRQ_M_EXT then Some "Machine software interrupt"
  else None.

Definition interrupt_handler (addr : Z) (tf : trapframe) : M m unit :=
  let cause := Z.shiftr (u64 (Z.shiftl (tf_cause tf) 1)) 1 in
  if cause =? IRQ_S_TIMER then
    modify (λ s : m, set_ticks (u64 (ticks s + 1)) s);;
    on_kern (on_sched (run_timer_list (ke_fuel e)));;
    c ← on_cons cons_getc;
    on_io (dev_stdin_write (ke_fuel e) c)
  else
    match interrupt_text cause with
    | Some t => say (t +:+ newline) (λ _, 0)
    | None => print_trapframe addr tf
    end.

(** ** Exceptions *)

(** The system call at the address behind the trapping instruction. *)
Definition ecall : M m (thread m unit) :=
  on_kern (upd_frame (λ tf, Trapframe (gpr tf) (tf_status tf) (u64 (tf_epc tf + 4)) (tf_tval tf) (tf_cause tf)));;
  syscall e.

(** The causes that are only reported. *)
Definition exception_text (cause : Z) : option string :=
  if cause =? CAUSE_MISALIGNED_FETCH then Some "Instruction address misaligned"
  else if cause =? CAUSE_FETCH_ACCESS then Some "Instruction access fault"
  else if cause =? CAUSE_ILLEGAL_INSTRUCTION then Some "Illegal instruction"
  else if cause =? CAUSE_MISALIGNED_LOAD then Some "Load address misaligned"
  else if cause =? CAUSE_HYPERVISOR_ECALL then Some "Environment call from H-mode"
  else if cause =? CAUSE_MACHINE_ECALL then Some "Environment call from M-mode"
  else if cause =? CAUSE_FETCH_PAGE_FAULT then Some "Instruction page fault"
  else None.

(** Those that are page faults for the kernel. *)
Definition fault_text (cause : Z) : option string :=
  if cause =? CAUSE_LOAD_ACCESS then Some "Load access fault"
  else if cause =? CAUSE_STORE_ACCESS then Some "Store/AMO access fault"
  else if cause =? CAUSE_LOAD_PAGE_FAULT then Some "Load page fault"
  else if cause =? CAUSE_STORE_PAGE_FAULT then Some "Store/AMO page fault"
  else None.

(** The result says whether the handler leaves through [kernel_execve_ret], which
    restores the frame at once. *)
Definition exception_handler (addr : Z) (tf : trapframe) : M m (thread m bool) :=
  let cause := tf_cause tf in
  if cause =? CAUSE_BREAKPOINT then
    say ("Breakpoint" +:+ newline) (λ _, 0);;
    if gpr tf reg_a7 =? 10 then _ ⇐ ecall; tret true else tret false
  else if cause =? CAUSE_MISALIGNED_STORE then panic
  else if cause =? CAUSE_USER_ECALL then _ ⇐ ecall; tret false
  else if cause =? CAUSE_SUPERVISOR_ECALL then
    say ("Environment call from S-mode" +:+ newline) (λ _, 0);;
    _ ⇐ ecall; tret false
  else
    match fault_text cause, exception_text cause with
    | Some t, _ =>
      say (t +:+ newline) (λ _, 0);;
      handle_pgfault addr tf;;
      tret false
    | None, Some t => say (t +:+ newline) (λ _, 0);; tret false
    | None, None => print_trapframe addr tf;; tret false
    end.

Definition trap_dispatch (addr : Z) (tf : trapframe) : M m (thread m bool) :=
  if s64 (tf_cause tf) <? 0 then interrupt_handler addr tf;; tret false
  else exception_handler addr tf.

(** ** trap *)

(** The way out of a trap from user mode. *)
Definition leave_kernel (tf : trapframe) : M m (thread m trapframe) :=
  p ← gets (λ s : m, cur_proc (m_kern s));
  if truth (Z.land (p_flags p) PF_EXITING) then
    _ ⇐ on_thread (do_exit (ke_ops e) (swap_init_ok e) (ke_swap_out e) (ke_rounds e) (- E_KILLED));
    tret tf
  else if negb (p_need_resched p =? 0) then
    on_kern (on_sched schedule);;
    mret (Suspended (tret tf : M m (thread m trapframe)))
  else tret tf.

(** The frame is at [addr] on the kernel stack; [current->tf] points to it meanwhile. *)
Definition trap (addr : Z) (tf : trapframe) : M m (thread m trapframe) :=
  has ← gets (@has_current F);
  if negb has then _ ⇐ trap_dispatch addr tf; tret tf
  else
    cur ← on_kern (on_pt get_cur);
    otf ← gets (λ s : m, k_tf (m_kern s) cur);
    oframe ← gets (λ s : m, k_frame (m_kern s) cur);
    on_kern (modify (λ s : k, set_k_frame cur tf (set_k_tf cur addr s)));;
    exec_ret ⇐ trap_dispatch addr tf;
    (tf' ← gets (λ s : m, k_frame (m_kern s) cur);
     if exec_ret : bool then tret tf'
     else
       on_kern (modify (λ s : k, set_k_frame cur (if addr =? otf then tf' else oframe) (set_k_tf cur otf s)));;
       if trap_in_kernel tf then tret tf' else leave_kernel tf').

(** ** kern/process/proc.c: [kernel_execve] *)

Fixpoint count_args (n : nat) (argv argc : Z) : M k Z :=
  match n with
  | O => out_of_fuel
  | S n' =>
    p ← load_ptr (argv + 8 * argc);
    if negb (p =? 0) then count_args n' argv (argc + 1) else mret argc
  end.

(** The breakpoint with the arguments of [SYS_exec] in the registers [regs]. *)
Definition kernel_execve (addr : Z) (regs : trapframe) (name argv : Z) : M m (thread m trapframe) :=
  argc ← on_kern (count_args (ke_fuel e) argv 0);
  trap addr (set_gpr reg_a7 10 (set_gpr (reg_a 3) argv (set_gpr (reg_a 2) argc (set_gpr (reg_a 1) name
    (set_gpr reg_a0 SYS_exec (Trapframe (gpr regs) (Z.lor (tf_status regs) SSTATUS_SPP) (tf_epc regs) 0 CAUSE_BREAKPOINT)))))).

End trap.
