(* ===== verification/UserImage.v ===== *)
(** * User memory as the page tables show it

    [user_byte] reads a user address through the tables of an address space.  Mapping
    a new page and filling a frame change it for the addresses of one page and for
    no other. *)

From S2P Require Import Prelude ListH Pmm CString SkewHeap Sched Sync Vmm VmmProofs Pgtable PgtableProofs Addr AddrProofs Kmalloc Proc Vfs File Kernel Sysfile Exec.

(** ** Page numbers *)

Lemma PGOFF_mod la : PGOFF la = la mod PGSIZE.
Proof. unfold PGOFF. change 0xFFF with (Z.ones 12). by rewrite Z.land_ones by lia. Qed.

Lemma index_mod la k : 0 ≤ k → Z.land (Z.shiftr la k) 0x1FF = la / 2 ^ k mod 512.
Proof. intros Hk. change 0x1FF with (Z.ones 9). rewrite Z.land_ones by lia. by rewrite Z.shiftr_div_pow2. Qed.

Lemma three_digits n : 0 ≤ n < 2 ^ 27 → n = n mod 512 + 512 * (n / 512 mod 512) + 262144 * (n / 262144 mod 512).
Proof. intros Hn. Z.to_euclidean_division_equations. lia. Qed.

(** The indices determine the page of an Sv39 address, and the other way round. *)
Lemma vpn_page x y : 0 ≤ x < 2 ^ 39 → 0 ≤ y < 2 ^ 39 → vpn x = vpn y ↔ x / PGSIZE = y / PGSIZE.
Proof.
  intros Hx Hy. unfold vpn, PDX1, PDX0, PTX, PDX1SHIFT, PDX0SHIFT, PTXSHIFT, PGSIZE. rewrite !index_mod by lia.
  change (2 ^ 30) with (2 ^ 12 * 262144). change (2 ^ 21) with (2 ^ 12 * 512). rewrite <-!Z.div_div by lia. change (2 ^ 12) with 4096.
  split; [|by intros ->]. intros [= H1 H0 Ht].
  rewrite (three_digits (x / 4096)), (three_digits (y / 4096)) by (Z.to_euclidean_division_equations; lia). congruence.
Qed.

Lemma pte_at_page s root x y : 0 ≤ x < 2 ^ 39 → 0 ≤ y < 2 ^ 39 → x / PGSIZE = y / PGSIZE → pte_at s root x = pte_at s root y.
Proof. intros Hx Hy H%vpn_page; [|done..]. injection H as H1 H0 Ht. unfold pte_at, walk. by rewrite H1, H0, Ht. Qed.

(** ** The image of an address space *)

Definition user_byte (s : vms) (root la : Z) : option Z :=
  let pte := pte_at s root la in
  if valid pte then Some (frame_byte (tab s (page_of pte)) (la mod PGSIZE)) else None.

(** The addresses of one page are mapped to [page] with the permissions [perm]. *)
Definition mapped (s : vms) (root la page perm : Z) : Prop :=
  ∀ x, la ≤ x < la + PGSIZE → pte_at s root x = pte_create (page2ppn page) (Z.lor PTE_V perm).

Section image.
(** the pages that user memory is taken from *)
Context (pool : Z → Prop).

(** User addresses are mapped to pages of their own, and free pages belong to the pool. *)
Record image_inv (s : vms) (root : Z) (own : Z → option role) (bs : list (Z * Z)) : Prop := ImageInv {
  ii_vm : vm_inv s root own bs;
  ii_pool : ∀ p bl, bl ∈ bs → in_block p bl → pool p;
  ii_page : ∀ x, 0 ≤ x < USERTOP → valid (pte_at s root x) = true → user_page own bs (page_of (pte_at s root x));
  ii_one : ∀ x y, 0 ≤ x < USERTOP → 0 ≤ y < USERTOP → valid (pte_at s root x) = true → valid (pte_at s root y) = true →
    page_of (pte_at s root x) = page_of (pte_at s root y) → x / PGSIZE = y / PGSIZE;
}.

(** Outside [lo, hi) nothing has changed for the user. *)
Definition same_image (s s' : vms) (root lo hi : Z) : Prop :=
  ∀ x, 0 ≤ x < USERTOP → ¬ (lo ≤ x < hi) → pte_at s' root x = pte_at s root x ∧ user_byte s' root x = user_byte s root x.

Lemma same_image_trans s s1 s2 root lo mid hi :
  lo ≤ mid ≤ hi → same_image s s1 root lo mid → same_image s1 s2 root mid hi → same_image s s2 root lo hi.
Proof.
  intros Hm H1 H2 x Hx Hn. destruct (H1 x Hx) as [<- <-]; [lia|]. apply H2; [done|lia].
Qed.

Lemma same_image_weaken s s' root lo hi lo' hi' : lo' ≤ lo → hi ≤ hi' → same_image s s' root lo hi → same_image s s' root lo' hi'.
Proof. intros H1 H2 H x Hx Hn. apply H; [done|lia]. Qed.

(** *** Filling a frame *)

Lemma set_frame_wf s root own page f :
  pt_wf s root own → own page = None → pt_wf (set_frame page f s) root own ∧ ∀ x, pte_at (set_frame page f s) root x = pte_at s root x.
Proof.
  intros [Hr Hd Ht] Hp. assert (∀ q, own q ≠ None → tab (set_frame page f s) q = tab s q) as Hoth.
  { intros q Hq. unfold set_frame. cbn [tab]. apply upd_ne. congruence. }
  assert (tab (set_frame page f s) root = tab s root) as Eroot by (apply Hoth; congruence).
  assert (∀ i, 0 ≤ i < 512 → valid (tab s root i) = true → tab (set_frame page f s) (page_of (tab s root i)) = tab s (page_of (tab s root i))) as Edir.
  { intros i Hi Hv. apply Hoth. destruct (Hd i Hi Hv). congruence. }
  split; [split|].
  - done.
  - rewrite Eroot. done.
  - intros i j Hi Hj. rewrite Eroot. intros Hv. rewrite Edir by done. by apply Ht.
  - intros x. unfold pte_at, walk. rewrite Eroot. destruct (valid (tab s root (PDX1 x))) eqn:Ev; [|done].
    rewrite Edir by (done || apply index_range). destruct (valid (tab s _ (PDX0 x))) eqn:Ev0; [|done].
    rewrite Hoth; [done|]. destruct (Ht (PDX1 x) (PDX0 x)) as [? _]; try (done || apply index_range). congruence.
Qed.

Lemma mapped_page s root la page perm x :
  mapped s root la page perm → 0 ≤ page < npage - nbase → 0 ≤ perm < 1024 → la ≤ x < la + PGSIZE →
  valid (pte_at s root x) = true ∧ page_of (pte_at s root x) = page.
Proof.
  intros Hm Hp Hpe Hx. rewrite (Hm x Hx). split; [apply pte_create_valid|]. apply new_entry; [done|].
  split; [apply Z.lor_nonneg; unfold PTE_V; lia|]. change 1024 with (2 ^ 10). apply Z.log2_lt_cancel. rewrite Z.log2_lor by (unfold PTE_V; lia).
  rewrite Z.log2_pow2 by lia. apply Z.max_lub_lt; [reflexivity|]. destruct (decide (perm = 0)) as [->|]; [done|]. apply Z.log2_lt_pow2; lia.
Qed.

Lemma fill_page s root own bs la page perm f :
  image_inv s root own bs → mapped s root la page perm → la mod PGSIZE = 0 → 0 ≤ la → la + PGSIZE ≤ USERTOP →
  0 ≤ page < npage - nbase → 0 ≤ perm < 1024 →
  image_inv (set_frame page f s) root own bs ∧ mapped (set_frame page f s) root la page perm ∧
  (∀ x, pte_at (set_frame page f s) root x = pte_at s root x) ∧ same_image s (set_frame page f s) root la (la + PGSIZE) ∧
  (∀ x, la ≤ x < la + PGSIZE → user_byte (set_frame page f s) root x = Some (frame_byte f (x - la))).
Proof.
  intros [Hv Hpl Hpg Hone] Hm Hal H0 Htop Hp Hpe. unfold PGSIZE, USERTOP in *.
  assert (∀ x, la ≤ x < la + 4096 → valid (pte_at s root x) = true ∧ page_of (pte_at s root x) = page) as Hmp.
  { intros x Hx. by eapply mapped_page. }
  destruct (Hmp la ltac:(lia)) as [Hvl Hpla]. destruct (Hpg la ltac:(lia) Hvl) as [Hown _]. rewrite Hpla in Hown.
  destruct (set_frame_wf s root own page f (vi_wf _ _ _ _ Hv) Hown) as [Hwf Hpte]. split; [split|split_and!].
  - by split; [|apply Hv|apply Hv].
  - done.
  - intros x Hx. rewrite Hpte. by apply Hpg.
  - intros x y Hx Hy. rewrite !Hpte. by apply Hone.
  - intros x Hx. rewrite Hpte. by apply Hm.
  - done.
  - intros x Hx Hn. split; [done|]. unfold user_byte. rewrite Hpte. destruct (valid (pte_at s root x)) eqn:Ev; [|done]. do 2 f_equal.
    unfold set_frame. cbn [tab]. apply upd_ne. intros E. rewrite <-Hpla in E. apply Hone in E; try done; try lia.
    unfold PGSIZE in E. Z.to_euclidean_division_equations. lia.
  - intros x Hx. destruct (Hmp x Hx) as [Hvx Hpx]. unfold user_byte. rewrite Hpte, Hvx, Hpx. unfold set_frame. cbn [tab]. rewrite upd_eq. do 2 f_equal.
    unfold PGSIZE. Z.to_euclidean_division_equations. lia.
Qed.

(** *** A new page *)

Context (sw : bool) (swap_out : Z → M vms unit) (rounds : nat) (have_check_mm : bool) (map_sw : Z → Z → M vms unit).
Context (Hsw : sw = true → have_check_mm = false).

Lemma map_page s root own bs la perm :
  image_inv s root own bs → la mod PGSIZE = 0 → 0 ≤ la → la + PGSIZE ≤ USERTOP → pte_at s root la = 0 → 3 ≤ total bs → 0 ≤ perm < 1024 →
  ∃ page s' own' bs', pgdir_alloc_page sw swap_out rounds have_check_mm map_sw root la perm s = Ok (Some page, s') ∧
    image_inv s' root own' bs' ∧ taken 3 bs bs' ∧ (∃ bl, bl ∈ bs ∧ in_block page bl) ∧ 0 ≤ page < npage - nbase ∧ mapped s' root la page perm ∧
    same_image s s' root la (la + PGSIZE).
Proof.
  intros [Hv Hpl Hpg Hone] Hal H0 Htop Hla Ht Hpe. unfold PGSIZE, USERTOP in *.
  destruct (pgdir_alloc_page_maps swap_out rounds have_check_mm map_sw s root own bs la perm Hv Hla Ht)
    as (page & s' & own' & bs' & E & Hv' & Htk & Hoth & Hus & Hup & Hpr & (bl & Hbl & Hpbl) & Hpte).
  assert (mapped s' root la page perm) as Hm.
  { intros x Hx. unfold PGSIZE in Hx. rewrite <-Hpte. apply pte_at_page; unfold PGSIZE; Z.to_euclidean_division_equations; lia. }
  assert (∀ x, 0 ≤ x < USERTOP → ¬ (la ≤ x < la + 4096) → pte_at s' root x = pte_at s root x) as Hout.
  { unfold USERTOP. intros x Hx Hn. apply Hoth. intros Ev. apply vpn_page in Ev; [|lia..]. unfold PGSIZE in Ev. Z.to_euclidean_division_equations. lia. }
  assert (∀ x, la ≤ x < la + 4096 → valid (pte_at s' root x) = true ∧ page_of (pte_at s' root x) = page) as Hin.
  { intros x Hx. by eapply mapped_page. }
  exists page, s', own', bs'. split; [by apply pgdir_alloc_page_sw|]. split; [split|split_and!]; try done.
  - intros p b Hb Hpb. destruct (proj2 Htk p b Hb Hpb) as (b' & ? & ?). by eapply Hpl.
  - intros x Hx. destruct (decide (la ≤ x < la + 4096)) as [Hi|Hn].
    + destruct (Hin x Hi) as [_ ->]. done.
    + rewrite Hout by done. intros Hvx. by apply Hus, Hpg.
  - intros x y Hx Hy. destruct (decide (la ≤ x < la + 4096)) as [Hix|Hnx], (decide (la ≤ y < la + 4096)) as [Hiy|Hny].
    + intros _ _ _. unfold PGSIZE. Z.to_euclidean_division_equations. lia.
    + rewrite (Hout y) by done. destruct (Hin x Hix) as [_ ->]. intros _ Hvy Eq. exfalso.
      by destruct (Hus _ (Hpg y Hy Hvy)) as (_ & _ & Hne); rewrite Eq in Hne.
    + rewrite (Hout x) by done. destruct (Hin y Hiy) as [_ ->]. intros Hvx _ Eq. exfalso.
      by destruct (Hus _ (Hpg x Hx Hvx)) as (_ & _ & Hne); rewrite Eq in Hne.
    + rewrite !Hout by done. by apply Hone.
  - by exists bl.
  - lia.
  - lia.
  - intros x Hx Hn. rewrite Hout by done. split; [done|]. unfold user_byte. rewrite Hout by done.
    destruct (valid (pte_at s root x)) eqn:Evx; [|done]. do 2 f_equal. by apply Hus, Hpg.
Qed.

End image.
