(* ===== verification/SfsData.v ===== *)
(** * The data of files of the simple file system

    The files of a [volume] keep the promise [FileData] that the layers above a file
    system rely on: [sfs_node_fileops] delivers their contents. *)

From S2P Require Import Prelude ListH CString Bitmap Vmm Vfs File Disk Proc Sfs SfsProofs SfsNode SfsNodeProofs Sysfile FileData.

(** The inode [node] is the file of that number among the files [Fl] of the volume, and it
    holds [content]. *)
Record sfs_good (Fl : Z → Prop) (node : Z) (content : list Z) (s : node_st) : Prop := SfsGood {
  sg_volume : volume Fl (fsd s);
  sg_file : Fl node;
  sg_type : din_type (fsd s) node ≠ SFS_TYPE_DIR;
  sg_info : i_type s node = inode_type_sfs_inode_info;
  sg_content : contents (fsd s) node = content;
}.

Lemma volume_mem Fl m v : volume Fl v → volume Fl (set_s_mem m v).
Proof.
  intros [Hv Hf Hs Ha]. split; [by eapply (vol_ok_same v)| |done|done].
  intros n Hn. by eapply (file_ok_same v); [done..|apply Hf].
Qed.

Section data.
Context (dev_ret : Z → bool → Z) (Hdev : ∀ b w, dev_ret b w = 0).
Context (kfree : Z → M node_st unit) (ops : ops_kind → inode_ops node_st).
Context (Fl : Z → Prop) (node : Z) (content : list Z).

Notation good := (sfs_good Fl node content).

Lemma sfs_good_mem s s' m : good s → fsd s' = set_s_mem m (fsd s) → i_type s' = i_type s → good s'.
Proof.
  intros [Hv Hf Ht Hi Hc] E Ei. split; [rewrite E; by apply volume_mem|done|by rewrite E|by rewrite Ei|rewrite E; exact Hc].
Qed.

Lemma sfs_size s : good s → din_size (fsd s) node = Z.of_nat (length content) ∧ Z.of_nat (length content) ≤ 4096 * max_blocks.
Proof.
  intros [Hv Hf _ _ <-]. destruct (volume_max _ _ _ Hv Hf) as [? ?]. rewrite contents_length. lia.
Qed.

Lemma sfs_info_ok s : good s → sfs_info node s = Ok (node, s).
Proof. intros Hg. unfold sfs_info. rewrite bind_asserts; [done|]. apply bool_decide_eq_true_2. apply Hg. Qed.

(** [sfs_tryseek] inside the file. *)
Lemma node_tryseek_inside s pos :
  good s → 0 ≤ pos ≤ Z.of_nat (length content) →
  ∃ s', node_tryseek dev_ret node pos s = Ok (0, s') ∧ s' = set_fsd (fsd s') s ∧ good s'.
Proof.
  intros Hg Hp. destruct (sfs_size s Hg) as [Hsz Hmx]. rewrite max_blocks_val in Hmx.
  unfold node_tryseek. rewrite (bind_ok _ _ _ _ _ (sfs_info_ok s Hg)).
  assert (sfs_tryseek dev_ret node pos (set_s_mem (k_mem s) (fsd s)) = Ok (0, set_s_mem (k_mem s) (fsd s))) as E.
  { unfold sfs_tryseek. change SFS_MAX_FILE_SIZE with 134217728. destruct (Z.ltb_spec pos 0), (Z.leb_spec 134217728 pos); try lia. cbn [orb].
    rewrite bind_gets. cbn [din_size set_s_mem]. destruct (Z.ltb_spec (din_size (fsd s) node) pos); [lia|done]. }
  rewrite (on_sfs_ok _ _ _ _ E). eexists. split; [reflexivity|]. split; [by destruct s|]. by apply (sfs_good_mem s _ (k_mem s)).
Qed.

(** [sfs_read] of at most a block inside the file. *)
Lemma sfs_read_inside s iob :
  good s → 0 ≤ io_offset iob → 0 ≤ io_resid iob ≤ IOBUF_SIZE → io_offset iob + io_resid iob ≤ Z.of_nat (length content) →
  ∃ s', sfs_read dev_ret node iob s =
      Ok ((0, Iobuf (io_base iob + io_resid iob) (io_offset iob + io_resid iob) (io_len iob) 0), s') ∧
    s' = set_k_mem (k_mem s') (set_fsd (fsd s') s) ∧ good s' ∧
    (∀ i, 0 ≤ i < io_resid iob → content !! Z.to_nat (io_offset iob + i) = Some (k_mem s' (io_base iob + i))) ∧
    (∀ a, ¬ io_base iob ≤ a < io_base iob + io_resid iob → k_mem s' a = k_mem s a).
Proof.
  intros Hg Ho Hr Hle. destruct (sfs_size s Hg) as [Hsz Hmx]. rewrite max_blocks_val in Hmx. unfold IOBUF_SIZE in Hr.
  unfold sfs_read, sfs_io. rewrite (bind_ok _ _ _ _ _ (sfs_info_ok s Hg)). destruct Hg as [Hv Hf Ht Hi Hc].
  set (v := set_s_mem (k_mem s) (fsd s)). pose proof (volume_mem Fl (k_mem s) _ Hv) as Hv'. destruct (volume_max _ _ _ Hv Hf) as [Hz Hb].
  destruct (read_file dev_ret Hdev v node (io_base iob) (io_offset iob) (io_resid iob) (vl_vol _ _ Hv') (vl_file _ _ Hv' _ Hf) Ht Hz) as (v' & E & [Es Em]);
    [change SFS_MAX_FILE_SIZE with 134217728; lia|lia|].
  change (din_size v node) with (din_size (fsd s) node) in E, Em. replace (Z.max 0 _) with (io_resid iob) in E, Em by lia.
  rewrite (bind_ok _ _ _ _ _ (on_sfs_ok _ _ _ _ E)). set (s1 := set_k_mem (s_mem v') (set_fsd v' s)).
  assert ((if negb (io_resid iob =? 0) then iobuf_skip iob (io_resid iob) else mret iob) s1 =
    Ok (Iobuf (io_base iob + io_resid iob) (io_offset iob + io_resid iob) (io_len iob) 0, s1)) as Ei.
  { destruct (Z.eqb_spec (io_resid iob) 0) as [E0|_]; cbn [negb].
    - rewrite E0, !Z.add_0_r, <-E0. by destruct iob.
    - unfold iobuf_skip. rewrite bind_assert by lia. by rewrite Z.sub_diag. }
  rewrite (bind_ok _ _ _ _ _ Ei). exists s1. split; [done|]. split; [by destruct s|]. split.
  { apply (sfs_good_mem s _ (s_mem v')); [by split|by cbn [fsd s1 set_k_mem set_fsd]; rewrite Es at 1|done]. }
  cbn [k_mem s1 set_k_mem]. split.
  - intros i Hi'. rewrite Em, decide_True by lia. rewrite <-Hc, lookup_contents, decide_True by lia.
    f_equal. change (fbyte v node) with (fbyte (fsd s) node). f_equal. lia.
  - intros a Ha. by rewrite Em, decide_False by lia.
Qed.

Lemma sfs_file_data : Forall (λ b, 0 ≤ b < 256) content → FileData (sfs_fileops dev_ret kfree ops) node content good.
Proof.
  intros Hb. split; [done| | |].
  - intros s s' Hg Ed Ei. apply (sfs_good_mem s _ (s_mem (fsd s))); [done|by rewrite Ed, set_s_mem_id|done].
  - intros s pos Hg Hp. destruct (node_tryseek_inside s pos Hg Hp) as (s' & E & H). by exists (node_tryseek dev_ret), s'.
  - intros s iob Hg Ho Hr _ Hle. destruct (sfs_read_inside s iob Hg Ho Hr Hle) as (s' & E & H). by exists (sfs_read dev_ret), s'.
Qed.

End data.
