(* ===== verification/ExecProofs.v ===== *)
(** * Loading of programs: proofs

    [load_segment] puts the bytes of the file and zeros where the program header asks
    for them, in pages that were free, and leaves the rest of the address space as
    it was. *)

From S2P Require Import Prelude ListH Pmm CString SkewHeap Sched Sync Vmm VmmProofs Pgtable PgtableProofs Addr AddrProofs Kmalloc KmallocProofs Proc Vfs File Kernel Sysfile FileData Bitmap Disk Sfs SfsProofs SfsNode SfsData Exec UserImage KernelProofs.

(** ** Bytes of words and frames *)

Lemma byte_of_range v i : 0 ≤ byte_of v i < 256.
Proof. unfold byte_of. apply Z.mod_pos_bound. lia. Qed.

Lemma le_byte n f off i :
  (∀ j, 0 ≤ j < Z.of_nat n → 0 ≤ f (off + j) < 256) → 0 ≤ i < Z.of_nat n → byte_of (le n f off) i = f (off + i).
Proof.
  revert off i. induction n as [|n IH]; intros off i Hf Hi; [lia|]. cbn [le]. pose proof (Hf 0 ltac:(lia)) as H0. rewrite Z.add_0_r in H0.
  destruct (Z.eq_dec i 0) as [->|Hi0].
  - unfold byte_of. rewrite Z.pow_0_r, Z.div_1_r, Z.add_0_r, (Z.mul_comm 256), Z.mod_add by lia. by apply Z.mod_small.
  - replace i with (1 + (i - 1)) by lia. replace (off + (1 + (i - 1))) with (off + 1 + (i - 1)) by lia. rewrite <-(IH (off + 1) (i - 1)).
    + unfold byte_of. rewrite Z.pow_add_r, Z.pow_1_r, <-Z.div_div by lia. do 2 f_equal.
      rewrite (Z.mul_comm 256), Z.div_add by lia. rewrite (Z.div_small (f off)) by lia. lia.
    + intros j Hj. replace (off + 1 + j) with (off + (1 + j)) by lia. apply Hf. lia.
    + lia.
Qed.

Lemma frame_byte_range f o : 0 ≤ frame_byte f o < 256.
Proof. apply byte_of_range. Qed.

Lemma frame_byte_set off n g f o :
  (∀ i, 0 ≤ i < n → 0 ≤ g i < 256) →
  frame_byte (set_frame_bytes off n g f) o = if decide (off ≤ o < off + n) then g (o - off) else frame_byte f o.
Proof.
  intros Hg. unfold frame_byte at 1, set_frame_bytes. rewrite le_byte.
  - rewrite <-Z.div_mod by lia. case_decide.
    + by rewrite (proj2 (Z.leb_le _ _)), (proj2 (Z.ltb_lt _ _)) by lia.
    + destruct (Z.leb_spec off o), (Z.ltb_spec o (off + n)); try done. lia.
  - intros j _. destruct (Z.leb_spec off (8 * (o / 8) + j)), (Z.ltb_spec (8 * (o / 8) + j) (off + n)); cbn [andb];
      try apply frame_byte_range. apply Hg. lia.
  - pose proof (Z.mod_pos_bound o 8). lia.
Qed.

(** ** The heap, as the loader relies on it *)

Definition range (base len a : Z) : Prop := base ≤ a < base + len.

(** The memory of the free pages. *)
Definition frames (bs : list (Z * Z)) (a : Z) : Prop := ∃ page bl, bl ∈ bs ∧ in_block page bl ∧ range (kva page) PGSIZE a.

(** A heap on top of the page allocator.  [hinv U s] says that the heap is well formed in
    [s] and keeps nothing in the memory [U], so that others may use it.  From [s] to [s'] the heap has taken
    or returned pages, at most two of the free pages [bs] are gone, and nothing that is in use by others
    has changed. *)
Record heap_step {F} (pool : Z → Prop) (hinv : (Z → Prop) → kern F → Prop) (root : Z) (own : Z → option role)
    (U : Z → Prop) (bs : list (Z * Z)) (s s' : kern F) (U' : Z → Prop) (bs' : list (Z * Z)) : Prop := HeapStep {
  hs_state : s' = set_k_vms (k_vms s') (set_kmem (kmem s') s);
  hs_tab : tab (k_vms s') = tab (k_vms s);
  hs_image : UserImage.image_inv pool (k_vms s') root own bs';
  hs_cost : total bs ≤ total bs' + 2;
  hs_free : ∀ a, frames bs' a → U' a;
  hs_mem : ∀ a, U a → U' a → kmem s' a = kmem s a;
  hs_inv : hinv U' s';
}.

(** With two free pages [kmalloc] of at most a page returns a block.  It takes memory only from
    free pages, and the block is none of the memory that others use afterwards.  [kfree] of the block
    returns, as long as the pages and the heap's own memory have not been changed meanwhile. *)
Class HeapLaws {F} (pool : Z → Prop) (kmalloc : Z → M (kern F) (option Z)) (kfree : Z → M (kern F) unit)
    (hinv : (Z → Prop) → kern F → Prop) : Prop := {
  heap_frame : ∀ U s s', hinv U s → (∀ a, ¬ U a → kmem s' a = kmem s a) → hinv U s';
  heap_kmalloc : ∀ U s root own bs sz, (sz = sizeof_vma ∨ sz = IOBUF_SIZE) →
    hinv U s → UserImage.image_inv pool (k_vms s) root own bs → (∀ a, frames bs a → U a) → 2 ≤ total bs →
    ∃ b s1 bs1 U1, kmalloc sz s = Ok (Some b, s1) ∧ heap_step pool hinv root own U bs s s1 U1 bs1 ∧
      (∀ a, U1 a → U a) ∧ (∀ a, U a → ¬ frames bs a → U1 a) ∧ (∀ a, range b sz a → ¬ U1 a) ∧
      ∀ s2, k_vms s2 = k_vms s1 → (∀ a, ¬ U1 a → ¬ range b sz a → kmem s2 a = kmem s1 a) →
        ∃ s3 bs3 U3, kfree b s2 = Ok (tt, s3) ∧ heap_step pool hinv root own U1 bs s2 s3 U3 bs3 ∧ ∀ a, U1 a → U3 a;
}.

Section exec.
Context {F : Type} (ops : ops_kind → inode_ops (vst F)) (kd : ops_kind) (node : Z) (content : list Z).
Context (good : vst F → Prop) `{!FileData (ops kd) node content good}.
(** [pool] are the pages that memory is taken from. *)
Context (pool : Z → Prop) (Hpool : ∀ page, pool page → 0x200 ≤ page < npage - nbase).
Context (kmalloc : Z → M (kern F) (option Z)) (kfree : Z → M (kern F) unit) (hinv : (Z → Prop) → kern F → Prop).
Context `{!HeapLaws pool kmalloc kfree hinv}.
Context (Hsize : Z.of_nat (length content) < 2 ^ 63).

Implicit Types s : kern F.

Notation readable := (readable kd node good).
Notation load_icode_read := (load_icode_read ops kmalloc kfree).
Notation image_inv := (image_inv pool).
Notation heap_step := (heap_step pool hinv).

(** The heap in [s], with [U] for the others and the free pages in it. *)
Record heap_ok (U : Z → Prop) s (bs : list (Z * Z)) : Prop := HeapOk {
  ho_inv : hinv U s;
  ho_free : ∀ a, frames bs a → U a;
}.

Lemma heap_ok_mem U s s' bs : heap_ok U s bs → (∀ a, ¬ U a → kmem s' a = kmem s a) → heap_ok U s' bs.
Proof. intros [Hi Hf] Hm. split; [by eapply heap_frame|done]. Qed.

(** *** Input and output in the whole state *)

(** What the loader changes: open files, the data of file systems, memory and pages. *)
Record load_step (s s' : kern F) : Prop := LoadStep {
  ls_state : s' = set_k_vms (k_vms s') (set_k_fs (k_fs s') s);
  ls_only : io_only (fs_view s) (fs_view s');
}.

#[local] Instance load_step_preorder : PreOrder load_step.
Proof. split; [by intros []|]. intros s s1 s2 [E1 O1] [E2 O2]. split; [rewrite E2; by rewrite E1|by etrans]. Qed.

Lemma load_step_vmm s s' : load_step s s' → k_vmm (k_fs s') = k_vmm (k_fs s).
Proof. intros [_ H]. red in H. change (k_vmm (fs_view s') = k_vmm (fs_view s)). by rewrite H. Qed.

Lemma load_step_proc s s' : load_step s s' → cur_proc s' = cur_proc s.
Proof. intros [E _]. by rewrite E. Qed.

Lemma vms_load_step s v : load_step s (set_k_vms v s).
Proof. by split. Qed.

Lemma mem_load_step s m : load_step s (set_kmem m s).
Proof. by split; [destruct s as [? []]|]. Qed.

Lemma heap_load_step root own U bs s s' U' bs' : heap_step root own U bs s s' U' bs' → load_step s s'.
Proof. intros [E _ _ _ _ _ _]. rewrite E. etrans; [apply mem_load_step|apply vms_load_step]. Qed.

(** A step of the file layer. *)
Lemma on_files_io {A} (m : M (vst F) A) s a v :
  m (fs_view s) = Ok (a, v) → io_only (fs_view s) v →
  ∃ s', on_files m s = Ok (a, s') ∧ load_step s s' ∧ fs_view s' = v ∧ k_vms s' = k_vms s.
Proof.
  intros E O. assert (fs_view (set_k_fs v s) = v) as Ev by (red in O; rewrite O; done).
  exists (set_k_fs v s). split; [exact (zoom_ok fs_view set_k_fs _ _ _ _ E)|]. split; [|done].
  split; [by destruct s|by rewrite Ev].
Qed.

Lemma kmem_view s : kmem s = k_mem (fs_view s).
Proof. done. Qed.

Lemma readable_same s s' p fd :
  readable (fs_view s) p fd → io_only (fs_view s) (fs_view s') → f_array (fs_view s') = f_array (fs_view s) →
  fsd (fs_view s') = fsd (fs_view s) → readable (fs_view s') p fd.
Proof.
  intros [] O Ha Hd. pose proof (good_io ops kd node content good _ _ O Hd rd_good) as Hg. red in O. split; try done; rewrite O; cbn [io_parts]; rewrite ?Ha; done.
Qed.

Lemma readable_mem s m p fd : readable (fs_view s) p fd → readable (fs_view (set_kmem m s)) p fd.
Proof. intros R. by apply (readable_same s). Qed.

Lemma readable_heap root own U bs s s' U' bs' p fd : heap_step root own U bs s s' U' bs' → readable (fs_view s) p fd → readable (fs_view s') p fd.
Proof. intros [E _ _ _ _ _ _] R. rewrite E. apply (readable_mem s (kmem s')) in R. exact R. Qed.

(** What a computation in a frame does: files, memory outside the heap, and pages for the heap. *)
Record frame_step (root : Z) (own : Z → option role) (U : Z → Prop) (bs : list (Z * Z)) s s' (U' : Z → Prop) (bs' : list (Z * Z)) : Prop := FrameStep {
  fs_load : load_step s s';
  fs_tab : tab (k_vms s') = tab (k_vms s);
  fs_image : image_inv (k_vms s') root own bs';
  fs_cost : total bs ≤ total bs' + 2;
  fs_heap : heap_ok U' s' bs';
  fs_used : ∀ a, U a → ¬ frames bs a → U' a;
}.

(** [load_icode_read]: the bytes of the file. *)
Lemma load_icode_read_spec s p fd buf len offset root own bs U :
  readable (fs_view s) p fd → p_mm (cur_proc s) = None → 0 ≤ offset → 0 < len < 2 ^ 31 →
  offset + len ≤ Z.of_nat (length content) → KERNBASE ≤ buf → buf + len ≤ KERNTOP →
  image_inv (k_vms s) root own bs → heap_ok U s bs → 2 ≤ total bs → (∀ a, range buf len a → U a ∧ ¬ frames bs a) →
  ∃ s' U' bs', load_icode_read fd buf len offset s = Ok (0, s') ∧ frame_step root own U bs s s' U' bs' ∧ readable (fs_view s') p fd ∧
    ∀ i, 0 ≤ i < len → content !! Z.to_nat (offset + i) = Some (kmem s' (buf + i)).
Proof.
  intros R Hmm Ho Hl Hol Hb1 Hb2 Hi [Hh Hfr] Htot Hbuf. unfold Exec.load_icode_read, sysfile_seek.
  destruct (file_seek_data ops kd node content good (fs_view s) p fd offset R ltac:(lia)) as (v1 & E1 & S1 & Em1 & R1).
  pose proof (seeked_pos _ _ _ _ _ S1) as Hpos1. destruct S1 as [O1 _].
  destruct (on_files_io _ s 0 v1 E1 O1) as (s1 & Es1 & L1 & V1 & Ep1).
  rewrite (bind_ok _ _ _ _ _ Es1). cbn [Z.eqb negb].
  assert (kmem s1 = kmem s) as Ek1 by (by rewrite kmem_view, V1, Em1).
  destruct (heap_kmalloc U s1 root own bs IOBUF_SIZE) as (b & s2 & bs2 & U2 & E2 & H2 & Hsub & Hkeep & Hblk & Hfree);
    [by right|by eapply heap_frame; [|rewrite Ek1]|by rewrite Ep1|done|done|]. rewrite (bind_ok _ _ _ _ _ E2).
  pose proof (heap_load_step _ _ _ _ _ _ _ _ H2) as L2. pose proof (transitivity L1 L2) as L12.
  assert (readable (fs_view s2) p fd) as R2 by (eapply readable_heap; [done|]; by rewrite V1).
  assert (cur_mm (fs_view s2) = None) as Hmm2 by (unfold fs_view; cbn [cur_mm]; by rewrite (load_step_proc _ _ L12)).
  assert (fl_pos (f_array (fs_view s2) p fd) = offset) as Hpos2.
  { rewrite (hs_state _ _ _ _ _ _ _ _ _ _ H2). change (fl_pos (f_array (fs_view s1) p fd) = offset). by rewrite V1. }
  assert (∀ a, range buf len a → U2 a) as Hbuf2 by (intros a Ha; destruct (Hbuf a Ha); by apply Hkeep).
  destruct (sysfile_read_data ops kd node content good (fs_view s2) p fd offset (Some b) buf len R2 Hmm2 Hpos2 Ho Hl Hol Hsize Hb1 Hb2) as (v3 & E3 & [S3 R3 B3 M3]).
  { intros a Ha Hb. by apply (Hblk a), Hbuf2. }
  destruct S3 as [O3 _]. destruct (on_files_io _ s2 len v3 E3 O3) as (s3 & Es3 & L3 & V3 & Ep3). rewrite (bind_ok _ _ _ _ _ Es3).
  destruct (Hfree s3 Ep3) as (s4 & bs4 & U4 & E4 & H4 & Hsub4).
  { intros a Ha Hb. rewrite kmem_view, V3. apply M3; [intros Hr; by apply Ha, Hbuf2|done]. }
  rewrite (bind_ok _ _ _ _ _ E4), u64_small, Z.eqb_refl by lia. cbn [negb].
  pose proof (heap_load_step _ _ _ _ _ _ _ _ H4) as L4.
  exists s4, U4, bs4. split; [done|]. split; [|split].
  - split; [etrans; [exact L12|]; by etrans| |apply H4|apply H4|split; apply H4|].
    + by rewrite (hs_tab _ _ _ _ _ _ _ _ _ _ H4), Ep3, (hs_tab _ _ _ _ _ _ _ _ _ _ H2), Ep1.
    + intros a Ha Hn. by apply Hsub4, Hkeep.
  - eapply readable_heap; [done|]. by rewrite V3.
  - intros i Hi'. rewrite B3 by done. f_equal. rewrite (hs_mem _ _ _ _ _ _ _ _ _ _ H4); [by rewrite kmem_view, V3|..].
    + apply Hbuf2. unfold range. lia.
    + apply Hsub4, Hbuf2. unfold range. lia.
Qed.

(** *** Frames through the direct map *)

Definition page_in (U : Z → Prop) (bs : list (Z * Z)) (page : Z) : Prop :=
  (∀ a, range (kva page) PGSIZE a → U a) ∧ Forall (λ bl, ¬ in_block page bl) bs.

Lemma page_in_apart U bs page a : page_in U bs page → range (kva page) PGSIZE a → U a ∧ ¬ frames bs a.
Proof.
  intros [Hu Hf] Ha. split; [by apply Hu|]. intros (q & bl & Hbl & Hq & Hr). rewrite Forall_forall in Hf. apply (Hf bl Hbl).
  replace page with q; [done|]. unfold range, kva, PGSIZE in *. lia.
Qed.

(** A computation between [show_frame] and [store_frame]. *)
Lemma in_frame_spec {A} (m : Z → M (kern F) A) page off n s r s1 root own U bs U1 bs1 :
  0x200 ≤ page < npage - nbase → 
  m (kva page + off) (show_frame page off n (kva page) s) = Ok (r, s1) →
  frame_step root own U bs (show_frame page off n (kva page) s) s1 U1 bs1 →
  ∃ s', in_frame page off n m s = Ok (r, s') ∧ load_step s s' ∧ fs_view s' = fs_view s1 ∧ heap_ok U1 s' bs1 ∧
    k_vms s' = set_frame page (set_frame_bytes off n (λ i, kmem s1 (kva page + off + i)) (tab (k_vms s) page)) (k_vms s1).
Proof.
  intros Hpr E [L T I C H _]. unfold in_frame.
  rewrite (bind_ok _ _ _ _ _ (page2kva_spec s page ltac:(lia))), bind_modify, (bind_ok _ _ _ _ _ E), bind_modify.
  eexists _. split; [reflexivity|]. split; [|split; [done|split]].
  - etrans; [apply (mem_load_step s)|]. etrans; [exact L|]. apply vms_load_step.
  - by eapply heap_ok_mem.
  - unfold store_frame. cbn [k_vms set_k_vms]. by rewrite T.
Qed.

Lemma content_byte i b : content !! i = Some b → 0 ≤ b < 256.
Proof. intros H. pose proof (@data_bytes F _ _ _ _ _) as Hc. rewrite Forall_forall in Hc. eapply Hc. by eapply list_elem_of_lookup_2. Qed.

(** The bytes of the file from [offset] on. *)
Definition file_byte (offset i : Z) : Z := default 0 (content !! Z.to_nat (offset + i)).

(** The state after a frame was filled: the heap may have taken pages. *)
Record filled (root : Z) (own : Z → option role) (U : Z → Prop) (bs : list (Z * Z)) (page : Z) (f : Z → Z) s s' (U' : Z → Prop) (bs' : list (Z * Z)) : Prop := Filled {
  fi_load : load_step s s';
  fi_heap : heap_ok U' s' bs';
  fi_used : ∀ a, U a → ¬ frames bs a → U' a;
  fi_vms : ∃ v, k_vms s' = set_frame page f v ∧ tab v = tab (k_vms s) ∧ image_inv v root own bs' ∧ total bs ≤ total bs' + 2;
}.

Lemma load_frame_spec s p fd page off n offset root own U bs :
  readable (fs_view s) p fd → p_mm (cur_proc s) = None → pool page → page_in U bs page → 0 ≤ off → 0 < n → off + n ≤ PGSIZE →
  0 ≤ offset → offset + n ≤ Z.of_nat (length content) → image_inv (k_vms s) root own bs → heap_ok U s bs → 2 ≤ total bs →
  ∃ s' f' U' bs', in_frame page off n (λ kva, load_icode_read fd kva n offset) s = Ok (0, s') ∧ filled root own U bs page f' s s' U' bs' ∧
    readable (fs_view s') p fd ∧
    ∀ o, frame_byte f' o = if decide (off ≤ o < off + n) then file_byte offset (o - off) else frame_byte (tab (k_vms s) page) o.
Proof.
  intros R Hmm Hp Hin H0 Hn Hon Ho Hol Hi Hh Ht. pose proof (Hpool page Hp) as Hpr.
  set (s0 := show_frame page off n (kva page) s). unfold npage, nbase in *.
  assert (∀ a, range (kva page + off) n a → U a ∧ ¬ frames bs a) as Hr.
  { intros a Ha. apply (page_in_apart U bs page); [done|]. unfold range, PGSIZE in *. lia. }
  destruct (load_icode_read_spec s0 p fd (kva page + off) n offset root own bs U) as (s1 & U' & bs' & E & S & R1 & Hb); try done; try (unfold PGSIZE in *; lia).
  - by apply readable_mem.
  - unfold kva, KERNBASE, PGSIZE. lia.
  - unfold kva, KERNTOP, KERNBASE, KMEMSIZE, PGSIZE in *. lia.
  - eapply heap_ok_mem; [done|]. intros a Ha. change (kmem s0 a) with
      (if ((kva page + off <=? a) && (a <? kva page + off + n))%bool then frame_byte (tab (k_vms s) page) (a - kva page) else kmem s a).
    destruct (Z.leb_spec (kva page + off) a), (Z.ltb_spec a (kva page + off + n)); try done. exfalso. by apply Ha, Hr.
  - destruct (in_frame_spec (λ kva, load_icode_read fd kva n offset) page off n s 0 s1 root own U bs U' bs') as (s' & E' & L & V & Hh' & Et); try done.
    eexists s', _, U', bs'. split; [done|]. split; [split; [done|done|apply S|exists (k_vms s1); split_and!; [exact Et|apply S|apply S|apply S]]|].
    split; [by rewrite V|]. intros o. rewrite frame_byte_set.
    + case_decide; [|done]. unfold file_byte. by rewrite Hb by lia.
    + intros i Hi'. eapply content_byte. by apply Hb.
Qed.

Lemma zero_frame_spec s page off n root own U bs :
  pool page → page_in U bs page → 0 ≤ off → 0 ≤ n → off + n ≤ PGSIZE → image_inv (k_vms s) root own bs → heap_ok U s bs →
  ∃ s' f', zero_frame page off n s = Ok (tt, s') ∧ load_step s s' ∧ heap_ok U s' bs ∧ fs_view s' = fs_view (set_kmem (kmem s') s) ∧
    k_vms s' = set_frame page f' (k_vms s) ∧
    ∀ o, frame_byte f' o = if decide (off ≤ o < off + n) then 0 else frame_byte (tab (k_vms s) page) o.
Proof.
  intros Hp Hin H0 Hn Hon Hi Hh. set (s0 := show_frame page off n (kva page) s). unfold zero_frame.
  destruct (memset_spec (kmem s0) (kva page + off) 0 n Hn) as (m & E & Hm).
  assert (on_kmem (memset (kva page + off) 0 n) s0 = Ok (kva page + off, set_kmem m s0)) as E0 by exact (zoom_ok kmem set_kmem _ _ _ _ E).
  assert (∀ a, ¬ U a → ¬ kva page + off ≤ a < kva page + off + n) as Hr.
  { intros a Ha Hx. apply Ha, Hin. unfold range, PGSIZE in *. lia. }
  assert (frame_step root own U bs s0 (set_kmem m s0) U bs) as S.
  { split; [apply mem_load_step|done|done|lia| |by intros]. eapply heap_ok_mem; [done|]. intros a Ha. change (kmem (set_kmem m s0) a) with (m a).
    rewrite Hm, decide_False by (by apply Hr). change (kmem s0 a) with
      (if ((kva page + off <=? a) && (a <? kva page + off + n))%bool then frame_byte (tab (k_vms s) page) (a - kva page) else kmem s a).
    specialize (Hr a Ha). destruct (Z.leb_spec (kva page + off) a), (Z.ltb_spec a (kva page + off + n)); try done. lia. }
  destruct (in_frame_spec (λ kva, on_kmem (memset kva 0 n)) page off n s _ _ root own U bs U bs (Hpool page Hp) E0 S) as (s' & E' & L & V & Hh' & Et).
  rewrite (bind_ok _ _ _ _ _ E'). eexists s', _. split; [reflexivity|]. split; [done|]. split; [done|]. split; [by rewrite kmem_view, V|]. split; [exact Et|].
  intros o. rewrite frame_byte_set.
  - case_decide; [|done]. change (kmem (set_kmem m s0)) with m. by rewrite Hm, decide_True by lia.
  - intros i Hi'. change (kmem (set_kmem m s0)) with m. rewrite Hm, decide_True by lia. done.
Qed.

(** *** Pages with data *)

(** Swapping may be on: there is memory enough, and no self test of the kernel is running. *)
Context (sw : bool) (swap_out : Z → M vms unit) (rounds : nat) (have_check_mm : bool) (map_sw : Z → Z → M vms unit).
Context (Hsw : sw = true → have_check_mm = false).

Notation pgdir_alloc_page := (pgdir_alloc_page sw swap_out rounds have_check_mm map_sw).
Notation load_pages := (load_pages ops sw swap_out rounds have_check_mm map_sw kmalloc kfree).
Notation zero_pages := (zero_pages sw swap_out rounds have_check_mm map_sw).

(** Pages have been mapped from [lo] to [hi], with at most five pages of memory each: the page, two
    tables and two pages for the heap. *)
Record grown (v v' : vms) (root lo hi perm : Z) (own' : Z → option role) (bs bs' : list (Z * Z)) : Prop := Grown {
  gr_inv : image_inv v' root own' bs';
  gr_same : same_image v v' root lo hi;
  gr_perm : ∀ x, lo ≤ x < hi → ∃ page, pte_at v' root x = pte_create (page2ppn page) (Z.lor PTE_V perm);
  gr_taken : total bs ≤ total bs' + 5 * ((hi - lo) / PGSIZE);
}.

Lemma grown_trans v v1 v2 root lo mid hi perm own1 own2 bs bs1 bs2 :
  lo ≤ mid ≤ hi → (mid - lo) mod PGSIZE = 0 → (hi - mid) mod PGSIZE = 0 → 0 ≤ lo → hi ≤ USERTOP →
  grown v v1 root lo mid perm own1 bs bs1 → grown v1 v2 root mid hi perm own2 bs1 bs2 → grown v v2 root lo hi perm own2 bs bs2.
Proof.
  intros Hm Ha1 Ha2 H0 Htop [_ S1 P1 T1] [I2 S2 P2 T2]. split; [done|by eapply same_image_trans| |].
  - intros x Hx. destruct (decide (x < mid)); [|by apply P2; lia]. destruct (S2 x) as [-> _]; [lia..|]. apply P1. lia.
  - unfold PGSIZE in *. Z.to_euclidean_division_equations. lia.
Qed.

Lemma one_page la : (la + PGSIZE - la) / PGSIZE = 1.
Proof. replace (la + PGSIZE - la) with PGSIZE by lia. by rewrite Z.div_same. Qed.

Lemma next_page la hi :
  la mod PGSIZE = 0 → hi mod PGSIZE = 0 → la < hi →
  la + PGSIZE ≤ hi ∧ (la + PGSIZE) mod PGSIZE = 0 ∧ (hi - la) / PGSIZE = (hi - (la + PGSIZE)) / PGSIZE + 1 ∧ 0 ≤ (hi - (la + PGSIZE)) / PGSIZE.
Proof. unfold PGSIZE. intros H1 H2 H3. Z.to_euclidean_division_equations. lia. Qed.

Lemma aligned_sub a b : a mod PGSIZE = 0 → b mod PGSIZE = 0 → (a - b) mod PGSIZE = 0.
Proof. unfold PGSIZE. intros H1 H2. Z.to_euclidean_division_equations. lia. Qed.

(** The tables are the same, whatever pages the heap has taken. *)
Lemma pte_at_tab v v' root x : tab v' = tab v → pte_at v' root x = pte_at v root x.
Proof. intros E. unfold pte_at, walk. by rewrite E. Qed.

Lemma mapped_tab v v' root la page perm : tab v' = tab v → mapped v root la page perm → mapped v' root la page perm.
Proof. intros E Hm x Hx. rewrite (pte_at_tab v) by done. by apply Hm. Qed.

Lemma same_image_tab v v1 v2 root lo hi : tab v2 = tab v1 → same_image v v1 root lo hi → same_image v v2 root lo hi.
Proof. intros E H x Hx Hn. destruct (H x Hx Hn) as [H1 H2]. rewrite (pte_at_tab v1) by done. split; [done|]. rewrite <-H2. unfold user_byte. by rewrite (pte_at_tab v1), E by done. Qed.

(** The page at [la] belongs to the program and not to the heap. *)
Lemma mapped_in v root own bs la page perm U :
  image_inv v root own bs → mapped v root la page perm → 0 ≤ la < USERTOP → 0 ≤ page < npage - nbase → 0 ≤ perm < 1024 →
  (∀ a, range (kva page) PGSIZE a → U a) → page_in U bs page.
Proof.
  intros Hi Hm Hla Hp Hpe HU. split; [done|]. destruct (mapped_page v root la page perm la Hm Hp Hpe) as [Hv Ep]; [unfold PGSIZE; lia|].
  destruct (ii_page _ _ _ _ _ Hi la Hla Hv) as [_ H]. by rewrite Ep in H.
Qed.

(** One page: it is taken and then filled. *)
Lemma grow_page s root own bs la perm U :
  image_inv (k_vms s) root own bs → heap_ok U s bs → la mod PGSIZE = 0 → 0 ≤ la → la + PGSIZE ≤ USERTOP → pte_at (k_vms s) root la = 0 →
  5 ≤ total bs → 0 ≤ perm < 1024 →
  ∃ page s1 own1 bs1, on_pages (pgdir_alloc_page root la perm) s = Ok (Some page, s1) ∧ load_step s s1 ∧ fs_view s1 = fs_view s ∧
    pool page ∧ page_in U bs1 page ∧ mapped (k_vms s1) root la page perm ∧ image_inv (k_vms s1) root own1 bs1 ∧ heap_ok U s1 bs1 ∧ 2 ≤ total bs1 ∧
    (∀ a, frames bs1 a → frames bs a) ∧
    ∀ v2 bs2 f, tab v2 = tab (k_vms s1) → image_inv v2 root own1 bs2 → total bs1 ≤ total bs2 + 2 →
      let v3 := set_frame page f v2 in
      grown (k_vms s) v3 root la (la + PGSIZE) perm own1 bs bs2 ∧ mapped v3 root la page perm ∧
      ∀ x, la ≤ x < la + PGSIZE → user_byte v3 root x = Some (frame_byte f (x - la)).
Proof.
  intros Hi [Hh Hfr] Hal H0 Htop Hla Ht Hpe.
  destruct (map_page pool sw swap_out rounds have_check_mm map_sw Hsw (k_vms s) root own bs la perm Hi Hal H0 Htop Hla ltac:(lia) Hpe)
    as (page & v & own1 & bs1 & E & Hi1 & Htk & (bl & Hbl & Hpbl) & Hpr & Hm & Hs1).
  assert (pool page) as Hp by (by eapply (ii_pool _ _ _ _ _ Hi)). destruct Htk as [Htk Hsub].
  exists page, (set_k_vms v s), own1, bs1. split; [exact (zoom_ok k_vms set_k_vms _ _ _ _ E)|]. split; [apply vms_load_step|].
  assert (∀ a, frames bs1 a → frames bs a) as Hfs.
  { intros a (q & b & Hb & Hq & Hr). destruct (Hsub q b Hb Hq) as (b' & ? & ?). by exists q, b'. }
  split; [done|]. split; [done|]. split; [|split_and!; try done; [|lia|]].
  - eapply mapped_in; try done; [unfold PGSIZE in *; lia|]. intros a Ha. apply Hfr. by exists page, bl.
  - split; [by eapply heap_frame|]. intros a Ha. by apply Hfr, Hfs.
  - intros v2 bs2 f Etab Hi2 Hc2 v3. destruct (fill_page pool v2 root own1 bs2 la page perm f Hi2 (mapped_tab _ _ _ _ _ _ Etab Hm) Hal H0 Htop Hpr Hpe) as (Hi3 & Hm3 & Hpte & Hs3 & Hb).
    split; [|done]. split; [done| | |].
    + intros x Hx Hn. destruct (same_image_tab _ _ _ _ _ _ Etab Hs1 x Hx Hn) as [<- <-]. by apply Hs3.
    + intros x Hx. exists page. by apply Hm3.
    + rewrite one_page. lia.
Qed.

(** The addresses and sizes of one round of the loops. *)
Lemma round_sizes start end' la :
  la mod PGSIZE = 0 → 0 ≤ la → la ≤ start → start < end' → start < la + PGSIZE → end' ≤ USERTOP →
  let off := u64 (start - la) in let la' := u64 (la + PGSIZE) in
  let size := if end' <? la' then u64 (u64 (PGSIZE - off) - (la' - end')) else u64 (PGSIZE - off) in
  off = start - la ∧ la' = la + PGSIZE ∧ size = Z.min end' (la + PGSIZE) - start ∧ u64 (start + size) = Z.min end' (la + PGSIZE).
Proof.
  intros Hal H0 H1 H2 H3 H4 off la' size. unfold PGSIZE, USERTOP in *. assert (off = start - la) as Eo by (unfold off; rewrite u64_small; lia).
  assert (la' = la + 4096) as El by (unfold la'; rewrite u64_small; lia).
  assert (size = Z.min end' (la + 4096) - start) as Es.
  { unfold size. rewrite El, Eo, (u64_small (4096 - _)) by lia. destruct (Z.ltb_spec end' (la + 4096)); [rewrite u64_small|]; lia. }
  split_and!; [done..|]. rewrite Es, u64_small; lia.
Qed.

(** The page that holds the last address below [la'], if any page was mapped. *)
Definition last_page (U : Z → Prop) (v : vms) (root start end' la la' perm : Z) (pg : option Z) : Prop :=
  (start = end' ∧ la' = la) ∨
  (la' - PGSIZE < end' ≤ la' ∧ ∃ page, pg = Some page ∧ pool page ∧ (∀ a, range (kva page) PGSIZE a → U a) ∧ mapped v root (la' - PGSIZE) page perm).

Lemma load_pages_done n fd root perm start la offset pg s : load_pages (S n) fd root perm start start la offset pg s = Ok ((0, (start, la, pg)), s).
Proof. cbn [Exec.load_pages]. by rewrite Z.ltb_irrefl. Qed.

Lemma load_pages_spec n s p fd root own bs U perm start end' la hi offset pg :
  image_inv (k_vms s) root own bs → heap_ok U s bs → readable (fs_view s) p fd → p_mm (cur_proc s) = None →
  la mod PGSIZE = 0 → hi mod PGSIZE = 0 → 0 ≤ la → la ≤ start → start < la + PGSIZE → start ≤ end' → end' ≤ hi → hi ≤ USERTOP →
  0 ≤ offset → offset + (end' - start) ≤ Z.of_nat (length content) → 0 ≤ perm < 1024 →
  (∀ x, la ≤ x < hi → pte_at (k_vms s) root x = 0) → 5 * ((hi - la) / PGSIZE) ≤ total bs → (Z.to_nat (end' - start) < n)%nat →
  ∃ la' pg' s' own' bs' U', load_pages n fd root perm start end' la offset pg s = Ok ((0, (end', la', pg')), s') ∧ load_step s s' ∧
    readable (fs_view s') p fd ∧ la' mod PGSIZE = 0 ∧ la ≤ la' ≤ hi ∧ heap_ok U' s' bs' ∧
    grown (k_vms s) (k_vms s') root la la' perm own' bs bs' ∧
    (∀ x, start ≤ x < end' → user_byte (k_vms s') root x = Some (file_byte offset (x - start))) ∧
    last_page U' (k_vms s') root start end' la la' perm pg'.
Proof.
  revert s own bs U start la offset pg. induction n as [|n IH]; intros s own bs U start la offset pg Hi Hh R Hmm Hal Hah H0 Hls Hsl Hse Heh Hht Ho Hoc Hpe Hun Hmem Hn; [lia|].
  destruct (decide (start = end')) as [<-|Hne].
  { rewrite load_pages_done. exists la, pg, s, own, bs, U. split; [reflexivity|]. split; [reflexivity|]. split_and!; try done; [lia| |lia|by left].
    split; [done|by intros x _ _|lia|]. rewrite Z.sub_diag. unfold PGSIZE. rewrite Z.div_0_l by lia. lia. }
  cbn [Exec.load_pages]. rewrite (proj2 (Z.ltb_lt start end')) by lia.
  destruct (next_page la hi Hal Hah ltac:(lia)) as (Hlh & Hal' & Hpages & Hpages0). assert (5 ≤ total bs) as Ht1 by lia.
  destruct (grow_page s root own bs la perm U Hi Hh Hal H0 ltac:(lia) (Hun la ltac:(unfold PGSIZE in *; lia)) Ht1 Hpe)
    as (page & s1 & own1 & bs1 & E1 & L1 & V1 & Hp & Hin1 & Hm1 & Hi1 & Hh1 & Ht2 & Hfs1 & Hfill).
  rewrite (bind_ok _ _ _ _ _ E1). destruct (round_sizes start end' la Hal H0 Hls ltac:(lia) Hsl ltac:(lia)) as (Eo & El & Es & Est).
  set (off := u64 (start - la)) in *. set (la1 := u64 (la + PGSIZE)) in *.
  set (size := if end' <? la1 then _ else _) in *. rewrite Est. clearbody off la1 size. subst off la1 size.
  set (size := Z.min end' (la + PGSIZE) - start) in *.
  assert (0 < size ∧ start + size = Z.min end' (la + PGSIZE)) as [Hsz Esz] by lia.
  destruct (load_frame_spec s1 p fd page (start - la) size offset root own1 U bs1) as (s2 & f & U2 & bs2 & E2 & [L2 Hh2 Hus2 (v2 & Ev2 & Et2 & Hi2 & Hc2)] & R2 & Hfb); try done; try lia.
  { by rewrite V1. }
  { by rewrite (load_step_proc _ _ L1). }
  rewrite (bind_ok _ _ _ _ _ E2). pose proof (transitivity L1 L2) as L12. cbn [Z.eqb negb].
  destruct (Hfill v2 bs2 f Et2 Hi2 Hc2) as (G & Hm2 & Hub). rewrite <-Ev2 in G, Hm2, Hub.
  assert (∀ x, start ≤ x < start + size → user_byte (k_vms s2) root x = Some (file_byte offset (x - start))) as Hub1.
  { intros x Hx. rewrite Hub by lia. rewrite Hfb, decide_True by lia. do 2 f_equal. lia. }
  assert (∀ a, range (kva page) PGSIZE a → U2 a) as Hpu.
  { intros a Ha. destruct (page_in_apart U bs1 page a Hin1 Ha). by apply Hus2. }
  destruct (decide (end' ≤ la + PGSIZE)) as [Hend|Hend].
  - replace (Z.min end' (la + PGSIZE)) with end' in * by lia. destruct n as [|n]; [lia|]. rewrite load_pages_done.
    exists (la + PGSIZE), (Some page), s2, own1, bs2, U2. split; [reflexivity|]. split; [done|]. split_and!; try done; [unfold PGSIZE; lia|by intros; apply Hub1; lia|].
    right. unfold PGSIZE in *. split; [lia|]. exists page. replace (la + 4096 - 4096) with la by lia. done.
  - replace (Z.min end' (la + PGSIZE)) with (la + PGSIZE) in * by lia. rewrite s64_small by lia.
    destruct (IH s2 own1 bs2 U2 (la + PGSIZE) (la + PGSIZE) (offset + size) (Some page)) as (la' & pg' & s' & own' & bs' & U' & E' & L' & R' & Hal2 & Hla' & Hh' & G' & Hub' & Hlast); try done; try (unfold PGSIZE in *; lia).
    + apply G.
    + by rewrite (load_step_proc _ _ L12).
    + intros x Hx. destruct (gr_same _ _ _ _ _ _ _ _ _ G x) as [-> _]; [unfold PGSIZE in *; lia..|]. apply Hun. unfold PGSIZE in *. lia.
    + pose proof (gr_taken _ _ _ _ _ _ _ _ _ G) as Htk. rewrite one_page in Htk. lia.
    + exists la', pg', s', own', bs', U'. split; [exact E'|]. split; [by etrans|].
      split_and!; try done; [unfold PGSIZE in *; lia|lia| | |].
      * eapply (grown_trans _ (k_vms s2) _ _ _ (la + PGSIZE)); try done; try (by apply aligned_sub); unfold PGSIZE in *; lia.
      * intros x Hx. destruct (decide (x < la + PGSIZE)).
        -- destruct (gr_same _ _ _ _ _ _ _ _ _ G' x) as [_ ->]; [unfold PGSIZE in *; lia..|]. apply Hub1. lia.
        -- rewrite Hub' by lia. unfold file_byte. do 4 f_equal. lia.
      * destruct Hlast as [[? ?]|?]; [lia|by right].
Qed.

(** *** Zeros *)

Lemma readable_zeroed s s' p fd : fs_view s' = fs_view (set_kmem (kmem s') s) → readable (fs_view s) p fd → readable (fs_view s') p fd.
Proof. intros -> R. by apply readable_mem. Qed.

Lemma zero_pages_done n root perm start la s : zero_pages (S n) root perm start start la s = Ok (0, s).
Proof. cbn [Exec.zero_pages]. by rewrite Z.ltb_irrefl. Qed.

Lemma zero_pages_spec n s p fd root own bs U perm start end' la hi :
  image_inv (k_vms s) root own bs → heap_ok U s bs → readable (fs_view s) p fd →
  la mod PGSIZE = 0 → hi mod PGSIZE = 0 → 0 ≤ la → la ≤ start → start < la + PGSIZE → start ≤ end' → end' ≤ hi → hi ≤ USERTOP →
  0 ≤ perm < 1024 →
  (∀ x, la ≤ x < hi → pte_at (k_vms s) root x = 0) → 5 * ((hi - la) / PGSIZE) ≤ total bs → (Z.to_nat (end' - start) < n)%nat →
  ∃ la' s' own' bs', zero_pages n root perm start end' la s = Ok (0, s') ∧ load_step s s' ∧ readable (fs_view s') p fd ∧
    la' mod PGSIZE = 0 ∧ la ≤ la' ≤ hi ∧ grown (k_vms s) (k_vms s') root la la' perm own' bs bs' ∧
    (∀ x, start ≤ x < end' → user_byte (k_vms s') root x = Some 0) ∧ ((start = end' ∧ la' = la) ∨ la' - PGSIZE < end' ≤ la').
Proof.
  revert s own bs start la. induction n as [|n IH]; intros s own bs start la Hi Hh R Hal Hah H0 Hls Hsl Hse Heh Hht Hpe Hun Hmem Hn; [lia|].
  destruct (decide (start = end')) as [<-|Hne].
  { rewrite zero_pages_done. exists la, s, own, bs. split; [reflexivity|]. split; [reflexivity|]. split_and!; try done; [lia| |lia|by left].
    split; [done|by intros x _ _|lia|]. rewrite Z.sub_diag. unfold PGSIZE. rewrite Z.div_0_l by lia. lia. }
  cbn [Exec.zero_pages]. rewrite (proj2 (Z.ltb_lt start end')) by lia.
  destruct (next_page la hi Hal Hah ltac:(lia)) as (Hlh & Hal' & Hpages & Hpages0). assert (5 ≤ total bs) as Ht1 by lia.
  destruct (grow_page s root own bs la perm U Hi Hh Hal H0 ltac:(lia) (Hun la ltac:(unfold PGSIZE in *; lia)) Ht1 Hpe)
    as (page & s1 & own1 & bs1 & E1 & L1 & V1 & Hp & Hin1 & Hm1 & Hi1 & Hh1 & Ht2 & Hfs1 & Hfill).
  rewrite (bind_ok _ _ _ _ _ E1). destruct (round_sizes start end' la Hal H0 Hls ltac:(lia) Hsl ltac:(lia)) as (Eo & El & Es & Est).
  set (off := u64 (start - la)) in *. set (la1 := u64 (la + PGSIZE)) in *.
  set (size := if end' <? la1 then _ else _) in *. rewrite Est. clearbody off la1 size. subst off la1 size.
  set (size := Z.min end' (la + PGSIZE) - start) in *.
  assert (0 < size ∧ start + size = Z.min end' (la + PGSIZE)) as [Hsz Esz] by lia.
  destruct (zero_frame_spec s1 page (start - la) size root own1 U bs1) as (s2 & f & E2 & L2 & Hh2 & V2 & Ev2 & Hfb); try done; try lia.
  rewrite (bind_ok _ _ _ _ _ E2). pose proof (transitivity L1 L2) as L12.
  assert (readable (fs_view s2) p fd) as R2 by (eapply readable_zeroed; [done|]; by rewrite V1).
  destruct (Hfill (k_vms s1) bs1 f eq_refl Hi1 ltac:(lia)) as (G & Hm2 & Hub). rewrite <-Ev2 in G, Hm2, Hub.
  assert (∀ x, start ≤ x < start + size → user_byte (k_vms s2) root x = Some 0) as Hub1.
  { intros x Hx. rewrite Hub by lia. by rewrite Hfb, decide_True by lia. }
  destruct (decide (end' ≤ la + PGSIZE)) as [Hend|Hend].
  - replace (Z.min end' (la + PGSIZE)) with end' in * by lia. destruct n as [|n]; [lia|]. rewrite zero_pages_done.
    exists (la + PGSIZE), s2, own1, bs1. split; [reflexivity|]. split; [done|]. split_and!; try done; [unfold PGSIZE; lia|by intros; apply Hub1; lia|].
    right. unfold PGSIZE in *. lia.
  - replace (Z.min end' (la + PGSIZE)) with (la + PGSIZE) in * by lia.
    destruct (IH s2 own1 bs1 (la + PGSIZE) (la + PGSIZE)) as (la' & s' & own' & bs' & E' & L' & R' & Hal2 & Hla' & G' & Hub' & Hlast); try done; try (unfold PGSIZE in *; lia).
    + apply G.
    + intros x Hx. destruct (gr_same _ _ _ _ _ _ _ _ _ G x) as [-> _]; [unfold PGSIZE in *; lia..|]. apply Hun. unfold PGSIZE in *. lia.
    + pose proof (gr_taken _ _ _ _ _ _ _ _ _ G) as Htk. rewrite one_page in Htk. lia.
    + exists la', s', own', bs'. split; [exact E'|]. split; [by etrans|]. split_and!; try done; [unfold PGSIZE in *; lia|lia| | |].
      * eapply (grown_trans _ (k_vms s2) _ _ _ (la + PGSIZE)); try done; try (by apply aligned_sub); unfold PGSIZE in *; lia.
      * intros x Hx. destruct (decide (x < la + PGSIZE)); [|by apply Hub'; lia].
        destruct (gr_same _ _ _ _ _ _ _ _ _ G' x) as [_ ->]; [unfold PGSIZE in *; lia..|]. apply Hub1. lia.
      * destruct Hlast as [[? ?]|?]; [lia|by right].
Qed.

(** The rest of a page that holds data. *)
Lemma zero_rest_spec s p fd root own bs U perm start end' la page :
  image_inv (k_vms s) root own bs → heap_ok U s bs → readable (fs_view s) p fd → mapped (k_vms s) root (la - PGSIZE) page perm → pool page →
  (∀ a, range (kva page) PGSIZE a → U a) →
  la mod PGSIZE = 0 → PGSIZE ≤ la → la - PGSIZE < start → start < la → start < end' → la ≤ USERTOP → end' ≤ USERTOP → 0 ≤ perm < 1024 →
  ∃ s', zero_rest start end' la (Some page) s = Ok (Z.min end' la, s') ∧ load_step s s' ∧ readable (fs_view s') p fd ∧ heap_ok U s' bs ∧
    image_inv (k_vms s') root own bs ∧ (∀ x, pte_at (k_vms s') root x = pte_at (k_vms s) root x) ∧
    (∀ x, 0 ≤ x < USERTOP → user_byte (k_vms s') root x =
       if decide (start ≤ x < Z.min end' la) then Some 0 else user_byte (k_vms s) root x).
Proof.
  intros Hi Hh R Hm Hp HU Hal Hla H1 H2 H3 Htop Hend Hpe. pose proof (Hpool page Hp) as Hpr.
  assert (page_in U bs page) as Hin by (eapply mapped_in; try done; unfold PGSIZE, USERTOP in *; lia).
  unfold zero_rest. unfold PGSIZE, USERTOP in *.
  rewrite (u64_small (start + _ - la)), (u64_small (4096 - _)) by lia.
  set (size := if end' <? la then _ else _). assert (size = Z.min end' la - start) as Es.
  { unfold size. destruct (Z.ltb_spec end' la); [rewrite u64_small|]; lia. }
  clearbody size. subst size.
  destruct (zero_frame_spec s page (start + 4096 - la) (Z.min end' la - start) root own U bs) as (s' & f & E & L & Hh' & V & Ev & Hfb); try done; try (unfold PGSIZE; lia).
  rewrite (bind_ok _ _ _ _ _ E). rewrite u64_small by lia. replace (start + (Z.min end' la - start)) with (Z.min end' la) by lia.
  rewrite bind_assert by (destruct (Z.ltb_spec end' la), (Z.leb_spec la end'); lia).
  destruct (fill_page pool (k_vms s) root own bs (la - 4096) page perm f Hi Hm) as (Hi' & _ & Hpte & Hsame & Hub); try (unfold PGSIZE, USERTOP; lia).
  { unfold PGSIZE. clear -Hal. Z.to_euclidean_division_equations. lia. }
  exists s'. split; [done|]. split; [done|]. split; [by eapply readable_zeroed|]. split; [done|]. rewrite Ev. split_and!; [done..|].
  intros x Hx. unfold PGSIZE, USERTOP in *. destruct (decide (la - 4096 ≤ x < la)) as [Hix|Hout].
  - rewrite Hub by lia. rewrite Hfb. destruct (decide (start ≤ x < Z.min end' la)).
    + by rewrite decide_True by lia.
    + rewrite decide_False by lia. destruct (mapped_page _ _ _ _ _ x Hm) as [Hvx Hpx]; [lia|lia|unfold PGSIZE; lia|].
      unfold user_byte. rewrite Hvx, Hpx. do 2 f_equal. unfold PGSIZE. clear -Hal Hix. Z.to_euclidean_division_equations. lia.
  - rewrite decide_False by lia. by apply Hsame; unfold PGSIZE, USERTOP; lia.
Qed.

(** *** The area of a segment *)

Definition set_areas (v : vmm) (s : kern F) : kern F := set_k_fs (set_k_vm_mem v (k_fs s)) s.

Lemma on_areas_ok {A} (m : M vmm A) s a v : m (k_vmm (k_fs s)) = Ok (a, v) → on_as (on_areas m) s = Ok (a, set_areas v s).
Proof.
  intros E. unfold on_as, on_areas. erewrite (zoom_ok as_view as_put); [|apply (zoom_ok a_vmm set_a_vmm); exact E].
  by destruct s.
Qed.

Lemma readable_areas s v p fd : readable (fs_view s) p fd → readable (fs_view (set_areas v s)) p fd.
Proof. intros [????????????]. split; try done. by eapply (data_stable (fs_view s)). Qed.

Lemma map_area_spec s p fd mm vs addr len flags root own bs U :
  let start := ROUNDDOWN addr PGSIZE in let end' := ROUNDUP (u64 (addr + len)) PGSIZE in
  mm_inv (k_vmm (k_fs s)) mm vs → USER_ACCESS start end' = true → Z.of_nat (length vs) + 1 < 2 ^ 31 - 1 →
  (∀ w, w ∈ vs → U w ∧ ¬ frames bs w) → (∀ w, w ∈ vs → end' ≤ vm_start (k_vmm (k_fs s)) w ∨ vm_end (k_vmm (k_fs s)) w ≤ start) →
  image_inv (k_vms s) root own bs → heap_ok U s bs → 2 ≤ total bs → readable (fs_view s) p fd →
  ∃ s1 U1 bs1, map_area kmalloc kfree mm addr len flags s = Ok (0, s1) ∧ k_pgdir s1 = k_pgdir s ∧ cur_proc s1 = cur_proc s ∧
    readable (fs_view s1) p fd ∧ tab (k_vms s1) = tab (k_vms s) ∧ image_inv (k_vms s1) root own bs1 ∧ total bs ≤ total bs1 + 2 ∧ heap_ok U1 s1 bs1 ∧
    ∃ w l1 l2, let v' := k_vmm (k_fs s1) in vs = l1 ++ l2 ∧ mm_inv v' mm (l1 ++ w :: l2) ∧ vm_start v' w = start ∧ vm_end v' w = end' ∧ vm_flags v' w = flags.
Proof.
  intros start end' Hi Hua Hn Hlv Hdis Him [Hh Hfr] Ht R. unfold map_area.
  destruct (heap_kmalloc U s root own bs sizeof_vma) as (w & s1 & bs1 & U1 & E & H1 & _ & Hkeep & Hblk & _); [by left|done..|].
  rewrite (bind_ok _ _ _ _ _ E). assert (w ∉ vs) as Hw.
  { intros Hin. destruct (Hlv w Hin). apply (Hblk w); [unfold range, sizeof_vma; lia|]. by apply Hkeep. }
  assert (k_vmm (k_fs s1) = k_vmm (k_fs s)) as Ev by (by eapply load_step_vmm, heap_load_step).
  destruct (mm_map_outcomes (k_vmm (k_fs s1)) mm vs w addr len flags) as (_ & Hok & _); [by rewrite Ev|done..|]. rewrite Ev in Hok.
  destruct (Hok Hdis) as (l1 & l2 & v' & Hvs & E' & Hi' & Ha & Hb & Hc). rewrite <-Ev in E'.
  rewrite (bind_ok _ _ _ _ _ (on_areas_ok _ s1 _ _ E')). pose proof (hs_state _ _ _ _ _ _ _ _ _ _ H1) as Es1.
  exists (set_areas v' s1), U1, bs1. split; [done|]. split; [by rewrite Es1|]. split; [by rewrite Es1|].
  split; [by eapply readable_areas, readable_heap|]. split; [apply H1|]. split; [apply H1|]. split; [apply H1|].
  split; [|by exists w, l1, l2]. split; [|apply H1]. eapply heap_frame; [apply H1|done].
Qed.

Lemma seg_perm_range flags : 0 ≤ seg_perm flags < 1024.
Proof.
  unfold seg_perm. destruct (truth (Z.land flags VM_READ)), (truth (Z.land flags VM_WRITE)), (truth (Z.land flags VM_EXEC)); vm_compute; split; done.
Qed.

(** *** One segment *)

(** The pages of the addresses from [va] to [va + len]. *)
Lemma page_bounds va len :
  0 ≤ va → 0 < len → va + len ≤ USERTOP →
  let lo := ROUNDDOWN va PGSIZE in let hi := ROUNDUP (u64 (va + len)) PGSIZE in
  lo mod PGSIZE = 0 ∧ hi mod PGSIZE = 0 ∧ 0 ≤ lo ∧ lo ≤ va ∧ va < lo + PGSIZE ∧ hi - PGSIZE < va + len ∧ va + len ≤ hi ∧ hi ≤ USERTOP.
Proof.
  intros H0 Hl Ht lo hi. unfold USERTOP in *. unfold lo, hi. rewrite (u64_small (va + len)) by lia.
  rewrite ROUNDDOWN_spec, ROUNDUP_spec by (unfold PGSIZE; lia). unfold PGSIZE. clear lo hi. Z.to_euclidean_division_equations. lia.
Qed.

Lemma grown_zeroed v v1 v2 root lo la perm own bs bs1 start end' :
  grown v v1 root lo la perm own bs bs1 → image_inv v2 root own bs1 → (∀ x, pte_at v2 root x = pte_at v1 root x) →
  (∀ x, 0 ≤ x < USERTOP → user_byte v2 root x = if decide (start ≤ x < end') then Some 0 else user_byte v1 root x) →
  lo ≤ start → end' ≤ la → grown v v2 root lo la perm own bs bs1.
Proof.
  intros [_ S P T] I Hp Hb H1 H2. split; [done| | |done].
  - intros x Hx Hn. rewrite Hp, Hb, decide_False by (done || lia). by apply S.
  - intros x Hx. rewrite Hp. by apply P.
Qed.

(** What a loaded segment looks like to the program: its pages, the bytes of the file and
    the zeros behind them. *)
Record loaded (v v' : vms) (root : Z) (h : proghdr) (bs : list (Z * Z)) : Prop := Loaded {
  lo_grown : ∃ own' bs', grown v v' root (ROUNDDOWN (p_va h) PGSIZE) (ROUNDUP (u64 (p_va h + p_memsz h)) PGSIZE)
    (seg_perm (seg_flags (ph_flags h))) own' bs bs';
  lo_data : ∀ x, p_va h ≤ x < p_va h + p_filesz h → user_byte v' root x = Some (file_byte (p_offset h) (x - p_va h));
  lo_zero : ∀ x, p_va h + p_filesz h ≤ x < p_va h + p_memsz h → user_byte v' root x = Some 0;
}.

Lemma loaded_tab v v1 v' root h bs : tab v1 = tab v → loaded v1 v' root h bs → loaded v v' root h bs.
Proof.
  intros E [(own' & bs' & [I S P T]) D Z]. split; [|done..]. exists own', bs'. split; [done| |done..].
  intros x Hx Hn. destruct (S x Hx Hn) as [H1 H2]. rewrite (pte_at_tab v v1) in H1 by done. split; [done|]. rewrite H2. unfold user_byte. rewrite (pte_at_tab v v1) by done. by rewrite E.
Qed.

(** The loops over the pages of a segment, as [load_segment] runs them. *)
Definition fill_segment (fd pgdir perm : Z) (h : proghdr) : M (kern F) Z :=
  let start := p_va h in
  let end' := u64 (p_va h + p_filesz h) in
  '(ret, (start, la, page)) ←
    load_pages (S (Z.to_nat (end' - start))) fd pgdir perm start end' (ROUNDDOWN start PGSIZE) (s64 (p_offset h)) None;
  if negb (ret =? 0) then mret ret
  else
    let end' := u64 (p_va h + p_memsz h) in
    if start <? la then
      if start =? end' then mret 0
      else
        start ← zero_rest start end' la page;
        zero_pages (S (Z.to_nat (end' - start))) pgdir perm start end' la
    else zero_pages (S (Z.to_nat (end' - start))) pgdir perm start end' la.

(** The pages behind the data, from a state where the pages below [la] are in place. *)
Lemma zero_tail s s2 p fd root own bs bs2 U h start la :
  let lo := ROUNDDOWN (p_va h) PGSIZE in let hi := ROUNDUP (u64 (p_va h + p_memsz h)) PGSIZE in
  let perm := seg_perm (seg_flags (ph_flags h)) in let me := p_va h + p_memsz h in
  0 ≤ p_va h → 0 < p_memsz h → me ≤ USERTOP → 0 ≤ p_filesz h →
  readable (fs_view s2) p fd → heap_ok U s2 bs2 → grown (k_vms s) (k_vms s2) root lo la perm own bs bs2 →
  (∀ x, p_va h ≤ x < p_va h + p_filesz h → user_byte (k_vms s2) root x = Some (file_byte (p_offset h) (x - p_va h))) →
  (∀ x, p_va h + p_filesz h ≤ x < start → user_byte (k_vms s2) root x = Some 0) →
  p_va h + p_filesz h ≤ start → start ≤ me → lo ≤ la → la mod PGSIZE = 0 →
  (start = la ∨ (start = p_va h ∧ la = lo) ∨ (start = me ∧ la = hi)) → la ≤ hi →
  (∀ x, lo ≤ x < hi → pte_at (k_vms s) root x = 0) → 5 * ((hi - lo) / PGSIZE) ≤ total bs →
  ∃ s', zero_pages (S (Z.to_nat (me - start))) root perm start me la s2 = Ok (0, s') ∧ load_step s2 s' ∧
    readable (fs_view s') p fd ∧ loaded (k_vms s) (k_vms s') root h bs.
Proof.
  intros lo hi perm me Hva Hms Htop Hfs R Hh G Hd Hz Hfe Hst Hll Hal Hcase Hlh Hun Hmem. pose proof (seg_perm_range (seg_flags (ph_flags h))) as Hpe.
  destruct (page_bounds (p_va h) (p_memsz h) Hva Hms Htop) as (Hall & Hah & Hlo & Hlv & Hvl & Hhi1 & Hhi2 & Hht).
  fold lo hi in Hall, Hah, Hlo, Hlv, Hvl, Hhi1, Hhi2, Hht. fold perm in Hpe. fold me in Hhi1, Hhi2, Htop.
  destruct (decide (start = me ∧ la = hi)) as [[-> ->]|Hnd].
  { rewrite zero_pages_done. exists s2. split; [done|]. split; [reflexivity|]. split; [done|]. split; [by exists own, bs2|done|done]. }
  assert (la ≤ start < la + PGSIZE) as [Hls Hsl] by (unfold PGSIZE in *; lia).
  destruct (zero_pages_spec (S (Z.to_nat (me - start))) s2 p fd root own bs2 U perm start me la hi)
    as (la' & s' & own' & bs' & E' & L' & R' & Hal' & Hla' & G' & Hz' & Hl'); try done; try lia.
  - apply G.
  - intros x Hx. destruct (gr_same _ _ _ _ _ _ _ _ _ G x) as [-> _]; [lia..|]. apply Hun. lia.
  - pose proof (gr_taken _ _ _ _ _ _ _ _ _ G) as Ht. clear -Ht Hmem Hal Hall Hah Hll Hlh. unfold PGSIZE in *. Z.to_euclidean_division_equations. lia.
  - assert (la' = hi) as ->.
    { destruct Hl' as [[-> ->]|Hl'].
      - exfalso. apply Hnd. split; [done|]. clear -Hsl Hls Hal Hah Hhi1 Hhi2 Hnd Hlh Hcase Hms. unfold me, PGSIZE in *. Z.to_euclidean_division_equations. lia.
      - clear -Hl' Hal' Hah Hhi1 Hhi2. unfold PGSIZE in *. Z.to_euclidean_division_equations. lia. }
    exists s'. split; [done|]. split; [done|]. split; [done|].
    assert (∀ x, p_va h ≤ x < start → user_byte (k_vms s') root x = user_byte (k_vms s2) root x) as Hlow.
    { intros x Hx. apply (gr_same _ _ _ _ _ _ _ _ _ G'); lia. }
    split.
    + exists own', bs'. eapply (grown_trans _ (k_vms s2) _ _ _ la); try done; try (by apply aligned_sub); lia.
    + intros x Hx. rewrite Hlow by lia. by apply Hd.
    + intros x Hx. destruct (decide (x < start)); [rewrite Hlow by lia; apply Hz; lia|apply Hz'; lia].
Qed.

Lemma fill_segment_spec s p fd root own bs U h :
  let lo := ROUNDDOWN (p_va h) PGSIZE in let hi := ROUNDUP (u64 (p_va h + p_memsz h)) PGSIZE in
  image_inv (k_vms s) root own bs → heap_ok U s bs → readable (fs_view s) p fd → p_mm (cur_proc s) = None →
  0 ≤ p_va h → 0 ≤ p_filesz h ≤ p_memsz h → 0 < p_memsz h → p_va h + p_memsz h ≤ USERTOP →
  0 ≤ p_offset h → p_offset h + p_filesz h ≤ Z.of_nat (length content) →
  (∀ x, lo ≤ x < hi → pte_at (k_vms s) root x = 0) → 5 * ((hi - lo) / PGSIZE) ≤ total bs →
  ∃ s', fill_segment fd root (seg_perm (seg_flags (ph_flags h))) h s = Ok (0, s') ∧ load_step s s' ∧
    readable (fs_view s') p fd ∧ loaded (k_vms s) (k_vms s') root h bs.
Proof.
  intros lo hi Hi Hh R Hmm Hva Hfs Hms Htop Hoff Hoc Hun Hmem. pose proof (seg_perm_range (seg_flags (ph_flags h))) as Hpe.
  set (perm := seg_perm (seg_flags (ph_flags h))) in *.
  destruct (page_bounds (p_va h) (p_memsz h) Hva Hms Htop) as (Hal & Hah & Hlo & Hlv & Hvl & Hhi1 & Hhi2 & Hht). fold lo hi in Hal, Hah, Hlo, Hlv, Hvl, Hhi1, Hhi2, Hht.
  assert (USERTOP = 2 ^ 31) as Eu by done. unfold fill_segment. rewrite !(u64_small (p_va h + _)) by lia. rewrite s64_small by lia.
  set (va := p_va h) in *. set (fe := va + p_filesz h). set (me := va + p_memsz h) in *.
  destruct (load_pages_spec (S (Z.to_nat (fe - va))) s p fd root own bs U perm va fe lo hi (p_offset h) None)
    as (la & pg & s1 & own1 & bs1 & U1 & E1 & L1 & R1 & Hal1 & Hla1 & Hh1 & G1 & Hd1 & Hlast); try done; try lia.
  rewrite (bind_ok _ _ _ _ _ E1). cbv beta iota. cbn [Z.eqb negb].
  assert (∀ s2 start, load_step s s2 → readable (fs_view s2) p fd → heap_ok U1 s2 bs1 → grown (k_vms s) (k_vms s2) root lo la perm own1 bs bs1 →
    (∀ x, va ≤ x < fe → user_byte (k_vms s2) root x = Some (file_byte (p_offset h) (x - va))) →
    (∀ x, fe ≤ x < start → user_byte (k_vms s2) root x = Some 0) → fe ≤ start → start ≤ me →
    (start = la ∨ (start = va ∧ la = lo) ∨ (start = me ∧ la = hi)) →
    ∃ s', zero_pages (S (Z.to_nat (me - start))) root perm start me la s2 = Ok (0, s') ∧ load_step s s' ∧
      readable (fs_view s') p fd ∧ loaded (k_vms s) (k_vms s') root h bs) as Htail.
  { intros s2 start L2 R2 Hh2 G2 Hd2 Hz2 Hs1 Hs2 Hcase.
    destruct (zero_tail s s2 p fd root own1 bs bs1 U1 h start la) as (s' & E' & L' & R' & Hld); try done; try lia.
    { apply Hla1. }
    { apply Hla1. }
    exists s'. split; [done|]. split; [by etrans|]. done. }
  destruct (Z.ltb_spec fe la) as [Hfl|Hfl].
  - destruct Hlast as [[? ?]|[Hlp (page & -> & Hp & HU & Hm)]]; [lia|]. destruct (Z.eqb_spec fe me) as [Hfm|Hfm].
    + assert (la = hi) as ->.
      { clear -Hlp Hal1 Hah Hhi1 Hhi2 Hfm. unfold PGSIZE in *. Z.to_euclidean_division_equations. lia. }
      exists s1. split; [done|]. split; [done|]. split; [done|]. split; [by exists own1, bs1|done|fold va fe me; lia].
    + destruct (zero_rest_spec s1 p fd root own1 bs1 U1 perm fe me la page (gr_inv _ _ _ _ _ _ _ _ _ G1) Hh1 R1 Hm Hp HU Hal1)
        as (s2 & E2 & L2 & R2 & Hh2 & Hi2 & Hpte & Hub); try lia.
      { clear -Hfl Hal1 Hlo Hla1 Hlp Hal Hlv Hfs. unfold fe, PGSIZE in *. Z.to_euclidean_division_equations. lia. }
      rewrite (bind_ok _ _ _ _ _ E2). pose proof (transitivity L1 L2) as L12. apply Htail; try done; try lia.
      * eapply (grown_zeroed _ (k_vms s1)); try done; lia.
      * intros x Hx. rewrite Hub, decide_False by lia. by apply Hd1.
      * intros x Hx. by rewrite Hub, decide_True by lia.
      * destruct (decide (la ≤ me)); [left; lia|]. right; right. split; [lia|].
        clear -n Hal1 Hah Hhi1 Hhi2 Hla1. unfold PGSIZE in *. Z.to_euclidean_division_equations. lia.
  - apply Htail; try done; try lia. destruct Hlast as [[? ?]|[? _]]; lia.
Qed.

(** C8. [load_segment] of a loadable segment in user space whose area overlaps no other and whose pages are
    still unmapped.  Let five free pages for every page of the segment and two more be there (the page,
    two page tables and what the heap takes), let the heap keep the promises of [HeapLaws] and the file
    those of [FileData], let the current process have no address space, as [do_execve] arranges it, and no self
    test of the swap manager be running.  Then [load_segment] returns 0, with swapping on
    or off: the address space has one more area, of the rounded range and the flags of
    the header, every page of the range is mapped with the permissions of the flags, the program sees the
    [p_filesz] bytes of the file at [p_offset] from [p_va] on and zeros up to [p_memsz], no other user address has
    changed, and the descriptor can still be read. *)
Theorem load_segment_correct s p fd mm vs own bs U h :
  let lo := ROUNDDOWN (p_va h) PGSIZE in let hi := ROUNDUP (u64 (p_va h + p_memsz h)) PGSIZE in let root := k_pgdir s mm in
  image_inv (k_vms s) root own bs → heap_ok U s bs → readable (fs_view s) p fd → p_mm (cur_proc s) = None →
  mm_inv (k_vmm (k_fs s)) mm vs → (∀ w, w ∈ vs → U w ∧ ¬ frames bs w) → Z.of_nat (length vs) + 1 < 2 ^ 31 - 1 →
  (∀ w, w ∈ vs → hi ≤ vm_start (k_vmm (k_fs s)) w ∨ vm_end (k_vmm (k_fs s)) w ≤ lo) →
  USERBASE ≤ lo → 0 ≤ p_filesz h ≤ p_memsz h → 0 < p_memsz h → p_va h + p_memsz h ≤ USERTOP → 0 ≤ p_va h →
  0 ≤ p_offset h → p_offset h + p_filesz h ≤ Z.of_nat (length content) →
  (∀ x, lo ≤ x < hi → pte_at (k_vms s) root x = 0) → 5 * ((hi - lo) / PGSIZE) + 2 ≤ total bs →
  ∃ s', load_segment ops sw swap_out rounds have_check_mm map_sw kmalloc kfree mm fd h s = Ok (0, s') ∧
    readable (fs_view s') p fd ∧ (∃ bs1, total bs ≤ total bs1 + 2 ∧ loaded (k_vms s) (k_vms s') root h bs1) ∧
    ∃ w l1 l2, vs = l1 ++ l2 ∧ mm_inv (k_vmm (k_fs s')) mm (l1 ++ w :: l2) ∧
      vm_start (k_vmm (k_fs s')) w = lo ∧ vm_end (k_vmm (k_fs s')) w = hi ∧ vm_flags (k_vmm (k_fs s')) w = seg_flags (ph_flags h).
Proof.
  intros lo hi root Hi Hh R Hmm Hmi Hlw Hn Hdis Hub Hfs Hms Htop Hva Hoff Hoc Hun Hmem.
  destruct (page_bounds (p_va h) (p_memsz h) Hva Hms Htop) as (Hall & Hah & Hlo & Hlv & Hvl & Hhi1 & Hhi2 & Hht). fold lo hi in Hall, Hah, Hlo, Hlv, Hvl, Hhi1, Hhi2, Hht.
  assert (0 ≤ (hi - lo) / PGSIZE) by (apply Z.div_pos; unfold PGSIZE; lia).
  unfold load_segment. rewrite (proj2 (Z.ltb_ge _ _)) by lia.
  destruct (map_area_spec s p fd mm vs (p_va h) (p_memsz h) (seg_flags (ph_flags h)) root own bs U Hmi)
    as (s1 & U1 & bs1 & E1 & Epg & Epr & R1 & Et1 & Hi1 & Hc1 & Hh1 & Hw); try done; [|lia|].
  { fold lo hi. unfold USER_ACCESS. lia. }
  rewrite (bind_ok _ _ _ _ _ E1). cbn [Z.eqb negb]. rewrite bind_gets, Epg. fold root.
  destruct (fill_segment_spec s1 p fd root own bs1 U1 h) as (s' & E & L & R' & Hld); try done; [by rewrite Epr| |fold lo hi; lia|].
  { intros x Hx. rewrite (pte_at_tab (k_vms s)) by done. by apply Hun. }
  exists s'. split; [exact E|]. split; [done|]. rewrite (load_step_vmm _ _ L). split; [|exact Hw].
  exists bs1. split; [done|]. by eapply loaded_tab.
Qed.

End exec.

(** ** A heap of whole pages *)

(** Every block is a page of the page allocator, as the blocks of [kmalloc] from a page on are. *)
Section page_heap.
Context {F : Type} (pool : Z → Prop) (sw : bool) (swap_out : Z → M vms unit) (rounds : nat).

Definition page_kmalloc (sz : Z) : M (kern F) (option Z) := page ← on_pages (alloc_page sw swap_out rounds); mret (kva <$> page).
Definition page_kfree (b : Z) : M (kern F) unit := on_pages (free_page ((b - kva 0) / PGSIZE)).

Notation image_inv := (image_inv pool).
Notation heap_step := (heap_step (F := F) pool (λ _ _, True)).

Lemma kva_page page : (kva page - kva 0) / PGSIZE = page.
Proof. unfold kva, PGSIZE. replace (_ - _) with (page * 4096) by lia. by apply Z.div_mul. Qed.

(** The image while other pages are taken and returned. *)
Lemma image_phys v root own bs p' bs' :
  image_inv v root own bs → free_inv p' bs' → (∀ q bl, bl ∈ bs' → in_block q bl → ∃ bl', bl' ∈ bs ∧ in_block q bl') → image_inv (set_phys p' v) root own bs'.
Proof.
  intros [[[Hr Hd Ht] Hf [Ho Hm]] Hpl Hpg Hone] Hf' Hsub.
  assert (∀ q, Forall (λ bl, ¬ in_block q bl) bs → Forall (λ bl, ¬ in_block q bl) bs') as Hout.
  { intros q Hq. apply Forall_forall. intros bl Hbl Hin. destruct (Hsub q bl Hbl Hin) as (bl' & H1 & H2). rewrite Forall_forall in Hq. by apply (Hq bl'). }
  split; [split; [done|done|split]| | |exact Hone].
  - intros q Hq. by apply Hout, Ho.
  - intros q bl Hbl Hq. destruct (Hsub q bl Hbl Hq) as (bl' & ? & ?). by eapply Hm.
  - intros q bl Hbl Hq. destruct (Hsub q bl Hbl Hq) as (bl' & ? & ?). by eapply Hpl.
  - intros x Hx Hv. destruct (Hpg x Hx Hv). split; [done|]. by apply Hout.
Qed.

(** A step that takes or returns pages of [bs]. *)
Lemma phys_step root own U U' bs bs' v p' (s : kern F) :
  image_inv v root own bs → free_inv p' bs' → (∀ q bl, bl ∈ bs' → in_block q bl → ∃ bl', bl' ∈ bs ∧ in_block q bl') →
  tab (k_vms s) = tab v → total bs ≤ total bs' + 2 → (∀ a, frames bs' a → U' a) →
  heap_step root own U bs s (set_k_vms (set_phys p' (k_vms s)) s) U' bs'.
Proof.
  intros Hi Hf Hsub Et Hc HU. split; try done; [by destruct s as [? []]|]. apply (image_phys v _ _ _ p' bs') in Hi; [|done..].
  unfold set_phys in *. cbn [k_vms set_k_vms]. by rewrite Et.
Qed.

(** The block of one page behind the lowest free page is below another one, if there are two. *)
Lemma first_fit_below p bs b bs' :
  wf_blocks 0 bs → first_fit 1 bs = Some (b, bs') → 2 ≤ total bs → free_inv p bs' → below_last p b = true.
Proof.
  intros Hw Hff Ht Hf. unfold below_last. rewrite (list_prev_head _ _ _ (inv_links _ _ Hf)).
  destruct bs as [|[c m] bs]; [done|]. cbn [first_fit wf_blocks] in *. destruct Hw as (Hc & Hm & Hw). rewrite (proj2 (Z.leb_le 1 m)) in Hff by lia.
  injection Hff as <- <-. set (l := (if 1 <? m then _ else _)).
  assert (∀ d k, (d, k) ∈ l → c < d) as Hl.
  { intros d k. assert ((d, k) ∈ bs → c < d) as Hbs by (intros Hin; destruct (wf_elem _ _ _ _ Hw Hin); lia).
    subst l. destruct (1 <? m); rewrite ?elem_of_cons; [intros [[= -> _]|?]; [lia|by apply Hbs]|done]. }
  destruct (last (Elem <$> l.*1)) as [e|] eqn:E; [|done].
  apply last_Some_elem_of, list_elem_of_fmap in E as (d & -> & ([d' k] & -> & Hin)%list_elem_of_fmap). cbn. apply Z.ltb_lt. by eapply Hl.
Qed.

Lemma give_back_pages b bs q bl : bl ∈ give_back b 1 bs → in_block q bl → q = b ∨ ∃ bl', bl' ∈ bs ∧ in_block q bl'.
Proof.
  intros Hbl Hq. destruct (decide (q = b)) as [|Hqb]; [by left|right].
  destruct (decide (Forall (λ bl, ¬ in_block q bl) bs)) as [Hall|(bl2 & ? & Hn)%not_Forall_Exists%Exists_exists]; [| |apply _].
  - exfalso. assert (¬ in_block q (b, 1)) as Hqn by (unfold in_block; simpl; lia).
    pose proof (give_back_page q b bs Hqn Hall) as Hg. rewrite Forall_forall in Hg. by apply (Hg bl).
  - apply dec_stable in Hn. by exists bl2.
Qed.

#[export] Instance page_heap : HeapLaws pool page_kmalloc page_kfree (λ _ _, True).
Proof.
  split; [done|]. intros U s root own bs sz Hsz _ Hi Hfr Ht. pose proof (vi_free _ _ _ _ (ii_vm _ _ _ _ _ Hi)) as Hf.
  pose proof (alloc_page_spec swap_out rounds (k_vms s) bs Hf) as Ha. pose proof (first_fit_split 1 bs) as Hnone.
  destruct (first_fit 1 bs) as [[b bs1]|] eqn:Hff.
  2: { exfalso. destruct bs as [|[c m] bs]; [cbn in Ht; lia|]. apply Forall_cons in Hnone as [Hm _]. pose proof (inv_wf _ _ Hf) as (_ & ? & _). cbn in Hm. lia. }
  clear Hnone. destruct Ha as (p1 & E & Hf1 & Hal & _). apply (alloc_pages_sw sw) in E.
  destruct (first_fit_page bs b bs1 (inv_wf _ _ Hf) Hff) as ((bl & Hbl & Hb) & Hnb & _ & Hsub).
  pose proof (first_fit_total _ _ _ _ Hff) as Etot. pose proof (inv_total _ _ Hf) as H32.
  assert (∀ a, range (kva b) PGSIZE a → frames bs a) as Hbf by (intros a Ha; by exists b, bl).
  exists (kva b), (set_k_vms (set_phys p1 (k_vms s)) s), bs1, (λ a, U a ∧ ¬ range (kva b) PGSIZE a).
  split; [unfold page_kmalloc; by rewrite (bind_ok _ _ _ _ _ (zoom_ok k_vms set_k_vms _ s _ _ E))|]. split; [|split_and!].
  - eapply (phys_step _ _ _ _ _ _ (k_vms s)); try done; [lia|]. intros a (q & bl' & Hbl' & Hq & Hr).
    split; [destruct (Hsub q bl' Hbl' Hq) as (bl2 & ? & ?); apply Hfr; by exists q, bl2|]. intros Hrb. rewrite Forall_forall in Hnb.
    apply (Hnb bl' Hbl'). replace b with q; [done|]. unfold range, kva, PGSIZE in *. lia.
  - by intros a [? _].
  - intros a Ha Hn. split; [done|]. intros Hrb. by apply Hn, Hbf.
  - intros a Ha [_ Hn]. apply Hn. unfold range, sizeof_vma, IOBUF_SIZE, PGSIZE in *. destruct Hsz; lia.
  - intros s2 Ev _. cbn [k_vms set_k_vms] in Ev. pose proof (image_phys _ _ _ _ p1 bs1 Hi Hf1 Hsub) as Hi1. rewrite <-Ev in Hi1.
    assert (own b = None ∧ 0 ≤ b < npage - nbase) as [Hown Hbr].
    { destruct (held_after_alloc bs own b bs1 Root (inv_wf _ _ Hf) (vi_held _ _ _ _ (ii_vm _ _ _ _ _ Hi)) Hff) as (? & ? & _). done. }
    destruct (free_page_spec (k_vms s2) root own bs1 b (ii_vm _ _ _ _ _ Hi1)) as (p3 & E3 & Hv3 & _).
    { rewrite Ev. split; [done..| | |lia].
      - by eapply first_fit_self_apart; [|apply Hf|].
      - by eapply first_fit_below; [apply Hf|..]. }
    exists (set_k_vms (set_phys p3 (k_vms s2)) s2), (give_back b 1 bs1), U. split; [|split].
    + unfold page_kfree. rewrite kva_page. exact (zoom_ok k_vms set_k_vms _ s2 _ _ E3).
    + assert (∀ q bl', bl' ∈ give_back b 1 bs1 → in_block q bl' → ∃ bl2, bl2 ∈ bs ∧ in_block q bl2) as Hsub3.
      { intros q bl' Hbl' Hq. destruct (give_back_pages b bs1 q bl' Hbl' Hq) as [->|(bl2 & H2 & Hq2)]; [by exists bl|by eapply Hsub]. }
      eapply (phys_step _ _ _ _ _ _ (k_vms s)); try done; [by apply vi_free in Hv3|by rewrite Ev|rewrite give_back_total; lia|].
      intros a (q & bl' & Hbl' & Hq & Hr). destruct (Hsub3 q bl' Hbl' Hq) as (bl2 & ? & ?). apply Hfr. by exists q, bl2.
    + by intros a [? _].
Qed.

End page_heap.

(** ** An example *)

(** The kernel thread of [KernelProofs] with the file 200 of the example volume, the bytes 7 and 8, open
    as descriptor 0, and an empty address space 9 with the directory in page 0x300.  Swapping is on. *)
Definition exec_ops (k : ops_kind) : inode_ops node_st :=
  sfs_fileops no_errors (λ _, mret tt) (λ _, InodeOps _ None None None None None None None None None None None None None None None).

Definition exec_vst : node_st :=
  Vst (λ _, 1) (λ _, 1) (λ _, inode_type_sfs_inode_info) (λ _, Some sfs_node_fileops) (λ _, None) (λ _, None)
    (λ _ fd, if fd =? 0 then File FD_OPENED true false 0 0 (Some 200) 1 else File FD_NONE false false fd 0 None 0) (λ _, 1) None None [] None
    (k_vmm example_vst) (λ _, 0) (example_sfs 240).

Definition exec_kern : kern sfst :=
  Kern (k_pt example_kthread) exec_vst (k_vms example_kthread) (λ _, 0x300) 0 (λ _, 0) (λ _, Trapframe (λ _, 0) 0 0 0 0) (λ _, Context 0 0).

Definition exec_pool (page : Z) : Prop := 0x400 ≤ page < 0x400 + 20.
Definition exec_own (p : Z) : option role := if decide (p = 0x300) then Some Root else None.
Definition exec_seg : proghdr := Proghdr ELF_PT_LOAD (Z.lor ELF_PF_R ELF_PF_W) 1 0x800010 1 0x1000.
Definition exec_swap_out (_ : Z) : M vms unit := panic.

Lemma exec_image : UserImage.image_inv exec_pool (k_vms exec_kern) 0x300 exec_own [(0x400, 20)].
Proof.
  assert (∀ x, pte_at (k_vms exec_kern) 0x300 x = 0) as H0 by done.
  split; [|by intros p bl ->%list_elem_of_singleton|intros x _; by rewrite H0|intros x y _ _; by rewrite H0].
  split; [split; [done|by intros i _ Hv|by intros i j _ _ Hv]|apply example_kern_pages_inv|split].
  - intros p. unfold exec_own. case_decide; [|done]. intros _. subst. apply Forall_singleton. unfold in_block. simpl. lia.
  - intros p bl ->%list_elem_of_singleton. unfold in_block, npage, nbase. simpl. lia.
Qed.

Lemma exec_good : sfs_good example_files 200 [7; 8] (fs_view exec_kern).
Proof. split; [by apply example_volume|by right|done|done|by vm_compute]. Qed.

Lemma load_segment_correct_witness : ∃ s',
  load_segment exec_ops true exec_swap_out 0 false (λ _ _, panic)
    (page_kmalloc true exec_swap_out 0) page_kfree 9 0 exec_seg exec_kern = Ok (0, s') ∧
  user_byte (k_vms s') 0x300 0x800010 = Some 8 ∧ user_byte (k_vms s') 0x300 0x80100f = Some 0.
Proof.
  pose proof (sfs_file_data no_errors (λ _ _, eq_refl) (λ _, mret tt)
    (λ _, InodeOps _ None None None None None None None None None None None None None None None) example_files 200 [7; 8] ltac:(repeat constructor; lia)) as Hd.
  destruct (load_segment_correct exec_ops sfs_node_fileops 200 [7; 8] (sfs_good example_files 200 [7; 8]) exec_pool
    ltac:(intros page Hp; unfold exec_pool, npage, nbase in *; lia)
    (page_kmalloc true exec_swap_out 0) page_kfree (λ _ _, True) ltac:(simpl; lia)
    true exec_swap_out 0 false (λ _ _, panic) (λ _, eq_refl) exec_kern 7 0 9 [] exec_own [(0x400, 20)] (λ _, True) exec_seg) as (s' & E & _ & (bs1 & _ & Hl) & _).
  - apply exec_image.
  - done.
  - split; try (by vm_compute); [by vm_compute; split..|apply exec_good].
  - by vm_compute.
  - split; [split; [apply NoDup_singleton|done]|done|by intros v ?%elem_of_nil|done|done|done].
  - by intros v ?%elem_of_nil.
  - done.
  - by intros v ?%elem_of_nil.
  - by vm_compute.
  - by vm_compute.
  - by vm_compute.
  - by vm_compute.
  - by vm_compute.
  - by vm_compute.
  - by vm_compute.
  - done.
  - by vm_compute.
  - exists s'. split; [exact E|].
    destruct Hl as [_ Hdat Hzer]. split; [apply (Hdat 0x800010)|apply (Hzer 0x80100f)]; vm_compute; split; done.
Defined.
