(* ===== verification/TrapProofs.v ===== *)
(** * Traps: proofs

    When a user program runs on after a trap, and when it does not. *)

From S2P Require Import Prelude ListH Pmm CString Printf PrintfProofs SkewHeap Sched Sync Vmm VmmProofs Pgtable PgtableProofs Addr AddrProofs Kmalloc Proc Vfs File Kernel Sysfile Exec Pipe Console Syscall Trap KernelProofs.

(** ** Threads *)

Lemma tbind_ret_inv {S A B} (m : M S (thread S A)) (k : A → M S (thread S B)) (s : S) b (s' : S) :
  tbind m k s = Ok (Ret b, s') → ∃ a s1, m s = Ok (Ret a, s1) ∧ k a s1 = Ok (Ret b, s').
Proof.
  intros (t & s1 & E1 & E2)%bind_ok_inv. destruct t as [a|c]; [by exists a, s1|]. done.
Qed.

Lemma tbind_ret {S A B} (m : M S (thread S A)) (k : A → M S (thread S B)) (s : S) a (s1 : S) :
  m s = Ok (Ret a, s1) → tbind m k s = k a s1.
Proof. intros E. unfold tbind. by rewrite (bind_ok _ _ _ _ _ E). Qed.

(** A thread that never comes to its end. *)
Definition never_returns {S A} (t : thread S A) : Prop := ∃ k, t = Suspended k ∧ ∀ s : S, k s = Panic.

Section proofs.
Context {F : Type} (e : kenv F).

Implicit Types s : machine F.

Lemma do_exit_never ops b so r code (s : kern F) t (s' : kern F) : do_exit ops b so r code s = Ok (t, s') → never_returns t.
Proof.
  unfold do_exit. intros (u & s1 & _ & E)%bind_ok_inv. apply bind_ok_inv in E as (v & s2 & _ & E). injection E as <- <-.
  by eexists.
Qed.

Lemma exit_thread_never ops b so r code s (f : trapframe) t s' :
  (_ ⇐ on_thread (do_exit ops b so r code); tret f) s = Ok (t, s') → never_returns t.
Proof.
  intros (t1 & s1 & E1 & E2)%bind_ok_inv. unfold on_thread in E1. apply bind_ok_inv in E1 as (t0 & s0 & E0 & E1). injection E1 as <- <-.
  unfold on_kern, zoom in E0. destruct (do_exit _ _ _ _ _ _) as [[t2 k2]| |] eqn:Ed; try done. injection E0 as <- <-.
  destruct (do_exit_never _ _ _ _ _ _ _ _ Ed) as (c & -> & Hc). injection E2 as <- <-. eexists. split; [reflexivity|].
  intros s2. cbn. by rewrite Hc.
Qed.

(** ** The way out *)

Definition exiting (s : machine F) : bool := truth (Z.land (p_flags (cur_proc (m_kern s))) PF_EXITING).

Lemma leave_kernel_inv tf s t s' :
  leave_kernel e tf s = Ok (t, s') →
  if exiting s then never_returns t
  else if p_need_resched (cur_proc (m_kern s)) =? 0 then t = Ret tf ∧ s' = s
  else ∃ k, t = Suspended k ∧ ∀ s2, k s2 = Ok (Ret tf, s2).
Proof.
  unfold leave_kernel. rewrite bind_gets. unfold exiting. destruct (truth _) eqn:Ef.
  - apply exit_thread_never.
  - destruct (Z.eqb_spec (p_need_resched (cur_proc (m_kern s))) 0); cbn [negb].
    + by intros [= <- <-].
    + intros (u & s1 & _ & E)%bind_ok_inv. injection E as <- <-. by eexists.
Qed.

(** The table of exceptions: only a breakpoint with 10 in [a7] leaves directly. *)
Lemma exception_exec addr tf s s' :
  exception_handler e addr tf s = Ok (Ret true, s') → tf_cause tf = CAUSE_BREAKPOINT ∧ gpr tf reg_a7 = 10.
Proof.
  unfold exception_handler. destruct (Z.eqb_spec (tf_cause tf) CAUSE_BREAKPOINT) as [Ec|_].
  - intros (u & s1 & _ & E)%bind_ok_inv. destruct (Z.eqb_spec (gpr tf reg_a7) 10) as [Ea|_]; [done|]. done.
  - destruct (_ =? CAUSE_MISALIGNED_STORE); [done|]. destruct (_ =? CAUSE_USER_ECALL).
    { intros (u & s1 & _ & E)%tbind_ret_inv. done. }
    destruct (_ =? CAUSE_SUPERVISOR_ECALL).
    { intros (u & s1 & _ & E)%bind_ok_inv. apply tbind_ret_inv in E as (v & s2 & _ & E). done. }
    destruct (fault_text _) as [t|].
    { intros (u & s1 & _ & E)%bind_ok_inv. apply bind_ok_inv in E as (v & s2 & _ & E). done. }
    destruct (exception_text _) as [t|]; intros (u & s1 & _ & E)%bind_ok_inv; done.
Qed.

Lemma dispatch_exec addr tf s s' :
  trap_dispatch e addr tf s = Ok (Ret true, s') → tf_cause tf = CAUSE_BREAKPOINT ∧ gpr tf reg_a7 = 10.
Proof.
  unfold trap_dispatch. destruct (_ <? 0); [|apply exception_exec]. intros (u & s1 & _ & E)%bind_ok_inv. done.
Qed.

(** The state in which the handlers run. *)
Definition entered (addr : Z) (tf : trapframe) (s : machine F) : machine F :=
  let cur := current (psc (k_pt (m_kern s))) in
  set_m_kern (set_k_frame cur tf (set_k_tf cur addr (m_kern s))) s.

Lemma trap_user_run addr tf s :
  has_current s = true → trap e addr tf s =
    (exec_ret ⇐ trap_dispatch e addr tf;
     (let cur := current (psc (k_pt (m_kern s))) in
      tf' ← gets (λ s : machine F, k_frame (m_kern s) cur);
      if exec_ret : bool then tret tf'
      else
        on_kern (modify (λ s1 : kern F, set_k_frame cur (if addr =? k_tf (m_kern s) cur then tf' else k_frame (m_kern s) cur) (set_k_tf cur (k_tf (m_kern s) cur) s1)));;
        if trap_in_kernel tf then tret tf' else leave_kernel e tf')) (entered addr tf s).
Proof.
  intros H. unfold trap. rewrite bind_gets, H. cbn [negb].
  assert (on_kern (on_pt get_cur) s = Ok (current (psc (k_pt (m_kern s))), s)) as Ec by (by destruct s as [[]]).
  rewrite (bind_ok _ _ _ _ _ Ec), !bind_gets. by erewrite bind_ok by (apply zoom_ok; reflexivity).
Qed.

(** ** Faults *)

(** Output leaves everything but the console as it is, and returns for the formats of this
    file: 120 is enough fuel for each line. *)
Fixpoint parse_format (l : list Z) : list directive :=
  match l with
  | 37 :: 48 :: 56 :: 120 :: r => Num true 8 0 Hex :: parse_format r
  | 37 :: 112 :: r => Pointer :: parse_format r
  | 37 :: 99 :: r => Char :: parse_format r
  | c :: r => Plain c :: parse_format r
  | [] => []
  end.

Definition simple_dir (d : directive) : bool :=
  match d with Plain c => (0 <? c) && negb (c =? 37) | Str => false | Num _ w _ _ => (0 <=? w) && (w <? 2 ^ 31) | _ => true end.

Definition good_format (fmt : string) : bool :=
  match lit fmt with
  | Lit l _ => bool_decide (render (parse_format l) = l) && forallb simple_dir (parse_format l) && bool_decide (length l < 100)%nat
  | At _ => false
  end.

Lemma simple_dir_ok d : simple_dir d = true → dir_ok d ∧ d ≠ Str.
Proof. destruct d; simpl; intros H; try (split; [done|done]); b2p; split; try done; lia. Qed.

Lemma no_strings_ok {S} (ld : Z → M S Z) str K va ds ap : Forall (λ d, dir_ok d ∧ d ≠ Str) ds → strings_ok ld str K va ds ap.
Proof. intros H. revert ap. induction H as [|d ds [_ Hd] _ IH]; intros ap; [done|]. split; [|apply IH]. by intros ->. Qed.

Lemma cprintf_ok fuel fmt va c : good_format fmt = true → (120 ≤ fuel)%nat → ∃ n c', cprintf fuel (lit fmt) va c = Ok (n, c').
Proof.
  unfold good_format, lit. set (l := _ <$> _). intros [[H1%bool_decide_eq_true H2]%andb_prop H3%bool_decide_eq_true]%andb_prop Hf.
  rewrite forallb_forall in H2. assert (Forall (λ d, dir_ok d ∧ d ≠ Str) (parse_format l)) as Hds.
  { apply Forall_forall. intros d Hd. by apply simple_dir_ok, H2, list_elem_of_In. }
  set (put1 := λ (c : Z) (t : console * Z), match cputch c t with Ok (_, t') => t' | _ => t end).
  assert (∀ c t, cputch c t = Ok (tt, put1 c t)) as Hput.
  { intros x [t n]. unfold put1, cputch, cons_putc, serial_putc. cbn [fst snd]. by destruct (negb (x =? 8)). }
  unfold cprintf, vcprintf, with_count, vprintfmt.
  rewrite (vprintfmt_text _ _ put1 Hput (λ _, []) 0 va (parse_format l)); [by destruct (put_all _ _ _); eauto| | | |].
  - eapply Forall_impl; [exact Hds|]. by intros d [? _].
  - by apply no_strings_ok.
  - rewrite H1. apply reads_lit.
  - rewrite H1. lia.
Qed.

Hypothesis Hfuel : (120 ≤ ke_fuel e)%nat.

Lemma say_ok fmt va s : good_format fmt = true → ∃ c, say e fmt va s = Ok (tt, set_m_cons c s).
Proof.
  intros Hg. destruct (cprintf_ok (ke_fuel e) fmt va (m_cons s) Hg Hfuel) as (n & c & E). exists c.
  unfold say, on_cons. by erewrite bind_ok by (apply zoom_ok; exact E).
Qed.

Lemma print_names_ok l r g s : Forall (λ name, good_format (name +:+ "0x%08x" +:+ newline) = true) l →
  ∃ c, print_names e l r g s = Ok (tt, set_m_cons c s).
Proof.
  intros Hl. revert r s. induction Hl as [|name l Hn _ IH]; intros r s; cbn [print_names]; [exists (m_cons s); by destruct s|].
  destruct (say_ok _ (λ _, g r) s Hn) as (c & E). rewrite (bind_ok _ _ _ _ _ E). destruct (IH (r + 1) (set_m_cons c s)) as (c' & ->). by exists c'.
Qed.

Lemma print_trapframe_ok addr tf s : ∃ c, print_trapframe e addr tf s = Ok (tt, set_m_cons c s).
Proof.
  unfold print_trapframe, print_regs.
  destruct (say_ok ("trapframe at %p" +:+ newline) (λ _, addr) s eq_refl) as (c1 & E1). rewrite (bind_ok _ _ _ _ _ E1).
  destruct (print_names_ok reg_names 0 (gpr tf) (set_m_cons c1 s)) as (c2 & E2); [by repeat constructor|]. rewrite (bind_ok _ _ _ _ _ E2).
  destruct (say_ok ("  status   0x%08x" +:+ newline) (λ _, tf_status tf) (set_m_cons c2 (set_m_cons c1 s)) eq_refl) as (c3 & E3). rewrite (bind_ok _ _ _ _ _ E3).
  destruct (say_ok ("  epc      0x%08x" +:+ newline) (λ _, tf_epc tf) (set_m_cons c3 (set_m_cons c2 (set_m_cons c1 s))) eq_refl) as (c4 & E4). rewrite (bind_ok _ _ _ _ _ E4).
  destruct (say_ok ("  tval 0x%08x" +:+ newline) (λ _, tf_tval tf) (set_m_cons c4 (set_m_cons c3 (set_m_cons c2 (set_m_cons c1 s)))) eq_refl) as (c5 & E5).
  rewrite (bind_ok _ _ _ _ _ E5). destruct (say_ok ("  cause    0x%08x" +:+ newline) (λ _, tf_cause tf) (set_m_cons c5 (set_m_cons c4 (set_m_cons c3 (set_m_cons c2 (set_m_cons c1 s))))) eq_refl) as (c6 & ->).
  by exists c6.
Qed.

Lemma handle_pgfault_outside addr tf s mm vs :
  has_current s = true → check_mm_struct s = None → p_mm (cur_proc (m_kern s)) = Some mm →
  mm_inv (k_vmm (k_fs (m_kern s))) mm vs → lookup_vma (k_vmm (k_fs (m_kern s))) vs (tf_tval tf) = None →
  handle_pgfault e addr tf s = Panic.
Proof.
  intros Hc Hk Hmm Hmi Hl. unfold handle_pgfault, pgfault_handler. rewrite bind_assoc, bind_gets, Hk, bool_decide_eq_false_2 by (by intros []).
  cbn [when]. rewrite bind_assoc, bind_ret, !bind_assoc, bind_gets, Hc. cbn [negb]. rewrite bind_gets, Hmm.
  destruct (do_pgfault_outside (swap_init_ok e) (ke_swap_out e) (ke_rounds e) false (ke_map_swappable e) (ke_swap_in e) (ke_as_swappable e)
    mm vs (tf_tval tf) (as_view (m_kern s)) Hmi Hl) as (a & E & _).
  unfold on_kern, on_as. erewrite bind_ok by (apply zoom_ok, zoom_ok; exact E). change (- E_INVAL =? 0) with false. cbn [negb].
  match goal with |- (print_trapframe e addr tf ≫= _) ?x = _ => destruct (print_trapframe_ok addr tf x) as (c & Ep) end.
  by rewrite (bind_ok _ _ _ _ _ Ep).
Qed.

End proofs.

(** C9. When a trap comes from user mode and is not the breakpoint of [kernel_execve], the
    program runs on only if the process has not been killed and need not be
    rescheduled: if the trap returns at once, [PF_EXITING] and [need_resched] of
    the current process are clear.  If the process has been killed when the handlers
    are done, it is never run again: what is left of the trap does not return to the
    program however the process is resumed.  A process that gives up the processor
    on the way returns with the frame the handlers have left. *)
Theorem user_return_checked {F} (e : kenv F) addr tf s t s' :
  has_current s = true → trap_in_kernel tf = false → (tf_cause tf = CAUSE_BREAKPOINT → gpr tf reg_a7 ≠ 10) →
  trap e addr tf s = Ok (t, s') →
  (∀ f, t = Ret f → exiting s' = false ∧ p_need_resched (cur_proc (m_kern s')) = 0) ∧
  (∀ s2, trap_dispatch e addr tf (entered addr tf s) = Ok (Ret false, s2) →
    (exiting s2 = true → never_returns t) ∧
    (exiting s2 = false → p_need_resched (cur_proc (m_kern s2)) ≠ 0 → ∃ k f, t = Suspended k ∧ f = k_frame (m_kern s2) (current (psc (k_pt (m_kern s)))) ∧ ∀ s3, k s3 = Ok (Ret f, s3))).
Proof.
  intros Hc Hu Hx E. rewrite trap_user_run in E by done. cbv zeta in E. rewrite Hu in E. set (cur := current (psc (k_pt (m_kern s)))) in *. split.
  - intros f ->. apply tbind_ret_inv in E as (b & s2 & E2 & E). destruct b.
    { apply dispatch_exec in E2 as [H1 H2]. by apply Hx in H1. }
    rewrite bind_gets in E. apply bind_ok_inv in E as (u & s3 & _ & E). apply leave_kernel_inv in E.
    destruct (exiting s3) eqn:Ee; [by destruct E as (k & ? & _)|].
    destruct (Z.eqb_spec (p_need_resched (cur_proc (m_kern s3))) 0); [|by destruct E as (k & ? & _)]. destruct E as [_ ->]. done.
  - intros s2 E2. rewrite (tbind_ret _ _ _ _ _ E2), bind_gets in E. apply bind_ok_inv in E as (u & s3 & E3 & E). apply leave_kernel_inv in E.
    assert (exiting s3 = exiting s2 ∧ cur_proc (m_kern s3) = cur_proc (m_kern s2)) as [H1 H2].
    { unfold on_kern, zoom in E3. cbn in E3. injection E3 as <- <-. done. }
    rewrite H1, H2 in E. split.
    + intros Ht. by rewrite Ht in E.
    + intros Ht Hn. rewrite Ht in E. rewrite (proj2 (Z.eqb_neq _ _)) in E by done. destruct E as (k & -> & Hk). by eexists k, _.
Qed.

(** C38. A load or store outside the areas of the address space stops the whole kernel: the trap
    ends in a panic, whatever the program, its registers, the state of the other
    processes and swapping.  (The process is not killed; a user program is treated as
    the kernel itself.)  The fuel is what printing one line of the trap frame needs. *)
Theorem user_fault_stops_kernel {F} (e : kenv F) addr tf s mm vs :
  (120 ≤ ke_fuel e)%nat → has_current s = true → check_mm_struct s = None → p_mm (cur_proc (m_kern s)) = Some mm →
  mm_inv (k_vmm (k_fs (m_kern s))) mm vs →
  tf_cause tf = CAUSE_LOAD_PAGE_FAULT ∨ tf_cause tf = CAUSE_STORE_PAGE_FAULT →
  lookup_vma (k_vmm (k_fs (m_kern s))) vs (tf_tval tf) = None →
  trap e addr tf s = Panic.
Proof.
  intros Hf Hc Hk Hmm Hmi Hcause Hl. rewrite trap_user_run by done. unfold tbind.
  assert (∃ t, fault_text (tf_cause tf) = Some t ∧ good_format (t +:+ newline) = true ∧
    trap_dispatch e addr tf (entered addr tf s) = (say e (t +:+ newline) (λ _, 0);; handle_pgfault e addr tf;; tret false) (entered addr tf s))
    as (t & _ & Hg & Ed).
  { unfold trap_dispatch, exception_handler. destruct Hcause as [-> | ->]; eexists; (split; [reflexivity|]); (split; [by vm_compute|reflexivity]). }
  unfold mbind at 1, M_bind at 1. rewrite Ed. destruct (say_ok e Hf _ (λ _, 0) (entered addr tf s) Hg) as (c & Es). rewrite (bind_ok _ _ _ _ _ Es).
  unfold mbind, M_bind. by rewrite (handle_pgfault_outside e Hf addr tf (set_m_cons c (entered addr tf s)) mm vs).
Qed.

(** A system call with a number that is not in the table stops the kernel as well. *)
Lemma undefined_syscall_panics {F} (e : kenv F) s :
  let num := s32 (gpr (k_frame (m_kern s) (current (psc (k_pt (m_kern s))))) reg_a0) in
  syscall_entry e num = None → syscall e s = Panic.
Proof.
  intros num Hn. assert (cur_frame s = Ok (k_frame (m_kern s) (current (psc (k_pt (m_kern s)))), s)) as Ef by (by destruct s as [[]]).
  unfold syscall. rewrite (bind_ok _ _ _ _ _ Ef). fold num. destruct (_ && _)%bool; [|done]. by rewrite Hn.
Qed.

(** A running user process: process 2 of the example of [KernelProofs]. *)
Definition example_env : kenv unit :=
  Kenv unit no_ops (FsOps _ (λ _, mret 0) (λ _, mret None) (λ _, mret 0) (λ _, mret tt)) 200 false (λ _, mret tt) 0 (λ _ _, mret tt)
    (λ _ _, mret (0, 0)) (λ _ _, mret tt) 0 0 0 0 0 0 0 0 (λ _, mret None) (λ _, mret tt) (mret (ForkAllocs None None [] None)) (mret None).

(** The same machine once [kern_init] has set up swapping. *)
Definition swapping_env : kenv unit :=
  Kenv unit no_ops (FsOps _ (λ _, mret 0) (λ _, mret None) (λ _, mret 0) (λ _, mret tt)) 200 true (λ _, mret tt) 0 (λ _ _, mret tt)
    (λ _ _, mret (0, 0)) (λ _ _, mret tt) 0 0 0 0 0 0 0 0 (λ _, mret None) (λ _, mret tt) (mret (ForkAllocs None None [] None)) (mret None).

Definition example_machine : machine unit :=
  Machine example_kern
    (Pst (Sync (psc example_pt) (λ _, None) (λ _, 0) (λ _, None) (λ x, ListEntry x x) (λ _, 0) (λ _, 0) (λ _, 0) (λ _, 0) (λ _, None))
      (λ _, 0) (λ _, 0) (λ _ _, 0) (λ _, 0) 0 0 (λ _, 0))
    (Console (λ _, 0) 0 0 [] [] (λ _, 0) (λ _, 0)) 0 None true.

(** [getpid] from user mode. *)
Definition example_ecall : trapframe := Trapframe (λ r, if r =? reg_a0 then SYS_getpid else r) 0 0x800000 0 CAUSE_USER_ECALL.

Lemma user_return_checked_witness :
  ∃ f s', trap example_env 0x1000 example_ecall example_machine = Ok (Ret f, s') ∧ gpr f reg_a0 = 2 ∧ tf_epc f = 0x800004 ∧ exiting s' = false.
Proof.
  destruct (trap example_env 0x1000 example_ecall example_machine) as [[[f|k] s']| |] eqn:E; try (vm_compute in E; discriminate E).
  exists f, s'. split; [reflexivity|].
  destruct (user_return_checked example_env 0x1000 example_ecall example_machine (Ret f) s' eq_refl eq_refl ltac:(discriminate) E) as [H _].
  split; [vm_compute in E; by injection E as <- _|]. split; [vm_compute in E; by injection E as <- _|]. by apply (H f).
Defined.

(** The same process reads at an address below its areas. *)
Definition example_fault : trapframe := Trapframe (λ r, r) 0 0x800000 0x10 CAUSE_LOAD_PAGE_FAULT.
Definition faulting_machine : machine unit :=
  set_m_kern (set_k_vms (Vms up20_held3 (λ _ _, 0)) (m_kern example_machine)) example_machine.

Lemma user_fault_stops_kernel_witness : trap swapping_env 0x1000 example_fault faulting_machine = Panic.
Proof.
  apply (user_fault_stops_kernel swapping_env 0x1000 example_fault faulting_machine 1 []); try done.
  - cbn. lia.
  - split; [split; [apply NoDup_singleton|done]|done|by intros v ?%elem_of_nil|done|done|done].
  - by left.
Defined.

(** An instruction that is not legal is reported and then executed again. *)
Lemma illegal_instruction_repeats : ∃ s',
  trap example_env 0x1000 (Trapframe (λ r, r) 0 0x800000 0 CAUSE_ILLEGAL_INSTRUCTION) example_machine =
    Ok (Ret (Trapframe (λ r, r) 0 0x800000 0 CAUSE_ILLEGAL_INSTRUCTION), s').
Proof. eexists. vm_compute. reflexivity. Qed.
