(* ===== verification/CheckSync.v ===== *)
(** * kern/sync/check_sync.c: the threads of the philosophers

    The bodies of the philosopher threads, with the sleeps and the output around the
    procedures of [Philosophers], and [check_sync], which creates the threads and
    waits for them.  The state joins the machine of [Syscall] with the arrays of the
    program; the semaphores are those of the machine. *)

From S2P Require Import Prelude ListH Pmm CString Printf SkewHeap Sched Sync Vmm Pgtable Addr Kmalloc Proc Vfs File Kernel Sysfile Exec Pipe Console Syscall Trap SchedProofs Timers SyncProofs Philosophers.

Record dining (F : Type) := Dining {
  dn_machine : machine F;
  dn_sema : Z → Z;
  dn_condvar : Z → Z;
  philosopher_proc_sema : Z → option Z;
  philosopher_proc_condvar : Z → option Z;
}.
Arguments Dining {F}. Arguments dn_machine {F}. Arguments dn_sema {F}. Arguments dn_condvar {F}.
Arguments philosopher_proc_sema {F}. Arguments philosopher_proc_condvar {F}.

Definition TIMES : Z := 4.
Definition SLEEP_TIME : Z := 10.

(** The characters of a string constant. *)
Definition chars (s : string) (i : Z) : Z :=
  match String.get (Z.to_nat i) s with Some c => Z.of_N (Ascii.N_of_ascii c) | None => 0 end.

Section check_sync.
Context {F : Type} (e : kenv F).

Notation m := (machine F).
Notation d := (dining F).

Definition set_dn_machine (v : m) (s : d) : d := Dining v (dn_sema s) (dn_condvar s) (philosopher_proc_sema s) (philosopher_proc_condvar s).

(** The table of [Philosophers] in the machine. *)
Definition table_view (s : d) : table := Table (psync (io_view (dn_machine s))) (dn_sema s) (dn_condvar s).
Definition table_put (t : table) (s : d) : d :=
  Dining (io_put (set_psync (tsync t) (m_io (dn_machine s))) (dn_machine s)) (state_sema t) (state_condvar t)
    (philosopher_proc_sema s) (philosopher_proc_condvar s).

Definition on_machine {A} (x : M m A) : M d A := zoom dn_machine set_dn_machine x.
Definition machine_thread {A} (x : M m (thread m A)) : M d (thread d A) :=
  t ← on_machine x; mret (zoom_thread dn_machine set_dn_machine t).
Definition on_table {A} (x : M table A) : M d A := zoom table_view table_put x.
Definition table_thread {A} (x : M table (thread table A)) : M d (thread d A) :=
  t ← on_table x; mret (zoom_thread table_view table_put t).

(** [do_sleep] of the current process; its timer is on its stack. *)
Definition sleep : M d (thread d Z) := machine_thread (on_thread (cur ← on_pt get_cur; do_sleep (ke_fuel e) cur SLEEP_TIME)).

(** The loop of a philosopher: [n] turns are left and [iter] have been taken. *)
Fixpoint philosopher_loop (n : nat) (take put : M table (thread table unit)) (thinks eats : string) (i iter : Z) : M d (thread d unit) :=
  match n with
  | O => tret tt
  | S n' =>
    let iter := iter + 1 in
    let args := λ x, if x =? 0 then iter else i in
    on_machine (say e thinks args);;
    _ ⇐ sleep;
    _ ⇐ table_thread take;
    (on_machine (say e eats args);;
     _ ⇐ sleep;
     _ ⇐ table_thread put;
     philosopher_loop n' take put thinks eats i iter)
  end.

(** [arg] is the number of the philosopher. *)
Definition philosopher_using_semaphore (at_mutex at_s arg : Z) : M d (thread d Z) :=
  let i := s32 arg in
  on_machine (say e ("I am No.%d philosopher_sema" +:+ newline) (λ _, i));;
  _ ⇐ philosopher_loop (Z.to_nat TIMES) (phi_take_forks_sema at_mutex at_s i) (phi_put_forks_sema at_mutex at_s i)
        ("Iter %d, No.%d philosopher_sema is thinking" +:+ newline) ("Iter %d, No.%d philosopher_sema is eating" +:+ newline) i 0;
  (on_machine (say e ("No.%d philosopher_sema quit" +:+ newline) (λ _, i));;
   tret 0).

Definition philosopher_using_condvar (mtp arg : Z) : M d (thread d Z) :=
  let i := s32 arg in
  on_machine (say e ("I am No.%d philosopher_condvar" +:+ newline) (λ _, i));;
  _ ⇐ philosopher_loop (Z.to_nat TIMES) (phi_take_forks_condvar mtp i) (phi_put_forks_condvar mtp i)
        ("Iter %d, No.%d philosopher_condvar is thinking" +:+ newline) ("Iter %d, No.%d philosopher_condvar is eating" +:+ newline) i 0;
  (on_machine (say e ("No.%d philosopher_condvar quit" +:+ newline) (λ _, i));;
   tret 0).

(** ** check_sync *)

(** The entry of kernel threads, the [sstatus] register, and the addresses of the two thread
    functions. *)
Context (kernel_thread_entry sstatus using_semaphore using_condvar : Z).

(** A new thread that runs [fn] on [i]; the descriptor of the process is returned. *)
Definition start_thread (fn i : Z) (name : string) : M d (Z * option Z) :=
  pid ← on_machine (on_kern (a ← ke_fork_allocs e;
    kernel_thread (ke_ops e) (swap_init_ok e) (ke_swap_out e) (ke_rounds e) (ke_boot_pgdir e) (ke_boot_cr3 e) (ke_forkret e)
      kernel_thread_entry a sstatus fn i 0));
  if pid <=? 0 then panic
  else
    proc ← on_machine (on_kern (on_pt (find_proc pid)));
    (match proc with
     | Some p => on_machine (on_kern (on_pt (set_proc_name p (chars name))))
     | None => panic
     end);;
    mret (pid, proc).

(** The first loops: [before] sets up what philosopher [i] uses. *)
Fixpoint start_all (n : nat) (fn i : Z) (name : string) (before : Z → M d unit) (store : Z → option Z → d → d) : M d (list Z) :=
  match n with
  | O => mret []
  | S n' =>
    before i;;
    '(pid, proc) ← start_thread fn i name;
    modify (store i proc);;
    pids ← start_all n' fn (i + 1) name before store;
    mret (pid :: pids)
  end.

(** The second loops. *)
Fixpoint wait_all (pids : list Z) : M d (thread d unit) :=
  match pids with
  | [] => tret tt
  | pid :: pids =>
    r ⇐ machine_thread (on_thread (do_wait (ke_ops e) (swap_init_ok e) (ke_swap_out e) (ke_rounds e) (ke_fuel e) (λ _ _, mret tt) pid 0));
    (assert (r =? 0);; wait_all pids)
  end.

(** [kfree(mtp->cv)]. *)
Definition monitor_free (mtp num_cv : Z) : M d unit :=
  c ← gets (λ s : d, mon_cv (psync (m_io (dn_machine s))) mtp);
  match c with Some c => on_machine (on_kern (ke_kfree e c)) | None => mret tt end.

(** [sizeof(condvar_t)]: a semaphore (value and queue), a counter and the owner. *)
Definition sizeof_condvar : Z := 40.

Definition check_sync (at_mutex at_s mtp : Z) : M d (thread d unit) :=
  on_table (on_sync (sem_init (mutex at_mutex) 1));;
  pids ← start_all (Z.to_nat N) using_semaphore 0 "philosopher_sema_proc"
    (λ i, on_table (on_sync (sem_init (s_sem at_s i) 0)))
    (λ i p s, Dining (dn_machine s) (dn_sema s) (dn_condvar s) (upd i p (philosopher_proc_sema s)) (philosopher_proc_condvar s));
  _ ⇐ wait_all pids;
  (cvs ← on_machine (on_kern (ke_kmalloc e (sizeof_condvar * N)));
   on_table (on_sync (monitor_init mtp N cvs));;
   pids ← start_all (Z.to_nat N) using_condvar 0 "philosopher_condvar_proc"
     (λ i, on_table (modify (set_state_condvar i THINKING)))
     (λ i p s, Dining (dn_machine s) (dn_sema s) (dn_condvar s) (philosopher_proc_sema s) (upd i p (philosopher_proc_condvar s)));
   _ ⇐ wait_all pids;
   (monitor_free mtp N;; tret tt)).

End check_sync.
